(* ===== verification/_CoqProject ===== *)
-Q . S2P
Prelude.v
RateLimit.v
AuditTrail.v
Store.v
Transactions.v
EnvLogic.v
Jobs.v
JobFacts.v
JobConcurrency.v
Approval.v
ApprovalFacts.v
Rbac.v
RbacFacts.v
Deploy.v
DeployLogic.v
DeployFacts.v
GoBytes.v
KeyCrypto.v
Identity.v
Session.v
SessionFacts.v
SessionLife.v
AuthGate.v
AuthGateFacts.v
Breakglass.v
BreakglassFacts.v
Agents.v
AgentFacts.v
AcmeWire.v
AcmeWireFacts.v
CertStore.v
Revocation.v
RevocationFacts.v
Acme.v
AcmeFrame.v
AcmeFacts.v
AcmeOrderFacts.v
Notify.v
NotifyFacts.v
Lifecycle.v
LifecycleFacts.v
LifecycleScan.v
LifecycleCsr.v
NetAddr.v
NetAddrFacts.v
Egress.v
EgressFacts.v
EgressScan.v
Validation.v
ValidationFacts.v
Bootstrap.v
BootstrapFacts.v
HealthCheck.v
HealthFacts.v
OidcStore.v
Oidc.v
OidcFacts.v
OidcApiFacts.v
Retention.v
Scheduler.v
SchedulerFacts.v
