(* ===== verification/Prelude.v ===== *)
(** * certctl: a verification development

    certctl is a control plane for the certificate life cycle: HTTP services and a
    scheduler (internal/service, internal/scheduler) work over one PostgreSQL database
    (internal/repository/postgres); agents poll the server for jobs and install
    certificates on their hosts.  Humans approve gated work, an authorizer decides every
    call by role-based permissions, every change is written to an append-only audit trail,
    and rate limiters protect the enrolment endpoints.  This library models that core and
    proves what makes it correct - and, where the code does not do what it documents, the
    theorem that shows so.

    ** The execution model (this file)

    Go errors are values of [error] with [errors.Is] as the source uses it; a Go
    [(T, error)] pair is a [res T].  Texts of formatted errors are kept up to their
    context strings and the wrapped sentinel.  Stateful code runs in the monad
    [M D A = World D -> A * World D] over a database [D] and an environment: a clock that
    advances by arbitrary non-negative amounts between readings, an id counter, and a list
    of faults.  Each SQL statement consumes one fault: it succeeds, fails without effect,
    or takes effect while the client sees an error.  A theorem about "any world" therefore
    covers every placement of failures and every reading of the clock.  What it does not cover is
    interleaving: a call of a service runs whole, and a sequence of calls is one call after
    another.  Requests that the server handles at the same time, and replicas on one database, run
    their statements interleaved, and a check that is followed by a write in a later statement may
    then be outdated.  Interleavings are modelled where the code guards against them - claims of
    jobs, the bounded fan-out, the bootstrap token, the probe pool, the scheduler - and where they
    defeat a check, by cutting the call at the check and running other calls in between:
    [parallel_guesses_compared] (break-glass logins), [ocsp_put_after_revoke] (the OCSP cache),
    [racing_responses_strand_order] (ACME challenges), [concurrent_scans_duplicate] (expiry
    alerts), [retired_agent_overwritten] (heartbeats), [shared_table_couples_limiters] (limiters
    on one table), [oidc_two_first_admins], [login_undoes_deactivation], [probe_overwrites_edits].
    The judgements [pres] (a preorder
    between the database before and after), [keeps] (an invariant with a result) and
    [since] (relations that need the clock) are closed under sequencing; the tactics
    [pres_step], [since_step] and the hint database [certctl] walk an operation down to its
    statements.  Times are nanoseconds in [Z]; an [int] is a [Z] with [wrap64] where the
    code's arithmetic can overflow.

    ** The files

    - RateLimit.v: internal/ratelimit.  [Module SlidingWindow] is sliding_window.go (the
      map iteration order of the eviction scan is a parameter), [Module PostgresWindow] is
      postgres_sliding_window.go and postgres_gc.go, [Module LimiterSpec] the exact
      sliding-window specification, [LimiterCorrect], [LimiterEviction] and [LimiterGC] the
      supporting lemmas.  Theorems: the bound of the window, refinement of the specification
      by both backends, invisibility of the janitor, boundedness of the map, and the lost
      bound of a full map.
    - AuditTrail.v: service/audit_redact.go, service/audit.go, postgres/audit.go.  The
      class [HasAudit] is the interface through which the other components write the log.
      Theorems: the redactor scrubs every deny-listed key of the untyped maps and slices at any depth and
      changes nothing else (typed maps pass as they are), a write appends one row or none, paging is complete, and two read paths that do
      not do what they document.
    - Store.v: the tables the services share (domain/*.go) as one record [DB], with the
      single-row reads of postgres/certificate.go, owner.go and agent.go.
    - Jobs.v: [Module JobRepo] is postgres/job.go, [Module JobService] is service/job.go and
      the polling half of service/agent.go, [Module Verification] is service/verification.go.
      The work a job dispatches to is a parameter of [processJob].
    - JobFacts.v: exactness of claiming, retrying, approving and listing, the attempt budget
      over any sequence of operations, and the defects found in the reaper, the listing, the
      verification results and the lookup.
    - JobConcurrency.v: [Module ClaimRace] is FOR UPDATE SKIP LOCKED between replicas as a
      step relation (claims are exclusive), [Module FanOut] the bounded fan-out of
      service/job.go with its goroutines and cancellation (cap, no lost job, termination).
    - Approval.v: [Module ApprovalRepo] is postgres/approval.go, [Module ProfileRepo] is
      postgres/profile.go, [Module ApprovalService] is service/approval.go with the callback
      of cmd/server/main.go, [Module ProfileService] the gated edit of service/profile.go,
      [Module Renewal] is TriggerRenewal of service/certificate.go.
    - ApprovalFacts.v: decisions are final, one open request per job, two-person integrity,
      exactness of [Approve]; and that the gate in front of renewals and profile edits does
      not close, with two more defects of the workflow.
    - Rbac.v: [Module Catalogue] is domain/auth/validate.go, [Module AuthRepo] is
      postgres/auth.go, [Module AuthService] is service/auth.
    - RbacFacts.v: [CheckPermission] decides exactly the scoped grant, no sequence of calls
      escalates privileges, the tables stay well-formed, the default roles confine role
      management to admin, the demo actor is out of reach, and what [Grant] stores.
    - Deploy.v: internal/deploy.  [Module Files] is the file system with its system calls,
      [Module Writing] is atomic.go and ownership.go, [Module Applying] is apply.go.
      DeployLogic.v is a small program logic for it (footprints and triples), DeployFacts.v
      has the theorems: a write is all or nothing, a refused deployment touches no live
      file, a successful one installs the plan with its ownership, a failed one is rolled
      back - each for every choice of failing system calls.
    - GoBytes.v: the Go byte strings and standard-library functions the identity code uses
      (prefixes, splitting, decimal and hexadecimal text, base64url, SHA-256, HMAC), with
      test vectors and round trips.
    - KeyCrypto.v: internal/crypto/encryption.go, the versioned encryption of secrets; what
      is written can be read.
    - Identity.v: the identity tables: auth/session/domain/types.go and, as [Module
      SessionRepo] and [Module KeyRepo], postgres/session.go.
    - Session.v: [Module Cookies] and [Module SessionService] are auth/session/service.go,
      [Module PreLogin] is auth/oidc/prelogin.go over postgres/oidc_prelogin.go.
    - SessionFacts.v: cookies round-trip and their MAC input is unambiguous, the tables stay
      well-typed under any calls and failures, and [Validate] accepts exactly live sessions.
      SessionLife.v: a new session validates until its deadline, a revoked one never again,
      key rotation and sweeps log nobody out, a pre-login cookie works once.
    - AuthGate.v: [Module KeyStore] is auth/apikey.go and keystore.go, [Module Gate] the
      middlewares of auth and auth/session, [Module Router] the table of
      api/router/router.go, [Module Server] the chain of cmd/server.  AuthGateFacts.v: every
      mutating route is gated, a gated handler runs only for an authenticated and authorised
      request (composing the chain with [Validate] and [CheckPermission]), and which open
      routes are in fact closed.
    - Breakglass.v: [Module Argon2Hash] is the encoded password hash, [Module BreakglassRepo]
      is postgres/breakglass.go, [Module BreakglassService] is auth/breakglass/service.go.
      BreakglassFacts.v: a hash verifies exactly its password, logins are genuine, guessing is
      bounded by the lockout, and a new password ends the sessions of the actor.
    - Transactions.v: [WithinTx] of postgres/tx.go.  A transaction works on a copy of the
      tables that a commit installs; statements on the pool inside it see the old tables.
      [hoare] and [in_tx] are the rules with which the services above it are verified;
      EnvLogic.v adds what is known of the environment ([ehoare]).
    - AcmeWire.v: the protocol layer internal/api/acme: [Module Problems] (errors.go),
      [Orders] (order.go), [Keys] (the account keys of jws.go, challenge.go, nonce.go), [Ari]
      (ari.go), [Jws] (VerifyJWS of jws.go) and [KeyChange] (keychange.go).  AcmeWireFacts.v:
      account keys and certificate ids round-trip, a CSR matches exactly the identifiers of
      the order, renewal windows are intervals in the life of the certificate.
    - CertStore.v: the issuance tables, the issuer connectors, [Module CertRepo]
      (postgres/certificate.go) and [Module CertService] (Create of service/certificate.go).
    - Revocation.v: [RevocationRepo], [OcspRepo] and [CrlRepo] are the repositories,
      [RevocationService] is service/revocation_svc.go and bulk_revocation.go, [CaOperations]
      is ca_operations.go with the OCSP and CRL caches.  RevocationFacts.v: a revocation is
      stored and audited whole or not at all, every revocation is on the CRL, a revoked
      certificate is never reported good by a working database - and is by a failing one.
    - Acme.v: [Module AcmeRepo] is postgres/acme.go, [Module AcmeService] is service/acme.go
      with acme_orders.go, acme_authz.go, acme_challenges.go, acme_nonces.go and acme_gc.go;
      [run_calls] is any sequence of its calls.  AcmeFrame.v says which tables each call can
      change.  AcmeFacts.v: a request is accepted once, accounts stay consistent with their
      keys, deactivation and key rollover take effect.  AcmeOrderFacts.v: an order leaves
      pending only when every authorization is proven, a challenge becomes valid only by a
      verdict of the validators, and no order can be finalized against the shipped schema.
    - Agents.v: [Module AgentRepo] is postgres/agent.go, [Module AgentService] the registration,
      heartbeat, offline sweep and retirement of service/agent.go and agent_retire.go.
      AgentFacts.v: retirement is all or nothing, a retired agent is frozen, a registered
      agent is found by its key, and the heartbeat a recovering agent loses.
    - Notify.v: [Module NotificationRepo] and [Module NotificationService] are
      postgres/notification.go and service/notification.go, with the calls of the notifiers in
      an outbox.  NotifyFacts.v: the search for an earlier alert is exact, the ladder of the
      retry sweep, and that no notification ever gets onto it.
    - Lifecycle.v: the alert policy of domain/certificate.go, service/crypto_validation.go,
      renewal.go, deployment.go and the CSR half of agent.go.  LifecycleFacts.v: an alert is
      raised once, a server-mode renewal is all or nothing.  LifecycleScan.v: what the expiry
      scan never touches.  LifecycleCsr.v: nothing is dispatched to a dead agent, the key rules
      of profiles hold for submitted CSRs, and a CSR revives a revoked certificate.
    - NetAddr.v: net.IP, its parsing and printing, CIDR blocks, host and port.  NetAddrFacts.v:
      a printed address parses back, also behind a joined port.
    - Egress.v: [Module Ssrf] is validation/ssrf.go, [Module Challenge] the dials of
      api/acme/validators.go, [Module Scan] the expansion of service/network_scan.go; the
      resolver may answer differently each time.  EgressFacts.v: the guarded dial never reaches
      a reserved address, the HTTP-01 dial can.  EgressScan.v: addresses as numbers, the
      expansion is exactly the block, the reserved ranges, and endpoints nobody can dial.
    - Validation.v: [Module Regexp] (syntax, meaning, matcher), [Runes] (UTF-8), [Command],
      [Names], [Headers] and [Unicode] are validation/command.go, headers.go and unicode.go.
      ValidationFacts.v: the matcher is correct, the domain check accepts exactly these names,
      quoted arguments read back as themselves.
    - Bootstrap.v: [Module Strategy] and [Module Service] are auth/bootstrap, [Module OidcHook]
      the hook of cmd/server/main.go, [Module Race] the interleaving of callers.
      BootstrapFacts.v: one caller passes the gate, a minted key works and is the last one,
      and how a restart or a second login gets past.
    - HealthCheck.v: [Module HealthCheckRepo], [ProbePool], [HealthService] and [HealthHandler] are
      endpoint health monitoring from the tables to the HTTP handlers; the TLS probe is an
      argument.  HealthFacts.v: every schedule of the probes ends with the same results, what a
      run leaves in every row, the invariant of all calls, and the lost edits.
    - OidcStore.v: users, providers, group mappings and claims with their repositories.  Oidc.v:
      [Module OidcService] is the authorization-code flow of auth/oidc/service.go, [LocalAuth] the
      password login, [Admin] the handlers that change providers, mappings and users; the OIDC
      client libraries and bcrypt are classes.  OidcFacts.v: what a completed login has checked,
      and that its roles are granted to nobody.  OidcApiFacts.v: all calls together leave every
      provider disabled, edits that logins do not see, and passwords.
    - Retention.v: service/user_retention.go over the same tables; whom a purge touches, what it
      leaves, and why only one user of a tenant can be purged.
    - Scheduler.v: [Module Sched] is scheduler/scheduler.go, each loop a [LoopCode], the goroutines
      interleaved by [sched_step].  SchedulerFacts.v: runs do not overlap, a reported shutdown is
      complete, the scheduler winds down up to service calls that do not return, and services set after [Start] never run.
    ** Parameters

    Code outside the repository appears as arguments: [strings.ToLower] (with its documented
    value on ASCII text where a theorem needs it), [uuid.NewString], the JSON codec of a
    pending profile edit, the order in which Go iterates a map, IP and CIDR parsing in the
    trusted-proxy check, the DNS resolver, the Unicode tables, and the
    cryptography of [Ciphers] (PBKDF2, AES-GCM), [Argon2], [Entropy] and [Jose] (go-jose's keys
    and signatures), whose documented laws are the classes [CiphersOk], [Argon2Ok], [EntropyOk]
    and [JoseOk], with instances that satisfy them; the formatting of [GoRuntime]; [X509] (key generation, PEM and certificate requests);
    [IdP] (the OIDC and OAuth client libraries) and [Bcrypt], with [BcryptOk]; the answers
    of issuer connectors, of the policy engine and of the certificate parser.  Loops are
    structural recursions over the lists they range over; SHA-256 runs over exactly the
    blocks of its padded message.  The concurrent components are step relations whose
    termination or invariants are proved by induction on steps.

    ** Not modelled

    EST and SCEP, agent groups, the jitter of the scheduler's timers, back-channel logout, HTTP
    decoding, connectors, ASN.1 and the agent binary.  ACME validators run on the network:
    their verdicts are arbitrary.  The database keeps microseconds and the model
    nanoseconds; request paths are taken as the multiplexer cleans them.  Metrics and log lines have no effect on the modelled
    state and are left out; context cancellation appears in the fan-out and the scheduler, where
    the code tests for it.  The hash chain of the audit table is computed by a database trigger. *)

From stdpp Require Import prelude gmap strings list sorting.
From Stdlib Require Import ZArith Lia.

#[global] Open Scope Z_scope.

(** ** Go error values

    [errors.New] sentinels are compared by identity ([ErrSentinel] carries the
    variable's text), [fmt.Errorf] without [%w] builds an [ErrMsg], with a
    trailing [%w] an [ErrWrap], with a leading [%w] an [ErrWrapPre]. *)
Inductive error :=
  | ErrSentinel (text : string)
  | ErrMsg (text : string)
  | ErrWrap (ctx : string) (e : error)
  | ErrWrapPre (e : error) (detail : string).

#[global] Instance error_eq_dec : EqDecision error.
Proof. solve_decision. Defined.

(** [err.Error()] *)
Fixpoint Error (e : error) : string :=
  match e with
  | ErrSentinel t | ErrMsg t => t
  | ErrWrap ctx e' => (ctx +:+ ": " +:+ Error e')%string
  | ErrWrapPre e' d => (Error e' +:+ ": " +:+ d)%string
  end.

(** [errors.Is(err, target)] for a sentinel [target]. *)
Fixpoint errors_Is (e target : error) : bool :=
  bool_decide (e = target) ||
  match e with
  | ErrWrap _ e' | ErrWrapPre e' _ => errors_Is e' target
  | _ => false
  end.

(** A Go [(T, error)] pair whose value is used only when the error is nil. *)
Inductive res (A : Type) :=
  | Ok (a : A)
  | Err (e : error).
Arguments Ok {A} a.
Arguments Err {A} e.

#[global] Instance res_eq_dec {A} `{EqDecision A} : EqDecision (res A).
Proof. solve_decision. Defined.

Definition is_Ok {A} (r : res A) : bool :=
  match r with Ok _ => true | Err _ => false end.

Lemma is_Ok_inv {A} (r : res A) : is_Ok r = true → ∃ a, r = Ok a.
Proof. destruct r as [a|e]; [by exists a|done]. Qed.

(** ** The environment of a control-plane operation

    Every SQL statement may fail: [FFail] is a statement that was not executed,
    [FLost] one that took effect while the client saw an error (a lost
    connection).  Statements consume the [faults] list in order; past its end
    they succeed.  [ticks] are the (non-negative) advances of the clock between
    consecutive readings.  An operation has the database to itself while it runs:
    other requests and replicas run before or after it, not in between. *)
Inductive fault := FOk | FFail | FLost.

#[global] Instance fault_eq_dec : EqDecision fault.
Proof. solve_decision. Defined.

Record Env := mkEnv {
  env_clock : Z;
  env_ticks : list N;
  env_faults : list fault;
  env_counter : N
}.

Record World (D : Type) := mkWorld { w_db : D; w_env : Env }.
Arguments mkWorld {D} w_db w_env.
Arguments w_db {D} _.
Arguments w_env {D} _.

(** Stateful code over a database [D]. *)
Definition M (D A : Type) : Type := World D → A * World D.

#[global] Instance M_ret D : MRet (M D) := λ A a w, (a, w).
#[global] Instance M_bind D : MBind (M D) := λ A B f m w,
  let '(a, w') := m w in f a w'.

(** [time.Now()], and SQL's [NOW()]. *)
Definition now {D} : M D Z := λ w,
  let e := w_env w in
  match env_ticks e with
  | [] => (env_clock e, w)
  | t :: ts =>
      let c := env_clock e + Z.of_N t in
      (c, mkWorld (w_db w) (mkEnv c ts (env_faults e) (env_counter e)))
  end.

(** The outcome the database layer has in store for the next statement. *)
Definition next_fault {D} : M D fault := λ w,
  let e := w_env w in
  match env_faults e with
  | [] => (FOk, w)
  | f :: fs => (f, mkWorld (w_db w) (mkEnv (env_clock e) (env_ticks e) fs (env_counter e)))
  end.

(** A process-wide counter, [idCounter.Add(1)]. *)
Definition fresh {D} : M D N := λ w,
  let e := w_env w in
  let n := (env_counter e + 1)%N in
  (n, mkWorld (w_db w) (mkEnv (env_clock e) (env_ticks e) (env_faults e) n)).

Definition get_db {D} : M D D := λ w, (w_db w, w).
Definition put_db {D} (d : D) : M D unit := λ w, (tt, mkWorld d (w_env w)).

(** A read-only SQL query. *)
Definition sql_query {D A} (op : string) (f : D → A) : M D (res A) :=
  flt ← next_fault;
  match flt with
  | FOk => d ← get_db; mret (Ok (f d))
  | _ => mret (Err (ErrMsg op))
  end.

(** A SQL statement or transaction that may change the database; [f] returns
    the client-visible outcome together with the new database. *)
Definition sql_exec {D A} (op : string) (f : D → res A * D) : M D (res A) :=
  flt ← next_fault;
  match flt with
  | FOk => d ← get_db; let '(r, d') := f d in _ ← put_db d'; mret r
  | FFail => mret (Err (ErrMsg op))
  | FLost => d ← get_db; _ ← put_db (snd (f d)); mret (Err (ErrMsg op))
  end.

(** A statement takes effect once or not at all. *)
Lemma sql_exec_cases {D A} op (f : D → res A * D) w :
  w_db (snd (sql_exec op f w)) = w_db w ∨ w_db (snd (sql_exec op f w)) = snd (f (w_db w)).
Proof.
  unfold sql_exec, next_fault, mbind, M_bind, mret, M_ret, get_db, put_db.
  destruct (env_faults (w_env w)) as [|[| |] fs]; cbn; auto; destruct (f (w_db w)); auto.
Qed.

(** Running primitives when no statement fails. *)
Lemma now_run {D} (w : World D) :
  ∃ t w', now w = (t, w') ∧ w_db w' = w_db w ∧ env_faults (w_env w') = env_faults (w_env w).
Proof. unfold now. destruct (env_ticks (w_env w)); eexists _, _; by split_and!. Qed.

Lemma query_run {D A} op (f : D → A) (w : World D) :
  env_faults (w_env w) = [] → sql_query op f w = (Ok (f (w_db w)), w).
Proof. intros Hf. unfold sql_query, next_fault, mbind, M_bind. by rewrite Hf. Qed.

Lemma exec_run {D A} op (f : D → res A * D) (w : World D) :
  env_faults (w_env w) = [] →
  sql_exec op f w = ((f (w_db w)).1, mkWorld (f (w_db w)).2 (w_env w)).
Proof.
  intros Hf. unfold sql_exec, next_fault, mbind, M_bind, get_db, put_db, mret, M_ret. rewrite Hf.
  by destruct (f (w_db w)).
Qed.

Lemma bind_run {D A B} (m : M D A) (f : A → M D B) (w w' : World D) (x : A) :
  m w = (x, w') → (m ≫= f) w = f x w'.
Proof. intros H. unfold mbind, M_bind. by rewrite H. Qed.

Lemma bind_inv {D A B} (m : M D A) (f : A → M D B) (w : World D) y :
  (m ≫= f) w = y → ∃ x w', m w = (x, w') ∧ f x w' = y.
Proof. unfold mbind, M_bind. destruct (m w) as [x w'] eqn:E. eauto. Qed.

(** [for _, x := range l { body }] where the body always falls through. *)
Fixpoint for_each {D A} (l : list A) (body : A → M D unit) : M D unit :=
  match l with
  | [] => mret tt
  | x :: l' => _ ← body x; for_each l' body
  end.

(** ** Machine integers: Go's [int] is 64 bits wide and wraps around. *)
Definition wrap64 (z : Z) : Z := (z + 2 ^ 63) mod 2 ^ 64 - 2 ^ 63.

Lemma wrap64_small z : - 2 ^ 63 ≤ z < 2 ^ 63 → wrap64 z = z.
Proof. intros H. unfold wrap64. rewrite Z.mod_small; lia. Qed.

(** ** Lists *)
Lemma filter_all {A} (P : A → Prop) `{∀ x, Decision (P x)} (l : list A) :
  Forall P l → filter P l = l.
Proof.
  induction 1 as [|x l Hx Hl IH]; [done|]. by rewrite filter_cons_True, IH.
Qed.

Lemma filter_none {A} (P : A → Prop) `{∀ x, Decision (P x)} (l : list A) :
  Forall (λ x, ¬ P x) l → filter P l = [].
Proof.
  induction 1 as [|x l Hx Hl IH]; [done|]. by rewrite filter_cons_False.
Qed.

Lemma NoDup_map_sublist {A B} (f : A → B) (l k : list A) :
  NoDup (map f k) → l `sublist_of` k → NoDup (map f l).
Proof.
  intros Hk Hl. eapply sublist_NoDup; [exact Hk|]. clear Hk.
  induction Hl; cbn; [constructor|by apply sublist_skip|by apply sublist_cons].
Qed.

(** ** Two-state invariants

    [pres R m]: whatever the environment does, running [m] relates the
    database before and after by [R].  For a preorder [R] the judgement is
    closed under sequencing, which is how every "each operation only ever ..."
    theorem of the development is proved. *)
Definition pres {D A} (R : relation D) (m : M D A) : Prop :=
  ∀ w, R (w_db w) (w_db (snd (m w))).

Section pres.
Context {D : Type} (R : relation D) `{!PreOrder R}.

Lemma pres_ret {A} (a : A) : pres R (mret a : M D A).
Proof. intros w. reflexivity. Qed.

Lemma pres_bind {A B} (m : M D A) (f : A → M D B) :
  pres R m → (∀ a, pres R (f a)) → pres R (m ≫= f).
Proof.
  intros Hm Hf w. unfold mbind, M_bind.
  pose proof (Hm w) as H1. destruct (m w) as [a w'] eqn:E. cbn in *.
  etransitivity; [exact H1 | apply Hf].
Qed.

Lemma pres_now : pres R (now : M D Z).
Proof. intros w. unfold now. destruct (env_ticks _); reflexivity. Qed.

Lemma pres_next_fault : pres R (next_fault : M D fault).
Proof. intros w. unfold next_fault. destruct (env_faults _); reflexivity. Qed.

Lemma pres_fresh : pres R (fresh : M D N).
Proof. intros w. reflexivity. Qed.

Lemma pres_query {A} op (f : D → A) : pres R (sql_query op f).
Proof.
  apply pres_bind; [apply pres_next_fault|].
  intros [| |]; try apply pres_ret. intros w; reflexivity.
Qed.

Lemma pres_exec {A} op (f : D → res A * D) :
  (∀ d, R d (snd (f d))) → pres R (sql_exec op f).
Proof.
  intros Hf. apply pres_bind; [apply pres_next_fault|].
  intros [| |]; [|apply pres_ret|]; intros w; cbn.
  - unfold mbind, M_bind, get_db, put_db, mret, M_ret.
    specialize (Hf (w_db w)). destruct (f (w_db w)); exact Hf.
  - apply Hf.
Qed.

Lemma pres_for_each {A} (l : list A) (body : A → M D unit) :
  (∀ x, pres R (body x)) → pres R (for_each l body).
Proof.
  intros Hb. induction l as [|x l IH]; cbn; [apply pres_ret|].
  apply pres_bind; [apply Hb | intros _; exact IH].
Qed.
End pres.

(** ** State invariants with a result

    [keeps I m Q]: [m] preserves the invariant [I] of the database and its
    result satisfies [Q]. *)
Definition keeps {D A} (I : D → Prop) (m : M D A) (Q : A → Prop) : Prop :=
  ∀ w, I (w_db w) → I (w_db (snd (m w))) ∧ Q (fst (m w)).

#[global] Instance preserves_preorder {D} (I : D → Prop) : PreOrder (λ d d', I d → I d').
Proof. split; [by intros d|]. intros d1 d2 d3; auto. Qed.

Section keeps.
Context {D : Type} (I : D → Prop).

Lemma keeps_ret {A} (a : A) (Q : A → Prop) : Q a → keeps I (mret a : M D A) Q.
Proof. intros HQ w HI. done. Qed.

Lemma keeps_bind {A B} (m : M D A) (f : A → M D B) P Q :
  keeps I m P → (∀ a, P a → keeps I (f a) Q) → keeps I (m ≫= f) Q.
Proof.
  intros Hm Hf w HI. unfold mbind, M_bind. destruct (Hm w HI) as [H1 H2].
  destruct (m w) as [a w']; cbn in *. by apply Hf.
Qed.

(** An operation that leaves the database alone. *)
Lemma keeps_free {A} (m : M D A) Q :
  (∀ w, w_db (snd (m w)) = w_db w) → (∀ w, Q (fst (m w))) → keeps I m Q.
Proof. intros H HQ w HI. by rewrite H. Qed.

Lemma keeps_now {B} (f : Z → M D B) Q :
  (∀ t, keeps I (f t) Q) → keeps I (now ≫= f) Q.
Proof.
  intros Hf. apply (keeps_bind _ _ (λ _, True)); [|by intros].
  apply keeps_free; [|done]. intros w. unfold now. by destruct (env_ticks _).
Qed.

Lemma keeps_query {A} op (f : D → A) Q :
  (∀ d, I d → Q (Ok (f d))) → Q (Err (ErrMsg op)) → keeps I (sql_query op f) Q.
Proof.
  intros Hf He w HI. unfold sql_query, next_fault, mbind, M_bind, mret, M_ret, get_db.
  destruct (env_faults (w_env w)) as [|[| |] fs]; cbn; auto.
Qed.

Lemma keeps_exec {A} op (f : D → res A * D) (Q : res A → Prop) :
  (∀ d, I d → I (snd (f d)) ∧ Q (fst (f d))) → Q (Err (ErrMsg op)) → keeps I (sql_exec op f) Q.
Proof.
  intros Hf He w HI. unfold sql_exec, next_fault, mbind, M_bind, mret, M_ret, get_db, put_db.
  destruct (Hf _ HI) as [H1 H2]. destruct (env_faults (w_env w)) as [|[| |] fs]; cbn;
    destruct (f (w_db w)); auto.
Qed.

Lemma keeps_for_each {A} (l : list A) (body : A → M D unit) :
  (∀ x, x ∈ l → keeps I (body x) (λ _, True)) → keeps I (for_each l body) (λ _, True).
Proof.
  induction l as [|x l IH]; intros Hb; cbn; [by apply keeps_ret|].
  eapply keeps_bind; [apply Hb; left|]. intros _ _. apply IH. intros y Hy. apply Hb. by right.
Qed.

Lemma keeps_true {A} (m : M D A) Q : keeps I m Q → keeps I m (λ _, True).
Proof. intros H w HI. split; [by apply H|done]. Qed.

Lemma keeps_pres {A} (m : M D A) : pres (λ d d', I d → I d') m → keeps I m (λ _, True).
Proof. intros H w HI. split; [by apply H|done]. Qed.
End keeps.

(** ** Time-indexed two-state invariants

    [since c R m]: started at any world whose clock is at least [c], [m]
    relates the world before and after by [R].  Relations used with it allow the
    clock to advance ([EnvClosed]). *)
Definition clock {D} (w : World D) : Z := env_clock (w_env w).

Lemma now_clock {D} (w : World D) :
  w_db (now w).2 = w_db w ∧ (now w).1 = clock (now w).2 ∧ clock w ≤ clock (now w).2 ∧
  env_faults (w_env (now w).2) = env_faults (w_env w).
Proof. unfold now, clock. destruct (env_ticks (w_env w)); cbn; split_and!; try done; lia. Qed.

Definition since {D A} (c : Z) (R : relation (World D)) (m : M D A) : Prop :=
  ∀ w, c ≤ clock w → clock w ≤ clock (snd (m w)) ∧ R w (snd (m w)).

Class EnvClosed {D} (R : relation (World D)) : Prop :=
  env_closed w w' : w_db w' = w_db w → clock w ≤ clock w' → R w w'.

Section since.
Context {D : Type} (R : relation (World D)) `{!Transitive R} `{!EnvClosed R}.

Lemma since_ret {A} c (a : A) : since c R (mret a : M D A).
Proof. intros w _. split; [done|]. by apply env_closed. Qed.

Lemma since_bind {A B} c (m : M D A) (f : A → M D B) :
  since c R m → (∀ a, since c R (f a)) → since c R (m ≫= f).
Proof.
  intros Hm Hf w Hc. unfold mbind, M_bind. destruct (Hm w Hc) as [H1 H2].
  destruct (m w) as [a w']; cbn in *.
  destruct (Hf a w' ltac:(lia)) as [H3 H4]. split; [lia|]. by etransitivity.
Qed.

Lemma since_now {B} c (f : Z → M D B) :
  (∀ t, c ≤ t → since t R (f t)) → since c R (now ≫= f).
Proof.
  intros Hf w Hc. unfold mbind, M_bind, now, clock in *.
  destruct (env_ticks (w_env w)) as [|t ts].
  - by apply Hf.
  - set (w1 := mkWorld _ _). set (c1 := env_clock (w_env w) + Z.of_N t) in *.
    destruct (Hf c1 ltac:(lia) w1 ltac:(done)) as [H1 H2]; unfold clock in *; cbn in *.
    split; [lia|]. etransitivity; [|exact H2]. apply env_closed; [done|].
    unfold clock; cbn. lia.
Qed.

Lemma since_free {A} c (m : M D A) :
  (∀ w, w_db (snd (m w)) = w_db w ∧ clock w ≤ clock (snd (m w))) → since c R m.
Proof. intros H w _. destruct (H w). split; [done|]. by apply env_closed. Qed.

Lemma since_query {A} c op (f : D → A) : since c R (sql_query op f).
Proof.
  apply since_free. intros w. unfold sql_query, next_fault, mbind, M_bind, mret, M_ret, get_db, clock.
  destruct (env_faults (w_env w)) as [|[| |] fs]; cbn; split; done || lia.
Qed.

Lemma since_exec {A} c op (f : D → res A * D) :
  (∀ w e, c ≤ clock w → env_clock e = clock w →
     R w (mkWorld (snd (f (w_db w))) e)) → since c R (sql_exec op f).
Proof.
  intros Hf w Hc. unfold sql_exec, next_fault, mbind, M_bind, mret, M_ret, get_db, put_db.
  destruct (env_faults (w_env w)) as [|[| |] fs]; cbn.
  - specialize (Hf w (w_env w) Hc eq_refl). destruct (f (w_db w)); cbn in *. done.
  - match goal with |- context [mkWorld _ ?e] => specialize (Hf w e Hc eq_refl) end.
    destruct (f (w_db w)); cbn in *. done.
  - split; [done|]. by apply env_closed.
  - split; [done|]. apply Hf; done.
Qed.

Lemma since_for_each {A} c (l : list A) (body : A → M D unit) :
  (∀ x, x ∈ l → since c R (body x)) → since c R (for_each l body).
Proof.
  induction l as [|x l IH]; intros Hb; cbn; [apply since_ret|].
  apply since_bind; [apply Hb; by left|]. intros _. apply IH. intros y Hy. apply Hb. by right.
Qed.
End since.

Lemma since_weaken {D A} (R : relation (World D)) c c' (m : M D A) :
  c' ≤ c → since c' R m → since c R m.
Proof. intros Hle H w Hw. apply H. lia. Qed.

(** ** World preorders

    [wpres R m]: every run of [m] relates the worlds before and after by [R].  A [Steady]
    relation holds whenever the database is left alone: the clock and the counter do not
    go back and no failure appears from nowhere. *)
Definition env_le (e e' : Env) : Prop :=
  env_clock e ≤ env_clock e' ∧ (env_counter e ≤ env_counter e')%N ∧
  (env_faults e = [] → env_faults e' = []).

#[global] Instance env_le_preorder : PreOrder env_le.
Proof.
  split; [intros e; split_and!; auto; lia|].
  intros e1 e2 e3 (H1 & H2 & H3) (H4 & H5 & H6). split_and!; [lia|lia|auto].
Qed.

Class Steady {D} (R : relation (World D)) : Prop :=
  steady w w' : w_db w' = w_db w → env_le (w_env w) (w_env w') → R w w'.

Definition wpres {D A} (R : relation (World D)) (m : M D A) : Prop := ∀ w, R w (snd (m w)).

Section wpres.
Context {D : Type} (R : relation (World D)) `{!PreOrder R} `{!Steady R}.

Lemma wpres_ret {A} (a : A) : wpres R (mret a : M D A).
Proof. intros w. reflexivity. Qed.

Lemma wpres_bind {A B} (m : M D A) (f : A → M D B) :
  wpres R m → (∀ a, wpres R (f a)) → wpres R (m ≫= f).
Proof.
  intros Hm Hf w. unfold mbind, M_bind. specialize (Hm w). destruct (m w) as [a w1]. cbn in *.
  etransitivity; [exact Hm|apply Hf].
Qed.

Lemma wpres_now : wpres R (now : M D Z).
Proof.
  intros w. apply steady; unfold now; destruct (env_ticks _); cbn; try done.
  split_and!; cbn; [lia|lia|done].
Qed.

Lemma wpres_fresh : wpres R (fresh : M D N).
Proof. intros w. apply steady; [done|]. split_and!; cbn; [lia|lia|done]. Qed.

Lemma wpres_query {A} op (f : D → A) : wpres R (sql_query op f).
Proof.
  intros w. apply steady; unfold sql_query, next_fault, mbind, M_bind, mret, M_ret, get_db;
    destruct (env_faults (w_env w)) as [|[| |] fs] eqn:Ef; cbn; try done;
    split_and!; cbn; try lia; by rewrite Ef.
Qed.

Lemma wpres_exec {A} op (f : D → res A * D) :
  (∀ d e, R (mkWorld d e) (mkWorld (snd (f d)) e)) → wpres R (sql_exec op f).
Proof.
  intros Hf w. unfold sql_exec, next_fault, mbind, M_bind, mret, M_ret, get_db, put_db.
  assert (∀ fs, env_faults (w_env w) ≠ [] →
            R w (mkWorld (w_db w) (mkEnv (env_clock (w_env w)) (env_ticks (w_env w)) fs
              (env_counter (w_env w))))) as Hw.
  { intros fs Hne. apply steady; [done|]. split_and!; cbn; [lia|lia|done]. }
  destruct (env_faults (w_env w)) as [|[| |] fs].
  - specialize (Hf (w_db w) (w_env w)). destruct w, (f _); done.
  - cbn. etransitivity; [by apply (Hw fs)|]. specialize (Hf (w_db w) (mkEnv (env_clock (w_env w))
      (env_ticks (w_env w)) fs (env_counter (w_env w)))). by destruct (f _).
  - by apply Hw.
  - cbn. etransitivity; [by apply (Hw fs)|]. apply Hf.
Qed.
End wpres.

Create HintDb certctl.
#[export] Hint Resolve pres_ret pres_now pres_next_fault pres_fresh pres_query
  pres_for_each : certctl.

(** Decompose a [pres] goal along the structure of the operation. *)
Ltac pres_step :=
  lazymatch goal with
  | |- pres _ (mbind _ _) => refine (pres_bind _ _ _ _ _); [|intros ?]
  | |- pres _ (mret _) => exact (pres_ret _ _)
  | |- pres _ now => exact (pres_now _)
  | |- pres _ fresh => exact (pres_fresh _)
  | |- pres _ (sql_query _ _) => exact (pres_query _ _ _)
  | |- pres _ (sql_exec _ _) => refine (pres_exec _ _ _ _); intros ?
  | |- pres _ (for_each _ _) => refine (pres_for_each _ _ _ _); intros ?
  | |- pres _ (let x := ?v in _) => cbv zeta
  | |- pres _ (match ?x with _ => _ end) => destruct x eqn:?
  end.

(** The same for [since]. *)
Ltac since_step :=
  lazymatch goal with
  | |- since _ _ (mbind _ now) => refine (since_now _ _ _ _); intros ? ?
  | |- since _ _ (mbind _ _) => refine (since_bind _ _ _ _ _ _); [|intros ?]
  | |- since _ _ (mret _) => exact (since_ret _ _ _)
  | |- since _ _ (sql_query _ _) => exact (since_query _ _ _ _)
  | |- since _ _ (let x := ?v in _) => cbv zeta
  | |- since _ _ (match ?x with _ => _ end) => destruct x eqn:?
  end.

(** And for [wpres]. *)
Ltac wstep :=
  lazymatch goal with
  | |- wpres _ (mbind _ _) => refine (wpres_bind _ _ _ _ _); [|intros ?]
  | |- wpres _ (mret _) => exact (wpres_ret _ _)
  | |- wpres _ now => exact (wpres_now _)
  | |- wpres _ fresh => exact (wpres_fresh _)
  | |- wpres _ (sql_query _ _) => exact (wpres_query _ _ _)
  | |- wpres _ (sql_exec _ _) => refine (wpres_exec _ _ _ _); intros ? ?
  | |- wpres _ (let x := ?v in _) => cbv zeta
  | |- wpres _ (match ?x with _ => _ end) => destruct x eqn:?
  | |- wpres _ _ => solve [eauto with certctl typeclass_instances]
  end.

Ltac solve_pres :=
  repeat first [ pres_step | solve [eauto with certctl typeclass_instances] ].

(** Run an operation symbolically: unfold the monad and the primitives. *)
Ltac mrun :=
  cbv delta [sql_exec sql_query next_fault now fresh get_db put_db mbind M_bind mret M_ret];
  cbn.
Ltac mrun_in H :=
  cbv delta [sql_exec sql_query next_fault now fresh get_db put_db mbind M_bind mret M_ret] in H;
  cbn in H.

(** ** Strings *)
Lemma string_cons_app c (s t : string) : (String c s +:+ t = String c (s +:+ t))%string.
Proof. done. Qed.

Lemma string_app_assoc (s t u : string) : ((s +:+ t) +:+ u = s +:+ (t +:+ u))%string.
Proof. induction s as [|c s IH]; [done|]. by rewrite !string_cons_app, IH. Qed.

Lemma string_app_length (s t : string) :
  String.length (s +:+ t)%string = (String.length s + String.length t)%nat.
Proof. induction s as [|c s IH]; [done|]. rewrite string_cons_app. cbn. by rewrite IH. Qed.

(** A concatenation determines its two halves when the lengths are known. *)
Lemma string_app_inj (s1 s2 t1 t2 : string) :
  String.length t1 = String.length t2 → (s1 +:+ t1 = s2 +:+ t2)%string → s1 = s2 ∧ t1 = t2.
Proof.
  revert s2. induction s1 as [|c s1 IH]; intros [|c' s2] Hl H.
  - done.
  - apply (f_equal String.length) in H. rewrite !string_app_length in H. cbn in H. lia.
  - apply (f_equal String.length) in H. rewrite !string_app_length in H. cbn in H. lia.
  - rewrite !string_cons_app in H. injection H as -> H. destruct (IH s2 Hl H) as [-> ->]. done.
Qed.
