(* ===== verification/RateLimit.v ===== *)
(** * The sliding-window rate limiters (src/internal/ratelimit)

    [SlidingWindow]: the in-memory limiter of sliding_window.go.
    [PostgresWindow]: the cross-replica limiter of postgres_sliding_window.go
    and its janitor (postgres_gc.go).
    [LimiterSpec]: what both promise, an exact sliding-window count over the
    full history of admitted events; [Limiter] is the interface of limiter.go.

    Times are nanoseconds in [Z]; both [Allow] methods run under a lock (the
    mutex, respectively the row lock), so a sequence of calls describes any
    concurrent use. *)

From stdpp Require Import prelude gmap strings list sorting.
From Stdlib Require Import ZArith Lia.
From S2P Require Import Prelude.

Definition ErrRateLimited : error :=
  ErrSentinel "ratelimit: per-key cap exceeded for the configured window".

Definition day_ns : Z := 24 * 3600 * 1000000000.

(** ** The interface: [Limiter.Allow] of a backend with state [S]. *)
Class Limiter (S : Type) := Allow : S → string → Z → option error * S.

(** A sequence of calls, with the decision taken at each. *)
Fixpoint run_calls {S} `{Limiter S} (s : S) (calls : list (string * Z)) : list (option error) * S :=
  match calls with
  | [] => ([], s)
  | (k, t) :: rest =>
      let '(r, s') := Allow s k t in
      let '(rs, s'') := run_calls s' rest in
      (r :: rs, s'')
  end.

(** ** In-memory limiter *)
Module SlidingWindow.

Record SlidingWindowLimiter := mkLimiter {
  buckets : gmap string (list Z);
  maxN : Z;
  window : Z;
  cap : Z;
  disabled : bool
}.

Definition NewSlidingWindowLimiter (maxN window mapCap : Z) : SlidingWindowLimiter :=
  let window := if window <=? 0 then day_ns else window in
  let mapCap := if mapCap <=? 0 then 100000 else mapCap in
  mkLimiter ∅ maxN window mapCap (maxN <=? 0).

Definition with_buckets (l : SlidingWindowLimiter) (b : gmap string (list Z)) :=
  mkLimiter b (maxN l) (window l) (cap l) (disabled l).

(** The front scan of [pruneOlderThan]: entries strictly before [cutoff] go. *)
Fixpoint pruneOlderThan (b : list Z) (cutoff : Z) : list Z :=
  match b with
  | [] => []
  | t :: b' => if t <? cutoff then pruneOlderThan b' cutoff else b
  end.

(** The [range] loop of [evictOldestLocked], over the entries in the order in
    which Go happens to iterate the map: the key to delete, if any. *)
Fixpoint evict_scan (entries : list (string * list Z))
    (oldestKey : string) (oldestTs : Z) (first : bool) : option string :=
  match entries with
  | [] => if bool_decide (oldestKey = "") then None else Some oldestKey
  | (k, b) :: rest =>
      match last b with
      | None => Some k
      | Some newest =>
          if first || (newest <? oldestTs)
          then evict_scan rest k newest false
          else evict_scan rest oldestKey oldestTs first
      end
  end.

Section limiter.
(** Go iterates a map in an unspecified order. *)
Variable range_map : gmap string (list Z) → list (string * list Z).

Definition evictOldestLocked (l : SlidingWindowLimiter) : SlidingWindowLimiter :=
  match evict_scan (range_map (buckets l)) "" 0 true with
  | Some k => with_buckets l (delete k (buckets l))
  | None => l
  end.

Definition SlidingWindowLimiter_Allow (l : SlidingWindowLimiter) (key : string) (now : Z)
  : option error * SlidingWindowLimiter :=
  if disabled l then (None, l)
  else if bool_decide (key = "") then (None, l)
  else
    let l := if cap l <=? Z.of_nat (size (buckets l)) then evictOldestLocked l else l in
    let bucket := default [] (buckets l !! key) in
    let bucket := pruneOlderThan bucket (now - window l) in
    if maxN l <=? Z.of_nat (length bucket) then
      (Some ErrRateLimited, with_buckets l (<[key := bucket]> (buckets l)))
    else
      (None, with_buckets l (<[key := bucket ++ [now]]> (buckets l))).
End limiter.

Definition Len (l : SlidingWindowLimiter) : Z := Z.of_nat (size (buckets l)).
Definition Disabled (l : SlidingWindowLimiter) : bool := disabled l.

End SlidingWindow.

(** ** Postgres limiter *)
Module PostgresWindow.
Import SlidingWindow.

(** rate_limit_buckets: bucket_key -> (timestamps, updated_at) *)
Abbreviation Row := (list Z * Z)%type.
Abbreviation Tbl := (gmap string Row).

(** The table is not part of the limiter: every limiter of the server with this backend reads and
    writes the same rows, whatever its cap and window. *)
Record PostgresSlidingWindowLimiter := mkPg {
  pg_maxN : Z;
  pg_window : Z;
  pg_disabled : bool
}.

Definition NewPostgresSlidingWindowLimiter (maxN window : Z) : PostgresSlidingWindowLimiter :=
  let window := if window <=? 0 then day_ns else window in
  mkPg maxN window (maxN <=? 0).

Section pg.
(** What a TIMESTAMPTZ column gives back for a stored time: Postgres keeps
    microseconds. *)
Variable pg_ts : Z → Z.

(** One statement inside the transaction: an error rolls everything back. *)
Definition tx_step (op : string) : M Tbl (option error) :=
  f ← next_fault;
  mret (match f with FOk => None | _ => Some (ErrMsg op) end).

Definition tx_commit (op : string) (t : Tbl) : M Tbl (option error) :=
  f ← next_fault;
  match f with
  | FOk => _ ← put_db t; mret None
  | FFail => mret (Some (ErrMsg op))
  | FLost => _ ← put_db t; mret (Some (ErrMsg op))
  end.

Definition PostgresSlidingWindowLimiter_Allow (l : PostgresSlidingWindowLimiter)
    (key : string) (now : Z) : M Tbl (option error) :=
  if pg_disabled l then mret None
  else if bool_decide (key = "") then mret None
  else
    e ← tx_step "ratelimit: begin tx";
    match e with Some e => mret (Some e) | None =>
    e ← tx_step "ratelimit: ensure row";
    match e with Some e => mret (Some e) | None =>
    t ← get_db;
    let t := match t !! key with
             | Some _ => t
             | None => <[key := ([], pg_ts now)]> t
             end in
    e ← tx_step "ratelimit: select-for-update";
    match e with Some e => mret (Some e) | None =>
    match t !! key with
    | None => mret None
    | Some (ts, _) =>
        let pruned := pruneOlderThan ts (now - pg_window l) in
        let rateLimited := pg_maxN l <=? Z.of_nat (length pruned) in
        let pruned := if rateLimited then pruned else pruned ++ [now] in
        e ← tx_step "ratelimit: update";
        match e with Some e => mret (Some e) | None =>
        e ← tx_commit "ratelimit: commit" (<[key := (pg_ts <$> pruned, pg_ts now)]> t);
        match e with Some e => mret (Some e) | None =>
        mret (if rateLimited then Some ErrRateLimited else None)
        end end
    end end end end.

(** [PostgresGC.GarbageCollect]: the number of rows deleted. *)
Definition GarbageCollect (maxWindow : Z) : M Tbl (res Z) :=
  if maxWindow <=? 0 then mret (Ok 0)
  else
    t ← now;
    let cutoff := t - maxWindow in
    sql_exec "ratelimit-gc: delete stale buckets"
      (λ tbl : Tbl,
         let kept := filter (λ kv : string * Row, ¬ (kv.2.2 < cutoff)) tbl in
         (Ok (Z.of_nat (size tbl) - Z.of_nat (size kept)), kept)).
End pg.

Definition pg_Disabled (l : PostgresSlidingWindowLimiter) : bool := pg_disabled l.
End PostgresWindow.

(** ** What a limiter promises *)
Module LimiterSpec.

(** Per key, every event ever admitted, oldest first. *)
Record Spec := mkSpec { sp_maxN : Z; sp_window : Z; sp_hist : string → list Z }.

Definition in_window (w t : Z) (l : list Z) : list Z :=
  filter (λ x, t - w ≤ x ∧ x ≤ t) l.

(** Admit unless [maxN] events of this key were admitted in the closed window
    that ends now; the empty key and a non-positive cap opt out. *)
Definition spec_Allow (s : Spec) (key : string) (now : Z) : option error * Spec :=
  if sp_maxN s <=? 0 then (None, s)
  else if bool_decide (key = "") then (None, s)
  else if sp_maxN s <=? Z.of_nat (length (in_window (sp_window s) now (sp_hist s key)))
  then (Some ErrRateLimited, s)
  else (None, mkSpec (sp_maxN s) (sp_window s)
                (λ k, if bool_decide (k = key) then sp_hist s key ++ [now] else sp_hist s k)).

#[export] Instance spec_limiter : Limiter Spec := spec_Allow.

Definition spec_new (maxN window : Z) : Spec :=
  mkSpec maxN (if window <=? 0 then day_ns else window) (λ _, []).

(** The times at which calls on [k] were admitted. *)
Fixpoint admitted (k : string) (calls : list (string * Z)) (out : list (option error)) : list Z :=
  match calls, out with
  | (k', t) :: calls', r :: out' =>
      if bool_decide (k' = k ∧ r = None) then t :: admitted k calls' out' else admitted k calls' out'
  | _, _ => []
  end.

(** ** Buckets as suffixes of the history *)
Definition ascending (l : list Z) : Prop := StronglySorted Z.le l.

(** [b] is what a backend stores at time [T] for a key whose admitted history
    is [h]: a suffix that contains everything the window can still see. *)
Definition bucket_rel (w T : Z) (b h : list Z) : Prop :=
  ascending h ∧ Forall (λ x, x ≤ T) h ∧
  ∃ c, c ≤ T - w ∧ b = filter (λ x, c ≤ x) h.

Import SlidingWindow.

Lemma prune_filter b c : ascending b → pruneOlderThan b c = filter (λ x, c ≤ x) b.
Proof.
  induction 1 as [|x b Hs IH Hall]; [done|]. cbn [pruneOlderThan].
  destruct (Z.ltb_spec x c).
  - rewrite filter_cons_False by lia. done.
  - rewrite filter_cons_True by lia. f_equal.
    symmetry. apply filter_all. eapply Forall_impl; [exact Hall|]. cbn; lia.
Qed.

Lemma ascending_filter (P : Z → Prop) `{∀ x, Decision (P x)} l :
  ascending l → ascending (filter P l).
Proof.
  induction 1 as [|x l Hs IH Hall]; [constructor|].
  destruct (decide (P x)); [rewrite filter_cons_True by done|by rewrite filter_cons_False].
  constructor; [done|]. apply Forall_forall. intros y [_ Hy]%list_elem_of_filter.
  rewrite Forall_forall in Hall. by apply Hall.
Qed.

Lemma ascending_snoc l x : ascending l → Forall (λ y, y ≤ x) l → ascending (l ++ [x]).
Proof.
  induction 1 as [|y l Hs IH Hall]; intros Hx; [repeat constructor|].
  inversion Hx; subst. cbn. constructor; [by apply IH|].
  apply Forall_app; split; [done|by constructor].
Qed.

(** A monotone clock has a reading no later than its first. *)
Lemma ascending_start l : ascending l → ∃ T, ascending (T :: l).
Proof.
  intros Hl. destruct l as [|x l]; [exists 0; repeat constructor|].
  exists x. constructor; [done|]. constructor; [lia|by inversion Hl].
Qed.

Lemma filter_ge_ge c c' (l : list Z) : c ≤ c' →
  filter (λ x, c' ≤ x) (filter (λ x, c ≤ x) l) = filter (λ x, c' ≤ x) l.
Proof.
  intros Hc. rewrite list_filter_filter. apply list_filter_iff. intros x; lia.
Qed.

Lemma in_window_filter w t l : Forall (λ x, x ≤ t) l →
  in_window w t l = filter (λ x, t - w ≤ x) l.
Proof.
  intros Hl. unfold in_window. induction Hl as [|x l Hx Hl IH]; [done|].
  rewrite !filter_cons. repeat case_decide; try lia; by rewrite IH.
Qed.

(** One call on a bucket: pruning leaves exactly the events in the window. *)
Lemma bucket_step w T b h t : 0 ≤ w → T ≤ t → bucket_rel w T b h →
  pruneOlderThan b (t - w) = in_window w t h ∧
  bucket_rel w t (pruneOlderThan b (t - w)) h ∧
  bucket_rel w t (pruneOlderThan b (t - w) ++ [t]) (h ++ [t]).
Proof.
  intros Hw HT (Hasc & Hall & c & Hc & ->).
  assert (Forall (λ x, x ≤ t) h) as Hall' by (eapply Forall_impl; [done|]; cbn; lia).
  rewrite prune_filter by by apply ascending_filter.
  rewrite filter_ge_ge by lia. rewrite in_window_filter by done.
  split_and!; [done| |].
  - split_and!; [done..|]. exists (t - w). split; [lia|done].
  - split_and!.
    + by apply ascending_snoc.
    + apply Forall_app; split; [done|by constructor; [lia|constructor]].
    + exists (t - w). split; [lia|]. rewrite filter_app. f_equal.
      rewrite filter_cons_True by lia. done.
Qed.

Lemma bucket_rel_mono w T T' b h : T ≤ T' → bucket_rel w T b h → bucket_rel w T' b h.
Proof.
  intros HT (Hasc & Hall & c & Hc & ->). split_and!; [done| |exists c; split; [lia|done]].
  eapply Forall_impl; [done|]; cbn; lia.
Qed.

Lemma bucket_rel_nil w T : bucket_rel w T [] [].
Proof. split_and!; [constructor..|]. exists (T - w). split; [lia|done]. Qed.

(** A history admitted by the specification never has more than [maxN] events
    in any closed window. *)
Definition hist_ok (n w : Z) (h : list Z) : Prop :=
  ∀ t, Z.of_nat (length (in_window w t h)) ≤ n.

(** Among events that all happened by [now], a window that ends at or after
    [now] holds at most what the window ending at [now] holds. *)
Lemma in_window_shrink w now t h : Forall (λ x, x ≤ now) h → now ≤ t →
  le (length (in_window w t h)) (length (in_window w now h)).
Proof.
  intros Hall Ht. unfold in_window. induction Hall as [|x h Hx Hh IH]; [done|].
  rewrite !filter_cons. repeat case_decide; cbn; lia.
Qed.

Lemma hist_ok_snoc n w h now : 0 ≤ w → Forall (λ x, x ≤ now) h →
  hist_ok n w h → Z.of_nat (length (in_window w now h)) < n → hist_ok n w (h ++ [now]).
Proof.
  intros Hw Hall Hok Hlt t. pose proof (Hok t) as Ht.
  pose proof (in_window_shrink w now t h Hall) as Hle.
  unfold in_window in *. rewrite filter_app, length_app, filter_cons.
  case_decide; cbn; lia.
Qed.

End LimiterSpec.

(** ** Refinement of the specification by the two backends *)
Module LimiterCorrect.
Import SlidingWindow PostgresWindow LimiterSpec.

(** A lock-step simulation over a sequence of calls with a monotone clock. *)
Lemma run_calls_sim {S1 S2} `{Limiter S1, Limiter S2} (R : Z → S1 → S2 → Prop)
    (good : string → Z → Prop) calls T s1 s2 :
  (∀ T s1 s2 k t, R T s1 s2 → T ≤ t → good k t →
     (Allow s1 k t).1 = (Allow s2 k t).1 ∧ R t (Allow s1 k t).2 (Allow s2 k t).2) →
  ascending (T :: calls.*2) → Forall (λ kt, good kt.1 kt.2) calls → R T s1 s2 →
  (run_calls s1 calls).1 = (run_calls s2 calls).1.
Proof.
  intros Hstep. revert T s1 s2. induction calls as [|[k t] calls IH]; intros T s1 s2 Hs Hg HR; [done|].
  cbn. inversion Hg as [|? ? Hkt Hg']; subst. inversion Hs as [|? ? Hs' Hle]; subst.
  inversion Hle as [|? ? HTt _]; subst. cbn in Hkt, HTt.
  destruct (Hstep T s1 s2 k t HR HTt Hkt) as [Hr HR'].
  destruct (Allow s1 k t) as [r1 s1'], (Allow s2 k t) as [r2 s2']. cbn in *. subst r2.
  specialize (IH t s1' s2' Hs' Hg' HR').
  destruct (run_calls s1' calls), (run_calls s2' calls). cbn in *. by subst.
Qed.

Lemma spec_params (s : Spec) k t :
  sp_maxN (spec_Allow s k t).2 = sp_maxN s ∧ sp_window (spec_Allow s k t).2 = sp_window s.
Proof. unfold spec_Allow. repeat case_match; done. Qed.

(** *** The specification itself bounds every window *)
Lemma spec_Allow_inv (s : Spec) k' t r s' k : spec_Allow s k' t = (r, s') →
  0 < sp_maxN s → k ≠ "" →
  (sp_hist s' k = sp_hist s k ∧ ¬ (k' = k ∧ r = None)) ∨
  (sp_hist s' k = sp_hist s k ++ [t] ∧ k' = k ∧ r = None ∧
   Z.of_nat (length (in_window (sp_window s) t (sp_hist s k))) < sp_maxN s).
Proof.
  unfold spec_Allow. intros E Hn Hk. destruct (Z.leb_spec (sp_maxN s) 0); [lia|].
  case_bool_decide; [left; naive_solver|].
  destruct (Z.leb_spec (sp_maxN s) (Z.of_nat (length (in_window (sp_window s) t (sp_hist s k')))));
    simplify_eq; [left; naive_solver|]. cbn.
  case_bool_decide; [right|left]; naive_solver.
Qed.

Lemma spec_run_hist k (calls : list (string * Z)) : ∀ s : Spec,
  0 < sp_maxN s → k ≠ "" →
  sp_hist (run_calls s calls).2 k = sp_hist s k ++ admitted k calls (run_calls s calls).1.
Proof.
  induction calls as [|[k' t] calls IH]; intros s Hn Hk; cbn; [by rewrite app_nil_r|].
  pose proof (spec_params s k' t) as [Hp _].
  change (Allow s k' t) with (spec_Allow s k' t) in *.
  destruct (spec_Allow s k' t) as [r s'] eqn:E. cbn in Hp.
  specialize (IH s' ltac:(lia) Hk). destruct (run_calls s' calls) as [rs s''] eqn:E'. cbn in *.
  rewrite IH. destruct (spec_Allow_inv _ _ _ _ _ k E Hn Hk) as [[-> Hnot]|(-> & -> & -> & _)].
  - by rewrite bool_decide_eq_false_2.
  - by rewrite bool_decide_eq_true_2, <-app_assoc.
Qed.

Lemma spec_run_ok k n w (calls : list (string * Z)) : 0 ≤ w → 0 < n → k ≠ "" → ∀ T (s : Spec),
  sp_maxN s = n → sp_window s = w → ascending (T :: calls.*2) →
  Forall (λ x, x ≤ T) (sp_hist s k) → hist_ok n w (sp_hist s k) →
  hist_ok n w (sp_hist (run_calls s calls).2 k).
Proof.
  intros Hw Hn0 Hk. induction calls as [|[k' t] calls IH]; intros T s Hn Hww Hs Hall Hok; [done|].
  cbn. inversion Hs as [|? ? Hs' Hle]; subst. inversion Hle as [|? ? HTt _]; subst. cbn in HTt.
  pose proof (spec_params s k' t) as [Hp1 Hp2].
  change (Allow s k' t) with (spec_Allow s k' t) in *.
  assert (Forall (λ x, x ≤ t) (sp_hist s k)) as Hall' by (eapply Forall_impl; [done|]; cbn; lia).
  destruct (spec_Allow s k' t) as [r s'] eqn:E. cbn in *.
  assert (Forall (λ x, x ≤ t) (sp_hist s' k) ∧ hist_ok (sp_maxN s) (sp_window s) (sp_hist s' k)) as [HF Ho].
  { destruct (spec_Allow_inv _ _ _ _ _ k E Hn0 Hk) as [[-> _]|(-> & _ & _ & Hlt)]; [done|].
    split; [|by apply hist_ok_snoc].
    apply Forall_app; split; [done|by constructor; [lia|constructor]]. }
  specialize (IH t s' Hp1 Hp2 Hs' HF Ho).
  by destruct (run_calls s' calls).
Qed.

Lemma spec_run_new_bound n w k (calls : list (string * Z)) t : 0 < n → k ≠ "" → ascending calls.*2 →
  Z.of_nat (length (in_window (sp_window (spec_new n w)) t
    (admitted k calls (run_calls (spec_new n w) calls).1))) ≤ n.
Proof.
  intros Hn Hk Hs.
  pose proof (spec_run_hist k calls (spec_new n w) Hn Hk) as Hh. cbn [sp_hist spec_new app] in Hh.
  rewrite <-Hh. destruct (ascending_start _ Hs) as [T HT].
  apply (spec_run_ok k n (sp_window (spec_new n w)) calls) with (T := T); try done.
  - unfold spec_new, day_ns; cbn. destruct (Z.leb_spec w 0); lia.
  - intros t'. cbn. lia.
Qed.

(** *** In-memory backend *)
Section memory.
Variable range_map : gmap string (list Z) → list (string * list Z).

Definition mem_limiter : Limiter SlidingWindowLimiter := SlidingWindowLimiter_Allow range_map.
#[local] Existing Instance mem_limiter.

Definition mem_rel (ks : gset string) (T : Z) (l : SlidingWindowLimiter) (s : Spec) : Prop :=
  maxN l = sp_maxN s ∧ window l = sp_window s ∧ 0 ≤ window l ∧
  disabled l = (maxN l <=? 0) ∧ dom (buckets l) ⊆ ks ∧ Z.of_nat (size ks) < cap l ∧
  ∀ k, bucket_rel (window l) T (default [] (buckets l !! k)) (sp_hist s k).

Lemma mem_rel_step ks T l s k t : mem_rel ks T l s → T ≤ t → k ∈ ks →
  (Allow l k t).1 = (Allow s k t).1 ∧ mem_rel ks t (Allow l k t).2 (Allow s k t).2.
Proof.
  intros (HN & HW & Hw & Hd & Hdom & Hsz & Hb) HT Hk.
  change (Allow s k t) with (spec_Allow s k t).
  change (Allow l k t) with (SlidingWindowLimiter_Allow range_map l k t).
  assert (∀ s', sp_maxN s' = sp_maxN s → sp_window s' = sp_window s → sp_hist s' = sp_hist s →
    mem_rel ks t l s') as Hsame.
  { intros s' E1 E2 E3. split_and!; [congruence..|done|done|done|done|].
    intros k'. rewrite E3. by eapply bucket_rel_mono. }
  unfold SlidingWindowLimiter_Allow, spec_Allow. rewrite Hd, HN.
  destruct (sp_maxN s <=? 0); [by split; [|apply Hsame]|].
  case_bool_decide as Hemp; [by split; [|apply Hsame]|].
  assert (Z.of_nat (size (buckets l)) < cap l) as Hlt.
  { rewrite <-size_dom. pose proof (subseteq_size _ _ Hdom). lia. }
  destruct (Z.leb_spec (cap l) (Z.of_nat (size (buckets l)))); [lia|].
  destruct (bucket_step (window l) T _ _ t Hw HT (Hb k)) as (Hp & Hr1 & Hr2).
  cbn beta zeta. rewrite Hp in Hr1, Hr2 |- *. rewrite HN, <-HW.
  destruct (sp_maxN s <=? _); (split; [done|]); unfold mem_rel, with_buckets; cbn;
    rewrite dom_insert_L; (split_and!; try done; [set_solver|]); intros k';
    (destruct (decide (k = k')) as [<-|Hne];
     [rewrite lookup_insert_eq, ?bool_decide_eq_true_2 by done; done|
      rewrite lookup_insert_ne, ?bool_decide_eq_false_2 by done;
      by eapply bucket_rel_mono]).
Qed.

Lemma mem_refines (n w mapCap : Z) calls :
  ascending calls.*2 →
  Z.of_nat (size (list_to_set calls.*1 : gset string)) < cap (NewSlidingWindowLimiter n w mapCap) →
  (run_calls (NewSlidingWindowLimiter n w mapCap) calls).1 = (run_calls (spec_new n w) calls).1.
Proof.
  intros Hs Hc. set (ks := list_to_set calls.*1 : gset string) in *.
  destruct (ascending_start _ Hs) as [T HT].
  eapply (run_calls_sim (mem_rel ks) (λ k _, k ∈ ks) calls T); [|done|..].
  - intros. by eapply mem_rel_step.
  - apply Forall_forall. intros kt Hin. by apply elem_of_list_to_set, list_elem_of_fmap_2.
  - unfold NewSlidingWindowLimiter, spec_new, mem_rel, day_ns in *. cbn in *.
    split_and!; [done|done| |done|set_solver|done|].
    + destruct (Z.leb_spec w 0); lia.
    + intros k. rewrite lookup_empty. apply bucket_rel_nil.
Qed.
End memory.

(** *** Postgres backend *)
Section postgres.
Variable pg_ts : Z → Z.
(** TIMESTAMPTZ has microsecond resolution: whole microseconds survive. *)
Hypothesis pg_ts_micro : ∀ u, pg_ts (u * 1000) = u * 1000.

Definition micro (x : Z) : Prop := ∃ u, x = u * 1000.

Definition pg_limiter (l : PostgresSlidingWindowLimiter) : Limiter (World Tbl) :=
  λ w k t, PostgresSlidingWindowLimiter_Allow pg_ts l k t w.

Lemma fmap_pg_ts_micro (l : list Z) : Forall micro l → pg_ts <$> l = l.
Proof. induction 1 as [|x l [u ->] Hl IH]; [done|]. cbn. by rewrite pg_ts_micro, IH. Qed.

(** The transaction when no statement fails. *)
Lemma pg_Allow_no_fault l k t (w : World Tbl) :
  env_faults (w_env w) = [] → pg_disabled l = false → k ≠ "" →
  let ts := default [] (fst <$> w_db w !! k) in
  let pruned := pruneOlderThan ts (t - pg_window l) in
  let lim := pg_maxN l <=? Z.of_nat (length pruned) in
  PostgresSlidingWindowLimiter_Allow pg_ts l k t w =
    (if lim then Some ErrRateLimited else None,
     mkWorld (<[k := (pg_ts <$> (if lim then pruned else pruned ++ [t]), pg_ts t)]> (w_db w)) (w_env w)).
Proof.
  intros Hf Hd Hk. destruct w as [tbl [c tks flts n]]. cbn in Hf. subst flts.
  unfold PostgresSlidingWindowLimiter_Allow. rewrite Hd, bool_decide_eq_false_2 by done.
  unfold tx_step, tx_commit. mrun.
  destruct (tbl !! k) as [[ts u]|] eqn:E; cbn; rewrite ?E, ?lookup_insert_eq; cbn;
    rewrite ?insert_insert_eq; done.
Qed.

Definition pg_rel (l : PostgresSlidingWindowLimiter) (T : Z) (w : World Tbl) (s : Spec) : Prop :=
  env_faults (w_env w) = [] ∧ pg_maxN l = sp_maxN s ∧ pg_window l = sp_window s ∧
  0 ≤ pg_window l ∧ pg_disabled l = (pg_maxN l <=? 0) ∧
  ∀ k, bucket_rel (pg_window l) T (default [] (fst <$> w_db w !! k)) (sp_hist s k) ∧
       Forall micro (sp_hist s k).

Lemma pg_rel_step l T w s k t : pg_rel l T w s → T ≤ t → micro t →
  (@Allow _ (pg_limiter l) w k t).1 = (Allow s k t).1 ∧
  pg_rel l t (@Allow _ (pg_limiter l) w k t).2 (Allow s k t).2.
Proof.
  intros (Hf & HN & HW & Hw & Hd & Hb) HT Ht.
  change (Allow s k t) with (spec_Allow s k t).
  change (@Allow _ (pg_limiter l) w k t) with (PostgresSlidingWindowLimiter_Allow pg_ts l k t w).
  assert (pg_rel l t w s) as Hsame.
  { split_and!; try done. intros k'. destruct (Hb k'). split; [by eapply bucket_rel_mono|done]. }
  destruct (pg_disabled l) eqn:Hdis.
  { unfold PostgresSlidingWindowLimiter_Allow, spec_Allow. by rewrite Hdis, <-HN, <-Hd. }
  unfold spec_Allow. rewrite <-HN, <-Hd. case_bool_decide as Hemp.
  { unfold PostgresSlidingWindowLimiter_Allow. by rewrite Hdis, bool_decide_eq_true_2. }
  rewrite pg_Allow_no_fault by done. cbn zeta.
  destruct (Hb k) as [Hbk Hmic].
  destruct (bucket_step (pg_window l) T _ _ t Hw HT Hbk) as (Hp & Hr1 & Hr2).
  rewrite Hp in Hr1, Hr2 |- *. rewrite <-HW.
  assert (Forall micro (in_window (pg_window l) t (sp_hist s k))) as Hmw
    by (apply Forall_forall; intros x [_ Hx]%list_elem_of_filter;
        by rewrite Forall_forall in Hmic; apply Hmic).
  destruct (pg_maxN l <=? Z.of_nat _); (split; [done|]); unfold pg_rel; cbn;
    (split_and!; try first [done | congruence]); intros k';
    (destruct (decide (k = k')) as [<-|Hne];
     [rewrite lookup_insert_eq, ?bool_decide_eq_true_2 by done; cbn;
      rewrite fmap_pg_ts_micro by (try apply Forall_app; auto); auto using Forall_app_2|
      rewrite lookup_insert_ne, ?bool_decide_eq_false_2 by done; by apply Hsame]).
Qed.

Lemma pg_refines (n w : Z) calls (env : Env) : env_faults env = [] →
  ascending calls.*2 → Forall micro calls.*2 →
  (@run_calls _ (pg_limiter (NewPostgresSlidingWindowLimiter n w)) (mkWorld ∅ env) calls).1
  = (run_calls (spec_new n w) calls).1.
Proof.
  intros Hf Hs Hm. destruct (ascending_start _ Hs) as [T HT].
  unshelve eapply (run_calls_sim (H := pg_limiter _) (pg_rel (NewPostgresSlidingWindowLimiter n w))
    (λ _ t, micro t) calls T); [|done|..].
  - intros. by eapply pg_rel_step.
  - exact (proj1 (Forall_fmap _ _ _) Hm).
  - unfold NewPostgresSlidingWindowLimiter, spec_new, pg_rel, day_ns. cbn.
    split_and!; try done; [destruct (Z.leb_spec w 0); lia|].
    intros k. rewrite lookup_empty. split; [apply bucket_rel_nil|by constructor].
Qed.
End postgres.
End LimiterCorrect.

(** ** Memory bound and eviction of the in-memory limiter *)
Module LimiterEviction.
Import SlidingWindow.

(** A sound victim: an empty bucket, or one whose newest event is the oldest
    among all buckets. *)
Definition victim (entries : list (string * list Z)) (k : string) : Prop :=
  ∃ b, (k, b) ∈ entries ∧
    (b = [] ∨ ∃ n, last b = Some n ∧ ∀ k' b' n', (k', b') ∈ entries → last b' = Some n' → n ≤ n').

Lemma evict_scan_spec entries : ∀ ok ots first,
  Forall (λ kb, kb.1 ≠ "") entries → (first = false → ok ≠ "") → (entries ≠ [] ∨ first = false) →
  ∃ k, evict_scan entries ok ots first = Some k ∧
    ((k, []) ∈ entries ∨
     ∃ n, (∀ k' b' n', (k', b') ∈ entries → last b' = Some n' → n ≤ n') ∧ (first = false → n ≤ ots) ∧
       ((∃ b, (k, b) ∈ entries ∧ last b = Some n) ∨ (first = false ∧ k = ok ∧ n = ots))).
Proof.
  induction entries as [|[k b] entries IH]; intros ok ots first Hne Hok Hnonempty; cbn.
  - destruct Hnonempty as [?| ->]; [done|]. rewrite bool_decide_eq_false_2 by auto.
    eexists; split; [done|right]. exists ots. split_and!; [set_solver|done|by right].
  - inversion Hne as [|? ? Hk Hne']; subst. cbn in Hk.
    destruct (last b) as [newest|] eqn:Hl; last first.
    { apply last_None in Hl as ->. exists k. split; [done|left; set_solver]. }
    destruct (first || (newest <? ots)) eqn:Hc.
    + destruct (IH k newest false Hne' ltac:(done) ltac:(by right)) as (v & Hv & Hcase).
      exists v. split; [done|]. destruct Hcase as [Hcase|(n & Hmin & Hle & Hwho)]; [left; set_solver|].
      right. exists n. specialize (Hle eq_refl). split_and!.
      * intros k' b' n' [[= -> ->]|Hin]%elem_of_cons Hl'; [simplify_eq; lia|by eapply Hmin].
      * intros ->. cbn in Hc. apply Z.ltb_lt in Hc. lia.
      * left. destruct Hwho as [(b' & Hb' & Hl')|(_ & -> & ->)]; [set_solver|].
        exists b. set_solver.
    + apply orb_false_iff in Hc as [-> Hc%Z.ltb_ge].
      destruct (IH ok ots false Hne' Hok ltac:(by right)) as (v & Hv & Hcase).
      exists v. split; [done|]. destruct Hcase as [Hcase|(n & Hmin & Hle & Hwho)]; [left; set_solver|].
      right. exists n. specialize (Hle eq_refl). split_and!; [|lia|].
      * intros k' b' n' [[= -> ->]|Hin]%elem_of_cons Hl'; [simplify_eq; lia|by eapply Hmin].
      * destruct Hwho as [(b' & Hb' & Hl')|?]; [left; set_solver|by right].
Qed.

Lemma evict_victim entries : Forall (λ kb, kb.1 ≠ "") entries → entries ≠ [] →
  ∃ k, evict_scan entries "" 0 true = Some k ∧ victim entries k.
Proof.
  intros Hne Hn. destruct (evict_scan_spec entries "" 0 true Hne ltac:(done) ltac:(by left))
    as (k & Hk & Hcase).
  exists k. split; [done|]. destruct Hcase as [?|(n & Hmin & _ & [(b & Hin & Hl)|[? _]])]; [..|done].
  - exists []. split; [done|by left].
  - exists b. split; [done|right; eauto].
Qed.

Section evict.
Variable range_map : gmap string (list Z) → list (string * list Z).
(** [range] visits every entry exactly once, in some order. *)
Hypothesis range_map_perm : ∀ m, range_map m ≡ₚ map_to_list m.

Definition keys_ok (l : SlidingWindowLimiter) : Prop := buckets l !! "" = None.

Lemma range_entry m k b : (k, b) ∈ range_map m ↔ m !! k = Some b.
Proof. rewrite range_map_perm. apply elem_of_map_to_list. Qed.

(** Eviction removes exactly one entry of a non-empty map, a sound victim. *)
Lemma evictOldestLocked_spec l : keys_ok l → buckets l ≠ ∅ →
  ∃ k, victim (range_map (buckets l)) k ∧ is_Some (buckets l !! k) ∧
       evictOldestLocked range_map l = with_buckets l (delete k (buckets l)).
Proof.
  intros Hk Hne. destruct (evict_victim (range_map (buckets l))) as (k & Hs & Hv).
  - apply Forall_forall. intros [k b] Hin%range_entry. cbn. intros ->. by rewrite Hk in Hin.
  - intros E. apply Hne, map_to_list_empty_iff, Permutation_nil_r. by rewrite <-range_map_perm, E.
  - exists k. split_and!; [done| |unfold evictOldestLocked; by rewrite Hs].
    destruct Hv as (b & Hin & _). apply range_entry in Hin. eauto.
Qed.

Definition bounded (l : SlidingWindowLimiter) : Prop :=
  keys_ok l ∧ 0 < cap l ∧ Z.of_nat (size (buckets l)) ≤ cap l.

Lemma size_insert_le (m : gmap string (list Z)) k b : le (size (<[k:=b]> m)) (S (size m)).
Proof. rewrite map_size_insert. case_match; cbn; lia. Qed.

Lemma Allow_bounded l k t : bounded l → bounded (SlidingWindowLimiter_Allow range_map l k t).2.
Proof.
  intros (Hk & Hc & Hs). unfold SlidingWindowLimiter_Allow.
  destruct (disabled l); [done|]. case_bool_decide as Hemp; [done|].
  set (l' := if cap l <=? Z.of_nat (size (buckets l)) then evictOldestLocked range_map l else l).
  assert (keys_ok l' ∧ cap l' = cap l ∧ Z.of_nat (size (buckets l')) < cap l) as (Hk' & Hc' & Hs').
  { subst l'. destruct (Z.leb_spec (cap l) (Z.of_nat (size (buckets l)))); [|done].
    destruct (evictOldestLocked_spec l Hk) as (v & _ & [b Hb] & ->).
    { intros E. rewrite E, map_size_empty in *. lia. }
    unfold keys_ok, with_buckets. cbn. split_and!; [by rewrite lookup_delete_None; right|done|].
    rewrite map_size_delete, Hb. assert (size (buckets l) ≠ 0%nat); [|lia].
    intros E%map_size_empty_iff. by rewrite E in Hb. }
  clearbody l'. destruct (_ <=? _); unfold bounded, keys_ok, with_buckets; cbn;
    (split_and!; [by rewrite lookup_insert_ne|lia|]);
    (etransitivity; [apply inj_le, size_insert_le|lia]).
Qed.

Lemma run_bounded (calls : list (string * Z)) : ∀ l, bounded l →
  bounded (@run_calls _ (LimiterCorrect.mem_limiter range_map) l calls).2.
Proof.
  induction calls as [|[k t] calls IH]; intros l Hl; [done|]. cbn.
  pose proof (Allow_bounded l k t Hl) as Hb.
  change (@Allow _ (LimiterCorrect.mem_limiter range_map) l k t)
    with (SlidingWindowLimiter_Allow range_map l k t).
  destruct (SlidingWindowLimiter_Allow range_map l k t) as [r l']. cbn in Hb.
  specialize (IH l' Hb). by destruct (run_calls l' calls).
Qed.
End evict.
End LimiterEviction.

(** ** The janitor *)
Module LimiterGC.
Import SlidingWindow PostgresWindow LimiterSpec LimiterCorrect.

(** No stored event is later than its row's updated_at. *)
Definition rows_ok (t : Tbl) : Prop := map_Forall (λ _ row, Forall (λ x, x ≤ row.2) row.1) t.

Lemma prune_all b c : Forall (λ x, x < c) b → pruneOlderThan b c = [].
Proof.
  induction 1 as [|x b Hx Hb IH]; [done|]. cbn.
  destruct (Z.ltb_spec x c); [done|lia].
Qed.

(** What a limiter sees of a key once stale rows are gone. *)
Lemma gc_bucket (t : Tbl) k cutoff c : rows_ok t → cutoff ≤ c →
  pruneOlderThan (default [] (fst <$> filter (λ kv : string * Row, ¬ (kv.2.2 < cutoff)) t !! k)) c
  = pruneOlderThan (default [] (fst <$> t !! k)) c.
Proof.
  intros Hok Hc. rewrite map_lookup_filter.
  destruct (t !! k) as [[ts u]|] eqn:E; [|done]. cbn. case_guard as Hu; [done|]. cbn.
  rewrite prune_all; [done|]. specialize (Hok k _ E). cbn in Hok.
  eapply Forall_impl; [exact Hok|]. cbn. lia.
Qed.

Section gc.
Variable pg_ts : Z → Z.
Hypothesis pg_ts_micro : ∀ u, pg_ts (u * 1000) = u * 1000.

Definition new_bucket (l : PostgresSlidingWindowLimiter) (t : Z) (ts : list Z) : list Z :=
  let pruned := pruneOlderThan ts (t - pg_window l) in
  if pg_maxN l <=? Z.of_nat (length pruned) then pruned else pruned ++ [t].

(** Whichever statements fail, the table is left alone or holds the new
    bucket: the transaction is all or nothing. *)
Lemma pg_Allow_atomic l k t (w : World Tbl) :
  let d := w_db (PostgresSlidingWindowLimiter_Allow pg_ts l k t w).2 in
  d = w_db w ∨
  d = <[k := (pg_ts <$> new_bucket l t (default [] (fst <$> w_db w !! k)), pg_ts t)]> (w_db w).
Proof.
  unfold PostgresSlidingWindowLimiter_Allow, new_bucket.
  destruct (pg_disabled l); [by left|]. case_bool_decide; [by left|].
  destruct w as [tbl [c tks flts n]]. unfold tx_step, tx_commit. mrun.
  do 5 try (destruct flts as [|[] flts]; cbn; try by left);
    destruct (tbl !! k) as [[ts u]|] eqn:E; cbn; rewrite ?E, ?lookup_insert_eq; cbn;
    rewrite ?insert_insert_eq; auto.
Qed.

Lemma Forall_new_bucket l t ts (P : Z → Prop) : Forall P ts → P t → Forall P (new_bucket l t ts).
Proof.
  intros Hts Ht. unfold new_bucket.
  assert (Forall P (pruneOlderThan ts (t - pg_window l))) as Hp.
  { clear -Hts. induction Hts; cbn; [constructor|]. case_match; [done|by constructor]. }
  case_match; [done|]. apply Forall_app; auto.
Qed.

(** Every [Allow] of a monotone whole-microsecond clock keeps [rows_ok]. *)
Lemma Allow_rows_ok l k t (w : World Tbl) : micro t → rows_ok (w_db w) →
  map_Forall (λ _ row, Forall (λ x, micro x ∧ x ≤ t) row.1) (w_db w) →
  rows_ok (w_db (PostgresSlidingWindowLimiter_Allow pg_ts l k t w).2).
Proof.
  intros [m Hm] Hok Hmic.
  destruct (pg_Allow_atomic l k t w) as [-> | ->]; [done|].
  apply map_Forall_insert_2; [|done]. cbn. apply Forall_fmap.
  eapply (Forall_impl (λ x, micro x ∧ x ≤ t)).
  - apply Forall_new_bucket; [|split; [by exists m|lia]].
    destruct (w_db w !! k) as [row|] eqn:E; cbn; [by apply (Hmic k)|constructor].
  - intros x [[u ->] Hx]. cbn. subst t. by rewrite !pg_ts_micro.
Qed.
End gc.
End LimiterGC.

(** Concrete clocks are ascending. *)
Ltac ascending_tac :=
  unfold LimiterSpec.ascending; cbn;
  repeat first [apply SSorted_nil | apply SSorted_cons | apply Forall_nil_2
               | apply Forall_cons_2; [lia|]].

(** ** Claims *)
Section claims.
Import SlidingWindow PostgresWindow LimiterSpec LimiterCorrect LimiterEviction LimiterGC.

(** C32: however the map is iterated, an in-memory limiter with a positive cap maxN, whose map
  cap exceeds the number of distinct keys in use, never admits, for any non-empty key and
  any instant [t], more than maxN events with times in the closed window
  [t - window, t]; calls come with a non-decreasing clock.  (With a cap of zero or less
  the limiter is disabled and admits everything, and the empty key is never limited.) *)
Theorem sliding_window_bound range_map (n w mapCap : Z) (calls : list (string * Z)) k t :
0 < n → k ≠ "" → ascending calls.*2 →
Z.of_nat (size (list_to_set calls.*1 : gset string)) < cap (NewSlidingWindowLimiter n w mapCap) →
let l := NewSlidingWindowLimiter n w mapCap in
let out := (@run_calls _ (mem_limiter range_map) l calls).1 in
Z.of_nat (length (in_window (window l) t (admitted k calls out))) ≤ n.
Proof.
intros Hn Hk Hs Hc l out. unfold out, l. rewrite (mem_refines range_map n w mapCap calls Hs Hc).
by apply spec_run_new_bound.
Qed.

Lemma sliding_window_bound_witness :
let calls := [("a", 0); ("b", 5); ("a", 10); ("a", 20); ("a", 150)] in
let l := NewSlidingWindowLimiter 2 100 10 in
let out := (@run_calls _ (mem_limiter map_to_list) l calls).1 in
out = [None; None; None; Some ErrRateLimited; None] ∧
Z.of_nat (length (in_window (window l) 20 (admitted "a" calls out))) ≤ 2.
Proof.
split; [vm_compute; reflexivity|].
apply (sliding_window_bound map_to_list 2 100 10
  [("a", 0); ("b", 5); ("a", 10); ("a", 20); ("a", 150)] "a" 20).
- lia.
- done.
- ascending_tac.
- vm_compute; reflexivity.
Defined.

(** C33: a limiter takes the same decisions on either backend when it has the table of the
  Postgres backend to itself: from an empty table that no other limiter writes, on
  the same calls with a non-decreasing clock of microsecond resolution (what TIMESTAMPTZ
  stores), both backends take the decisions of the exact sliding-window specification
  (admit unless maxN admitted events lie in the window; a cap of zero or less admits
  everything), provided the memory map is not full and no database statement fails.
  (Limiters that share the table and their keys, as those the server keys by the
  bare source address do, are not covered: shared_table_couples_limiters.) *)
Theorem backends_agree range_map pg_ts (n w mapCap : Z) (calls : list (string * Z)) (env : Env) :
(∀ u, pg_ts (u * 1000) = u * 1000) → env_faults env = [] →
ascending calls.*2 → Forall micro calls.*2 →
Z.of_nat (size (list_to_set calls.*1 : gset string)) < cap (NewSlidingWindowLimiter n w mapCap) →
let mem := (@run_calls _ (mem_limiter range_map) (NewSlidingWindowLimiter n w mapCap) calls).1 in
let pg := (@run_calls _ (pg_limiter pg_ts (NewPostgresSlidingWindowLimiter n w))
             (mkWorld ∅ env) calls).1 in
mem = (run_calls (spec_new n w) calls).1 ∧ pg = mem.
Proof.
intros Hp Hf Hs Hm Hc mem pg. unfold mem, pg.
rewrite (mem_refines range_map n w mapCap calls Hs Hc). by rewrite pg_refines.
Qed.

Lemma backends_agree_witness :
let calls := [("a", 0); ("a", 10000); ("a", 20000); ("a", 150000)] in
(@run_calls _ (mem_limiter map_to_list) (NewSlidingWindowLimiter 2 100000 10) calls).1
  = [None; None; Some ErrRateLimited; None] ∧
(@run_calls _ (pg_limiter (λ t, t / 1000 * 1000) (NewPostgresSlidingWindowLimiter 2 100000))
   (mkWorld ∅ (mkEnv 0 [] [] 0)) calls).1 = [None; None; Some ErrRateLimited; None].
Proof.
destruct (backends_agree map_to_list (λ t, t / 1000 * 1000) 2 100000 10
  [("a", 0); ("a", 10000); ("a", 20000); ("a", 150000)] (mkEnv 0 [] [] 0)) as [_ Hpg].
- intros u. by rewrite Z.div_mul.
- reflexivity.
- ascending_tac.
- repeat apply Forall_cons_2; [by exists 0|by exists 10|by exists 20|by exists 150|constructor].
- vm_compute; reflexivity.
- cbn zeta in *. rewrite Hpg. split; vm_compute; reflexivity.
Defined.

(** The limiters of the OCSP responder (1000 a minute here), of the break-glass login
  (5 a minute) and of failed EST authentications (10 an hour) write the row of the same source
  address.  Five OCSP requests use up the login attempts of that address, and an OCSP
  request a minute later forgets its EST failures; in memory each has its own map. *)
Example shared_table_couples_limiters :
let ocsp := NewPostgresSlidingWindowLimiter 1000 (60 * 10 ^ 9) in
let login := NewPostgresSlidingWindowLimiter 5 (60 * 10 ^ 9) in
let est := NewPostgresSlidingWindowLimiter 10 (3600 * 10 ^ 9) in
let call l t w := (PostgresSlidingWindowLimiter_Allow id l "192.0.2.1" t w).2 in
let start := mkWorld ∅ (mkEnv 0 [] [] 0) in
let five := foldr (call ocsp) start [5000; 4000; 3000; 2000; 1000] in
let failures := foldr (call est) start (rev (seqZ 1 10)) in
(PostgresSlidingWindowLimiter_Allow id login "192.0.2.1" 6000 five).1 = Some ErrRateLimited ∧
(PostgresSlidingWindowLimiter_Allow id login "192.0.2.1" 6000 start).1 = None ∧
(PostgresSlidingWindowLimiter_Allow id est "192.0.2.1" (61 * 10 ^ 9) failures).1 = Some ErrRateLimited ∧
(PostgresSlidingWindowLimiter_Allow id est "192.0.2.1" (61 * 10 ^ 9) (call ocsp (61 * 10 ^ 9) failures)).1 = None.
Proof. split_and!; vm_compute; reflexivity. Qed.

(** sweeping rows older than a maxWindow that is at least the limiter's
  window never changes a later decision, nor the row that decision stores:
  the janitor is invisible to the limiter. *)
Theorem gc_invisible pg_ts l k t maxWindow (w : World Tbl) :
rows_ok (w_db w) → env_faults (w_env w) = [] → pg_window l ≤ maxWindow →
env_clock (w_env (GarbageCollect maxWindow w).2) ≤ t →
let after := PostgresSlidingWindowLimiter_Allow pg_ts l k t (GarbageCollect maxWindow w).2 in
let direct := PostgresSlidingWindowLimiter_Allow pg_ts l k t w in
after.1 = direct.1 ∧ (k ≠ "" → pg_disabled l = false → w_db after.2 !! k = w_db direct.2 !! k).
Proof.
intros Hok Hf Hw Ht. set (w' := (GarbageCollect maxWindow w).2) in *.
destruct (pg_disabled l) eqn:Hd.
{ unfold PostgresSlidingWindowLimiter_Allow. rewrite Hd. done. }
destruct (decide (k = "")) as [->|Hk].
{ unfold PostgresSlidingWindowLimiter_Allow. by rewrite Hd, bool_decide_eq_true_2. }
assert (env_faults (w_env w') = [] ∧
  pruneOlderThan (default [] (fst <$> w_db w' !! k)) (t - pg_window l)
  = pruneOlderThan (default [] (fst <$> w_db w !! k)) (t - pg_window l)) as [Hf' Hp].
{ subst w'. destruct w as [tbl [c tks flts n]]. cbn in Hf, Hok. subst flts.
  revert Ht. unfold GarbageCollect. destruct (Z.leb_spec maxWindow 0); [done|].
  destruct tks; mrun; intros Ht; (split; [done|apply gc_bucket; [done|lia]]). }
cbn zeta. rewrite !pg_Allow_no_fault by done. cbn zeta. rewrite Hp. cbn.
rewrite !lookup_insert_eq. done.
Qed.

Lemma gc_invisible_witness :
let l := NewPostgresSlidingWindowLimiter 1 100 in
let w := mkWorld {["a" := ([0], 0); "b" := ([950], 950)]} (mkEnv 1000 [] [] 0) in
let after k := PostgresSlidingWindowLimiter_Allow id l k 1000 (GarbageCollect 100 w).2 in
(GarbageCollect 100 w).1 = Ok 1 ∧ (after "a").1 = None ∧ (after "b").1 = Some ErrRateLimited ∧
(after "a").1 = (PostgresSlidingWindowLimiter_Allow id l "a" 1000 w).1.
Proof.
split_and!; [vm_compute; reflexivity..|].
eapply (gc_invisible id (NewPostgresSlidingWindowLimiter 1 100) "a" 1000 100
  (mkWorld {["a" := ([0], 0); "b" := ([950], 950)]} (mkEnv 1000 [] [] 0))).
- cbn. apply map_Forall_insert_2; [repeat constructor; cbn; lia|].
  apply map_Forall_singleton. repeat constructor. cbn. lia.
- reflexivity.
- vm_compute; discriminate.
- vm_compute; discriminate.
Defined.

(** whatever the iteration order, the in-memory map of a limiter built by
  NewSlidingWindowLimiter never holds more than cap keys, after any calls. *)
Theorem memory_map_bounded range_map (n w mapCap : Z) (calls : list (string * Z)) :
(∀ m, range_map m ≡ₚ map_to_list m) →
let l := (@run_calls _ (mem_limiter range_map) (NewSlidingWindowLimiter n w mapCap) calls).2 in
Len l ≤ cap l ∧ 0 < cap l.
Proof.
intros Hr l. destruct (run_bounded range_map Hr calls (NewSlidingWindowLimiter n w mapCap))
  as (_ & Hc & Hs); [|by split].
unfold bounded, keys_ok, NewSlidingWindowLimiter. cbn. rewrite map_size_empty.
split_and!; [done|destruct (Z.leb_spec mapCap 0); lia..].
Qed.

Lemma memory_map_bounded_witness :
let l := (@run_calls _ (mem_limiter map_to_list) (NewSlidingWindowLimiter 1 10 2)
            [("a", 0); ("b", 1); ("c", 2); ("d", 3)]).2 in
Len l = 2 ∧ Len l ≤ cap l.
Proof.
split; [vm_compute; reflexivity|].
apply (memory_map_bounded map_to_list 1 10 2 [("a", 0); ("b", 1); ("c", 2); ("d", 3)]).
done.
Defined.

(** The bound of a key is lost when the map is full: eviction runs before
  the key's own bucket is read, so with the key as the only (hence the oldest)
  entry of a full map its log is dropped and a second event is admitted at the
  same instant although maxN is 1. *)
Theorem full_map_resets_own_key range_map k t :
(∀ m, range_map m ≡ₚ map_to_list m) → k ≠ "" →
(@run_calls _ (mem_limiter range_map) (NewSlidingWindowLimiter 1 day_ns 1) [(k, t); (k, t)]).1
= [None; None].
Proof.
intros Hr Hk. set (one := mkLimiter {[k := [t]]} 1 day_ns 1 false).
assert (SlidingWindowLimiter_Allow range_map (NewSlidingWindowLimiter 1 day_ns 1) k t = (None, one)) as H1.
{ unfold SlidingWindowLimiter_Allow, NewSlidingWindowLimiter. cbn -[size].
  rewrite bool_decide_eq_false_2, map_size_empty by done.
  change (1 <=? Z.of_nat 0) with false. cbn -[day_ns]. by rewrite lookup_empty. }
assert (evictOldestLocked range_map one = mkLimiter ∅ 1 day_ns 1 false) as Hev.
{ unfold evictOldestLocked, one. cbn [buckets].
  assert (range_map {[k := [t]]} = [(k, [t])]) as ->.
  { apply Permutation_singleton_r. by rewrite Hr, map_to_list_singleton. }
  cbn. rewrite bool_decide_eq_false_2 by done. unfold with_buckets. cbn.
  by rewrite delete_singleton_eq. }
assert ((SlidingWindowLimiter_Allow range_map one k t).1 = None) as H2.
{ unfold SlidingWindowLimiter_Allow. cbn [disabled one]. rewrite bool_decide_eq_false_2 by done.
  cbn [cap buckets one]. rewrite map_size_singleton. change (1 <=? Z.of_nat 1) with true.
  cbn match. rewrite Hev. cbn -[day_ns]. by rewrite lookup_empty. }
unfold run_calls, Allow, mem_limiter. rewrite H1.
destruct (SlidingWindowLimiter_Allow range_map one k t) as [r l2]. cbn in H2. by subst r.
Qed.

Lemma full_map_resets_own_key_witness :
(@run_calls _ (mem_limiter map_to_list) (NewSlidingWindowLimiter 1 day_ns 1) [("ip", 7); ("ip", 7)]).1
= [None; None].
Proof. apply (full_map_resets_own_key map_to_list "ip" 7); done. Defined.

End claims.
