(* ===== verification/AuditTrail.v ===== *)
(** * The audit trail (src/internal/service/audit.go, audit_redact.go,
      src/internal/domain/audit.go, src/internal/repository/postgres/audit.go)

    [gval] is a Go [interface{}] value as the redactor's type switch sees it;
    a Go map is the list of its entries in iteration order.  [RecordEvent] is
    generic in the database: [HasAudit] is what a database offers to it. *)

From stdpp Require Import prelude gmap strings list sorting pretty.
From Stdlib Require Import ZArith Lia.
From S2P Require Import Prelude.

(** ** Dynamic values *)
Inductive gval :=
  | GNil
  | GBool (b : bool)
  | GInt (z : Z)
  | GFloat (num den : Z)                  (* float64, as the exact quotient *)
  | GStr (s : string)
  | GMap (m : list (string * gval))       (* map[string]interface{} *)
  | GSlice (l : list gval)                (* []interface{} *)
  | GStrs (l : list string)               (* []string *)
  | GStrMap (m : list (string * string)). (* map[string]string *)

Definition details : Type := list (string * gval).

Section gval_ind.
Variable P : gval → Prop.
Hypothesis HNil : P GNil.
Hypothesis HBool : ∀ b, P (GBool b).
Hypothesis HInt : ∀ z, P (GInt z).
Hypothesis HFloat : ∀ n d, P (GFloat n d).
Hypothesis HStr : ∀ s, P (GStr s).
Hypothesis HMap : ∀ m, Forall (λ kv, P kv.2) m → P (GMap m).
Hypothesis HSlice : ∀ l, Forall P l → P (GSlice l).
Hypothesis HStrs : ∀ l, P (GStrs l).
Hypothesis HStrMap : ∀ m, P (GStrMap m).

(** Induction over the values inside maps and slices. *)
Fixpoint gval_ind' (v : gval) : P v :=
  match v with
  | GNil => HNil
  | GBool b => HBool b
  | GInt z => HInt z
  | GFloat n d => HFloat n d
  | GStr s => HStr s
  | GMap m => HMap m
      ((fix go (m : list (string * gval)) : Forall (λ kv, P kv.2) m :=
          match m with
          | [] => Forall_nil_2 _
          | kv :: m' => Forall_cons_2 _ _ _ (gval_ind' kv.2) (go m')
          end) m)
  | GSlice l => HSlice l
      ((fix go (l : list gval) : Forall P l :=
          match l with
          | [] => Forall_nil_2 _
          | x :: l' => Forall_cons_2 _ _ _ (gval_ind' x) (go l')
          end) l)
  | GStrs l => HStrs l
  | GStrMap m => HStrMap m
  end.
End gval_ind.

(** ** The redactor *)
Definition credentialKeys : list string :=
  [ "api_key"; "apikey"; "password"; "passphrase"; "secret"; "client_secret"; "token";
    "access_token"; "refresh_token"; "bootstrap_token"; "credential"; "credentials";
    "private_key"; "privatekey"; "private_key_pem"; "key_pem"; "cert_pem"; "chain_pem";
    "full_pem"; "eab_secret"; "eab_kid"; "acme_account_key"; "hmac"; "hmac_key";
    "signature"; "auth"; "authorization"; "bearer" ].

Definition piiKeys : list string :=
  [ "email"; "email_address"; "phone"; "phone_number"; "telephone"; "ssn";
    "social_security"; "dob"; "date_of_birth"; "name"; "full_name"; "first_name";
    "last_name"; "surname"; "address"; "street"; "street_address"; "city";
    "postal_code"; "zip"; "zipcode"; "ip"; "ip_address" ].

Definition redacted_credential : gval := GStr "[REDACTED:CREDENTIAL]".
Definition redacted_pii : gval := GStr "[REDACTED:PII]".

Section redact.
(** [strings.ToLower] *)
Variable ToLower : string → string.

(** The range loop over a map, shared by [RedactDetailsForAudit] (where the
    path of a key is the key) and [redactValue] (where it is
    [parentKey + "." + k]); [rec] is the recursive call of its default case.
    The result is the new map and the key paths appended to [redactedKeys]. *)
Definition redact_map (rec : gval → string → gval * list string) (path : string → string)
    : details → details * list string :=
  fix go m :=
    match m with
    | [] => ([], [])
    | (k, v) :: m' =>
        let lower := ToLower k in
        let '(v', ks) :=
          if bool_decide (lower ∈ credentialKeys) then (redacted_credential, [path k])
          else if bool_decide (lower ∈ piiKeys) then (redacted_pii, [path k])
          else rec v (path k) in
        let '(rest, ks') := go m' in
        ((k, v') :: rest, ks ++ ks')
    end.

(** The range loop over a slice. *)
Definition redact_slice (rec : gval → gval * list string)
    : list gval → list gval * list string :=
  fix go l :=
    match l with
    | [] => ([], [])
    | item :: l' =>
        let '(v', ks) := rec item in
        let '(rest, ks') := go l' in
        (v' :: rest, ks ++ ks')
    end.

Fixpoint redactValue (v : gval) (parentKey : string) : gval * list string :=
  match v with
  | GMap typed =>
      let '(nested, keys) :=
        redact_map redactValue (λ k, parentKey +:+ "." +:+ k)%string typed in
      (GMap nested, keys)
  | GSlice typed =>
      let '(nested, keys) := redact_slice (λ item, redactValue item parentKey) typed in
      (GSlice nested, keys)
  | typed => (typed, [])
  end.

(** [out[k] = v] on a map. *)
Definition map_assign (k : string) (v : gval) (m : details) : details :=
  filter (λ kv : string * gval, kv.1 ≠ k) m ++ [(k, v)].

(** [None] is the nil map (rendered as JSON null). *)
Definition RedactDetailsForAudit (d : details) : option details :=
  match d with
  | [] => None
  | _ =>
      let '(out, redactedKeys) := redact_map redactValue (λ k, k) d in
      Some (match redactedKeys with
            | [] => out
            | _ => map_assign "redacted_keys" (GStrs redactedKeys) out
            end)
  end.
End redact.

(** ** Audit events

    [domain.ActorType] is a Go string type with named constants. *)
Definition ActorTypeUser : string := "User".
Definition ActorTypeSystem : string := "System".
Definition ActorTypeAgent : string := "Agent".
Definition ActorTypeAPIKey : string := "APIKey".
Definition ActorTypeAnonymous : string := "Anonymous".

Definition EventCategoryCertLifecycle : string := "cert_lifecycle".
Definition EventCategoryAuth : string := "auth".
Definition EventCategoryConfig : string := "config".

Record AuditEvent := mkAuditEvent {
  ae_ID : string;
  ae_Timestamp : Z;
  ae_Actor : string;
  ae_ActorType : string;
  ae_Action : string;
  ae_ResourceType : string;
  ae_ResourceID : string;
  ae_Details : option details;
  ae_EventCategory : string
}.

(** What the audit service needs of the database: the audit_events table, and
    an INSERT that adds a row to it. *)
Class HasAudit (D : Type) := {
  audit_log : D → list AuditEvent;
  append_audit : AuditEvent → D → D;
  audit_log_append ev d : audit_log (append_audit ev d) = audit_log d ++ [ev]
}.

(** The table on its own. *)
#[global, program] Instance HasAudit_list : HasAudit (list AuditEvent) :=
  {| audit_log := id; append_audit := λ ev l, l ++ [ev] |}.
Next Obligation. done. Qed.

(** [generateID(prefix)] of renewal.go. *)
Definition generateID {D} (prefix : string) : M D string :=
  counter ← fresh;
  t ← now;
  mret (prefix +:+ "-" +:+ pretty t +:+ "-" +:+ pretty counter)%string.

(** The CHECK constraint on audit_events.event_category. *)
Definition category_allowed (c : string) : bool :=
  bool_decide (c ∈ [EventCategoryCertLifecycle; EventCategoryAuth; EventCategoryConfig]).

(** [repository.AuditFilter]; a zero [time.Time] is [None]. *)
Record AuditFilter := mkAuditFilter {
  af_Actor : string;
  af_ActorType : string;
  af_ResourceType : string;
  af_ResourceID : string;
  af_EventCategory : string;
  af_From : option Z;
  af_To : option Z;
  af_Page : Z;
  af_PerPage : Z
}.

(** The WHERE clause [AuditRepository.List] assembles. *)
Definition audit_matches (f : AuditFilter) (e : AuditEvent) : bool :=
  (bool_decide (af_Actor f = "") || bool_decide (ae_Actor e = af_Actor f)) &&
  (bool_decide (af_ActorType f = "") || bool_decide (ae_ActorType e = af_ActorType f)) &&
  (bool_decide (af_ResourceType f = "") || bool_decide (ae_ResourceType e = af_ResourceType f)) &&
  (bool_decide (af_ResourceID f = "") || bool_decide (ae_ResourceID e = af_ResourceID f)) &&
  match af_From f with None => true | Some t => t <=? ae_Timestamp e end &&
  match af_To f with None => true | Some t => ae_Timestamp e <=? t end &&
  (bool_decide (af_EventCategory f = "") || bool_decide (ae_EventCategory e = af_EventCategory f)).

(** [ORDER BY timestamp DESC]. *)
Definition newest_first (a b : AuditEvent) : Prop := ae_Timestamp b ≤ ae_Timestamp a.

#[global] Instance newest_first_dec a b : Decision (newest_first a b).
Proof. unfold newest_first. apply _. Defined.

#[global] Instance newest_first_total : Total newest_first.
Proof. intros a b. unfold newest_first. lia. Qed.

#[global] Instance newest_first_trans : Transitive newest_first.
Proof. intros a b c. unfold newest_first. lia. Qed.

Definition audit_select (f : AuditFilter) (log : list AuditEvent) : list AuditEvent :=
  merge_sort newest_first (filter (λ e, audit_matches f e = true) log).

Section audit.
Context {D : Type} `{!HasAudit D}.
Variable ToLower : string → string.

(** [AuditRepository.Create] is [CreateWithTx] on the connection pool: the
    INSERT into audit_events with its primary key and CHECK constraint. *)
Definition AuditRepository_Create (ev : AuditEvent) : M D (res unit) :=
  let ev := if bool_decide (ae_EventCategory ev = "")
            then mkAuditEvent (ae_ID ev) (ae_Timestamp ev) (ae_Actor ev) (ae_ActorType ev)
                   (ae_Action ev) (ae_ResourceType ev) (ae_ResourceID ev) (ae_Details ev)
                   EventCategoryCertLifecycle
            else ev in
  sql_exec "failed to create audit event" (λ d,
    if bool_decide (ae_ID ev ∈ map ae_ID (audit_log d))
    then (Err (ErrWrap "failed to create audit event" (ErrMsg "duplicate key")), d)
    else if negb (category_allowed (ae_EventCategory ev))
    then (Err (ErrWrap "failed to create audit event" (ErrMsg "check constraint")), d)
    else (Ok tt, append_audit ev d)).

Definition RecordEventWithCategory (actor actorType action eventCategory resourceType
    resourceID : string) (d : details) : M D (res unit) :=
  let redacted := RedactDetailsForAudit ToLower d in
  id ← generateID "audit";
  t ← now;
  r ← AuditRepository_Create
        (mkAuditEvent id t actor actorType action resourceType resourceID redacted eventCategory);
  match r with
  | Err e => mret (Err (ErrWrap "failed to record audit event" e))
  | Ok _ => mret (Ok tt)
  end.

Definition RecordEvent (actor actorType action resourceType resourceID : string)
    (d : details) : M D (res unit) :=
  RecordEventWithCategory actor actorType action "" resourceType resourceID d.

(** [AuditRepository.List]: the COUNT query, then one page. *)
Definition AuditRepository_List (f : AuditFilter) : M D (res (list AuditEvent)) :=
  let Page := if af_Page f <? 1 then 1 else af_Page f in
  let PerPage := if (af_PerPage f =? 0) || (500 <? af_PerPage f) then 50 else af_PerPage f in
  total ← sql_query "failed to count audit events" (λ d, length (audit_select f (audit_log d)));
  match total with
  | Err e => mret (Err e)
  | Ok _ =>
      let offset := wrap64 ((Page - 1) * PerPage) in
      rows ← sql_query "failed to query audit events" (λ d,
        if (PerPage <? 0) || (offset <? 0)
        then Err (ErrMsg "failed to query audit events: LIMIT or OFFSET is negative")
        else Ok (take (Z.to_nat PerPage)
                   (drop (Z.to_nat offset) (audit_select f (audit_log d)))));
      match rows with
      | Err e => mret (Err e)
      | Ok r => mret r
      end
  end.

Definition AuditService_List (f : AuditFilter) : M D (res (list AuditEvent)) :=
  r ← AuditRepository_List f;
  mret match r with
       | Err e => Err (ErrWrap "failed to list audit events" e)
       | Ok l => Ok l
       end.

Definition ListByResource (resourceType resourceID : string) : M D (res (list AuditEvent)) :=
  AuditService_List (mkAuditFilter "" "" resourceType resourceID "" None None 0 1000).

Definition ListByActor (actor : string) : M D (res (list AuditEvent)) :=
  AuditService_List (mkAuditFilter actor "" "" "" "" None None 0 1000).

Definition ListByAction (action : string) (from to : option Z) : M D (res (list AuditEvent)) :=
  r ← AuditService_List (mkAuditFilter "" "" "" "" "" from to 0 1000);
  mret match r with
       | Err e => Err e
       | Ok l => Ok (filter (λ e, ae_Action e = action) l)
       end.

Definition ListAuditEventsByFilter (since until : option Z) (eventCategory : string)
    (page perPage : Z) : M D (res (list AuditEvent * Z)) :=
  let page := if page <? 1 then 1 else page in
  let perPage := if perPage <? 1 then 50 else perPage in
  r ← AuditService_List (mkAuditFilter "" "" "" "" eventCategory since until page perPage);
  mret match r with
       | Err e => Err e
       | Ok l => Ok (l, Z.of_nat (length l))
       end.

Definition ListAuditEvents (page perPage : Z) : M D (res (list AuditEvent * Z)) :=
  ListAuditEventsByFilter None None "" page perPage.

Definition ListAuditEventsByCategory (eventCategory : string) (page perPage : Z)
    : M D (res (list AuditEvent * Z)) :=
  ListAuditEventsByFilter None None eventCategory page perPage.

Definition ExportEventsByFilter (from to : option Z) (eventCategory : string) (maxRows : Z)
    : M D (res (list AuditEvent)) :=
  let maxRows := if maxRows <=? 0 then 50000 else maxRows in
  r ← AuditRepository_List (mkAuditFilter "" "" "" "" eventCategory from to 1 maxRows);
  mret match r with
       | Err e => Err (ErrWrap "failed to list audit events for export" e)
       | Ok l => Ok l
       end.

Definition GetAuditEvent (id : string) : M D (res AuditEvent) :=
  r ← AuditRepository_List (mkAuditFilter "" "" "" id "" None None 0 1);
  mret match r with
       | Err e => Err (ErrWrap "failed to get audit event" e)
       | Ok [] => Err (ErrMsg "audit event not found")
       | Ok (e :: _) => Ok e
       end.

(** Every audit write only appends to the log. *)
Lemma pres_RecordEventWithCategory (R : relation D) `{!PreOrder R} a at_ act cat rt ri d :
  (∀ ev db, R db (append_audit ev db)) →
  pres R (RecordEventWithCategory a at_ act cat rt ri d).
Proof.
  intros HR. unfold RecordEventWithCategory, AuditRepository_Create, generateID.
  repeat pres_step; repeat case_match; cbn; first [reflexivity | apply HR].
Qed.

Lemma pres_RecordEvent (R : relation D) `{!PreOrder R} a at_ act rt ri d :
  (∀ ev db, R db (append_audit ev db)) →
  pres R (RecordEvent a at_ act rt ri d).
Proof. intros HR. by apply pres_RecordEventWithCategory. Qed.

Lemma since_RecordEvent (R : relation (World D)) `{!Transitive R} `{!EnvClosed R}
    c a at_ act rt ri d :
  (∀ w e ev, env_clock e = clock w → R w (mkWorld (append_audit ev (w_db w)) e)) →
  since c R (RecordEvent a at_ act rt ri d).
Proof.
  intros HR. unfold RecordEvent, RecordEventWithCategory, AuditRepository_Create, generateID.
  since_step. since_step.
  { apply since_free; [done|]. intros w. cbn. split; done. }
  { repeat since_step. }
  repeat since_step. refine (since_exec _ _ _ _ _). intros w e Hc He.
  repeat case_match; cbn; first [by apply HR | by apply env_closed; [done|unfold clock in *; cbn; lia]].
Qed.
End audit.

(** ** What redaction guarantees *)

(** [entry v k x]: somewhere inside [v], through [map[string]interface{}] and
    [[]interface{}] values at any depth, key [k] holds [x].  These are the containers the
    redactor walks; the entries of typed maps are [typed_entry]. *)
Inductive entry : gval → string → gval → Prop :=
  | entry_here m k x : (k, x) ∈ m → entry (GMap m) k x
  | entry_map m k' y k x : (k', y) ∈ m → entry y k x → entry (GMap m) k x
  | entry_slice l y k x : y ∈ l → entry y k x → entry (GSlice l) k x.

(** [typed_in v t]: the [map[string]string] value [t] is somewhere inside [v]. *)
Inductive typed_in : gval → list (string * string) → Prop :=
  | typed_here t : typed_in (GStrMap t) t
  | typed_map m k y t : (k, y) ∈ m → typed_in y t → typed_in (GMap m) t
  | typed_slice l y t : y ∈ l → typed_in y t → typed_in (GSlice l) t.

(** Key [k] holds [x] in a typed map inside [v]. *)
Definition typed_entry (v : gval) (k : string) (x : gval) : Prop :=
  ∃ t s, typed_in v t ∧ (k, s) ∈ t ∧ x = GStr s.

(** Lower-casing of ASCII text, byte by byte. *)
Fixpoint lower_ascii (s : string) : string :=
  match s with
  | EmptyString => EmptyString
  | String a s' =>
      let n := Ascii.nat_of_ascii a in
      String (if Nat.leb 65 n && Nat.leb n 90 then Ascii.ascii_of_nat (n + 32)%nat else a)
             (lower_ascii s')
  end.

Fixpoint is_ascii (s : string) : bool :=
  match s with
  | EmptyString => true
  | String a s' => Nat.ltb (Ascii.nat_of_ascii a) 128 && is_ascii s'
  end.

Section redact_facts.
Variable ToLower : string → string.

Definition denied (k : string) : bool :=
  bool_decide (ToLower k ∈ credentialKeys) || bool_decide (ToLower k ∈ piiKeys).

(** What a denied key must hold after redaction. *)
Definition scrubbed (k : string) (x : gval) : Prop :=
  (ToLower k ∈ credentialKeys → x = redacted_credential) ∧
  (ToLower k ∈ piiKeys → ToLower k ∉ credentialKeys → x = redacted_pii).

Lemma redact_map_elem rec path m k x :
  (k, x) ∈ (redact_map ToLower rec path m).1 →
  ∃ v, (k, v) ∈ m ∧ scrubbed k x ∧
    (denied k = false ∧ x = (rec v (path k)).1 ∨
     denied k = true ∧ (x = redacted_credential ∨ x = redacted_pii)).
Proof.
  unfold denied, scrubbed. induction m as [|[k0 v0] m IH]; cbn; [by intros ?%elem_of_nil|].
  destruct (bool_decide (ToLower k0 ∈ credentialKeys)) eqn:E1;
    [|destruct (bool_decide (ToLower k0 ∈ piiKeys)) eqn:E2; [|destruct (rec v0 (path k0)) eqn:E3]];
    destruct (redact_map ToLower rec path m) as [rest ks'] eqn:E; cbn in *;
    (intros [[= -> ->]|Hin]%elem_of_cons;
     [exists v0; split; [left|]; rewrite ?E1, ?E2, ?E3; cbn
     |destruct (IH Hin) as (v & ? & ?); exists v; split; [by right|done]]).
  all: repeat first [rewrite bool_decide_eq_true in * | rewrite bool_decide_eq_false in * ].
  all: naive_solver.
Qed.

Lemma redact_slice_elem rec l x :
  x ∈ (redact_slice rec l).1 → ∃ v, v ∈ l ∧ x = (rec v).1.
Proof.
  induction l as [|y l IH]; cbn; [by intros ?%elem_of_nil|].
  destruct (rec y) eqn:E1, (redact_slice rec l) eqn:E2; cbn in *.
  intros [->|Hin]%elem_of_cons; [exists y; rewrite E1; split; [left|done]|].
  destruct (IH Hin) as (v & ? & ?). exists v; split; [by right|done].
Qed.

(** Nothing inside a redacted value escapes the deny-lists. *)
Lemma redactValue_scrubs v p k x : entry (redactValue ToLower v p).1 k x → scrubbed k x.
Proof.
  revert p. induction v as [| | | | |m IH|l IH| |] using gval_ind'; intros p; cbn;
    try by inversion 1.
  - destruct (redact_map _ _ _ m) as [out ks] eqn:E; cbn. rewrite Forall_forall in IH.
    inversion 1 as [? ? ? Hin|? k' y ? ? Hin Hy|]; subst;
      replace out with (redact_map ToLower (redactValue ToLower)
        (λ k, p +:+ "." +:+ k)%string m).1 in Hin by (by rewrite E);
      apply redact_map_elem in Hin as (v & Hv & Hs & Hcase); [done|].
    destruct Hcase as [[_ ->]|[_ [-> | ->]]]; [|by inversion Hy..].
    by eapply (IH (k', v)).
  - destruct (redact_slice _ l) as [out ks] eqn:E; cbn. rewrite Forall_forall in IH.
    inversion 1 as [| |? y ? ? Hin Hy]; subst.
    replace out with (redact_slice (λ item, redactValue ToLower item p) l).1 in Hin
      by (by rewrite E).
    apply redact_slice_elem in Hin as (v & Hv & ->). by eapply IH.
Qed.

Lemma redact_map_scrubs path m k x :
  entry (GMap (redact_map ToLower (redactValue ToLower) path m).1) k x → scrubbed k x.
Proof.
  inversion 1 as [? ? ? Hin|? k' y ? ? Hin Hy|]; subst;
    apply redact_map_elem in Hin as (v & Hv & Hs & Hcase); [done|].
  destruct Hcase as [[_ ->]|[_ [-> | ->]]]; [|by inversion Hy..].
  by eapply redactValue_scrubs.
Qed.

(** A typed map of a redacted value is one of the value. *)
Lemma redact_map_typed path m t :
  Forall (λ kv : string * gval, ∀ p, typed_in (redactValue ToLower kv.2 p).1 t → typed_in kv.2 t) m →
  typed_in (GMap (redact_map ToLower (redactValue ToLower) path m).1) t → typed_in (GMap m) t.
Proof.
  rewrite Forall_forall. intros IH. inversion 1 as [|? k y ? Hin Hy|]; subst.
  apply redact_map_elem in Hin as (v & Hv & _ & Hcase).
  destruct Hcase as [[_ ->]|[_ [-> | ->]]]; [|by inversion Hy..].
  eapply typed_map; [exact Hv|]. by eapply (IH (k, v)).
Qed.

Lemma redactValue_typed v t : ∀ p, typed_in (redactValue ToLower v p).1 t → typed_in v t.
Proof.
  induction v as [| | | | |m IH|l IH| |] using gval_ind'; intros p; cbn; try by inversion 1.
  - pose proof (redact_map_typed (λ k, p +:+ "." +:+ k)%string m t IH) as H.
    by destruct (redact_map _ _ _ m).
  - destruct (redact_slice _ l) as [out ks] eqn:E; cbn. rewrite Forall_forall in IH.
    inversion 1 as [| |? y ? Hin Hy]; subst.
    replace out with (redact_slice (λ item, redactValue ToLower item p) l).1 in Hin by (by rewrite E).
    apply redact_slice_elem in Hin as (v & Hv & ->). eapply typed_slice; [exact Hv|]. by eapply IH.
  - done.
Qed.

Lemma redact_typed d out t : RedactDetailsForAudit ToLower d = Some out → typed_in (GMap out) t → typed_in (GMap d) t.
Proof.
  unfold RedactDetailsForAudit. destruct d as [|kv d]; [done|].
  pose proof (redact_map_typed (λ k, k) (kv :: d) t) as H.
  destruct (redact_map _ _ _ (kv :: d)) as [o ks]. cbn [fst] in H. intros [= <-] Hin.
  apply H; [apply Forall_true; intros x p; apply redactValue_typed|]. destruct ks; [done|].
  inversion Hin as [|? k y ? Hy Ht|]; subst. unfold map_assign in Hy.
  apply elem_of_app in Hy as [[_ Hy]%list_elem_of_filter|Hy%list_elem_of_singleton]; [by eapply typed_map|].
  simplify_eq. by inversion Ht.
Qed.

Lemma entry_assign k v m k' x :
  entry (GMap (map_assign k v m)) k' x →
  k' = k ∧ x = v ∨ entry v k' x ∨ entry (GMap m) k' x.
Proof.
  unfold map_assign.
  inversion 1 as [? ? ? Hin|? k1 y ? ? Hin Hy|]; subst;
    apply elem_of_app in Hin as [[_ Hin]%list_elem_of_filter|Hin%list_elem_of_singleton];
    simplify_eq; eauto using entry.
Qed.

(** No denied key inside: the value comes back unchanged, with no footprint. *)
Lemma redact_map_id rec path m :
  Forall (λ kv : string * gval, denied kv.1 = false ∧ ∀ p, rec kv.2 p = (kv.2, [])) m →
  redact_map ToLower rec path m = (m, []).
Proof.
  induction 1 as [|[k v] m [Hd Hr] _ IH]; cbn in *; [done|].
  apply orb_false_iff in Hd as [-> ->]. by rewrite Hr, IH.
Qed.

Lemma redactValue_id v p : (∀ k x, entry v k x → denied k = false) →
  redactValue ToLower v p = (v, []).
Proof.
  revert p. induction v as [| | | | |m IH|l IH| |] using gval_ind'; intros p Hd; cbn;
    try reflexivity.
  - rewrite redact_map_id; [done|]. rewrite Forall_forall in *. intros [k v] Hin. split.
    + by eapply Hd, entry_here.
    + intros q. eapply (IH (k, v) Hin). intros. by eapply Hd, entry_map.
  - replace (redact_slice _ l) with (l, @nil string); [done|].
    assert (H : ∀ x, x ∈ l → redactValue ToLower x p = (x, [])).
    { rewrite Forall_forall in IH. intros x Hx. apply IH; [done|]. intros.
      by eapply Hd, entry_slice. }
    clear -H. induction l as [|x l IH]; cbn; [done|].
    rewrite (H x) by left. rewrite <- IH by (intros; apply H; by right). done.
Qed.
End redact_facts.

Section redact_footprint.
Variable ToLower : string → string.

Lemma redact_map_fst rec path m : map fst (redact_map ToLower rec path m).1 = map fst m.
Proof.
  induction m as [|[k v] m IH]; cbn; [done|].
  destruct (if bool_decide _ then _ else _) as [v' ks], (redact_map _ _ _ m); cbn in *.
  by rewrite IH.
Qed.

Lemma redact_map_keys rec path m k v :
  (k, v) ∈ m → denied ToLower k = true ∨ (rec v (path k)).2 ≠ [] →
  (redact_map ToLower rec path m).2 ≠ [].
Proof.
  unfold denied. induction m as [|[k0 v0] m IH]; cbn; [by intros ?%elem_of_nil|].
  intros [[= <- <-]|Hin]%elem_of_cons Hd.
  - destruct (bool_decide (ToLower k ∈ credentialKeys)),
      (bool_decide (ToLower k ∈ piiKeys)); cbn in *;
      try (destruct (redact_map _ _ _ m); done).
    destruct (rec v (path k)) as [v' ks], (redact_map _ _ _ m); cbn in *.
    destruct Hd; [done|]. by destruct ks.
  - specialize (IH Hin Hd).
    destruct (if bool_decide _ then _ else _) as [v' ks], (redact_map _ _ _ m); cbn in *.
    by destruct ks.
Qed.

Lemma redact_slice_keys rec l v :
  v ∈ l → (rec v).2 ≠ [] → (redact_slice rec l).2 ≠ [].
Proof.
  induction l as [|x l IH]; cbn; [by intros ?%elem_of_nil|].
  intros [<-|Hin]%elem_of_cons Hd.
  - destruct (rec v) as [v' ks], (redact_slice rec l); cbn in *. by destruct ks.
  - specialize (IH Hin Hd). destruct (rec x) as [v' ks], (redact_slice rec l); cbn in *.
    by destruct ks.
Qed.

(** A denied key anywhere leaves its path in the footprint. *)
Lemma redactValue_keys v k x : entry v k x → denied ToLower k = true →
  ∀ p, (redactValue ToLower v p).2 ≠ [].
Proof.
  induction 1 as [m k x Hin|m k' y k x Hin _ IH|l y k x Hin _ IH]; intros Hd p; cbn.
  - pose proof (redact_map_keys (redactValue ToLower) (λ k, p +:+ "." +:+ k)%string m k x Hin).
    destruct (redact_map _ _ _ m); cbn in *; auto.
  - pose proof (redact_map_keys (redactValue ToLower) (λ k, p +:+ "." +:+ k)%string m k' y Hin).
    destruct (redact_map _ _ _ m); cbn in *; auto.
  - pose proof (redact_slice_keys (λ item, redactValue ToLower item p) l y Hin).
    destruct (redact_slice _ l); cbn in *; auto.
Qed.

Lemma redact_details_keys d k x : entry (GMap d) k x → denied ToLower k = true →
  (redact_map ToLower (redactValue ToLower) (λ k, k) d).2 ≠ [].
Proof.
  inversion 1 as [m k0 x0 Hin|m k' y k0 x0 Hin Hy|]; subst; intros Hd.
  - eapply redact_map_keys; [done|by left].
  - eapply redact_map_keys; [done|right]. by eapply redactValue_keys.
Qed.
End redact_footprint.

(** The two deny-lists have no key in common. *)
Lemma pii_not_credential k : k ∈ piiKeys → k ∉ credentialKeys.
Proof.
  intros Hp Hc. assert (Hd : Forall (λ p, p ∉ credentialKeys) piiKeys).
  { apply (bool_decide_unpack _). by vm_compute. }
  rewrite Forall_forall in Hd. by eapply Hd.
Qed.

(** Every entry under a listed key that the redactor walks to is scrubbed. *)
Lemma redact_entry ToLower d out k x :
  RedactDetailsForAudit ToLower d = Some out → entry (GMap out) k x →
  ToLower k ∈ credentialKeys ++ piiKeys → k ≠ "redacted_keys" → scrubbed ToLower k x.
Proof.
  unfold RedactDetailsForAudit. intros Hout Hx Hden Hne. destruct d as [|kv d]; [done|].
  pose proof (redact_map_scrubs ToLower (λ k, k) (kv :: d)) as Hscr.
  destruct (redact_map _ _ _ (kv :: d)) as [o ks]. destruct ks; injection Hout as <-; [by apply Hscr|].
  apply entry_assign in Hx as [[-> _]|[Hx|Hx]]; [done|by inversion Hx|by apply Hscr].
Qed.



(** Redaction changes nothing else.  A non-empty details map with no
    deny-listed key anywhere is persisted as it is; otherwise the persisted map
    has the caller's top-level keys in place and a [redacted_keys] entry listing
    at least one scrubbed path. *)
Theorem redact_footprint (ToLower : string → string) d :
  d ≠ [] →
  ((∀ k x, entry (GMap d) k x → denied ToLower k = false) →
     RedactDetailsForAudit ToLower d = Some d) ∧
  ((∃ k x, entry (GMap d) k x ∧ denied ToLower k = true) →
     ∃ out ks, map fst out = map fst d ∧ ks ≠ [] ∧
       RedactDetailsForAudit ToLower d = Some (map_assign "redacted_keys" (GStrs ks) out)).
Proof.
  intros Hne. unfold RedactDetailsForAudit. destruct d as [|kv d]; [done|]. clear Hne. split.
  - intros Hd. rewrite redact_map_id; [done|]. rewrite Forall_forall.
    intros [k v] Hin; split; [by eapply Hd, entry_here|].
    intros p. apply redactValue_id. intros. by eapply Hd, entry_map.
  - intros (k & x & Hx & Hd). pose proof (redact_details_keys _ _ _ _ Hx Hd) as Hks.
    pose proof (redact_map_fst ToLower (redactValue ToLower) (λ k, k) (kv :: d)) as Hf.
    destruct (redact_map _ _ _ (kv :: d)) as [out ks]; cbn in *.
    exists out, ks. by destruct ks.
Qed.

Lemma redact_footprint_witness :
  RedactDetailsForAudit lower_ascii [("job", GStr "j-1"); ("ids", GSlice [GStr "t-1"])] =
    Some [("job", GStr "j-1"); ("ids", GSlice [GStr "t-1"])].
Proof.
  apply (proj1 (redact_footprint lower_ascii
    [("job", GStr "j-1"); ("ids", GSlice [GStr "t-1"])] ltac:(discriminate))).
  assert (Hstr : ∀ s k x, ¬ entry (GStr s) k x) by (intros s k x H; inversion H).
  intros k x H. inversion H as [m k0 x0 Hin|m k0 y k1 x1 Hin Hy|]; subst.
  - repeat (apply elem_of_cons in Hin as [[= -> ->]|Hin]; [reflexivity|]). by apply elem_of_nil in Hin.
  - apply elem_of_cons in Hin as [[= -> ->]|Hin]; [by apply Hstr in Hy|].
    apply list_elem_of_singleton in Hin as [= -> ->]. inversion Hy as [| |l z ? ? Hz Hz']; subst.
    apply list_elem_of_singleton in Hz as ->. by apply Hstr in Hz'.
Defined.

(** A typed container is not walked: [map[string]string] under an unlisted key
    reaches the log with its [authorization] value. *)
Example redact_skips_typed_maps :
  RedactDetailsForAudit lower_ascii [("headers", GStrMap [("authorization", "Bearer s3cr3t")])] =
    Some [("headers", GStrMap [("authorization", "Bearer s3cr3t")])].
Proof. vm_compute. reflexivity. Qed.

(** ** What the log guarantees *)
Definition with_page (p : Z) (f : AuditFilter) : AuditFilter :=
  mkAuditFilter (af_Actor f) (af_ActorType f) (af_ResourceType f) (af_ResourceID f)
    (af_EventCategory f) (af_From f) (af_To f) p (af_PerPage f).

Lemma audit_select_sorted f log : StronglySorted newest_first (audit_select f log).
Proof. apply Sorted_StronglySorted; [apply _|]. apply (Sorted_merge_sort newest_first). Qed.

Lemma audit_select_elem f log e :
  e ∈ audit_select f log ↔ e ∈ log ∧ audit_matches f e = true.
Proof.
  unfold audit_select. rewrite (merge_sort_Permutation newest_first), list_elem_of_filter. naive_solver.
Qed.

Lemma concat_pages {A} (l : list A) (k n : nat) :
  concat (map (λ i, take k (drop (i * k) l)) (seq 0 n)) = take (n * k) l.
Proof.
  induction n as [|n IH]; [done|].
  rewrite seq_S, map_app, concat_app, IH; cbn. rewrite app_nil_r.
  replace (k + n * k)%nat with (n * k + k)%nat by lia.
  clear IH. revert l. generalize (n * k)%nat as m.
  intros m. induction m as [|m IH]; intros l; [done|]. destruct l as [|x l]; cbn; [by rewrite take_nil|].
  by rewrite IH.
Qed.

Section log_facts.
Context {D : Type} `{!HasAudit D}.
Implicit Types (w : World D).

(** A page of the log when no statement fails. *)
Lemma AuditRepository_List_page f w (p k : Z) :
  env_faults (w_env w) = [] →
  (if af_Page f <? 1 then 1 else af_Page f) = p →
  (if (af_PerPage f =? 0) || (500 <? af_PerPage f) then 50 else af_PerPage f) = k →
  0 < k → (p - 1) * k < 2 ^ 63 →
  (AuditRepository_List f w).1 =
    Ok (take (Z.to_nat k) (drop (Z.to_nat ((p - 1) * k)) (audit_select f (audit_log (w_db w))))).
Proof.
  intros Hf Hp Hk Hk0 Hov. unfold AuditRepository_List. rewrite Hp, Hk.
  assert (1 ≤ p) by (destruct (af_Page f <? 1) eqn:E; lia).
  rewrite wrap64_small by nia. mrun. rewrite Hf. cbn. rewrite Hf. cbn.
  replace (k <? 0) with false by lia. replace ((p - 1) * k <? 0) with false by nia. done.
Qed.

(** An audit write is exactly one append or nothing.  When it reports
    success the log grew by one row that carries the caller's actor, action and
    resource, the redacted form of the details and an allowed category; when it
    reports an error the log is unchanged or (connection lost after commit)
    grew by that same row.  No row is ever changed or removed. *)
Theorem record_event_appends ToLower actor actorType action cat rt rid d w :
  let '(r, w') := RecordEventWithCategory ToLower actor actorType action cat rt rid d w in
  (is_Ok r = false ∧ w_db w' = w_db w) ∨
  ∃ ev, audit_log (w_db w') = audit_log (w_db w) ++ [ev] ∧
    ae_ID ev ∉ map ae_ID (audit_log (w_db w)) ∧
    ae_Actor ev = actor ∧ ae_ActorType ev = actorType ∧ ae_Action ev = action ∧
    ae_ResourceType ev = rt ∧ ae_ResourceID ev = rid ∧
    ae_Details ev = RedactDetailsForAudit ToLower d ∧
    ae_EventCategory ev = (if bool_decide (cat = "") then EventCategoryCertLifecycle else cat) ∧
    category_allowed (ae_EventCategory ev) = true.
Proof.
  unfold RecordEventWithCategory, AuditRepository_Create, generateID. mrun.
  repeat case_match; simplify_eq/=; try (left; done).
  all: rewrite ?bool_decide_eq_true, ?bool_decide_eq_false in *.
  all: try match goal with H : ?c = "" |- _ => rewrite H in * end.
  all: rewrite ?negb_false_iff in *.
  all: right; eexists; rewrite audit_log_append; cbn; split_and!; eauto.
Qed.

(** Paging through [AuditRepository.List] is complete and ordered.  With
    a page size of 1 to 500, the first [n] pages laid end to end are the first
    [n * PerPage] rows of the newest-first list of exactly the matching rows. *)
Theorem audit_pages_complete f n w :
  env_faults (w_env w) = [] →
  1 ≤ af_PerPage f ≤ 500 →
  Z.of_nat n * af_PerPage f < 2 ^ 63 →
  ∃ pages sel,
    map (λ i, (AuditRepository_List (with_page (Z.of_nat i + 1) f) w).1) (seq 0 n) = map Ok pages ∧
    concat pages = take (n * Z.to_nat (af_PerPage f)) sel ∧
    StronglySorted newest_first sel ∧
    sel ≡ₚ filter (λ e, audit_matches f e = true) (audit_log (w_db w)).
Proof.
  intros Hf Hk Hn. set (k := af_PerPage f) in *.
  set (sel := audit_select f (audit_log (w_db w))).
  exists (map (λ i, take (Z.to_nat k) (drop (i * Z.to_nat k) sel)) (seq 0 n)), sel.
  split_and!; [|apply concat_pages|apply audit_select_sorted|apply merge_sort_Permutation].
  rewrite map_map. apply map_ext_in. intros i Hi%in_seq.
  rewrite (AuditRepository_List_page _ _ (Z.of_nat i + 1) k);
    [|done|cbn..|lia|nia].
  - replace (Z.of_nat i + 1 - 1) with (Z.of_nat i) by lia.
    by rewrite Z2Nat.inj_mul, Nat2Z.id by lia.
  - by replace (Z.of_nat i + 1 <? 1) with false by lia.
  - fold k. by replace (k =? 0) with false by lia; replace (500 <? k) with false by lia.
Qed.

(** The compliance export stops at 50 rows.  For the default row cap and
    for every requested cap above 500, [ExportEventsByFilter] returns only the 50
    newest matching events, because [AuditRepository.List] resets an oversized
    page size to 50; the rows beyond are dropped with no error. *)
Theorem audit_export_truncated from to cat maxRows w :
  env_faults (w_env w) = [] →
  maxRows ≤ 0 ∨ 500 < maxRows →
  (ExportEventsByFilter from to cat maxRows w).1 =
    Ok (take 50 (audit_select (mkAuditFilter "" "" "" "" cat from to 1 maxRows)
                   (audit_log (w_db w)))).
Proof.
  intros Hf Hm. unfold ExportEventsByFilter.
  set (m := if maxRows <=? 0 then 50000 else maxRows).
  set (f := mkAuditFilter "" "" "" "" cat from to 1 m).
  assert (Hl : (AuditRepository_List f w).1 = Ok (take 50 (drop 0 (audit_select f (audit_log (w_db w)))))).
  { apply (AuditRepository_List_page f w 1 50); try done.
    cbn. unfold m. destruct (maxRows <=? 0) eqn:E; [done|].
    by replace (500 <? maxRows) with true by lia; rewrite orb_true_r. }
  unfold mbind, M_bind, mret, M_ret. destruct (AuditRepository_List f w) as [r w']; cbn in *.
  by rewrite Hl.
Qed.

(** The endpoint for one audit event cannot find it by its id.  The lookup
    filters on the resource id, so unless some event happens to be about a
    resource of that name, [GetAuditEvent id] reports "not found" even when an
    event whose id is [id] is in the log. *)
Theorem get_audit_event_ignores_id id w :
  env_faults (w_env w) = [] → id ≠ "" →
  Forall (λ e, ae_ResourceID e ≠ id) (audit_log (w_db w)) →
  (GetAuditEvent id w).1 = Err (ErrMsg "audit event not found").
Proof.
  intros Hf Hid Hall. unfold GetAuditEvent.
  set (f := mkAuditFilter "" "" "" id "" None None 0 1).
  assert (Hl : (AuditRepository_List f w).1 = Ok (take 1 (drop 0 (audit_select f (audit_log (w_db w))))))
    by (by apply (AuditRepository_List_page f w 1 1)).
  assert (Hsel : audit_select f (audit_log (w_db w)) = []).
  { unfold audit_select. rewrite filter_none; [done|].
    eapply Forall_impl; [exact Hall|]. intros e He. unfold audit_matches; cbn.
    rewrite (bool_decide_eq_false_2 _ Hid), (bool_decide_eq_false_2 _ He). done. }
  unfold mbind, M_bind, mret, M_ret. destruct (AuditRepository_List f w) as [r w']; cbn in *.
  by rewrite Hl, Hsel.
Qed.
End log_facts.

Definition sample_event (n : nat) : AuditEvent :=
  mkAuditEvent ("audit-" +:+ pretty n)%string (Z.of_nat n) "alice" ActorTypeUser "job_retry" "job"
    "j-1" None EventCategoryCertLifecycle.
Definition sample_log (n : nat) : World (list AuditEvent) :=
  mkWorld (map sample_event (seq 1 n)) (mkEnv 0 [] [] 0%N).

Lemma audit_pages_complete_witness :
  ∃ pages sel,
    map (λ i, (AuditRepository_List (with_page (Z.of_nat i + 1)
                (mkAuditFilter "alice" "" "" "" "" None None 1 2)) (sample_log 3)).1) (seq 0 2) =
      map Ok pages ∧
    concat pages = take 4 sel ∧ StronglySorted newest_first sel ∧
    sel ≡ₚ map sample_event [1; 2; 3]%nat.
Proof.
  destruct (audit_pages_complete (mkAuditFilter "alice" "" "" "" "" None None 1 2) 2 (sample_log 3))
    as (pages & sel & H1 & H2 & H3 & H4); [reflexivity | cbn; lia | cbn; lia |].
  exists pages, sel. split_and!; [exact H1 | exact H2 | exact H3 |].
  transitivity (filter (λ e, audit_matches (mkAuditFilter "alice" "" "" "" "" None None 1 2) e = true)
                  (audit_log (w_db (sample_log 3)))); [exact H4|].
  assert (E : filter (λ e, audit_matches (mkAuditFilter "alice" "" "" "" "" None None 1 2) e = true)
                (audit_log (w_db (sample_log 3))) = map sample_event [1; 2; 3]%nat)
    by (vm_compute; reflexivity).
  rewrite E. reflexivity.
Defined.

Lemma audit_export_truncated_witness :
  ∃ l, (ExportEventsByFilter None None "" 0 (sample_log 51)).1 = Ok l ∧
    length l = 50%nat ∧ length (audit_log (w_db (sample_log 51))) = 51%nat.
Proof.
  eexists. split; [apply (audit_export_truncated None None "" 0 (sample_log 51));
                   [reflexivity | left; lia] |].
  split; vm_compute; reflexivity.
Defined.

Lemma get_audit_event_ignores_id_witness :
  ae_ID (sample_event 1) = "audit-1" ∧
  (GetAuditEvent "audit-1" (sample_log 1)).1 = Err (ErrMsg "audit event not found").
Proof.
  split; [reflexivity|].
  apply (get_audit_event_ignores_id "audit-1" (sample_log 1)); [reflexivity|discriminate|].
  repeat constructor. discriminate.
Defined.
