(* ===== verification/Store.v ===== *)
(** * The control-plane database (src/internal/domain/job.go, approval.go,
      certificate.go, connector.go, profile.go, team.go; src/migrations)

    The rows the job and approval services share.  String-typed Go enums
    ([domain.JobStatus], [domain.ApprovalState], ...) keep their string
    representation with the source's constants.  [Job], [ApprovalRequest] and
    [CertificateProfile] carry every field of their structs; the other rows carry
    the columns the modelled code reads or writes, but for updated_at, which nothing
    reads.  Times are nanoseconds. *)

From stdpp Require Import prelude gmap strings list sorting.
From Stdlib Require Import ZArith Lia.
From S2P Require Import Prelude AuditTrail.

(** ** domain/job.go *)
Definition JobTypeIssuance : string := "Issuance".
Definition JobTypeRenewal : string := "Renewal".
Definition JobTypeDeployment : string := "Deployment".
Definition JobTypeValidation : string := "Validation".

Definition JobStatusPending : string := "Pending".
Definition JobStatusAwaitingCSR : string := "AwaitingCSR".
Definition JobStatusAwaitingApproval : string := "AwaitingApproval".
Definition JobStatusRunning : string := "Running".
Definition JobStatusCompleted : string := "Completed".
Definition JobStatusFailed : string := "Failed".
Definition JobStatusCancelled : string := "Cancelled".

Record Job := mkJob {
  job_ID : string;
  job_Type : string;
  job_CertificateID : string;
  job_TargetID : option string;
  job_AgentID : option string;
  job_Status : string;
  job_Attempts : Z;
  job_MaxAttempts : Z;
  job_LastError : option string;
  job_ScheduledAt : Z;
  job_StartedAt : option Z;
  job_CompletedAt : option Z;
  job_CreatedAt : Z;
  job_VerificationStatus : string;
  job_VerifiedAt : option Z;
  job_VerificationError : option string;
  job_VerificationFp : option string
}.

#[global] Instance Job_eq_dec : EqDecision Job.
Proof. solve_decision. Defined.

(** [job.Status = s; job.LastError = e] on a copy of the row. *)
Definition job_with (s : string) (e : option string) (j : Job) : Job :=
  mkJob (job_ID j) (job_Type j) (job_CertificateID j) (job_TargetID j) (job_AgentID j) s
    (job_Attempts j) (job_MaxAttempts j) e (job_ScheduledAt j) (job_StartedAt j)
    (job_CompletedAt j) (job_CreatedAt j) (job_VerificationStatus j) (job_VerifiedAt j)
    (job_VerificationError j) (job_VerificationFp j).

Definition job_completed_at (t : Z) (j : Job) : Job :=
  mkJob (job_ID j) (job_Type j) (job_CertificateID j) (job_TargetID j) (job_AgentID j)
    (job_Status j) (job_Attempts j) (job_MaxAttempts j) (job_LastError j) (job_ScheduledAt j)
    (job_StartedAt j) (Some t) (job_CreatedAt j) (job_VerificationStatus j) (job_VerifiedAt j)
    (job_VerificationError j) (job_VerificationFp j).

(** [SET status = 'Running', attempts = attempts + 1, started_at = t]. *)
Definition job_start (t : Z) (j : Job) : Job :=
  mkJob (job_ID j) (job_Type j) (job_CertificateID j) (job_TargetID j) (job_AgentID j)
    JobStatusRunning (job_Attempts j + 1) (job_MaxAttempts j) (job_LastError j)
    (job_ScheduledAt j) (Some t) (job_CompletedAt j) (job_CreatedAt j)
    (job_VerificationStatus j) (job_VerifiedAt j) (job_VerificationError j) (job_VerificationFp j).

(** ** domain/approval.go *)
Definition ApprovalKindCertIssuance : string := "cert_issuance".
Definition ApprovalKindProfileEdit : string := "profile_edit".
Definition IsValidApprovalKind (k : string) : bool :=
  bool_decide (k ∈ [ApprovalKindCertIssuance; ApprovalKindProfileEdit]).

Definition ApprovalStatePending : string := "pending".
Definition ApprovalStateApproved : string := "approved".
Definition ApprovalStateRejected : string := "rejected".
Definition ApprovalStateExpired : string := "expired".
Definition IsValidApprovalState (s : string) : bool :=
  bool_decide (s ∈ [ApprovalStatePending; ApprovalStateApproved; ApprovalStateRejected;
                    ApprovalStateExpired]).
Definition IsTerminal (s : string) : bool :=
  bool_decide (s ∈ [ApprovalStateApproved; ApprovalStateRejected; ApprovalStateExpired]).

Definition ApprovalActorSystemBypass : string := "system-bypass".

(** ** domain/profile.go *)
Record CertificateProfile := mkProfile {
  pf_ID : string;
  pf_Name : string;
  pf_Description : string;
  pf_AllowedKeyAlgorithms : list (string * Z);
  pf_MaxTTLSeconds : Z;
  pf_AllowedEKUs : list string;
  pf_RequiredSANPatterns : list string;
  pf_SPIFFEURIPattern : string;
  pf_AllowShortLived : bool;
  pf_MustStaple : bool;
  pf_RequiredCSRAttributes : list string;
  pf_ACMEAuthMode : string;
  pf_RequiresApproval : bool;
  pf_Enabled : bool;
  pf_CreatedAt : Z;
  pf_UpdatedAt : Z
}.

#[global] Instance CertificateProfile_eq_dec : EqDecision CertificateProfile.
Proof. solve_decision. Defined.

(** [Payload] is JSON of a profile; the value it decodes to stands for it. *)
Record ApprovalRequest := mkApproval {
  ar_ID : string;
  ar_Kind : string;
  ar_CertificateID : string;
  ar_JobID : string;
  ar_ProfileID : string;
  ar_RequestedBy : string;
  ar_State : string;
  ar_DecidedBy : option string;
  ar_DecidedAt : option Z;
  ar_DecisionNote : option string;
  ar_Metadata : list (string * string);
  ar_Payload : option CertificateProfile;
  ar_CreatedAt : Z;
  ar_UpdatedAt : Z
}.

#[global] Instance ApprovalRequest_eq_dec : EqDecision ApprovalRequest.
Proof. solve_decision. Defined.

(** The SET list of [UpdateState] and [ExpireStale]. *)
Definition ar_decide (state by_ : string) (at_ : Z) (note : option string) (upd : Z)
    (r : ApprovalRequest) : ApprovalRequest :=
  mkApproval (ar_ID r) (ar_Kind r) (ar_CertificateID r) (ar_JobID r) (ar_ProfileID r)
    (ar_RequestedBy r) state (Some by_) (Some at_) note (ar_Metadata r) (ar_Payload r)
    (ar_CreatedAt r) upd.

(** ** domain/certificate.go, connector.go, team.go *)
Definition CertificateStatusActive : string := "Active".
Definition CertificateStatusExpiring : string := "Expiring".
Definition CertificateStatusFailed : string := "Failed".
Definition CertificateStatusRevoked : string := "Revoked".
Definition CertificateSourceACME : string := "ACME".
Definition CertificateStatusExpired : string := "Expired".
Definition CertificateStatusRenewalInProgress : string := "RenewalInProgress".
Definition CertificateStatusArchived : string := "Archived".

Record ManagedCertificate := mkCert {
  cert_ID : string;
  cert_Name : string;
  cert_CommonName : string;
  cert_SANs : list string;
  cert_OwnerID : string;
  cert_TeamID : string;
  cert_IssuerID : string;
  cert_RenewalPolicyID : string;
  cert_CertificateProfileID : string;
  cert_Status : string;
  cert_ExpiresAt : Z;
  cert_Source : string;
  cert_LastRenewalAt : option Z;
  cert_RevokedAt : option Z;
  cert_RevocationReason : string;
  cert_CreatedAt : Z
}.

Definition cert_with_status (s : string) (c : ManagedCertificate) : ManagedCertificate :=
  mkCert (cert_ID c) (cert_Name c) (cert_CommonName c) (cert_SANs c) (cert_OwnerID c)
    (cert_TeamID c) (cert_IssuerID c) (cert_RenewalPolicyID c) (cert_CertificateProfileID c) s
    (cert_ExpiresAt c) (cert_Source c) (cert_LastRenewalAt c) (cert_RevokedAt c) (cert_RevocationReason c)
    (cert_CreatedAt c).

Record Owner := mkOwner { owner_ID : string; owner_Name : string; owner_Email : string }.
Definition AgentStatusOnline : string := "Online".
Definition AgentStatusOffline : string := "Offline".

Record Agent := mkAgent {
  agent_ID : string;
  agent_Name : string;
  agent_Hostname : string;
  agent_Status : string;
  agent_LastHeartbeatAt : option Z;
  agent_RegisteredAt : Z;
  agent_APIKeyHash : string;
  agent_OS : string;
  agent_Architecture : string;
  agent_IPAddress : string;
  agent_Version : string;
  agent_RetiredAt : option Z;
  agent_RetiredReason : option string
}.

Record DeploymentTarget := mkTarget {
  target_ID : string;
  target_Name : string;
  target_AgentID : string;
  target_RetiredAt : option Z;
  target_RetiredReason : option string;
  target_CreatedAt : Z
}.

(** ** The tables *)
Record DB := mkDB {
  db_jobs : gmap string Job;
  db_approvals : gmap string ApprovalRequest;
  db_certs : gmap string ManagedCertificate;
  db_owners : gmap string Owner;
  db_agents : gmap string Agent;
  db_targets : gmap string DeploymentTarget;
  db_mappings : list (string * string);
  db_profiles : gmap string CertificateProfile;
  db_audit : list AuditEvent
}.

Definition set_jobs (f : gmap string Job → gmap string Job) (d : DB) : DB :=
  mkDB (f (db_jobs d)) (db_approvals d) (db_certs d) (db_owners d) (db_agents d) (db_targets d)
    (db_mappings d) (db_profiles d) (db_audit d).
Definition set_approvals (f : gmap string ApprovalRequest → gmap string ApprovalRequest)
    (d : DB) : DB :=
  mkDB (db_jobs d) (f (db_approvals d)) (db_certs d) (db_owners d) (db_agents d) (db_targets d)
    (db_mappings d) (db_profiles d) (db_audit d).
Definition set_certs (f : gmap string ManagedCertificate → gmap string ManagedCertificate)
    (d : DB) : DB :=
  mkDB (db_jobs d) (db_approvals d) (f (db_certs d)) (db_owners d) (db_agents d) (db_targets d)
    (db_mappings d) (db_profiles d) (db_audit d).
Definition set_agents (f : gmap string Agent → gmap string Agent) (d : DB) : DB :=
  mkDB (db_jobs d) (db_approvals d) (db_certs d) (db_owners d) (f (db_agents d)) (db_targets d)
    (db_mappings d) (db_profiles d) (db_audit d).
Definition set_targets (f : gmap string DeploymentTarget → gmap string DeploymentTarget) (d : DB) : DB :=
  mkDB (db_jobs d) (db_approvals d) (db_certs d) (db_owners d) (db_agents d) (f (db_targets d))
    (db_mappings d) (db_profiles d) (db_audit d).
Definition set_profiles (f : gmap string CertificateProfile → gmap string CertificateProfile)
    (d : DB) : DB :=
  mkDB (db_jobs d) (db_approvals d) (db_certs d) (db_owners d) (db_agents d) (db_targets d)
    (db_mappings d) (f (db_profiles d)) (db_audit d).
Definition set_audit (f : list AuditEvent → list AuditEvent) (d : DB) : DB :=
  mkDB (db_jobs d) (db_approvals d) (db_certs d) (db_owners d) (db_agents d) (db_targets d)
    (db_mappings d) (db_profiles d) (f (db_audit d)).

#[global, program] Instance HasAudit_DB : HasAudit DB :=
  {| audit_log := db_audit; append_audit := λ ev, set_audit (λ l, l ++ [ev]) |}.
Next Obligation. done. Qed.

Definition empty_DB : DB := mkDB ∅ ∅ ∅ ∅ ∅ ∅ [] ∅ [].

(** ** Sentinels and SQL helpers *)
Definition sql_ErrNoRows : error := ErrSentinel "sql: no rows in result set".
Definition repo_ErrNotFound : error := ErrSentinel "repository: row not found".
Definition repo_ErrAlreadyExists : error := ErrSentinel "repository: row already exists".

(** All rows of a table, in an unspecified order. *)
Definition rows {A} (m : gmap string A) : list A := (map_to_list m).*2.

Lemma elem_of_rows {A} (m : gmap string A) x : x ∈ rows m ↔ ∃ k, m !! k = Some x.
Proof.
  unfold rows. rewrite list_elem_of_fmap. split.
  - intros ([k y] & -> & H%elem_of_map_to_list). by exists k.
  - intros (k & H). exists (k, x). by rewrite elem_of_map_to_list.
Qed.

(** [ORDER BY f ASC] / [DESC]; rows with equal keys come in some order. *)
Definition asc {A} (f : A → Z) (a b : A) : Prop := f a ≤ f b.
Definition desc {A} (f : A → Z) (a b : A) : Prop := f b ≤ f a.

Section order_by.
Context {A : Type} (f : A → Z).
#[global] Instance asc_dec : RelDecision (asc f).
Proof. intros a b. unfold asc. apply _. Defined.
#[global] Instance desc_dec : RelDecision (desc f).
Proof. intros a b. unfold desc. apply _. Defined.
#[global] Instance asc_total : Total (asc f).
Proof. intros a b. unfold asc. lia. Qed.
#[global] Instance desc_total : Total (desc f).
Proof. intros a b. unfold desc. lia. Qed.
#[global] Instance asc_trans : Transitive (asc f).
Proof. intros a b c. unfold asc. lia. Qed.
#[global] Instance desc_trans : Transitive (desc f).
Proof. intros a b c. unfold desc. lia. Qed.
End order_by.

(** A statement inside a transaction: when it fails the transaction is rolled
    back by the deferred [tx.Rollback()]. *)
Definition tx_stmt {D} (op : string) : M D (res unit) :=
  flt ← next_fault;
  mret match flt with FOk => Ok tt | _ => Err (ErrMsg op) end.

Lemma pres_tx_stmt {D} (R : relation D) `{!PreOrder R} op : pres R (tx_stmt op).
Proof. unfold tx_stmt. pres_step; [apply (pres_next_fault R)|pres_step]. Qed.
#[export] Hint Resolve pres_tx_stmt : certctl.

(** ** Keys

    Every row is stored under its own id. *)
Definition keyed (d : DB) : Prop :=
  map_Forall (λ k j, job_ID j = k) (db_jobs d) ∧
  map_Forall (λ k r, ar_ID r = k) (db_approvals d).

(** ** Repositories of the tables read by the services *)

(** certificate.go, owner.go, agent.go, target.go [Get]. *)
Definition CertificateRepository_Get (id : string) : M DB (res ManagedCertificate) :=
  r ← sql_query "failed to query certificate" (λ d, db_certs d !! id);
  mret match r with
       | Err e => Err e
       | Ok None => Err (ErrWrap "certificate not found" repo_ErrNotFound)
       | Ok (Some c) => Ok c
       end.

(** The UPDATE sets every column but renewal_policy_id and created_at. *)
Definition cert_set_row (old c : ManagedCertificate) : ManagedCertificate :=
  mkCert (cert_ID c) (cert_Name c) (cert_CommonName c) (cert_SANs c) (cert_OwnerID c)
    (cert_TeamID c) (cert_IssuerID c) (cert_RenewalPolicyID old) (cert_CertificateProfileID c)
    (cert_Status c) (cert_ExpiresAt c) (cert_Source c) (cert_LastRenewalAt c) (cert_RevokedAt c)
    (cert_RevocationReason c) (cert_CreatedAt old).

Definition CertificateRepository_Update (c : ManagedCertificate) : M DB (res unit) :=
  sql_exec "failed to update certificate" (λ d,
    match db_certs d !! cert_ID c with
    | None => (Err (ErrWrap "certificate not found" repo_ErrNotFound), d)
    | Some old => (Ok tt, set_certs (<[cert_ID c := cert_set_row old c]>) d)
    end).

Definition OwnerRepository_Get (id : string) : M DB (res Owner) :=
  r ← sql_query "failed to query owner" (λ d, db_owners d !! id);
  mret match r with
       | Err e => Err e
       | Ok None => Err (ErrWrap "owner not found" repo_ErrNotFound)
       | Ok (Some o) => Ok o
       end.

Definition AgentRepository_Get (id : string) : M DB (res Agent) :=
  r ← sql_query "failed to query agent" (λ d, db_agents d !! id);
  mret match r with
       | Err e => Err e
       | Ok None => Err (ErrWrap "agent not found" repo_ErrNotFound)
       | Ok (Some a) => Ok a
       end.

Section pres_store.
Context (R : relation DB) `{!PreOrder R}.
Lemma pres_CertificateRepository_Get id : pres R (CertificateRepository_Get id).
Proof. unfold CertificateRepository_Get. solve_pres. Qed.
Lemma pres_OwnerRepository_Get id : pres R (OwnerRepository_Get id).
Proof. unfold OwnerRepository_Get. solve_pres. Qed.
Lemma pres_AgentRepository_Get id : pres R (AgentRepository_Get id).
Proof. unfold AgentRepository_Get. solve_pres. Qed.
End pres_store.
#[export] Hint Resolve pres_CertificateRepository_Get pres_OwnerRepository_Get
  pres_AgentRepository_Get : certctl.
