(* ===== verification/Transactions.v ===== *)
(** * Transactions (src/internal/repository/postgres/tx.go)

    [WithinTx] runs a function against a tentative copy of the database: statements issued
    through the transaction see and change the copy, statements issued on the connection pool
    ([on_pool]) see what is committed.  The copy is installed when the function returns no
    error and the commit goes through.  The judgement [hoare] speaks about the database before
    and after an operation, for every clock and every placement of failures. *)

From stdpp Require Import prelude gmap strings list sorting.
From Stdlib Require Import ZArith Lia.
From S2P Require Import Prelude AuditTrail Store.

Record Txn (D : Type) := mkTxn { tx_committed : D; tx_view : D }.
Arguments mkTxn {D}.
Arguments tx_committed {D}.
Arguments tx_view {D}.

Definition tx_put {D} (v : D) (t : Txn D) : Txn D := mkTxn (tx_committed t) v.

(** A statement of the transaction, and a query. *)
Definition tx_exec {D A} (op : string) (f : D → res A * D) : M (Txn D) (res A) :=
  sql_exec op (λ t, ((f (tx_view t)).1, tx_put (f (tx_view t)).2 t)).
Definition tx_query {D A} (op : string) (f : D → A) : M (Txn D) (res A) :=
  sql_query op (λ t, f (tx_view t)).

(** Code that uses the pool while a transaction is open. *)
Definition on_pool {D A} (m : M D A) : M (Txn D) A := λ w,
  let '(a, w') := m (mkWorld (tx_committed (w_db w)) (w_env w)) in
  (a, mkWorld (mkTxn (w_db w') (tx_view (w_db w))) (w_env w')).

#[global, program] Instance HasAudit_Txn {D} `{HasAudit D} : HasAudit (Txn D) :=
  {| audit_log := λ t, audit_log (tx_view t);
     append_audit := λ ev t, tx_put (append_audit ev (tx_view t)) t |}.
Next Obligation. intros D H ev t. apply audit_log_append. Qed.

(** Run [fn] on a copy; the result comes with the copy. *)
Definition run_tx {D A} (fn : M (Txn D) (res A)) : M D (res A * D) := λ w,
  let '(r, w') := fn (mkWorld (mkTxn (w_db w) (w_db w)) (w_env w)) in
  ((r, tx_view (w_db w')), mkWorld (tx_committed (w_db w')) (w_env w')).

(** The value of [fn] stands for what the closure assigns in its scope. *)
Definition WithinTx {D A} (fn : M (Txn D) (res A)) : M D (res A) :=
  b ← tx_stmt "connection lost";
  match b with
  | Err e => mret (Err (ErrWrap "begin tx" e))
  | Ok _ =>
      '(r, view) ← run_tx fn;
      match r with
      | Err e => mret (Err e)
      | Ok a => sql_exec "commit tx" (λ _, (Ok a, view))
      end
  end.

(** ** A logic of databases *)
Definition hoare {D A} (P : D → Prop) (m : M D A) (Q : A → D → Prop) : Prop :=
  ∀ w, P (w_db w) → Q (fst (m w)) (w_db (snd (m w))).

Section hoare.
Context {D : Type}.
Implicit Types P : D → Prop.

Lemma hoare_ret {A} P (a : A) (Q : A → D → Prop) : (∀ d, P d → Q a d) → hoare P (mret a) Q.
Proof. intros H w. apply H. Qed.

Lemma hoare_bind {A B} P (m : M D A) (f : A → M D B) (Q : A → D → Prop) (T : B → D → Prop) :
  hoare P m Q → (∀ a, hoare (Q a) (f a) T) → hoare P (m ≫= f) T.
Proof.
  intros Hm Hf w HP. unfold mbind, M_bind. specialize (Hm w HP). destruct (m w) as [a w'].
  by apply Hf.
Qed.

Lemma hoare_conseq {A} P P' (m : M D A) (Q Q' : A → D → Prop) :
  hoare P' m Q' → (∀ d, P d → P' d) → (∀ a d, Q' a d → Q a d) → hoare P m Q.
Proof. intros H HP HQ w Hw. apply HQ, H, HP, Hw. Qed.

Lemma hoare_post {A} P (m : M D A) (Q Q' : A → D → Prop) :
  hoare P m Q' → (∀ a d, Q' a d → Q a d) → hoare P m Q.
Proof. intros H HQ. by eapply hoare_conseq. Qed.

(** Operations that leave the database alone. *)
Lemma hoare_free {A} P (m : M D A) (Q : A → D → Prop) :
  (∀ w, w_db (snd (m w)) = w_db w) → (∀ d a, P d → Q a d) → hoare P m Q.
Proof. intros Hm HQ w HP. rewrite Hm. by apply HQ. Qed.

Lemma hoare_now P (Q : Z → D → Prop) : (∀ d t, P d → Q t d) → hoare P now Q.
Proof. apply hoare_free. intros w. unfold now. by destruct (env_ticks _). Qed.

Lemma hoare_fresh P (Q : N → D → Prop) : (∀ d n, P d → Q n d) → hoare P fresh Q.
Proof. by apply hoare_free. Qed.

Lemma hoare_tx_stmt P op (Q : res unit → D → Prop) : (∀ d r, P d → Q r d) → hoare P (tx_stmt op) Q.
Proof.
  apply hoare_free. intros w. unfold tx_stmt, next_fault, mbind, M_bind.
  by destruct (env_faults (w_env w)) as [|[| |]].
Qed.

Lemma hoare_query {A} P op (f : D → A) (Q : res A → D → Prop) :
  (∀ d, P d → Q (Ok (f d)) d) → (∀ d, P d → Q (Err (ErrMsg op)) d) → hoare P (sql_query op f) Q.
Proof.
  intros H1 H2 w HP. unfold sql_query, next_fault, mbind, M_bind, get_db, mret, M_ret.
  destruct (env_faults (w_env w)) as [|[| |]]; cbn; auto.
Qed.

Lemma hoare_exec {A} P op (f : D → res A * D) (Q : res A → D → Prop) :
  (∀ d, P d → Q (f d).1 (f d).2) → (∀ d, P d → Q (Err (ErrMsg op)) d) →
  (∀ d, P d → Q (Err (ErrMsg op)) (f d).2) → hoare P (sql_exec op f) Q.
Proof.
  intros H1 H2 H3 w HP. unfold sql_exec, next_fault, mbind, M_bind, get_db, put_db, mret, M_ret.
  specialize (H1 _ HP). specialize (H3 _ HP).
  destruct (env_faults (w_env w)) as [|[| |]]; cbn; destruct (f (w_db w)); cbn in *; auto.
Qed.

Lemma hoare_case {A B} P (x : res A) (f : error → M D B) (g : A → M D B) (Q : B → D → Prop) :
  (∀ e, x = Err e → hoare P (f e) Q) → (∀ a, x = Ok a → hoare P (g a) Q) →
  hoare P (match x with Err e => f e | Ok a => g a end) Q.
Proof. destruct x; auto. Qed.

(** From the invariance judgement of the prelude. *)
Lemma hoare_pres {A} (R : relation D) (m : M D A) d0 :
  pres R m → hoare (λ d, d = d0) m (λ _ d, R d0 d).
Proof. intros H w Hw. rewrite <-Hw. apply H. Qed.

(** A transaction commits what its body built, or nothing. *)
Lemma hoare_WithinTx {A} P (fn : M (Txn D) (res A)) (Q : res A → D → Prop) :
  (∀ d, P d → hoare (λ t, t = mkTxn d d) fn (λ r t, tx_committed t = d ∧
     (∀ a, r = Ok a → Q (Ok a) (tx_view t) ∧ ∀ e, Q (Err e) (tx_view t)))) →
  (∀ d e, P d → Q (Err e) d) →
  hoare P (WithinTx fn) Q.
Proof.
  intros Hfn HE. unfold WithinTx. apply hoare_bind with (λ _, P); [by apply hoare_tx_stmt|].
  intros [[]|e]; [|apply hoare_ret; auto].
  apply hoare_bind with (λ rv d, P d ∧
    (∀ a, rv.1 = Ok a → Q (Ok a) rv.2 ∧ ∀ e, Q (Err e) rv.2)).
  - intros w HP. unfold run_tx.
    specialize (Hfn _ HP (mkWorld (mkTxn (w_db w) (w_db w)) (w_env w)) eq_refl).
    destruct (fn _) as [r w']. cbn in *. destruct Hfn as [-> H]. done.
  - intros [[a|e] v]; cbn.
    + apply hoare_exec; cbn; intros d [HP H]; destruct (H a eq_refl); auto.
    + apply hoare_ret. intros d [HP _]. auto.
Qed.
End hoare.

(** Statements of a transaction. *)
Section tx_hoare.
Context {D : Type}.
Implicit Types P : Txn D → Prop.

Lemma hoare_tx_exec {A} P op (f : D → res A * D) (Q : res A → Txn D → Prop) :
  (∀ t, P t → Q (f (tx_view t)).1 (tx_put (f (tx_view t)).2 t)) →
  (∀ t, P t → Q (Err (ErrMsg op)) t) →
  (∀ t, P t → Q (Err (ErrMsg op)) (tx_put (f (tx_view t)).2 t)) →
  hoare P (tx_exec op f) Q.
Proof. intros H1 H2 H3. by apply hoare_exec. Qed.

Lemma hoare_on_pool {A} P (m : M D A) (Q : A → Txn D → Prop) :
  (∀ v, hoare (λ d, P (mkTxn d v)) m (λ a d, Q a (mkTxn d v))) → hoare P (on_pool m) Q.
Proof.
  intros H w HP. unfold on_pool. destruct (w_db w) as [d v] eqn:Ew. cbn.
  specialize (H v (mkWorld d (w_env w)) HP). destruct (m _) as [a w']. done.
Qed.
End tx_hoare.

(** ** Two-state invariants of transactions *)
Definition in_tx {D} (R : relation D) : relation (Txn D) :=
  λ t t', tx_committed t' = tx_committed t ∧ R (tx_view t) (tx_view t').

#[global] Instance in_tx_preorder {D} (R : relation D) `{!PreOrder R} : PreOrder (in_tx R).
Proof.
  split; [by intros t|]. intros t1 t2 t3 [H1 H2] [H3 H4]. split; [congruence|by etransitivity].
Qed.

Section pres_tx.
Context {D : Type} (R : relation D) `{!PreOrder R}.

Lemma pres_tx_exec {A} op (f : D → res A * D) :
  (∀ d, R d (f d).2) → pres (in_tx R) (tx_exec op f).
Proof. intros H. apply pres_exec; [apply _|]. intros t. split; [done|apply H]. Qed.

Lemma pres_on_pool {A} (m : M D A) : pres eq m → pres (in_tx R) (on_pool m).
Proof.
  intros H w. unfold on_pool. specialize (H (mkWorld (tx_committed (w_db w)) (w_env w))).
  destruct (m _) as [a w']. cbn in *. split; cbn; [by rewrite <-H|done].
Qed.

Lemma pres_WithinTx {A} (fn : M (Txn D) (res A)) : pres (in_tx R) fn → pres R (WithinTx fn).
Proof.
  intros H w. assert (hoare (λ d, d = w_db w) (WithinTx fn) (λ _ d, R (w_db w) d)) as Hh; [|by apply Hh].
  apply hoare_WithinTx.
  - intros d ->. eapply hoare_post; [by apply (hoare_pres (in_tx R))|]. intros r t [H1 H2]. done.
  - by intros d e ->.
Qed.
End pres_tx.

(** ** Audit rows *)
Definition event_of (actor actorType action resourceType resourceID : string) (ev : AuditEvent) : Prop :=
  ae_Actor ev = actor ∧ ae_ActorType ev = actorType ∧ ae_Action ev = action ∧
  ae_ResourceType ev = resourceType ∧ ae_ResourceID ev = resourceID.

Lemma hoare_generateID {D} (P : D → Prop) prefix (Q : string → D → Prop) :
  (∀ d id, P d → Q id d) → hoare P (generateID prefix) Q.
Proof.
  apply hoare_free. intros w. unfold generateID, fresh, now, mbind, M_bind. cbn.
  by destruct (env_ticks (w_env w)).
Qed.

(** A write appends one row of the event, or nothing; no error means it is there. *)
Lemma hoare_RecordEvent {D} `{HasAudit D} ToLower actor actorType action resourceType resourceID det d0 :
  hoare (λ d, d = d0) (RecordEvent ToLower actor actorType action resourceType resourceID det)
    (λ r d, let appended := ∃ ev, event_of actor actorType action resourceType resourceID ev ∧
                                  d = append_audit ev d0 in
            (d = d0 ∨ appended) ∧ (r = Ok tt → appended)).
Proof.
  unfold RecordEvent, RecordEventWithCategory.
  apply hoare_bind with (λ _ d, d = d0); [by apply hoare_generateID|]. intros id. apply hoare_bind with (λ _ d, d = d0); [by apply hoare_now|]. intros t.
  set (appended := λ d, ∃ ev, event_of actor actorType action resourceType resourceID ev ∧
                               d = append_audit ev d0).
  apply hoare_bind with (λ (r : res unit) d, (d = d0 ∨ appended d) ∧ (r = Ok tt → appended d)).
  - unfold AuditRepository_Create. destruct (bool_decide _) eqn:Ec; cbn.
    all: apply hoare_exec; cbn; intros d ->; repeat case_match; cbn; split; eauto; try done.
    all: try (intros _); try right; eexists; split; [|reflexivity]; done.
  - intros [[]|e]; apply hoare_ret; intros d [H1 H2]; split; auto; done.
Qed.

(** Walk an operation whose precondition is kept by every step. *)
Ltac hkeep :=
  lazymatch goal with
  | |- hoare ?P (mbind _ _) _ => apply hoare_bind with (λ _, P); [|intros ?]
  | |- hoare _ (mret _) _ => apply hoare_ret; try (by intros)
  | |- hoare _ now _ => apply hoare_now; try (by intros)
  | |- hoare _ fresh _ => apply hoare_fresh; try (by intros)
  | |- hoare _ (generateID _) _ => apply hoare_generateID; try (by intros)
  | |- hoare _ (sql_query _ _) _ => apply hoare_query; try (by intros)
  | |- hoare _ (let x := _ in _) _ => cbv zeta
  | |- hoare _ (match ?x with _ => _ end) _ => destruct x eqn:?
  end.

(** Writing to the audit log keeps what does not look at it. *)
Lemma hoare_audit_keeps {D} `{HasAudit D} (P : D → Prop) TL a at_ act rt ri det :
  (∀ d ev, P d → P (append_audit ev d)) →
  hoare P (RecordEvent TL a at_ act rt ri det) (λ _, P).
Proof.
  intros HP w Hw. destruct (hoare_RecordEvent TL a at_ act rt ri det (w_db w) w eq_refl) as [[->|(ev & _ & ->)] _];
    auto.
Qed.

(** ** No failure out of nowhere *)
Definition quiet {D} (w w' : World D) : Prop := env_faults (w_env w) = [] → env_faults (w_env w') = [].

#[global] Instance quiet_preorder {D} : PreOrder (@quiet D).
Proof. split; [by intros w|]. intros w1 w2 w3 H1 H2 H3. by apply H2, H1. Qed.
#[global] Instance quiet_steady {D} : Steady (@quiet D).
Proof. intros w w' _ (_ & _ & H). exact H. Qed.

Section quiet.
Context {D : Type}.

Lemma quiet_exec {A} op (f : D → res A * D) : wpres quiet (sql_exec op f).
Proof. refine (wpres_exec quiet _ _ _). intros d e H. exact H. Qed.

Lemma quiet_for_each {A} (l : list A) (body : A → M D unit) :
  (∀ x, wpres quiet (body x)) → wpres quiet (for_each l body).
Proof. intros H. induction l; cbn; repeat first [wstep | done | apply H]. Qed.

Lemma quiet_tx_stmt op : wpres (@quiet D) (tx_stmt op).
Proof.
  intros w. unfold quiet, tx_stmt, next_fault, mbind, M_bind. intros H. by rewrite H.
Qed.

Lemma quiet_run_tx {A} (fn : M (Txn D) (res A)) : wpres quiet fn → wpres (@quiet D) (run_tx fn).
Proof.
  intros H w Hw. unfold run_tx. specialize (H (mkWorld (mkTxn (w_db w) (w_db w)) (w_env w)) Hw).
  by destruct (fn _).
Qed.

Lemma quiet_WithinTx {A} (fn : M (Txn D) (res A)) : wpres quiet fn → wpres (@quiet D) (WithinTx fn).
Proof.
  intros H. unfold WithinTx. wstep; [apply quiet_tx_stmt|]. destruct a; [|apply wpres_ret, _].
  wstep; [by apply quiet_run_tx|]. destruct a0 as [[]]; [apply quiet_exec|apply wpres_ret, _].
Qed.

Lemma quiet_on_pool {A} (m : M D A) : wpres quiet m → wpres quiet (on_pool m).
Proof.
  intros H w Hw. unfold on_pool. specialize (H (mkWorld (tx_committed (w_db w)) (w_env w)) Hw).
  by destruct (m _).
Qed.

Lemma quiet_RecordEvent `{HasAudit D} TL a at_ act rt ri det :
  wpres (@quiet D) (RecordEvent TL a at_ act rt ri det).
Proof.
  unfold RecordEvent, RecordEventWithCategory, AuditRepository_Create, generateID.
  repeat first [simple apply quiet_exec | wstep].
Qed.
End quiet.
#[export] Hint Resolve quiet_exec quiet_for_each quiet_tx_stmt quiet_WithinTx quiet_on_pool
  quiet_RecordEvent : certctl.
