(* ===== verification/EnvLogic.v ===== *)
(** * Reasoning about the environment of an operation

    [elapsed] relates worlds between which only time has passed.  The judgement [ehoare] adds to
    [hoare] what is known of the environment: that no statement fails, or that the clock has
    passed a point. *)

From Stdlib Require Import ZArith Lia.
From stdpp Require Import prelude gmap strings list.
From S2P Require Import Prelude AuditTrail Store Transactions.

(** ** Time passes *)
Definition elapsed {D} (w w' : World D) : Prop := env_le (w_env w) (w_env w').

#[global] Instance elapsed_preorder {D} : PreOrder (@elapsed D).
Proof. split; [intros w; apply env_le_preorder|]. intros w1 w2 w3 H1 H2. unfold elapsed in *. by etransitivity. Qed.
#[global] Instance elapsed_steady {D} : Steady (@elapsed D).
Proof. by intros w w' _ H. Qed.

Lemma elapsed_exec {D A} op (f : D → res A * D) : wpres elapsed (sql_exec op f).
Proof. refine (wpres_exec elapsed _ _ _). intros d e. unfold elapsed. reflexivity. Qed.

Lemma elapsed_for_each {D A} (l : list A) (body : A → M D unit) :
  (∀ x, wpres elapsed (body x)) → wpres elapsed (for_each l body).
Proof. intros H. induction l; cbn; repeat first [wstep | done | apply H]. Qed.

Lemma elapsed_RecordEvent {D} `{HasAudit D} TL a at_ act rt ri det :
  wpres (@elapsed D) (RecordEvent TL a at_ act rt ri det).
Proof.
  unfold RecordEvent, RecordEventWithCategory, AuditRepository_Create, generateID.
  repeat first [simple apply elapsed_exec | wstep].
Qed.

Lemma hoare_given {D A} P (φ : Prop) (m : M D A) Q : (φ → hoare P m Q) → hoare (λ d, P d ∧ φ) m Q.
Proof. intros H w [HP Hφ]. by apply H. Qed.

(** ** Triples that know the environment *)
Definition ehoare {D A} (E : Env → Prop) (P : D → Prop) (m : M D A) (Q : A → D → Prop) : Prop :=
  ∀ w, E (w_env w) → P (w_db w) → E (w_env (snd (m w))) ∧ Q (fst (m w)) (w_db (snd (m w))).

Class EnvStable (E : Env → Prop) : Prop := env_stable e e' : env_le e e' → E e → E e'.

Definition no_faults (e : Env) : Prop := env_faults e = [].
Definition after (c : Z) (e : Env) : Prop := c ≤ env_clock e.
#[global] Instance no_faults_stable : EnvStable no_faults.
Proof. intros e e' (_ & _ & H). exact H. Qed.
#[global] Instance after_stable c : EnvStable (after c).
Proof. intros e e' (H & _). unfold after. lia. Qed.

Section ehoare.
Context {D : Type} (E : Env → Prop) `{!EnvStable E}.
Implicit Types P : D → Prop.

Lemma ehoare_of {A} P (m : M D A) Q : hoare P m Q → wpres elapsed m → ehoare E P m Q.
Proof. intros H Hm w HE HP. split; [|by apply H]. eapply env_stable; [apply Hm|done]. Qed.

Lemma ehoare_ret {A} P (a : A) (Q : A → D → Prop) : (∀ d, P d → Q a d) → ehoare E P (mret a) Q.
Proof. intros H w HE HP. split; [done|by apply H]. Qed.

Lemma ehoare_bind {A B} P (m : M D A) (f : A → M D B) Q T :
  ehoare E P m Q → (∀ a, ehoare E (Q a) (f a) T) → ehoare E P (m ≫= f) T.
Proof.
  intros Hm Hf w HE HP. unfold mbind, M_bind. specialize (Hm w HE HP). destruct (m w) as [a w']. cbn in Hm.
  by apply Hf; destruct Hm.
Qed.

Lemma ehoare_conseq {A} P P' (m : M D A) Q Q' :
  ehoare E P' m Q' → (∀ d, P d → P' d) → (∀ a d, Q' a d → Q a d) → ehoare E P m Q.
Proof. intros H HP HQ w HE Hw. destruct (H w HE (HP _ Hw)). split; auto. Qed.

Lemma ehoare_pre {A} P' P (m : M D A) Q : (∀ d, P d → P' d) → ehoare E P' m Q → ehoare E P m Q.
Proof. intros HP H. by eapply ehoare_conseq. Qed.

Lemma ehoare_pure {A} P (φ : Prop) (m : M D A) Q : (φ → ehoare E P m Q) → ehoare E (λ d, P d ∧ φ) m Q.
Proof. intros H w HE [HP Hφ]. by apply H. Qed.
End ehoare.

Lemma ehoare_now {D} c (P : D → Prop) : ehoare (after c) P now (λ t d, P d ∧ c ≤ t).
Proof.
  intros w HE HP. destruct (now_clock w) as (H1 & H2 & H3 & _). unfold after in *. rewrite H1, H2. unfold clock in *.
  split; [lia|split; [done|lia]].
Qed.

(** With no failing statement a query answers. *)
Lemma ehoare_query {D A} (P : D → Prop) op (f : D → A) :
  ehoare no_faults P (sql_query op f) (λ r d, P d ∧ r = Ok (f d)).
Proof. intros w HE HP. unfold no_faults in HE. rewrite query_run by done. by split. Qed.

(** And a statement takes effect. *)
Lemma ehoare_exec {D A} (P : D → Prop) op (f : D → res A * D) (Q : res A → D → Prop) :
  (∀ d, P d → Q (f d).1 (f d).2) → ehoare no_faults P (sql_exec op f) Q.
Proof. intros H w HE HP. unfold no_faults in HE. rewrite exec_run by done. split; [done|by apply H]. Qed.

Lemma ehoare_free {D A} E `{!EnvStable E} (P : D → Prop) (m : M D A) :
  (∀ w, w_db (snd (m w)) = w_db w) → wpres elapsed m → ehoare E P m (λ _, P).
Proof. intros Hm Ht. apply ehoare_of; [done| |done]. by apply hoare_free. Qed.

Lemma ehoare_time {D} E `{!EnvStable E} (P : D → Prop) : ehoare E P now (λ _, P).
Proof. apply ehoare_free; [done| |apply wpres_now, _]. intros w. apply now_clock. Qed.
