(* ===== verification/Jobs.v ===== *)
(** * Jobs (src/internal/repository/postgres/job.go, src/internal/service/job.go,
      agent.go, verification.go)

    [Module JobRepo] is the SQL repository, [Module JobService] the service, the
    scheduler's retry and reaper sweeps and the agent's side of a job, [Module
    Verification] the verification service.  The concurrent claims of several
    scheduler replicas and the semaphore-bounded dispatch are step relations, in
    JobConcurrency.v. *)

From stdpp Require Import prelude gmap strings list sorting pretty.
From Stdlib Require Import ZArith Lia.
From S2P Require Import Prelude AuditTrail Store.

(** ** postgres/job.go *)
Module JobRepo.

(** [scanJob]: the SELECT lists have no verification column, so those fields
    of the returned struct keep their zero values. *)
Definition scanJob (row : Job) : Job :=
  mkJob (job_ID row) (job_Type row) (job_CertificateID row) (job_TargetID row) (job_AgentID row)
    (job_Status row) (job_Attempts row) (job_MaxAttempts row) (job_LastError row)
    (job_ScheduledAt row) (job_StartedAt row) (job_CompletedAt row) (job_CreatedAt row)
    "" None None None.

(** [SELECT ... FROM jobs WHERE p ORDER BY ord]. *)
Definition select_jobs (p : Job → bool) (ord : Job → Job → Prop)
    `{!RelDecision ord} (jobs : gmap string Job) : list Job :=
  map scanJob (merge_sort ord (filter (λ j, p j = true) (rows jobs))).

Definition JobRepository_List : M DB (res (list Job)) :=
  sql_query "failed to query jobs" (λ d, select_jobs (λ _, true) (desc job_CreatedAt) (db_jobs d)).

(** The comparison with [sql.ErrNoRows] is by identity, on the error [scanJob]
    returns. *)
Definition JobRepository_Get (id : string) : M DB (res Job) :=
  r ← sql_query "failed to query job" (λ d, db_jobs d !! id);
  mret match r with
       | Err e => Err e
       | Ok (Some row) => Ok (scanJob row)
       | Ok None =>
           let err := ErrWrap "failed to scan job" sql_ErrNoRows in
           if bool_decide (err = sql_ErrNoRows)
           then Err (ErrWrap "job not found" repo_ErrNotFound)
           else Err (ErrWrap "failed to query job" err)
       end.

(** The foreign keys of the jobs table. *)
Definition job_fk_ok (d : DB) (j : Job) : bool :=
  bool_decide (is_Some (db_certs d !! job_CertificateID j)) &&
  match job_TargetID j with None => true | Some t => bool_decide (is_Some (db_targets d !! t)) end &&
  match job_AgentID j with None => true | Some a => bool_decide (is_Some (db_agents d !! a)) end.

(** The row the INSERT stores: its verification columns take their defaults. *)
Definition inserted (j : Job) : Job :=
  mkJob (job_ID j) (job_Type j) (job_CertificateID j) (job_TargetID j) (job_AgentID j)
    (job_Status j) (job_Attempts j) (job_MaxAttempts j) (job_LastError j)
    (job_ScheduledAt j) (job_StartedAt j) (job_CompletedAt j) (job_CreatedAt j)
    "pending" None None None.

(** [Create] on a job whose ID the caller has set, as every caller does. *)
Definition JobRepository_Create (j : Job) : M DB (res unit) :=
  sql_exec "failed to create job" (λ d,
    match db_jobs d !! job_ID j with
    | Some _ => (Err (ErrWrap "failed to create job" (ErrMsg "duplicate key")), d)
    | None =>
        if job_fk_ok d j then (Ok tt, set_jobs (<[job_ID j := inserted j]>) d)
        else (Err (ErrWrap "failed to create job" (ErrMsg "foreign key")), d)
    end).

(** The row after [Update]'s SET list: created_at and the verification
    columns keep what the row had. *)
Definition updated (j row : Job) : Job :=
  mkJob (job_ID row) (job_Type j) (job_CertificateID j) (job_TargetID j) (job_AgentID j)
    (job_Status j) (job_Attempts j) (job_MaxAttempts j) (job_LastError j)
    (job_ScheduledAt j) (job_StartedAt j) (job_CompletedAt j) (job_CreatedAt row)
    (job_VerificationStatus row) (job_VerifiedAt row) (job_VerificationError row)
    (job_VerificationFp row).

Definition JobRepository_Update (j : Job) : M DB (res unit) :=
  sql_exec "failed to update job" (λ d,
    match db_jobs d !! job_ID j with
    | None => (Err (ErrWrap "job not found" repo_ErrNotFound), d)
    | Some row =>
        if job_fk_ok d j then (Ok tt, set_jobs (<[job_ID j := updated j row]>) d)
        else (Err (ErrWrap "failed to update job" (ErrMsg "foreign key")), d)
    end).

(** approval requests reference jobs ON DELETE CASCADE. *)
Definition JobRepository_Delete (id : string) : M DB (res unit) :=
  sql_exec "failed to delete job" (λ d,
    match db_jobs d !! id with
    | None => (Err (ErrWrap "job not found" repo_ErrNotFound), d)
    | Some _ => (Ok tt, set_jobs (delete id)
                          (set_approvals (filter (λ kr : string * ApprovalRequest, ar_JobID kr.2 ≠ id)) d))
    end).

Definition JobRepository_ListByStatus (status : string) : M DB (res (list Job)) :=
  sql_query "failed to query jobs by status" (λ d,
    select_jobs (λ j, bool_decide (job_Status j = status)) (desc job_CreatedAt) (db_jobs d)).

Definition JobRepository_ListByCertificate (certID : string) : M DB (res (list Job)) :=
  sql_query "failed to query jobs for certificate" (λ d,
    select_jobs (λ j, bool_decide (job_CertificateID j = certID)) (desc job_CreatedAt) (db_jobs d)).

Definition set_row (id : string) (f : Job → Job) (d : DB) : res unit * DB :=
  match db_jobs d !! id with
  | None => (Err (ErrWrap "job not found" repo_ErrNotFound), d)
  | Some row => (Ok tt, set_jobs (<[id := f row]>) d)
  end.

Definition terminal_status (s : string) : bool :=
  bool_decide (s = JobStatusCompleted) || bool_decide (s = JobStatusFailed) ||
  bool_decide (s = JobStatusCancelled).

Definition JobRepository_UpdateStatus (id status errMsg : string) : M DB (res unit) :=
  let lastError := if bool_decide (errMsg = "") then None else Some errMsg in
  if terminal_status status
  then t ← now;
       sql_exec "failed to update job status"
         (set_row id (λ j, job_completed_at t (job_with status lastError j)))
  else sql_exec "failed to update job status" (set_row id (job_with status lastError)).

Definition JobRepository_GetPendingJobs (jobType : string) : M DB (res (list Job)) :=
  sql_query "failed to query pending jobs" (λ d,
    select_jobs (λ j, bool_decide (job_Type j = jobType) && bool_decide (job_Status j = JobStatusPending))
      (asc job_ScheduledAt) (db_jobs d)).

(** *** ClaimPendingJobs *)

(** The WHERE clause: Pending, not routed to an agent (deployment_targets.agent_id
    is NOT NULL, so a resolvable target is an agent's target), of the type asked. *)
Definition claimable (targets : gmap string DeploymentTarget) (jobType : string) (j : Job) : bool :=
  bool_decide (job_Status j = JobStatusPending) &&
  negb (bool_decide (job_Type j = JobTypeDeployment) &&
        (bool_decide (is_Some (job_AgentID j)) ||
         match job_TargetID j with
         | None => false
         | Some t => bool_decide (is_Some (targets !! t))
         end)) &&
  (bool_decide (jobType = "") || bool_decide (job_Type j = jobType)).

(** The locking SELECT: [visible] says which rows no other transaction has
    locked (SKIP LOCKED). *)
Definition claim_select (visible : Job → bool) (jobType : string) (limit : Z)
    (targets : gmap string DeploymentTarget) (jobs : gmap string Job) : list Job :=
  let sel := merge_sort (asc job_ScheduledAt)
               (filter (λ j, claimable targets jobType j && visible j = true) (rows jobs)) in
  if 0 <? limit then take (Z.to_nat limit) sel else sel.

(** [UPDATE jobs SET status = 'Running', attempts = attempts + 1, ... WHERE id IN (ids)]. *)
Definition start_rows (t : Z) (ids : list string) (jobs : gmap string Job) : gmap string Job :=
  map_imap (λ id j, Some (if bool_decide (id ∈ ids) then job_start t j else j)) jobs.

(** The Go loop sets only [Status] on the scanned objects. *)
Definition returned_running (j : Job) : Job :=
  let j := scanJob j in job_with JobStatusRunning (job_LastError j) j.

Definition JobRepository_ClaimPendingJobs (jobType : string) (limit : Z) : M DB (res (list Job)) :=
  b ← tx_stmt "failed to begin claim transaction";
  match b with Err e => mret (Err e) | Ok _ =>
  q ← sql_query "failed to query claimable jobs"
        (λ d, claim_select (λ _, true) jobType limit (db_targets d) (db_jobs d));
  match q with Err e => mret (Err e) | Ok [] =>
    c ← tx_stmt "failed to commit empty claim tx";
    mret match c with Err e => Err e | Ok _ => Ok [] end
  | Ok jobs =>
    let ids := map job_ID jobs in
    t ← now;
    u ← tx_stmt "failed to transition claimed jobs to Running";
    match u with Err e => mret (Err e) | Ok _ =>
    c ← sql_exec "failed to commit claim transaction"
          (λ d, (Ok tt, set_jobs (start_rows t ids) d));
    mret match c with Err e => Err e | Ok _ => Ok (map returned_running jobs) end
    end
  end end.

(** *** The agent's work queue *)
Definition agent_direct (agentID : string) (j : Job) : bool :=
  bool_decide (job_AgentID j = Some agentID) && bool_decide (job_Status j = JobStatusPending) &&
  bool_decide (job_Type j = JobTypeDeployment).

Definition agent_fallback (d : DB) (agentID : string) (j : Job) : bool :=
  bool_decide (job_AgentID j = None) && bool_decide (job_Status j = JobStatusPending) &&
  bool_decide (job_Type j = JobTypeDeployment) &&
  match job_TargetID j with
  | None => false
  | Some t =>
      match db_targets d !! t with
      | Some dt => bool_decide (target_AgentID dt = agentID)
      | None => false
      end
  end.

Definition agent_csr (d : DB) (agentID : string) (j : Job) : bool :=
  bool_decide (job_Status j = JobStatusAwaitingCSR) &&
  bool_decide (job_Type j ∈ [JobTypeRenewal; JobTypeIssuance]) &&
  existsb (λ ct : string * string,
    bool_decide (ct.1 = job_CertificateID j) &&
    match db_targets d !! ct.2 with
    | Some dt => bool_decide (target_AgentID dt = agentID)
    | None => false
    end) (db_mappings d).

Definition JobRepository_ListPendingByAgentID (agentID : string) : M DB (res (list Job)) :=
  sql_query "failed to query pending jobs for agent" (λ d,
    let r := rows (db_jobs d) in
    map scanJob (merge_sort (asc job_CreatedAt)
      (filter (λ j, agent_direct agentID j = true) r ++
       filter (λ j, agent_fallback d agentID j = true) r ++
       filter (λ j, agent_csr d agentID j = true) r))).

Definition JobRepository_ClaimPendingByAgentID (agentID : string) : M DB (res (list Job)) :=
  let by_created p d := merge_sort (asc job_CreatedAt) (filter (λ j, p j = true) (rows (db_jobs d))) in
  b ← tx_stmt "failed to begin agent claim transaction";
  match b with Err e => mret (Err e) | Ok _ =>
  q1 ← sql_query "failed to query pending deployment jobs for agent (direct)"
         (λ d, by_created (agent_direct agentID) d);
  match q1 with Err e => mret (Err e) | Ok direct =>
  q2 ← sql_query "failed to query pending deployment jobs for agent (fallback)"
         (λ d, by_created (agent_fallback d agentID) d);
  match q2 with Err e => mret (Err e) | Ok fallback =>
  q3 ← sql_query "failed to query AwaitingCSR jobs for agent"
         (λ d, by_created (agent_csr d agentID) d);
  match q3 with Err e => mret (Err e) | Ok csrJobs =>
  let pendingJobs := direct ++ fallback in
  t ← now;
  u ← match pendingJobs with
      | [] => mret (Ok tt)
      | _ => tx_stmt "failed to transition claimed deployment jobs to Running"
      end;
  match u with Err e => mret (Err e) | Ok _ =>
  c ← sql_exec "failed to commit agent claim transaction"
        (λ d, (Ok tt, set_jobs (start_rows t (map job_ID pendingJobs)) d));
  mret match c with
       | Err e => Err e
       | Ok _ => Ok (map returned_running pendingJobs ++ map scanJob csrJobs)
       end
  end end end end end.

Definition JobRepository_ListTimedOutAwaitingJobs (csrCutoff approvalCutoff : Z) : M DB (res (list Job)) :=
  sql_query "failed to query timed-out awaiting jobs" (λ d,
    select_jobs (λ j,
      (bool_decide (job_Status j = JobStatusAwaitingCSR) && (job_CreatedAt j <? csrCutoff)) ||
      (bool_decide (job_Status j = JobStatusAwaitingApproval) && (job_CreatedAt j <? approvalCutoff)))
      (asc job_CreatedAt) (db_jobs d)).

(** [ORDER BY started_at ASC NULLS FIRST]. *)
Definition started_key (j : Job) : Z :=
  match job_StartedAt j with None => - 2 ^ 200 | Some t => t end.

Definition JobRepository_ListJobsWithOfflineAgents (agentCutoff : Z) : M DB (res (list Job)) :=
  sql_query "failed to query jobs with offline agents" (λ d,
    select_jobs (λ j,
      bool_decide (job_Status j = JobStatusRunning) &&
      match job_AgentID j with
      | None => false
      | Some a =>
          match db_agents d !! a with
          | Some ag => match agent_LastHeartbeatAt ag with
                       | Some hb => hb <? agentCutoff
                       | None => false
                       end
          | None => false
          end
      end) (asc started_key) (db_jobs d)).

End JobRepo.

Import JobRepo.

(** ** service/job.go *)
Module JobService.

(** The configuration the setters wire; an optional dependency is whether it
    was wired. *)
Record JobService := mkJobService {
  js_renewalConcurrency : Z;
  js_claimLimit : Z;
  js_audit : bool;
  js_certRepo : bool;
  js_ownerRepo : bool
}.

Definition SetRenewalConcurrency (n : Z) (s : JobService) : JobService :=
  let n := if n <=? 0 then 1 else n in
  mkJobService n (js_claimLimit s) (js_audit s) (js_certRepo s) (js_ownerRepo s).

Definition SetClaimLimit (n : Z) (s : JobService) : JobService :=
  let n := if n <=? 0 then 1000 else n in
  mkJobService (js_renewalConcurrency s) n (js_audit s) (js_certRepo s) (js_ownerRepo s).

Definition shouldSkipJob (job : Job) : bool :=
  bool_decide (job_Type job = JobTypeDeployment) &&
  match job_AgentID job with Some a => negb (bool_decide (a = "")) | None => false end.

Definition ErrSelfApproval : error :=
  ErrSentinel "self-approval forbidden: actor is the owner of the certificate".

Definition minute : Z := 60 * 10 ^ 9.

(** A panic of the Go runtime, kept apart from every returned error. *)
Definition panic_slice : error := ErrSentinel "panic: runtime error: slice bounds out of range".

Section service.
Variable ToLower : string → string.
(** The renewal and deployment services' job handlers. *)
Variable ProcessRenewalJob : Job → M DB (res unit).
Variable ProcessDeploymentJob : Job → M DB (res unit).
(** The bounded fan-out run to its [wg.Wait]; JobConcurrency.v has its
    interleavings. *)
Variable boundedFanOut : list Job → Z → (Job → M DB (res unit)) → M DB (res unit).

Definition processValidationJob (job : Job) : M DB (res unit) :=
  mret (Err (ErrMsg "validation job processing not yet implemented")).

Definition processJob (job : Job) : M DB (res unit) :=
  if bool_decide (job_Type job = JobTypeRenewal) then ProcessRenewalJob job
  else if bool_decide (job_Type job = JobTypeDeployment) then ProcessDeploymentJob job
  else if bool_decide (job_Type job = JobTypeIssuance) then ProcessRenewalJob job
  else if bool_decide (job_Type job = JobTypeValidation) then processValidationJob job
  else mret (Err (ErrMsg ("unknown job type: " +:+ job_Type job)%string)).

Definition processPendingJobsSequential (pendingJobs : list Job) : M DB (res unit) :=
  _ ← for_each pendingJobs (λ job,
        if shouldSkipJob job then mret tt
        else _ ← processJob job; mret tt);
  mret (Ok tt).

Definition ProcessPendingJobs (s : JobService) : M DB (res unit) :=
  r ← JobRepository_ClaimPendingJobs "" (js_claimLimit s);
  match r with
  | Err e => mret (Err (ErrWrap "failed to claim pending jobs" e))
  | Ok [] => mret (Ok tt)
  | Ok pendingJobs =>
      if js_renewalConcurrency s <=? 0
      then processPendingJobsSequential pendingJobs
      else boundedFanOut pendingJobs (js_renewalConcurrency s) processJob
  end.

(** [if s.auditService != nil { RecordEvent(...) }], errors only logged. *)
Definition audit_if (s : JobService) (action id : string) (d : details) : M DB unit :=
  if js_audit s
  then _ ← RecordEvent ToLower "system" ActorTypeSystem action "job" id d; mret tt
  else mret tt.

(** The loop body of [RetryFailedJobs]. *)
Definition retry_one (s : JobService) (job : Job) : M DB unit :=
  if job_MaxAttempts job <=? job_Attempts job then mret tt
  else
    let lastRun := match job_StartedAt job with Some t => t | None => job_CreatedAt job end in
    t ← now;
    if t - lastRun <? minute then mret tt
    else
      r ← JobRepository_UpdateStatus (job_ID job) JobStatusPending "";
      match r with
      | Err _ => mret tt
      | Ok _ => audit_if s "job_retry" (job_ID job)
                  [("old_status", GStr JobStatusFailed); ("new_status", GStr JobStatusPending);
                   ("attempts", GInt (job_Attempts job)); ("max_attempts", GInt (job_MaxAttempts job))]
      end.

Definition RetryFailedJobs (s : JobService) (maxRetries : Z) : M DB (res unit) :=
  r ← JobRepository_ListByStatus JobStatusFailed;
  match r with
  | Err e => mret (Err (ErrWrap "failed to fetch failed jobs" e))
  | Ok failedJobs => _ ← for_each failedJobs (retry_one s); mret (Ok tt)
  end.

Definition reap_offline_one (s : JobService) (errMsg : string) (job : Job) : M DB unit :=
  let oldStatus := job_Status job in
  let job := job_with JobStatusFailed (Some errMsg) job in
  r ← JobRepository_Update job;
  match r with
  | Err _ => mret tt
  | Ok _ => audit_if s "job_offline_agent_reap" (job_ID job)
              [("old_status", GStr oldStatus); ("new_status", GStr JobStatusFailed);
               ("timeout_reason", GStr "agent_offline");
               ("agent_id", match job_AgentID job with Some a => GStr a | None => GNil end)]
  end.

(** [duration_string] is [time.Duration]'s [String]. *)
Variable duration_string : Z → string.

Definition ReapJobsWithOfflineAgents (s : JobService) (agentTTL : Z) : M DB (res unit) :=
  if agentTTL <=? 0
  then mret (Err (ErrMsg ("ReapJobsWithOfflineAgents: agentTTL must be positive, got "
                          +:+ duration_string agentTTL)%string))
  else
    t ← now;
    r ← JobRepository_ListJobsWithOfflineAgents (t - agentTTL);
    match r with
    | Err e => mret (Err (ErrWrap "list jobs with offline agents" e))
    | Ok staleJobs =>
        let errMsg := ("agent offline (no heartbeat for >" +:+ duration_string agentTTL +:+ ")")%string in
        _ ← for_each staleJobs (reap_offline_one s errMsg);
        mret (Ok tt)
    end.

Definition reap_timed_out_one (s : JobService) (csrTTL approvalTTL : Z) (job : Job) : M DB unit :=
  let oldStatus := job_Status job in
  let go ttl reason :=
    let newErrMsg := ("timed out in " +:+ oldStatus +:+ " after " +:+ duration_string ttl)%string in
    let job := job_with JobStatusFailed (Some newErrMsg) job in
    r ← JobRepository_Update job;
    match r with
    | Err _ => mret tt
    | Ok _ =>
        if js_audit s then
          t ← now;
          audit_if s "job_timeout" (job_ID job)
            [("old_status", GStr oldStatus); ("new_status", GStr JobStatusFailed);
             ("timeout_reason", GStr reason);
             ("age_hours", GFloat (t - job_CreatedAt job) (60 * minute))]
        else mret tt
    end in
  if bool_decide (job_Status job = JobStatusAwaitingCSR) then go csrTTL "csr_timeout"
  else if bool_decide (job_Status job = JobStatusAwaitingApproval) then go approvalTTL "approval_timeout"
  else mret tt.

Definition ReapTimedOutJobs (s : JobService) (csrTTL approvalTTL : Z) : M DB (res unit) :=
  t ← now;
  r ← JobRepository_ListTimedOutAwaitingJobs (t - csrTTL) (t - approvalTTL);
  match r with
  | Err e => mret (Err (ErrWrap "failed to fetch timed-out jobs" e))
  | Ok timedOutJobs =>
      _ ← for_each timedOutJobs (reap_timed_out_one s csrTTL approvalTTL);
      mret (Ok tt)
  end.

Definition GetJobStatus (jobID : string) : M DB (res Job) :=
  r ← JobRepository_Get jobID;
  mret match r with Err e => Err (ErrWrap "failed to fetch job" e) | Ok j => Ok j end.

Definition CancelJob (jobID : string) : M DB (res unit) :=
  r ← JobRepository_Get jobID;
  match r with
  | Err e => mret (Err (ErrWrap "failed to fetch job" e))
  | Ok job =>
      if negb (bool_decide (job_Status job = JobStatusPending)) &&
         negb (bool_decide (job_Status job = JobStatusRunning))
      then mret (Err (ErrMsg ("cannot cancel job with status " +:+ job_Status job)%string))
      else
        u ← JobRepository_UpdateStatus jobID JobStatusCancelled "cancelled by user";
        mret match u with Err e => Err (ErrWrap "failed to cancel job" e) | Ok _ => Ok tt end
  end.

(** [filtered[start:end]]. *)
Definition go_slice {A} (l : list A) (start end_ : Z) : option (list A) :=
  if (0 <=? start) && (start <=? end_) && (end_ <=? Z.of_nat (length l))
  then Some (take (Z.to_nat (end_ - start)) (drop (Z.to_nat start) l))
  else None.

Definition ListJobs (status jobType : string) (page perPage : Z) : M DB (res (list Job * Z)) :=
  let page := if page <? 1 then 1 else page in
  let perPage := if perPage <? 1 then 50 else perPage in
  r ← JobRepository_List;
  mret match r with
       | Err e => Err (ErrWrap "failed to list jobs" e)
       | Ok allJobs =>
           let filtered := filter (λ job,
             (status = "" ∨ job_Status job = status) ∧ (jobType = "" ∨ job_Type job = jobType))
             allJobs in
           let total := Z.of_nat (length filtered) in
           let start := wrap64 (wrap64 (page - 1) * perPage) in
           if total <=? start then Ok ([], total)
           else
             let end_ := wrap64 (start + perPage) in
             let end_ := if total <? end_ then total else end_ in
             match go_slice filtered start end_ with
             | Some l => Ok (l, total)
             | None => Err panic_slice
             end
       end.

Definition checkNotSelf (s : JobService) (job : Job) (actor : string) : M DB (res unit) :=
  if bool_decide (actor = "") then mret (Ok tt)
  else if negb (js_certRepo s) || negb (js_ownerRepo s) then mret (Ok tt)
  else if bool_decide (job_CertificateID job = "") then mret (Ok tt)
  else
    c ← CertificateRepository_Get (job_CertificateID job);
    match c with
    | Err _ => mret (Ok tt)
    | Ok cert =>
        if bool_decide (cert_OwnerID cert = "") then mret (Ok tt)
        else
          o ← OwnerRepository_Get (cert_OwnerID cert);
          mret match o with
               | Err _ => Ok tt
               | Ok owner =>
                   let actorLower := ToLower actor in
                   if bool_decide (ToLower (owner_Name owner) = actorLower) ||
                      bool_decide (ToLower (owner_Email owner) = actorLower)
                   then Err ErrSelfApproval
                   else Ok tt
               end
    end.

Definition ApproveJob (s : JobService) (id actor : string) : M DB (res unit) :=
  r ← JobRepository_Get id;
  match r with
  | Err e => mret (Err (ErrWrap "job not found" e))
  | Ok job =>
      if negb (bool_decide (job_Status job = JobStatusAwaitingApproval))
      then mret (Err (ErrMsg ("cannot approve job with status " +:+ job_Status job
                              +:+ " (must be AwaitingApproval)")%string))
      else
        c ← checkNotSelf s job actor;
        match c with
        | Err e => mret (Err e)
        | Ok _ =>
            u ← JobRepository_UpdateStatus id JobStatusPending "";
            mret match u with Err e => Err (ErrWrap "failed to approve job" e) | Ok _ => Ok tt end
        end
  end.

Definition RejectJob (id reason actor : string) : M DB (res unit) :=
  r ← JobRepository_Get id;
  match r with
  | Err e => mret (Err (ErrWrap "job not found" e))
  | Ok job =>
      if negb (bool_decide (job_Status job = JobStatusAwaitingApproval))
      then mret (Err (ErrMsg ("cannot reject job with status " +:+ job_Status job
                              +:+ " (must be AwaitingApproval)")%string))
      else
        let msg := if bool_decide (reason = "") then "rejected by user"%string
                   else ("rejected: " +:+ reason)%string in
        u ← JobRepository_UpdateStatus id JobStatusCancelled msg;
        mret match u with Err e => Err (ErrWrap "failed to reject job" e) | Ok _ => Ok tt end
  end.

(** *** service/agent.go: the agent's side of a job *)
Definition GetPendingWork (agentID : string) : M DB (res (list Job)) :=
  a ← AgentRepository_Get agentID;
  match a with
  | Err e => mret (Err (ErrWrap "failed to fetch agent" e))
  | Ok _ => JobRepository_ClaimPendingByAgentID agentID
  end.

Definition ReportJobStatus (agentID jobID status errMsg : string) : M DB (res unit) :=
  r ← JobRepository_Get jobID;
  match r with
  | Err e => mret (Err (ErrWrap "failed to fetch job" e))
  | Ok _ =>
      u ← JobRepository_UpdateStatus jobID status errMsg;
      match u with
      | Err e => mret (Err (ErrWrap "failed to update job status" e))
      | Ok _ =>
          _ ← RecordEvent ToLower agentID ActorTypeAgent "job_status_reported" "job" jobID
                [("status", GStr status); ("error", GStr errMsg)];
          mret (Ok tt)
      end
  end.
End service.
End JobService.

(** ** service/verification.go *)
Module Verification.
Definition VerificationSuccess : string := "success".
Definition VerificationFailed : string := "failed".

(** [VerifiedAt] is the zero time when absent. *)
Record VerificationResult := mkVerificationResult {
  vr_JobID : string;
  vr_TargetID : string;
  vr_ExpectedFingerprint : string;
  vr_ActualFingerprint : string;
  vr_Verified : bool;
  vr_VerifiedAt : option Z;
  vr_Error : string
}.

Section verification.
Variable ToLower : string → string.

Definition RecordVerificationResult (result : VerificationResult) : M DB (res unit) :=
  if bool_decide (vr_JobID result = "") then mret (Err (ErrMsg "job ID is required"))
  else
    r ← JobRepository_Get (vr_JobID result);
    match r with
    | Err e => mret (Err (ErrWrap "failed to fetch job for verification" e))
    | Ok job =>
        let status := if negb (bool_decide (vr_Error result = "")) then VerificationFailed
                      else if vr_Verified result then VerificationSuccess
                      else VerificationFailed in
        let job := mkJob (job_ID job) (job_Type job) (job_CertificateID job) (job_TargetID job)
          (job_AgentID job) (job_Status job) (job_Attempts job) (job_MaxAttempts job)
          (job_LastError job) (job_ScheduledAt job) (job_StartedAt job) (job_CompletedAt job)
          (job_CreatedAt job) status (vr_VerifiedAt result)
          (if bool_decide (vr_Error result = "") then job_VerificationError job
           else Some (vr_Error result))
          (Some (vr_ActualFingerprint result)) in
        u ← JobRepository_Update job;
        match u with
        | Err e => mret (Err (ErrWrap "failed to update job with verification result" e))
        | Ok _ =>
            let base := [("job_id", GStr (vr_JobID result)); ("target_id", GStr (vr_TargetID result));
                         ("expected_fingerprint", GStr (vr_ExpectedFingerprint result));
                         ("actual_fingerprint", GStr (vr_ActualFingerprint result));
                         ("verified", GBool (vr_Verified result))] in
            let '(auditEvent, auditDetails) :=
              if bool_decide (vr_Error result = "") then ("job_verification_success"%string, base)
              else ("job_verification_failed"%string, base ++ [("error", GStr (vr_Error result))]) in
            _ ← RecordEvent ToLower "agent" ActorTypeAgent auditEvent "job" (vr_JobID result)
                  auditDetails;
            mret (Ok tt)
        end
    end.

Definition GetVerificationResult (jobID : string) : M DB (res VerificationResult) :=
  if bool_decide (jobID = "") then mret (Err (ErrMsg "job ID is required"))
  else
    r ← JobRepository_Get jobID;
    mret match r with
         | Err e => Err (ErrWrap "failed to fetch job" e)
         | Ok job =>
             Ok (mkVerificationResult (job_ID job)
                   (match job_TargetID job with Some t => t | None => "" end) ""
                   (match job_VerificationFp job with Some f => f | None => "" end)
                   (bool_decide (job_VerificationStatus job = VerificationSuccess))
                   (job_VerifiedAt job)
                   (match job_VerificationError job with Some e => e | None => "" end))
         end.
End verification.
End Verification.
