(* ===== verification/JobFacts.v ===== *)
(** * Theorems about jobs: claims, retries, attempts, approval by job route,
      listing and verification results (the definitions of Jobs.v). *)

From stdpp Require Import prelude gmap strings list sorting pretty.
From Stdlib Require Import ZArith Lia.
From S2P Require Import Prelude AuditTrail Store Jobs.
Import JobRepo JobService Verification.

(** Jobs are stored under their ids. *)
Definition jobs_keyed (jobs : gmap string Job) : Prop := map_Forall (λ k j, job_ID j = k) jobs.

Lemma rows_NoDup jobs : jobs_keyed jobs → NoDup (map job_ID (rows jobs)).
Proof.
  intros Hk. unfold rows.
  replace (map job_ID (map_to_list jobs).*2) with (map_to_list jobs).*1;
    [apply NoDup_fst_map_to_list|].
  rewrite <- list_fmap_compose. apply list_fmap_ext. intros i [k j] H%list_elem_of_lookup_2.
  apply elem_of_map_to_list in H. cbn. symmetry. by apply Hk.
Qed.

Lemma rows_lookup jobs j : jobs_keyed jobs → j ∈ rows jobs ↔ jobs !! job_ID j = Some j.
Proof.
  intros Hk. rewrite elem_of_rows. split; [|by eauto].
  intros [k H]. by rewrite (Hk _ _ H).
Qed.

Lemma sorted_take_min {A} (f : A → Z) l n x y :
  StronglySorted (asc f) l → x ∈ take n l → y ∈ l → y ∉ take n l → asc f x y.
Proof.
  intros Hs. revert n. induction Hs as [|a l Hs IH Ha]; intros [|n]; cbn;
    try (intros ?%elem_of_nil; done).
  intros Hx Hy Hny. apply elem_of_cons in Hy as [->|Hy]; [by destruct Hny; left|].
  apply elem_of_cons in Hx as [->|Hx].
  - rewrite Forall_forall in Ha. by apply Ha.
  - apply (IH n Hx Hy). intros H. apply Hny. by right.
Qed.

(** ** Claiming *)

(** What a claim promises: a duplicate-free batch of claimable rows, at most
    [limit] of them, the earliest scheduled ones, and all of them when there is room. *)
Record claim_batch (visible : Job → bool) (targets : gmap string DeploymentTarget)
    (jobType : string) (limit : Z) (jobs : gmap string Job) (batch : list Job) : Prop := {
  cb_nodup : NoDup (map job_ID batch);
  cb_claimable j : j ∈ batch → jobs !! job_ID j = Some j ∧ claimable targets jobType j = true ∧
                     visible j = true;
  cb_limit : 0 < limit → Z.of_nat (length batch) ≤ limit;
  cb_oldest j k : j ∈ batch → k ∉ batch → jobs !! job_ID k = Some k →
    claimable targets jobType k = true → visible k = true → job_ScheduledAt j ≤ job_ScheduledAt k;
  cb_all k : limit ≤ 0 ∨ Z.of_nat (length batch) < limit → jobs !! job_ID k = Some k →
    claimable targets jobType k = true → visible k = true → k ∈ batch
}.

Lemma claim_select_spec visible targets jobType limit jobs :
  jobs_keyed jobs →
  claim_batch visible targets jobType limit jobs (claim_select visible jobType limit targets jobs).
Proof.
  intros Hk. unfold claim_select.
  set (sel := merge_sort _ _).
  assert (Hin : ∀ k, k ∈ sel ↔ jobs !! job_ID k = Some k ∧ claimable targets jobType k = true ∧
                               visible k = true).
  { intros k. unfold sel. rewrite (merge_sort_Permutation (asc job_ScheduledAt)).
    rewrite list_elem_of_filter, andb_true_iff, (rows_lookup _ _ Hk). naive_solver. }
  assert (Hnd : NoDup (map job_ID sel)).
  { unfold sel. rewrite (merge_sort_Permutation (asc job_ScheduledAt)).
    by eapply NoDup_map_sublist; [apply rows_NoDup|apply sublist_filter]. }
  assert (Hs : StronglySorted (asc job_ScheduledAt) sel)
    by (apply Sorted_StronglySorted; [apply _|apply (Sorted_merge_sort (asc job_ScheduledAt))]).
  destruct (0 <? limit) eqn:El.
  - assert (Hsub : ∀ k, k ∈ take (Z.to_nat limit) sel → k ∈ sel)
      by (intros k; apply subseteq_take).
    constructor.
    + by eapply NoDup_map_sublist; [|apply sublist_take].
    + intros j Hj. by apply Hin, Hsub.
    + intros _. rewrite length_take. lia.
    + intros j k Hj Hnk H1 H2 H3. eapply (sorted_take_min job_ScheduledAt); eauto. by apply Hin.
    + intros k [Hl|Hl]; [lia|]. intros. rewrite length_take in Hl. rewrite take_ge by lia. by apply Hin.
  - constructor; [done|by intros; apply Hin|lia| |by intros; apply Hin].
    intros j k Hj Hnk ???. destruct Hnk. by apply Hin.
Qed.

Lemma start_rows_lookup t ids jobs id :
  start_rows t ids jobs !! id =
    (λ j, if bool_decide (id ∈ ids) then job_start t j else j) <$> jobs !! id.
Proof. unfold start_rows. rewrite map_lookup_imap. by destruct (jobs !! id). Qed.

Lemma start_rows_nil t jobs : start_rows t [] jobs = jobs.
Proof.
  apply map_eq. intros id. rewrite start_rows_lookup.
  rewrite bool_decide_eq_false_2 by apply not_elem_of_nil. by destruct (jobs !! id).
Qed.

Lemma set_jobs_id d f : f (db_jobs d) = db_jobs d → set_jobs f d = d.
Proof. intros E. unfold set_jobs. rewrite E. by destruct d. Qed.

Definition claim_effect (jobType : string) (limit : Z) (d d' : DB) (batch : list Job) : Prop :=
  claim_batch (λ _, true) (db_targets d) jobType limit (db_jobs d) batch ∧
  ∃ t, d' = set_jobs (start_rows t (map job_ID batch)) d.

Lemma claim_pending_jobs_spec jobType limit w :
  jobs_keyed (db_jobs (w_db w)) →
  let '(r, w') := JobRepository_ClaimPendingJobs jobType limit w in
  (is_Ok r = false ∧ w_db w' = w_db w) ∨
  ∃ batch, claim_effect jobType limit (w_db w) (w_db w') batch ∧
    (r = Ok (map returned_running batch) ∨ is_Ok r = false).
Proof.
  intros Hk. pose proof (claim_select_spec (λ _, true) (db_targets (w_db w)) jobType limit _ Hk) as Hspec.
  unfold JobRepository_ClaimPendingJobs, tx_stmt. mrun.
  set (sel := claim_select _ _ _ _ _) in *.
  assert (Hnil : sel = [] → claim_effect jobType limit (w_db w) (w_db w) []).
  { intros Hn. rewrite Hn in Hspec. split; [done|]. exists 0.
    symmetry. apply set_jobs_id, start_rows_nil. }
  assert (Hbatch : ∀ t, claim_effect jobType limit (w_db w)
            (set_jobs (start_rows t (map job_ID sel)) (w_db w)) sel).
  { intros t. split; [done|]. by exists t. }
  repeat (case_match; simplify_eq/=; try (left; done)); subst sel.
  all: repeat match goal with H : claim_select _ _ _ _ _ = _ |- _ => rewrite H in * end.
  all: right; eexists; (split; [first [by apply Hnil | apply Hbatch]|]); by auto.
Qed.

(** a scheduler claim is exact.  Whatever statement fails, either nothing
    changed and an error is returned, or a duplicate-free batch of Pending rows that
    no agent owns, at most [limit] of them and the earliest scheduled, was set to
    Running with one more attempt, no other row was touched, and a success returns
    exactly that batch.  With no limit, or room left, no claimable row is missed. *)
Theorem claim_pending_jobs_exact jobType limit w :
  jobs_keyed (db_jobs (w_db w)) →
  let '(r, w') := JobRepository_ClaimPendingJobs jobType limit w in
  (is_Ok r = false ∧ w_db w' = w_db w) ∨
  ∃ batch, claim_effect jobType limit (w_db w) (w_db w') batch ∧
    (r = Ok (map returned_running batch) ∨ is_Ok r = false).
Proof. apply claim_pending_jobs_spec. Qed.

(** A small fleet: two claimable renewals, one agent-owned deployment, one
    running renewal. *)
Definition sample_job (id ty st : string) (ag : option string) (sched : Z) : Job :=
  mkJob id ty "mc-1" None ag st 0 3 None sched None None sched "pending" None None None.
Definition sample_jobs : gmap string Job :=
  list_to_map (map (λ j, (job_ID j, j))
    [ sample_job "j-1" JobTypeRenewal JobStatusPending None 20;
      sample_job "j-2" JobTypeRenewal JobStatusPending None 10;
      sample_job "j-3" JobTypeDeployment JobStatusPending (Some "agent-1") 5;
      sample_job "j-4" JobTypeRenewal JobStatusRunning None 1 ]).
Definition sample_world (jobs : gmap string Job) : World DB :=
  mkWorld (set_jobs (λ _, jobs) empty_DB) (mkEnv (10 ^ 15) [] [] 0%N).

Lemma sample_jobs_keyed : jobs_keyed sample_jobs.
Proof. apply (bool_decide_unpack _). vm_compute. exact I. Qed.

Lemma claim_pending_jobs_exact_witness :
  map job_ID match (JobRepository_ClaimPendingJobs "" 1 (sample_world sample_jobs)).1 with
             | Ok l => l | Err _ => [] end = ["j-2"] ∧
  let '(r, w') := JobRepository_ClaimPendingJobs "" 1 (sample_world sample_jobs) in
  (is_Ok r = false ∧ w_db w' = w_db (sample_world sample_jobs)) ∨
  ∃ batch, claim_effect "" 1 (w_db (sample_world sample_jobs)) (w_db w') batch ∧
    (r = Ok (map returned_running batch) ∨ is_Ok r = false).
Proof.
  split; [vm_compute; reflexivity|].
  apply (claim_pending_jobs_exact "" 1 (sample_world sample_jobs)). exact sample_jobs_keyed.
Defined.

(** ** Draining the queue *)
Section drain.
Context (jobType : string) (limit : Z).

Definition queue (d : DB) : gmap string Job :=
  filter (λ kj : string * Job, claimable (db_targets d) jobType kj.2 = true) (db_jobs d).

(** The claims of [n] successive ticks, [ProcessPendingJobs] without the processing of what was
    claimed: the jobs the ticks got back. *)
Fixpoint claim_ticks (n : nat) : M DB (list Job) :=
  match n with
  | O => mret []
  | S n' =>
      r ← JobRepository_ClaimPendingJobs jobType limit;
      rest ← claim_ticks n';
      mret (match r with Ok jobs => jobs | Err _ => [] end ++ rest)
  end.

(** What a tick may do to the queue: rows leave it only by starting to run. *)
Definition drains (d d' : DB) : Prop :=
  jobs_keyed (db_jobs d') ∧ (size (queue d') ≤ size (queue d))%nat ∧
  (∀ id, is_Some (queue d !! id) → is_Some (queue d' !! id) ∨
     job_Status <$> db_jobs d' !! id = Some JobStatusRunning) ∧
  ∀ id, job_Status <$> db_jobs d !! id = Some JobStatusRunning →
        job_Status <$> db_jobs d' !! id = Some JobStatusRunning.

Lemma claim_effect_queue d d' batch :
  jobs_keyed (db_jobs d) → claim_effect jobType limit d d' batch →
  drains d d' ∧ (batch ≠ [] → (size (queue d') < size (queue d))%nat).
Proof.
  intros Hk [Hb [t ->]]. unfold queue. cbn [db_jobs db_targets set_jobs].
  assert (∀ id j', filter (λ kj : string * Job, claimable (db_targets d) jobType kj.2 = true)
    (start_rows t (map job_ID batch) (db_jobs d)) !! id = Some j' ↔
    id ∉ map job_ID batch ∧ db_jobs d !! id = Some j' ∧ claimable (db_targets d) jobType j' = true) as Hq.
  { intros id j'. rewrite map_lookup_filter_Some, start_rows_lookup. cbn.
    destruct (db_jobs d !! id) as [j|]; cbn; [|naive_solver].
    case_bool_decide as Hin; [|naive_solver]. split; [|by intros [? _]].
    intros [[= <-] H]. unfold claimable in H. by cbn in H. }
  set (q' := filter _ (start_rows _ _ _)) in *. set (q := filter _ (db_jobs d)).
  assert (q' ⊆ q) as Hsub.
  { apply map_subseteq_spec. intros id j' (Hn & Hj & Hc)%Hq. by apply map_lookup_filter_Some. }
  split; [split_and!|].
  - intros id j'. cbn. rewrite start_rows_lookup. intros (j & Hj & ->)%fmap_Some. case_match; exact (Hk id j Hj).
  - by apply map_subseteq_size.
  - intros id [j Hj]. destruct (decide (id ∈ map job_ID batch)) as [Hin|Hn].
    + right. cbn. apply map_lookup_filter_Some in Hj as [Hj _]. by rewrite start_rows_lookup, Hj, bool_decide_true.
    + left. exists j. apply Hq. by apply map_lookup_filter_Some in Hj as [? ?].
  - intros id. cbn. rewrite start_rows_lookup. destruct (db_jobs d !! id) as [j|]; [|done]. cbn. by case_match.
  - intros Hne. apply map_subset_size. split; [exact Hsub|]. intros Hsup.
    destruct batch as [|j batch]; [done|]. destruct (cb_claimable _ _ _ _ _ _ Hb j) as (Hj & Hc & _); [by left|].
    assert (q !! job_ID j = Some j) as Hqj by by apply map_lookup_filter_Some.
    pose proof (lookup_weaken _ _ _ _ Hqj Hsup) as [Hn _]%Hq. apply Hn. left.
Qed.

#[local] Instance drains_trans : Transitive drains.
Proof.
  intros d1 d2 d3 (_ & S1 & Q1 & R1) (K2 & S2 & Q2 & R2). split_and!; [done|lia| |auto].
  intros id Hid. destruct (Q1 id Hid) as [H|H]; [by apply Q2|right; by apply R2].
Qed.

(** The statements of the environment that fail. *)
Fixpoint failures (fs : list fault) : nat :=
  match fs with
  | [] => 0
  | FOk :: fs' => failures fs'
  | _ :: fs' => S (failures fs')
  end.

Ltac claim_case :=
  cbn; split_and!; [lia|set_solver|];
  first [by left; split; [done|lia]
        |by right; left
        |right; right; split; [done|split; [eexists; reflexivity|first [by left|right; set_solver]]]].

(** One claim: it meets a failure, finds nothing, or starts the selected jobs; it returns these
    unless its commit is lost. *)
Lemma claim_cases w :
  let sel := claim_select (λ _, true) jobType limit (db_targets (w_db w)) (db_jobs (w_db w)) in
  let '(r, w') := JobRepository_ClaimPendingJobs jobType limit w in
  (failures (env_faults (w_env w')) ≤ failures (env_faults (w_env w)))%nat ∧
  (FLost ∈ env_faults (w_env w') → FLost ∈ env_faults (w_env w)) ∧
  ((w_db w' = w_db w ∧ (failures (env_faults (w_env w')) < failures (env_faults (w_env w)))%nat) ∨
   (w_db w' = w_db w ∧ sel = []) ∨
   (sel ≠ [] ∧ (∃ t, w_db w' = set_jobs (start_rows t (map job_ID sel)) (w_db w)) ∧
    (r = Ok (map returned_running sel) ∨ FLost ∈ env_faults (w_env w)))).
Proof.
  intros sel. destruct w as [d [c tks fs n]]. cbn in sel.
  unfold JobRepository_ClaimPendingJobs, tx_stmt, sql_query, sql_exec, now, next_fault, get_db, put_db,
    mbind, M_bind, mret, M_ret.
  destruct fs as [|[| |] fs]; cbn; [fold sel; clearbody sel; destruct sel, tks; claim_case| |claim_case..].
  destruct fs as [|[| |] fs]; cbn; [fold sel; clearbody sel; destruct sel, tks; claim_case| |claim_case..].
  fold sel; clearbody sel. destruct sel as [|j l]; [|destruct tks];
    (destruct fs as [|[| |] fs]; cbn; [claim_case|try claim_case|claim_case..]);
    destruct fs as [|[| |] fs]; claim_case.
Qed.

(** Nothing is selected only if nothing waits. *)
Lemma select_nothing d : jobs_keyed (db_jobs d) →
  claim_select (λ _, true) jobType limit (db_targets d) (db_jobs d) = [] → queue d = ∅.
Proof.
  intros Hk Hn. pose proof (claim_select_spec (λ _, true) (db_targets d) jobType limit _ Hk) as Hspec.
  apply map_eq. intros id. rewrite lookup_empty. apply eq_None_not_Some. intros [j [Hj Hc]%map_lookup_filter_Some].
  cbn in Hc. assert (j ∈ claim_select (λ _, true) jobType limit (db_targets d) (db_jobs d)) as Hin;
    [|rewrite Hn in Hin; by apply not_elem_of_nil in Hin].
  apply (cb_all _ _ _ _ _ _ Hspec); [rewrite Hn; cbn; lia| |done|done]. by rewrite (Hk _ _ Hj).
Qed.

(** What starting a batch takes from the queue is the batch. *)
Lemma started_rest d t batch id :
  is_Some (queue d !! id) →
  is_Some (queue (set_jobs (start_rows t (map job_ID batch)) d) !! id) ∨ id ∈ map job_ID batch.
Proof.
  intros [j [Hj Hc]%map_lookup_filter_Some]. destruct (decide (id ∈ map job_ID batch)); [by right|left].
  exists j. apply map_lookup_filter_Some. cbn. by rewrite start_rows_lookup, Hj, bool_decide_eq_false_2.
Qed.

Lemma returned_ids l : map job_ID (map returned_running l) = map job_ID l.
Proof. rewrite map_map. by apply map_ext. Qed.

(** A tick meets a failure or starts a job, if there is one to start; what it starts it returns
    unless a commit is lost. *)
Lemma tick_progress w :
  jobs_keyed (db_jobs (w_db w)) →
  let '(r, w') := JobRepository_ClaimPendingJobs jobType limit w in
  drains (w_db w) (w_db w') ∧ (FLost ∈ env_faults (w_env w') → FLost ∈ env_faults (w_env w)) ∧
  (queue (w_db w') = ∅ ∨
   failures (env_faults (w_env w')) + size (queue (w_db w')) <
   failures (env_faults (w_env w)) + size (queue (w_db w)))%nat ∧
  (FLost ∉ env_faults (w_env w) → ∀ id, is_Some (queue (w_db w) !! id) →
   is_Some (queue (w_db w') !! id) ∨ id ∈ map job_ID (match r with Ok jobs => jobs | Err _ => [] end)).
Proof.
  intros Hk. pose proof (claim_cases w) as Hc. cbv zeta in Hc.
  destruct (JobRepository_ClaimPendingJobs jobType limit w) as [r w'].
  assert (drains (w_db w) (w_db w)) as Hrefl by (split_and!; auto).
  destruct Hc as (Hf & HL & [[-> Hlt]|[[-> Hs]|(Hne & [t Ht] & Hr)]]).
  - split_and!; [done..|right; lia|auto].
  - split_and!; [done..|left; by apply select_nothing|auto].
  - pose proof (claim_select_spec (λ _, true) (db_targets (w_db w)) jobType limit _ Hk) as Hspec.
    destruct (claim_effect_queue (w_db w) (w_db w') _ Hk (conj Hspec (ex_intro _ t Ht))) as [Hd Hlt].
    specialize (Hlt Hne). split_and!; [done..|right; lia|].
    intros HnL id Hid. destruct Hr as [->|?]; [|done]. rewrite returned_ids, Ht. by apply started_rest.
Qed.

Lemma ticks_drain n w :
  jobs_keyed (db_jobs (w_db w)) →
  (failures (env_faults (w_env w)) + size (queue (w_db w)) ≤ n)%nat ∨ queue (w_db w) = ∅ →
  let '(jobs, w') := claim_ticks n w in
  drains (w_db w) (w_db w') ∧ queue (w_db w') = ∅ ∧
  (FLost ∉ env_faults (w_env w) → ∀ id, is_Some (queue (w_db w) !! id) → id ∈ map job_ID jobs).
Proof.
  revert w. induction n as [|n IH]; intros w Hk Hn; cbn [claim_ticks].
  - assert (queue (w_db w) = ∅) as He by (destruct Hn; [apply map_size_empty_inv; lia|done]).
    split_and!; [split_and!; auto|done|]. rewrite He. by intros _ id [? ?%lookup_empty_Some].
  - pose proof (tick_progress w Hk) as Ht. unfold mbind, M_bind.
    destruct (JobRepository_ClaimPendingJobs jobType limit w) as [r w1]. destruct Ht as (Hd & HL & Hp & Hr).
    specialize (IH w1 (proj1 Hd)). destruct (claim_ticks n w1) as [rest w2]. cbn.
    destruct IH as (Hd' & Hq & Hrest).
    { destruct Hp as [?|Hlt]; [by right|]. destruct Hn as [Hn|He]; [left; lia|right].
      apply map_size_empty_inv. destruct Hd as (_ & Hs & _). rewrite He, map_size_empty in Hs. lia. }
    split_and!; [by etransitivity|done|]. intros HnL id Hid. rewrite map_app, elem_of_app.
    destruct (Hr HnL id Hid) as [H|H]; [right; apply Hrest; [by intros ?%HL|done]|by left].
Qed.

(** C21: The queue is claimed: if no new jobs arrive, then after as many ticks as there are
    waiting jobs and failing statements together, however the failures fall, no job is left
    waiting and every job that was waiting is marked Running; and if no statement of the ticks has
    its reply lost, each of them was handed to the processor of some tick.  (A tick is here its
    call of [ClaimPendingJobs], the only step that takes jobs from the queue, not the processing
    that follows; when the reply to a commit is lost the claimed jobs are marked Running and
    nobody runs them.) *)
Theorem scheduler_claims_drain n w :
  jobs_keyed (db_jobs (w_db w)) →
  (failures (env_faults (w_env w)) + size (queue (w_db w)) ≤ n)%nat →
  let '(jobs, w') := claim_ticks n w in
  queue (w_db w') = ∅ ∧
  ∀ id, is_Some (queue (w_db w) !! id) →
    job_Status <$> db_jobs (w_db w') !! id = Some JobStatusRunning ∧
    (FLost ∉ env_faults (w_env w) → id ∈ map job_ID jobs).
Proof.
  intros Hk Hn. pose proof (ticks_drain n w Hk (or_introl Hn)) as H. destruct (claim_ticks n w) as [jobs w'].
  destruct H as ((_ & _ & Hq & _) & He & Hr). split; [done|]. intros id Hid. split; [|by auto].
  destruct (Hq id Hid) as [H|H]; [|done]. rewrite He in H. by destruct H.
Qed.
End drain.

(** The two waiting jobs of the fleet, claimed one at a time; the second statement fails, so three
    ticks are needed. *)
Lemma scheduler_claims_drain_witness :
  let w := mkWorld (set_jobs (λ _, sample_jobs) empty_DB) (mkEnv (10 ^ 15) [] [FOk; FFail] 0%N) in
  map job_ID (claim_ticks "" 1 3 w).1 = ["j-2"; "j-1"] ∧
  queue "" (w_db (claim_ticks "" 1 3 w).2) = ∅.
Proof.
  intros w. split; [vm_compute; reflexivity|].
  pose proof (scheduler_claims_drain "" 1 3 w sample_jobs_keyed) as H.
  destruct (claim_ticks "" 1 3 w) as [jobs w']. apply H. apply Nat.leb_le. vm_compute. reflexivity.
Defined.

(** The lost reply: the job is Running, and no tick has it. *)
Example lost_commit_strands_job :
  let w := mkWorld (set_jobs (λ _, sample_jobs) empty_DB) (mkEnv (10 ^ 15) [] [FOk; FOk; FOk; FLost] 0%N) in
  let '(jobs, w') := claim_ticks "" 0 2 w in
  map job_ID jobs = [] ∧ job_Status <$> db_jobs (w_db w') !! "j-1" = Some JobStatusRunning.
Proof. vm_compute. split; reflexivity. Qed.

(** ** Retrying failed jobs *)

(** Everything but the jobs and the audit log. *)
Definition same_rest (d d' : DB) : Prop :=
  set_audit (λ _, []) (set_jobs (λ _, ∅) d) = set_audit (λ _, []) (set_jobs (λ _, ∅) d').

Definition last_run (j : Job) : Z :=
  match job_StartedAt j with Some t => t | None => job_CreatedAt j end.

(** A job of [l] the sweep may retry by time [T]. *)
Definition retryable (l : list Job) (T : Z) (id : string) : Prop :=
  ∃ j, j ∈ l ∧ job_ID j = id ∧ job_Attempts j < job_MaxAttempts j ∧ last_run j + minute ≤ T.

Definition retry_rel (l : list Job) (w w' : World DB) : Prop :=
  clock w ≤ clock w' ∧ same_rest (w_db w) (w_db w') ∧
  ∀ id, db_jobs (w_db w') !! id = db_jobs (w_db w) !! id ∨
        retryable l (clock w') id ∧
        db_jobs (w_db w') !! id = job_with JobStatusPending None <$> db_jobs (w_db w) !! id.

#[local] Instance retry_rel_trans l : Transitive (retry_rel l).
Proof.
  intros w1 w2 w3 (C1 & S1 & J1) (C2 & S2 & J2). split_and!; [lia|by etransitivity|].
  intros id. destruct (J1 id) as [E1|[R1 E1]], (J2 id) as [E2|[R2 E2]]; rewrite E2, E1; [by left|by right| |].
  - right. split; [|done]. destruct R1 as (j & ? & ? & ? & ?). exists j. split_and!; [done..|lia].
  - right. split; [done|]. by destruct (db_jobs (w_db w1) !! id).
Qed.

#[local] Instance retry_rel_env l : EnvClosed (retry_rel l).
Proof. intros w w' E C. unfold retry_rel. rewrite E. split_and!; [done..|]. by left. Qed.

Lemma since_retry_one ToLower s l job c :
  job ∈ l → since c (retry_rel l) (retry_one ToLower s job).
Proof.
  intros Hin. unfold retry_one. since_step; [since_step|]. cbv zeta. since_step.
  since_step; [since_step|]. since_step; [|since_step; [|since_step]].
  - unfold JobRepository_UpdateStatus. rewrite bool_decide_eq_true_2 by done.
    change (terminal_status JobStatusPending) with false. cbv iota.
    refine (since_exec _ _ _ _ _). intros w e Hc He. unfold set_row.
    destruct (db_jobs (w_db w) !! job_ID job) as [row|] eqn:Er; cbn; unfold retry_rel, clock; cbn;
      (split_and!; [unfold clock in *; lia|done|]); [|by left].
    intros id. destruct (decide (id = job_ID job)) as [->|Hne]; [right|left; by rewrite lookup_insert_ne].
    rewrite lookup_insert_eq, Er. split; [|done].
    exists job. unfold last_run, clock in *. split_and!; [done..|lia|].
    destruct (job_StartedAt job); lia.
  - unfold audit_if. since_step; [|since_step]. since_step; [|since_step].
    apply (since_RecordEvent _ _); [apply _..|]. intros w e ev He.
    unfold retry_rel, clock in *; cbn. split_and!; [lia|done|by left].
Qed.

Lemma retry_failed_jobs_spec ToLower s maxRetries w id :
  jobs_keyed (db_jobs (w_db w)) →
  let w' := (RetryFailedJobs ToLower s maxRetries w).2 in
  same_rest (w_db w) (w_db w') ∧
  (db_jobs (w_db w') !! id = db_jobs (w_db w) !! id ∨
   ∃ row, db_jobs (w_db w) !! id = Some row ∧ job_Status row = JobStatusFailed ∧
     job_Attempts row < job_MaxAttempts row ∧ last_run row + minute ≤ clock w' ∧
     db_jobs (w_db w') !! id = Some (job_with JobStatusPending None row)).
Proof.
  intros Hk w'.
  set (l := select_jobs (λ j, bool_decide (job_Status j = JobStatusFailed))
              (desc job_CreatedAt) (db_jobs (w_db w))).
  assert (Hrel : retry_rel l w w').
  { subst w'. unfold RetryFailedJobs, JobRepository_ListByStatus, sql_query. mrun.
    assert (Hloop : ∀ w0, w_db w0 = w_db w → clock w0 = clock w →
      retry_rel l w (for_each l (retry_one ToLower s) w0).2).
    { intros w0 E C. destruct (since_for_each (retry_rel l) (clock w0) l (retry_one ToLower s)
        (λ j Hj, since_retry_one ToLower s l j _ Hj) w0 ltac:(done)) as [_ H].
      etransitivity; [|exact H]. apply env_closed; [done|lia]. }
    destruct (env_faults (w_env w)) as [|[| |] fs]; cbn; fold l;
      try (apply env_closed; done);
      match goal with |- context [for_each l _ ?w0] => specialize (Hloop w0 eq_refl eq_refl);
        destruct (for_each l (retry_one ToLower s) w0); exact Hloop end. }
  destruct Hrel as (_ & Hrest & Hj). split; [done|].
  destruct (Hj id) as [E|[(j & Hin & Hid & Ha & Ht) E]]; [by left|right].
  unfold l, select_jobs in Hin. apply list_elem_of_fmap in Hin as (row & -> & Hin).
  rewrite (merge_sort_Permutation (desc job_CreatedAt)), list_elem_of_filter, (rows_lookup _ _ Hk) in Hin.
  destruct Hin as [Hst%bool_decide_eq_true Hrow]. cbn in Hid. subst id.
  exists row. rewrite E, Hrow. by split_and!.
Qed.

(** the retry sweep only revives jobs that may be retried.  Whatever fails
    along the way, after [RetryFailedJobs] every job row is unchanged except Failed
    rows with attempts left whose last run (or creation) is at least a minute old,
    and those differ only in being Pending with no error; no table other than jobs
    and the audit log changes, and no other column of a job does. *)
Theorem retry_failed_jobs_exact ToLower s maxRetries w id :
  jobs_keyed (db_jobs (w_db w)) →
  let w' := (RetryFailedJobs ToLower s maxRetries w).2 in
  same_rest (w_db w) (w_db w') ∧
  (db_jobs (w_db w') !! id = db_jobs (w_db w) !! id ∨
   ∃ row, db_jobs (w_db w) !! id = Some row ∧ job_Status row = JobStatusFailed ∧
     job_Attempts row < job_MaxAttempts row ∧ last_run row + minute ≤ clock w' ∧
     db_jobs (w_db w') !! id = Some (job_with JobStatusPending None row)).
Proof. apply retry_failed_jobs_spec. Qed.

Lemma retry_failed_jobs_exact_witness :
  let j := sample_job "j-9" JobTypeRenewal JobStatusFailed None 0 in
  let w := sample_world {[ "j-9" := j ]} in
  let w' := (RetryFailedJobs lower_ascii (mkJobService 1 1 true true true) 3 w).2 in
  db_jobs (w_db w') !! "j-9" = Some (job_with JobStatusPending None j) ∧
  same_rest (w_db w) (w_db w').
Proof.
  split; [vm_compute; reflexivity|].
  refine (proj1 (retry_failed_jobs_exact lower_ascii (mkJobService 1 1 true true true) 3
    (sample_world {[ "j-9" := sample_job "j-9" JobTypeRenewal JobStatusFailed None 0 ]}) "j-9" _)).
  apply map_Forall_singleton. reflexivity.
Defined.

(** ** Attempts stay within the budget *)
Definition startable (s : string) : Prop := s = JobStatusPending ∨ s = JobStatusAwaitingApproval.

Definition bounded (j : Job) : Prop :=
  0 ≤ job_Attempts j ≤ Z.max 1 (job_MaxAttempts j) ∧
  (startable (job_Status j) → job_Attempts j = 0 ∨ job_Attempts j < job_MaxAttempts j).

Definition attempts_inv (d : DB) : Prop :=
  jobs_keyed (db_jobs d) ∧ map_Forall (λ _ j, bounded j) (db_jobs d).

(** Operations on jobs as the scheduler, the API and the agents issue them. *)
Inductive job_op :=
  | OpCreate (j : Job)
  | OpClaim (jobType : string) (limit : Z)
  | OpAgentWork (agentID : string)
  | OpRetry (maxRetries : Z)
  | OpReapOffline (ttl : Z)
  | OpReapTimedOut (csrTTL approvalTTL : Z)
  | OpCancel (id : string)
  | OpApprove (id actor : string)
  | OpReject (id reason actor : string)
  | OpReport (agentID id status msg : string).

(** New jobs start at attempt 0; an agent does not report a job back to a
    state from which it would be started again. *)
Definition op_ok (op : job_op) : Prop :=
  match op with
  | OpCreate j => job_Attempts j = 0
  | OpReport _ _ status _ => ¬ startable status
  | _ => True
  end.

Section attempts.
Variable ToLower : string → string.
Variable duration_string : Z → string.
Variable sv : JobService.

Definition run_op (op : job_op) : M DB unit :=
  match op with
  | OpCreate j => _ ← JobRepository_Create j; mret tt
  | OpClaim ty lim => _ ← JobRepository_ClaimPendingJobs ty lim; mret tt
  | OpAgentWork a => _ ← GetPendingWork a; mret tt
  | OpRetry n => _ ← RetryFailedJobs ToLower sv n; mret tt
  | OpReapOffline ttl => _ ← ReapJobsWithOfflineAgents ToLower duration_string sv ttl; mret tt
  | OpReapTimedOut a b => _ ← ReapTimedOutJobs ToLower duration_string sv a b; mret tt
  | OpCancel id => _ ← CancelJob id; mret tt
  | OpApprove id actor => _ ← ApproveJob ToLower sv id actor; mret tt
  | OpReject id reason actor => _ ← RejectJob id reason actor; mret tt
  | OpReport a id st msg => _ ← ReportJobStatus ToLower a id st msg; mret tt
  end.

Notation keeps_inv m := (keeps attempts_inv m (λ _, True)).

Lemma attempts_inv_audit ev d : attempts_inv d → attempts_inv (append_audit ev d).
Proof. done. Qed.

Lemma keeps_RecordEvent a at_ act rt ri det :
  keeps_inv (RecordEvent (D:=DB) ToLower a at_ act rt ri det).
Proof.
  apply keeps_pres. apply (pres_RecordEvent ToLower (λ d d', attempts_inv d → attempts_inv d')).
  intros ev db. apply attempts_inv_audit.
Qed.

Lemma keeps_ignore {A} (m : M DB A) : keeps_inv m → keeps_inv (_ ← m; mret tt).
Proof. intros H. eapply keeps_bind; [exact H|]. intros; by apply keeps_ret. Qed.

Lemma keeps_audit_if s act id det : keeps_inv (audit_if ToLower s act id det).
Proof.
  unfold audit_if. destruct (js_audit s); [|by apply keeps_ret].
  apply keeps_ignore, keeps_RecordEvent.
Qed.

(** Replacing one row by a bounded one. *)
Lemma attempts_inv_insert d id f :
  attempts_inv d →
  (∀ row, db_jobs d !! id = Some row → job_ID (f row) = id ∧ bounded (f row)) →
  attempts_inv (snd (set_row id f d)).
Proof.
  intros [Hk Hb] Hf. unfold set_row. destruct (db_jobs d !! id) as [row|] eqn:E; [|done].
  destruct (Hf row eq_refl). split; apply map_Forall_insert_2; done.
Qed.

Lemma keeps_UpdateStatus id status msg :
  ¬ startable status → keeps_inv (JobRepository_UpdateStatus id status msg).
Proof.
  intros Hs. unfold JobRepository_UpdateStatus.
  assert (Hstep : ∀ op f, (∀ j, job_ID (f j) = job_ID j ∧ job_Attempts (f j) = job_Attempts j ∧
      job_MaxAttempts (f j) = job_MaxAttempts j ∧ job_Status (f j) = status) →
      keeps_inv (sql_exec op (set_row id f))).
  { intros op f Hf. apply keeps_exec; [|done]. intros d Hd. split; [|done].
    apply attempts_inv_insert; [done|]. intros row Hrow.
    destruct (Hf row) as (E1 & E2 & E3 & E4), Hd as [Hk Hb]. specialize (Hb _ _ Hrow) as [Hb1 _].
    rewrite E1, (Hk _ _ Hrow). unfold bounded. rewrite E2, E3, E4. split; [done|]. split; [lia|done]. }
  destruct (terminal_status status); [apply keeps_now; intros t|]; by apply Hstep.
Qed.

(** The row an approval releases had not used up its attempts. *)
Lemma keeps_reset id msg d :
  attempts_inv d → (∀ row, db_jobs d !! id = Some row → startable (job_Status row)) →
  attempts_inv (snd (set_row id (job_with JobStatusPending msg) d)).
Proof.
  intros Hd Hrow. apply attempts_inv_insert; [done|]. intros row E.
  destruct Hd as [Hk Hb]. destruct (Hb _ _ E) as [Hb1 Hb2]. specialize (Hrow _ E).
  split; [exact (Hk _ _ E)|]. split; [done|]. intros _. by apply Hb2.
Qed.

Lemma bounded_fail msg j : bounded j → bounded (job_with JobStatusFailed msg j).
Proof. intros [H _]. split; [done|]. by intros [|]. Qed.

Lemma keeps_Update j : bounded j → keeps_inv (JobRepository_Update j).
Proof.
  intros Hj. apply keeps_exec; [|done]. intros d [Hk Hb]. split; [|done].
  destruct (db_jobs d !! job_ID j) as [row|] eqn:E; [|done].
  destruct (job_fk_ok d j); [|done].
  split; apply map_Forall_insert_2; try done. exact (Hk _ _ E).
Qed.

Lemma select_jobs_bounded p (ord : relation Job) `{!RelDecision ord} jobs :
  map_Forall (λ _ j, bounded j) jobs → Forall bounded (select_jobs p ord jobs).
Proof.
  intros Hb. apply Forall_forall. intros j (row & -> & Hin)%list_elem_of_fmap.
  rewrite (merge_sort_Permutation ord), list_elem_of_filter, elem_of_rows in Hin.
  destruct Hin as [_ [k Hk]]. apply (Hb _ _ Hk).
Qed.

Lemma keeps_select op p (ord : relation Job) `{!RelDecision ord} :
  keeps attempts_inv (sql_query op (λ d, select_jobs (p d) ord (db_jobs d)))
    (λ r, match r with Ok l => Forall bounded l | Err _ => True end).
Proof. apply keeps_query; [|done]. intros d [_ Hb]. by apply select_jobs_bounded. Qed.
End attempts.

Lemma bounded_start t j : bounded j → startable (job_Status j) → bounded (job_start t j).
Proof. intros [H1 H2] Hs. specialize (H2 Hs). split; cbn; [lia|]. by intros [|]. Qed.

Lemma attempts_inv_start t ids d :
  attempts_inv d →
  (∀ id row, id ∈ ids → db_jobs d !! id = Some row → startable (job_Status row)) →
  attempts_inv (set_jobs (start_rows t ids) d).
Proof.
  intros [Hk Hb] Hs. split; intros id j; cbn; rewrite start_rows_lookup;
    destruct (db_jobs d !! id) as [row|] eqn:E; cbn; intros [= <-].
  - case_bool_decide; exact (Hk _ _ E).
  - case_bool_decide; [|exact (Hb _ _ E)]. apply bounded_start; [exact (Hb _ _ E)|by eapply Hs].
Qed.

Lemma Get_spec id w :
  let '(r, w') := JobRepository_Get id w in
  w_db w' = w_db w ∧
  match r with
  | Ok j => ∃ row, db_jobs (w_db w) !! id = Some row ∧ j = scanJob row
  | Err e => errors_Is e repo_ErrNotFound = false
  end.
Proof.
  unfold JobRepository_Get. mrun. destruct (env_faults (w_env w)) as [|[| |] fs]; cbn;
    try (split; [done|by vm_compute]); destruct (db_jobs (w_db w) !! id) as [row|] eqn:E;
    try (split; [done|by vm_compute]); split; [done| |done|]; by exists row.
Qed.

(** An operation that writes nothing: [pres (=)]. *)
Lemma readonly_checkNotSelf ToLower s job actor : pres (=) (checkNotSelf ToLower s job actor).
Proof. unfold checkNotSelf. solve_pres. Qed.

Lemma agent_claim_spec agentID w :
  let '(r, w') := JobRepository_ClaimPendingByAgentID agentID w in
  w_db w' = w_db w ∨
  ∃ t jobs, w_db w' = set_jobs (start_rows t (map job_ID jobs)) (w_db w) ∧
    ∀ j, j ∈ jobs → j ∈ rows (db_jobs (w_db w)) ∧ job_Status j = JobStatusPending.
Proof.
  assert (Hsel : ∀ p j, (∀ j, p j = true → job_Status j = JobStatusPending) →
    j ∈ merge_sort (asc job_CreatedAt) (filter (λ j, p j = true) (rows (db_jobs (w_db w)))) →
    j ∈ rows (db_jobs (w_db w)) ∧ job_Status j = JobStatusPending).
  { intros p j Hp. rewrite (merge_sort_Permutation (asc job_CreatedAt)), list_elem_of_filter.
    intros [H1 H2]. split; [done|by apply Hp]. }
  assert (H1 : ∀ j, agent_direct agentID j = true → job_Status j = JobStatusPending).
  { intros j. unfold agent_direct. rewrite !andb_true_iff, !bool_decide_eq_true. naive_solver. }
  assert (H2 : ∀ j, agent_fallback (w_db w) agentID j = true → job_Status j = JobStatusPending).
  { intros j. unfold agent_fallback. rewrite !andb_true_iff, !bool_decide_eq_true. naive_solver. }
  set (direct := merge_sort (asc job_CreatedAt)
         (filter (λ j, agent_direct agentID j = true) (rows (db_jobs (w_db w))))).
  set (fallback := merge_sort (asc job_CreatedAt)
         (filter (λ j, agent_fallback (w_db w) agentID j = true) (rows (db_jobs (w_db w))))).
  assert (Hall : ∀ j, j ∈ direct ++ fallback →
    j ∈ rows (db_jobs (w_db w)) ∧ job_Status j = JobStatusPending).
  { intros j [Hj|Hj]%elem_of_app; [by apply (Hsel _ _ H1)|by apply (Hsel _ _ H2)]. }
  clear Hsel H1 H2.
  unfold JobRepository_ClaimPendingByAgentID, tx_stmt. mrun.
  repeat (case_match; simplify_eq/=; try (left; done)).
  all: right; eexists _, (direct ++ fallback); (split; [|exact Hall]).
  all: unfold direct, fallback in *; try match goal with H : _ ++ _ = _ |- _ => rewrite H end.
  all: reflexivity.
Qed.

Section attempts_ops.
Variable ToLower : string → string.
Variable duration_string : Z → string.
Variable sv : JobService.
Notation keeps_inv m := (keeps attempts_inv m (λ _, True)).

Lemma attempts_create j : job_Attempts j = 0 → keeps_inv (JobRepository_Create j).
Proof.
  intros Hj. apply keeps_exec; [|done]. intros d [Hk Hb]. split; [|done].
  destruct (db_jobs d !! job_ID j) eqn:E; [done|]. destruct (job_fk_ok d j); [|done].
  split; apply map_Forall_insert_2; try done. split; cbn; [lia|by left].
Qed.

Lemma attempts_claim ty lim : keeps_inv (JobRepository_ClaimPendingJobs ty lim).
Proof.
  intros w [Hk Hb]. pose proof (claim_pending_jobs_spec ty lim w Hk) as H.
  destruct (JobRepository_ClaimPendingJobs ty lim w) as [r w']; cbn.
  destruct H as [[_ ->]|(batch & [Hbatch [t ->]] & _)]; [done|split; [|done]].
  apply attempts_inv_start; [done|]. intros id row (j & -> & Hj)%list_elem_of_fmap Hrow.
  destruct (cb_claimable _ _ _ _ _ _ Hbatch j Hj) as (H1 & H2 & _). simplify_eq.
  left. unfold claimable in H2. rewrite !andb_true_iff, bool_decide_eq_true in H2. naive_solver.
Qed.

Lemma attempts_agent_claim a : keeps_inv (JobRepository_ClaimPendingByAgentID a).
Proof.
  intros w [Hk Hb]. pose proof (agent_claim_spec a w) as H.
  destruct (JobRepository_ClaimPendingByAgentID a w) as [r w']; cbn.
  destruct H as [->|(t & jobs & -> & Hj)]; [done|split; [|done]].
  apply attempts_inv_start; [done|]. intros id row (j & -> & Hin)%list_elem_of_fmap Hrow.
  destruct (Hj j Hin) as [H1 H2]. apply (rows_lookup _ _ Hk) in H1. simplify_eq. by left.
Qed.

Lemma attempts_retry n : keeps_inv (RetryFailedJobs ToLower sv n).
Proof.
  intros w [Hk Hb]. split; [|done].
  pose proof (λ id, proj2 (retry_failed_jobs_spec ToLower sv n w id Hk)) as H.
  split; intros id j Hj; specialize (H id); rewrite Hj in H;
    destruct H as [Hu|(row & E & _ & Ha & _ & [= ->])].
  - symmetry in Hu. exact (Hk _ _ Hu).
  - exact (Hk _ _ E).
  - symmetry in Hu. exact (Hb _ _ Hu).
  - destruct (Hb _ _ E) as [H1 _]. split; [done|]. by right.
Qed.

Lemma attempts_reap_offline ttl :
  keeps_inv (ReapJobsWithOfflineAgents ToLower duration_string sv ttl).
Proof.
  unfold ReapJobsWithOfflineAgents. destruct (ttl <=? 0); [by apply keeps_ret|].
  apply keeps_now. intros t. eapply keeps_bind; [apply keeps_select|].
  intros [l|e] Hl; [|by apply keeps_ret]. cbv zeta.
  eapply keeps_bind; [apply keeps_for_each|by intros; apply keeps_ret].
  intros j Hj. rewrite Forall_forall in Hl. unfold reap_offline_one. cbv zeta.
  eapply keeps_bind; [apply keeps_Update, bounded_fail; by apply Hl|].
  intros [?|?] _; [apply keeps_audit_if|by apply keeps_ret].
Qed.

Lemma attempts_reap_timed_out a b :
  keeps_inv (ReapTimedOutJobs ToLower duration_string sv a b).
Proof.
  apply keeps_now. intros t. eapply keeps_bind; [apply keeps_select|].
  intros [l|e] Hl; [|by apply keeps_ret].
  eapply keeps_bind; [apply keeps_for_each|by intros; apply keeps_ret].
  intros j Hj. rewrite Forall_forall in Hl. unfold reap_timed_out_one. cbv zeta.
  repeat case_bool_decide; [| |by apply keeps_ret];
    (eapply keeps_bind; [apply keeps_Update, bounded_fail; by apply Hl|];
     intros [?|?] _; [|by apply keeps_ret]; destruct (js_audit sv);
     [apply keeps_now; intros; apply keeps_audit_if|by apply keeps_ret]).
Qed.

(** A read of the job, then something that keeps the invariant. *)
Lemma keeps_Get_bind {B} id (f : res Job → M DB B) :
  (∀ w r, attempts_inv (w_db w) →
     match r with
     | Ok j => ∃ row, db_jobs (w_db w) !! id = Some row ∧ j = scanJob row
     | Err e => errors_Is e repo_ErrNotFound = false
     end → attempts_inv (w_db (f r w).2)) →
  keeps_inv (JobRepository_Get id ≫= f).
Proof.
  intros Hf w HI. split; [|done]. unfold mbind, M_bind. pose proof (Get_spec id w) as H.
  destruct (JobRepository_Get id w) as [r w']. destruct H as [E Hr].
  apply Hf; [by rewrite E|]. by rewrite E.
Qed.

Lemma attempts_approve id actor : keeps_inv (ApproveJob ToLower sv id actor).
Proof.
  apply keeps_Get_bind. intros w [job|e] HI Hr; [|done]. destruct Hr as (row & Hrow & ->).
  case_bool_decide as Hs; cbn [negb]; [|done].
  unfold mbind, M_bind. pose proof (readonly_checkNotSelf ToLower sv (scanJob row) actor w) as Hro.
  destruct (checkNotSelf ToLower sv (scanJob row) actor w) as [[u|e] w1]; cbn in Hro;
    [|change (attempts_inv (w_db w1)); by rewrite <- Hro].
  rewrite Hro in *.
  assert (K : attempts_inv (w_db (JobRepository_UpdateStatus id JobStatusPending "" w1).2)).
  { unfold JobRepository_UpdateStatus. rewrite bool_decide_eq_true_2 by done.
    change (terminal_status JobStatusPending) with false. cbv iota.
    assert (Hnew : attempts_inv (snd (set_row id (job_with JobStatusPending None) (w_db w1)))).
    { apply keeps_reset; [done|]. intros row' H. simplify_eq. by right. }
    destruct (sql_exec_cases "failed to update job status"
      (set_row id (job_with JobStatusPending None)) w1) as [-> | ->]; done. }
  destruct (JobRepository_UpdateStatus id JobStatusPending "" w1) as [[?|?] w2]; exact K.
Qed.

Lemma run_op_keeps op : op_ok op → keeps_inv (run_op ToLower duration_string sv op).
Proof.
  destruct op as [j|ty lim|a|n|ttl|a b|id|id actor|id reason actor|a id st msg]; cbn;
    intros Hok; apply keeps_ignore.
  - by apply attempts_create.
  - apply attempts_claim.
  - unfold GetPendingWork. eapply keeps_bind.
    + apply keeps_pres. unfold AgentRepository_Get. solve_pres.
    + intros [?|?] _; [apply attempts_agent_claim|by apply keeps_ret].
  - apply attempts_retry.
  - apply attempts_reap_offline.
  - apply attempts_reap_timed_out.
  - apply keeps_Get_bind. intros w [job|e] HI _; [|done]. case_match; [done|].
    unfold mbind, M_bind.
    destruct (keeps_UpdateStatus id JobStatusCancelled "cancelled by user" ltac:(by intros [|]) w HI)
      as [K _]. by destruct (JobRepository_UpdateStatus _ _ _ w) as [[?|?] ?].
  - apply attempts_approve.
  - apply keeps_Get_bind. intros w [job|e] HI _; [|done]. case_match; [done|]. cbv zeta.
    unfold mbind, M_bind.
    match goal with |- context [JobRepository_UpdateStatus _ _ ?m w] =>
      destruct (keeps_UpdateStatus id JobStatusCancelled m ltac:(by intros [|]) w HI) as [K _];
      by destruct (JobRepository_UpdateStatus id JobStatusCancelled m w) as [[?|?] ?] end.
  - apply keeps_Get_bind. intros w [job|e] HI _; [|done]. unfold mbind, M_bind.
    destruct (keeps_UpdateStatus id st msg Hok w HI) as [K _].
    destruct (JobRepository_UpdateStatus id st msg w) as [[?|?] w1]; cbn in *; [|done].
    match goal with |- context [RecordEvent ?T ?a ?b ?c ?d ?e ?f w1] =>
      destruct (keeps_RecordEvent T a b c d e f w1 K) as [K' _];
      by destruct (RecordEvent T a b c d e f w1) end.
Qed.
End attempts_ops.

(** no job is attempted more often than its budget allows.  Over any
    sequence of job creation, scheduler claims, agent polls, retry and reaper sweeps,
    cancellations, approvals, rejections and (non-restarting) agent reports, with any
    failures in between, every job keeps its attempts between 0 and the larger of 1 and its
    MaxAttempts, and a job that may be started again still has an attempt left. *)
Theorem attempts_bounded ToLower duration_string sv ops w :
  Forall op_ok ops → attempts_inv (w_db w) →
  let w' := (for_each ops (run_op ToLower duration_string sv) w).2 in
  map_Forall (λ _ j, 0 ≤ job_Attempts j ≤ Z.max 1 (job_MaxAttempts j) ∧
    (job_Status j = JobStatusPending → job_Attempts j = 0 ∨ job_Attempts j < job_MaxAttempts j))
    (db_jobs (w_db w')).
Proof.
  intros Hops HI w'.
  destruct (keeps_for_each attempts_inv ops (run_op ToLower duration_string sv)
    (λ op Hop, run_op_keeps ToLower duration_string sv op (proj1 (Forall_forall _ _) Hops op Hop)) w HI)
    as [[_ Hb] _].
  intros id j Hj. destruct (Hb _ _ Hj) as [H1 H2]. split; [done|]. intros Hs. apply H2. by left.
Qed.

Lemma attempts_bounded_witness :
  let w := sample_world sample_jobs in
  let ops := [OpClaim "" 1; OpReport "agent-1" "j-2" JobStatusFailed "boom"; OpRetry 3] in
  let w' := (for_each ops (run_op lower_ascii (λ _, "") (mkJobService 1 1 true true true)) w).2 in
  map_Forall (λ _ j, 0 ≤ job_Attempts j ≤ Z.max 1 (job_MaxAttempts j) ∧
    (job_Status j = JobStatusPending → job_Attempts j = 0 ∨ job_Attempts j < job_MaxAttempts j))
    (db_jobs (w_db w')).
Proof.
  apply (attempts_bounded lower_ascii (λ _, "") (mkJobService 1 1 true true true)
    [OpClaim "" 1; OpReport "agent-1" "j-2" JobStatusFailed "boom"; OpRetry 3]
    (sample_world sample_jobs)).
  - repeat constructor. by intros [|].
  - split; [exact sample_jobs_keyed|]. intros id j Hj.
    assert (H : map_Forall (λ _ j, job_Attempts j = 0) sample_jobs)
      by (apply (bool_decide_unpack _); vm_compute; exact I).
    specialize (H _ _ Hj). cbn in H. split; [lia|by left].
Defined.

(** ** The job route of approval *)

(** The owner [checkNotSelf] resolves for a job. *)
Definition job_owner (d : DB) (j : Job) : option Owner :=
  if bool_decide (job_CertificateID j = "") then None
  else match db_certs d !! job_CertificateID j with
       | None => None
       | Some c => if bool_decide (cert_OwnerID c = "") then None else db_owners d !! cert_OwnerID c
       end.

(** The actor is that owner, by name or by email, in any letter case. *)
Definition is_owner (ToLower : string → string) (d : DB) (j : Job) (actor : string) : bool :=
  negb (bool_decide (actor = "")) &&
  match job_owner d j with
  | None => false
  | Some o => bool_decide (ToLower (owner_Name o) = ToLower actor) ||
              bool_decide (ToLower (owner_Email o) = ToLower actor)
  end.

Lemma checkNotSelf_ok ToLower s job actor w :
  env_faults (w_env w) = [] → js_certRepo s = true → js_ownerRepo s = true →
  checkNotSelf ToLower s job actor w =
    ((if is_owner ToLower (w_db w) job actor then Err ErrSelfApproval else Ok tt), w).
Proof.
  intros Hf Hc Ho. unfold checkNotSelf, is_owner, job_owner. rewrite Hc, Ho. cbn [negb orb].
  case_bool_decide; [done|]. case_bool_decide; [done|]. cbn [negb andb].
  unfold CertificateRepository_Get, OwnerRepository_Get. mrun. rewrite Hf. cbn.
  destruct (db_certs (w_db w) !! job_CertificateID job) as [c|]; cbn; [|done].
  case_bool_decide; cbn; [done|]. rewrite Hf. cbn. by destruct (db_owners (w_db w) !! cert_OwnerID c).
Qed.

(** [ApproveJob] releases a job exactly when it should.  With both lookups
    wired and no database failure it succeeds iff the job is AwaitingApproval and the
    named actor is not the certificate's owner (by name or email, ignoring case); a
    success changes only that job, to Pending without error; a refusal changes nothing,
    and a self-approval is reported as such. *)
Theorem approve_job_exact ToLower s id actor w row :
  env_faults (w_env w) = [] → js_certRepo s = true → js_ownerRepo s = true →
  db_jobs (w_db w) !! id = Some row →
  let self := is_owner ToLower (w_db w) row actor in
  let '(r, w') := ApproveJob ToLower s id actor w in
  (is_Ok r = true ↔ job_Status row = JobStatusAwaitingApproval ∧ self = false) ∧
  (job_Status row = JobStatusAwaitingApproval → self = true → r = Err ErrSelfApproval) ∧
  w_db w' = (if is_Ok r then set_jobs (<[id := job_with JobStatusPending None row]>) (w_db w)
             else w_db w).
Proof.
  intros Hf Hc Ho Hrow self. unfold ApproveJob.
  assert (HG : JobRepository_Get id w = (Ok (scanJob row), w)).
  { unfold JobRepository_Get. mrun. rewrite Hf. cbn. by rewrite Hrow. }
  unfold mbind, M_bind. rewrite HG. cbn [job_Status scanJob].
  case_bool_decide as Hs; cbn [negb]; [|naive_solver].
  rewrite checkNotSelf_ok by done. change (is_owner ToLower (w_db w) (scanJob row) actor) with self.
  destruct self; [naive_solver|].
  unfold JobRepository_UpdateStatus. rewrite bool_decide_eq_true_2 by done.
  change (terminal_status JobStatusPending) with false. mrun. rewrite Hf. cbn.
  unfold set_row. rewrite Hrow. naive_solver.
Qed.

Definition approval_world : World DB :=
  mkWorld (mkDB {[ "j-1" := sample_job "j-1" JobTypeRenewal JobStatusAwaitingApproval None 0 ]}
             {[ "ar-1" := mkApproval "ar-1" ApprovalKindCertIssuance "mc-1" "j-1" "cp-1" "bob"
                            ApprovalStatePending None None None [] None 0 0 ]}
             {[ "mc-1" := mkCert "mc-1" "www" "www" [] "o-1" "t-1" "iss" "rp-1" "cp-1" "Active" 0 "" None None "" 0 ]}
             {[ "o-1" := mkOwner "o-1" "Alice" "alice@example.com" ]} ∅ ∅ [] ∅ [])
    (mkEnv (10 ^ 18) [] [] 0%N).

Lemma approve_job_exact_witness :
  (ApproveJob lower_ascii (mkJobService 1 1 true true true) "j-1" "ALICE" approval_world).1 =
    Err ErrSelfApproval.
Proof.
  pose proof (approve_job_exact lower_ascii (mkJobService 1 1 true true true) "j-1" "ALICE"
    approval_world (sample_job "j-1" JobTypeRenewal JobStatusAwaitingApproval None 0)
    eq_refl eq_refl eq_refl eq_refl) as H.
  cbv zeta in H.
  destruct (ApproveJob lower_ascii (mkJobService 1 1 true true true) "j-1" "ALICE" approval_world)
    as [r w'].
  destruct H as (_ & H & _). cbn. apply H; vm_compute; reflexivity.
Defined.

(** A gated job runs without approval.  A job waiting for approval past the
    timeout is failed by [ReapTimedOutJobs] and put into Pending by the next
    [RetryFailedJobs], so the scheduler claims it while its approval request is still
    undecided. *)
Theorem reaper_bypasses_approval :
  let sv := mkJobService 1 1 true true true in
  let hour := 60 * minute in
  let w1 := (ReapTimedOutJobs lower_ascii (λ _, "1h") sv hour hour approval_world).2 in
  let w2 := (RetryFailedJobs lower_ascii sv 3 w1).2 in
  map job_Status (rows (db_jobs (w_db w1))) = [JobStatusFailed] ∧
  map job_ID match (JobRepository_ClaimPendingJobs "" 10 w2).1 with Ok l => l | Err _ => [] end = ["j-1"] ∧
  map ar_State (rows (db_approvals (w_db w2))) = [ApprovalStatePending].
Proof. vm_compute. done. Qed.

(** ** Listing *)
Definition list_jobs_filter (status jobType : string) (d : DB) : list Job :=
  filter (λ job, (status = "" ∨ job_Status job = status) ∧ (jobType = "" ∨ job_Type job = jobType))
    (select_jobs (λ _, true) (desc job_CreatedAt) (db_jobs d)).

Lemma ListJobs_run status jobType page perPage w :
  env_faults (w_env w) = [] → 1 ≤ page → 1 ≤ perPage →
  (ListJobs status jobType page perPage w).1 =
    let filtered := list_jobs_filter status jobType (w_db w) in
    let total := Z.of_nat (length filtered) in
    let start := wrap64 (wrap64 (page - 1) * perPage) in
    if total <=? start then Ok ([], total)
    else
      let end_ := wrap64 (start + perPage) in
      let end_ := if total <? end_ then total else end_ in
      match go_slice filtered start end_ with
      | Some l => Ok (l, total)
      | None => Err panic_slice
      end.
Proof.
  intros Hf Hp Hpp. unfold ListJobs, JobRepository_List.
  replace (page <? 1) with false by lia. replace (perPage <? 1) with false by lia.
  mrun. rewrite Hf. done.
Qed.

(** A page of jobs is the right page.  While [page * perPage] fits into an
    int, [ListJobs] returns exactly the requested page of the newest-first list of
    the jobs that match both filters, with their total number. *)
Theorem list_jobs_page status jobType page perPage w :
  env_faults (w_env w) = [] → 1 ≤ page → 1 ≤ perPage → page * perPage < 2 ^ 63 →
  let filtered := list_jobs_filter status jobType (w_db w) in
  Z.of_nat (length filtered) < 2 ^ 63 →
  (ListJobs status jobType page perPage w).1 =
    Ok (take (Z.to_nat perPage) (drop (Z.to_nat ((page - 1) * perPage)) filtered),
        Z.of_nat (length filtered)).
Proof.
  intros Hf Hp Hpp Hov filtered Hlen. rewrite ListJobs_run by done. fold filtered. cbv zeta.
  rewrite (wrap64_small (page - 1)), (wrap64_small ((page - 1) * perPage)),
    (wrap64_small ((page - 1) * perPage + perPage)) by nia.
  set (start := (page - 1) * perPage). assert (0 ≤ start) by (unfold start; nia).
  set (total := Z.of_nat (length filtered)).
  destruct (total <=? start) eqn:E1.
  - rewrite drop_ge by lia. by rewrite take_nil.
  - unfold go_slice. fold total. destruct (total <? start + perPage) eqn:E2.
    + rewrite (take_ge _ (Z.to_nat perPage)) by (rewrite length_drop; lia).
      replace ((0 <=? start) && (start <=? total) && (total <=? total)) with true by lia.
      rewrite take_ge; [done|rewrite length_drop; lia].
    + replace ((0 <=? start) && (start <=? start + perPage) && (start + perPage <=? total)) with true by lia.
      by replace (start + perPage - start) with perPage by lia.
Qed.

Lemma list_jobs_page_witness :
  map job_ID match (ListJobs JobStatusPending "" 1 2 (sample_world sample_jobs)).1 with
             | Ok (l, _) => l | Err _ => [] end = ["j-1"; "j-2"] ∧
  (ListJobs JobStatusPending "" 2 2 (sample_world sample_jobs)).1 =
    Ok (take 2 (drop 2 (list_jobs_filter JobStatusPending "" (w_db (sample_world sample_jobs)))),
        Z.of_nat (length (list_jobs_filter JobStatusPending "" (w_db (sample_world sample_jobs))))).
Proof.
  split; [vm_compute; reflexivity|].
  apply (list_jobs_page JobStatusPending "" 2 2 (sample_world sample_jobs));
    [reflexivity|lia|lia|lia|vm_compute; reflexivity].
Defined.

(** A huge page number crashes the listing.  When the offset
    [(page-1) * perPage] overflows to a negative int, [ListJobs] slices with a negative
    bound, so the request panics instead of returning an empty page. *)
Theorem list_jobs_overflow_panics status jobType page perPage w :
  env_faults (w_env w) = [] → 1 ≤ page < 2 ^ 63 → 1 ≤ perPage ≤ 500 →
  wrap64 ((page - 1) * perPage) < 0 →
  (ListJobs status jobType page perPage w).1 = Err panic_slice.
Proof.
  intros Hf Hp Hpp Hov. rewrite ListJobs_run; [|done|lia|lia]. cbv zeta.
  rewrite (wrap64_small (page - 1)) by lia. set (start := wrap64 ((page - 1) * perPage)) in *.
  clearbody start.
  destruct (Z.of_nat _ <=? start) eqn:E; [exfalso; apply Z.leb_le in E; lia|]. unfold go_slice.
  replace (0 <=? start) with false by lia. done.
Qed.

Lemma list_jobs_overflow_panics_witness :
  wrap64 ((2 ^ 60 + 1 - 1) * 8) < 0 ∧
  (ListJobs "" "" (2 ^ 60 + 1) 8 (sample_world sample_jobs)).1 = Err panic_slice.
Proof.
  split; [vm_compute; reflexivity|].
  apply (list_jobs_overflow_panics "" "" (2 ^ 60 + 1) 8 (sample_world sample_jobs));
    [reflexivity|lia|lia|vm_compute; reflexivity].
Defined.

(** ** Verification results *)
Definition same_jobs (d d' : DB) : Prop := db_jobs d' = db_jobs d.
#[local] Instance same_jobs_preorder : PreOrder same_jobs.
Proof. split; unfold same_jobs; [by intros d|]. intros d1 d2 d3; congruence. Qed.

(** Deployment verification results are lost.  [RecordVerificationResult]
    leaves every job row as it was, whatever it reports, and [GetVerificationResult]
    never reports a job as verified: neither the UPDATE nor the SELECT of the job
    repository names the verification columns. *)
Theorem verification_result_lost ToLower result w :
  jobs_keyed (db_jobs (w_db w)) →
  db_jobs (w_db (RecordVerificationResult ToLower result w).2) = db_jobs (w_db w) ∧
  ∀ w2 id r, (GetVerificationResult id w2).1 = Ok r →
    vr_Verified r = false ∧ vr_ActualFingerprint r = "" ∧ vr_VerifiedAt r = None ∧ vr_Error r = "".
Proof.
  intros Hk. split.
  - unfold RecordVerificationResult. case_bool_decide; [done|].
    unfold mbind, M_bind. pose proof (Get_spec (vr_JobID result) w) as HG.
    destruct (JobRepository_Get (vr_JobID result) w) as [[job|e] w1], HG as [E Hr];
      [|change (db_jobs (w_db w1) = db_jobs (w_db w)); by rewrite E].
    destruct Hr as (row & Hrow & ->). cbv zeta. rewrite <- E in Hrow, Hk |- *.
    match goal with |- context [JobRepository_Update ?j w1] =>
      assert (HU : db_jobs (w_db (JobRepository_Update j w1).2) = db_jobs (w_db w1)) end.
    { unfold JobRepository_Update. match goal with |- context [sql_exec ?op ?f w1] =>
        destruct (sql_exec_cases op f w1) as [-> | ->] end; [done|].
      cbn [job_ID scanJob]. rewrite (Hk _ _ Hrow), Hrow. destruct (job_fk_ok _ _); [|done].
      cbn. rewrite insert_id; [done|]. rewrite Hrow. by destruct row. }
    destruct (JobRepository_Update _ w1) as [[u|e] w2]; cbn in HU; [|exact HU].
    rewrite <- HU. destruct (if bool_decide _ then _ else _) as [ev det].
    match goal with |- context [RecordEvent ?T ?x1 ?x2 ?x3 ?x4 ?x5 ?x6 w2] =>
      pose proof (pres_RecordEvent T same_jobs x1 x2 x3 x4 x5 x6 (λ _ _, eq_refl) w2) as Hp;
      by destruct (RecordEvent T x1 x2 x3 x4 x5 x6 w2) end.
  - intros w2 id r. unfold GetVerificationResult. case_bool_decide; [done|].
    unfold mbind, M_bind. pose proof (Get_spec id w2) as HG.
    destruct (JobRepository_Get id w2) as [[job|e] w3], HG as [_ HG]; cbn; [|done].
    destruct HG as (row & _ & ->). intros [= <-]. done.
Qed.

Lemma verification_result_lost_witness :
  let vr := mkVerificationResult "j-1" "t-1" "aa" "aa" true (Some 5) "" in
  is_Ok (RecordVerificationResult lower_ascii vr approval_world).1 = true ∧
  db_jobs (w_db (RecordVerificationResult lower_ascii vr approval_world).2) =
    db_jobs (w_db approval_world).
Proof.
  split; [vm_compute; reflexivity|].
  refine (proj1 (verification_result_lost lower_ascii
    (mkVerificationResult "j-1" "t-1" "aa" "aa" true (Some 5) "") approval_world _)).
  apply map_Forall_singleton. reflexivity.
Defined.

(** Looking up a job that does not exist is never reported as "not
    found".  [Get] compares the wrapped scan error with [sql.ErrNoRows] by identity, so
    no error it returns satisfies [errors.Is(err, repository.ErrNotFound)]. *)
Theorem job_get_never_not_found id w e :
  (JobRepository_Get id w).1 = Err e → errors_Is e repo_ErrNotFound = false.
Proof.
  intros He. pose proof (Get_spec id w) as H. destruct (JobRepository_Get id w) as [r w'].
  cbn in He. subst r. by destruct H.
Qed.

Lemma job_get_never_not_found_witness :
  errors_Is (ErrWrap "failed to query job" (ErrWrap "failed to scan job" sql_ErrNoRows))
    repo_ErrNotFound = false.
Proof.
  apply (job_get_never_not_found "j-404" (sample_world sample_jobs)). vm_compute. reflexivity.
Defined.
