(* ===== verification/JobConcurrency.v ===== *)
(** * Concurrent claims and the bounded fan-out (src/internal/repository/postgres/job.go
      ClaimPendingJobs, src/internal/service/job.go boundedFanOut), as step relations. *)

From stdpp Require Import prelude gmap strings list sorting relations.
From Stdlib Require Import ZArith Lia.
From S2P Require Import Prelude AuditTrail Store Jobs JobFacts.
Import JobRepo JobService.

(** ** Several replicas claiming at once *)
Module ClaimRace.

Inductive event :=
  | Claimed (replica : nat) (ids : list string)   (* a claim transaction committed *)
  | Enqueued (id : string).                        (* a row was written as Pending *)

(** [locks]: the row locks of open claim transactions; [held]: what each open
    transaction selected. *)
Record state := mkState {
  st_jobs : gmap string Job;
  st_targets : gmap string DeploymentTarget;
  st_locks : gmap string nat;
  st_held : gmap nat (list Job);
  st_log : list event
}.

Definition unlocked (locks : gmap string nat) (j : Job) : bool :=
  bool_decide (locks !! job_ID j = None).

Definition lock_all (r : nat) (ids : list string) (locks : gmap string nat) : gmap string nat :=
  foldr (λ id, <[id := r]>) locks ids.

Definition release (r : nat) (locks : gmap string nat) : gmap string nat :=
  filter (λ kr, kr.2 ≠ r) locks.

(** [step_select] and [step_commit] are the two halves of [ClaimPendingJobs];
    [step_write] is any other statement on a row, which waits for the row lock. *)
Inductive step : relation state :=
  | step_select s r jobType limit batch :
      st_held s !! r = None →
      batch = claim_select (unlocked (st_locks s)) jobType limit (st_targets s) (st_jobs s) →
      step s (mkState (st_jobs s) (st_targets s) (lock_all r (map job_ID batch) (st_locks s))
                (<[r := batch]> (st_held s)) (st_log s))
  | step_commit s r batch t :
      st_held s !! r = Some batch →
      step s (mkState (start_rows t (map job_ID batch) (st_jobs s)) (st_targets s)
                (release r (st_locks s)) (delete r (st_held s))
                (st_log s ++ [Claimed r (map job_ID batch)]))
  | step_rollback s r :
      step s (mkState (st_jobs s) (st_targets s) (release r (st_locks s)) (delete r (st_held s))
                (st_log s))
  | step_write s j :
      st_locks s !! job_ID j = None →
      step s (mkState (<[job_ID j := j]> (st_jobs s)) (st_targets s) (st_locks s) (st_held s)
                (st_log s ++ (if bool_decide (job_Status j = JobStatusPending)
                              then [Enqueued (job_ID j)] else [])))
  | step_delete s id :
      st_locks s !! id = None →
      step s (mkState (delete id (st_jobs s)) (st_targets s) (st_locks s) (st_held s) (st_log s)).

Definition initial (jobs : gmap string Job) (targets : gmap string DeploymentTarget) : state :=
  mkState jobs targets ∅ ∅ [].

Fixpoint claims (id : string) (log : list event) : nat :=
  match log with
  | [] => 0
  | Claimed _ ids :: l => (if bool_decide (id ∈ ids) then 1 else 0) + claims id l
  | Enqueued _ :: l => claims id l
  end.

Fixpoint enqueues (id : string) (log : list event) : nat :=
  match log with
  | [] => 0
  | Claimed _ _ :: l => enqueues id l
  | Enqueued id' :: l => (if bool_decide (id' = id) then 1 else 0) + enqueues id l
  end.

Definition pending (id : string) (jobs : gmap string Job) : nat :=
  match jobs !! id with
  | Some j => if bool_decide (job_Status j = JobStatusPending) then 1 else 0
  | None => 0
  end.

Lemma claims_app id l1 l2 : claims id (l1 ++ l2) = (claims id l1 + claims id l2)%nat.
Proof. induction l1 as [|[] l1 IH]; cbn; lia. Qed.
Lemma enqueues_app id l1 l2 : enqueues id (l1 ++ l2) = (enqueues id l1 + enqueues id l2)%nat.
Proof. induction l1 as [|[] l1 IH]; cbn; lia. Qed.

Lemma lock_all_lookup r ids locks id :
  lock_all r ids locks !! id = if bool_decide (id ∈ ids) then Some r else locks !! id.
Proof.
  induction ids as [|x ids IH]; cbn; [by rewrite bool_decide_eq_false_2 by apply not_elem_of_nil|].
  destruct (decide (x = id)) as [->|Hne].
  - rewrite lookup_insert_eq, bool_decide_eq_true_2; [done|left].
  - rewrite lookup_insert_ne by done. change (foldr _ _ _) with (lock_all r ids locks).
    rewrite IH. rewrite (bool_decide_ext (id ∈ x :: ids) (id ∈ ids)); [done|].
    rewrite elem_of_cons. naive_solver.
Qed.

Lemma release_lookup r locks id :
  release r locks !! id = Some r → False.
Proof. unfold release. rewrite map_lookup_filter_Some. naive_solver. Qed.

Lemma release_lookup_ne r r' locks id :
  r' ≠ r → locks !! id = Some r' → release r locks !! id = Some r'.
Proof. unfold release. rewrite map_lookup_filter_Some. naive_solver. Qed.

(** What every reachable state satisfies: an open transaction holds the lock
    of each row it selected, and that row is still the Pending row it read. *)
Record inv (jobs0 : gmap string Job) (s : state) : Prop := {
  inv_keyed : jobs_keyed (st_jobs s);
  inv_held r batch : st_held s !! r = Some batch →
    NoDup (map job_ID batch) ∧
    ∀ j, j ∈ batch → st_locks s !! job_ID j = Some r ∧ st_jobs s !! job_ID j = Some j ∧
           job_Status j = JobStatusPending;
  inv_count id : (claims id (st_log s) + pending id (st_jobs s) ≤
                  enqueues id (st_log s) + pending id jobs0)%nat
}.

Lemma claimable_pending targets ty j : claimable targets ty j = true → job_Status j = JobStatusPending.
Proof. unfold claimable. rewrite !andb_true_iff, bool_decide_eq_true. naive_solver. Qed.

Lemma inv_select jobs0 s r jobType limit batch :
  st_held s !! r = None →
  batch = claim_select (unlocked (st_locks s)) jobType limit (st_targets s) (st_jobs s) →
  inv jobs0 s →
  inv jobs0 (mkState (st_jobs s) (st_targets s) (lock_all r (map job_ID batch) (st_locks s))
               (<[r := batch]> (st_held s)) (st_log s)).
Proof.
  intros Hr -> [Hk Hh Hc]. set (batch := claim_select _ _ _ _ _).
  pose proof (claim_select_spec (unlocked (st_locks s)) (st_targets s) jobType limit _ Hk) as Hb.
  fold batch in Hb. constructor; cbn; [done| |done].
  intros r' b Hb'. destruct (decide (r' = r)) as [->|Hne].
  - rewrite lookup_insert_eq in Hb'. simplify_eq. split; [apply Hb|]. intros j Hj.
    destruct (cb_claimable _ _ _ _ _ _ Hb j Hj) as (H1 & H2 & _).
    rewrite lock_all_lookup, bool_decide_eq_true_2 by (by apply list_elem_of_fmap_2).
    split_and!; [done..|]. by eapply claimable_pending.
  - rewrite lookup_insert_ne in Hb' by done. destruct (Hh _ _ Hb') as [Hn Hj]. split; [done|].
    intros j Hin. destruct (Hj j Hin) as (H1 & H2 & H3). split_and!; [|done..].
    rewrite lock_all_lookup, bool_decide_eq_false_2; [done|].
    intros (j' & Hid & Hj')%list_elem_of_fmap.
    destruct (cb_claimable _ _ _ _ _ _ Hb j' Hj') as (_ & _ & Hun).
    apply bool_decide_eq_true in Hun. rewrite <- Hid in Hun. by rewrite H1 in Hun.
Qed.

Lemma inv_commit jobs0 s r batch t :
  st_held s !! r = Some batch → inv jobs0 s →
  inv jobs0 (mkState (start_rows t (map job_ID batch) (st_jobs s)) (st_targets s)
               (release r (st_locks s)) (delete r (st_held s))
               (st_log s ++ [Claimed r (map job_ID batch)])).
Proof.
  intros Hr [Hk Hh Hc]. destruct (Hh _ _ Hr) as [Hn Hj]. constructor; cbn.
  - intros id j. rewrite start_rows_lookup. destruct (st_jobs s !! id) as [j0|] eqn:E; [|done].
    intros [= <-]. case_bool_decide; cbn; by apply Hk.
  - intros r' b Hb'. apply lookup_delete_Some in Hb' as [Hne Hb'].
    destruct (Hh _ _ Hb') as [Hn' Hj']. split; [done|]. intros j Hin.
    destruct (Hj' j Hin) as (H1 & H2 & H3). split_and!; [by apply release_lookup_ne| |done].
    rewrite start_rows_lookup, H2, bool_decide_eq_false_2; [done|].
    intros (j' & Hid & Hin')%list_elem_of_fmap. destruct (Hj j' Hin') as (H4 & _).
    rewrite <- Hid in H4. congruence.
  - intros id. rewrite claims_app, enqueues_app; cbn. specialize (Hc id).
    unfold pending in *. rewrite start_rows_lookup. case_bool_decide as Hin.
    + apply list_elem_of_fmap in Hin as (j & -> & Hin). destruct (Hj j Hin) as (_ & H2 & H3).
      rewrite H2 in *. cbn. rewrite H3 in Hc.
      rewrite bool_decide_eq_true_2 in Hc by done.
      rewrite bool_decide_eq_false_2 by done. lia.
    + destruct (st_jobs s !! id); cbn; lia.
Qed.

Lemma inv_step jobs0 s s' : step s s' → inv jobs0 s → inv jobs0 s'.
Proof.
  destruct 1 as [s r ty lim batch Hr Hb|s r batch t Hr|s r|s j Hl|s id Hl]; intros Hinv.
  - by eapply inv_select.
  - by apply inv_commit.
  - destruct Hinv as [Hk Hh Hc]. constructor; cbn; [done| |done].
    intros r' b Hb'. apply lookup_delete_Some in Hb' as [Hne Hb'].
    destruct (Hh _ _ Hb') as [Hn' Hj']. split; [done|]. intros j Hin.
    destruct (Hj' j Hin) as (H1 & H2 & H3). split_and!; [by apply release_lookup_ne|done..].
  - destruct Hinv as [Hk Hh Hc]. constructor; cbn.
    + intros id j'. destruct (decide (job_ID j = id)) as [<-|Hne].
      * rewrite lookup_insert_eq. congruence.
      * rewrite lookup_insert_ne by done. apply Hk.
    + intros r b Hb. destruct (Hh _ _ Hb) as [Hn Hj]. split; [done|]. intros j' Hin.
      destruct (Hj j' Hin) as (H1 & H2 & H3). split_and!; [done| |done].
      rewrite lookup_insert_ne; [done|]. congruence.
    + intros id. rewrite claims_app, enqueues_app. specialize (Hc id). unfold pending in *.
      destruct (decide (job_ID j = id)) as [->|Hne].
      * rewrite lookup_insert_eq. case_bool_decide; cbn;
          rewrite ?bool_decide_eq_true_2 by done; lia.
      * rewrite lookup_insert_ne by done. case_bool_decide; cbn;
          rewrite ?bool_decide_eq_false_2 by done; lia.
  - destruct Hinv as [Hk Hh Hc]. constructor; cbn.
    + by apply map_Forall_delete.
    + intros r b Hb. destruct (Hh _ _ Hb) as [Hn Hj]. split; [done|]. intros j' Hin.
      destruct (Hj j' Hin) as (H1 & H2 & H3). split_and!; [done| |done].
      rewrite lookup_delete_ne; [done|]. congruence.
    + intros id'. specialize (Hc id'). unfold pending in *.
      destruct (decide (id' = id)) as [->|Hne];
        [rewrite lookup_delete_eq; lia|by rewrite lookup_delete_ne].
Qed.

Lemma inv_reachable jobs targets s :
  jobs_keyed jobs → rtc step (initial jobs targets) s → inv jobs s.
Proof.
  intros Hk. eapply rtc_ind_r; [|intros; by eapply inv_step].
  constructor; cbn; [done|by intros r b; rewrite lookup_empty|done].
Qed.
End ClaimRace.

Import ClaimRace.

(** C18: concurrent scheduler replicas never take the same job.  In every
    interleaving of claim transactions with each other and with other writers, the
    batches of two open claims have no job in common, and a job is claimed at most
    once per time it was put into Pending (counting its initial state). *)
Theorem claims_exclusive jobs targets s :
  jobs_keyed jobs → rtc step (initial jobs targets) s →
  (∀ r1 r2 b1 b2 j1 j2, r1 ≠ r2 → st_held s !! r1 = Some b1 → st_held s !! r2 = Some b2 →
     j1 ∈ b1 → j2 ∈ b2 → job_ID j1 ≠ job_ID j2) ∧
  ∀ id, (claims id (st_log s) ≤ enqueues id (st_log s) + pending id jobs)%nat.
Proof.
  intros Hk Hs. destruct (inv_reachable _ _ _ Hk Hs) as [_ Hh Hc]. split.
  - intros r1 r2 b1 b2 j1 j2 Hne H1 H2 Hj1 Hj2 Heq.
    destruct (Hh _ _ H1) as [_ Ha]. destruct (Hh _ _ H2) as [_ Hb].
    destruct (Ha _ Hj1) as [L1 _], (Hb _ Hj2) as [L2 _]. congruence.
  - intros id. specialize (Hc id). lia.
Qed.

(** Replica 1 selects one job, replica 2 then selects the next; both commit. *)
Definition race_end : state :=
  let s0 := initial sample_jobs ∅ in
  let b1 := claim_select (unlocked (st_locks s0)) "" 1 ∅ sample_jobs in
  let l1 := lock_all 1 (map job_ID b1) ∅ in
  let b2 := claim_select (unlocked l1) "" 5 ∅ sample_jobs in
  mkState sample_jobs ∅ (lock_all 2 (map job_ID b2) l1) (<[2%nat := b2]> (<[1%nat := b1]> ∅)) [].

Lemma claims_exclusive_witness :
  map job_ID <$> st_held race_end !! 1%nat = Some ["j-2"] ∧
  map job_ID <$> st_held race_end !! 2%nat = Some ["j-1"] ∧
  (claims "j-1" (st_log race_end) ≤ enqueues "j-1" (st_log race_end) + pending "j-1" sample_jobs)%nat.
Proof.
  split; [vm_compute; reflexivity|]. split; [vm_compute; reflexivity|].
  refine (proj2 (claims_exclusive sample_jobs ∅ race_end sample_jobs_keyed _) "j-1").
  eapply rtc_l; [exact (step_select (initial sample_jobs ∅) 1 "" 1 _ eq_refl eq_refl)|].
  apply rtc_once. refine (step_select (mkState _ _ _ _ _) 2 "" 5 _ _ eq_refl).
  vm_compute. reflexivity.
Defined.

(** ** boundedFanOut *)
Module FanOut.

(** [todo]: what the loop has still to range over; [running]: goroutines between
    [sem.Acquire] and [sem.Release]; [finished]: their results ([true]: no error). *)
Record fan := mkFan {
  fo_todo : list Job;
  fo_running : list Job;
  fo_finished : list (Job * bool);
  fo_cancelled : bool;    (* the context is done *)
  fo_stopped : bool       (* the loop left by its break *)
}.

Section fanout.
Variable capN : nat.

(** [fan_skip], [fan_dispatch] and [fan_break] are the dispatch loop's own steps; [fan_finish] is
    the return of a job's work, which is not the loop's doing, and [fan_cancel] the end of the
    context, which comes from outside. *)
Inductive fan_step : relation fan :=
  | fan_skip j l run fin c b :
      shouldSkipJob j = true →
      fan_step (mkFan (j :: l) run fin c b) (mkFan l run fin c b)
  | fan_dispatch j l run fin c b :
      shouldSkipJob j = false → (length run < capN)%nat →
      fan_step (mkFan (j :: l) run fin c b) (mkFan l (j :: run) fin c b)
  | fan_break j l run fin b :
      shouldSkipJob j = false →
      fan_step (mkFan (j :: l) run fin true b) (mkFan [] run fin true true)
  | fan_finish l run1 j run2 fin c b ok :
      fan_step (mkFan l (run1 ++ j :: run2) fin c b) (mkFan l (run1 ++ run2) (fin ++ [(j, ok)]) c b)
  | fan_cancel l run fin b :
      fan_step (mkFan l run fin false b) (mkFan l run fin true b).

Definition fan_start (pendingJobs : list Job) : fan := mkFan pendingJobs [] [] false false.

(** [wg.Wait] returns and the loop is over. *)
Definition fan_done (s : fan) : Prop := fo_todo s = [] ∧ fo_running s = [].

Definition wanted (j : Job) : Prop := shouldSkipJob j = false.
#[global] Instance wanted_dec j : Decision (wanted j).
Proof. unfold wanted. apply _. Defined.

Record fan_inv (jobs : list Job) (s : fan) : Prop := {
  fi_cap : (length (fo_running s) ≤ capN)%nat;
  fi_once : ∃ dropped, (fo_stopped s = false → dropped = []) ∧
    filter wanted jobs ≡ₚ map fst (fo_finished s) ++ fo_running s ++ filter wanted (fo_todo s) ++ dropped;
  fi_stop : fo_stopped s = true → fo_cancelled s = true
}.

Lemma fan_inv_start jobs : fan_inv jobs (fan_start jobs).
Proof. constructor; cbn; [lia| |done]. exists []. split; [done|]. by rewrite app_nil_r. Qed.

Lemma fan_inv_step jobs s s' : fan_step s s' → fan_inv jobs s → fan_inv jobs s'.
Proof.
  destruct 1 as [j l run fin c b Hj|j l run fin c b Hj Hc|j l run fin b Hj
                |l r1 j r2 fin c b ok|l run fin b]; intros [Hcap (dr & Hdr & HP) Hst];
    cbn [fo_todo fo_running fo_finished fo_cancelled fo_stopped] in *;
    constructor; cbn [fo_todo fo_running fo_finished fo_cancelled fo_stopped].
  all: try done.
  - exists dr. split; [done|].
    rewrite filter_cons_False in HP by (unfold wanted; by rewrite Hj). done.
  - exists dr. split; [done|].
    rewrite filter_cons_True in HP by done. rewrite HP.
    apply Permutation_app_head. symmetry. apply Permutation_middle.
  - exists (filter wanted (j :: l) ++ dr). split; [done|]. by rewrite HP.
  - rewrite length_app in *; cbn in *; lia.
  - exists dr. split; [done|]. rewrite HP, map_app. cbn.
    rewrite <- !app_assoc. apply Permutation_app_head. cbn. symmetry. apply Permutation_middle.
  - by exists dr.
Qed.

Lemma fan_inv_reachable jobs s : rtc fan_step (fan_start jobs) s → fan_inv jobs s.
Proof. eapply rtc_ind_r; [apply fan_inv_start|intros; by eapply fan_inv_step]. Qed.

Lemma fan_inv_all_run jobs s : fan_inv jobs s → fan_done s → fo_cancelled s = false →
  map fst (fo_finished s) ≡ₚ filter wanted jobs.
Proof.
  intros [_ (dr & Hdr & HP) Hst] [Ht Hr] Hc. rewrite Ht, Hr in HP. cbn in HP.
  rewrite Hdr, app_nil_r in HP by (destruct (fo_stopped s); [by rewrite Hst in Hc|done]). done.
Qed.

(** Each step uses up work. *)
Definition fan_measure (s : fan) : nat :=
  2 * length (fo_todo s) + length (fo_running s) + (if fo_cancelled s then 0 else 1).

Lemma fan_measure_step s s' : fan_step s s' → (fan_measure s' < fan_measure s)%nat.
Proof. destruct 1; unfold fan_measure; cbn; rewrite ?length_app; cbn; lia. Qed.

Lemma fan_steps_bounded k s s' : nsteps fan_step k s s' → (k + fan_measure s' ≤ fan_measure s)%nat.
Proof. induction 1 as [s|k s s1 s2 H _ IH]; [done|]. apply fan_measure_step in H. lia. Qed.

(** The dispatch loop moves: no job returns and the context stays as it is. *)
Definition loop_moves (s s' : fan) : Prop :=
  fan_step s s' ∧ fo_finished s' = fo_finished s ∧ fo_cancelled s' = fo_cancelled s.

(** Nothing is left to happen but cancellation. *)
Definition fan_rest (s : fan) : Prop := ∀ s', fan_step s s' → fo_cancelled s = false ∧ fo_cancelled s' = true.

(** With a slot at all, the loop waits only for jobs that are running. *)
Lemma loop_not_stuck s : (0 < capN)%nat →
  fan_done s ∨ (∃ s', loop_moves s s') ∨
  (fo_running s ≠ [] ∧ (fo_todo s = [] ∨ (capN ≤ length (fo_running s))%nat)).
Proof.
  intros Hcap. destruct s as [[|j l] run fin c b].
  - destruct run; [by left|]. right. right. split; [done|by left].
  - destruct (decide (capN ≤ length run)%nat).
    + right. right. cbn. split; [by destruct run; cbn in *; [lia|]|by right].
    + right. left. destruct (shouldSkipJob j) eqn:E; eexists;
        (split; [first [by apply fan_skip|apply fan_dispatch; [done|lia]]|done]).
Qed.

Lemma rest_no_running s : fan_rest s → fo_running s = [].
Proof.
  destruct s as [l [|r run] fin c b]; [done|]. intros H.
  destruct (H _ (fan_finish l [] r run fin c b true)) as [H1 H2]. cbn in *. congruence.
Qed.

Lemma rest_done s : (0 < capN)%nat → fan_rest s → fan_done s.
Proof.
  intros Hcap H. pose proof (rest_no_running s H) as Hr.
  destruct (loop_not_stuck s Hcap) as [?|[(s' & Hs & _ & Hc)|[Hn _]]]; [done| |done].
  destruct (H _ Hs). congruence.
Qed.
End fanout.
End FanOut.

Import FanOut.

(** the fan-out respects its cap and loses no job.  In every interleaving of
    the dispatch loop with its goroutines and with cancellation, at most [capN] jobs
    are in flight, and every job the server should run is dispatched at most once
    and only agent-routed ones are skipped; when the fan-out returns without having been
    cancelled, exactly the jobs that are not agent-routed have been run, once each. *)
Theorem fan_out_bounded capN jobs s :
  rtc (fan_step capN) (fan_start jobs) s →
  (length (fo_running s) ≤ capN)%nat ∧
  (∃ rest, filter wanted jobs ≡ₚ map fst (fo_finished s) ++ fo_running s ++ rest) ∧
  (fan_done s → fo_cancelled s = false → map fst (fo_finished s) ≡ₚ filter wanted jobs).
Proof.
  intros Hs. pose proof (fan_inv_reachable _ _ _ Hs) as HI. split; [apply HI|]. split; [|by eapply fan_inv_all_run].
  destruct HI as [_ (dr & _ & HP) _]. eexists. exact HP.
Qed.

Lemma fan_out_bounded_witness :
  let j := sample_job "j-1" JobTypeRenewal JobStatusRunning None 0 in
  let k := sample_job "j-3" JobTypeDeployment JobStatusRunning (Some "agent-1") 0 in
  map fst (fo_finished (mkFan [] [] [(j, true)] false false)) ≡ₚ filter wanted [j; k].
Proof.
  intros j k.
  refine (proj2 (proj2 (fan_out_bounded 1 [j; k] (mkFan [] [] [(j, true)] false false) _))
            (conj eq_refl eq_refl) eq_refl).
  eapply rtc_l; [apply fan_dispatch; [reflexivity|cbn; lia]|].
  eapply rtc_l; [apply fan_skip; reflexivity|].
  apply rtc_once. exact (fan_finish 1 [] [] j [] [] false false true).
Defined.

Lemma SetRenewalConcurrency_pos n sv : 0 < js_renewalConcurrency (SetRenewalConcurrency n sv).
Proof. unfold SetRenewalConcurrency. cbn. destruct (n <=? 0) eqn:E; lia. Qed.

(** C36: the fan-out returns once its jobs do.  With the cap [SetRenewalConcurrency] installs for
    any operator value (what is not positive becomes 1), a fan-out over [jobs] makes at most
    [2 * length jobs + 1] steps; until it is done the dispatch loop can move by itself, without
    cancellation and without a job returning, unless jobs are running and the loop has come to
    its end or all the slots are taken; and when nothing but a cancellation could happen any more
    it is done, having run, if it was not cancelled, exactly the jobs that are not agent-routed.
    That the work of a job returns is assumed: it is the [fan_finish] step. *)
Theorem fan_out_terminates n sv jobs s :
  let capN := Z.to_nat (js_renewalConcurrency (SetRenewalConcurrency n sv)) in
  rtc (fan_step capN) (fan_start jobs) s →
  (∀ k s', nsteps (fan_step capN) k (fan_start jobs) s' → (k ≤ 2 * length jobs + 1)%nat) ∧
  (fan_done s ∨ (∃ s', loop_moves capN s s') ∨
   (fo_running s ≠ [] ∧ (fo_todo s = [] ∨ (capN ≤ length (fo_running s))%nat))) ∧
  (fan_rest capN s → fan_done s ∧ (fo_cancelled s = false → map fst (fo_finished s) ≡ₚ filter wanted jobs)).
Proof.
  intros capN Hs. assert (0 < capN)%nat as Hcap by (pose proof (SetRenewalConcurrency_pos n sv); subst capN; lia).
  split_and!.
  - intros k s' Hk. apply fan_steps_bounded in Hk. unfold fan_measure in Hk. cbn in Hk. lia.
  - by apply loop_not_stuck.
  - intros Hr. apply rest_done in Hr; [|done]. split; [done|]. intros Hc.
    exact (fan_inv_all_run _ _ _ (fan_inv_reachable _ _ _ Hs) Hr Hc).
Qed.

Lemma fan_out_terminates_witness :
  js_renewalConcurrency (SetRenewalConcurrency (-5) (mkJobService 0 0 true true true)) = 1 ∧
  let s := fan_start (rows sample_jobs) in
  fan_done s ∨ (∃ s', loop_moves (Z.to_nat 1) s s') ∨
  (fo_running s ≠ [] ∧ (fo_todo s = [] ∨ (Z.to_nat 1 ≤ length (fo_running s))%nat)).
Proof.
  split; [reflexivity|].
  apply (fan_out_terminates (-5) (mkJobService 0 0 true true true) (rows sample_jobs)
           (fan_start (rows sample_jobs))). apply rtc_refl.
Defined.

(** Without the clamp: a semaphore of capacity 0 blocks the first [Acquire] for good. *)
Example fan_out_zero_cap_stuck :
  let s := fan_start [sample_job "j-1" JobTypeRenewal JobStatusRunning None 0] in
  fan_rest 0 s ∧ ¬ fan_done s.
Proof.
  split; [|by intros [H _]].
  intros s' Hs. inversion Hs as [| | |l run1 j run2 fin c b ok He|]; subst; try done; cbn in *; try lia.
  by destruct run1.
Qed.
