(* ===== verification/Approval.v ===== *)
(** * Issuance approval (src/internal/repository/postgres/approval.go, profile.go,
      src/internal/service/approval.go, profile.go, certificate.go TriggerRenewal,
      src/cmd/server/main.go the profile-edit callback)

    [Module ApprovalRepo] and [Module ProfileRepo] are the SQL repositories,
    [Module ApprovalService] the workflow, [Module ProfileService] the profile edits it
    gates and [Module Renewal] the renewal entry point that requests approval. *)

From stdpp Require Import prelude gmap strings list sorting pretty.
From Stdlib Require Import ZArith Lia.
From S2P Require Import Prelude AuditTrail Store Jobs.
Import JobRepo.

(** ** postgres/approval.go *)
Module ApprovalRepo.

Record ApprovalFilter := mkApprovalFilter {
  apf_State : string;
  apf_CertificateID : string;
  apf_RequestedBy : string;
  apf_Page : Z;
  apf_PerPage : Z
}.

(** The zero [time.Time]. *)
Definition zero_time : Z := - 62135596800 * 10 ^ 9.

(** What the INSERT checks: foreign keys, the state / decision / kind CHECK
    constraints, the primary key and the partial unique index on pending rows. *)
Definition approval_checks (d : DB) (r : ApprovalRequest) : bool :=
  (bool_decide (ar_CertificateID r = "") || bool_decide (is_Some (db_certs d !! ar_CertificateID r))) &&
  (bool_decide (ar_JobID r = "") || bool_decide (is_Some (db_jobs d !! ar_JobID r))) &&
  bool_decide (is_Some (db_profiles d !! ar_ProfileID r)) &&
  (if bool_decide (ar_State r = ApprovalStatePending)
   then bool_decide (ar_DecidedBy r = None) && bool_decide (ar_DecidedAt r = None)
   else bool_decide (is_Some (ar_DecidedAt r))) &&
  (if bool_decide (ar_Kind r = ApprovalKindCertIssuance)
   then negb (bool_decide (ar_CertificateID r = "")) && negb (bool_decide (ar_JobID r = ""))
   else bool_decide (is_Some (ar_Payload r))).

Definition approval_conflict (d : DB) (r : ApprovalRequest) : bool :=
  bool_decide (is_Some (db_approvals d !! ar_ID r)) ||
  (bool_decide (ar_State r = ApprovalStatePending) && negb (bool_decide (ar_JobID r = "")) &&
   existsb (λ x, bool_decide (ar_State x = ApprovalStatePending) &&
                 bool_decide (ar_JobID x = ar_JobID r)) (rows (db_approvals d))).

Section repo.
(** [uuid.NewString()], one per draw. *)
Variable uuid_NewString : N → string.

(** [Create] also returns the request as it mutated it. *)
Definition ApprovalRepository_Create (req : ApprovalRequest) : M DB (ApprovalRequest * res unit) :=
  id ← (if bool_decide (ar_ID req = "") then n ← fresh; mret ("ar-" +:+ uuid_NewString n)%string
        else mret (ar_ID req));
  let state := if bool_decide (ar_State req = "") then ApprovalStatePending else ar_State req in
  let req1 := mkApproval id (ar_Kind req) (ar_CertificateID req) (ar_JobID req) (ar_ProfileID req)
    (ar_RequestedBy req) state (ar_DecidedBy req) (ar_DecidedAt req) (ar_DecisionNote req)
    (ar_Metadata req) (ar_Payload req) (ar_CreatedAt req) (ar_UpdatedAt req) in
  if negb (IsValidApprovalState state)
  then mret (req1, Err (ErrMsg ("invalid approval state " +:+ state)%string))
  else
    t ← now;
    let kind := if bool_decide (ar_Kind req = "") then ApprovalKindCertIssuance else ar_Kind req in
    let req2 := mkApproval id kind (ar_CertificateID req) (ar_JobID req) (ar_ProfileID req)
      (ar_RequestedBy req) state (ar_DecidedBy req) (ar_DecidedAt req) (ar_DecisionNote req)
      (ar_Metadata req) (ar_Payload req)
      (if ar_CreatedAt req =? zero_time then t else ar_CreatedAt req)
      (if ar_UpdatedAt req =? zero_time then t else ar_UpdatedAt req) in
    if negb (IsValidApprovalKind kind)
    then mret (req2, Err (ErrMsg ("invalid approval kind " +:+ kind)%string))
    else
      r ← sql_exec "insert approval request" (λ d,
            if approval_conflict d req2 then (Err repo_ErrAlreadyExists, d)
            else if negb (approval_checks d req2)
            then (Err (ErrWrap "insert approval request" (ErrMsg "constraint violation")), d)
            else (Ok tt, set_approvals (<[id := req2]>) d));
      mret (req2, r).
End repo.

Definition ApprovalRepository_Get (id : string) : M DB (res ApprovalRequest) :=
  r ← sql_query "scan approval row" (λ d, db_approvals d !! id);
  mret match r with
       | Err e => Err e
       | Ok None => Err repo_ErrNotFound
       | Ok (Some req) => Ok req
       end.

(** A NULL job_id (the empty string here) equals nothing. *)
Definition ApprovalRepository_GetByJobID (jobID : string) : M DB (res ApprovalRequest) :=
  r ← sql_query "scan approval row" (λ d,
        head (merge_sort (desc ar_CreatedAt)
          (filter (λ x, ar_JobID x = jobID ∧ jobID ≠ "") (rows (db_approvals d)))));
  mret match r with
       | Err e => Err e
       | Ok None => Err repo_ErrNotFound
       | Ok (Some req) => Ok req
       end.

Definition approval_matches (f : ApprovalFilter) (r : ApprovalRequest) : bool :=
  (bool_decide (apf_State f = "") || bool_decide (ar_State r = apf_State f)) &&
  (bool_decide (apf_CertificateID f = "") || bool_decide (ar_CertificateID r = apf_CertificateID f)) &&
  (bool_decide (apf_RequestedBy f = "") || bool_decide (ar_RequestedBy r = apf_RequestedBy f)).

Definition ApprovalRepository_List (f : ApprovalFilter) : M DB (res (list ApprovalRequest)) :=
  let page := if apf_Page f <? 1 then 1 else apf_Page f in
  let perPage := if (apf_PerPage f <? 1) || (500 <? apf_PerPage f) then 50 else apf_PerPage f in
  let offset := wrap64 ((page - 1) * perPage) in
  r ← sql_query "list approval requests" (λ d,
        if offset <? 0 then Err (ErrMsg "list approval requests: OFFSET must not be negative")
        else Ok (take (Z.to_nat perPage) (drop (Z.to_nat offset)
               (merge_sort (desc ar_CreatedAt)
                  (filter (λ x, approval_matches f x = true) (rows (db_approvals d)))))));
  mret match r with Err e => Err e | Ok l => l end.

(** The guarded UPDATE, and the lookup that tells why it matched no row. *)
Definition ApprovalRepository_UpdateState (id state decidedBy : string) (decidedAt : Z)
    (note : string) : M DB (res unit) :=
  if negb (IsValidApprovalState state)
  then mret (Err (ErrMsg ("invalid approval state " +:+ state)%string))
  else if negb (IsTerminal state)
  then mret (Err (ErrMsg ("UpdateState only accepts terminal states; got " +:+ state)%string))
  else
    let notePtr := if bool_decide (note = "") then None else Some note in
    t ← now;
    n ← sql_exec "update approval state" (λ d,
          match db_approvals d !! id with
          | Some r =>
              if bool_decide (ar_State r = ApprovalStatePending)
              then (Ok 1, set_approvals (<[id := ar_decide state decidedBy decidedAt notePtr t r]>) d)
              else (Ok 0, d)
          | None => (Ok 0, d)
          end);
    match n with
    | Err e => mret (Err e)
    | Ok n =>
        if n =? 0 then
          g ← ApprovalRepository_Get id;
          mret match g with
               | Err e => Err e
               | Ok existing => if IsTerminal (ar_State existing) then Err repo_ErrAlreadyExists
                                else Err repo_ErrNotFound
               end
        else mret (Ok tt)
    end.

Definition expire_note : string :=
  "auto-expired by scheduler reaper at CERTCTL_JOB_AWAITING_APPROVAL_TIMEOUT".

Definition stale (before : Z) (r : ApprovalRequest) : bool :=
  bool_decide (ar_State r = ApprovalStatePending) && (ar_CreatedAt r <=? before).

Definition expire_rows (before t : Z) (m : gmap string ApprovalRequest) : gmap string ApprovalRequest :=
  (λ r, if stale before r
        then ar_decide ApprovalStateExpired "system-reaper" t (Some expire_note) t r else r) <$> m.

Definition ApprovalRepository_ExpireStale (before : Z) : M DB (res Z) :=
  t ← now;
  sql_exec "expire stale approvals" (λ d,
    (Ok (Z.of_nat (length (filter (λ r, stale before r = true) (rows (db_approvals d))))),
     set_approvals (expire_rows before t) d)).
End ApprovalRepo.

(** ** postgres/profile.go *)
Module ProfileRepo.

(** [scanProfile] over the columns the SELECTs name: requires_approval is not
    among them. *)
Definition scanProfile (row : CertificateProfile) : CertificateProfile :=
  mkProfile (pf_ID row) (pf_Name row) (pf_Description row) (pf_AllowedKeyAlgorithms row)
    (pf_MaxTTLSeconds row) (pf_AllowedEKUs row) (pf_RequiredSANPatterns row)
    (pf_SPIFFEURIPattern row) (pf_AllowShortLived row) (pf_MustStaple row)
    (pf_RequiredCSRAttributes row) (pf_ACMEAuthMode row) false (pf_Enabled row)
    (pf_CreatedAt row) (pf_UpdatedAt row).

Definition ProfileRepository_List : M DB (res (list CertificateProfile)) :=
  sql_query "failed to query profiles" (λ d,
    map scanProfile (merge_sort (desc pf_CreatedAt) (rows (db_profiles d)))).

Definition ProfileRepository_Get (id : string) : M DB (res CertificateProfile) :=
  r ← sql_query "failed to query profile" (λ d, db_profiles d !! id);
  mret match r with
       | Err e => Err e
       | Ok (Some row) => Ok (scanProfile row)
       | Ok None =>
           let err := ErrWrap "failed to scan profile" sql_ErrNoRows in
           if bool_decide (err = sql_ErrNoRows)
           then Err (ErrWrap "profile not found" repo_ErrNotFound)
           else Err (ErrWrap "failed to query profile" err)
       end.

(** The INSERT and UPDATE name neither requires_approval nor acme_auth_mode: a
    new row takes the column defaults, an updated row keeps what it has. *)
Definition profile_row (p : CertificateProfile) (requiresApproval : bool) (acme : string) (created upd : Z)
    : CertificateProfile :=
  mkProfile (pf_ID p) (pf_Name p) (pf_Description p) (pf_AllowedKeyAlgorithms p)
    (pf_MaxTTLSeconds p) (pf_AllowedEKUs p) (pf_RequiredSANPatterns p) (pf_SPIFFEURIPattern p)
    (pf_AllowShortLived p) (pf_MustStaple p) (pf_RequiredCSRAttributes p) acme requiresApproval
    (pf_Enabled p) created upd.

(** [Create] on a profile whose ID and timestamps the service has set. *)
Definition ProfileRepository_Create (p : CertificateProfile) : M DB (res unit) :=
  sql_exec "failed to create profile" (λ d,
    match db_profiles d !! pf_ID p with
    | Some _ => (Err (ErrWrap "failed to create profile" (ErrMsg "duplicate key")), d)
    | None => (Ok tt, set_profiles (<[pf_ID p := profile_row p false "trust_authenticated"
                                        (pf_CreatedAt p) (pf_UpdatedAt p)]>) d)
    end).

Definition ProfileRepository_Update (p : CertificateProfile) : M DB (res unit) :=
  t ← now;
  sql_exec "failed to update profile" (λ d,
    match db_profiles d !! pf_ID p with
    | None => (Err (ErrWrap "profile not found" repo_ErrNotFound), d)
    | Some row => (Ok tt, set_profiles (<[pf_ID p := profile_row p (pf_RequiresApproval row)
                                           (pf_ACMEAuthMode row) (pf_CreatedAt row) t]>) d)
    end).
End ProfileRepo.

Import ApprovalRepo ProfileRepo.

(** ** service/approval.go *)
Module ApprovalService.

(** The wiring of the service.  The metrics are process-local counters and left
    out. *)
Record ApprovalService := mkApprovalService {
  as_audit : bool;
  as_bypassEnabled : bool;
  as_profileEditApply : option (ApprovalRequest → M DB (res unit))
}.

Definition ErrApprovalNotFound : error := ErrSentinel "approval request not found".
Definition ErrApprovalAlreadyDecided : error := ErrSentinel "approval request already decided".
Definition ErrApproveBySameActor : error :=
  ErrSentinel "approver cannot be the same as requester (two-person integrity)".

Definition bypass_note : string := "auto-approved by CERTCTL_APPROVAL_BYPASS - dev/CI mode".

Section service.
Variable ToLower : string → string.
Variable uuid_NewString : N → string.
(** [time.Time.Format(time.RFC3339)] *)
Variable format_RFC3339 : Z → string.
Variable s : ApprovalService.

Definition recordAudit (actor actorType action : string) (req : ApprovalRequest)
    (extra : details) : M DB unit :=
  if as_audit s then
    let base := [("approval_id", GStr (ar_ID req)); ("certificate_id", GStr (ar_CertificateID req));
                 ("job_id", GStr (ar_JobID req)); ("profile_id", GStr (ar_ProfileID req));
                 ("requested_by", GStr (ar_RequestedBy req)); ("state", GStr (ar_State req))] in
    let withMeta := foldl (λ m kv, map_assign ("metadata_" +:+ kv.1)%string (GStr kv.2) m)
                      base (ar_Metadata req) in
    let det := foldl (λ m kv, map_assign kv.1 kv.2 m) withMeta extra in
    _ ← RecordEvent ToLower actor actorType action "approval_request" (ar_ID req) det;
    mret tt
  else mret tt.

(** The error mapping after a [Get] and after an [UpdateState]. *)
Definition map_get_err (ctx : string) (e : error) : error :=
  if errors_Is e repo_ErrNotFound then ErrApprovalNotFound else ErrWrap ctx e.
Definition map_update_err (ctx : string) (e : error) : error :=
  if errors_Is e repo_ErrNotFound then ErrApprovalNotFound
  else if errors_Is e repo_ErrAlreadyExists then ErrApprovalAlreadyDecided
  else ErrWrap ctx e.

Definition approveInternal (requestID decidedBy note outcome actorType : string) : M DB (res unit) :=
  t ← now;
  g ← ApprovalRepository_Get requestID;
  match g with
  | Err e => mret (Err (map_get_err "approval: get for transition" e))
  | Ok req =>
      if IsTerminal (ar_State req) then mret (Err ErrApprovalAlreadyDecided)
      else
        u ← ApprovalRepository_UpdateState requestID ApprovalStateApproved decidedBy t note;
        match u with
        | Err e => mret (Err (map_update_err "approval: update state to approved" e))
        | Ok _ =>
            if bool_decide (ar_Kind req = ApprovalKindProfileEdit) then
              match as_profileEditApply s with
              | None =>
                  _ ← recordAudit decidedBy actorType "approval_profile_apply_missing" req
                        [("error", GStr "profileEditApply callback not wired")];
                  mret (Err (ErrMsg "approval: profile-edit apply callback not registered"))
              | Some apply_ =>
                  a ← apply_ req;
                  match a with
                  | Err e =>
                      _ ← recordAudit decidedBy actorType "approval_profile_apply_failed" req
                            [("error", GStr (Error e))];
                      mret (Err (ErrWrap "approval: apply profile edit" e))
                  | Ok _ =>
                      _ ← recordAudit decidedBy actorType ("approval_" +:+ outcome)%string req
                            [("note", GStr note); ("outcome", GStr outcome); ("kind", GStr (ar_Kind req))];
                      mret (Ok tt)
                  end
              end
            else
              j ← JobRepository_UpdateStatus (ar_JobID req) JobStatusPending "";
              match j with
              | Err e =>
                  _ ← recordAudit decidedBy actorType "approval_job_transition_failed" req
                        [("target_status", GStr JobStatusPending); ("error", GStr (Error e))];
                  mret (Err (ErrWrap "approval: transition job to Pending" e))
              | Ok _ =>
                  _ ← recordAudit decidedBy actorType ("approval_" +:+ outcome)%string req
                        [("note", GStr note); ("outcome", GStr outcome)];
                  mret (Ok tt)
              end
        end
  end.

Definition bypass_if_enabled (id ctx : string) : M DB (string * res unit) :=
  if as_bypassEnabled s then
    a ← approveInternal id ApprovalActorSystemBypass bypass_note "bypassed" ActorTypeSystem;
    mret match a with
         | Err e => (id, Err (ErrWrap ctx e))
         | Ok _ => (id, Ok tt)
         end
  else mret (id, Ok tt).

(** The (string, error) pair: the ID is returned with the error of a failed
    bypass. *)
Definition RequestApproval (cert : ManagedCertificate) (jobID profileID requestedBy : string)
    (metadata : list (string * string)) : M DB (string * res unit) :=
  if bool_decide (jobID = "") || bool_decide (profileID = "") || bool_decide (requestedBy = "")
  then mret ("", Err (ErrMsg "approval: jobID, profileID, requestedBy required"))
  else
    t ← now;
    c ← ApprovalRepository_Create uuid_NewString
          (mkApproval "" "" (cert_ID cert) jobID profileID requestedBy ApprovalStatePending
             None None None metadata None t t);
    let '(req, r) := c in
    match r with
    | Err e => mret ("", Err (ErrWrap "approval: create request" e))
    | Ok _ =>
        _ ← recordAudit requestedBy ActorTypeUser "approval_requested" req [];
        bypass_if_enabled (ar_ID req) "approval: bypass auto-approve"
    end.

Definition RequestProfileEditApproval (profileID requestedBy : string)
    (payload : option CertificateProfile) : M DB (string * res unit) :=
  if bool_decide (profileID = "") || bool_decide (requestedBy = "")
  then mret ("", Err (ErrMsg "approval: profileID + requestedBy required"))
  else if bool_decide (payload = None)
  then mret ("", Err (ErrMsg "approval: payload required for profile_edit"))
  else
    t ← now;
    c ← ApprovalRepository_Create uuid_NewString
          (mkApproval "" ApprovalKindProfileEdit "" "" profileID requestedBy ApprovalStatePending
             None None None [] payload t t);
    let '(req, r) := c in
    match r with
    | Err e => mret ("", Err (ErrWrap "approval: create profile_edit request" e))
    | Ok _ =>
        _ ← recordAudit requestedBy ActorTypeUser "approval_profile_edit_requested" req [];
        bypass_if_enabled (ar_ID req) "approval: bypass auto-approve profile_edit"
    end.

Definition Approve (requestID decidedBy note : string) : M DB (res unit) :=
  g ← ApprovalRepository_Get requestID;
  match g with
  | Err e => mret (Err (map_get_err "approval: get for approve" e))
  | Ok req =>
      if IsTerminal (ar_State req) then mret (Err ErrApprovalAlreadyDecided)
      else if bool_decide (decidedBy = ar_RequestedBy req) then mret (Err ErrApproveBySameActor)
      else approveInternal requestID decidedBy note "approved" ActorTypeUser
  end.

Definition Reject (requestID decidedBy note : string) : M DB (res unit) :=
  g ← ApprovalRepository_Get requestID;
  match g with
  | Err e => mret (Err (map_get_err "approval: get for reject" e))
  | Ok req =>
      if IsTerminal (ar_State req) then mret (Err ErrApprovalAlreadyDecided)
      else if bool_decide (decidedBy = ar_RequestedBy req) then mret (Err ErrApproveBySameActor)
      else
        t ← now;
        u ← ApprovalRepository_UpdateState requestID ApprovalStateRejected decidedBy t note;
        match u with
        | Err e => mret (Err (map_update_err "approval: update state to rejected" e))
        | Ok _ =>
            j ← JobRepository_UpdateStatus (ar_JobID req) JobStatusCancelled
                  ("approval rejected: " +:+ note)%string;
            match j with
            | Err e =>
                _ ← recordAudit decidedBy ActorTypeUser "approval_job_transition_failed" req
                      [("target_status", GStr JobStatusCancelled); ("error", GStr (Error e))];
                mret (Err (ErrWrap "approval: transition job to Cancelled" e))
            | Ok _ =>
                _ ← recordAudit decidedBy ActorTypeUser "approval_rejected" req
                      [("note", GStr note); ("outcome", GStr "rejected")];
                mret (Ok tt)
            end
        end
  end.

Definition ListPending (page perPage : Z) : M DB (res (list ApprovalRequest)) :=
  ApprovalRepository_List (mkApprovalFilter ApprovalStatePending "" "" page perPage).

Definition ApprovalService_Get (id : string) : M DB (res ApprovalRequest) :=
  g ← ApprovalRepository_Get id;
  mret match g with
       | Err e => Err (if errors_Is e repo_ErrNotFound then ErrApprovalNotFound else e)
       | Ok r => Ok r
       end.

(** The loop body of [ExpireStale]. *)
Definition expire_one (before : Z) (req : ApprovalRequest) : M DB unit :=
  j ← JobRepository_UpdateStatus (ar_JobID req) JobStatusCancelled
        "approval expired: timed out without review";
  _ ← match j with
      | Err e => recordAudit "system-reaper" ActorTypeSystem "approval_job_transition_failed" req
                   [("target_status", GStr JobStatusCancelled); ("error", GStr (Error e))]
      | Ok _ => mret tt
      end;
  recordAudit "system-reaper" ActorTypeSystem "approval_expired" req
    [("outcome", GStr "expired"); ("before_cutoff", GStr (format_RFC3339 before))].

Definition ExpireStale (before : Z) : M DB (res Z) :=
  l ← ApprovalRepository_List (mkApprovalFilter ApprovalStatePending "" "" 0 500);
  match l with
  | Err e => mret (Err (ErrWrap "approval: list pending for expiry" e))
  | Ok pending =>
      match filter (λ r, ar_CreatedAt r ≤ before) pending with
      | [] => mret (Ok 0)
      | staleReqs =>
          c ← ApprovalRepository_ExpireStale before;
          match c with
          | Err e => mret (Err (ErrWrap "approval: bulk expire" e))
          | Ok count => _ ← for_each staleReqs (expire_one before); mret (Ok count)
          end
      end
  end.
End service.

(** cmd/server/main.go: the callback wired by [SetProfileEditApply]. *)
Definition profile_edit_apply (ToLower : string → string) (req : ApprovalRequest) : M DB (res unit) :=
  match ar_Payload req with
  | None => mret (Err (ErrMsg "decode profile-edit payload: unexpected end of JSON input"))
  | Some p =>
      let pendingProfile := mkProfile (ar_ProfileID req) (pf_Name p) (pf_Description p)
        (pf_AllowedKeyAlgorithms p) (pf_MaxTTLSeconds p) (pf_AllowedEKUs p) (pf_RequiredSANPatterns p)
        (pf_SPIFFEURIPattern p) (pf_AllowShortLived p) (pf_MustStaple p) (pf_RequiredCSRAttributes p)
        (pf_ACMEAuthMode p) (pf_RequiresApproval p) (pf_Enabled p) (pf_CreatedAt p) (pf_UpdatedAt p) in
      u ← ProfileRepository_Update pendingProfile;
      match u with
      | Err e => mret (Err (ErrWrap "apply profile-edit diff" e))
      | Ok _ =>
          _ ← RecordEventWithCategory ToLower "approval-system" ActorTypeSystem "profile.edit_applied"
                EventCategoryAuth "certificate_profile" (ar_ProfileID req)
                [("approval_id", GStr (ar_ID req)); ("requested_by", GStr (ar_RequestedBy req))];
          mret (Ok tt)
      end
  end.
End ApprovalService.

Import ApprovalService.

(** ** service/profile.go *)
Module ProfileService.

Definition ValidKeyAlgorithms : list string := ["RSA"; "ECDSA"; "Ed25519"].
Definition ValidEKUs : list string :=
  ["serverAuth"; "clientAuth"; "codeSigning"; "emailProtection"; "timeStamping"].

Definition algorithm_error (alg : string * Z) : option error :=
  if negb (bool_decide (alg.1 ∈ ValidKeyAlgorithms))
  then Some (ErrMsg ("invalid key algorithm: " +:+ alg.1 +:+ " (allowed: RSA, ECDSA, Ed25519)")%string)
  else if bool_decide (alg.1 = "RSA") && (alg.2 <? 2048)
  then Some (ErrMsg ("RSA minimum key size must be at least 2048, got " +:+ pretty alg.2)%string)
  else if bool_decide (alg.1 = "ECDSA") && (alg.2 <? 256)
  then Some (ErrMsg ("ECDSA minimum key size must be at least 256, got " +:+ pretty alg.2)%string)
  else None.

Definition first_error {A} (f : A → option error) (l : list A) : option error := head (omap f l).

Definition validateProfile (p : CertificateProfile) : option error :=
  if bool_decide (pf_Name p = "") then Some (ErrMsg "profile name is required")
  else if Nat.ltb 255 (String.length (pf_Name p)) then Some (ErrMsg "profile name exceeds 255 characters")
  else match first_error algorithm_error (pf_AllowedKeyAlgorithms p) with
  | Some e => Some e
  | None =>
      match first_error (λ eku, if bool_decide (eku ∈ ValidEKUs) then None
                                else Some (ErrMsg ("invalid EKU: " +:+ eku)%string))
              (pf_AllowedEKUs p) with
      | Some e => Some e
      | None =>
          if pf_MaxTTLSeconds p <? 0 then Some (ErrMsg "max_ttl_seconds cannot be negative")
          else if pf_AllowShortLived p && (3600 <=? pf_MaxTTLSeconds p)
          then Some (ErrMsg ("allow_short_lived is true but max_ttl_seconds (" +:+
                 pretty (pf_MaxTTLSeconds p) +:+
                 ") is >= 3600; short-lived certs must have TTL under 1 hour")%string)
          else None
      end
  end.

Definition ErrProfileEditPendingApproval : error :=
  ErrSentinel "profile edit gated by approval workflow".

Definition with_id (id : string) (p : CertificateProfile) : CertificateProfile :=
  mkProfile id (pf_Name p) (pf_Description p) (pf_AllowedKeyAlgorithms p) (pf_MaxTTLSeconds p)
    (pf_AllowedEKUs p) (pf_RequiredSANPatterns p) (pf_SPIFFEURIPattern p) (pf_AllowShortLived p)
    (pf_MustStaple p) (pf_RequiredCSRAttributes p) (pf_ACMEAuthMode p) (pf_RequiresApproval p)
    (pf_Enabled p) (pf_CreatedAt p) (pf_UpdatedAt p).

Section service.
Variable ToLower : string → string.
Variable uuid_NewString : N → string.
(** [None]: SetApprovalService was not called; [audit]: the audit service is wired. *)
Variable approvalService : option ApprovalService.
Variable audit : bool.

Definition UpdateProfile (requester id : string) (profile : CertificateProfile)
    : M DB (res CertificateProfile) :=
  match validateProfile profile with
  | Some e => mret (Err e)
  | None =>
      let profile := with_id id profile in
      let direct :=
        u ← ProfileRepository_Update profile;
        match u with
        | Err e => mret (Err (ErrWrap "failed to update profile" e))
        | Ok _ =>
            _ ← (if audit then _ ← RecordEvent ToLower "api" ActorTypeUser "update_profile"
                                     "certificate_profile" id []; mret tt
                 else mret tt);
            mret (Ok profile)
        end in
      match approvalService with
      | None => direct
      | Some apsvc =>
          l ← ProfileRepository_Get id;
          match l with
          | Err e => mret (Err (ErrWrap "failed to load live profile" e))
          | Ok live =>
              if pf_RequiresApproval live || pf_RequiresApproval profile then
                a ← RequestProfileEditApproval ToLower uuid_NewString apsvc id requester (Some profile);
                match a with
                | (_, Err e) => mret (Err (ErrWrap "approval gate" e))
                | (approvalID, Ok _) =>
                    _ ← (if audit
                         then _ ← RecordEventWithCategory ToLower requester ActorTypeUser
                                    "profile.edit_request" EventCategoryAuth "certificate_profile" id
                                    [("approval_id", GStr approvalID)]; mret tt
                         else mret tt);
                    mret (Err (ErrWrapPre ErrProfileEditPendingApproval
                                 ("approval=" +:+ approvalID)%string))
                end
              else direct
          end
      end
  end.
End service.
End ProfileService.

(** ** service/certificate.go *)
Module Renewal.

(** 2000-01-01, in nanoseconds. *)
Definition year_2000 : Z := 946684800 * 10 ^ 9.

Section renewal.
Variable ToLower : string → string.
Variable uuid_NewString : N → string.
(** The approval service and the profile repository, when wired. *)
Variable approvalSvc : option ApprovalService.
Variable profileRepo : bool.
Variable keygenMode : string.

(** Whether the certificate's profile asks for approval, and its id; a failed
    lookup falls back to no approval. *)
Definition needs_approval (cert : ManagedCertificate) : M DB (option string) :=
  match approvalSvc with
  | Some _ =>
      if profileRepo && negb (bool_decide (cert_CertificateProfileID cert = "")) then
        p ← ProfileRepository_Get (cert_CertificateProfileID cert);
        mret match p with
             | Err _ => None
             | Ok profile => if pf_RequiresApproval profile then Some (pf_ID profile) else None
             end
      else mret None
  | None => mret None
  end.

Definition TriggerRenewal (certID actor : string) (force : bool) : M DB (res unit) :=
  c ← CertificateRepository_Get certID;
  match c with
  | Err e => mret (Err (ErrWrap "failed to fetch certificate" e))
  | Ok cert =>
  if bool_decide (cert_Status cert = CertificateStatusArchived)
  then mret (Err (ErrMsg "cannot renew archived certificate"))
  else if bool_decide (cert_Status cert = CertificateStatusExpired)
  then mret (Err (ErrMsg "cannot renew expired certificate; reissue instead"))
  else if bool_decide (cert_Status cert = CertificateStatusRenewalInProgress) && negb force
  then mret (Err (ErrMsg "certificate renewal already in progress"))
  else
  let cert := cert_with_status CertificateStatusRenewalInProgress cert in
  u ← CertificateRepository_Update cert;
  match u with
  | Err e => mret (Err (ErrWrap "failed to update certificate status" e))
  | Ok _ =>
  needsApproval ← needs_approval cert;
  let jobStatus := match needsApproval with
                   | Some _ => JobStatusAwaitingApproval
                   | None => if bool_decide (keygenMode = "agent") then JobStatusAwaitingCSR
                             else JobStatusPending
                   end in
  let jobType := if cert_ExpiresAt cert <? year_2000 then JobTypeIssuance else JobTypeRenewal in
  jobID ← generateID "job";
  t1 ← now;
  t2 ← now;
  j ← JobRepository_Create (mkJob jobID jobType (cert_ID cert) None None jobStatus 0 3 None t1
        None None t2 "" None None None);
  match j with
  | Err e => mret (Err (ErrWrap "failed to create renewal job" e))
  | Ok _ =>
  gate ← match needsApproval, approvalSvc with
         | Some approvalProfileID, Some apsvc =>
             a ← RequestApproval ToLower uuid_NewString apsvc cert jobID approvalProfileID actor
                   [("common_name", cert_CommonName cert)];
             match a with
             | (_, Err apErr) =>
                 _ ← JobRepository_UpdateStatus jobID JobStatusCancelled
                       ("approval request creation failed: " +:+ Error apErr)%string;
                 mret (Err (ErrWrap "failed to create approval request" apErr))
             | (_, Ok _) => mret (Ok tt)
             end
         | _, _ => mret (Ok tt)
         end;
  match gate with
  | Err e => mret (Err e)
  | Ok _ =>
      _ ← RecordEvent ToLower actor ActorTypeUser "renewal_triggered" "certificate" certID
            [("common_name", GStr (cert_CommonName cert))];
      mret (Ok tt)
  end end end end.
End renewal.
End Renewal.
