(* ===== verification/ApprovalFacts.v ===== *)
(** * Theorems about the approval workflow (the definitions of Approval.v) *)

From stdpp Require Import prelude gmap strings list sorting pretty.
From Stdlib Require Import ZArith Lia.
From S2P Require Import Prelude AuditTrail Store Jobs Approval.
Import JobRepo JobService ApprovalRepo ProfileRepo ApprovalService ProfileService Renewal.

(** ** Everything the workflow does to the approvals table

    [R] is any relation on databases closed under the four ways the table can
    change; [dec st id by] says which decisions may be taken. *)
Definition same_approvals (d d' : DB) : Prop := db_approvals d' = db_approvals d.

#[global] Instance same_approvals_preorder : PreOrder same_approvals.
Proof. split; unfold same_approvals; [by intros d|]. intros d1 d2 d3; congruence. Qed.

Lemma same_recordAudit ToLower s a t act req extra :
  pres same_approvals (recordAudit ToLower s a t act req extra).
Proof.
  unfold recordAudit. repeat pres_step; by apply (pres_RecordEvent ToLower same_approvals).
Qed.

Lemma same_UpdateStatus id st msg : pres same_approvals (JobRepository_UpdateStatus id st msg).
Proof. unfold JobRepository_UpdateStatus. repeat pres_step; unfold set_row; by case_match. Qed.

Record approval_closed (dec : string → string → string → Prop) (R : relation DB) : Prop := {
  ac_same d d' : same_approvals d d' → R d d';
  ac_create d r : approval_conflict d r = false → approval_checks d r = true →
    R d (set_approvals (<[ar_ID r := r]>) d);
  ac_decide d id r st b at_ note upd : db_approvals d !! id = Some r →
    ar_State r = ApprovalStatePending → IsTerminal st = true → dec st id b →
    R d (set_approvals (<[id := ar_decide st b at_ note upd r]>) d);
  ac_expire d before t : R d (set_approvals (expire_rows before t) d)
}.

Section closed.
Context (dec : string → string → string → Prop) (R : relation DB) `{!PreOrder R}.
Context (HR : approval_closed dec R).
Variable ToLower : string → string.
Variable uuid : N → string.
Variable fmt : Z → string.
Variable s : ApprovalService.
(** The profile-edit callback leaves the approvals alone. *)
Hypothesis Happly : ∀ f req, as_profileEditApply s = Some f → pres same_approvals (f req).
Hypothesis Hbypass : as_bypassEnabled s = true →
  ∀ id, dec ApprovalStateApproved id ApprovalActorSystemBypass.

Lemma pres_same {A} (m : M DB A) : pres same_approvals m → pres R m.
Proof. intros H w. apply (ac_same _ _ HR), H. Qed.

Lemma pres_audit a at_ act rt ri d : pres R (RecordEvent (D:=DB) ToLower a at_ act rt ri d).
Proof. apply pres_same. by apply (pres_RecordEvent ToLower same_approvals). Qed.

Lemma pres_audit_cat a at_ act cat rt ri d :
  pres R (RecordEventWithCategory (D:=DB) ToLower a at_ act cat rt ri d).
Proof. apply pres_same. by apply (pres_RecordEventWithCategory ToLower same_approvals). Qed.

Lemma pres_recordAudit a at_ act req extra : pres R (recordAudit ToLower s a at_ act req extra).
Proof. apply pres_same, same_recordAudit. Qed.

Lemma pres_job_status id st msg : pres R (JobRepository_UpdateStatus id st msg).
Proof. apply pres_same, same_UpdateStatus. Qed.

Lemma pres_Get id : pres R (ApprovalRepository_Get id).
Proof. unfold ApprovalRepository_Get. repeat pres_step. Qed.

Lemma pres_UpdateState id st b at_ note :
  dec st id b → pres R (ApprovalRepository_UpdateState id st b at_ note).
Proof.
  intros Hd. unfold ApprovalRepository_UpdateState. repeat pres_step; try apply pres_Get.
  destruct (db_approvals d !! id) as [r|] eqn:E; [|by apply (ac_same _ _ HR)].
  case_bool_decide; [|by apply (ac_same _ _ HR)]. cbn.
  eapply (ac_decide _ _ HR); try done. by apply negb_false_iff.
Qed.

Lemma pres_Create req : pres R (ApprovalRepository_Create uuid req).
Proof.
  unfold ApprovalRepository_Create. repeat pres_step.
  all: repeat case_match; cbn; try by apply (ac_same _ _ HR).
  all: match goal with |- R ?d (set_approvals (<[?i := ?r]>) ?d) =>
         change (<[i := r]>) with (<[ar_ID r := r]> : gmap string ApprovalRequest → _) end.
  all: apply (ac_create _ _ HR); [done|by apply negb_false_iff].
Qed.

Lemma pres_approveInternal id b note outcome at_ :
  dec ApprovalStateApproved id b → pres R (approveInternal ToLower s id b note outcome at_).
Proof.
  intros Hd. unfold approveInternal.
  repeat first [pres_step | apply pres_Get | by apply pres_UpdateState | apply pres_recordAudit
               | apply pres_job_status | apply pres_same; by eapply Happly].
Qed.

Lemma pres_bypass id ctx : pres R (bypass_if_enabled ToLower s id ctx).
Proof.
  unfold bypass_if_enabled. repeat pres_step. apply pres_approveInternal. by apply Hbypass.
Qed.

Lemma pres_RequestApproval cert j p by_ meta :
  pres R (RequestApproval ToLower uuid s cert j p by_ meta).
Proof.
  unfold RequestApproval.
  repeat first [pres_step | apply pres_Create | apply pres_recordAudit | apply pres_bypass].
Qed.

Lemma pres_RequestProfileEditApproval p by_ payload :
  pres R (RequestProfileEditApproval ToLower uuid s p by_ payload).
Proof.
  unfold RequestProfileEditApproval.
  repeat first [pres_step | apply pres_Create | apply pres_recordAudit | apply pres_bypass].
Qed.

Lemma pres_Approve id b note :
  dec ApprovalStateApproved id b → pres R (Approve ToLower s id b note).
Proof.
  intros Hd. unfold Approve.
  repeat first [pres_step | apply pres_Get | by apply pres_approveInternal].
Qed.

Lemma pres_Reject id b note :
  dec ApprovalStateRejected id b → pres R (Reject ToLower s id b note).
Proof.
  intros Hd. unfold Reject.
  repeat first [pres_step | apply pres_Get | by apply pres_UpdateState | apply pres_recordAudit
               | apply pres_job_status].
Qed.

Lemma pres_ExpireStale before : pres R (ExpireStale ToLower fmt s before).
Proof.
  unfold ExpireStale, ApprovalRepository_List, ApprovalRepository_ExpireStale, expire_one.
  repeat first [pres_step | apply pres_recordAudit | apply pres_job_status].
  apply (ac_expire _ _ HR).
Qed.

Lemma pres_UpdateProfile aud who id p :
  pres R (UpdateProfile ToLower uuid (Some s) aud who id p).
Proof.
  assert (HU : ∀ q, pres R (ProfileRepository_Update q)).
  { intros q. apply pres_same. unfold ProfileRepository_Update. repeat pres_step. by case_match. }
  unfold UpdateProfile, ProfileRepository_Get.
  repeat lazymatch goal with
  | |- pres _ (ProfileRepository_Update _) => apply HU
  | |- pres _ (RecordEvent _ _ _ _ _ _ _) => apply pres_audit
  | |- pres _ (RecordEventWithCategory _ _ _ _ _ _ _ _) => apply pres_audit_cat
  | |- pres _ (RequestProfileEditApproval _ _ _ _ _ _) => apply pres_RequestProfileEditApproval
  | _ => pres_step
  end.
Qed.

Lemma pres_TriggerRenewal prof mode cert who force :
  pres R (TriggerRenewal ToLower uuid (Some s) prof mode cert who force).
Proof.
  assert (HC : ∀ c, pres R (CertificateRepository_Update c)).
  { intros c. apply pres_same. unfold CertificateRepository_Update. repeat pres_step. by case_match. }
  assert (HJ : ∀ j, pres R (JobRepository_Create j)).
  { intros j. apply pres_same. unfold JobRepository_Create. repeat pres_step.
    by repeat case_match. }
  unfold TriggerRenewal, needs_approval, ProfileRepository_Get, CertificateRepository_Get, generateID.
  repeat lazymatch goal with
  | |- pres _ (CertificateRepository_Update _) => apply HC
  | |- pres _ (JobRepository_Create _) => apply HJ
  | |- pres _ (RecordEvent _ _ _ _ _ _ _) => apply pres_audit
  | |- pres _ (RequestApproval _ _ _ _ _ _ _ _) => apply pres_RequestApproval
  | |- pres _ (JobRepository_UpdateStatus _ _ _) => apply pres_job_status
  | _ => pres_step
  end.
Qed.
End closed.

(** ** Sequences of operations *)
Inductive approval_op :=
  | OpRequest (cert : ManagedCertificate) (jobID profileID by_ : string) (meta : list (string * string))
  | OpRequestEdit (profileID by_ : string) (payload : option CertificateProfile)
  | OpApproveReq (id by_ note : string)
  | OpRejectReq (id by_ note : string)
  | OpExpireStale (before : Z)
  | OpUpdateProfile (who id : string) (p : CertificateProfile)
  | OpTriggerRenewal (certID actor : string) (force : bool).

(** The wiring of cmd/server/main.go. *)
Definition production (ToLower : string → string) (bypass : bool) : ApprovalService :=
  mkApprovalService true bypass (Some (profile_edit_apply ToLower)).

Section ops.
Variable ToLower : string → string.
Variable uuid : N → string.
Variable fmt : Z → string.
Variable mode : string.
Variable bypass : bool.
Notation sv := (production ToLower bypass).

Definition run_aop (op : approval_op) : M DB unit :=
  match op with
  | OpRequest c j p b m => _ ← RequestApproval ToLower uuid sv c j p b m; mret tt
  | OpRequestEdit p b pl => _ ← RequestProfileEditApproval ToLower uuid sv p b pl; mret tt
  | OpApproveReq id b n => _ ← Approve ToLower sv id b n; mret tt
  | OpRejectReq id b n => _ ← Reject ToLower sv id b n; mret tt
  | OpExpireStale before => _ ← ExpireStale ToLower fmt sv before; mret tt
  | OpUpdateProfile who id p => _ ← UpdateProfile ToLower uuid (Some sv) true who id p; mret tt
  | OpTriggerRenewal c a f => _ ← TriggerRenewal ToLower uuid (Some sv) true mode c a f; mret tt
  end.

Lemma apply_same f req : as_profileEditApply sv = Some f → pres same_approvals (f req).
Proof.
  intros [= <-]. unfold profile_edit_apply, ProfileRepository_Update. destruct (ar_Payload req) as [p|]; [|pres_step].
  repeat pres_step; [by case_match|].
  by apply (pres_RecordEventWithCategory ToLower same_approvals).
Qed.

Lemma pres_run_aop R `{!PreOrder R} op :
  approval_closed (λ _ _ _, True) R → pres R (run_aop op).
Proof.
  intros HR. pose proof apply_same as Ha.
  destruct op; cbn; (pres_step; [|pres_step]).
  - by apply (pres_RequestApproval (λ _ _ _, True)).
  - by apply (pres_RequestProfileEditApproval (λ _ _ _, True)).
  - by apply (pres_Approve (λ _ _ _, True)).
  - by apply (pres_Reject (λ _ _ _, True)).
  - by apply (pres_ExpireStale (λ _ _ _, True)).
  - by apply (pres_UpdateProfile (λ _ _ _, True)).
  - by apply (pres_TriggerRenewal (λ _ _ _, True)).
Qed.
End ops.

(** ** Decisions are final *)
Definition final (d d' : DB) : Prop :=
  ∀ id r, db_approvals d !! id = Some r → IsTerminal (ar_State r) = true →
          db_approvals d' !! id = Some r.

#[local] Instance final_preorder : PreOrder final.
Proof. split; [by intros d id r|]. intros d1 d2 d3 H1 H2 id r Hr Ht. by apply H2, Ht; apply H1. Qed.

Lemma final_closed : approval_closed (λ _ _ _, True) final.
Proof.
  constructor.
  - intros d d' E id r Hr _. by rewrite E.
  - intros d r Hc _ id r' Hr' _. cbn. rewrite lookup_insert_ne; [done|]. intros <-.
    unfold approval_conflict in Hc. rewrite bool_decide_eq_true_2 in Hc; [done|by eexists].
  - intros d id r st b at_ note upd Hr Hp _ _ id' r' Hr' Ht. cbn.
    rewrite lookup_insert_ne; [done|]. intros <-. simplify_eq. by rewrite Hp in Ht.
  - intros d before t id r Hr Ht. cbn. unfold expire_rows. rewrite lookup_fmap, Hr. cbn.
    unfold stale. case_bool_decide as Hp; cbn; [|done]. by rewrite Hp in Ht.
Qed.

(** a decision is final.  Once a request is approved, rejected or expired,
    no sequence of requests, approvals, rejections, expiry sweeps, profile edits or renewals,
    under any failures, changes any field of it. *)
Theorem decided_requests_immutable ToLower uuid fmt mode bypass ops w id r :
  db_approvals (w_db w) !! id = Some r → IsTerminal (ar_State r) = true →
  db_approvals (w_db (for_each ops (run_aop ToLower uuid fmt mode bypass) w).2) !! id = Some r.
Proof.
  intros Hr Ht. refine (pres_for_each final ops _ (λ op, _) w id r Hr Ht).
  exact (pres_run_aop _ _ _ _ _ final _ final_closed).
Qed.

Definition sample_request (state : string) (by_ : option string) : ApprovalRequest :=
  mkApproval "ar-1" ApprovalKindCertIssuance "mc-1" "j-1" "cp-1" "bob" state by_
    match by_ with Some _ => Some 7 | None => None end None [] None 5 5.
Definition sample_awaiting : Job :=
  mkJob "j-1" JobTypeRenewal "mc-1" None None JobStatusAwaitingApproval 0 3 None 5 None None 5
    "pending" None None None.
Definition sample_profile (name : string) (gated : bool) : CertificateProfile :=
  mkProfile "cp-1" name "" [("RSA", 2048)] 86400 ["serverAuth"] [] "" false false []
    "trust_authenticated" gated true 0 0.
(** One certificate on an approval-tier profile, one gated job. *)
Definition approvals_world (r : ApprovalRequest) : World DB :=
  mkWorld (mkDB {[ "j-1" := sample_awaiting ]} {[ "ar-1" := r ]}
             {[ "mc-1" := mkCert "mc-1" "www" "www" [] "o-1" "t-1" "iss" "rp-1" "cp-1" "Active" 0 "" None None "" 0 ]}
             ∅ ∅ ∅ [] {[ "cp-1" := sample_profile "prod" true ]} [])
    (mkEnv (10 ^ 18) [] [] 0%N).

Lemma decided_requests_immutable_witness :
  let r := sample_request ApprovalStateRejected (Some "carol") in
  db_approvals (w_db (for_each [OpApproveReq "ar-1" "dave" ""; OpExpireStale (10 ^ 18)]
    (run_aop lower_ascii pretty (λ _, "") "agent" false) (approvals_world r)).2) !! "ar-1" = Some r.
Proof.
  apply (decided_requests_immutable lower_ascii pretty (λ _, "") "agent" false
    [OpApproveReq "ar-1" "dave" ""; OpExpireStale (10 ^ 18)]
    (approvals_world (sample_request ApprovalStateRejected (Some "carol")))); reflexivity.
Defined.

(** ** At most one open request per job *)
Definition one_pending (d : DB) : Prop :=
  ∀ i1 i2 r1 r2, db_approvals d !! i1 = Some r1 → db_approvals d !! i2 = Some r2 →
    ar_State r1 = ApprovalStatePending → ar_State r2 = ApprovalStatePending →
    ar_JobID r1 = ar_JobID r2 → ar_JobID r1 ≠ "" → i1 = i2.

Lemma conflict_pending d r i x :
  approval_conflict d r = false → db_approvals d !! i = Some x →
  ar_State r = ApprovalStatePending → ar_State x = ApprovalStatePending →
  ar_JobID x = ar_JobID r → ar_JobID r ≠ "" → False.
Proof.
  unfold approval_conflict. intros [_ Hc]%orb_false_iff Hx Hr Hs Hj Hne.
  rewrite (bool_decide_eq_true_2 _ Hr), (bool_decide_eq_false_2 _ Hne) in Hc. cbn in Hc.
  assert (Hin : x ∈ rows (db_approvals d)) by (rewrite elem_of_rows; by exists i).
  apply not_true_iff_false in Hc. apply Hc. rewrite existsb_exists. exists x.
  split; [by apply list_elem_of_In|]. by rewrite (bool_decide_eq_true_2 _ Hs), (bool_decide_eq_true_2 _ Hj).
Qed.

Lemma one_pending_closed : approval_closed (λ _ _ _, True) (λ d d', one_pending d → one_pending d').
Proof.
  constructor.
  - intros d d' E H. unfold one_pending. by rewrite E.
  - intros d r Hc _ H i1 i2 r1 r2; cbn. rewrite !lookup_insert_Some.
    intros [[<- <-]|[Hn1 H1]] [[<- <-]|[Hn2 H2]] Hs1 Hs2 Hj Hne; [done| | |by eapply H].
    + by destruct (conflict_pending d r i2 r2).
    + by destruct (conflict_pending d r i1 r1); congruence || auto.
  - intros d id r st b at_ note upd Hr Hp Ht _ H i1 i2 r1 r2; cbn. rewrite !lookup_insert_Some.
    assert (Hne : st ≠ ApprovalStatePending) by (intros ->; done).
    intros [[_ <-]|[Hn1 H1]] [[_ <-]|[Hn2 H2]] Hs1 Hs2; try done. by apply (H i1 i2 r1 r2).
  - intros d before t H i1 i2 r1 r2; cbn. unfold expire_rows. rewrite !lookup_fmap.
    intros (x1 & H1 & ->)%fmap_Some (x2 & H2 & ->)%fmap_Some.
    destruct (stale before x1); [done|]. destruct (stale before x2); [done|]. by apply H.
Qed.

(** a job never has two open approval requests, through any sequence of
    workflow operations and failures. *)
Theorem one_open_request_per_job ToLower uuid fmt mode bypass ops w :
  one_pending (w_db w) →
  one_pending (w_db (for_each ops (run_aop ToLower uuid fmt mode bypass) w).2).
Proof.
  intros H. refine (pres_for_each (λ d d', one_pending d → one_pending d') ops _ (λ op, _) w H).
  exact (pres_run_aop _ _ _ _ _ (λ d d', one_pending d → one_pending d') _ one_pending_closed).
Qed.

Lemma one_open_request_per_job_witness :
  one_pending (w_db (for_each
    [OpRequest (mkCert "mc-1" "www" "www" [] "o-1" "t-1" "iss" "rp-1" "cp-1" "Active" 0 "" None None "" 0) "j-1" "cp-1" "eve" [];
     OpApproveReq "ar-1" "dave" "ok"]
    (run_aop lower_ascii pretty (λ _, "") "agent" false)
    (approvals_world (sample_request ApprovalStatePending None))).2).
Proof.
  apply (one_open_request_per_job lower_ascii pretty (λ _, "") "agent" false
    [OpRequest (mkCert "mc-1" "www" "www" [] "o-1" "t-1" "iss" "rp-1" "cp-1" "Active" 0 "" None None "" 0) "j-1" "cp-1" "eve" [];
     OpApproveReq "ar-1" "dave" "ok"]).
  intros i1 i2 r1 r2. cbn [w_db approvals_world db_approvals].
  intros [<- _]%lookup_singleton_Some [<- _]%lookup_singleton_Some. done.
Defined.

(** ** Two-person integrity *)
Definition by_other (r : ApprovalRequest) : Prop :=
  ar_State r = ApprovalStateApproved ∨ ar_State r = ApprovalStateRejected →
  ∃ b, ar_DecidedBy r = Some b ∧ b ≠ ar_RequestedBy r.

Definition two_person (d : DB) : Prop := map_Forall (λ _ r, by_other r) (db_approvals d).

(** The invariant together with what a caller has checked about one request. *)
Definition two_person_at (id b : string) (d : DB) : Prop :=
  two_person d ∧ ∀ r, db_approvals d !! id = Some r → b ≠ ar_RequestedBy r.

Lemma two_person_expire before t d :
  two_person d → two_person (set_approvals (expire_rows before t) d).
Proof.
  intros H i r; cbn. unfold expire_rows. rewrite lookup_fmap.
  intros (x & Hx & ->)%fmap_Some. case_match; [|exact (H _ _ Hx)]. intros [E|E]; discriminate E.
Qed.

Lemma two_person_decide id b d r st at_ note upd :
  two_person_at id b d → db_approvals d !! id = Some r →
  two_person_at id b (set_approvals (<[id := ar_decide st b at_ note upd r]>) d).
Proof.
  intros [H Hb] Hr. split.
  - apply map_Forall_insert_2; [|done]. intros _. exists b. split; [done|]. exact (Hb _ Hr).
  - intros r'. cbn. rewrite lookup_insert_eq. intros [= <-]. exact (Hb _ Hr).
Qed.

(** Requests enter the table pending; [pending_only] is what the workflow's own
    calls of [Create] guarantee. *)
Lemma create_pending uuid req :
  ar_State req = ApprovalStatePending →
  pres (λ d d', two_person d → two_person d') (ApprovalRepository_Create uuid req).
Proof.
  intros Hs. unfold ApprovalRepository_Create. rewrite Hs.
  rewrite (bool_decide_eq_false_2 (ApprovalStatePending = "")) by done.
  repeat pres_step; repeat case_match; cbn; try done.
  all: intros Htp; apply map_Forall_insert_2; [intros [E|E]; discriminate E|exact Htp].
Qed.

Section two_person.
Variable ToLower : string → string.
Variable uuid : N → string.
Variable fmt : Z → string.
Variable mode : string.
Notation sv := (production ToLower false).
Notation TP := (λ d d', two_person d → two_person d').

Lemma tp_same {A} (m : M DB A) : pres same_approvals m → pres TP m.
Proof. intros H w. specialize (H w). unfold two_person. by rewrite H. Qed.

Lemma tp_audit a at_ act req extra : pres TP (recordAudit ToLower sv a at_ act req extra).
Proof. apply tp_same, same_recordAudit. Qed.

Lemma tp_request c j p b m : pres TP (RequestApproval ToLower uuid sv c j p b m).
Proof.
  unfold RequestApproval.
  repeat lazymatch goal with
  | |- pres _ (bypass_if_enabled _ _ _ _) => exact (pres_ret _ _)
  | |- pres _ (ApprovalRepository_Create _ _) => by apply create_pending
  | |- pres _ (recordAudit _ _ _ _ _ _ _) => apply tp_audit
  | _ => pres_step
  end.
Qed.

Lemma tp_request_edit p b pl : pres TP (RequestProfileEditApproval ToLower uuid sv p b pl).
Proof.
  unfold RequestProfileEditApproval.
  repeat lazymatch goal with
  | |- pres _ (bypass_if_enabled _ _ _ _) => exact (pres_ret _ _)
  | |- pres _ (ApprovalRepository_Create _ _) => by apply create_pending
  | |- pres _ (recordAudit _ _ _ _ _ _ _) => apply tp_audit
  | _ => pres_step
  end.
Qed.

(** The relation between databases for a checked pair of request and approver. *)
Definition TPat (id b : string) (d d' : DB) : Prop := two_person_at id b d → two_person_at id b d'.
#[local] Instance TPat_preorder id b : PreOrder (TPat id b).
Proof. split; [by intros d|]. intros d1 d2 d3; unfold TPat; auto. Qed.

Lemma tp_at_closed id b :
  (∀ A (m : M DB A), pres same_approvals m → pres (TPat id b) m) ∧
  (∀ st at_ note, IsTerminal st = true →
     pres (TPat id b) (ApprovalRepository_UpdateState id st b at_ note)).
Proof.
  split.
  - intros A m Hm w. specialize (Hm w). unfold TPat, two_person_at, two_person. by rewrite Hm.
  - intros st at_ note Ht. unfold ApprovalRepository_UpdateState, ApprovalRepository_Get.
    repeat pres_step. destruct (db_approvals d !! id) as [r|] eqn:E; [|done].
    case_bool_decide; [|done]. cbn. intros Htp. by apply two_person_decide.
Qed.

Lemma tp_approveInternal id b note outcome at_ :
  pres (TPat id b) (approveInternal ToLower sv id b note outcome at_).
Proof.
  destruct (tp_at_closed id b) as [Hsame Hu].
  unfold approveInternal, ApprovalRepository_Get.
  repeat lazymatch goal with
  | |- pres _ (ApprovalRepository_UpdateState _ _ _ _ _) => by apply Hu
  | |- pres _ (recordAudit _ _ _ _ _ _ _) => apply Hsame, same_recordAudit
  | |- pres _ (JobRepository_UpdateStatus _ _ _) => apply Hsame, same_UpdateStatus
  | |- pres _ _ => first [pres_step | apply Hsame; by eapply (apply_same ToLower false)]
  end.
Qed.

(** Reading the request establishes the pair. *)
Lemma tp_checked id b (f : ApprovalRequest → M DB (res unit)) (ctx : string) :
  (∀ req, pres (TPat id b) (f req)) →
  pres TP (g ← ApprovalRepository_Get id;
           match g with
           | Err e => mret (Err (map_get_err ctx e))
           | Ok req => if IsTerminal (ar_State req) then mret (Err ErrApprovalAlreadyDecided)
                       else if bool_decide (b = ar_RequestedBy req) then mret (Err ErrApproveBySameActor)
                       else f req
           end).
Proof.
  intros Hf w Hw. unfold ApprovalRepository_Get. mrun.
  assert (Hgo : ∀ w1 req, w_db w1 = w_db w → db_approvals (w_db w) !! id = Some req →
    b ≠ ar_RequestedBy req → two_person (w_db (f req w1).2)).
  { intros w1 req E Hr Hne. apply (Hf req w1). rewrite E. split; [done|]. intros r' Hr'. congruence. }
  destruct (env_faults (w_env w)) as [|[| |] fs]; cbn; try done;
    (destruct (db_approvals (w_db w) !! id) as [req|] eqn:Er; cbn; [|done];
     destruct (IsTerminal (ar_State req)); [done|]; case_bool_decide; [done|]; by apply Hgo).
Qed.

Lemma tp_approve id b note : pres TP (Approve ToLower sv id b note).
Proof. unfold Approve. apply tp_checked. intros req. apply tp_approveInternal. Qed.

Lemma tp_reject id b note : pres TP (Reject ToLower sv id b note).
Proof.
  unfold Reject. apply tp_checked. intros req. destruct (tp_at_closed id b) as [Hsame Hu].
  repeat lazymatch goal with
  | |- pres _ (ApprovalRepository_UpdateState _ _ _ _ _) => by apply Hu
  | |- pres _ (recordAudit _ _ _ _ _ _ _) => apply Hsame, same_recordAudit
  | |- pres _ (JobRepository_UpdateStatus _ _ _) => apply Hsame, same_UpdateStatus
  | _ => pres_step
  end.
Qed.

Lemma tp_expire before : pres TP (ExpireStale ToLower fmt sv before).
Proof.
  unfold ExpireStale, ApprovalRepository_List, ApprovalRepository_ExpireStale, expire_one.
  repeat lazymatch goal with
  | |- pres _ (recordAudit _ _ _ _ _ _ _) => apply tp_audit
  | |- pres _ (JobRepository_UpdateStatus _ _ _) => apply tp_same, same_UpdateStatus
  | |- pres _ _ => pres_step
  end.
  apply two_person_expire.
Qed.

Lemma tp_update_profile who id p :
  pres TP (UpdateProfile ToLower uuid (Some sv) true who id p).
Proof.
  assert (HU : ∀ q, pres same_approvals (ProfileRepository_Update q)).
  { intros q. unfold ProfileRepository_Update. repeat pres_step. by case_match. }
  unfold UpdateProfile, ProfileRepository_Get.
  repeat lazymatch goal with
  | |- pres _ (ProfileRepository_Update _) => apply tp_same, HU
  | |- pres _ (RecordEvent _ _ _ _ _ _ _) =>
      apply tp_same; by apply (pres_RecordEvent ToLower same_approvals)
  | |- pres _ (RecordEventWithCategory _ _ _ _ _ _ _ _) =>
      apply tp_same; by apply (pres_RecordEventWithCategory ToLower same_approvals)
  | |- pres _ (RequestProfileEditApproval _ _ _ _ _ _) => apply tp_request_edit
  | _ => pres_step
  end.
Qed.

Lemma tp_trigger cert who force :
  pres TP (TriggerRenewal ToLower uuid (Some sv) true mode cert who force).
Proof.
  assert (HC : ∀ c, pres same_approvals (CertificateRepository_Update c)).
  { intros c. unfold CertificateRepository_Update. repeat pres_step. by case_match. }
  assert (HJ : ∀ j, pres same_approvals (JobRepository_Create j)).
  { intros j. unfold JobRepository_Create. repeat pres_step. by repeat case_match. }
  unfold TriggerRenewal, needs_approval, ProfileRepository_Get, CertificateRepository_Get, generateID.
  repeat lazymatch goal with
  | |- pres _ (CertificateRepository_Update _) => apply tp_same, HC
  | |- pres _ (JobRepository_Create _) => apply tp_same, HJ
  | |- pres _ (RecordEvent _ _ _ _ _ _ _) =>
      apply tp_same; by apply (pres_RecordEvent ToLower same_approvals)
  | |- pres _ (RequestApproval _ _ _ _ _ _ _ _) => apply tp_request
  | |- pres _ (JobRepository_UpdateStatus _ _ _) => apply tp_same, same_UpdateStatus
  | _ => pres_step
  end.
Qed.
End two_person.

(** C1: two-person integrity.  With the bypass switched off, after any sequence
    of requests, approvals, rejections, expiry sweeps, gated profile edits and renewals, under
    any database failures, every request that stands approved or rejected was decided by a
    named actor different from the one who requested it. *)
Theorem two_person_integrity ToLower uuid fmt mode ops w :
  two_person (w_db w) →
  two_person (w_db (for_each ops (run_aop ToLower uuid fmt mode false) w).2).
Proof.
  intros H. refine (pres_for_each (λ d d', two_person d → two_person d') ops _ (λ op, _) w H).
  destruct op; cbn; (pres_step; [|pres_step]).
  - apply tp_request.
  - apply tp_request_edit.
  - apply tp_approve.
  - apply tp_reject.
  - apply tp_expire.
  - apply tp_update_profile.
  - apply tp_trigger.
Qed.

Lemma two_person_integrity_witness :
  two_person (w_db (for_each [OpApproveReq "ar-1" "bob" ""; OpApproveReq "ar-1" "carol" "ok"]
    (run_aop lower_ascii pretty (λ _, "") "agent" false)
    (approvals_world (sample_request ApprovalStatePending None))).2).
Proof.
  apply (two_person_integrity lower_ascii pretty (λ _, "") "agent"
    [OpApproveReq "ar-1" "bob" ""; OpApproveReq "ar-1" "carol" "ok"]).
  apply map_Forall_singleton. intros [H|H]; discriminate H.
Defined.

(** ** Approving *)
Lemma approval_Get_run id w r :
  env_faults (w_env w) = [] → db_approvals (w_db w) !! id = Some r →
  ApprovalRepository_Get id w = (Ok r, w).
Proof.
  intros Hf Hr. unfold ApprovalRepository_Get, mbind, M_bind. rewrite query_run by done. by rewrite Hr.
Qed.

Lemma UpdateState_run id st b at_ note w r :
  env_faults (w_env w) = [] → IsValidApprovalState st = true → IsTerminal st = true →
  db_approvals (w_db w) !! id = Some r → ar_State r = ApprovalStatePending →
  ∃ upd w', ApprovalRepository_UpdateState id st b at_ note w = (Ok tt, w') ∧
    env_faults (w_env w') = [] ∧
    w_db w' = set_approvals (<[id := ar_decide st b at_
                (if bool_decide (note = "") then None else Some note) upd r]>) (w_db w).
Proof.
  intros Hf Hv Ht Hr Hp. unfold ApprovalRepository_UpdateState. rewrite Hv, Ht. cbn [negb].
  unfold mbind, M_bind. destruct (now_run w) as (t & w1 & -> & Hd1 & Hf1).
  rewrite exec_run by congruence. rewrite Hd1, Hr, bool_decide_eq_true_2 by done. cbn.
  eexists t, _. split_and!; [reflexivity|cbn; congruence|done].
Qed.

Lemma job_status_run id msg w row :
  env_faults (w_env w) = [] → db_jobs (w_db w) !! id = Some row →
  JobRepository_UpdateStatus id JobStatusPending msg w =
    (Ok tt, mkWorld (set_jobs (<[id := job_with JobStatusPending
                       (if bool_decide (msg = "") then None else Some msg) row]>) (w_db w)) (w_env w)).
Proof.
  intros Hf Hr. unfold JobRepository_UpdateStatus. change (terminal_status JobStatusPending) with false.
  cbv iota zeta. rewrite exec_run by done. unfold set_row. by rewrite Hr.
Qed.

(** The audit tail of an operation changes neither jobs nor approvals. *)
Definition same_tables (d d' : DB) : Prop :=
  db_approvals d' = db_approvals d ∧ db_jobs d' = db_jobs d.
#[local] Instance same_tables_preorder : PreOrder same_tables.
Proof. split; unfold same_tables; [by intros d|]. intros d1 d2 d3 [] []. split; congruence. Qed.

Lemma tables_recordAudit ToLower s a t act req extra :
  pres same_tables (recordAudit ToLower s a t act req extra).
Proof. unfold recordAudit. repeat pres_step; by apply (pres_RecordEvent ToLower same_tables). Qed.

(** [Approve] does what the workflow promises.  Without database failures,
    a decided request is refused as already decided and a request of the approver's own as
    self-approval, both without any change; otherwise the request becomes approved by that
    actor with the note, and its job - and no other - becomes Pending. *)
Theorem approve_exact ToLower s id b note w r row :
  env_faults (w_env w) = [] →
  db_approvals (w_db w) !! id = Some r → ar_Kind r = ApprovalKindCertIssuance →
  ar_State r = ApprovalStatePending ∨ IsTerminal (ar_State r) = true →
  db_jobs (w_db w) !! ar_JobID r = Some row →
  let '(res, w') := Approve ToLower s id b note w in
  (IsTerminal (ar_State r) = true → res = Err ErrApprovalAlreadyDecided ∧ w_db w' = w_db w) ∧
  (ar_State r = ApprovalStatePending → b = ar_RequestedBy r →
     res = Err ErrApproveBySameActor ∧ w_db w' = w_db w) ∧
  (ar_State r = ApprovalStatePending → b ≠ ar_RequestedBy r →
     res = Ok tt ∧
     db_jobs (w_db w') = <[ar_JobID r := job_with JobStatusPending None row]> (db_jobs (w_db w)) ∧
     ∃ t upd, db_approvals (w_db w') =
       <[id := ar_decide ApprovalStateApproved b t
                 (if bool_decide (note = "") then None else Some note) upd r]> (db_approvals (w_db w))).
Proof.
  intros Hf Hr Hk Hst Hj. unfold Approve, mbind, M_bind. rewrite (approval_Get_run id w r) by done.
  destruct Hst as [Hp|Ht]; [|rewrite Ht; split_and!; try done; by intros E; rewrite E in Ht].
  rewrite Hp. change (IsTerminal ApprovalStatePending) with false. cbv iota.
  case_bool_decide as Hb; [by split_and!|].
  unfold approveInternal, mbind, M_bind. destruct (now_run w) as (t & w1 & -> & Hd1 & Hf1).
  rewrite (approval_Get_run id w1 r) by congruence. rewrite Hp.
  change (IsTerminal ApprovalStatePending) with false. cbv iota.
  destruct (UpdateState_run id ApprovalStateApproved b t note w1 r) as (upd & w2 & -> & Hf2 & Hd2);
    [congruence|done|done|congruence|done|].
  rewrite (bool_decide_eq_false_2 (ar_Kind r = ApprovalKindProfileEdit)) by (by rewrite Hk).
  rewrite (job_status_run (ar_JobID r) "" w2 row); [|done|by rewrite Hd2, Hd1].
  match goal with |- context [recordAudit ToLower s b ?t ?act r ?ex ?w3] =>
    pose proof (tables_recordAudit ToLower s b t act r ex w3) as [Ha Hjobs];
    destruct (recordAudit ToLower s b t act r ex w3) as [[] w4] end.
  split_and!; [done|done|]. intros _ _. cbn in *. rewrite Hjobs, Ha, Hd2, Hd1. cbn.
  split_and!; [done|done|]. by exists t, upd.
Qed.

Lemma approve_exact_witness :
  (Approve lower_ascii (production lower_ascii false) "ar-1" "carol" "ok"
     (approvals_world (sample_request ApprovalStatePending None))).1 = Ok tt.
Proof.
  pose proof (approve_exact lower_ascii (production lower_ascii false) "ar-1" "carol" "ok"
    (approvals_world (sample_request ApprovalStatePending None))
    (sample_request ApprovalStatePending None) sample_awaiting
    eq_refl eq_refl eq_refl (or_introl eq_refl) eq_refl) as H.
  destruct (Approve lower_ascii (production lower_ascii false) "ar-1" "carol" "ok"
     (approvals_world (sample_request ApprovalStatePending None))) as [res w'].
  destruct H as (_ & _ & H). apply H; [reflexivity|discriminate].
Defined.

(** ** The gate in front of renewal *)
Section gate.
Variable ToLower : string → string.
Variable uuid : N → string.
Variable s : ApprovalService.
Variable profileRepo : bool.
Variable mode : string.

(** What may have happened since database [d0] if nothing was gated. *)
Definition ungated (d0 d : DB) : Prop :=
  db_approvals d = db_approvals d0 ∧
  ∀ id j, db_jobs d !! id = Some j →
    db_jobs d0 !! id = Some j ∨ job_Status j ≠ JobStatusAwaitingApproval.

Lemma ungated_tables {A} d0 (m : M DB A) :
  pres same_tables m → keeps (ungated d0) m (λ _, True).
Proof.
  intros H. apply keeps_pres. intros w [H1 H2]. destruct (H w) as [Ea Ej].
  unfold ungated. rewrite Ea, Ej. done.
Qed.

(** The repository never reports a profile as approval-tier. *)
Lemma needs_approval_none d0 cert :
  keeps (ungated d0) (needs_approval (Some s) profileRepo cert) (λ r, r = None).
Proof.
  unfold needs_approval. case_match; [|by apply keeps_ret].
  eapply (keeps_bind _ _ _ (λ r, match r with Ok p => pf_RequiresApproval p = false | Err _ => True end)).
  - unfold ProfileRepository_Get. eapply (keeps_bind _ _ _ (λ _, True)); [by apply keeps_query|].
    intros [[row|]|e] _; by apply keeps_ret.
  - intros [p|e] Hp; apply keeps_ret; [by rewrite Hp|done].
Qed.

Lemma ungated_create d0 j : job_Status j ≠ JobStatusAwaitingApproval →
  keeps (ungated d0) (JobRepository_Create j) (λ _, True).
Proof.
  intros Hj. apply keeps_exec; [|done]. intros d [Ha Hjobs]. split; [|done].
  destruct (db_jobs d !! job_ID j); [done|]. destruct (job_fk_ok d j); [|done].
  split; [done|]. intros id j'. cbn. rewrite lookup_insert_Some.
  intros [[_ <-]|[_ H]]; [by right|by apply Hjobs].
Qed.

Lemma ungated_trigger d0 certID actor force :
  keeps (ungated d0) (TriggerRenewal ToLower uuid (Some s) profileRepo mode certID actor force)
    (λ _, True).
Proof.
  unfold TriggerRenewal.
  eapply (keeps_bind _ _ _ (λ _, True)).
  { apply ungated_tables. unfold CertificateRepository_Get. repeat pres_step. }
  intros [cert|e] _; [|by apply keeps_ret]. do 3 (case_match; [by apply keeps_ret|]). cbv zeta.
  eapply (keeps_bind _ _ _ (λ _, True)).
  { apply ungated_tables. unfold CertificateRepository_Update. repeat pres_step. by case_match. }
  intros [[]|e] _; [|by apply keeps_ret].
  eapply keeps_bind; [apply needs_approval_none|]. intros ? ->.
  eapply (keeps_bind _ _ _ (λ _, True)).
  { apply ungated_tables. unfold generateID. repeat pres_step. }
  intros jobID _. apply keeps_now. intros t1. apply keeps_now. intros t2.
  eapply keeps_bind; [apply ungated_create; cbn; by case_match|].
  intros [[]|e] _; [|by apply keeps_ret].
  eapply (keeps_bind _ _ _ (λ _, True)); [by apply keeps_ret|].
  intros [[]|e] _; [|by apply keeps_ret].
  eapply (keeps_bind _ _ _ (λ _, True)); [|by intros; apply keeps_ret].
  apply ungated_tables. by apply (pres_RecordEvent ToLower same_tables).
Qed.
End gate.

(** the approval gate in front of renewal never closes.  Whatever the
    certificate's profile says, [TriggerRenewal] creates no approval request and no
    job that awaits approval, because the profile repository does not read the
    requires_approval column. *)
Theorem approval_gate_never_fires ToLower uuid s profileRepo mode certID actor force w :
  let w' := (TriggerRenewal ToLower uuid (Some s) profileRepo mode certID actor force w).2 in
  db_approvals (w_db w') = db_approvals (w_db w) ∧
  ∀ id j, db_jobs (w_db w') !! id = Some j →
    db_jobs (w_db w) !! id = Some j ∨ job_Status j ≠ JobStatusAwaitingApproval.
Proof.
  refine (proj1 (ungated_trigger ToLower uuid s profileRepo mode (w_db w) certID actor force w _)).
  split; [done|]. by left.
Qed.

(** An approval-tier profile can be edited without approval.  When the
    stored profile requires approval and the edit does not ask for the flag,
    [UpdateProfile] applies the edit at once and creates no approval request. *)
Theorem profile_edit_ungated ToLower uuid s who id p row w :
  env_faults (w_env w) = [] → validateProfile p = None → pf_RequiresApproval p = false →
  db_profiles (w_db w) !! id = Some row → pf_RequiresApproval row = true →
  let '(r, w') := UpdateProfile ToLower uuid (Some s) false who id p w in
  r = Ok (with_id id p) ∧ db_approvals (w_db w') = db_approvals (w_db w) ∧
  ∃ row', db_profiles (w_db w') !! id = Some row' ∧ pf_Name row' = pf_Name p ∧
    pf_MaxTTLSeconds row' = pf_MaxTTLSeconds p.
Proof.
  intros Hf Hv Hp Hrow Hreq. unfold UpdateProfile. rewrite Hv. cbv zeta.
  unfold ProfileRepository_Get, ProfileRepository_Update, mbind, M_bind. rewrite query_run by done.
  rewrite Hrow. cbn [pf_RequiresApproval scanProfile with_id mret M_ret]. rewrite Hp.
  cbn [orb]. destruct (now_run w) as (t & w1 & -> & Hd1 & Hf1).
  rewrite exec_run by congruence. cbn [pf_ID with_id]. rewrite Hd1, Hrow. cbn.
  split_and!; [done|done|]. rewrite lookup_insert_eq. eexists. split; [reflexivity|]. done.
Qed.

Lemma profile_edit_ungated_witness :
  (UpdateProfile lower_ascii pretty (Some (production lower_ascii false)) false "eve" "cp-1"
     (sample_profile "weak" false) (approvals_world (sample_request ApprovalStatePending None))).1 =
    Ok (with_id "cp-1" (sample_profile "weak" false)).
Proof.
  pose proof (profile_edit_ungated lower_ascii pretty (production lower_ascii false) "eve" "cp-1"
    (sample_profile "weak" false) (sample_profile "prod" true)
    (approvals_world (sample_request ApprovalStatePending None)) eq_refl eq_refl eq_refl eq_refl eq_refl) as H.
  destruct (UpdateProfile lower_ascii pretty (Some (production lower_ascii false)) false "eve" "cp-1"
     (sample_profile "weak" false) (approvals_world (sample_request ApprovalStatePending None))).
  apply H.
Defined.

(** A rejected job can be brought back.  [RejectJob] cancels a gated job but
    leaves its approval request open; a later [Approve] of that request puts the cancelled
    job back into Pending. *)
Theorem rejected_job_resurrected :
  let w0 := approvals_world (sample_request ApprovalStatePending None) in
  let w1 := (RejectJob "j-1" "not today" "carol" w0).2 in
  let w2 := (Approve lower_ascii (production lower_ascii false) "ar-1" "dave" "" w1).2 in
  job_Status <$> db_jobs (w_db w1) !! "j-1" = Some JobStatusCancelled ∧
  job_Status <$> db_jobs (w_db w2) !! "j-1" = Some JobStatusPending.
Proof. vm_compute. done. Qed.

(** Rejecting a profile edit reports a failure after it took effect.  A
    profile-edit request has no job, so [Reject] marks it rejected, fails to update the job
    with the empty id and returns an error. *)
Theorem reject_profile_edit_errs ToLower s id b note w r :
  env_faults (w_env w) = [] →
  db_approvals (w_db w) !! id = Some r → ar_State r = ApprovalStatePending →
  ar_JobID r = "" → db_jobs (w_db w) !! "" = None → b ≠ ar_RequestedBy r →
  let '(res, w') := Reject ToLower s id b note w in
  is_Ok res = false ∧ ar_State <$> db_approvals (w_db w') !! id = Some ApprovalStateRejected.
Proof.
  intros Hf Hr Hp Hj Hnone Hb. unfold Reject, mbind, M_bind. rewrite (approval_Get_run id w r) by done.
  rewrite Hp. change (IsTerminal ApprovalStatePending) with false. cbv iota.
  rewrite bool_decide_eq_false_2 by done. destruct (now_run w) as (t & w1 & -> & Hd1 & Hf1).
  destruct (UpdateState_run id ApprovalStateRejected b t note w1 r) as (upd & w2 & -> & Hf2 & Hd2);
    [congruence|done|done|congruence|done|].
  rewrite Hj. unfold JobRepository_UpdateStatus at 1.
  change (terminal_status JobStatusCancelled) with true. cbv iota zeta. unfold mbind, M_bind.
  destruct (now_run w2) as (t2 & w3 & -> & Hd3 & Hf3).
  rewrite exec_run by congruence. unfold set_row at 1. rewrite Hd3, Hd2, Hd1. cbn [set_approvals db_jobs].
  rewrite Hnone. cbn [fst snd].
  match goal with |- context [recordAudit ToLower s b ?t ?act r ?ex ?w3] =>
    pose proof (tables_recordAudit ToLower s b t act r ex w3) as [Ha _];
    destruct (recordAudit ToLower s b t act r ex w3) as [[] w4] end.
  split; [done|]. cbn in *. rewrite Ha. unfold set_row. cbn [set_approvals db_jobs]. rewrite Hnone. cbn.
  by rewrite lookup_insert_eq.
Qed.

Lemma reject_profile_edit_errs_witness :
  let r := mkApproval "ar-1" ApprovalKindProfileEdit "" "" "cp-1" "bob" ApprovalStatePending
             None None None [] (Some (sample_profile "weak" true)) 5 5 in
  is_Ok (Reject lower_ascii (production lower_ascii false) "ar-1" "carol" "no" (approvals_world r)).1 = false.
Proof.
  pose proof (reject_profile_edit_errs lower_ascii (production lower_ascii false) "ar-1" "carol" "no"
    (approvals_world (mkApproval "ar-1" ApprovalKindProfileEdit "" "" "cp-1" "bob" ApprovalStatePending
             None None None [] (Some (sample_profile "weak" true)) 5 5)) _
    eq_refl eq_refl eq_refl eq_refl eq_refl ltac:(discriminate)) as H.
  cbv zeta. destruct (Reject lower_ascii (production lower_ascii false) "ar-1" "carol" "no" _).
  apply H.
Defined.
