(* ===== verification/Rbac.v ===== *)
(** * Role-based access control (src/internal/domain/auth/types.go, validate.go,
      src/internal/repository/postgres/auth.go, src/internal/service/auth)

    [AuthDB] holds the roles, permissions, role_permissions and actor_roles tables;
    [Module AuthRepo] is the SQL over them, [Module AuthService] the authorizer and the
    role services, [Module Catalogue] the seeded permission catalogue and roles. *)

From stdpp Require Import prelude gmap strings list sorting pretty.
From Stdlib Require Import ZArith Lia.
From S2P Require Import Prelude AuditTrail.

(** ** domain/auth/types.go *)
Definition ScopeTypeGlobal : string := "global".
Definition ScopeTypeProfile : string := "profile".
Definition ScopeTypeIssuer : string := "issuer".

Record Role := mkRole {
  role_ID : string;
  role_TenantID : string;
  role_Name : string;
  role_Description : string;
  role_CreatedAt : Z;
  role_UpdatedAt : Z
}.

Record Permission := mkPermission { perm_ID : string; perm_Name : string; perm_Namespace : string }.

Record RolePermission := mkRolePermission {
  rp_RoleID : string;
  rp_PermissionID : string;
  rp_ScopeType : string;
  rp_ScopeID : option string
}.

Record ActorRole := mkActorRole {
  acr_ID : string;
  acr_ActorID : string;
  acr_ActorType : string;
  acr_RoleID : string;
  acr_GrantedAt : Z;
  acr_ExpiresAt : option Z;
  acr_GrantedBy : string;
  acr_TenantID : string;
  acr_ScopeType : string;
  acr_ScopeID : option string
}.

#[global] Instance RolePermission_eq_dec : EqDecision RolePermission.
Proof. solve_decision. Defined.
#[global] Instance ActorRole_eq_dec : EqDecision ActorRole.
Proof. solve_decision. Defined.

Record EffectivePermission := mkEffective {
  ep_PermissionName : string;
  ep_ScopeType : string;
  ep_ScopeID : option string
}.

#[global] Instance EffectivePermission_eq_dec : EqDecision EffectivePermission.
Proof. solve_decision. Defined.

(** ** The tables *)
Record AuthDB := mkAuthDB {
  au_roles : gmap string Role;
  au_permissions : list Permission;
  au_role_permissions : list RolePermission;
  au_actor_roles : list ActorRole;
  au_audit : list AuditEvent
}.

Definition set_roles (f : gmap string Role → gmap string Role) (d : AuthDB) : AuthDB :=
  mkAuthDB (f (au_roles d)) (au_permissions d) (au_role_permissions d) (au_actor_roles d) (au_audit d).
Definition set_role_permissions (f : list RolePermission → list RolePermission) (d : AuthDB) : AuthDB :=
  mkAuthDB (au_roles d) (au_permissions d) (f (au_role_permissions d)) (au_actor_roles d) (au_audit d).
Definition set_actor_roles (f : list ActorRole → list ActorRole) (d : AuthDB) : AuthDB :=
  mkAuthDB (au_roles d) (au_permissions d) (au_role_permissions d) (f (au_actor_roles d)) (au_audit d).
Definition set_auth_audit (f : list AuditEvent → list AuditEvent) (d : AuthDB) : AuthDB :=
  mkAuthDB (au_roles d) (au_permissions d) (au_role_permissions d) (au_actor_roles d) (f (au_audit d)).

#[global, program] Instance HasAudit_AuthDB : HasAudit AuthDB :=
  {| audit_log := au_audit; append_audit := λ ev, set_auth_audit (λ l, l ++ [ev]) |}.
Next Obligation. done. Qed.

Definition DefaultTenantID : string := "t-default".
Definition RoleIDAdmin : string := "r-admin".
Definition RoleIDOperator : string := "r-operator".
Definition RoleIDViewer : string := "r-viewer".
Definition RoleIDAgent : string := "r-agent".
Definition RoleIDMCP : string := "r-mcp".
Definition RoleIDCLI : string := "r-cli".
Definition RoleIDAuditor : string := "r-auditor".
Definition DemoAnonActorID : string := "actor-demo-anon".

(** ** domain/auth/validate.go *)
Module Catalogue.
Definition CanonicalPermissions : list string :=
  [ "cert.read"; "cert.issue"; "cert.edit"; "cert.revoke"; "cert.delete";
    "profile.read"; "profile.edit"; "profile.delete";
    "issuer.read"; "issuer.edit"; "issuer.delete";
    "target.read"; "target.edit"; "target.delete";
    "agent.read"; "agent.edit"; "agent.retire"; "agent.heartbeat"; "agent.job.poll";
    "agent.job.complete"; "agent.job.report";
    "audit.read"; "audit.export";
    "auth.role.list"; "auth.role.create"; "auth.role.edit"; "auth.role.delete";
    "auth.role.assign"; "auth.role.revoke";
    "auth.key.list"; "auth.key.create"; "auth.key.rotate"; "auth.key.delete";
    "auth.bootstrap.use";
    "cert.bulk_revoke"; "crl.admin"; "scep.admin"; "est.admin"; "ca.hierarchy.manage";
    "auth.session.list"; "auth.session.list.all"; "auth.session.revoke";
    "auth.oidc.list"; "auth.oidc.create"; "auth.oidc.edit"; "auth.oidc.delete";
    "auth.breakglass.admin"; "auth.breakglass.login";
    "job.read"; "job.cancel";
    "approval.read"; "approval.approve"; "approval.reject";
    "policy.read"; "policy.edit"; "policy.delete";
    "team.read"; "team.edit"; "team.delete";
    "owner.read"; "owner.edit"; "owner.delete";
    "notification.read"; "notification.edit";
    "discovery.read"; "discovery.run"; "discovery.claim";
    "network_scan.read"; "network_scan.edit"; "network_scan.run";
    "healthcheck.read"; "healthcheck.edit"; "healthcheck.delete"; "healthcheck.acknowledge";
    "digest.read"; "digest.send";
    "verification.read"; "verification.run";
    "stats.read"; "metrics.read" ].

Definition DefaultRoles : list (string * list string) :=
  [ (RoleIDAdmin, CanonicalPermissions);
    (RoleIDOperator,
      [ "cert.read"; "cert.issue"; "cert.edit"; "cert.revoke"; "cert.delete";
        "profile.read"; "profile.edit"; "issuer.read"; "issuer.edit";
        "target.read"; "target.edit"; "target.delete"; "agent.read"; "agent.edit";
        "audit.read"; "job.read"; "job.cancel";
        "approval.read"; "approval.approve"; "approval.reject";
        "policy.read"; "policy.edit"; "policy.delete";
        "team.read"; "team.edit"; "team.delete"; "owner.read"; "owner.edit"; "owner.delete";
        "notification.read"; "notification.edit";
        "discovery.read"; "discovery.run"; "discovery.claim";
        "network_scan.read"; "network_scan.edit"; "network_scan.run";
        "healthcheck.read"; "healthcheck.edit"; "healthcheck.delete"; "healthcheck.acknowledge";
        "digest.read"; "digest.send"; "verification.read"; "verification.run";
        "stats.read"; "metrics.read" ]);
    (RoleIDViewer,
      [ "cert.read"; "profile.read"; "issuer.read"; "target.read"; "agent.read"; "audit.read";
        "job.read"; "approval.read"; "policy.read"; "team.read"; "owner.read";
        "notification.read"; "discovery.read"; "network_scan.read"; "healthcheck.read";
        "digest.read"; "verification.read"; "stats.read"; "metrics.read" ]);
    (RoleIDAgent,
      [ "cert.read"; "agent.heartbeat"; "agent.job.poll"; "agent.job.complete";
        "agent.job.report"; "discovery.run" ]);
    (RoleIDMCP,
      [ "cert.read"; "cert.issue"; "cert.edit"; "cert.revoke";
        "profile.read"; "profile.edit"; "issuer.read"; "issuer.edit";
        "target.read"; "target.edit"; "agent.read"; "audit.read";
        "job.read"; "job.cancel"; "approval.read"; "approval.approve"; "approval.reject";
        "policy.read"; "team.read"; "owner.read"; "notification.read"; "notification.edit";
        "discovery.read"; "discovery.claim"; "network_scan.read"; "network_scan.run";
        "healthcheck.read"; "healthcheck.acknowledge"; "digest.read";
        "verification.read"; "verification.run"; "stats.read"; "metrics.read" ]);
    (RoleIDCLI,
      [ "cert.read"; "cert.issue"; "cert.edit"; "cert.revoke"; "cert.delete";
        "profile.read"; "profile.edit"; "issuer.read"; "issuer.edit";
        "target.read"; "target.edit"; "target.delete"; "agent.read"; "agent.edit";
        "audit.read"; "auth.key.list"; "auth.key.create"; "auth.key.rotate";
        "job.read"; "job.cancel"; "approval.read"; "approval.approve"; "approval.reject";
        "policy.read"; "policy.edit"; "policy.delete"; "team.read"; "team.edit";
        "owner.read"; "owner.edit"; "notification.read"; "notification.edit";
        "discovery.read"; "discovery.run"; "discovery.claim";
        "network_scan.read"; "network_scan.edit"; "network_scan.run";
        "healthcheck.read"; "healthcheck.edit"; "healthcheck.acknowledge";
        "digest.read"; "digest.send"; "verification.read"; "verification.run";
        "stats.read"; "metrics.read" ]);
    (RoleIDAuditor, [ "audit.read"; "audit.export" ]) ].

Definition default_permissions (role : string) : list string :=
  match list_find (λ kv, kv.1 = role) DefaultRoles with
  | Some (_, (_, ps)) => ps
  | None => []
  end.
End Catalogue.

Import Catalogue.

(** ** postgres/auth.go *)
Module AuthRepo.
Definition ErrAuthNotFound : error := ErrSentinel "auth: row not found".
Definition ErrAuthDuplicateName : error := ErrSentinel "auth: duplicate name".
Definition ErrAuthRoleInUse : error := ErrSentinel "auth: role still has active actor assignments".
Definition ErrAuthReservedActor : error := ErrSentinel "auth: reserved system actor cannot be modified".
Definition ErrActorRoleNotFound : error := ErrSentinel "auth: no actor_role row matches the requested scope".

Definition auth_rows {A} (m : gmap string A) : list A := (map_to_list m).*2.

Definition RoleRepository_Get (id : string) : M AuthDB (res Role) :=
  r ← sql_query "role scan" (λ d, au_roles d !! id);
  mret match r with
       | Err e => Err e
       | Ok None => Err ErrAuthNotFound
       | Ok (Some x) => Ok x
       end.

Definition RoleRepository_GetByName (tenantID name : string) : M AuthDB (res Role) :=
  r ← sql_query "role scan" (λ d,
        head (filter (λ x, role_TenantID x = tenantID ∧ role_Name x = name) (auth_rows (au_roles d))));
  mret match r with
       | Err e => Err e
       | Ok None => Err ErrAuthNotFound
       | Ok (Some x) => Ok x
       end.

(** The UNIQUE (tenant_id, name) constraint. *)
Definition name_taken (d : AuthDB) (id tenantID name : string) : bool :=
  existsb (λ x, bool_decide (role_ID x ≠ id ∧ role_TenantID x = tenantID ∧ role_Name x = name))
    (auth_rows (au_roles d)).

Section ids.
(** [uuid.NewString()], one per draw. *)
Variable uuid_NewString : N → string.

Definition fresh_id (prefix id : string) : M AuthDB string :=
  if bool_decide (id = "") then n ← fresh; mret (prefix +:+ uuid_NewString n)%string
  else mret id.

(** [Create] on a role without timestamps, as the handlers build it; the role
    comes back as it was stored. *)
Definition RoleRepository_Create (role : Role) : M AuthDB (Role * res unit) :=
  id ← fresh_id "r-" (role_ID role);
  let tenant := if bool_decide (role_TenantID role = "") then DefaultTenantID else role_TenantID role in
  t ← now;
  let role := mkRole id tenant (role_Name role) (role_Description role) t t in
  r ← sql_exec "role.create" (λ d,
        if bool_decide (is_Some (au_roles d !! id)) || name_taken d id tenant (role_Name role)
        then (Err ErrAuthDuplicateName, d)
        else (Ok tt, set_roles (<[id := role]>) d));
  mret (role, r).

(** The UNIQUE constraint of actor_roles treats NULL scope ids as distinct. *)
Definition grant_conflict (ar x : ActorRole) : bool :=
  bool_decide (acr_ActorID x = acr_ActorID ar ∧ acr_ActorType x = acr_ActorType ar ∧
               acr_RoleID x = acr_RoleID ar ∧ acr_ScopeType x = acr_ScopeType ar ∧
               acr_TenantID x = acr_TenantID ar) &&
  match acr_ScopeID x, acr_ScopeID ar with
  | Some a, Some b => bool_decide (a = b)
  | _, _ => false
  end.

(** CHECK and foreign-key constraints of actor_roles. *)
Definition grant_checks (d : AuthDB) (ar : ActorRole) : bool :=
  bool_decide (is_Some (au_roles d !! acr_RoleID ar)) &&
  bool_decide (acr_ActorType ar ∈
    [ActorTypeUser; ActorTypeSystem; ActorTypeAgent; ActorTypeAPIKey; ActorTypeAnonymous]) &&
  (bool_decide (acr_ScopeType ar = ScopeTypeGlobal ∧ acr_ScopeID ar = None) ||
   (bool_decide (acr_ScopeType ar ∈ [ScopeTypeProfile; ScopeTypeIssuer]) &&
    bool_decide (is_Some (acr_ScopeID ar)))) &&
  negb (existsb (λ x, bool_decide (acr_ID x = acr_ID ar)) (au_actor_roles d)).

(** The row [Grant] inserts. *)
Definition grant_row (ar : ActorRole) (id : string) (granted : Z) : ActorRole :=
  mkActorRole id (acr_ActorID ar) (acr_ActorType ar) (acr_RoleID ar) granted (acr_ExpiresAt ar)
    (if bool_decide (acr_GrantedBy ar = "") then "system" else acr_GrantedBy ar)
    (if bool_decide (acr_TenantID ar = "") then DefaultTenantID else acr_TenantID ar)
    (if bool_decide (acr_ScopeType ar = "") then ScopeTypeGlobal else acr_ScopeType ar)
    match acr_ScopeID ar with
    | Some s => if bool_decide (s = "") then None else Some s
    | None => None
    end.

(** [Grant] on a grant without a timestamp, as the handlers build it:
    INSERT ... ON CONFLICT DO NOTHING. *)
Definition ActorRoleRepository_Grant (ar : ActorRole) : M AuthDB (ActorRole * res unit) :=
  id ← fresh_id "ar-" (acr_ID ar);
  t ← now;
  let row := grant_row ar id t in
  r ← sql_exec "actorRole.grant" (λ d,
        if negb (grant_checks d row) then (Err (ErrMsg "actorRole.grant: constraint violation"), d)
        else if existsb (grant_conflict row) (au_actor_roles d) then (Ok tt, d)
        else (Ok tt, set_actor_roles (λ l, l ++ [row]) d));
  mret (row, r).
End ids.

Definition RoleRepository_Update (role : Role) : M AuthDB (res unit) :=
  t ← now;
  sql_exec "role.update" (λ d,
    match au_roles d !! role_ID role with
    | None => (Err ErrAuthNotFound, d)
    | Some x =>
        if name_taken d (role_ID role) (role_TenantID x) (role_Name role)
        then (Err ErrAuthDuplicateName, d)
        else (Ok tt, set_roles (<[role_ID role := mkRole (role_ID x) (role_TenantID x)
                (role_Name role) (role_Description role) (role_CreatedAt x) t]>) d)
    end).

(** actor_roles.role_id is ON DELETE RESTRICT, role_permissions CASCADE. *)
Definition RoleRepository_Delete (id : string) : M AuthDB (res unit) :=
  sql_exec "role.delete" (λ d,
    if existsb (λ x, bool_decide (acr_RoleID x = id)) (au_actor_roles d)
    then (Err ErrAuthRoleInUse, d)
    else (Ok tt, set_role_permissions (filter (λ rp, rp_RoleID rp ≠ id)) (set_roles (delete id) d))).

Definition RoleRepository_ListPermissions (roleID : string) : M AuthDB (res (list RolePermission)) :=
  sql_query "role.listPermissions" (λ d,
    filter (λ rp, rp_RoleID rp = roleID) (au_role_permissions d)).

(** UNIQUE NULLS NOT DISTINCT, ON CONFLICT DO NOTHING. *)
Definition RoleRepository_AddPermission (g : RolePermission) : M AuthDB (res unit) :=
  sql_exec "role.addPermission" (λ d,
    if negb (bool_decide (is_Some (au_roles d !! rp_RoleID g))) ||
       negb (bool_decide (rp_ScopeType g ∈ [ScopeTypeGlobal; ScopeTypeProfile; ScopeTypeIssuer])) ||
       negb (bool_decide (rp_ScopeType g = ScopeTypeGlobal ↔ rp_ScopeID g = None))
    then (Err (ErrMsg "role.addPermission: constraint violation"), d)
    else if bool_decide (g ∈ au_role_permissions d) then (Ok tt, d)
    else (Ok tt, set_role_permissions (λ l, l ++ [g]) d)).

Definition RoleRepository_RemovePermission (g : RolePermission) : M AuthDB (res unit) :=
  sql_exec "role.removePermission" (λ d,
    (Ok tt, set_role_permissions (filter (λ rp, rp ≠ g)) d)).

Definition PermissionRepository_GetByName (name : string) : M AuthDB (res Permission) :=
  r ← sql_query "permission.getByName" (λ d, head (filter (λ p, perm_Name p = name) (au_permissions d)));
  mret match r with
       | Err e => Err e
       | Ok None => Err ErrAuthNotFound
       | Ok (Some p) => Ok p
       end.

Definition IsCanonical (name : string) : bool := bool_decide (name ∈ CanonicalPermissions).

Definition ActorRoleRepository_ListByActor (actorID actorType tenantID : string)
    : M AuthDB (res (list ActorRole)) :=
  sql_query "actorRole.listByActor" (λ d,
    filter (λ x, acr_ActorID x = actorID ∧ acr_ActorType x = actorType ∧ acr_TenantID x = tenantID)
      (au_actor_roles d)).

(** [repository.ActorRoleRevokeOptions] is the scope to revoke; [""] means every
    variant. *)
Definition revoke_matches (actorID actorType roleID tenantID scopeType : string)
    (scopeID : option string) (x : ActorRole) : bool :=
  bool_decide (acr_ActorID x = actorID ∧ acr_ActorType x = actorType ∧ acr_RoleID x = roleID ∧
               acr_TenantID x = tenantID) &&
  (bool_decide (scopeType = "") ||
   bool_decide (acr_ScopeType x = scopeType ∧
     acr_ScopeID x = match scopeID with
                     | Some s => if bool_decide (s = "") then None else Some s
                     | None => None
                     end)).

Definition ActorRoleRepository_Revoke (actorID actorType roleID tenantID scopeType : string)
    (scopeID : option string) : M AuthDB (res unit) :=
  let hit := revoke_matches actorID actorType roleID tenantID scopeType scopeID in
  sql_exec "actorRole.revoke" (λ d,
    let d' := set_actor_roles (filter (λ x, hit x = false)) d in
    if bool_decide (scopeType = "") || existsb hit (au_actor_roles d)
    then (Ok tt, d') else (Err ErrActorRoleNotFound, d)).

Definition active (t : Z) (x : ActorRole) : bool :=
  match acr_ExpiresAt x with None => true | Some e => t <? e end.

Definition ActorRoleRepository_AdminExists (tenantID : string) : M AuthDB (res bool) :=
  let tenantID := if bool_decide (tenantID = "") then DefaultTenantID else tenantID in
  t ← now;
  sql_query "actorRole.adminExists" (λ d,
    existsb (λ x, bool_decide (acr_RoleID x = RoleIDAdmin ∧ acr_TenantID x = tenantID ∧
                               acr_ActorID x ≠ DemoAnonActorID) && active t x) (au_actor_roles d)).

(** The CASE expressions of [EffectivePermissions]; [None] is a dropped row. *)
Definition effective_scope (ar : ActorRole) (rp : RolePermission) : option (string * option string) :=
  if bool_decide (acr_ScopeType ar = ScopeTypeGlobal) && bool_decide (rp_ScopeType rp = ScopeTypeGlobal)
  then Some (ScopeTypeGlobal, None)
  else if bool_decide (acr_ScopeType ar = ScopeTypeGlobal) then Some (rp_ScopeType rp, rp_ScopeID rp)
  else if bool_decide (rp_ScopeType rp = ScopeTypeGlobal) then Some (acr_ScopeType ar, acr_ScopeID ar)
  else if bool_decide (acr_ScopeType ar = rp_ScopeType rp) && bool_decide (acr_ScopeID ar = rp_ScopeID rp)
  then Some (acr_ScopeType ar, acr_ScopeID ar)
  else None.

Definition effective_rows (actorID actorType tenantID : string) (t : Z) (d : AuthDB)
    : list EffectivePermission :=
  ar ← filter (λ x, acr_ActorID x = actorID ∧ acr_ActorType x = actorType ∧
                    acr_TenantID x = tenantID ∧ active t x = true) (au_actor_roles d);
  rp ← filter (λ rp, rp_RoleID rp = acr_RoleID ar) (au_role_permissions d);
  p ← filter (λ p, perm_ID p = rp_PermissionID rp) (au_permissions d);
  match effective_scope ar rp with
  | Some (st, sid) => [mkEffective (perm_Name p) st sid]
  | None => []
  end.

Definition ActorRoleRepository_EffectivePermissions (actorID actorType tenantID : string)
    : M AuthDB (res (list EffectivePermission)) :=
  t ← now;
  sql_query "actorRole.effective" (λ d, remove_dups (effective_rows actorID actorType tenantID t d)).
End AuthRepo.

Import AuthRepo.

(** ** service/auth *)
Module AuthService.
Definition ErrForbidden : error := ErrSentinel "auth: caller lacks required permission".
Definition ErrUnauthenticated : error := ErrSentinel "auth: no actor in context".
Definition ErrInvalidPermission : error := ErrSentinel "auth: permission not in canonical catalogue".
Definition ErrSelfRoleAssignment : error :=
  ErrSentinel "auth: caller lacks auth.role.assign on target role".

Record Caller := mkCaller {
  c_ActorID : string;
  c_ActorType : string;
  c_TenantID : string;
  c_IsSystem : bool
}.

Definition tenant_or_default (t : string) : string :=
  if bool_decide (t = "") then DefaultTenantID else t.

(** The loop body of [CheckPermission]: does this effective permission answer
    the request? *)
Definition ep_answers (permission scopeType : string) (scopeID : option string)
    (ep : EffectivePermission) : bool :=
  bool_decide (ep_PermissionName ep = permission) &&
  (bool_decide (ep_ScopeType ep = ScopeTypeGlobal) ||
   (bool_decide (ep_ScopeType ep = scopeType) &&
    match scopeID, ep_ScopeID ep with
    | Some a, Some b => bool_decide (b = a)
    | _, _ => false
    end)).

Definition CheckPermission (actorID actorType tenantID permission scopeType : string)
    (scopeID : option string) : M AuthDB (res bool) :=
  if bool_decide (actorID = "") then mret (Ok false)
  else
    r ← ActorRoleRepository_EffectivePermissions actorID actorType (tenant_or_default tenantID);
    mret match r with
         | Err e => Err (ErrWrap "authorizer.CheckPermission" e)
         | Ok effective => Ok (existsb (ep_answers permission scopeType scopeID) effective)
         end.

Fixpoint HoldsAnyOf (actorID actorType tenantID : string) (permissions : list string)
    : M AuthDB (res bool) :=
  match permissions with
  | [] => mret (Ok false)
  | p :: ps =>
      r ← CheckPermission actorID actorType tenantID p ScopeTypeGlobal None;
      match r with
      | Err e => mret (Err e)
      | Ok true => mret (Ok true)
      | Ok false => HoldsAnyOf actorID actorType tenantID ps
      end
  end.

Section services.
Variable ToLower : string → string.
Variable uuid_NewString : N → string.
(** Whether the audit service is wired. *)
Variable audit : bool.

Definition auth_recordAudit (caller : Caller) (action resourceType resourceID : string)
    (d : details) : M AuthDB unit :=
  if audit then
    _ ← RecordEventWithCategory ToLower (c_ActorID caller) (c_ActorType caller) action
          EventCategoryAuth resourceType resourceID d;
    mret tt
  else mret tt.

(** *** role_service.go *)
Definition requirePermission (caller : option Caller) (perm : string) : M AuthDB (res Caller) :=
  match caller with
  | None => mret (Err ErrUnauthenticated)
  | Some c =>
      if c_IsSystem c then mret (Ok c)
      else
        r ← CheckPermission (c_ActorID c) (c_ActorType c) (tenant_or_default (c_TenantID c)) perm
              ScopeTypeGlobal None;
        mret match r with
             | Err e => Err e
             | Ok true => Ok c
             | Ok false => Err (ErrWrapPre ErrForbidden perm)
             end
  end.

Definition RoleService_Get (caller : option Caller) (id : string) : M AuthDB (res Role) :=
  p ← requirePermission caller "auth.role.list";
  match p with Err e => mret (Err e) | Ok _ => RoleRepository_Get id end.

Definition RoleService_Create (caller : option Caller) (role : Role) : M AuthDB (res unit) :=
  p ← requirePermission caller "auth.role.create";
  match p with
  | Err e => mret (Err e)
  | Ok c =>
      r ← RoleRepository_Create uuid_NewString role;
      match r with
      | (_, Err e) => mret (Err e)
      | (role, Ok _) =>
          _ ← auth_recordAudit c "role.create" "role" (role_ID role)
                [("name", GStr (role_Name role)); ("tenant_id", GStr (role_TenantID role))];
          mret (Ok tt)
      end
  end.

Definition RoleService_Update (caller : option Caller) (role : Role) : M AuthDB (res unit) :=
  p ← requirePermission caller "auth.role.edit";
  match p with
  | Err e => mret (Err e)
  | Ok c =>
      r ← RoleRepository_Update role;
      match r with
      | Err e => mret (Err e)
      | Ok _ =>
          _ ← auth_recordAudit c "role.update" "role" (role_ID role) [("name", GStr (role_Name role))];
          mret (Ok tt)
      end
  end.

Definition RoleService_Delete (caller : option Caller) (id : string) : M AuthDB (res unit) :=
  p ← requirePermission caller "auth.role.delete";
  match p with
  | Err e => mret (Err e)
  | Ok c =>
      r ← RoleRepository_Delete id;
      match r with
      | Err e => mret (Err e)
      | Ok _ => _ ← auth_recordAudit c "role.delete" "role" id []; mret (Ok tt)
      end
  end.

Definition RoleService_ListPermissions (caller : option Caller) (roleID : string)
    : M AuthDB (res (list RolePermission)) :=
  p ← requirePermission caller "auth.role.list";
  match p with Err e => mret (Err e) | Ok _ => RoleRepository_ListPermissions roleID end.

Definition permission_details (roleID permissionName scopeType : string) (scopeID : option string)
    : details :=
  [("role_id", GStr roleID); ("permission", GStr permissionName); ("scope_type", GStr scopeType)] ++
  match scopeID with Some s => [("scope_id", GStr s)] | None => [] end.

Definition RoleService_AddPermission (caller : option Caller) (roleID permissionName scopeType : string)
    (scopeID : option string) : M AuthDB (res unit) :=
  p ← requirePermission caller "auth.role.edit";
  match p with
  | Err e => mret (Err e)
  | Ok c =>
      if negb (IsCanonical permissionName)
      then mret (Err (ErrWrapPre ErrInvalidPermission permissionName))
      else
        g ← PermissionRepository_GetByName permissionName;
        match g with
        | Err e => mret (Err e)
        | Ok perm =>
            r ← RoleRepository_AddPermission (mkRolePermission roleID (perm_ID perm) scopeType scopeID);
            match r with
            | Err e => mret (Err e)
            | Ok _ =>
                _ ← auth_recordAudit c "role.permission.add" "role" roleID
                      (permission_details roleID permissionName scopeType scopeID);
                mret (Ok tt)
            end
        end
  end.

Definition RoleService_RemovePermission (caller : option Caller)
    (roleID permissionName scopeType : string) (scopeID : option string) : M AuthDB (res unit) :=
  p ← requirePermission caller "auth.role.edit";
  match p with
  | Err e => mret (Err e)
  | Ok c =>
      g ← PermissionRepository_GetByName permissionName;
      match g with
      | Err e => mret (Err e)
      | Ok perm =>
          r ← RoleRepository_RemovePermission (mkRolePermission roleID (perm_ID perm) scopeType scopeID);
          match r with
          | Err e => mret (Err e)
          | Ok _ =>
              _ ← auth_recordAudit c "role.permission.remove" "role" roleID
                    (permission_details roleID permissionName scopeType scopeID);
              mret (Ok tt)
          end
      end
  end.

(** *** actor_role_service.go *)

(** The guard of [Grant] and [Revoke]. *)
Definition require_assign (caller : option Caller) : M AuthDB (res Caller) :=
  match caller with
  | None => mret (Err ErrUnauthenticated)
  | Some c =>
      if c_IsSystem c then mret (Ok c)
      else
        r ← HoldsAnyOf (c_ActorID c) (c_ActorType c) (tenant_or_default (c_TenantID c)) ["auth.role.assign"];
        mret match r with
             | Err e => Err e
             | Ok true => Ok c
             | Ok false => Err (ErrWrapPre ErrSelfRoleAssignment "auth.role.assign required")
             end
  end.

Definition with_tenant (ar : ActorRole) : ActorRole :=
  mkActorRole (acr_ID ar) (acr_ActorID ar) (acr_ActorType ar) (acr_RoleID ar) (acr_GrantedAt ar)
    (acr_ExpiresAt ar) (acr_GrantedBy ar) (tenant_or_default (acr_TenantID ar))
    (acr_ScopeType ar) (acr_ScopeID ar).

Definition ActorRoleService_Grant (caller : option Caller) (ar : ActorRole) : M AuthDB (res unit) :=
  p ← require_assign caller;
  match p with
  | Err e => mret (Err e)
  | Ok c =>
      if bool_decide (acr_ActorID ar = DemoAnonActorID)
      then mret (Err (ErrWrapPre ErrAuthReservedActor "actor-demo-anon is reserved"))
      else
        r ← ActorRoleRepository_Grant uuid_NewString (with_tenant ar);
        match r with
        | (_, Err e) => mret (Err e)
        | (row, Ok _) =>
            _ ← auth_recordAudit c "actor_role.grant" "actor_role" (acr_ID row)
                  [("actor_id", GStr (acr_ActorID ar)); ("actor_type", GStr (acr_ActorType ar));
                   ("role_id", GStr (acr_RoleID ar))];
            mret (Ok tt)
        end
  end.

Definition ActorRoleService_Revoke (caller : option Caller)
    (actorID actorType roleID scopeType : string) (scopeID : option string) : M AuthDB (res unit) :=
  p ← require_assign caller;
  match p with
  | Err e => mret (Err e)
  | Ok c =>
      if bool_decide (actorID = DemoAnonActorID)
      then mret (Err (ErrWrapPre ErrAuthReservedActor "actor-demo-anon is reserved"))
      else
        r ← ActorRoleRepository_Revoke actorID actorType roleID (tenant_or_default (c_TenantID c))
              scopeType scopeID;
        match r with
        | Err e => mret (Err e)
        | Ok _ =>
            _ ← auth_recordAudit c "actor_role.revoke" "actor_role" roleID
                  ([("actor_id", GStr actorID); ("actor_type", GStr actorType); ("role_id", GStr roleID)] ++
                   (if bool_decide (scopeType = "") then [("scope", GStr "all_variants")]
                    else ("scope_type", GStr scopeType) ::
                         match scopeID with Some s => [("scope_id", GStr s)] | None => [] end));
            mret (Ok tt)
        end
  end.

(** The guard of the two per-actor reads: one's own rows need no permission. *)
Definition require_view (caller : option Caller) (actorID msg : string) : M AuthDB (res Caller) :=
  match caller with
  | None => mret (Err ErrUnauthenticated)
  | Some c =>
      if c_IsSystem c || bool_decide (c_ActorID c = actorID) then mret (Ok c)
      else
        r ← HoldsAnyOf (c_ActorID c) (c_ActorType c) (tenant_or_default (c_TenantID c)) ["auth.role.list"];
        mret match r with
             | Err e => Err e
             | Ok true => Ok c
             | Ok false => Err (ErrWrapPre ErrForbidden msg)
             end
  end.

Definition ActorRoleService_ListForActor (caller : option Caller) (actorID actorType : string)
    : M AuthDB (res (list ActorRole)) :=
  p ← require_view caller actorID "auth.role.list required to view another actor's roles";
  match p with
  | Err e => mret (Err e)
  | Ok c => ActorRoleRepository_ListByActor actorID actorType (tenant_or_default (c_TenantID c))
  end.

Definition ActorRoleService_EffectivePermissions (caller : option Caller) (actorID actorType : string)
    : M AuthDB (res (list EffectivePermission)) :=
  p ← require_view caller actorID "auth.role.list required to view another actor's permissions";
  match p with
  | Err e => mret (Err e)
  | Ok c => ActorRoleRepository_EffectivePermissions actorID actorType (tenant_or_default (c_TenantID c))
  end.
End services.
End AuthService.
