(* ===== verification/RbacFacts.v ===== *)
(** * Theorems about access control (the definitions of Rbac.v) *)

From stdpp Require Import prelude gmap strings list sorting pretty.
From Stdlib Require Import ZArith Lia.
From S2P Require Import Prelude AuditTrail Rbac.
Import Catalogue AuthRepo AuthService.

(** ** What it means to hold a permission *)

(** A grant at scope [(st, sid)] covers a request at scope [(rst, rsid)]. *)
Definition covers (st : string) (sid : option string) (rst : string) (rsid : option string) : Prop :=
  st = ScopeTypeGlobal ∨ st = rst ∧ ∃ x, sid = Some x ∧ rsid = Some x.

(** Some unexpired role assignment of the actor, through some permission of
    that role, covers the request: both the assignment's scope and the
    permission's scope have to. *)
Definition granted (d : AuthDB) (t : Z) (actorID actorType tenantID permission rst : string)
    (rsid : option string) : Prop :=
  ∃ ar rp p, ar ∈ au_actor_roles d ∧ rp ∈ au_role_permissions d ∧ p ∈ au_permissions d ∧
    acr_ActorID ar = actorID ∧ acr_ActorType ar = actorType ∧ acr_TenantID ar = tenantID ∧
    active t ar = true ∧ rp_RoleID rp = acr_RoleID ar ∧ perm_ID p = rp_PermissionID rp ∧
    perm_Name p = permission ∧
    covers (acr_ScopeType ar) (acr_ScopeID ar) rst rsid ∧
    covers (rp_ScopeType rp) (rp_ScopeID rp) rst rsid.

Lemma granted_earlier d t t' a ty te p st sid :
  t ≤ t' → granted d t' a ty te p st sid → granted d t a ty te p st sid.
Proof.
  intros Hle (ar & rp & pm & H). exists ar, rp, pm. destruct_and!. split_and!; try done.
  unfold active in *. destruct (acr_ExpiresAt ar); [lia|done].
Qed.

Lemma effective_rows_elem a ty te t d ep :
  ep ∈ effective_rows a ty te t d ↔
  ∃ ar rp p, ar ∈ au_actor_roles d ∧ rp ∈ au_role_permissions d ∧ p ∈ au_permissions d ∧
    acr_ActorID ar = a ∧ acr_ActorType ar = ty ∧ acr_TenantID ar = te ∧ active t ar = true ∧
    rp_RoleID rp = acr_RoleID ar ∧ perm_ID p = rp_PermissionID rp ∧
    ep_PermissionName ep = perm_Name p ∧
    effective_scope ar rp = Some (ep_ScopeType ep, ep_ScopeID ep).
Proof.
  unfold effective_rows. rewrite list_elem_of_bind. setoid_rewrite list_elem_of_bind.
  setoid_rewrite list_elem_of_bind. setoid_rewrite list_elem_of_filter. split.
  - intros (ar & (rp & (p & Hep & Hp & Hpin) & Hrp & Hrpin) & Hc & Har).
    destruct (effective_scope ar rp) as [[st sid]|] eqn:E; [|by apply elem_of_nil in Hep].
    apply list_elem_of_singleton in Hep as ->. exists ar, rp, p. cbn. naive_solver.
  - intros (ar & rp & p & H). destruct_and!. exists ar. split; [|done].
    exists rp. split; [|done]. exists p. split; [|done].
    destruct ep as [n st sid]; cbn in *. subst n.
    match goal with H : effective_scope _ _ = _ |- _ => rewrite H end. by left.
Qed.

(** An effective row answers a request exactly when both scopes cover it. *)
Lemma effective_scope_covers ar rp rst rsid :
  (∃ st sid, effective_scope ar rp = Some (st, sid) ∧ covers st sid rst rsid) ↔
  covers (acr_ScopeType ar) (acr_ScopeID ar) rst rsid ∧
  covers (rp_ScopeType rp) (rp_ScopeID rp) rst rsid.
Proof.
  unfold effective_scope, covers.
  destruct ar as [? ? ? ? ? ? ? ? st1 sid1], rp as [? ? st2 sid2]; cbn.
  repeat case_bool_decide; cbn; subst; split; intros Hc;
    repeat match goal with
      | H : _ ∧ _ |- _ => destruct H
      | H : ∃ _, _ |- _ => destruct H
      | H : _ ∨ _ |- _ => destruct H
      end; simplify_eq; eauto 12.
Qed.

Lemma ep_answers_covers perm st sid ep :
  ep_answers perm st sid ep = true ↔
  ep_PermissionName ep = perm ∧ covers (ep_ScopeType ep) (ep_ScopeID ep) st sid.
Proof.
  unfold ep_answers, covers. rewrite andb_true_iff, orb_true_iff, andb_true_iff, !bool_decide_eq_true.
  destruct sid as [x|], (ep_ScopeID ep) as [y|]; rewrite ?bool_decide_eq_true; naive_solver.
Qed.

Lemma effective_answers a ty te t d perm st sid :
  existsb (ep_answers perm st sid) (remove_dups (effective_rows a ty te t d)) = true ↔
  granted d t a ty te perm st sid.
Proof.
  rewrite existsb_exists. setoid_rewrite <- list_elem_of_In.
  setoid_rewrite elem_of_remove_dups. setoid_rewrite effective_rows_elem.
  setoid_rewrite ep_answers_covers. unfold granted. split.
  - intros (ep & (ar & rp & p & H) & Hn & Hc). exists ar, rp, p. destruct_and!.
    assert (Hb : covers (acr_ScopeType ar) (acr_ScopeID ar) st sid ∧
                 covers (rp_ScopeType rp) (rp_ScopeID rp) st sid)
      by (apply effective_scope_covers; eauto).
    destruct Hb. split_and!; try done. congruence.
  - intros (ar & rp & p & H). destruct_and!.
    destruct (proj2 (effective_scope_covers ar rp st sid)) as (s1 & s2 & Es & Hc); [done|].
    exists (mkEffective (perm_Name p) s1 s2). split; [|done]. exists ar, rp, p. by split_and!.
Qed.

Lemma check_permission_spec a ty te perm st sid w :
  let '(r, w') := CheckPermission a ty te perm st sid w in
  w_db w' = w_db w ∧ clock w ≤ clock w' ∧
  (∀ b, r = Ok b → b = true ↔ a ≠ "" ∧ granted (w_db w) (clock w') a ty (tenant_or_default te) perm st sid) ∧
  (env_faults (w_env w) = [] → is_Ok r = true).
Proof.
  unfold CheckPermission. case_bool_decide as Ha.
  { cbn. split_and!; [done|done| |done]. intros b [= <-]. naive_solver. }
  unfold ActorRoleRepository_EffectivePermissions, mbind, M_bind.
  destruct (now_clock w) as (Hd & Ht & Hc & Hf). destruct (now w) as [t w1]; cbn in *.
  unfold sql_query, next_fault, mbind, M_bind, mret, M_ret, get_db.
  destruct (env_faults (w_env w1)) as [|[| |] fs]; cbn; unfold clock in *; cbn;
    (split_and!; [done|done| |by intros E; rewrite E in Hf]); try (by intros).
  all: intros b [= <-]; rewrite effective_answers, Hd, Ht; naive_solver.
Qed.

(** C30: authorization decides exactly the scoped permission.  [CheckPermission]
    changes nothing; when it answers, it answers yes iff the (non-anonymous) actor has an
    unexpired role assignment in the tenant and that role has the permission, with both
    the assignment's scope and the permission's scope covering the requested scope; and it
    always answers when the database does. *)
Theorem check_permission_exact a ty te perm st sid w :
  let '(r, w') := CheckPermission a ty te perm st sid w in
  w_db w' = w_db w ∧
  (∀ b, r = Ok b → b = true ↔ a ≠ "" ∧ granted (w_db w) (clock w') a ty (tenant_or_default te) perm st sid) ∧
  (env_faults (w_env w) = [] → is_Ok r = true).
Proof.
  pose proof (check_permission_spec a ty te perm st sid w) as H.
  destruct (CheckPermission a ty te perm st sid w). naive_solver.
Qed.

(** ** Privilege escalation *)

(** One call of the role and role-assignment services. *)
Inductive auth_op :=
  | OCreate (role : Role)
  | OUpdate (role : Role)
  | ODelete (id : string)
  | OAddPermission (roleID permission scopeType : string) (scopeID : option string)
  | ORemovePermission (roleID permission scopeType : string) (scopeID : option string)
  | OGrant (ar : ActorRole)
  | ORevoke (actorID actorType roleID scopeType : string) (scopeID : option string)
  | OGetRole (id : string)
  | OListPermissions (roleID : string)
  | OListForActor (actorID actorType : string)
  | OEffective (actorID actorType : string).

Definition ignore {D A} (m : M D (res A)) : M D bool := r ← m; mret (is_Ok r).

Definition mutates (o : auth_op) : bool :=
  match o with
  | OGetRole _ | OListPermissions _ | OListForActor _ _ | OEffective _ _ => false
  | _ => true
  end.

(** The permissions the mutating calls are gated on. *)
Definition mutating_permissions : list string :=
  ["auth.role.create"; "auth.role.edit"; "auth.role.delete"; "auth.role.assign"].

Section services.
Variable ToLower : string → string.
Variable uuid_NewString : N → string.
Variable audit : bool.

Definition run_auth (caller : option Caller) (o : auth_op) : M AuthDB bool :=
  match o with
  | OCreate role => ignore (RoleService_Create ToLower uuid_NewString audit caller role)
  | OUpdate role => ignore (RoleService_Update ToLower audit caller role)
  | ODelete id => ignore (RoleService_Delete ToLower audit caller id)
  | OAddPermission r p st sid => ignore (RoleService_AddPermission ToLower audit caller r p st sid)
  | ORemovePermission r p st sid => ignore (RoleService_RemovePermission ToLower audit caller r p st sid)
  | OGrant ar => ignore (ActorRoleService_Grant ToLower uuid_NewString audit caller ar)
  | ORevoke a ty r st sid => ignore (ActorRoleService_Revoke ToLower audit caller a ty r st sid)
  | OGetRole id => ignore (RoleService_Get caller id)
  | OListPermissions r => ignore (RoleService_ListPermissions caller r)
  | OListForActor a ty => ignore (ActorRoleService_ListForActor caller a ty)
  | OEffective a ty => ignore (ActorRoleService_EffectivePermissions caller a ty)
  end.

Fixpoint run_auths (l : list (option Caller * auth_op)) : M AuthDB unit :=
  match l with
  | [] => mret tt
  | (c, o) :: l' => _ ← run_auth c o; run_auths l'
  end.
End services.

(** The caller is no system caller and holds none of the mutating permissions. *)
Definition unprivileged (d : AuthDB) (t : Z) (c : option Caller) : Prop :=
  match c with
  | None => True
  | Some c => c_IsSystem c = false ∧ ∀ p, p ∈ mutating_permissions →
      ¬ granted d t (c_ActorID c) (c_ActorType c) (tenant_or_default (c_TenantID c)) p ScopeTypeGlobal None
  end.

Lemma tenant_or_default_idem t : tenant_or_default (tenant_or_default t) = tenant_or_default t.
Proof. unfold tenant_or_default. by repeat case_bool_decide. Qed.

(** A guard that leaves the database alone and, for a caller without the
    permission, answers an error. *)
Definition guards (perm : string) (caller : option Caller) (m : M AuthDB (res Caller)) : Prop :=
  ∀ w, w_db (m w).2 = w_db w ∧ clock w ≤ clock (m w).2 ∧
    (unprivileged (w_db w) (clock w) caller → perm ∈ mutating_permissions → is_Ok (m w).1 = false).

Lemma check_denied c perm w :
  let '(r, w') := CheckPermission (c_ActorID c) (c_ActorType c) (tenant_or_default (c_TenantID c)) perm
                    ScopeTypeGlobal None w in
  w_db w' = w_db w ∧ clock w ≤ clock w' ∧
  (unprivileged (w_db w) (clock w) (Some c) → perm ∈ mutating_permissions → r ≠ Ok true).
Proof.
  pose proof (check_permission_spec (c_ActorID c) (c_ActorType c) (tenant_or_default (c_TenantID c))
                perm ScopeTypeGlobal None w) as H.
  destruct (CheckPermission _ _ _ _ _ _ w) as [r w']. destruct H as (Hd & Hc & Hb & _).
  split_and!; [done..|]. intros [_ Hu] Hp ->.
  destruct (Hb true eq_refl) as [[_ Hg] _]; [done|].
  rewrite tenant_or_default_idem in Hg. eapply Hu; [done|]. by eapply granted_earlier.
Qed.

Lemma requirePermission_guards caller perm : guards perm caller (requirePermission caller perm).
Proof.
  intros w. destruct caller as [c|]; cbn; [|done].
  destruct (c_IsSystem c) eqn:Es.
  { cbn. split_and!; [done|done|]. intros [? _]. congruence. }
  pose proof (check_denied c perm w) as H. unfold mbind, M_bind, mret, M_ret.
  destruct (CheckPermission _ _ _ _ _ _ w) as [[[]|] w']; cbn; destruct H as (? & ? & H);
    split_and!; try done. intros [_ Hu] Hp. by destruct (H (conj Es Hu) Hp).
Qed.

Lemma require_assign_guards caller : guards "auth.role.assign" caller (require_assign caller).
Proof.
  intros w. destruct caller as [c|]; cbn; [|done].
  destruct (c_IsSystem c) eqn:Es.
  { cbn. split_and!; [done|done|]. intros [? _]. congruence. }
  pose proof (check_denied c "auth.role.assign" w) as H. unfold mbind, M_bind, mret, M_ret.
  destruct (CheckPermission _ _ _ _ _ _ w) as [[[]|] w']; cbn; destruct H as (? & ? & H);
    split_and!; try done. intros [_ Hu] Hp. by destruct (H (conj Es Hu) Hp).
Qed.

Lemma guarded_refuses {A} perm caller g (k : Caller → M AuthDB (res A)) w :
  guards perm caller g → perm ∈ mutating_permissions → unprivileged (w_db w) (clock w) caller →
  let '(b, w') := ignore (p ← g; match p with Err e => mret (Err e) | Ok c => k c end) w in
  b = false ∧ w_db w' = w_db w ∧ clock w ≤ clock w'.
Proof.
  intros Hg Hp Hu. destruct (Hg w) as (H1 & H2 & H3). specialize (H3 Hu Hp).
  unfold ignore, mbind, M_bind. destruct (g w) as [[c|e] w']; cbn in *; [done|]. by split_and!.
Qed.

(** Reads leave the database alone. *)
Definition quiet : relation (World AuthDB) := λ w w', w_db w' = w_db w.
#[local] Instance quiet_trans : Transitive quiet.
Proof. intros x y z. unfold quiet. congruence. Qed.
#[local] Instance quiet_env : EnvClosed quiet.
Proof. by intros w w' H _. Qed.

Lemma guards_since perm caller g c : guards perm caller g → since c quiet g.
Proof. intros H. apply since_free; [tc_solve|]. intros w. by destruct (H w) as (? & ? & _). Qed.

Lemma require_view_since caller a msg c : since c quiet (require_view caller a msg).
Proof.
  unfold require_view. repeat since_step. cbn. repeat since_step.
  apply since_free; [tc_solve|]. intros w.
  match goal with |- context [CheckPermission ?a ?b ?c ?d ?e ?f w] =>
    pose proof (check_permission_spec a b c d e f w) as H; destruct (CheckPermission a b c d e f w) end.
  by destruct H as (? & ? & _).
Qed.

Lemma read_quiet ToLower uuid audit caller o c :
  mutates o = false → since c quiet (run_auth ToLower uuid audit caller o).
Proof.
  destruct o; intros Ho; try discriminate Ho; cbn;
    unfold ignore, RoleService_Get, RoleService_ListPermissions, ActorRoleService_ListForActor,
      ActorRoleService_EffectivePermissions, RoleRepository_Get, RoleRepository_ListPermissions,
      ActorRoleRepository_ListByActor, ActorRoleRepository_EffectivePermissions;
    repeat lazymatch goal with
      | |- since _ _ (requirePermission _ _) => eapply guards_since, requirePermission_guards
      | |- since _ _ (require_view _ _ _) => apply require_view_since
      | _ => since_step
      end.
Qed.

Lemma unprivileged_step ToLower uuid audit caller o w :
  unprivileged (w_db w) (clock w) caller →
  let '(b, w') := run_auth ToLower uuid audit caller o w in
  (mutates o = true → b = false) ∧ w_db w' = w_db w ∧ clock w ≤ clock w'.
Proof.
  intros Hu. destruct (mutates o) eqn:Ho.
  - assert (Hx : ∀ {A} perm g (k : Caller → M AuthDB (res A)),
        guards perm caller g → perm ∈ mutating_permissions →
        let '(b, w') := ignore (p ← g; match p with Err e => mret (Err e) | Ok c => k c end) w in
        (true = true → b = false) ∧ w_db w' = w_db w ∧ clock w ≤ clock w').
    { intros A perm g k Hg Hp. pose proof (guarded_refuses perm caller g k w Hg Hp Hu) as H.
      destruct (ignore _ w). naive_solver. }
    destruct o; try discriminate Ho; cbn [run_auth];
      (eapply Hx; [apply requirePermission_guards || apply require_assign_guards|unfold mutating_permissions; set_solver]).
  - destruct (read_quiet ToLower uuid audit caller o (clock w) Ho w) as [H1 H2]; [done|].
    destruct (run_auth ToLower uuid audit caller o w). split_and!; [done|exact H2|exact H1].
Qed.

(** C8: no privilege escalation.  Actors that are not system callers and hold, globally
    and unexpired, none of auth.role.create, edit, delete and assign cannot change roles,
    role permissions, role assignments or the audit log by any sequence of calls to the
    role and role-assignment services, interleaved in any order, whatever statements fail
    and however the clock advances; and every mutating call of theirs is refused. *)
Theorem no_escalation ToLower uuid audit l w :
  Forall (unprivileged (w_db w) (clock w)) l.*1 →
  w_db (run_auths ToLower uuid audit l w).2 = w_db w ∧
  (∀ c o, (c, o) ∈ l → mutates o = true → (run_auth ToLower uuid audit c o w).1 = false).
Proof.
  intros Hl. split.
  - revert w Hl. induction l as [|[c o] l IH]; intros w Hl; [done|].
    apply Forall_cons in Hl as [Hc Hl]. cbn [run_auths fmap list_fmap] in *.
    unfold mbind, M_bind. pose proof (unprivileged_step ToLower uuid audit c o w Hc) as H.
    destruct (run_auth ToLower uuid audit c o w) as [b w']. destruct H as (_ & Hd & Hk).
    rewrite IH; [done|]. eapply Forall_impl; [exact Hl|]. intros [x|]; [|done].
    intros [Hs Hn]. split; [done|]. intros p Hp Hg. rewrite Hd in Hg.
    eapply Hn; [exact Hp|]. by eapply granted_earlier.
  - intros c o Hin Ho. rewrite Forall_fmap, Forall_forall in Hl. specialize (Hl _ Hin). cbn in Hl.
    pose proof (unprivileged_step ToLower uuid audit c o w Hl) as H.
    destruct (run_auth ToLower uuid audit c o w). by destruct H as (H & _); apply H.
Qed.

(** ** The seeded tables, with two users: one viewer, one admin *)
Definition seeded : AuthDB :=
  mkAuthDB
    (list_to_map (map (λ kv, (kv.1, mkRole kv.1 DefaultTenantID kv.1 "" 0 0)) DefaultRoles))
    (map (λ n, mkPermission ("p-" +:+ n)%string n "") CanonicalPermissions)
    (kv ← DefaultRoles; n ← kv.2; [mkRolePermission kv.1 ("p-" +:+ n)%string ScopeTypeGlobal None])
    [mkActorRole "ar-1" "alice" ActorTypeUser RoleIDViewer 0 None "system" DefaultTenantID ScopeTypeGlobal None;
     mkActorRole "ar-2" "root" ActorTypeUser RoleIDAdmin 0 None "system" DefaultTenantID ScopeTypeGlobal None;
     mkActorRole "ar-3" DemoAnonActorID ActorTypeAnonymous RoleIDAdmin 0 None "system" DefaultTenantID
       ScopeTypeGlobal None]
    [].

Definition seeded_world : World AuthDB := mkWorld seeded (mkEnv 100 [] [] 0).
Definition alice : Caller := mkCaller "alice" ActorTypeUser "" false.

Lemma alice_unprivileged : unprivileged seeded 100 (Some alice).
Proof.
  split; [done|]. intros p Hp Hg. apply effective_answers in Hg. unfold mutating_permissions in Hp.
  rewrite !elem_of_cons, elem_of_nil in Hp. destruct_or!; subst; vm_compute in Hg; discriminate Hg || done.
Qed.

Lemma no_escalation_witness :
  let l := [(Some alice, OGrant (mkActorRole "" "alice" ActorTypeUser RoleIDAdmin 0 None "" "" "" None));
            (None, ODelete RoleIDAdmin); (Some alice, OListForActor "alice" ActorTypeUser)] in
  w_db (run_auths id (λ _, "u") true l seeded_world).2 = seeded ∧
  (∀ c o, (c, o) ∈ l → mutates o = true → (run_auth id (λ _, "u") true c o seeded_world).1 = false).
Proof.
  intros l. apply (no_escalation id (λ _, "u") true l seeded_world).
  repeat constructor; apply alice_unprivileged.
Defined.

(** ** Invariants of the role tables *)

Definition demo_rows (d : AuthDB) : list ActorRole :=
  filter (λ x, acr_ActorID x = DemoAnonActorID) (au_actor_roles d).

Definition same_demo : relation AuthDB := λ d d', demo_rows d' = demo_rows d.
#[local] Instance same_demo_preorder : PreOrder same_demo.
Proof. split; unfold same_demo; [by intros d|]. intros x y z. congruence. Qed.

Lemma demo_rows_append d row :
  acr_ActorID row ≠ DemoAnonActorID → same_demo d (set_actor_roles (λ l, l ++ [row]) d).
Proof.
  intros H. unfold same_demo, demo_rows; cbn [au_actor_roles set_actor_roles]. rewrite filter_app.
  rewrite (filter_cons_False _ row []); [|done]. by rewrite filter_nil, app_nil_r.
Qed.

Lemma demo_rows_remove d (hit : ActorRole → bool) :
  (∀ x, hit x = true → acr_ActorID x ≠ DemoAnonActorID) →
  same_demo d (set_actor_roles (filter (λ x, hit x = false)) d).
Proof.
  intros H. unfold same_demo, demo_rows; cbn [au_actor_roles set_actor_roles].
  rewrite list_filter_filter. apply list_filter_iff. intros x. split; [tauto|]. intros Hx. split; [done|].
  destruct (hit x) eqn:E; [|done]. by apply H in E.
Qed.

Ltac auth_unfold :=
  unfold ignore, RoleService_Create, RoleService_Update, RoleService_Delete, RoleService_AddPermission,
    RoleService_RemovePermission, ActorRoleService_Grant, ActorRoleService_Revoke, RoleService_Get,
    RoleService_ListPermissions, ActorRoleService_ListForActor, ActorRoleService_EffectivePermissions,
    RoleRepository_Create, RoleRepository_Update, RoleRepository_Delete, RoleRepository_AddPermission,
    RoleRepository_RemovePermission, ActorRoleRepository_Grant, ActorRoleRepository_Revoke,
    PermissionRepository_GetByName, RoleRepository_Get, RoleRepository_ListPermissions,
    ActorRoleRepository_ListByActor, ActorRoleRepository_EffectivePermissions, auth_recordAudit, fresh_id.

Lemma pres_requirePermission R `{!PreOrder R} caller perm : pres R (requirePermission caller perm).
Proof. intros w. destruct (requirePermission_guards caller perm w) as (-> & _). reflexivity. Qed.
Lemma pres_require_assign R `{!PreOrder R} caller : pres R (require_assign caller).
Proof. intros w. destruct (require_assign_guards caller w) as (-> & _). reflexivity. Qed.
Lemma pres_require_view R `{!PreOrder R} caller a msg : pres R (require_view caller a msg).
Proof. intros w. destruct (require_view_since caller a msg (clock w) w) as [_ ->]; [done|]. reflexivity. Qed.

(** Walk a service call down to its statements. *)
Ltac auth_step :=
  lazymatch goal with
  | |- pres _ (requirePermission _ _) => apply pres_requirePermission; tc_solve
  | |- pres _ (require_assign _) => apply pres_require_assign; tc_solve
  | |- pres _ (require_view _ _ _) => apply pres_require_view; tc_solve
  | |- pres _ (RecordEventWithCategory _ _ _ _ _ _ _ _) => apply pres_RecordEventWithCategory; [tc_solve|intros]
  | _ => pres_step
  end.

Lemma demo_step ToLower uuid audit caller o :
  pres same_demo (run_auth ToLower uuid audit caller o).
Proof.
  destruct o; cbn [run_auth]; auth_unfold; repeat auth_step;
    repeat case_match; try reflexivity; cbn [snd];
    repeat match goal with H : bool_decide _ = false |- _ => apply bool_decide_eq_false in H end.
  all: try (apply demo_rows_append; done).
  all: apply demo_rows_remove; intros x; unfold revoke_matches.
  all: rewrite andb_true_iff, bool_decide_eq_true; by intros [(-> & _) _].
Qed.

Lemma pres_run_auths R `{!PreOrder R} ToLower uuid audit l :
  (∀ c o, pres R (run_auth ToLower uuid audit c o)) → pres R (run_auths ToLower uuid audit l).
Proof.
  intros H. induction l as [|[c o] l IH]; cbn [run_auths]; [apply (pres_ret R)|].
  apply (pres_bind R); [apply H|]. by intros.
Qed.

(** The demo actor's role assignments are out of reach of the service.  No sequence of
    calls by any callers, system callers included, adds, removes or changes a role
    assignment of actor-demo-anon. *)
Theorem demo_actor_protected ToLower uuid audit l w :
  demo_rows (w_db (run_auths ToLower uuid audit l w).2) = demo_rows (w_db w).
Proof. apply (pres_run_auths same_demo). intros. apply demo_step. Qed.

(** Foreign keys hold, and a role is only ever made of catalogued permissions. *)
Definition permission_known (ps : list Permission) (id : string) : Prop :=
  ∃ p, p ∈ ps ∧ perm_ID p = id ∧ perm_Name p ∈ CanonicalPermissions.

Definition tables_wf (d : AuthDB) : Prop :=
  (∀ rp, rp ∈ au_role_permissions d →
     is_Some (au_roles d !! rp_RoleID rp) ∧ permission_known (au_permissions d) (rp_PermissionID rp)) ∧
  (∀ x, x ∈ au_actor_roles d → is_Some (au_roles d !! acr_RoleID x)).

(** [tables_wf] with the permission table pinned. *)
Definition wf_with (ps : list Permission) (d : AuthDB) : Prop := au_permissions d = ps ∧ tables_wf d.

Definition wf_pres (ps : list Permission) : relation AuthDB := λ d d', wf_with ps d → wf_with ps d'.
#[local] Instance wf_pres_preorder ps : PreOrder (wf_pres ps).
Proof. apply preserves_preorder. Qed.

Lemma wf_insert_role ps id r d : wf_pres ps d (set_roles (<[id := r]>) d).
Proof.
  assert (Hl : ∀ k, is_Some (au_roles d !! k) → is_Some (<[id := r]> (au_roles d) !! k))
    by (intros k Hk; destruct (decide (k = id)) as [->|];
        [rewrite lookup_insert_eq|rewrite lookup_insert_ne]; eauto).
  intros [Hp [H1 H2]]. split; [done|]. split; cbn; [|naive_solver].
  intros rp Hrp. destruct (H1 rp Hrp). auto.
Qed.

Lemma wf_delete_role ps id d :
  existsb (λ x, bool_decide (acr_RoleID x = id)) (au_actor_roles d) = false →
  wf_pres ps d (set_role_permissions (filter (λ rp, rp_RoleID rp ≠ id)) (set_roles (delete id) d)).
Proof.
  intros He [Hp [H1 H2]]. split; [done|].
  split; cbn [au_role_permissions au_actor_roles au_roles au_permissions set_role_permissions set_roles].
  - intros rp [Hne Hrp]%list_elem_of_filter. rewrite lookup_delete_ne by done. by apply H1.
  - intros x Hx. rewrite lookup_delete_ne; [by apply H2|]. intros ->.
    assert (Ht : existsb (λ y, bool_decide (acr_RoleID y = acr_RoleID x)) (au_actor_roles d) = true)
      by (apply existsb_exists; exists x; split; [by apply list_elem_of_In|by apply bool_decide_eq_true]).
    congruence.
Qed.

Lemma wf_filter_permissions ps (P : RolePermission → Prop) `{∀ x, Decision (P x)} d :
  wf_pres ps d (set_role_permissions (filter P) d).
Proof.
  intros [Hp [H1 H2]]. split; [done|]. split; [|done].
  intros rp [_ Hrp]%list_elem_of_filter. by apply H1.
Qed.

Lemma wf_filter_actor_roles ps (P : ActorRole → Prop) `{∀ x, Decision (P x)} d :
  wf_pres ps d (set_actor_roles (filter P) d).
Proof.
  intros [Hp [H1 H2]]. split; [done|]. split; [done|].
  intros x [_ Hx]%list_elem_of_filter. by apply H2.
Qed.

Lemma wf_add_permission ps g d :
  is_Some (au_roles d !! rp_RoleID g) → permission_known ps (rp_PermissionID g) →
  wf_pres ps d (set_role_permissions (λ l, l ++ [g]) d).
Proof.
  intros Hr Hk [Hp [H1 H2]]. split; [done|]. split; cbn; [|done].
  intros rp [Hrp| ->%list_elem_of_singleton]%elem_of_app; [by apply H1|]. by rewrite Hp.
Qed.

Lemma wf_grant ps row d : grant_checks d row = true → wf_pres ps d (set_actor_roles (λ l, l ++ [row]) d).
Proof.
  unfold grant_checks. rewrite !andb_true_iff, bool_decide_eq_true. intros [[[Hr _] _] _] [Hp [H1 H2]].
  split; [done|]. split; cbn; [done|].
  intros x [Hx| ->%list_elem_of_singleton]%elem_of_app; [by apply H2|done].
Qed.

Lemma wf_AddPermission ps g :
  permission_known ps (rp_PermissionID g) → pres (wf_pres ps) (RoleRepository_AddPermission g).
Proof.
  intros Hk. unfold RoleRepository_AddPermission. pres_step. repeat case_match; try reflexivity.
  match goal with H : _ || _ || _ = false |- _ =>
    rewrite !orb_false_iff, negb_false_iff, bool_decide_eq_true in H; destruct H as [[Hr _] _] end.
  by apply wf_add_permission.
Qed.

Lemma GetByName_known ps name :
  keeps (wf_with ps) (PermissionRepository_GetByName name)
    (λ r, ∀ p, r = Ok p → p ∈ ps ∧ perm_Name p = name).
Proof.
  unfold PermissionRepository_GetByName.
  apply (keeps_bind _ _ _ (λ r, ∀ p, r = Ok (Some p) → p ∈ ps ∧ perm_Name p = name)).
  - apply keeps_query; [|done]. intros d [Hp _] p [= Hh].
    apply head_Some_elem_of in Hh. apply list_elem_of_filter in Hh as [??]. by rewrite <- Hp.
  - intros [[q|]|] Hq; apply keeps_ret; [|done..]. intros p [= ->]. by apply Hq.
Qed.

Lemma keeps_of_pres {A} ps (m : M AuthDB A) : pres (wf_pres ps) m → keeps (wf_with ps) m (λ _, True).
Proof. apply keeps_pres. Qed.

Lemma wf_AddPermission_service ToLower audit ps caller roleID name st sid :
  keeps (wf_with ps) (RoleService_AddPermission ToLower audit caller roleID name st sid) (λ _, True).
Proof.
  unfold RoleService_AddPermission. eapply keeps_bind; [apply keeps_of_pres, pres_requirePermission; tc_solve|].
  intros [c|e] _; [|by apply keeps_ret]. destruct (negb (IsCanonical name)) eqn:Ec; [by apply keeps_ret|].
  eapply keeps_bind; [apply GetByName_known|]. intros [p|e] Hp; [|by apply keeps_ret].
  destruct (Hp p eq_refl) as [Hin <-].
  apply negb_false_iff, bool_decide_eq_true in Ec.
  eapply keeps_bind; [apply keeps_of_pres, wf_AddPermission; by exists p|].
  intros [[]|e] _; [|by apply keeps_ret]. apply keeps_of_pres. unfold auth_recordAudit.
  repeat auth_step; by intros Hw.
Qed.

Lemma wf_step ToLower uuid audit ps caller o : pres (wf_pres ps) (run_auth ToLower uuid audit caller o).
Proof.
  destruct o; cbn [run_auth].
  4: { unfold ignore. pres_step; [|pres_step]. intros w Hw.
       by apply (wf_AddPermission_service ToLower audit ps caller roleID permission scopeType scopeID w). }
  all: auth_unfold; repeat auth_step; repeat case_match; try reflexivity; cbn [snd].
  all: first [ by intros Hw | apply wf_insert_role | by apply wf_delete_role | apply wf_filter_permissions
             | apply wf_filter_actor_roles | by apply wf_grant, negb_false_iff ].
Qed.

(** the role tables stay well-formed.  Through any sequence of service calls, under
    any statement failures, every role permission belongs to an existing role and names a
    permission of the canonical catalogue, and every role assignment refers to an
    existing role: deleting a role never leaves an assignment dangling. *)
Theorem role_tables_wf ToLower uuid audit l w :
  tables_wf (w_db w) → tables_wf (w_db (run_auths ToLower uuid audit l w).2).
Proof.
  intros Hw. apply (pres_run_auths (wf_pres (au_permissions (w_db w)))); [|by split].
  intros. apply wf_step.
Qed.

Lemma seeded_wf : tables_wf seeded.
Proof.
  split.
  - assert (H : Forall (λ rp, is_Some (au_roles seeded !! rp_RoleID rp) ∧
        Exists (λ p, perm_ID p = rp_PermissionID rp ∧ perm_Name p ∈ CanonicalPermissions) (au_permissions seeded))
        (au_role_permissions seeded)) by (apply (bool_decide_unpack _); vm_compute; exact I).
    rewrite Forall_forall in H. intros rp Hrp. destruct (H rp Hrp) as [H1 H2]. split; [done|].
    apply Exists_exists in H2 as (p & ? & ? & ?). by exists p.
  - apply Forall_forall. apply (bool_decide_unpack _). vm_compute. exact I.
Qed.

Lemma role_tables_wf_witness :
  tables_wf (w_db (run_auths id (λ _, "u") true
    [(Some (mkCaller "root" ActorTypeUser "" false), ODelete RoleIDAgent);
     (Some alice, ODelete RoleIDAdmin)] seeded_world).2).
Proof. apply role_tables_wf, seeded_wf. Defined.

(** ** The default roles *)

(** The role permissions are those of the default roles. *)
Definition default_grants (d : AuthDB) : Prop :=
  ∀ rp p, rp ∈ au_role_permissions d → p ∈ au_permissions d → perm_ID p = rp_PermissionID rp →
    perm_Name p ∈ default_permissions (rp_RoleID rp).

Lemma default_permissions_mutating role p :
  p ∈ default_permissions role → p ∈ mutating_permissions → role = RoleIDAdmin.
Proof.
  assert (H : Forall (λ kv, kv.1 = RoleIDAdmin ∨ Forall (λ q, q ∉ mutating_permissions) kv.2) DefaultRoles)
    by (apply (bool_decide_unpack _); vm_compute; exact I).
  unfold default_permissions. destruct (list_find _ DefaultRoles) as [[i [r ps]]|] eqn:E; [|by intros ?%elem_of_nil].
  apply list_find_Some in E as (Hi & <- & _). apply list_elem_of_lookup_2 in Hi.
  rewrite Forall_forall in H. destruct (H _ Hi) as [Hr|Hr]; [done|].
  rewrite Forall_forall in Hr. intros Hp Hm. by destruct (Hr p Hp).
Qed.

(** Only the admin role manages roles.  With the default role permissions in place, an
    actor who holds no assignment of r-admin has none of the permissions to create, edit,
    delete or assign roles, whatever other roles (operator, viewer, agent, mcp, cli,
    auditor) it holds, under any scope; so [no_escalation] applies to it. *)
Theorem default_roles_confined d t c :
  default_grants d → c_IsSystem c = false →
  (∀ x, x ∈ au_actor_roles d → acr_ActorID x = c_ActorID c → acr_RoleID x ≠ RoleIDAdmin) →
  unprivileged d t (Some c).
Proof.
  intros Hd Hs Hr. split; [done|]. intros p Hp (ar & rp & pm & H). destruct_and!.
  apply (Hr ar); [done|done|]. apply (default_permissions_mutating _ p); [|done].
  replace (acr_RoleID ar) with (rp_RoleID rp). subst p. by apply Hd.
Qed.

Lemma seeded_default_grants : default_grants seeded.
Proof.
  assert (H : Forall (λ rp, Forall (λ p, perm_ID p ≠ rp_PermissionID rp ∨
      perm_Name p ∈ default_permissions (rp_RoleID rp)) (au_permissions seeded)) (au_role_permissions seeded))
    by (apply (bool_decide_unpack _); vm_compute; exact I).
  intros rp p Hrp Hp He. rewrite Forall_forall in H. specialize (H rp Hrp). rewrite Forall_forall in H.
  by destruct (H p Hp).
Qed.

Lemma default_roles_confined_witness : unprivileged seeded 100 (Some alice).
Proof.
  apply default_roles_confined; [apply seeded_default_grants|done|].
  assert (H : Forall (λ x, acr_ActorID x = "alice" → acr_RoleID x ≠ RoleIDAdmin) (au_actor_roles seeded))
    by (apply (bool_decide_unpack _); vm_compute; exact I).
  rewrite Forall_forall in H. exact H.
Defined.

(** ** Granting *)

(** A row for the same actor, role, tenant and scope, expired or not. *)
Definition same_grant (row x : ActorRole) : Prop :=
  acr_ActorID x = acr_ActorID row ∧ acr_ActorType x = acr_ActorType row ∧ acr_RoleID x = acr_RoleID row ∧
  acr_TenantID x = acr_TenantID row ∧ acr_ScopeType x = acr_ScopeType row ∧ acr_ScopeID x = acr_ScopeID row.

#[local] Instance same_grant_dec row x : Decision (same_grant row x).
Proof. unfold same_grant. apply _. Defined.

Lemma grant_conflict_spec row x :
  grant_conflict row x = true ↔ same_grant row x ∧ is_Some (acr_ScopeID row).
Proof.
  unfold grant_conflict, same_grant. rewrite andb_true_iff, bool_decide_eq_true.
  destruct (acr_ScopeID x) as [a|], (acr_ScopeID row) as [b|]; rewrite ?bool_decide_eq_true;
    split; intros; destruct_and?; split_and?; subst; eauto; try congruence;
    match goal with H : is_Some None |- _ => by destruct H as [? ?] | H : Some _ = Some _ |- _ => by injection H | _ => idtac end.
Qed.

(** What granting a role does.  When the database answers, [Grant] refuses a row that
    violates a constraint and changes nothing; otherwise it succeeds, and a scoped grant
    adds its row only if the actor has no row for that role and scope yet, while a global
    grant always adds a row.  So a grant repeated over an assignment that has expired
    reports success and leaves the actor without the role, and a repeated global grant
    stores a duplicate. *)
Theorem grant_exact uuid ar w :
  env_faults (w_env w) = [] →
  let '((row, r), w') := ActorRoleRepository_Grant uuid ar w in
  if grant_checks (w_db w) row then
    r = Ok tt ∧
    w_db w' = if decide (is_Some (acr_ScopeID row) ∧ Exists (same_grant row) (au_actor_roles (w_db w)))
              then w_db w else set_actor_roles (λ l, l ++ [row]) (w_db w)
  else is_Ok r = false ∧ w_db w' = w_db w.
Proof.
  intros Hf. unfold ActorRoleRepository_Grant, mbind, M_bind.
  assert (Hid : ∃ id w1, fresh_id uuid "ar-" (acr_ID ar) w = (id, w1) ∧ w_db w1 = w_db w ∧
                  env_faults (w_env w1) = []).
  { unfold fresh_id. case_bool_decide; eexists _, _; (split; [reflexivity|]); done. }
  destruct Hid as (id & w1 & -> & Hd1 & Hf1). destruct (now_run w1) as (t & w2 & -> & Hd2 & Hf2).
  rewrite exec_run by congruence. rewrite Hd2, Hd1. set (row := grant_row ar id t).
  destruct (grant_checks (w_db w) row) eqn:Ec; cbn; [|by rewrite Ec].
  assert (He : existsb (grant_conflict row) (au_actor_roles (w_db w)) = true ↔
      is_Some (acr_ScopeID row) ∧ Exists (same_grant row) (au_actor_roles (w_db w))).
  { rewrite existsb_exists, Exists_exists. setoid_rewrite <- list_elem_of_In.
    setoid_rewrite grant_conflict_spec. naive_solver. }
  rewrite Ec. destruct (existsb _ _) eqn:E; cbn; destruct (decide _) as [H|H]; try done; exfalso.
  - by apply H, He.
  - apply He in H. congruence.
Qed.

(** Bob's profile-scoped operator role expired at 50. *)
Definition expired_world : World AuthDB :=
  mkWorld (set_actor_roles (λ _, [mkActorRole "ar-9" "bob" ActorTypeUser RoleIDOperator 0 (Some 50) "root"
     DefaultTenantID ScopeTypeProfile (Some "p1")]) seeded) (mkEnv 100 [] [] 0).

(** Granting it again at time 100 without an expiry answers success and stores
    nothing: bob still has no permission. *)
Lemma grant_exact_witness :
  let ar := mkActorRole "" "bob" ActorTypeUser RoleIDOperator 0 None "root" "" ScopeTypeProfile (Some "p1") in
  let '((_, r), w') := ActorRoleRepository_Grant (λ _, "u") ar expired_world in
  r = Ok tt ∧ w_db w' = w_db expired_world ∧
  fst (CheckPermission "bob" ActorTypeUser "" "cert.issue" ScopeTypeProfile (Some "p1") w') = Ok false.
Proof.
  intros ar. pose proof (grant_exact (λ _, "u") ar expired_world eq_refl) as H.
  destruct (ActorRoleRepository_Grant _ ar expired_world) as [[row r] w'] eqn:E.
  vm_compute in E. injection E as <- <- <-. split; [reflexivity|]. split; [|vm_compute; reflexivity].
  vm_compute in H. destruct H as [_ H]. vm_compute. exact H.
Defined.
