(* ===== verification/Deploy.v ===== *)
(** * Atomic deployment on an agent's host (src/internal/deploy)

    The file system is a map from paths to regular files; every system call consumes one
    fault of the environment and may fail.  [Module Files] holds the system calls,
    [Module Writing] is atomic.go and ownership.go, [Module Applying] is apply.go. *)

From stdpp Require Import prelude gmap strings list sorting.
From Stdlib Require Import ZArith Lia Ascii.
From S2P Require Import Prelude.

(** ** The file system *)
Module Files.
(** An absolute path, as [filepath.Dir] and [filepath.Base] split it. *)
Definition path : Type := string * string.

Record file := mkFile { f_bytes : string; f_mode : Z; f_uid : Z; f_gid : Z }.

Record FS := mkFS { fs_files : gmap path file }.

Definition set_files (f : gmap path file → gmap path file) (d : FS) : FS := mkFS (f (fs_files d)).

Definition os_ErrNotExist : error := ErrSentinel "file does not exist".
Definition os_ErrExist : error := ErrSentinel "file already exists".
Definition os_ErrPermission : error := ErrSentinel "operation not permitted".

(** A system call that fails has no effect. *)
Definition sys {A} (op : string) (f : FS → res A * FS) : M FS (res A) :=
  flt ← next_fault;
  match flt with
  | FOk => d ← get_db; let '(r, d') := f d in _ ← put_db d'; mret r
  | _ => mret (Err (ErrMsg op))
  end.

(** A write that fails leaves the file empty ([FFail]) or written ([FLost]). *)
Definition write_file (op : string) (p : path) (x : file) : M FS (res unit) :=
  flt ← next_fault;
  d ← get_db;
  let put (b : string) :=
    put_db (set_files (<[p := mkFile b (f_mode x) (f_uid x) (f_gid x)]>) d) in
  match flt with
  | FOk => _ ← put (f_bytes x); mret (Ok tt)
  | FFail => _ ← put ""; mret (Err (ErrMsg op))
  | FLost => _ ← put (f_bytes x); mret (Err (ErrMsg op))
  end.

Definition found {A} (p : path) (k : file → FS → res A * FS) (d : FS) : res A * FS :=
  match fs_files d !! p with
  | None => (Err os_ErrNotExist, d)
  | Some x => k x d
  end.

Definition os_ReadFile (p : path) : M FS (res string) := sys "read" (found p (λ x d, (Ok (f_bytes x), d))).
Definition os_Stat (p : path) : M FS (res file) := sys "stat" (found p (λ x d, (Ok x, d))).
Definition os_Remove (p : path) : M FS (res unit) :=
  sys "remove" (found p (λ _ d, (Ok tt, set_files (delete p) d))).
Definition os_Rename (a b : path) : M FS (res unit) :=
  sys "rename" (found a (λ x d, (Ok tt, set_files (λ m, <[b := x]> (delete a m)) d))).
Definition os_Chmod (p : path) (mode : Z) : M FS (res unit) :=
  sys "chmod" (found p (λ x d, (Ok tt, set_files (<[p := mkFile (f_bytes x) mode (f_uid x) (f_gid x)]>) d))).

(** [os.ReadDir]: the names in a directory, sorted. *)
Definition os_ReadDir (dir : string) : M FS (res (list string)) :=
  sys "readdir" (λ d,
    (Ok (merge_sort String.le (omap (λ kv, if bool_decide (kv.1.1 = dir) then Some kv.1.2 else None)
           (map_to_list (fs_files d)))), d)).

(** The process: its credentials and umask. *)
Record proc := mkProc { p_root : bool; p_uid : Z; p_gid : Z; p_umask : Z }.

Section process.
Variable P : proc.

(** [os.OpenFile(p, O_WRONLY|O_CREATE|O_EXCL, mode)]. *)
Definition os_OpenExcl (p : path) (mode : Z) : M FS (res unit) :=
  sys "open" (λ d,
    match fs_files d !! p with
    | Some _ => (Err os_ErrExist, d)
    | None => (Ok tt, set_files (<[p := mkFile "" (Z.ldiff mode (p_umask P)) (p_uid P) (p_gid P)]>) d)
    end).

Definition os_Chown (p : path) (uid gid : Z) : M FS (res unit) :=
  sys "chown" (found p (λ x d,
    if p_root P || bool_decide (uid = f_uid x ∧ gid = f_gid x)
    then (Ok tt, set_files (<[p := mkFile (f_bytes x) (f_mode x) uid gid]>) d)
    else (Err os_ErrPermission, d))).

(** [os.WriteFile]: create or truncate, then write. *)
Definition os_WriteFile (p : path) (bytes : string) (mode : Z) : M FS (res unit) :=
  r ← sys "open" (λ d,
        (Ok match fs_files d !! p with
            | Some x => mkFile bytes (f_mode x) (f_uid x) (f_gid x)
            | None => mkFile bytes (Z.ldiff mode (p_umask P)) (p_uid P) (p_gid P)
            end, d));
  match r with
  | Err e => mret (Err e)
  | Ok x => write_file "write" p x
  end.
End process.
End Files.

Import Files.

(** ** types.go *)
Record File := mkDeployFile {
  file_Path : string;
  file_Bytes : string;
  file_Mode : Z;
  file_Owner : string;
  file_Group : string
}.

Record FileDefaults := mkDefaults { def_Mode : Z; def_Owner : string; def_Group : string }.

Record WriteOptions := mkWriteOptions {
  wo_Mode : Z;
  wo_DefaultMode : Z;
  wo_Owner : string;
  wo_Group : string;
  wo_DefaultOwner : string;
  wo_DefaultGroup : string;
  wo_SkipIdempotent : bool;
  wo_BackupRetention : Z
}.

Record WriteResult := mkWriteResult {
  wr_Path : path;
  wr_BackupPath : option path;
  wr_Replaced : bool;
  wr_Idempotent : bool
}.

(** A plan; the hooks are arbitrary programs over the host. *)
Record Plan := mkPlan {
  plan_Files : list File;
  plan_Defaults : FileDefaults;
  plan_PreCommit : option (gmap path path → M FS (res unit));
  plan_PostCommit : option (M FS (res unit));
  plan_BackupRetention : Z;
  plan_SkipIdempotent : bool
}.

(** [BackupPaths] maps a destination to [None] where the code stores the empty
    string; [Duration] is not kept. *)
Record Result := mkResult {
  res_SkippedAsIdempotent : bool;
  res_BackupPaths : gmap path (option path);
  res_ValidateOK : bool;
  res_Reloaded : bool;
  res_RolledBack : bool
}.

Definition ErrPlanInvalid : error := ErrSentinel "deploy: plan is invalid".
Definition ErrValidateFailed : error := ErrSentinel "deploy: validate (PreCommit) failed".
Definition ErrReloadFailed : error := ErrSentinel "deploy: reload (PostCommit) failed; rolled back".
Definition ErrRollbackFailed : error :=
  ErrSentinel "deploy: reload failed AND rollback also failed; manual intervention required".

Definition DefaultBackupRetention : Z := 3.
Definition BackupSuffix : string := ".certctl-bak.".
Definition TempSuffix : string := ".certctl-tmp.".

(** ** atomic.go, ownership.go, ownership_unix.go *)
Module Writing.
(** [fmt.Sprintf("%019d", n)] for the non-negative 64-bit nanosecond counts of
    [time.Now().UnixNano()], which have at most 19 digits. *)
Fixpoint digits (k : nat) (n : Z) : string :=
  match k with
  | O => ""
  | S k' => (digits k' (n / 10) +:+ String (ascii_of_N (Z.to_N (48 + n mod 10))) "")%string
  end.

Definition nowNanosStr : M FS string := t ← now; mret (digits 19 t).

Definition temp_path (abs : path) (stamp : string) : path :=
  (abs.1, (abs.2 +:+ TempSuffix +:+ stamp)%string).
Definition backup_path (abs : path) (stamp : string) : path :=
  (abs.1, (abs.2 +:+ BackupSuffix +:+ stamp)%string).

(** The two diagnostic labels of the source are never read and left out. *)
Record resolvedOwnership := mkOwnership { ro_Mode : Z; ro_UID : Z; ro_GID : Z; ro_ModeSet : bool }.

Section writing.
Variable P : proc.
(** [filepath.Abs], [sha256.Sum256], [strconv.Atoi], and the uid and gid strings of
    [user.Lookup] and [user.LookupGroup]. *)
Variable Abs : string → res path.
Variable Sum256 : string → string.
Variable Atoi : string → option Z.
Variable user_Lookup : string → res string.
Variable user_LookupGroup : string → res string.

Definition lookupUID (username : string) : res Z :=
  if bool_decide (username = "") then Err (ErrMsg "empty username")
  else match Atoi username with
       | Some uid => Ok uid
       | None =>
           match user_Lookup username with
           | Err e => Err e
           | Ok u => match Atoi u with
                     | Some uid => Ok uid
                     | None => Err (ErrMsg ("user has non-numeric uid " +:+ u))
                     end
           end
       end.

Definition lookupGID (groupname : string) : res Z :=
  if bool_decide (groupname = "") then Err (ErrMsg "empty groupname")
  else match Atoi groupname with
       | Some gid => Ok gid
       | None =>
           match user_LookupGroup groupname with
           | Err e => Err e
           | Ok g => match Atoi g with
                     | Some gid => Ok gid
                     | None => Err (ErrMsg ("group has non-numeric gid " +:+ g))
                     end
           end
       end.

(** The mode the file gets, and whether it is set. *)
Definition resolved_mode (mode : Z) (d : FileDefaults) (existing : option file) : Z * bool :=
  if bool_decide (mode ≠ 0) then (mode, true)
  else match existing with
       | Some x => (f_mode x, true)
       | None => if bool_decide (def_Mode d ≠ 0) then (def_Mode d, true) else (0, false)
       end.

Definition lookup_ids (m : Z * bool) (owner group : string) : res resolvedOwnership :=
  match lookupUID owner with
  | Err e => Err (ErrWrap ("resolve owner " +:+ owner) e)
  | Ok uid =>
      match lookupGID group with
      | Err e => Err (ErrWrap ("resolve group " +:+ group) e)
      | Ok gid => Ok (mkOwnership m.1 uid gid m.2)
      end
  end.

Definition resolveOwnership (f : File) (d : FileDefaults) (existing : option file) : res resolvedOwnership :=
  let m := resolved_mode (file_Mode f) d existing in
  if bool_decide (file_Owner f ≠ "" ∧ file_Group f ≠ "") then lookup_ids m (file_Owner f) (file_Group f)
  else match existing with
       | Some x => Ok (mkOwnership m.1 (f_uid x) (f_gid x) m.2)
       | None =>
           if bool_decide (def_Owner d ≠ "" ∧ def_Group d ≠ "")
           then lookup_ids m (def_Owner d) (def_Group d)
           else Ok (mkOwnership m.1 (-1) (-1) m.2)
       end.

Definition applyOwnership (p : path) (o : resolvedOwnership) : M FS (res unit) :=
  r ← (if ro_ModeSet o then os_Chmod p (ro_Mode o) else mret (Ok tt));
  match r with
  | Err e => mret (Err (ErrWrap "chmod" e))
  | Ok _ =>
      if bool_decide (0 ≤ ro_UID o ∧ 0 ≤ ro_GID o) then
        c ← os_Chown P p (ro_UID o) (ro_GID o);
        mret match c with
             | Err e => if p_root P then Err (ErrWrap "chown" e) else Ok tt
             | Ok _ => Ok tt
             end
      else mret (Ok tt)
  end.

Definition os_remove_ignore (p : path) : M FS unit := _ ← os_Remove p; mret tt.

Definition writeTempFile (abs : path) (data : string) : M FS (res path) :=
  stamp ← nowNanosStr;
  let tempPath := temp_path abs stamp in
  o ← os_OpenExcl P tempPath 384 (* 0600 *);
  match o with
  | Err e => mret (Err e)
  | Ok _ =>
      x ← get_db;
      w ← match fs_files x !! tempPath with
          | Some f => write_file "write" tempPath (mkFile data (f_mode f) (f_uid f) (f_gid f))
          | None => mret (Err os_ErrNotExist)
          end;
      match w with
      | Err e => _ ← os_remove_ignore tempPath; mret (Err e)
      | Ok _ =>
          y ← sys "sync" (λ d, (Ok tt, d));
          match y with
          | Err e => _ ← os_remove_ignore tempPath; mret (Err e)
          | Ok _ =>
              c ← sys "close" (λ d, (Ok tt, d));
              match c with
              | Err e => _ ← os_remove_ignore tempPath; mret (Err e)
              | Ok _ => mret (Ok tempPath)
              end
          end
      end
  end.

Definition backupFile (abs : path) : M FS (res path) :=
  s ← os_ReadFile abs;
  match s with
  | Err e => mret (Err (ErrWrap "read for backup" e))
  | Ok src =>
      st ← os_Stat abs;
      match st with
      | Err e => mret (Err (ErrWrap "stat for backup" e))
      | Ok x =>
          stamp ← nowNanosStr;
          let backupPath := backup_path abs stamp in
          w ← os_WriteFile P backupPath src (f_mode x);
          match w with
          | Err e => mret (Err (ErrWrap "write backup" e))
          | Ok _ => _ ← os_Chown P backupPath (f_uid x) (f_gid x); mret (Ok backupPath)
          end
      end
  end.

Definition is_backup_name (abs : path) (name : string) : bool :=
  String.prefix (abs.2 +:+ BackupSuffix) name.

(** Remove each name, keeping the first error. *)
Fixpoint remove_all (dir : string) (names : list string) (firstErr : option error) : M FS (option error) :=
  match names with
  | [] => mret firstErr
  | n :: ns =>
      r ← os_Remove (dir, n);
      remove_all dir ns match r, firstErr with Err e, None => Some e | _, _ => firstErr end
  end.

Definition pruneBackups (abs : path) (keep : Z) : M FS (option error) :=
  if bool_decide (keep ≤ 0) then mret None
  else
    r ← os_ReadDir abs.1;
    match r with
    | Err e => mret (Some e)
    | Ok entries =>
        let matches := filter (λ n, is_backup_name abs n = true) entries in
        if bool_decide (Z.of_nat (length matches) ≤ keep) then mret None
        else
          let sorted := merge_sort String.le matches in
          remove_all abs.1 (take (length sorted - Z.to_nat keep) sorted) None
    end.

Definition sha256Eq (a b : string) : bool :=
  bool_decide (String.length a = String.length b) && bool_decide (Sum256 a = Sum256 b).

(** The janitor's effective retention. *)
Definition retention_of (n : Z) : Z := if bool_decide (n = 0) then DefaultBackupRetention else n.

(** Steps 4 to 8 of [AtomicWriteFile], the deferred removal of the temp file
    included. *)
Definition swap_in (abs : path) (data : string) (owner : resolvedOwnership) (existed : bool)
    (retention : Z) : M FS (res WriteResult) :=
  t ← writeTempFile abs data;
  match t with
  | Err e => mret (Err (ErrWrap "write temp" e))
  | Ok tempPath =>
      let fail (e : error) := _ ← os_remove_ignore tempPath; mret (Err e) in
      o ← applyOwnership tempPath owner;
      match o with
      | Err e => fail (ErrWrap "apply ownership to temp" e)
      | Ok _ =>
          b ← (if existed && bool_decide (retention ≠ -1)
               then r ← backupFile abs; mret match r with Err e => Err e | Ok p => Ok (Some p) end
               else mret (Ok None));
          match b with
          | Err e => fail (ErrWrap "backup existing" e)
          | Ok backupPath =>
              m ← os_Rename tempPath abs;
              match m with
              | Err e => fail (ErrWrap "atomic rename" e)
              | Ok _ =>
                  _ ← (if bool_decide (0 < retention_of retention)
                       then pruneBackups abs (retention_of retention) else mret None);
                  _ ← os_remove_ignore tempPath;
                  mret (Ok (mkWriteResult abs backupPath existed false))
              end
          end
      end
  end.

(** [ctx_err] is what [ctx.Err()] answers once the lock is held. *)
Definition AtomicWriteFile (ctx_err : option error) (p data : string) (opts : WriteOptions)
    : M FS (res WriteResult) :=
  if bool_decide (p = "") then mret (Err (ErrWrapPre ErrPlanInvalid "empty path"))
  else match Abs p with
  | Err e => mret (Err (ErrWrap "resolve path" e))
  | Ok abs =>
      match ctx_err with
      | Some e => mret (Err e)
      | None =>
          st ← os_Stat abs;
          let existing := match st with Ok x => Some x | Err _ => None end in
          same ← (if bool_decide (is_Some existing) && negb (wo_SkipIdempotent opts)
                  then r ← os_ReadFile abs;
                       mret match r with Ok b => sha256Eq b data | Err _ => false end
                  else mret false);
          if same : bool then mret (Ok (mkWriteResult abs None false true))
          else
            match resolveOwnership
                    (mkDeployFile p data (wo_Mode opts) (wo_Owner opts) (wo_Group opts))
                    (mkDefaults (wo_DefaultMode opts) (wo_DefaultOwner opts) (wo_DefaultGroup opts))
                    existing with
            | Err e => mret (Err (ErrWrap "resolve ownership" e))
            | Ok owner =>
                swap_in abs data owner (bool_decide (is_Some existing)) (wo_BackupRetention opts)
            end
      end
  end.
End writing.
End Writing.

Import Writing.

(** ** apply.go *)
Module Applying.
Record filePrep := mkPrep {
  fp_abs : path;
  fp_file : File;
  fp_tempPath : option path;
  fp_owner : resolvedOwnership;
  fp_hadOrig : bool;
  fp_backupTo : option path
}.

Definition with_backup (b : path) (p : filePrep) : filePrep :=
  mkPrep (fp_abs p) (fp_file p) (fp_tempPath p) (fp_owner p) (fp_hadOrig p) (Some b).
Definition with_temp (t : path) (p : filePrep) : filePrep :=
  mkPrep (fp_abs p) (fp_file p) (Some t) (fp_owner p) (fp_hadOrig p) (fp_backupTo p).

Section applying.
Variable P : proc.
Variable Abs : string → res path.
Variable Sum256 : string → string.
Variable Atoi : string → option Z.
Variable user_Lookup : string → res string.
Variable user_LookupGroup : string → res string.

(** The loop of [validatePlan]; [seen] are the destinations so far. *)
Fixpoint validate_files (files : list File) (seen : list path) : option error :=
  match files with
  | [] => None
  | f :: fs =>
      if bool_decide (file_Path f = "") then Some (ErrWrapPre ErrPlanInvalid "file has empty path")
      else match Abs (file_Path f) with
           | Err e => Some (ErrWrapPre ErrPlanInvalid (Error e))
           | Ok abs =>
               if bool_decide (abs ∈ seen) then Some (ErrWrapPre ErrPlanInvalid "duplicate destination")
               else validate_files fs (abs :: seen)
           end
  end.

Definition validatePlan (plan : Plan) : option error :=
  match plan_Files plan with
  | [] => Some (ErrWrapPre ErrPlanInvalid "no files")
  | files => validate_files files []
  end.

(** The absolute path of every file. *)
Fixpoint abs_paths (files : list File) : res (list (path * File)) :=
  match files with
  | [] => Ok []
  | f :: fs =>
      match Abs (file_Path f) with
      | Err e => Err (ErrWrap "resolve path" e)
      | Ok abs => match abs_paths fs with Err e => Err e | Ok l => Ok ((abs, f) :: l) end
      end
  end.

(** Step 2: does every destination already have its bytes? *)
Fixpoint all_match (l : list (path * File)) : M FS bool :=
  match l with
  | [] => mret true
  | (abs, f) :: l' =>
      r ← os_ReadFile abs;
      match r with
      | Err _ => mret false
      | Ok existing => if sha256Eq Sum256 existing (file_Bytes f) then all_match l' else mret false
      end
  end.

(** Step 3: stat the destination and resolve the ownership. *)
Fixpoint prepare_files (d : FileDefaults) (l : list (path * File)) : M FS (res (list filePrep)) :=
  match l with
  | [] => mret (Ok [])
  | (abs, f) :: l' =>
      st ← os_Stat abs;
      let existing := match st with Ok x => Some x | Err _ => None end in
      match resolveOwnership Atoi user_Lookup user_LookupGroup f d existing with
      | Err e => mret (Err (ErrWrap "resolve ownership" e))
      | Ok owner =>
          r ← prepare_files d l';
          mret match r with
               | Err e => Err e
               | Ok ps => Ok (mkPrep abs f None owner (bool_decide (is_Some existing)) None :: ps)
               end
      end
  end.

Definition cleanupBackups (l : list path) : M FS unit := for_each l os_remove_ignore.

(** Step 4: back up every destination that exists; [taken] are the backups so
    far, removed if one fails. *)
Fixpoint backup_files (taken : list path) (ps : list filePrep) : M FS (res (list filePrep)) :=
  match ps with
  | [] => mret (Ok [])
  | p :: ps' =>
      if fp_hadOrig p then
        b ← backupFile P (fp_abs p);
        match b with
        | Err e => _ ← cleanupBackups taken; mret (Err (ErrWrap "backup" e))
        | Ok bp =>
            r ← backup_files (bp :: taken) ps';
            mret match r with Err e => Err e | Ok l => Ok (with_backup bp p :: l) end
        end
      else
        r ← backup_files taken ps';
        mret match r with Err e => Err e | Ok l => Ok (p :: l) end
  end.

(** [res.BackupPaths] after step 4. *)
Definition backup_map (plan : Plan) (ps : list filePrep) : gmap path (option path) :=
  if bool_decide (plan_BackupRetention plan = -1) then ∅
  else list_to_map (map (λ p, (fp_abs p, fp_backupTo p)) ps).

Definition cleanupTemps (ps : list filePrep) : M FS unit :=
  for_each (omap fp_tempPath ps) os_remove_ignore.

(** Step 5: write every file to its temp path; [done] have theirs. *)
Fixpoint write_temps (done ps : list filePrep) : M FS (res (list filePrep)) :=
  match ps with
  | [] => mret (Ok done)
  | p :: ps' =>
      t ← writeTempFile P (fp_abs p) (file_Bytes (fp_file p));
      match t with
      | Err e => _ ← cleanupTemps done; mret (Err (ErrWrap "write temp" e))
      | Ok tempPath =>
          let p' := with_temp tempPath p in
          o ← applyOwnership P tempPath (fp_owner p);
          match o with
          | Err e => _ ← cleanupTemps (done ++ [p']); mret (Err (ErrWrap "apply ownership to temp" e))
          | Ok _ => write_temps (done ++ [p']) ps'
          end
      end
  end.

(** The argument of [PreCommit]. *)
Definition temp_map (ps : list filePrep) : gmap path path :=
  list_to_map (omap (λ p, t ← fp_tempPath p; Some (fp_abs p, t)) ps).

(** Restore one destination; the code carries on after an error. *)
Definition restore_one (p : filePrep) : M FS (option error) :=
  match fp_backupTo p with
  | None =>
      r ← os_Remove (fp_abs p);
      mret match r with
           | Err e => if errors_Is e os_ErrNotExist then None else Some e
           | Ok _ => None
           end
  | Some b =>
      r ← os_ReadFile b;
      match r with
      | Err e => mret (Some (ErrWrap "read backup" e))
      | Ok bytes =>
          t ← writeTempFile P (fp_abs p) bytes;
          match t with
          | Err e => mret (Some (ErrWrap "write restore temp" e))
          | Ok tempPath =>
              o ← applyOwnership P tempPath (fp_owner p);
              match o with
              | Err e => _ ← os_remove_ignore tempPath; mret (Some (ErrWrap "apply ownership during restore" e))
              | Ok _ =>
                  m ← os_Rename tempPath (fp_abs p);
                  match m with
                  | Err e => _ ← os_remove_ignore tempPath; mret (Some (ErrWrap "rename during restore" e))
                  | Ok _ => mret None
                  end
              end
          end
      end
  end.

Fixpoint restoreFromBackups (ps : list filePrep) : M FS (option error) :=
  match ps with
  | [] => mret None
  | p :: ps' =>
      e ← restore_one p;
      e' ← restoreFromBackups ps';
      mret match e with Some _ => e | None => e' end
  end.

(** Step 7: rename each temp into place; [done] are renamed.  An error returns
    the renames that were done. *)
Fixpoint rename_all (done ps : list filePrep) : M FS (option (error * list filePrep)) :=
  match ps with
  | [] => mret None
  | p :: ps' =>
      r ← match fp_tempPath p with
          | Some t => os_Rename t (fp_abs p)
          | None => mret (Err os_ErrNotExist)
          end;
      match r with
      | Err e => mret (Some (e, done))
      | Ok _ => rename_all (done ++ [p]) ps'
      end
  end.

Definition outcome : Type := option Result * option error.

Definition hook_of {A} (h : option A) (run : A → M FS (res unit)) : M FS (res unit) :=
  match h with Some a => run a | None => mret (Ok tt) end.

(** Steps 2 to 6: either the call ends here, or every file has its temp. *)
Definition stage (ctx_err : option error) (plan : Plan) : M FS (outcome + list filePrep) :=
  let stop (e : error) := mret (inl (None, Some e)) in
  match validatePlan plan with
  | Some e => stop e
  | None =>
      match abs_paths (plan_Files plan) with
      | Err e => stop e
      | Ok files =>
          match ctx_err with
          | Some e => stop e
          | None =>
              same ← (if plan_SkipIdempotent plan then mret false else all_match files);
              if same : bool then mret (inl (Some (mkResult true ∅ false false false), None))
              else
                ps ← prepare_files (plan_Defaults plan) files;
                match ps with
                | Err e => stop e
                | Ok ps =>
                    bs ← (if bool_decide (plan_BackupRetention plan = -1) then mret (Ok ps)
                          else backup_files [] ps);
                    match bs with
                    | Err e => stop e
                    | Ok bs =>
                        ts ← write_temps [] bs;
                        match ts with
                        | Err e => stop e
                        | Ok ts =>
                            h ← hook_of (plan_PreCommit plan) (λ f, f (temp_map ts));
                            match h with
                            | Err e => _ ← cleanupTemps ts; stop (ErrWrapPre ErrValidateFailed (Error e))
                            | Ok _ => mret (inr ts)
                            end
                        end
                    end
                end
          end
      end
  end.

(** Steps 7 to 9. *)
Definition commit (plan : Plan) (ps : list filePrep) : M FS outcome :=
  let result (reloaded rolledBack : bool) :=
    Some (mkResult false (backup_map plan ps) true reloaded rolledBack) in
  m ← rename_all [] ps;
  match m with
  | Some (e, done) =>
      r ← restoreFromBackups done;
      _ ← cleanupTemps ps;
      mret (result false false, Some match r with
                                     | Some _ => ErrWrapPre ErrRollbackFailed "rename mid-loop, rollback also failed"
                                     | None => ErrWrap "rename" e
                                     end)
  | None =>
      h ← hook_of (plan_PostCommit plan) (λ f, f);
      match h with
      | Err e =>
          r ← restoreFromBackups ps;
          match r with
          | Some _ => mret (result false false,
                        Some (ErrWrapPre ErrRollbackFailed "PostCommit failed AND rollback restore failed"))
          | None =>
              h2 ← hook_of (plan_PostCommit plan) (λ f, f);
              match h2 with
              | Err _ => mret (result false false,
                           Some (ErrWrapPre ErrRollbackFailed "PostCommit failed AND second PostCommit failed"))
              | Ok _ => mret (result false true, Some (ErrWrapPre ErrReloadFailed (Error e)))
              end
          end
      | Ok _ =>
          let retention := retention_of (plan_BackupRetention plan) in
          _ ← (if bool_decide (0 < retention)
               then for_each ps (λ p, _ ← pruneBackups (fp_abs p) retention; mret tt) else mret tt);
          mret (result true false, None)
      end
  end.

Definition Apply (ctx_err : option error) (plan : Plan) : M FS outcome :=
  s ← stage ctx_err plan;
  match s with
  | inl out => mret out
  | inr ps => commit plan ps
  end.
End applying.
End Applying.
