(* ===== verification/DeployLogic.v ===== *)
(** * A program logic for the file-system programs of Deploy.v

    Which names certctl reserves, which paths each helper may change ([frame] with
    [pres]), and what the helpers establish ([triple]). *)

From stdpp Require Import prelude gmap strings list sorting.
From Stdlib Require Import ZArith Lia Ascii.
From S2P Require Import Prelude Deploy.
Import Files Writing Applying.

(** ** Names *)

(** Paths that carry a certctl marker: temp files, backups, and whatever the
    janitor could take for a backup. *)
Definition reserved (q : path) : Prop :=
  ∃ b t, q.2 = (b +:+ TempSuffix +:+ t)%string ∨ q.2 = (b +:+ BackupSuffix +:+ t)%string.

Definition temp_of (a q : path) : Prop := ∃ n, q = temp_path a (digits 19 n).
Definition back_of (a q : path) : Prop := ∃ n, q = backup_path a (digits 19 n).

Lemma digits_length k n : String.length (digits k n) = k.
Proof. revert n. induction k as [|k IH]; intros n; cbn [digits]; [done|]. rewrite string_app_length, IH. cbn. lia. Qed.

Lemma stamped_inj b1 b2 s1 s2 n1 n2 :
  String.length s1 = String.length s2 →
  (b1 +:+ s1 +:+ digits 19 n1)%string = (b2 +:+ s2 +:+ digits 19 n2)%string → b1 = b2 ∧ s1 = s2.
Proof.
  intros Hl H. apply string_app_inj in H as [-> H].
  - apply string_app_inj in H as [-> _]; [done|by rewrite !digits_length].
  - by rewrite !string_app_length, !digits_length, Hl.
Qed.

Lemma temp_back a a' q : temp_of a q → back_of a' q → False.
Proof.
  intros [n ->] [n' E]. apply (f_equal snd) in E. unfold temp_path, backup_path in E. cbn [snd] in E.
  by apply stamped_inj in E as [_ E].
Qed.

Lemma temp_of_inj a a' q : temp_of a q → temp_of a' q → a = a'.
Proof.
  intros [n ->] [n' E]. pose proof (f_equal fst E) as E1. apply (f_equal snd) in E.
  unfold temp_path in E, E1. cbn [fst snd] in E, E1. apply stamped_inj in E as [E _]; [|done].
  destruct a, a'; cbn in *; congruence.
Qed.

Lemma back_of_inj a a' q : back_of a q → back_of a' q → a = a'.
Proof.
  intros [n ->] [n' E]. pose proof (f_equal fst E) as E1. apply (f_equal snd) in E.
  unfold backup_path in E, E1. cbn [fst snd] in E, E1. apply stamped_inj in E as [E _]; [|done].
  destruct a, a'; cbn in *; congruence.
Qed.

Lemma temp_reserved a q : temp_of a q → reserved q.
Proof. intros [n ->]. exists a.2, (digits 19 n). by left. Qed.

Lemma back_reserved a q : back_of a q → reserved q.
Proof. intros [n ->]. exists a.2, (digits 19 n). by right. Qed.

Lemma prefix_reserved a dir n : is_backup_name a n = true → reserved (dir, n).
Proof.
  unfold is_backup_name. intros H.
  assert (Hp : ∀ s t, String.prefix s t = true → ∃ u, t = (s +:+ u)%string).
  { induction s as [|c s IH]; intros t Ht; [by exists t|]. destruct t as [|c' t]; cbn in Ht; [done|].
    destruct (ascii_dec c c') as [->|]; [|done]. destruct (IH _ Ht) as [u ->]. by exists u. }
  destruct (Hp _ _ H) as [u ->]. exists a.2, u. right. cbn [snd]. apply string_app_assoc.
Qed.

(** A base name shorter than a marker carries none. *)
Lemma short_plain dir base : (String.length base < 13)%nat → ¬ reserved (dir, base).
Proof.
  intros Hl (b & t & [H|H]); cbn in H; subst base; rewrite !string_app_length in Hl; cbn in Hl; lia.
Qed.

(** ** Frames and triples *)

(** Only paths in [S] may differ. *)
Definition frame (S : path → Prop) : relation FS :=
  λ d d', ∀ q, ¬ S q → fs_files d' !! q = fs_files d !! q.

#[export] Instance frame_preorder S : PreOrder (frame S).
Proof. split; [by intros d q|]. intros x y z H1 H2 q Hq. by rewrite H2, H1. Qed.

Lemma frame_mono (S T : path → Prop) {A} (m : M FS A) :
  (∀ q, S q → T q) → pres (frame S) m → pres (frame T) m.
Proof. intros H Hm w q Hq. apply Hm. auto. Qed.

Definition triple {A} (Pre : FS → Prop) (m : M FS A) (Post : A → FS → Prop) : Prop :=
  ∀ w, Pre (w_db w) → Post (m w).1 (w_db (m w).2).

Lemma triple_ret {A} (a : A) (Pre : FS → Prop) (Post : A → FS → Prop) :
  (∀ d, Pre d → Post a d) → triple Pre (mret a) Post.
Proof. intros H w Hw. by apply H. Qed.

Lemma triple_bind {A B} Pre (m : M FS A) (f : A → M FS B) Mid Post :
  triple Pre m Mid → (∀ a, triple (Mid a) (f a) Post) → triple Pre (m ≫= f) Post.
Proof.
  intros Hm Hf w Hw. specialize (Hm w Hw). unfold mbind, M_bind. destruct (m w) as [a w']; cbn in *.
  by apply (Hf a w').
Qed.

Lemma triple_conseq {A} (Pre Pre' : FS → Prop) (m : M FS A) (Post Post' : A → FS → Prop) :
  triple Pre' m Post' → (∀ d, Pre d → Pre' d) → (∀ a d, Post' a d → Post a d) → triple Pre m Post.
Proof. intros H H1 H2 w Hw. apply H2, H, H1, Hw. Qed.

Lemma triple_sys {A} op (f : FS → res A * FS) (Pre : FS → Prop) (Post : res A → FS → Prop) :
  (∀ d, Pre d → Post (f d).1 (f d).2) → (∀ d, Pre d → Post (Err (ErrMsg op)) d) →
  triple Pre (sys op f) Post.
Proof.
  intros H1 H2 w Hw. unfold sys, next_fault, mbind, M_bind, mret, M_ret, get_db, put_db.
  specialize (H1 _ Hw). destruct (env_faults (w_env w)) as [|[| |] fs]; cbn; auto; destruct (f (w_db w)); auto.
Qed.

Lemma triple_pres {A} (R : relation FS) (m : M FS A) (Pre : FS → Prop) (Post : A → FS → Prop) :
  pres R m → (∀ d d' a, Pre d → R d d' → Post a d') → triple Pre m Post.
Proof. intros Hm H w Hw. eapply H; [exact Hw|]. apply Hm. Qed.

(** What a program leaves alone can be carried past it. *)
Lemma triple_frame {A} S (m : M FS A) (Pre I : FS → Prop) (Post : A → FS → Prop) :
  pres (frame S) m → (∀ d d', frame S d d' → I d → I d') → triple Pre m Post →
  triple (λ d, Pre d ∧ I d) m (λ a d, Post a d ∧ I d).
Proof. intros Hm HI H w [H1 H2]. split; [by apply H|]. eapply HI; [apply Hm|done]. Qed.

Lemma pres_sys {A} (R : relation FS) `{!PreOrder R} op (f : FS → res A * FS) :
  (∀ d, R d (f d).2) → pres R (sys op f).
Proof.
  intros Hf w. apply (triple_sys op f (λ d, d = w_db w) (λ _ d, R (w_db w) d)); [|by intros d ->|done].
  intros d ->. apply Hf.
Qed.

Lemma frame_set (S : path → Prop) (q : path) (f : gmap path file → gmap path file) d :
  S q → (∀ m k, k ≠ q → f m !! k = m !! k) → frame S d (set_files f d).
Proof. intros HS Hf k Hk. apply Hf. by intros ->. Qed.

Lemma frame_insert (S : path → Prop) (q : path) x d : S q → frame S d (set_files (<[q := x]>) d).
Proof. intros H. apply (frame_set S q); [done|]. intros. by apply lookup_insert_ne. Qed.

Lemma frame_delete (S : path → Prop) (q : path) d : S q → frame S d (set_files (delete q) d).
Proof. intros H. apply (frame_set S q); [done|]. intros. by apply lookup_delete_ne. Qed.

(** *** The footprint of the system calls *)
Section footprint.
Context (S : path → Prop).

Lemma found_frame {A} q (k : file → FS → res A * FS) d :
  (∀ x, frame S d (k x d).2) → frame S d (found q k d).2.
Proof. intros H. unfold found. destruct (fs_files d !! q); [apply H|reflexivity]. Qed.

Lemma only_ReadFile q : pres (frame S) (os_ReadFile q).
Proof. apply pres_sys; [tc_solve|]. intros d. apply found_frame. reflexivity. Qed.
Lemma only_Stat q : pres (frame S) (os_Stat q).
Proof. apply pres_sys; [tc_solve|]. intros d. apply found_frame. reflexivity. Qed.
Lemma only_Remove q : S q → pres (frame S) (os_Remove q).
Proof. intros H. apply pres_sys; [tc_solve|]. intros d. apply found_frame. intros x. by apply frame_delete. Qed.
Lemma only_Rename a b : S a → S b → pres (frame S) (os_Rename a b).
Proof.
  intros Ha Hb. apply pres_sys; [tc_solve|]. intros d. apply found_frame. intros x q Hq. cbn.
  rewrite lookup_insert_ne, lookup_delete_ne; [done| |]; by intros ->.
Qed.
Lemma only_Chmod q m : S q → pres (frame S) (os_Chmod q m).
Proof. intros H. apply pres_sys; [tc_solve|]. intros d. apply found_frame. intros x. by apply frame_insert. Qed.
Lemma only_Chown P q u g : S q → pres (frame S) (os_Chown P q u g).
Proof.
  intros H. apply pres_sys; [tc_solve|]. intros d. apply found_frame. intros x.
  case_match; [by apply frame_insert|reflexivity].
Qed.
Lemma only_OpenExcl P q m : S q → pres (frame S) (os_OpenExcl P q m).
Proof. intros H. apply pres_sys; [tc_solve|]. intros d. case_match; [reflexivity|by apply frame_insert]. Qed.
Lemma only_ReadDir dir : pres (frame S) (os_ReadDir dir).
Proof. apply pres_sys; [tc_solve|]. reflexivity. Qed.

Lemma only_write_file op q x : S q → pres (frame S) (write_file op q x).
Proof.
  intros H w. unfold write_file, next_fault, mbind, M_bind, mret, M_ret, get_db, put_db.
  destruct (env_faults (w_env w)) as [|[| |] fs]; cbn; by apply frame_insert.
Qed.

Lemma only_WriteFile P q b m : S q → pres (frame S) (os_WriteFile P q b m).
Proof.
  intros H. unfold os_WriteFile. apply (pres_bind _); [apply pres_sys; [tc_solve|reflexivity]|].
  intros [x|e]; [by apply only_write_file|apply (pres_ret _)].
Qed.

Lemma only_remove_ignore q : S q → pres (frame S) (os_remove_ignore q).
Proof. intros H. apply (pres_bind _); [by apply only_Remove|]. intros r. apply (pres_ret _). Qed.

Lemma only_nowNanosStr : pres (frame S) nowNanosStr.
Proof. apply (pres_bind _); [apply (pres_now _)|]. intros t. apply (pres_ret _). Qed.
End footprint.

(** Walk a program down to its system calls. *)
Ltac only_step :=
  lazymatch goal with
  | |- pres _ (os_ReadFile _) => apply only_ReadFile
  | |- pres _ (os_Stat _) => apply only_Stat
  | |- pres _ (os_Remove _) => apply only_Remove
  | |- pres _ (os_Rename _ _) => apply only_Rename
  | |- pres _ (os_Chmod _ _) => apply only_Chmod
  | |- pres _ (os_Chown _ _ _ _) => apply only_Chown
  | |- pres _ (os_OpenExcl _ _ _) => apply only_OpenExcl
  | |- pres _ (os_ReadDir _) => apply only_ReadDir
  | |- pres _ (write_file _ _ _) => apply only_write_file
  | |- pres _ (os_WriteFile _ _ _ _) => apply only_WriteFile
  | |- pres _ (os_remove_ignore _) => apply only_remove_ignore
  | |- pres _ nowNanosStr => apply only_nowNanosStr
  | |- pres _ (sys _ _) => apply pres_sys; [tc_solve|reflexivity]
  | |- pres _ get_db => intros ?; reflexivity
  | _ => pres_step
  end.

(** *** The footprint of the helpers *)
Section helpers.
Context (P : proc).

Lemma nowNanosStr_bind {B} (R : relation FS) `{!PreOrder R} (f : string → M FS B) :
  (∀ n, pres R (f (digits 19 n))) → pres R (nowNanosStr ≫= f).
Proof.
  intros H w. unfold nowNanosStr, mbind, M_bind, mret, M_ret. pose proof (pres_now R w) as Hn.
  destruct (now w) as [t w']; cbn [fst snd] in *. etransitivity; [exact Hn|apply H].
Qed.

Lemma only_writeTempFile a data : pres (frame (temp_of a)) (writeTempFile P a data).
Proof.
  unfold writeTempFile. apply nowNanosStr_bind; [tc_solve|]. intros n.
  assert (H : temp_of a (temp_path a (digits 19 n))) by (by exists n).
  cbv zeta. repeat only_step; done.
Qed.

Lemma only_applyOwnership (S : path → Prop) t o : S t → pres (frame S) (applyOwnership P t o).
Proof. intros H. unfold applyOwnership. repeat only_step; done. Qed.

Lemma only_backupFile a : pres (frame (back_of a)) (backupFile P a).
Proof.
  unfold backupFile. repeat lazymatch goal with
    | |- pres _ (nowNanosStr ≫= _) => apply nowNanosStr_bind; [tc_solve|intros n]
    | _ => only_step
    end.
  all: by exists n.
Qed.

Lemma only_remove_all dir ns e :
  (∀ n, n ∈ ns → reserved (dir, n)) → pres (frame reserved) (remove_all dir ns e).
Proof.
  revert e. induction ns as [|n ns IH]; intros e H; cbn; [apply (pres_ret _)|].
  apply (pres_bind _); [apply only_Remove, H; by left|]. intros r. apply IH. intros m Hm. apply H. by right.
Qed.

Lemma only_pruneBackups a keep : pres (frame reserved) (pruneBackups a keep).
Proof.
  unfold pruneBackups. repeat lazymatch goal with
    | |- pres _ (remove_all _ _ _) => apply only_remove_all
    | _ => only_step
    end.
  intros n Hn. apply (prefix_reserved a). apply elem_of_take in Hn as (i & Hi & _).
  apply list_elem_of_lookup_2 in Hi. rewrite (merge_sort_Permutation String.le) in Hi.
  by apply list_elem_of_filter in Hi as [??].
Qed.

(** *** What the helpers establish *)
Definition live (d : FS) (q : path) : option string := f_bytes <$> fs_files d !! q.

Lemma live_frame S d d' q : frame S d d' → ¬ S q → live d' q = live d q.
Proof. intros H Hq. unfold live. by rewrite (H q Hq). Qed.

(** The file carries the resolved mode and, for root, owner and group. *)
Definition owned_as (o : resolvedOwnership) (x : file) : Prop :=
  (ro_ModeSet o = true → f_mode x = ro_Mode o) ∧
  (p_root P = true → 0 ≤ ro_UID o → 0 ≤ ro_GID o → f_uid x = ro_UID o ∧ f_gid x = ro_GID o).

Lemma triple_stamp {B} Pre (f : string → M FS B) Post :
  (∀ n, triple Pre (f (digits 19 n)) Post) → triple Pre (nowNanosStr ≫= f) Post.
Proof.
  intros H w Hw. unfold nowNanosStr, mbind, M_bind, mret, M_ret.
  destruct (now_run w) as (t & w' & -> & Hd & _). cbn. apply (H t w'). by rewrite Hd.
Qed.

Lemma triple_any {A} Pre (m : M FS A) : triple Pre m (λ _ _, True).
Proof. done. Qed.

Lemma triple_write_file op q x :
  triple (λ _, True) (write_file op q x) (λ r d, r = Ok tt → fs_files d !! q = Some x).
Proof.
  intros w _. unfold write_file, next_fault, mbind, M_bind, mret, M_ret, get_db, put_db.
  destruct (env_faults (w_env w)) as [|[| |] fs]; cbn; intros H; try discriminate H;
    rewrite lookup_insert_eq; by destruct x.
Qed.

Lemma triple_keep {A} op (Pre : FS → Prop) (k : A) :
  triple Pre (sys op (λ d, (Ok k, d))) (λ _ d, Pre d).
Proof. by apply triple_sys. Qed.

Lemma writeTempFile_spec a data :
  triple (λ _, True) (writeTempFile P a data) (λ r d, ∀ t, r = Ok t → temp_of a t ∧ live d t = Some data).
Proof.
  unfold writeTempFile. apply triple_stamp. intros n. cbv zeta. set (q := temp_path a (digits 19 n)).
  assert (Hfail : ∀ e, triple (λ _, True) (_ ← os_remove_ignore q; mret (Err e))
            (λ (r : res path) d, ∀ t, r = Ok t → temp_of a t ∧ live d t = Some data)).
  { intros e. eapply triple_bind; [apply triple_any|]. intros u. by apply triple_ret. }
  eapply triple_bind; [apply triple_any|]. intros [[]|e]; [|by apply triple_ret].
  eapply triple_bind; [apply triple_any|]. intros x.
  eapply (triple_bind _ _ _ (λ r d, r = Ok tt → live d q = Some data)).
  { destruct (fs_files x !! q); [|by apply triple_ret].
    eapply triple_conseq; [apply triple_write_file|done|]. intros r d H Hr. unfold live. by rewrite (H Hr). }
  intros [[]|e]; [|eapply triple_conseq; [apply Hfail|done|done]].
  eapply triple_bind; [apply triple_keep|]. intros [[]|e]; [|eapply triple_conseq; [apply Hfail|done|done]].
  eapply triple_bind; [apply triple_keep|]. intros [[]|e]; [|eapply triple_conseq; [apply Hfail|done|done]].
  apply triple_ret. intros d H t [= <-]. split; [by exists n|auto].
Qed.

Lemma applyOwnership_spec t o data :
  triple (λ d, live d t = Some data) (applyOwnership P t o)
    (λ r d, ∃ x, fs_files d !! t = Some x ∧ f_bytes x = data ∧ (r = Ok tt → owned_as o x)).
Proof.
  unfold applyOwnership.
  eapply (triple_bind _ _ _ (λ r d, ∃ x, fs_files d !! t = Some x ∧ f_bytes x = data ∧
            (r = Ok tt → ro_ModeSet o = true → f_mode x = ro_Mode o))).
  { assert (Hl : ∀ d, live d t = Some data → ∃ x, fs_files d !! t = Some x ∧ f_bytes x = data)
      by (intros d; unfold live; rewrite fmap_Some; naive_solver).
    destruct (ro_ModeSet o); [|apply triple_ret; intros d (x & ? & ?)%Hl; by exists x].
    apply triple_sys; intros d (x & Hx & Hb)%Hl; [|exists x; naive_solver].
    unfold found. rewrite Hx. cbn. eexists. rewrite lookup_insert_eq. by split_and!. }
  intros [[]|e]; [|apply triple_ret; intros d (x & ? & ? & _); exists x; naive_solver].
  case_bool_decide as Hids; [|apply triple_ret; intros d (x & ? & ? & Hm); exists x; split_and!; [done..|];
    intros _; split; [auto|lia]].
  eapply (triple_bind _ _ _ (λ c d, ∃ x, fs_files d !! t = Some x ∧ f_bytes x = data ∧
            (ro_ModeSet o = true → f_mode x = ro_Mode o) ∧
            (c = Ok tt → f_uid x = ro_UID o ∧ f_gid x = ro_GID o))).
  { apply triple_sys; intros d (x & Hx & Hb & Hm).
    - unfold found. rewrite Hx. case_match; cbn.
      + eexists. rewrite lookup_insert_eq. split_and!; [done|done|cbn; auto|done].
      + exists x. naive_solver.
    - exists x. naive_solver. }
  intros [[]|e]; apply triple_ret; intros d (x & Hx & Hb & Hm & Hu); exists x; split_and!; try done.
  - intros _. split; [done|]. intros. by apply Hu.
  - intros Hr. destruct (p_root P) eqn:Er; [discriminate Hr|]. split; [done|congruence].
Qed.

Lemma triple_pure {A} (φ : Prop) Pre (m : M FS A) Post :
  (∀ d, Pre d → φ) → (φ → triple Pre m Post) → triple Pre m Post.
Proof. intros H1 H2 w Hw. apply H2; [by eapply H1|done]. Qed.

Lemma os_WriteFile_spec q src m :
  triple (λ _, True) (os_WriteFile P q src m) (λ r d, r = Ok tt → live d q = Some src).
Proof.
  unfold os_WriteFile.
  eapply (triple_bind _ _ _ (λ r _, ∀ y, r = Ok y → f_bytes y = src)).
  { apply triple_sys; intros d _; [|done]. cbn. intros y [= <-]. by destruct (fs_files d !! q). }
  intros [y|e]; [|by apply triple_ret].
  apply (triple_pure (f_bytes y = src)); [intros d H; by apply H|]. intros <-.
  eapply triple_conseq; [apply triple_write_file|done|]. intros r d H Hr. unfold live. by rewrite (H Hr).
Qed.

Lemma backupFile_spec a b :
  triple (λ d, live d a = b) (backupFile P a)
    (λ r d, ∀ t, r = Ok t → back_of a t ∧ live d t = b ∧ is_Some b).
Proof.
  unfold backupFile.
  eapply (triple_bind _ _ _ (λ r d, ∀ s, r = Ok s → b = Some s)).
  { apply triple_sys; intros d Hd; [|done]. unfold found. unfold live in Hd.
    destruct (fs_files d !! a) as [x|]; cbn in *; intros s Hs; congruence. }
  intros [src|e]; [|by apply triple_ret].
  apply (triple_pure (b = Some src)); [intros d H; by apply H|]. intros ->.
  eapply triple_bind; [apply triple_any|].
  intros [x|e]; [|by apply triple_ret]. apply triple_stamp. intros n. cbv zeta.
  set (q := backup_path a (digits 19 n)).
  eapply triple_bind; [eapply triple_conseq; [apply os_WriteFile_spec|done|intros r d H; exact H]|].
  intros [[]|e]; [|by apply triple_ret].
  eapply (triple_bind _ _ _ (λ _ d, live d q = Some src)).
  { apply triple_sys; intros d Hd; specialize (Hd eq_refl); [|done]. unfold live in *. unfold found.
    destruct (fs_files d !! q) as [y|] eqn:Ey; cbn in *; [|by rewrite Ey].
    case_match; cbn; [by rewrite lookup_insert_eq|by rewrite Ey]. }
  intros c. apply triple_ret. intros d Hd t [= <-]. split_and!; [by exists n|done|done].
Qed.
End helpers.
