(* ===== verification/DeployFacts.v ===== *)
(** * Theorems about atomic deployment (the definitions of Deploy.v)

    Atomicity of one write, and of [Apply]: a refused deployment touches nothing, a
    successful one installs the plan, a failed one is rolled back. *)

From stdpp Require Import prelude gmap strings list sorting.
From Stdlib Require Import ZArith Lia Ascii.
From S2P Require Import Prelude Deploy DeployLogic.
Import Files Writing Applying.

(** ** The stages of [Apply] *)
Definition keep_under (S : path → Prop) (J : FS → Prop) : Prop := ∀ d d', frame S d d' → J d → J d'.

Lemma keep_under_mono (S T : path → Prop) J : (∀ q, S q → T q) → keep_under T J → keep_under S J.
Proof. intros H HJ d d' Hf. apply HJ. intros q Hq. apply Hf. auto. Qed.

(** Sequencing with a specified program and what it leaves alone. *)
Lemma triple_call {A B} S (m : M FS A) (k : A → M FS B) (Pre Pre' J : FS → Prop) Post' Post :
  pres (frame S) m → keep_under S J → triple Pre' m Post' →
  (∀ d, Pre d → Pre' d ∧ J d) → (∀ a, triple (λ d, Post' a d ∧ J d) (k a) Post) →
  triple Pre (m ≫= k) Post.
Proof.
  intros Hm HJ H Hpre Hk. eapply triple_bind; [|exact Hk].
  eapply triple_conseq; [exact (triple_frame S m Pre' J Post' Hm HJ H)|exact Hpre|done].
Qed.

Lemma triple_bind_pre {A B} (m : M FS A) (k : A → M FS B) (Pre Pre' : FS → Prop) Mid Post :
  triple Pre' m Mid → (∀ d, Pre d → Pre' d) → (∀ a, triple (Mid a) (k a) Post) → triple Pre (m ≫= k) Post.
Proof. intros H H1 H2. eapply triple_bind; [eapply triple_conseq; [exact H|exact H1|done]|exact H2]. Qed.

Section stages.
Context (P : proc) (Abs : string → res path) (Sum256 : string → string) (Atoi : string → option Z)
  (user_Lookup user_LookupGroup : string → res string).

(** Destinations that do not get in the way of each other or of the markers. *)
Definition separate (l : list path) : Prop := NoDup l ∧ ∀ a, a ∈ l → ¬ reserved a.

Lemma validate_distinct files seen l :
  validate_files Abs files seen = None → abs_paths Abs files = Ok l →
  l.*2 = files ∧ NoDup l.*1 ∧ (∀ a, a ∈ l.*1 → a ∉ seen).
Proof.
  revert seen l. induction files as [|f fs IH]; intros seen l Hv Ha; cbn in *.
  { injection Ha as <-. split_and!; [done|constructor|]. by intros a ?%elem_of_nil. }
  case_bool_decide; [done|]. destruct (Abs (file_Path f)) as [a|]; [|done].
  case_bool_decide as Hs; [done|]. destruct (abs_paths Abs fs) as [l'|]; [|done]. injection Ha as <-.
  destruct (IH _ _ Hv eq_refl) as (H1 & H2 & H3). cbn. split_and!; [by rewrite H1| |].
  - constructor; [|done]. intros Ha. apply (H3 _ Ha). by left.
  - intros b [->|Hb]%elem_of_cons; [done|]. intros Hb'. apply (H3 _ Hb). by right.
Qed.

(** What step 3 records about a file, from the file system [d0]. *)
Definition prep_of (d0 : FS) (defs : FileDefaults) (af : path * File) (p : filePrep) : Prop :=
  fp_abs p = af.1 ∧ fp_file p = af.2 ∧ fp_tempPath p = None ∧ fp_backupTo p = None ∧
  ∃ ex, (ex = None ∨ ex = fs_files d0 !! af.1) ∧ fp_hadOrig p = bool_decide (is_Some ex) ∧
    resolveOwnership Atoi user_Lookup user_LookupGroup af.2 defs ex = Ok (fp_owner p).

Lemma prepare_files_spec d0 defs l :
  triple (λ d, d = d0) (prepare_files Atoi user_Lookup user_LookupGroup defs l)
    (λ r d, d = d0 ∧ ∀ ps, r = Ok ps → Forall2 (prep_of d0 defs) l ps).
Proof.
  induction l as [|[a f] l IH]; cbn [prepare_files].
  { apply triple_ret. intros d ->. split; [done|]. intros ps [= <-]. constructor. }
  eapply (triple_bind _ _ _ (λ st d, d = d0 ∧ ∀ x, st = Ok x → fs_files d0 !! a = Some x)).
  { apply triple_sys; intros d ->; [|done]. unfold found.
    destruct (fs_files d0 !! a) as [y|] eqn:Ey; cbn; (split; [done|]); intros x [= <-]; done. }
  intros st. cbv zeta. set (ex := match st with Ok x => Some x | Err _ => None end).
  apply (triple_pure (ex = None ∨ ex = fs_files d0 !! a)).
  { intros d [_ H]. unfold ex. destruct st as [x|e]; [right; symmetry; by apply H|by left]. }
  intros Hex. destruct (resolveOwnership _ _ _ f defs ex) as [o|e] eqn:Eo;
    [|apply triple_ret; intros d [-> _]; by split].
  eapply triple_bind_pre; [exact IH|by intros d [-> _]|].
  intros r. apply triple_ret. intros d [-> H]. split; [done|]. intros ps Hps.
  destruct r as [ps'|]; [|done]. injection Hps as <-. constructor; [|by apply H].
  unfold prep_of; cbn. split_and!; [done..|]. by exists ex.
Qed.

(** What step 4 adds. *)
Definition backed (d0 d : FS) (p p' : filePrep) : Prop :=
  if fp_hadOrig p
  then ∃ b, p' = with_backup b p ∧ back_of (fp_abs p) b ∧ live d b = live d0 (fp_abs p) ∧
            is_Some (live d0 (fp_abs p))
  else p' = p.

Lemma backup_files_spec d0 taken ps J :
  separate (map fp_abs ps) → keep_under (λ q, ∃ p, p ∈ ps ∧ back_of (fp_abs p) q) J →
  triple (λ d, (∀ p, p ∈ ps → live d (fp_abs p) = live d0 (fp_abs p)) ∧ J d) (backup_files P taken ps)
    (λ r d, ∀ l, r = Ok l → Forall2 (backed d0 d) ps l ∧ J d).
Proof.
  revert taken J. induction ps as [|p ps IH]; intros taken J Hsep HJ; cbn [backup_files].
  { apply triple_ret. intros d [_ Hd] l [= <-]. by split; [constructor|]. }
  destruct Hsep as [Hnd Hres]. cbn in Hnd. apply NoDup_cons in Hnd as [Hp Hnd].
  assert (Hsep' : separate (map fp_abs ps)) by (split; [done|]; intros a Ha; apply Hres; by right).
  assert (Hsub : ∀ J', keep_under (λ q, ∃ p', p' ∈ p :: ps ∧ back_of (fp_abs p') q) J' →
            keep_under (λ q, ∃ p', p' ∈ ps ∧ back_of (fp_abs p') q) J').
  { intros J'. apply keep_under_mono. intros q (p' & ? & ?). exists p'. split; [by right|done]. }
  assert (Hlive : keep_under (back_of (fp_abs p)) (λ d, ∀ p', p' ∈ ps → live d (fp_abs p') = live d0 (fp_abs p'))).
  { intros d d' Hf H p' Hp'. rewrite (live_frame _ _ _ _ Hf), H; [done..|].
    intros Hb. apply (Hres (fp_abs p')); [right; by apply (list_elem_of_fmap_2 fp_abs)|].
    by eapply back_reserved. }
  assert (Hback : keep_under (back_of (fp_abs p)) J).
  { revert HJ. apply keep_under_mono. intros q Hq. exists p. split; [by left|done]. }
  destruct (fp_hadOrig p) eqn:Eo.
  - eapply (triple_call (back_of (fp_abs p)) _ _ _ _
        (λ d, (∀ p', p' ∈ ps → live d (fp_abs p') = live d0 (fp_abs p')) ∧ J d));
      [apply only_backupFile| |apply (backupFile_spec P (fp_abs p) (live d0 (fp_abs p)))| |].
    { intros d d' Hf [H1 H2]. split; [by eapply Hlive|by eapply Hback]. }
    { cbn. intros d [H1 H2]. split; [apply H1; by left|]. split; [|done]. intros p' Hp'. apply H1. by right. }
    intros [bp|e]; [|eapply triple_bind; [apply triple_any|intros u; by apply triple_ret]].
    apply (triple_pure (back_of (fp_abs p) bp ∧ is_Some (live d0 (fp_abs p)))).
    { intros d [H _]. by destruct (H bp eq_refl) as (? & ? & ?). }
    intros [Hbp Hsome].
    eapply triple_bind_pre; [apply (IH (bp :: taken) (λ d, live d bp = live d0 (fp_abs p) ∧ J d) Hsep')| |].
    { intros d d' Hf [H1 H2]. split; [|by eapply Hsub].
      rewrite (live_frame _ _ _ _ Hf), H1; [done|]. intros (p' & Hp' & Hb).
      apply Hp. rewrite (back_of_inj _ _ _ Hbp Hb). by apply (list_elem_of_fmap_2 fp_abs). }
    { cbn. intros d (H1 & H2 & H3). split; [done|]. split; [|done]. by apply H1. }
    intros r. apply triple_ret. intros d H l Hl. destruct r as [l'|]; [|done]. injection Hl as <-.
    destruct (H l' eq_refl) as (H1 & H2 & H3). split; [|done]. constructor; [|done].
    unfold backed. rewrite Eo. by exists bp.
  - eapply triple_bind_pre; [apply (IH taken J Hsep'); by apply Hsub| |].
    { cbn. intros d [H1 H2]. split; [|done]. intros p' Hp'. apply H1. by right. }
    intros r. apply triple_ret. intros d H l Hl. destruct r as [l'|]; [|done]. injection Hl as <-.
    destruct (H l' eq_refl) as [H1 H2]. split; [|done]. constructor; [|done]. unfold backed. by rewrite Eo.
Qed.

Lemma keep_plain S d0 : (∀ q, S q → reserved q) → keep_under S (frame reserved d0).
Proof. intros H d d' Hf Hd q Hq. rewrite Hf by auto. by apply Hd. Qed.

Lemma only_cleanup l : Forall reserved l → pres (frame reserved) (for_each l os_remove_ignore).
Proof.
  induction 1 as [|q l Hq Hl IH]; cbn; [apply (pres_ret _)|].
  apply (pres_bind _); [by apply only_remove_ignore|]. intros u. exact IH.
Qed.

Lemma backupFile_names a : triple (λ _, True) (backupFile P a) (λ r _, ∀ t, r = Ok t → back_of a t).
Proof. intros w _ t Ht. by apply (backupFile_spec P a (live (w_db w) a) w eq_refl t). Qed.

Lemma backup_files_plain d0 taken ps :
  Forall reserved taken → triple (frame reserved d0) (backup_files P taken ps) (λ _, frame reserved d0).
Proof.
  revert taken. induction ps as [|p ps IH]; intros taken Ht; cbn [backup_files]; [by apply triple_ret|].
  destruct (fp_hadOrig p).
  - eapply (triple_call (back_of (fp_abs p)));
      [apply only_backupFile|apply (keep_plain _ d0), back_reserved|apply backupFile_names|done|].
    intros [bp|e].
    + apply (triple_pure (reserved bp)); [intros d [H _]; by eapply back_reserved, H|]. intros Hb.
      eapply triple_bind_pre; [apply (IH (bp :: taken)); by constructor|by intros d [_ H]|].
      intros r. by apply triple_ret.
    + eapply triple_bind_pre; [eapply triple_pres; [by apply only_cleanup|]|by intros d [_ H]; exact H|].
      { intros d d' u H1 H2. exact (transitivity H1 H2). }
      intros u. by apply triple_ret.
  - eapply triple_bind_pre; [by apply (IH taken)|done|]. intros r. by apply triple_ret.
Qed.

(** What step 5 adds: a temp file with the new bytes, mode and owner. *)
Definition temped (d : FS) (p p' : filePrep) : Prop :=
  ∃ t x, p' = with_temp t p ∧ temp_of (fp_abs p) t ∧ fs_files d !! t = Some x ∧
         f_bytes x = file_Bytes (fp_file p) ∧ owned_as P (fp_owner p) x.

Lemma write_temps_plain d0 done ps :
  Forall (λ p, ∀ t, fp_tempPath p = Some t → reserved t) done →
  triple (frame reserved d0) (write_temps P done ps)
    (λ r d, frame reserved d0 d ∧
       ∀ l, r = Ok l → Forall (λ p, ∀ t, fp_tempPath p = Some t → reserved t) l).
Proof.
  assert (Hclean : ∀ l e, Forall (λ p, ∀ t, fp_tempPath p = Some t → reserved t) l →
            triple (frame reserved d0) (_ ← cleanupTemps l; mret (Err e))
              (λ (r : res (list filePrep)) d, frame reserved d0 d ∧
                 ∀ l, r = Ok l → Forall (λ p, ∀ t, fp_tempPath p = Some t → reserved t) l)).
  { intros l e Hl. eapply triple_bind; [eapply triple_pres; [apply only_cleanup|]|].
    - apply Forall_forall. intros q Hq. apply list_elem_of_omap in Hq as (p & Hp & Hq).
      rewrite Forall_forall in Hl. by apply (Hl p).
    - intros d d' u H1 H2. exact (transitivity H1 H2).
    - intros u. apply triple_ret. intros d Hd. by split. }
  revert done. induction ps as [|p ps IH]; intros done Hd; cbn [write_temps].
  { apply triple_ret. intros d H. split; [done|]. by intros l [= <-]. }
  eapply (triple_call (temp_of (fp_abs p))); [apply only_writeTempFile|apply (keep_plain _ d0), temp_reserved
    |apply writeTempFile_spec|done|].
  intros [t|e]; [|eapply triple_conseq; [by apply Hclean|by intros d [_ H]|done]].
  apply (triple_pure (reserved t)); [intros d [H _]; by eapply temp_reserved, H|]. intros Ht. cbv zeta.
  assert (Hd' : Forall (λ p, ∀ t, fp_tempPath p = Some t → reserved t) (done ++ [with_temp t p])).
  { apply Forall_app. split; [done|]. constructor; [|constructor]. by intros t' [= <-]. }
  eapply (triple_call reserved); [by apply only_applyOwnership|apply (keep_plain _ d0); done
    |apply triple_any|by intros d [_ H]|].
  intros [u|e]; [|eapply triple_conseq; [by apply Hclean|by intros d [_ H]|done]].
  eapply triple_conseq; [by apply IH|by intros d [_ H]|done].
Qed.

Lemma write_temps_spec done ps J :
  NoDup (map fp_abs ps) → keep_under (λ q, ∃ p, p ∈ ps ∧ temp_of (fp_abs p) q) J →
  triple J (write_temps P done ps)
    (λ r d, ∀ l, r = Ok l → J d ∧ ∃ l', l = done ++ l' ∧ Forall2 (temped d) ps l').
Proof.
  revert done J. induction ps as [|p ps IH]; intros done J Hnd HJ; cbn [write_temps].
  { apply triple_ret. intros d Hd l [= <-]. split; [done|]. exists []. by rewrite app_nil_r. }
  cbn in Hnd. apply NoDup_cons in Hnd as [Hp Hnd].
  assert (Hone : keep_under (temp_of (fp_abs p)) J).
  { revert HJ. apply keep_under_mono. intros q Hq. exists p. split; [by left|done]. }
  assert (Hfail : ∀ A (c : M FS A) e Pre, triple Pre (_ ← c; mret (Err e))
            (λ (r : res (list filePrep)) d, ∀ l, r = Ok l → J d ∧ ∃ l', l = done ++ l' ∧ Forall2 (temped d) (p :: ps) l')).
  { intros A c e Pre. eapply triple_bind; [apply triple_any|]. intros u. by apply triple_ret. }
  eapply (triple_call (temp_of (fp_abs p)) _ _ _ _ J);
    [apply only_writeTempFile|done|apply writeTempFile_spec|done|].
  intros [t|e]; [|apply Hfail].
  apply (triple_pure (temp_of (fp_abs p) t)); [intros d [H _]; by apply H|]. intros Ht. cbv zeta.
  eapply (triple_call (temp_of (fp_abs p)) _ _ _ _ J);
    [by apply only_applyOwnership|done|apply (applyOwnership_spec P t (fp_owner p) (file_Bytes (fp_file p)))| |].
  { intros d [H1 H2]. split; [by apply H1|done]. }
  intros [[]|e]; [|apply Hfail].
  eapply triple_conseq; [apply (IH (done ++ [with_temp t p])
    (λ d, J d ∧ ∃ x, fs_files d !! t = Some x ∧ f_bytes x = file_Bytes (fp_file p) ∧ owned_as P (fp_owner p) x) Hnd)| |].
  - intros d d' Hf [H1 (x & Hx & H2)]. split.
    + revert Hf H1. apply (keep_under_mono _ _ J) with (2 := HJ). intros q (p' & ? & ?). exists p'. split; [by right|done].
    + exists x. split; [|done]. rewrite Hf; [done|]. intros (p' & Hp' & Hb).
      apply Hp. rewrite (temp_of_inj _ _ _ Ht Hb). by apply (list_elem_of_fmap_2 fp_abs).
  - cbn. intros d [(x & Hx & Hb & Ho) HJd]. split; [done|]. exists x. auto.
  - cbn. intros r d H l Hl. destruct (H l Hl) as [[HJd (x & Hx & Hb & Ho)] (l' & -> & Hl')].
    split; [done|]. exists (with_temp t p :: l'). split; [by rewrite <- app_assoc|].
    constructor; [|done]. by exists t, x.
Qed.
End stages.

(** ** The whole of [Apply] *)
Section apply.
Context (P : proc) (Abs : string → res path) (Sum256 : string → string) (Atoi : string → option Z)
  (user_Lookup user_LookupGroup : string → res string).

(** The destinations of a plan. *)
Definition dests (plan : Plan) : list path :=
  match abs_paths Abs (plan_Files plan) with Ok l => l.*1 | Err _ => [] end.

(** Nobody names a destination like one of certctl's own files, and the hooks
    (a config test, a reload) touch at most the paths [H], among which are neither
    destinations nor certctl's files. *)
Record well_behaved (H : path → Prop) (plan : Plan) : Prop := {
  wb_dests a : a ∈ dests plan → ¬ reserved a;
  wb_pre f m : plan_PreCommit plan = Some f → pres (frame H) (f m);
  wb_post f : plan_PostCommit plan = Some f → pres (frame H) f;
  wb_own q : H q → ¬ reserved q ∧ q ∉ dests plan
}.

(** No two different texts of the same length have the same digest. *)
Definition collision_free : Prop :=
  ∀ a b, String.length a = String.length b → Sum256 a = Sum256 b → a = b.

(** One file when everything is staged. *)
Definition staged (d0 : FS) (plan : Plan) (d : FS) (af : path * File) (p : filePrep) : Prop :=
  fp_abs p = af.1 ∧ fp_file p = af.2 ∧
  (∃ t x, fp_tempPath p = Some t ∧ temp_of (fp_abs p) t ∧ fs_files d !! t = Some x ∧
          f_bytes x = file_Bytes (fp_file p) ∧ owned_as P (fp_owner p) x) ∧
  (∀ b, fp_backupTo p = Some b → back_of (fp_abs p) b ∧ live d b = live d0 (fp_abs p)) ∧
  ∃ ex, (ex = None ∨ ex = fs_files d0 !! fp_abs p) ∧
    resolveOwnership Atoi user_Lookup user_LookupGroup (fp_file p) (plan_Defaults plan) ex = Ok (fp_owner p) ∧
    (plan_BackupRetention plan ≠ -1 → (is_Some (fp_backupTo p) ↔ is_Some ex)).

Lemma all_match_spec d0 l :
  triple (λ d, d = d0) (all_match Sum256 l)
    (λ r d, d = d0 ∧ (r = true → collision_free → ∀ a f, (a, f) ∈ l → live d0 a = Some (file_Bytes f))).
Proof.
  induction l as [|[a f] l IH]; cbn [all_match].
  { apply triple_ret. intros d ->. split; [done|]. by intros _ _ a f ?%elem_of_nil. }
  eapply (triple_bind _ _ _ (λ r d, d = d0 ∧ ∀ s, r = Ok s → live d0 a = Some s)).
  { apply triple_sys; intros d ->; [|done]. unfold found, live.
    destruct (fs_files d0 !! a) as [x|]; cbn; (split; [done|]); by intros s [= <-]. }
  intros [s|e]; [|apply triple_ret; intros d [-> _]; by split].
  destruct (sha256Eq Sum256 s (file_Bytes f)) eqn:E; [|apply triple_ret; intros d [-> _]; by split].
  apply (triple_pure (live d0 a = Some s)); [intros d [_ H]; by apply H|]. intros Hs.
  eapply triple_conseq; [exact IH|by intros d [-> _]|]. cbn. intros r d [-> H]. split; [done|].
  intros Hr Hc a' f' [[= -> ->]|Hin]%elem_of_cons; [|by apply H].
  unfold sha256Eq in E. rewrite andb_true_iff, !bool_decide_eq_true in E. destruct E as [E1 E2].
  by rewrite Hs, (Hc _ _ E1 E2).
Qed.

Lemma hook_frame {A} H (h : option A) (run : A → M FS (res unit)) :
  (∀ f, h = Some f → pres (frame H) (run f)) → pres (frame H) (hook_of h run).
Proof. intros Hh. destruct h as [f|]; cbn; [by apply Hh|]. intros w q _. done. Qed.

Lemma staged_combine d0 plan d l ps0 bs ps :
  Forall2 (prep_of Atoi user_Lookup user_LookupGroup d0 (plan_Defaults plan)) l ps0 →
  (if bool_decide (plan_BackupRetention plan = -1) then bs = ps0 else Forall2 (backed d0 d) ps0 bs) →
  Forall2 (temped P d) bs ps → Forall2 (staged d0 plan d) l ps.
Proof.
  intros H1 H2 H3.
  assert (H12 : Forall2 (λ af p, fp_abs p = af.1 ∧ fp_file p = af.2 ∧
      (∀ b, fp_backupTo p = Some b → back_of (fp_abs p) b ∧ live d b = live d0 (fp_abs p)) ∧
      ∃ ex, (ex = None ∨ ex = fs_files d0 !! fp_abs p) ∧
        resolveOwnership Atoi user_Lookup user_LookupGroup (fp_file p) (plan_Defaults plan) ex = Ok (fp_owner p) ∧
        (plan_BackupRetention plan ≠ -1 → (is_Some (fp_backupTo p) ↔ is_Some ex))) l bs).
  { case_bool_decide as Hr.
    - subst bs. eapply Forall2_impl; [exact H1|]. intros [a f] p (E1 & E2 & E3 & E4 & ex & Hex & Ho & Hw).
      cbn in *. rewrite E1, E2, E4. split_and!; [done|done|done|]. exists ex. by split_and!.
    - eapply Forall2_trans; [|exact H1|exact H2].
      intros [a f] p p' (E1 & E2 & E3 & E4 & ex & Hex & Ho & Hw) Hb. cbn in *. unfold backed in Hb. rewrite Ho in Hb.
      case_bool_decide as Hx.
      + destruct Hb as (b & -> & Hbo & Hl & Hs). cbn. rewrite E1, E2 in *. split_and!; [done|done| |].
        * intros b' [= <-]. by split.
        * exists ex. split_and!; [done|done|]. intros _. split; [done|by eexists].
      + subst p'. rewrite E1, E2, E4. split_and!; [done|done|done|]. exists ex. split_and!; [done|done|].
        intros _. split; [by intros [??]|done]. }
  eapply Forall2_trans; [|exact H12|exact H3].
  intros [a f] p p' (E1 & E2 & Hb & Hex) (t & x & -> & Ht & Hx & Hy & Ho). cbn in *.
  unfold staged; cbn. split_and!; [done|done| |done|done]. by exists t, x.
Qed.

(** Only hooks and certctl's own files differ from [d0]. *)
Definition untouched (H : path → Prop) (d0 d : FS) : Prop := frame (λ q, reserved q ∨ H q) d0 d.

Lemma plain_untouched H d0 d : frame reserved d0 d → untouched H d0 d.
Proof. intros Hf q Hq. apply Hf. tauto. Qed.

Lemma untouched_hook H d0 : keep_under H (untouched H d0).
Proof. intros d d' Hf Hd q Hq. rewrite Hf by tauto. by apply Hd. Qed.

Lemma staged_keep H d0 plan l ps :
  (∀ q, H q → ¬ reserved q) → keep_under H (λ d, Forall2 (staged d0 plan d) l ps).
Proof.
  intros HH d d' Hf Hs. eapply Forall2_impl; [exact Hs|].
  intros af p (E1 & E2 & (t & x & Ht & Hto & Hx & Hb & Ho) & Hbk & Hex). split_and!; [done|done| | |done].
  - exists t, x. split_and!; try done. rewrite Hf; [done|]. intros Hq. apply (HH _ Hq). by eapply temp_reserved.
  - intros b Hb'. destruct (Hbk b Hb') as [H1 H2]. split; [done|].
    rewrite (live_frame _ _ _ _ Hf); [done|]. intros Hq. apply (HH _ Hq). by eapply back_reserved.
Qed.

(** What [stage] leaves behind, whether it stops or goes on. *)
Definition stage_post (H : path → Prop) (d0 : FS) (plan : Plan) (s : outcome + list filePrep) (d : FS) : Prop :=
  untouched H d0 d ∧
  match s with
  | inl (None, e) => is_Some e
  | inl (Some r, e) => e = None ∧ res_SkippedAsIdempotent r = true ∧
      ∃ l, abs_paths Abs (plan_Files plan) = Ok l ∧
        (collision_free → ∀ a f, (a, f) ∈ l → live d0 a = Some (file_Bytes f))
  | inr ps => ∃ l, abs_paths Abs (plan_Files plan) = Ok l ∧ separate l.*1 ∧ Forall2 (staged d0 plan d) l ps
  end.

Lemma backed_keep d0 ps bs S :
  (∀ q a, S q → ¬ back_of a q) → keep_under S (λ d, Forall2 (backed d0 d) ps bs).
Proof.
  intros HS d d' Hf Hb. eapply Forall2_impl; [exact Hb|]. intros p p'. unfold backed.
  destruct (fp_hadOrig p); [|done]. intros (b & -> & Hbo & Hl & Hs). exists b. split_and!; try done.
  rewrite (live_frame _ _ _ _ Hf); [done|]. intros Hq. by eapply HS.
Qed.

(** Steps 4 to 6, after the files are prepared. *)
Lemma stage_files H d0 plan l ps0 :
  well_behaved H plan → abs_paths Abs (plan_Files plan) = Ok l → separate l.*1 →
  Forall2 (prep_of Atoi user_Lookup user_LookupGroup d0 (plan_Defaults plan)) l ps0 →
  triple (λ d, d = d0)
    (bs ← (if bool_decide (plan_BackupRetention plan = -1) then mret (Ok ps0) else backup_files P [] ps0);
     match bs with
     | Err e => mret (inl (None, Some e))
     | Ok bs =>
         ts ← write_temps P [] bs;
         match ts with
         | Err e => mret (inl (None, Some e))
         | Ok ts =>
             h ← hook_of (plan_PreCommit plan) (λ f, f (temp_map ts));
             match h with
             | Err e => _ ← cleanupTemps ts; mret (inl (None, Some (ErrWrapPre ErrValidateFailed (Error e))))
             | Ok _ => mret (inr ts)
             end
         end
     end) (stage_post H d0 plan).
Proof.
  intros Hwb Hl Hsep Hps.
  set (bk d bs := if bool_decide (plan_BackupRetention plan = -1) then bs = ps0 else Forall2 (backed d0 d) ps0 bs).
  assert (Habs0 : map fp_abs ps0 = l.*1).
  { clear -Hps. induction Hps as [|[a f] p l ps (E & _) H IH]; cbn in *; [done|]. by rewrite E, IH. }
  assert (Hsep0 : separate (map fp_abs ps0)) by (by rewrite Habs0).
  eapply (triple_bind _ _ _ (λ r d, frame reserved d0 d ∧ ∀ bs, r = Ok bs → bk d bs)).
  { unfold bk. case_bool_decide as Hr.
    - apply triple_ret. intros d ->. split; [reflexivity|]. by intros bs [= <-].
    - intros w Hw. split.
      + apply (backup_files_plain P d0 [] ps0); [constructor|]. rewrite Hw. reflexivity.
      + intros bs Hbs. apply (backup_files_spec P d0 [] ps0 (λ _, True)) in Hbs as [H1 _]; try done.
        by rewrite Hw. }
  intros [bs|e]; [|apply triple_ret; intros d [Hd _]; split; [by apply plain_untouched|done]].
  apply (triple_pure (map fp_abs bs = map fp_abs ps0)).
  { intros d [_ Hb]. specialize (Hb bs eq_refl). unfold bk in Hb. case_bool_decide; [by subst|].
    clear -Hb. induction Hb as [|p p' ps0 bs Hp Hf IH]; cbn; [done|]. f_equal; [|done].
    unfold backed in Hp. destruct (fp_hadOrig p); [by destruct Hp as (b & -> & _)|by subst]. }
  intros Habs.
  eapply (triple_bind _ _ _ (λ r d, frame reserved d0 d ∧
    (∀ ts, r = Ok ts → Forall (λ p, ∀ t, fp_tempPath p = Some t → reserved t) ts ∧
       Forall2 (staged d0 plan d) l ts))).
  { intros w [Hw Hb]. specialize (Hb bs eq_refl).
    destruct (write_temps_plain P d0 [] bs (Forall_nil_2 _) w Hw) as [H1 H2]. split; [done|].
    intros ts Hts. split; [by apply H2|].
    apply (write_temps_spec P [] bs (λ d, bk d bs)) in Hts as [HJ (l' & -> & Ht)].
    - by apply (staged_combine d0 plan _ l ps0 bs).
    - rewrite Habs. apply Hsep0.
    - unfold bk. case_bool_decide; [by intros d d' _|]. apply backed_keep.
      intros q a (p & _ & Hq) Hb'. by eapply temp_back.
    - done. }
  intros [ts|e]; [|apply triple_ret; intros d [Hd _]; split; [by apply plain_untouched|done]].
  apply (triple_pure (Forall (λ p, ∀ t, fp_tempPath p = Some t → reserved t) ts)).
  { intros d [_ Hb]. by apply Hb. }
  intros Hts.
  eapply (triple_call H _ _ _ (λ _, True) (λ d, untouched H d0 d ∧ Forall2 (staged d0 plan d) l ts)).
  { apply hook_frame. intros f Hf. by apply (wb_pre H plan Hwb). }
  { intros d d' Hf [H1 H2]. split; [by eapply untouched_hook|]. revert H2. apply (staged_keep H); [|done].
    intros q Hq. by apply (wb_own H plan Hwb). }
  { apply triple_any. }
  { intros d [H1 H2]. split; [done|]. split; [by apply plain_untouched|by apply H2]. }
  intros [u|e].
  - apply triple_ret. intros d (_ & H1 & H2). split; [done|]. by exists l.
  - eapply (triple_call reserved _ _ _ (λ _, True) (untouched H d0)); [apply only_cleanup| |apply triple_any| |].
    + apply Forall_forall. intros q Hq. apply list_elem_of_omap in Hq as (p & Hp & Hq).
      rewrite Forall_forall in Hts. by apply (Hts p).
    + intros d d' Hf Hd q Hq. rewrite Hf by tauto. by apply Hd.
    + by intros d (_ & H1 & _).
    + intros v. apply triple_ret. intros d [_ Hd]. by split.
Qed.

Lemma stage_spec H d0 ctx_err plan :
  well_behaved H plan →
  triple (λ d, d = d0) (stage P Abs Sum256 Atoi user_Lookup user_LookupGroup ctx_err plan) (stage_post H d0 plan).
Proof.
  intros Hwb. unfold stage. cbv zeta.
  assert (Hstop : ∀ e, triple (λ d, d = d0) (mret (inl (None, Some e))) (stage_post H d0 plan))
    by (intros e; apply triple_ret; intros d ->; split; [by intros q|done]).
  destruct (validatePlan Abs plan) as [e|] eqn:Ev; [apply Hstop|].
  destruct (abs_paths Abs (plan_Files plan)) as [l|e] eqn:El; [|apply Hstop].
  assert (Hsep : separate l.*1).
  { unfold validatePlan in Ev. destruct (plan_Files plan) as [|f fs] eqn:Ef; [done|].
    destruct (validate_distinct Abs _ _ _ Ev El) as (_ & Hnd & _). split; [done|].
    intros a Ha. apply (wb_dests H plan Hwb). unfold dests. by rewrite Ef, El. }
  destruct ctx_err as [e|]; [apply Hstop|].
  eapply (triple_bind _ _ _ (λ r d, d = d0 ∧ (r = true → collision_free →
    ∀ a f, (a, f) ∈ l → live d0 a = Some (file_Bytes f)))).
  { destruct (plan_SkipIdempotent plan); [apply triple_ret; by intros d ->|apply all_match_spec]. }
  intros [|].
  - apply triple_ret. intros d [-> Hm]. split; [by intros q|]. split_and!; [done|done|].
    exists l. split; [done|]. intros Hc. by apply Hm.
  - eapply triple_bind_pre; [apply (prepare_files_spec Atoi user_Lookup user_LookupGroup d0)|by intros d [-> _]|].
    intros [ps0|e]; [|apply triple_ret; intros d [-> _]; split; [by intros q|done]].
    apply (triple_pure (Forall2 (prep_of Atoi user_Lookup user_LookupGroup d0 (plan_Defaults plan)) l ps0));
      [intros d [_ Hp]; by apply Hp|]. intros Hps.
    eapply triple_conseq; [by apply (stage_files H d0 plan l ps0)|by intros d [-> _]|done].
Qed.
End apply.

(** ** Renaming and restoring *)
Section commit.
Context (P : proc).

(** The paths a file's commit or rollback may change. *)
Definition own_path (ps : list filePrep) (q : path) : Prop :=
  ∃ p, p ∈ ps ∧ (q = fp_abs p ∨ temp_of (fp_abs p) q).

Definition ready (d : FS) (p : filePrep) : Prop :=
  ∃ t x, fp_tempPath p = Some t ∧ temp_of (fp_abs p) t ∧ fs_files d !! t = Some x ∧
         f_bytes x = file_Bytes (fp_file p) ∧ owned_as P (fp_owner p) x.

Definition installed (d : FS) (p : filePrep) : Prop :=
  ∃ x, fs_files d !! fp_abs p = Some x ∧ f_bytes x = file_Bytes (fp_file p) ∧ owned_as P (fp_owner p) x.

Lemma own_path_cons p ps q : own_path ps q → own_path (p :: ps) q.
Proof. intros (p' & H & H'). exists p'. split; [by right|done]. Qed.

Lemma own_path_one p ps q : q = fp_abs p ∨ temp_of (fp_abs p) q → own_path (p :: ps) q.
Proof. intros H. exists p. split; [by left|done]. Qed.

(** Neither a destination nor a temp file of the others. *)
Lemma own_path_other p ps :
  separate (map fp_abs (p :: ps)) → ¬ own_path ps (fp_abs p) ∧ ∀ t, temp_of (fp_abs p) t → ¬ own_path ps t.
Proof.
  intros [Hnd Hres]. cbn in Hnd. apply NoDup_cons in Hnd as [Hp _].
  assert (Hin : ∀ p', p' ∈ ps → fp_abs p' ∈ map fp_abs ps) by (intros p' ?; by apply (list_elem_of_fmap_2 fp_abs)).
  split.
  - intros (p' & Hp' & [E|Ht]); [apply Hp; rewrite E; auto|].
    apply (Hres (fp_abs p)); [by left|]. by eapply temp_reserved.
  - intros t Ht (p' & Hp' & [E|Ht']).
    + apply (Hres (fp_abs p')); [right; auto|]. rewrite <- E. by eapply temp_reserved.
    + apply Hp. rewrite (temp_of_inj _ _ _ Ht Ht'). auto.
Qed.

Lemma separate_tail p ps : separate (map fp_abs (p :: ps)) → separate (map fp_abs ps).
Proof. intros [Hnd Hres]. split; [by apply NoDup_cons in Hnd as [_ ?]|]. intros a Ha. apply Hres. by right. Qed.

Lemma only_restore_one p : pres (frame (own_path [p])) (restore_one P p).
Proof.
  assert (Ha : own_path [p] (fp_abs p)) by (apply own_path_one; by left).
  assert (Ht : ∀ q, temp_of (fp_abs p) q → own_path [p] q) by (intros q Hq; apply own_path_one; by right).
  unfold restore_one. destruct (fp_backupTo p) as [b|]; [|repeat only_step; done].
  only_step; [only_step|]. destruct a as [bytes|e]; [|only_step].
  intros w. unfold mbind, M_bind.
  pose proof (only_writeTempFile P (fp_abs p) bytes w) as Hw.
  pose proof (writeTempFile_spec P (fp_abs p) bytes w I) as Hs.
  destruct (writeTempFile P (fp_abs p) bytes w) as [r w']. cbn [fst snd] in *.
  transitivity (w_db w'); [intros q Hq; apply Hw; auto|].
  destruct r as [t|e]; [|reflexivity]. destruct (Hs t eq_refl) as [Hto _].
  assert (Hp : pres (frame (own_path [p]))
    (o ← applyOwnership P t (fp_owner p);
     match o with
     | Err e => _ ← os_remove_ignore t; mret (Some (ErrWrap "apply ownership during restore" e))
     | Ok _ => m ← os_Rename t (fp_abs p);
         match m with
         | Err e => _ ← os_remove_ignore t; mret (Some (ErrWrap "rename during restore" e))
         | Ok _ => mret None
         end
     end)); [|apply Hp].
  repeat lazymatch goal with
    | |- pres _ (applyOwnership _ _ _) => apply only_applyOwnership
    | _ => only_step
    end; auto.
Qed.

Lemma restore_one_spec p b0 :
  triple (λ d, ∀ b, fp_backupTo p = Some b → live d b = b0) (restore_one P p)
    (λ r d, r = None → live d (fp_abs p) = match fp_backupTo p with Some _ => b0 | None => None end).
Proof.
  unfold restore_one. destruct (fp_backupTo p) as [b|].
  2:{ eapply (triple_bind _ _ _ (λ r d, (r = Ok tt → live d (fp_abs p) = None) ∧
            ∀ e, r = Err e → errors_Is e os_ErrNotExist = true → live d (fp_abs p) = None)).
      { apply triple_sys; intros d _; unfold found, live.
        - destruct (fs_files d !! fp_abs p) as [x|] eqn:E; cbn; [by rewrite lookup_delete_eq|by rewrite E].
        - split; [done|]. intros e [= <-]. vm_compute. done. }
      intros [[]|e]; apply triple_ret; intros d [H1 H2]; [intros _; by apply H1|].
      destruct (errors_Is e os_ErrNotExist) eqn:E; [intros _; by apply (H2 e)|done]. }
  eapply (triple_bind _ _ _ (λ r d, ∀ s, r = Ok s → b0 = Some s)).
  { apply triple_sys; intros d Hd; [|done]. specialize (Hd b eq_refl). unfold found. unfold live in Hd.
    destruct (fs_files d !! b) as [x|]; cbn in *; intros s Hs; congruence. }
  intros [s|e]; [|by apply triple_ret].
  apply (triple_pure (b0 = Some s)); [intros d H; by apply H|]. intros ->.
  eapply triple_bind_pre; [apply writeTempFile_spec|done|]. intros [t|e]; [|by apply triple_ret].
  eapply triple_bind_pre; [apply (applyOwnership_spec P t (fp_owner p) s)|intros d H; by apply H|].
  intros [[]|e]; [|eapply triple_bind; [apply triple_any|intros u; by apply triple_ret]].
  eapply (triple_bind _ _ _ (λ r d, r = Ok tt → live d (fp_abs p) = Some s)).
  { apply triple_sys; intros d (x & Hx & Hb & _); [|done]. unfold found, live. rewrite Hx. cbn.
    rewrite lookup_insert_eq. by rewrite <- Hb. }
  intros [[]|e]; [apply triple_ret; intros d H _; by apply H|].
  eapply triple_bind; [apply triple_any|intros u; by apply triple_ret].
Qed.

Lemma only_restore ps : pres (frame (own_path ps)) (restoreFromBackups P ps).
Proof.
  induction ps as [|p ps IH]; cbn [restoreFromBackups]; [apply (pres_ret _)|].
  apply (pres_bind _); [|intros e; apply (pres_bind _); [|intros e'; apply (pres_ret _)]].
  - eapply frame_mono; [|apply only_restore_one]. intros q (p' & Hp' & Hq). apply list_elem_of_singleton in Hp' as ->.
    by apply own_path_one.
  - eapply frame_mono; [|exact IH]. apply own_path_cons.
Qed.

(** What the rollback restores: [g] is what the backups hold. *)
Definition restored (g : path → option string) (d : FS) (p : filePrep) : Prop :=
  live d (fp_abs p) = match fp_backupTo p with Some _ => g (fp_abs p) | None => None end.

Definition backups_hold (g : path → option string) (ps : list filePrep) (d : FS) : Prop :=
  ∀ p b, p ∈ ps → fp_backupTo p = Some b → back_of (fp_abs p) b ∧ live d b = g (fp_abs p).

Lemma backups_keep g ps S :
  (∀ q a, S q → ¬ back_of a q) → keep_under S (backups_hold g ps).
Proof.
  intros HS d d' Hf H p b Hp Hb. destruct (H p b Hp Hb) as [H1 H2]. split; [done|].
  rewrite (live_frame _ _ _ _ Hf); [done|]. intros Hq. by eapply HS.
Qed.

Lemma own_path_not_back ps : separate (map fp_abs ps) → ∀ q a, own_path ps q → ¬ back_of a q.
Proof.
  intros [_ Hres] q a (p & Hp & [->|Ht]) Hb; [|by eapply temp_back].
  apply (Hres (fp_abs p)); [by apply (list_elem_of_fmap_2 fp_abs)|by eapply back_reserved].
Qed.

Lemma restore_spec g ps :
  separate (map fp_abs ps) →
  triple (backups_hold g ps) (restoreFromBackups P ps)
    (λ r d, r = None → ∀ p, p ∈ ps → restored g d p).
Proof.
  induction ps as [|p ps IH]; intros Hsep; cbn [restoreFromBackups].
  { apply triple_ret. by intros d _ _ p ?%elem_of_nil. }
  pose proof (separate_tail p ps Hsep) as Hsep'. destruct (own_path_other p ps Hsep) as [Hp _].
  eapply (triple_call (own_path [p]) _ _ _ _ (backups_hold g ps));
    [apply only_restore_one| |apply (restore_one_spec p (g (fp_abs p)))| |].
  { apply backups_keep. apply own_path_not_back. destruct Hsep as [_ Hres].
    split; [by apply NoDup_singleton|]. intros a Ha. apply Hres.
    apply list_elem_of_singleton in Ha as ->. by left. }
  { intros d H. split; [intros b Hb; by apply (H p b); [left|]|]. intros p' b Hp' Hb. by apply H; [right|]. }
  intros e. eapply (triple_call (own_path ps) _ _ _ _ (λ d, e = None → restored g d p));
    [apply only_restore| |apply (IH Hsep')| |].
  { intros d d' Hf H He. unfold restored. rewrite (live_frame _ _ _ _ Hf Hp). by apply H. }
  { intros d [H1 H2]. split; [done|]. exact H1. }
  intros e'. apply triple_ret. intros d [H1 H2] Hr p' [->|Hp']%elem_of_cons.
  - apply H2. by destruct e.
  - apply H1; [by destruct e|done].
Qed.

Lemma only_rename_all done ps :
  (∀ p t, p ∈ ps → fp_tempPath p = Some t → temp_of (fp_abs p) t) →
  pres (frame (own_path ps)) (rename_all done ps).
Proof.
  revert done. induction ps as [|p ps IH]; intros done Ht; cbn [rename_all]; [apply (pres_ret _)|].
  apply (pres_bind _).
  - destruct (fp_tempPath p) as [t|] eqn:E; [|apply (pres_ret _)].
    apply only_Rename; apply own_path_one; [right|by left]. by apply Ht; [left|].
  - intros [[]|e]; [|apply (pres_ret _)]. eapply frame_mono; [apply own_path_cons|]. apply IH.
    intros p' t Hp'. apply Ht. by right.
Qed.

Lemma ready_keep (ps : list filePrep) (S : path → Prop) : (∀ p t, p ∈ ps → temp_of (fp_abs p) t → ¬ S t) →
  keep_under S (λ d, ∀ p, p ∈ ps → ready d p).
Proof.
  intros HS d d' Hf H p Hp. destruct (H p Hp) as (t & x & Ht & Hto & Hx & Hb & Ho). exists t, x.
  split_and!; try done. rewrite Hf; [done|]. by eapply HS.
Qed.

Lemma rename_all_spec g done ps :
  separate (map fp_abs ps) → (∀ p t, p ∈ ps → fp_tempPath p = Some t → temp_of (fp_abs p) t) →
  triple (λ d, (∀ p, p ∈ ps → ready d p) ∧ ∀ p, p ∈ ps → live d (fp_abs p) = g (fp_abs p)) (rename_all done ps)
    (λ r d, match r with
            | None => ∀ p, p ∈ ps → installed d p
            | Some (_, dn) => ∃ pre rest, ps = pre ++ rest ∧ dn = done ++ pre ∧
                ∀ p, p ∈ rest → live d (fp_abs p) = g (fp_abs p)
            end).
Proof.
  revert done. induction ps as [|p ps IH]; intros done Hsep Htemps; cbn [rename_all].
  { apply triple_ret. by intros d _ p ?%elem_of_nil. }
  pose proof (separate_tail p ps Hsep) as Hsep'. destruct (own_path_other p ps Hsep) as [Hp Htmp].
  apply (triple_pure (∃ t, fp_tempPath p = Some t ∧ temp_of (fp_abs p) t)).
  { intros d [H _]. destruct (H p ltac:(by left)) as (t & x & ? & ? & _). by exists t. }
  intros (t & Et & Hto). rewrite Et.
  assert (Hother : ∀ p', p' ∈ ps → fp_abs p' ≠ t ∧ fp_abs p' ≠ fp_abs p).
  { intros p' Hp'. split; intros E; [apply (Htmp t Hto)|apply Hp]; exists p'; auto. }
  eapply (triple_bind _ _ _ (λ r d, match r with
      | Ok _ => installed d p ∧ (∀ p', p' ∈ ps → ready d p') ∧ ∀ p', p' ∈ ps → live d (fp_abs p') = g (fp_abs p')
      | Err _ => ∀ p', p' ∈ p :: ps → live d (fp_abs p') = g (fp_abs p')
      end)).
  { apply triple_sys; intros d [Hr Hg]; [|exact Hg].
    destruct (Hr p ltac:(by left)) as (t' & x & Et' & _ & Hx & Hb & Ho). rewrite Et in Et'. injection Et' as <-.
    unfold found. rewrite Hx. cbn [fst snd].
    assert (Hf : frame (λ q, q = t ∨ q = fp_abs p) d (set_files (λ m, <[fp_abs p := x]> (delete t m)) d)).
    { intros q Hq. cbn. rewrite lookup_insert_ne, lookup_delete_ne; [done| |]; intros E; apply Hq; [by left|by right]. }
    split_and!.
    - exists x. cbn. by rewrite lookup_insert_eq.
    - eapply (ready_keep ps); [|exact Hf|intros p' Hp'; apply Hr; by right].
      intros p' t' Hp' Ht' [-> | ->].
      + apply (Htmp t Hto). exists p'. auto.
      + apply Hp. exists p'. auto.
    - intros p' Hp'. rewrite (live_frame _ _ _ _ Hf); [apply Hg; by right|].
      destruct (Hother p' Hp'). tauto. }
  assert (Htemps' : ∀ p' t', p' ∈ ps → fp_tempPath p' = Some t' → temp_of (fp_abs p') t')
    by (intros p' t' Hp'; apply Htemps; by right).
  intros [[]|e].
  - intros w ((x & Hx & Hb & Ho) & Hr & Hg).
    pose proof (IH (done ++ [p]) Hsep' Htemps' w (conj Hr Hg)) as Hs.
    pose proof (only_rename_all (done ++ [p]) ps Htemps' w) as Hf.
    destruct (rename_all (done ++ [p]) ps w) as [[[e dn]|] w']; cbn [fst snd] in *.
    + destruct Hs as (pre & rest & -> & -> & Hs). exists (p :: pre), rest. by rewrite <- app_assoc.
    + intros p' [->|Hp']%elem_of_cons; [|by apply Hs]. exists x. by rewrite (Hf _ Hp).
  - apply triple_ret. intros d H. exists [], (p :: ps). by rewrite app_nil_r.
Qed.
End commit.

(** ** What [Apply] guarantees *)
Section guarantees.
Context (P : proc) (Abs : string → res path) (Sum256 : string → string) (Atoi : string → option Z)
  (user_Lookup user_LookupGroup : string → res string).

(** Everything staged: temps ready, backups in place, destinations as before. *)
Record poised (H : path → Prop) (d0 : FS) (ps : list filePrep) (d : FS) : Prop := {
  po_ready p : p ∈ ps → ready P d p;
  po_backups : backups_hold (live d0) ps d;
  po_live p : p ∈ ps → live d (fp_abs p) = live d0 (fp_abs p)
}.

Lemma staged_abs d0 plan d l ps :
  Forall2 (staged P Atoi user_Lookup user_LookupGroup d0 plan d) l ps → map fp_abs ps = l.*1.
Proof. induction 1 as [|af p l ps (E & _) _ IH]; cbn; [done|]. by rewrite E, IH. Qed.

Lemma staged_poised H d0 plan d l ps :
  well_behaved Abs H plan → abs_paths Abs (plan_Files plan) = Ok l → separate l.*1 → untouched H d0 d →
  Forall2 (staged P Atoi user_Lookup user_LookupGroup d0 plan d) l ps → poised H d0 ps d.
Proof.
  intros Hwb Hl Hsep Hu Hs.
  assert (Hin : ∀ p, p ∈ ps → ∃ af, af ∈ l ∧ staged P Atoi user_Lookup user_LookupGroup d0 plan d af p).
  { intros p Hp. apply list_elem_of_lookup in Hp as [i Hi].
    destruct (Forall2_lookup_r _ _ _ _ _ Hs Hi) as (af & Haf & Hst). exists af. split; [|done].
    by eapply list_elem_of_lookup_2. }
  split.
  - intros p (af & _ & E1 & E2 & Ht & _)%Hin. exact Ht.
  - intros p b (af & _ & E1 & E2 & _ & Hb & _)%Hin Hpb. by apply Hb.
  - intros p (af & Haf & E1 & _)%Hin. apply (live_frame _ _ _ _ Hu).
    assert (Ha : fp_abs p ∈ l.*1) by (rewrite E1; by apply (list_elem_of_fmap_2 fst)).
    intros [Hr|HH]; [by apply (proj2 Hsep _ Ha)|].
    apply (wb_own Abs H plan Hwb _ HH). unfold dests. by rewrite Hl.
Qed.

(** The paths a commit may change. *)
Definition touched (H : path → Prop) (ps : list filePrep) (q : path) : Prop :=
  reserved q ∨ H q ∨ q ∈ map fp_abs ps.

Lemma own_touched H ps q : own_path ps q → touched H ps q.
Proof.
  intros (p & Hp & [->|Ht]); [|left; by eapply temp_reserved]. right; right.
  by apply (list_elem_of_fmap_2 fp_abs).
Qed.

Lemma rename_all_sub acc ps w e dn :
  (rename_all acc ps w).1 = Some (e, dn) → ∀ p, p ∈ dn → p ∈ acc ∨ p ∈ ps.
Proof.
  revert acc w. induction ps as [|p ps IH]; intros acc w; cbn [rename_all]; [done|].
  unfold mbind, M_bind. destruct (fp_tempPath p) as [t|]; [destruct (os_Rename t (fp_abs p) w) as [[[]|e'] w']|cbn].
  - intros H q Hq. destruct (IH _ _ H q Hq) as [[?| ->%list_elem_of_singleton]%elem_of_app|]; rewrite elem_of_cons; auto.
  - intros [= _ ->] q Hq. auto.
  - intros [= _ ->] q Hq. auto.
Qed.

Lemma only_prune_all ps keep :
  pres (frame reserved) (for_each ps (λ p, _ ← pruneBackups (fp_abs p) keep; mret tt)).
Proof.
  apply (pres_for_each _). intros p. apply (pres_bind _); [apply only_pruneBackups|].
  intros e. apply (pres_ret _).
Qed.

(** What the destinations hold after a failure that could be rolled back. *)
Definition rolled_back (d0 d : FS) (p : filePrep) : Prop :=
  live d (fp_abs p) = live d0 (fp_abs p) ∨ fp_backupTo p = None ∧ live d (fp_abs p) = None.

Lemma restored_rolled_back d0 d p : restored (live d0) d p → rolled_back d0 d p.
Proof. unfold restored, rolled_back. destruct (fp_backupTo p); auto. Qed.

Lemma rolled_back_keep d0 (ps : list filePrep) (S : path → Prop) :
  (∀ p, p ∈ ps → ¬ S (fp_abs p)) → keep_under S (λ d, ∀ p, p ∈ ps → rolled_back d0 d p).
Proof.
  intros HS d d' Hf H p Hp. unfold rolled_back. rewrite (live_frame _ _ _ _ Hf); [by apply H|auto].
Qed.

Definition commit_post (d0 : FS) (ps : list filePrep) (out : outcome) (d : FS) : Prop :=
  match out.2 with
  | None => ∀ p, p ∈ ps → installed P d p
  | Some e => errors_Is e ErrRollbackFailed = false → ∀ p, p ∈ ps → rolled_back d0 d p
  end.

Context (H : path → Prop) (plan : Plan) (ps : list filePrep) (d0 : FS).
Hypothesis Hwb : well_behaved Abs H plan.
Hypothesis Hsep : separate (map fp_abs ps).
Hypothesis Htemps : ∀ p t, p ∈ ps → fp_tempPath p = Some t → temp_of (fp_abs p) t.
Hypothesis HH : ∀ q, H q → ¬ reserved q ∧ q ∉ map fp_abs ps.

Lemma abs_in p : p ∈ ps → fp_abs p ∈ map fp_abs ps.
Proof. intros Hp. by apply (list_elem_of_fmap_2 fp_abs). Qed.

Lemma abs_not_reserved p : p ∈ ps → ¬ reserved (fp_abs p).
Proof. intros Hp. by apply (proj2 Hsep), abs_in. Qed.

Lemma only_cleanupTemps : pres (frame reserved) (cleanupTemps ps).
Proof.
  apply only_cleanup. apply Forall_forall. intros q Hq.
  apply list_elem_of_omap in Hq as (p & Hp & Hq). eapply temp_reserved. by eapply Htemps.
Qed.

Lemma only_post : pres (frame H) (hook_of (plan_PostCommit plan) (λ f, f)).
Proof. apply hook_frame. intros f Hf. by apply (wb_post Abs H plan Hwb). Qed.

Lemma only_commit : pres (frame (touched H ps)) (commit P plan ps).
Proof.
  assert (Hr : ∀ A (m : M FS A), pres (frame reserved) m → pres (frame (touched H ps)) m)
    by (intros A m; apply frame_mono; intros q Hq; by left).
  assert (Ho : ∀ A (m : M FS A), pres (frame (own_path ps)) m → pres (frame (touched H ps)) m)
    by (intros A m; apply frame_mono, own_touched).
  assert (Hh : pres (frame (touched H ps)) (hook_of (plan_PostCommit plan) (λ f, f)))
    by (eapply frame_mono; [|apply only_post]; intros q Hq; right; by left).
  unfold commit. cbv zeta. intros w. unfold mbind at 1, M_bind at 1.
  pose proof (Ho _ _ (only_rename_all [] ps Htemps) w) as Hm.
  destruct (rename_all [] ps w) as [m w1] eqn:Em. cbn [snd] in Hm. etransitivity; [exact Hm|].
  destruct m as [[e dn]|].
  - assert (Hdn : ∀ p, p ∈ dn → p ∈ ps).
    { intros p Hp. destruct (rename_all_sub [] ps w e dn) with p as [?%elem_of_nil|]; [by rewrite Em|done..]. }
    assert (Hp : pres (frame (touched H ps)) (restoreFromBackups P dn)).
    { eapply frame_mono; [|apply only_restore]. intros q (p & Hq & Hq'). apply own_touched. exists p. auto. }
    apply (pres_bind _); [exact Hp|]. intros r. apply (pres_bind _); [apply Hr, only_cleanupTemps|].
    intros u. apply (pres_ret _).
  - lazymatch goal with |- frame ?S _ (w_db (?m w1).2) => enough (Hp : pres (frame S) m) by apply Hp end.
    repeat first [ apply Ho, only_restore | exact Hh | apply Hr, only_prune_all | pres_step ].
Qed.

Lemma backups_sub pre d : (∀ p, p ∈ pre → p ∈ ps) → backups_hold (live d0) ps d → backups_hold (live d0) pre d.
Proof. intros Hs Hb p b Hp. apply Hb. auto. Qed.

Lemma separate_app_l pre rest : ps = pre ++ rest → separate (map fp_abs pre).
Proof.
  intros E. destruct Hsep as [Hnd Hres]. rewrite E, map_app in Hnd, Hres. apply NoDup_app in Hnd as (Hnd & _).
  split; [done|]. intros a Ha. apply Hres, elem_of_app. by left.
Qed.

(** A rename failed half way: what was renamed is restored, the rest is as it was. *)
Lemma midloop_spec pre rest r e :
  ps = pre ++ rest →
  triple (λ d, (∀ p, p ∈ rest → live d (fp_abs p) = live d0 (fp_abs p)) ∧ backups_hold (live d0) ps d)
    (b ← restoreFromBackups P pre; _ ← cleanupTemps ps;
     mret (r, Some match b with
                   | Some _ => ErrWrapPre ErrRollbackFailed "rename mid-loop, rollback also failed"
                   | None => ErrWrap "rename" e
                   end)) (commit_post d0 ps).
Proof.
  intros E. pose proof (separate_app_l pre rest E) as Hsep'.
  eapply (triple_call (own_path pre) _ _ _ _ (λ d, ∀ p, p ∈ rest → live d (fp_abs p) = live d0 (fp_abs p)));
    [apply only_restore| |apply (restore_spec P (live d0) pre Hsep')| |].
  { intros d d' Hf Hd p Hp. rewrite (live_frame _ _ _ _ Hf), Hd; [done..|]. intros (p' & Hp' & [Eq|Ht]).
    - destruct Hsep as [Hnd _]. rewrite E, map_app in Hnd. apply NoDup_app in Hnd as (_ & Hnd & _).
      apply (Hnd (fp_abs p')); [by apply (list_elem_of_fmap_2 fp_abs)|].
      rewrite <- Eq. by apply (list_elem_of_fmap_2 fp_abs).
    - apply (abs_not_reserved p); [rewrite E; apply elem_of_app; by right|by eapply temp_reserved]. }
  { intros d [H1 H2]. split; [|done]. revert H2. apply backups_sub. intros p Hp. rewrite E. apply elem_of_app. by left. }
  intros b. eapply (triple_call reserved _ _ _ (λ _, True) (λ d, b = None → ∀ p, p ∈ ps → rolled_back d0 d p));
    [apply only_cleanupTemps| |apply triple_any| |].
  { intros d d' Hf Hd Hb. eapply (rolled_back_keep d0 ps reserved); [apply abs_not_reserved|exact Hf|auto]. }
  { intros d [H1 H2]. split; [done|]. intros -> p Hp. rewrite E in Hp. apply elem_of_app in Hp as [Hp|Hp].
    - by apply restored_rolled_back, H1.
    - left. auto. }
  intros u. apply triple_ret. intros d [_ Hd]. unfold commit_post; cbn [snd]. destruct b; [done|auto].
Qed.

(** The reload failed: restore, reload again. *)
Lemma reload_failed_spec r1 r2 r3 e :
  triple (backups_hold (live d0) ps)
    (r ← restoreFromBackups P ps;
     match r with
     | Some _ => mret (r1, Some (ErrWrapPre ErrRollbackFailed "PostCommit failed AND rollback restore failed"))
     | None =>
         h2 ← hook_of (plan_PostCommit plan) (λ f, f);
         match h2 with
         | Err _ => mret (r2, Some (ErrWrapPre ErrRollbackFailed "PostCommit failed AND second PostCommit failed"))
         | Ok _ => mret (r3, Some (ErrWrapPre ErrReloadFailed (Error e)))
         end
     end) (commit_post d0 ps).
Proof.
  eapply triple_bind; [apply (restore_spec P (live d0) ps Hsep)|]. intros [e1|].
  { apply triple_ret. intros d _. done. }
  eapply (triple_call H _ _ _ (λ _, True) (λ d, ∀ p, p ∈ ps → rolled_back d0 d p));
    [apply only_post| |apply triple_any| |].
  { apply rolled_back_keep. intros p Hp Hq. apply (proj2 (HH _ Hq)), abs_in, Hp. }
  { intros d Hd. split; [done|]. intros p Hp. by apply restored_rolled_back, Hd. }
  intros [u|e2]; apply triple_ret; [|done]. intros d [_ Hd] _. exact Hd.
Qed.

Lemma installed_keep S : (∀ p, p ∈ ps → ¬ S (fp_abs p)) → keep_under S (λ d, ∀ p, p ∈ ps → installed P d p).
Proof.
  intros HS d d' Hf Hd p Hp. destruct (Hd p Hp) as (x & Hx & Hb & Ho). exists x. split_and!; try done.
  rewrite Hf; [done|auto].
Qed.

Lemma commit_spec : triple (poised H d0 ps) (commit P plan ps) (commit_post d0 ps).
Proof.
  unfold commit. cbv zeta.
  eapply (triple_call (own_path ps) _ _ _ _ (backups_hold (live d0) ps));
    [by apply only_rename_all|by apply backups_keep, own_path_not_back
    |apply (rename_all_spec P (live d0) [] ps Hsep Htemps)| |].
  { intros d [H1 H2 H3]. by split_and!. }
  intros [[e dn]|].
  { intros w [(pre & rest & E & -> & Hl) Hb]. by apply (midloop_spec pre rest). }
  eapply (triple_call H _ _ _ (λ _, True) (λ d, (∀ p, p ∈ ps → installed P d p) ∧ backups_hold (live d0) ps d));
    [apply only_post| |apply triple_any|done|].
  { intros d d' Hf [H1 H2]. split.
    - revert Hf H1. apply installed_keep. intros p Hp Hq. apply (proj2 (HH _ Hq)), abs_in, Hp.
    - revert Hf H2. apply backups_keep. intros q a Hq Hb. apply (proj1 (HH _ Hq)). by eapply back_reserved. }
  intros [u|e].
  - eapply (triple_call reserved _ _ _ (λ _, True) (λ d, ∀ p, p ∈ ps → installed P d p)).
    + case_bool_decide; [apply only_prune_all|apply (pres_ret _)].
    + apply installed_keep, abs_not_reserved.
    + apply triple_any.
    + by intros d (_ & H1 & _).
    + intros v. apply triple_ret. by intros d [_ Hd].
  - eapply triple_conseq; [apply reload_failed_spec|by intros d (_ & _ & H2)|done].
Qed.
End guarantees.

(** ** The theorems *)
Section theorems.
Context (P : proc) (Abs : string → res path) (Sum256 : string → string) (Atoi : string → option Z)
  (user_Lookup user_LookupGroup : string → res string).

(** A rename fails with a system error. *)
Lemma rename_all_error acc ps :
  triple (λ _, True) (rename_all acc ps)
    (λ r _, ∀ e dn, r = Some (e, dn) → errors_Is e ErrValidateFailed = false).
Proof.
  revert acc. induction ps as [|p ps IH]; intros acc; cbn [rename_all]; [by apply triple_ret|].
  eapply (triple_bind _ _ _ (λ r _, ∀ e, r = Err e → errors_Is e ErrValidateFailed = false)).
  { destruct (fp_tempPath p) as [t|]; [|apply triple_ret; intros d _ e [= <-]; by vm_compute].
    apply triple_sys; intros d _.
    - unfold found. destruct (fs_files d !! t); intros e [= <-]. by vm_compute.
    - intros e [= <-]. by vm_compute. }
  intros [u|e]; [eapply triple_conseq; [apply IH|done|done]|].
  apply triple_ret. intros d He e' dn [= <- <-]. by apply He.
Qed.

(** The shape of what a commit reports. *)
Lemma commit_result plan ps :
  triple (λ _, True) (commit P plan ps) (λ out _,
    (∃ a b, out.1 = Some (mkResult false (backup_map plan ps) true a b)) ∧
    ∀ e, out.2 = Some e → errors_Is e ErrValidateFailed = false).
Proof.
  unfold commit. cbv zeta. eapply triple_bind; [apply rename_all_error|]. intros [[e dn]|].
  - apply (triple_pure (errors_Is e ErrValidateFailed = false)); [intros d He; by eapply He|]. intros He.
    eapply triple_bind; [apply triple_any|]. intros r. eapply triple_bind; [apply triple_any|]. intros u.
    apply triple_ret. intros d _. split; [by eexists _, _|]. intros e' [= <-].
    destruct r; [by vm_compute|]. cbn [errors_Is]. rewrite He. by vm_compute.
  - eapply triple_bind; [apply triple_any|]. intros [u|e].
    + eapply triple_bind; [apply triple_any|]. intros v. apply triple_ret. intros d _. split; [by eexists _, _|done].
    + eapply triple_bind; [apply triple_any|]. intros [e1|].
      { apply triple_ret. intros d _. split; [by eexists _, _|]. intros e' [= <-]. by vm_compute. }
      eapply triple_bind; [apply triple_any|]. intros [v|e2]; apply triple_ret; intros d _;
        (split; [by eexists _, _|]); intros e' [= <-]; cbn [errors_Is]; by vm_compute.
Qed.

(** A run of [Apply] that reached the commit. *)
Definition committed (H : path → Prop) (d0 : FS) (plan : Plan) (out : outcome) (d : FS) : Prop :=
  ∃ l ps d1, abs_paths Abs (plan_Files plan) = Ok l ∧ separate l.*1 ∧ untouched H d0 d1 ∧
    Forall2 (staged P Atoi user_Lookup user_LookupGroup d0 plan d1) l ps ∧
    frame (touched H ps) d1 d ∧ commit_post P d0 ps out d ∧
    (∃ a b, out.1 = Some (mkResult false (backup_map plan ps) true a b)) ∧
    ∀ e, out.2 = Some e → errors_Is e ErrValidateFailed = false.

Lemma apply_spec H ctx_err plan w :
  well_behaved Abs H plan →
  let '(out, w') := Apply P Abs Sum256 Atoi user_Lookup user_LookupGroup ctx_err plan w in
  stage_post P Abs Sum256 Atoi user_Lookup user_LookupGroup H (w_db w) plan (inl out) (w_db w') ∨
  committed H (w_db w) plan out (w_db w').
Proof.
  intros Hwb. unfold Apply, mbind, M_bind.
  pose proof (stage_spec P Abs Sum256 Atoi user_Lookup user_LookupGroup H (w_db w) ctx_err plan Hwb w eq_refl) as Hs.
  destruct (stage P Abs Sum256 Atoi user_Lookup user_LookupGroup ctx_err plan w) as [[out|ps] w1]; cbn [fst snd] in Hs.
  { by left. }
  destruct Hs as [Hu (l & Hl & Hsep & Hst)].
  pose proof (staged_abs P Atoi user_Lookup user_LookupGroup _ _ _ _ _ Hst) as Habs.
  pose proof (staged_poised P Abs Atoi user_Lookup user_LookupGroup H _ _ _ _ _ Hwb Hl Hsep Hu Hst) as Hpo.
  assert (Hsep' : separate (map fp_abs ps)) by (by rewrite Habs).
  assert (Htemps : ∀ p t, p ∈ ps → fp_tempPath p = Some t → temp_of (fp_abs p) t).
  { intros p t Hp Ht. destruct (po_ready _ _ _ _ _ Hpo p Hp) as (t' & x & Ht' & Hto & _). congruence. }
  assert (HH : ∀ q, H q → ¬ reserved q ∧ q ∉ map fp_abs ps).
  { intros q Hq. rewrite Habs. destruct (wb_own Abs H plan Hwb q Hq) as [H1 H2]. split; [done|].
    unfold dests in H2. by rewrite Hl in H2. }
  pose proof (commit_spec P Abs H plan ps (w_db w) Hwb Hsep' Htemps HH w1 Hpo) as Hc.
  pose proof (only_commit P Abs H plan ps Hwb Htemps w1) as Hf.
  pose proof (commit_result plan ps w1 I) as Hr.
  destruct (commit P plan ps w1) as [out w2]; cbn [fst snd] in *. right. by exists l, ps, (w_db w1).
Qed.

Lemma staged_lookup d0 plan d l ps a :
  Forall2 (staged P Atoi user_Lookup user_LookupGroup d0 plan d) l ps → a ∈ l.*1 → ∃ p, p ∈ ps ∧ fp_abs p = a.
Proof.
  intros Hs Ha. rewrite <- (staged_abs P Atoi user_Lookup user_LookupGroup _ _ _ _ _ Hs) in Ha.
  apply list_elem_of_fmap in Ha as (p & -> & Hp). by exists p.
Qed.

Lemma abs_paths_elem files l f :
  abs_paths Abs files = Ok l → f ∈ files → ∀ a, Abs (file_Path f) = Ok a → (a, f) ∈ l.
Proof.
  revert l. induction files as [|g fs IH]; intros l Hl Hf a Ha; [by apply elem_of_nil in Hf|]. cbn in Hl.
  destruct (Abs (file_Path g)) as [b|] eqn:Eb; [|done]. destruct (abs_paths Abs fs) as [l'|]; [|done].
  injection Hl as <-. apply elem_of_cons in Hf as [->|Hf]; [|right; by apply IH].
  rewrite Ha in Eb. injection Eb as <-. by left.
Qed.

Lemma dest_untouched H plan d0 d a :
  well_behaved Abs H plan → untouched H d0 d → a ∈ dests Abs plan → fs_files d !! a = fs_files d0 !! a.
Proof.
  intros Hwb Hu Ha. apply Hu. intros [Hr|HH]; [by apply (wb_dests Abs H plan Hwb a)|].
  by apply (wb_own Abs H plan Hwb a HH).
Qed.

(** a deployment that is refused touches no live file.  Whenever [Apply] returns no
    result, or reports that the validation hook failed, it reports an error and every file
    that is not one of certctl's own temp or backup files (and not written by a hook) has
    the bytes, mode and owner it had, whatever system calls failed along the way. *)
Theorem refused_apply_untouched H ctx_err plan w :
  well_behaved Abs H plan →
  let '(out, w') := Apply P Abs Sum256 Atoi user_Lookup user_LookupGroup ctx_err plan w in
  out.1 = None ∨ (∃ e, out.2 = Some e ∧ errors_Is e ErrValidateFailed = true) →
  is_Some out.2 ∧ ∀ q, ¬ reserved q → ¬ H q → fs_files (w_db w') !! q = fs_files (w_db w) !! q.
Proof.
  intros Hwb. pose proof (apply_spec H ctx_err plan w Hwb) as Ha.
  destruct (Apply P Abs Sum256 Atoi user_Lookup user_LookupGroup ctx_err plan w) as [[o1 o2] w']; cbn [fst snd].
  intros Ho. destruct Ha as [[Hu Hp]|(l & ps & d1 & _ & _ & _ & _ & _ & _ & (a & b & E) & He)]; cbn [fst snd] in *.
  - split; [|intros q H1 H2; apply Hu; tauto].
    destruct o1 as [r|]; [|done]. destruct Hp as [-> _]. destruct Ho as [?|(e & ? & _)]; done.
  - exfalso. destruct Ho as [->|(e & Ee & Hv)]; [done|]. rewrite (He e Ee) in Hv. done.
Qed.


Lemma backup_map_lookup d0 d plan l ps p :
  plan_BackupRetention plan ≠ -1 → separate l.*1 →
  Forall2 (staged P Atoi user_Lookup user_LookupGroup d0 plan d) l ps → p ∈ ps →
  backup_map plan ps !! fp_abs p = Some (fp_backupTo p).
Proof.
  intros Hr [Hnd _] Hst Hp. unfold backup_map. rewrite bool_decide_eq_false_2 by done.
  apply elem_of_list_to_map_1.
  - rewrite <- (staged_abs P Atoi user_Lookup user_LookupGroup _ _ _ _ _ Hst) in Hnd.
    by rewrite <- list_fmap_compose.
  - by apply (list_elem_of_fmap_2 (λ p, (fp_abs p, fp_backupTo p))).
Qed.

End theorems.

(** ** One file: [AtomicWriteFile] *)
Section atomic.
Context (P : proc) (Abs : string → res path) (Sum256 : string → string) (Atoi : string → option Z)
  (user_Lookup user_LookupGroup : string → res string).

(** Either the new file is in place, or nothing but certctl's own files changed. *)
Definition swap_post (a : path) (data : string) (o : resolvedOwnership) (d0 : FS) (r : res WriteResult)
    (d : FS) : Prop :=
  match r with
  | Ok wr => wr_Path wr = a ∧ wr_Idempotent wr = false ∧ frame (λ q, reserved q ∨ q = a) d0 d ∧
      ∃ x, fs_files d !! a = Some x ∧ f_bytes x = data ∧ owned_as P o x
  | Err _ => frame reserved d0 d
  end.

Lemma swap_fail a data o d0 t e :
  reserved t → triple (frame reserved d0) (_ ← os_remove_ignore t; mret (Err e)) (swap_post a data o d0).
Proof.
  intros Ht. eapply (triple_call reserved _ _ _ (λ _, True) (frame reserved d0));
    [by apply only_remove_ignore|by apply keep_plain|apply triple_any|done|].
  intros u. apply triple_ret. by intros d [_ Hd].
Qed.

Lemma rename_in a t data o d0 :
  reserved t → ¬ reserved a →
  triple (λ d, frame reserved d0 d ∧ ∃ x, fs_files d !! t = Some x ∧ f_bytes x = data ∧ owned_as P o x)
    (os_Rename t a)
    (λ r d, match r with
            | Ok _ => frame (λ q, reserved q ∨ q = a) d0 d ∧
                ∃ x, fs_files d !! a = Some x ∧ f_bytes x = data ∧ owned_as P o x
            | Err _ => frame reserved d0 d
            end).
Proof.
  intros Ht Ha. apply triple_sys; intros d [Hf (x & Hx & Hb & Ho)]; [|done].
  unfold found. rewrite Hx. cbn. split.
  - intros q Hq. cbn. rewrite lookup_insert_ne, lookup_delete_ne; [apply Hf; tauto| |]; intros E; subst; tauto.
  - exists x. by rewrite lookup_insert_eq.
Qed.

Lemma swap_in_spec a data o existed retention d0 :
  ¬ reserved a → triple (λ d, d = d0) (swap_in P a data o existed retention) (swap_post a data o d0).
Proof.
  intros Ha. unfold swap_in.
  eapply (triple_call (temp_of a) _ _ _ (λ _, True) (frame reserved d0));
    [apply only_writeTempFile|apply keep_plain, temp_reserved|apply writeTempFile_spec
    |intros d ->; split; [done|reflexivity]|].
  intros [t|e]; [|apply triple_ret; by intros d [_ Hd]].
  apply (triple_pure (temp_of a t)); [intros d [Hd _]; by apply Hd|]. intros Hto. cbv zeta.
  pose proof (temp_reserved a t Hto) as Ht.
  eapply (triple_call reserved _ _ _ _ (frame reserved d0));
    [by apply only_applyOwnership|by apply keep_plain|apply (applyOwnership_spec P t o data)| |].
  { intros d [H1 H2]. split; [by apply H1|done]. }
  intros [[]|e]; [|eapply triple_conseq; [by apply swap_fail|by intros d [_ Hd]|done]].
  eapply (triple_call (back_of a) _ _ _ (λ _, True)
    (λ d, frame reserved d0 d ∧ ∃ x, fs_files d !! t = Some x ∧ f_bytes x = data ∧ owned_as P o x)).
  { case_match; [|apply (pres_ret _)]. apply (pres_bind _); [apply only_backupFile|]. intros r. apply (pres_ret _). }
  { intros d d' Hf [H1 (x & Hx & H2)]. split; [by eapply keep_plain; [apply back_reserved|exact Hf|]|].
    exists x. split; [|done]. rewrite Hf; [done|]. intros Hb. by eapply temp_back. }
  { apply triple_any. }
  { intros d [(x & Hx & Hb & Ho) Hf]. split; [done|]. split; [done|]. exists x. auto. }
  intros [b|e]; [|eapply triple_conseq; [by apply swap_fail|by intros d [_ [Hd _]]|done]].
  eapply triple_bind_pre; [by apply (rename_in a t data o d0)|by intros d [_ Hd]|].
  intros [u|e]; [|eapply triple_conseq; [by apply swap_fail|done|done]].
  assert (Hkeep : keep_under reserved (λ d, frame (λ q, reserved q ∨ q = a) d0 d ∧
      ∃ x, fs_files d !! a = Some x ∧ f_bytes x = data ∧ owned_as P o x)).
  { intros d d' Hf [H1 (x & Hx & H2)]. split; [intros q Hq; rewrite Hf by tauto; by apply H1|].
    exists x. by rewrite Hf. }
  eapply (triple_call reserved _ _ _ (λ _, True)); [|exact Hkeep|apply triple_any|done|].
  { case_bool_decide; [apply only_pruneBackups|apply (pres_ret _)]. }
  intros v. eapply (triple_call reserved _ _ _ (λ _, True));
    [by apply only_remove_ignore|exact Hkeep|apply triple_any|by intros d [_ Hd]|].
  intros v'. apply triple_ret. intros d [_ [Hd Hx]]. by split_and!.
Qed.

(** The new contents are in place, or the destination is as it was; other files
    are left alone. *)
Definition write_post (a : path) (p data : string) (opts : WriteOptions) (d0 : FS) (r : res WriteResult)
    (d : FS) : Prop :=
  (∀ q, ¬ reserved q → q ≠ a → fs_files d !! q = fs_files d0 !! q) ∧
  match r with
  | Err _ => fs_files d !! a = fs_files d0 !! a
  | Ok wr => wr_Path wr = a ∧ live d a = Some data ∧
      (wr_Idempotent wr = true → fs_files d !! a = fs_files d0 !! a) ∧
      (wr_Idempotent wr = false → ∃ ex o x, (ex = None ∨ ex = fs_files d0 !! a) ∧
         resolveOwnership Atoi user_Lookup user_LookupGroup
           (mkDeployFile p data (wo_Mode opts) (wo_Owner opts) (wo_Group opts))
           (mkDefaults (wo_DefaultMode opts) (wo_DefaultOwner opts) (wo_DefaultGroup opts)) ex = Ok o ∧
         fs_files d !! a = Some x ∧ owned_as P o x)
  end.

Lemma stat_spec a d0 :
  triple (λ d, d = d0) (os_Stat a)
    (λ st d, d = d0 ∧ (match st with Ok x => Some x | Err _ => None end = None ∨
                       match st with Ok x => Some x | Err _ => None end = fs_files d0 !! a)).
Proof.
  apply triple_sys; intros d ->; [|auto]. unfold found. destruct (fs_files d0 !! a) as [y|] eqn:Ey; cbn; auto.
Qed.

Lemma same_bytes_spec a data d0 :
  collision_free Sum256 →
  triple (λ d, d = d0) (r ← os_ReadFile a; mret match r with Ok b => sha256Eq Sum256 b data | Err _ => false end)
    (λ same d, d = d0 ∧ (same = true → live d0 a = Some data)).
Proof.
  intros Hc. eapply (triple_bind _ _ _ (λ r d, d = d0 ∧ ∀ s, r = Ok s → live d0 a = Some s)).
  { apply triple_sys; intros d ->; [|done]. unfold found, live.
    destruct (fs_files d0 !! a) as [x|]; cbn; (split; [done|]); by intros s [= <-]. }
  intros [s|e]; apply triple_ret; intros d [-> Hs]; (split; [done|]); [|done].
  unfold sha256Eq. rewrite andb_true_iff, !bool_decide_eq_true. intros [E1 E2].
  by rewrite (Hs s eq_refl), (Hc _ _ E1 E2).
Qed.

(** [AtomicWriteFile] is all or nothing.  Whatever system calls fail, when it succeeds
    the destination holds exactly the given bytes (with the resolved mode and, for root,
    owner, unless the bytes were already there), and when it reports an error the
    destination is exactly what it was; no other file but certctl's own ever changes. *)
Theorem atomic_write_all_or_nothing ctx_err p data opts a w :
  Abs p = Ok a → ¬ reserved a → collision_free Sum256 →
  let '(r, w') := AtomicWriteFile P Abs Sum256 Atoi user_Lookup user_LookupGroup ctx_err p data opts w in
  write_post a p data opts (w_db w) r (w_db w').
Proof.
  intros EA Hres Hc. set (d0 := w_db w).
  enough (Ht : triple (λ d, d = d0)
      (AtomicWriteFile P Abs Sum256 Atoi user_Lookup user_LookupGroup ctx_err p data opts)
      (write_post a p data opts d0))
    by (specialize (Ht w eq_refl); by destruct (AtomicWriteFile _ _ _ _ _ _ _ _ _ _ w)).
  unfold AtomicWriteFile. case_bool_decide; [apply triple_ret; by intros d ->|]. rewrite EA.
  destruct ctx_err as [e|]; [apply triple_ret; by intros d ->|].
  eapply triple_bind; [apply (stat_spec a)|]. intros st. cbv zeta.
  set (ex := match st with Ok x => Some x | Err _ => None end).
  apply (triple_pure (ex = None ∨ ex = fs_files d0 !! a)); [by intros d [_ Hd]|]. intros Hex.
  eapply (triple_bind _ _ _ (λ same d, d = d0 ∧ (same = true → live d0 a = Some data))).
  { destruct (bool_decide (is_Some ex) && negb (wo_SkipIdempotent opts)); [|apply triple_ret; by intros d [-> _]].
    eapply triple_conseq; [by apply (same_bytes_spec a data d0)|by intros d [-> _]|done]. }
  intros [|]; [apply triple_ret; intros d [-> Hs]; split; [done|]; split_and!; [done|by apply Hs|done|done]|].
  destruct (resolveOwnership Atoi user_Lookup user_LookupGroup _ _ ex) as [o|e] eqn:Eo;
    [|apply triple_ret; by intros d [-> _]].
  eapply triple_conseq; [by apply (swap_in_spec a data o _ _ d0)|by intros d [-> _]|].
  intros [wr|e] d; cbn [swap_post].
  - intros (E1 & E2 & Hf & x & Hx & Hb & Ho). split; [intros q H1 H2; apply Hf; tauto|].
    split_and!; [done|unfold live; rewrite Hx; cbn; by rewrite Hb|congruence|]. intros _. by exists ex, o, x.
  - intros Hf. split; [intros q H1 _; by apply Hf|]. by apply Hf.
Qed.
End atomic.

(** ** Concrete deployments *)
Definition host : proc := mkProc true 0 0 18.
Definition in_etc (s : string) : res path := Ok ("/etc", s).
Definition no_user (s : string) : res string := Err (ErrMsg "unknown user").

(** A reload that fails when the environment says so. *)
Definition reload : M FS (res unit) := sys "reload" (λ d, (Ok tt, d)).

Definition renew (retention : Z) : Plan :=
  mkPlan [mkDeployFile "tls.crt" "new cert" 0 "" ""; mkDeployFile "tls.key" "new key" 384 "" ""]
    (mkDefaults 416 "" "") None (Some reload) retention false.

Definition old_host (faults : list fault) : World FS :=
  mkWorld (mkFS {[ ("/etc", "tls.crt") := mkFile "old cert" 420 0 0; ("/etc", "tls.key") := mkFile "old key" 384 0 0 ]})
    (mkEnv 1000 [] faults 0).

Definition run_renew (retention : Z) (faults : list fault) : outcome * World FS :=
  Apply host in_etc id (λ _, None) no_user no_user None (renew retention) (old_host faults).

Lemma renew_well_behaved retention : well_behaved in_etc (λ _, False) (renew retention).
Proof.
  split; [|done| |done].
  - intros a. unfold dests. cbn. rewrite !elem_of_cons, elem_of_nil. intros Ha.
    destruct Ha as [->|[->|[]]]; apply short_plain; cbn; lia.
  - intros f [= <-]. apply pres_sys; [tc_solve|reflexivity].
Qed.

Lemma id_collision_free : collision_free id.
Proof. by intros a b _ E. Qed.

(** The validation or a system call before the renames fails (here the second chmod). *)
Lemma refused_apply_untouched_witness :
  let '(out, w') := run_renew 3 (replicate 23 FOk ++ [FFail]) in
  out.1 = None ∧ is_Some out.2 ∧
  ∀ q, ¬ reserved q → ¬ False → fs_files (w_db w') !! q = fs_files (w_db (old_host [])) !! q.
Proof.
  pose proof (refused_apply_untouched host in_etc id (λ _, None) no_user no_user (λ _, False) None (renew 3)
    (old_host (replicate 23 FOk ++ [FFail])) (renew_well_behaved 3)) as H.
  change (Apply _ _ _ _ _ _ _ _ _) with (run_renew 3 (replicate 23 FOk ++ [FFail])) in H.
  destruct (run_renew 3 (replicate 23 FOk ++ [FFail])) as [out w'] eqn:E.
  assert (Eo : out.1 = None)
    by (change out with (fst (out, w')); rewrite <- E; vm_compute; reflexivity).
  split; [exact Eo|]. apply H. left. exact Eo.
Defined.



Lemma atomic_write_all_or_nothing_witness :
  let opts := mkWriteOptions 0 416 "" "" "" "" false 0 in
  let '(r, w') := AtomicWriteFile host in_etc id (λ _, None) no_user no_user None "tls.crt" "new cert" opts
                    (old_host []) in
  write_post host (λ _, None) no_user no_user ("/etc", "tls.crt") "tls.crt" "new cert" opts
    (w_db (old_host [])) r (w_db w').
Proof.
  intros opts. apply atomic_write_all_or_nothing; [reflexivity| |exact id_collision_free].
  apply short_plain. cbn. lia.
Defined.

(** With backups disabled, a failed reload is reported as rolled back while the
    live certificate and key have been deleted. *)
Example no_backup_rollback_deletes :
  let '(out, w') := run_renew (-1) (replicate 17 FOk ++ [FFail]) in
  out = (Some (mkResult false ∅ true false true), Some (ErrWrapPre ErrReloadFailed "reload")) ∧
  live (w_db w') ("/etc", "tls.crt") = None ∧ live (w_db w') ("/etc", "tls.key") = None.
Proof. vm_compute. done. Qed.
