(* ===== verification/GoBytes.v ===== *)
(** * Go's byte strings and the encodings the authentication code uses

    A Go [string] and a [[]byte] are both sequences of bytes; both are [string]
    here, so that the conversions between them are the identity.  The file models
    the part of the standard library that the session, API-key and key-encryption
    code calls: [strings.Split], [strings.HasPrefix], [strings.TrimSpace] compared
    with the empty string, [strconv.Itoa] on lengths, [hex.EncodeToString],
    [base64.RawURLEncoding], SHA-256 (FIPS 180-4) and HMAC (RFC 2104).  Everything
    is executable; the test vectors of the standards are evaluated at the end. *)

From Stdlib Require Import ZArith Lia Ascii String.
From stdpp Require Import prelude strings list pretty.
From S2P Require Import Prelude.

Local Open Scope Z_scope.

(** ** Bytes *)
Definition byte_val (c : ascii) : Z := Z.of_N (N_of_ascii c).
Definition byte_chr (z : Z) : ascii := ascii_of_N (Z.to_N z).
Definition bytes_of (s : string) : list Z := byte_val <$> list_ascii_of_string s.
Definition of_bytes (l : list Z) : string := string_of_list_ascii (byte_chr <$> l).
Definition len (s : string) : nat := String.length s.

Lemma byte_val_range c : 0 ≤ byte_val c < 256.
Proof. unfold byte_val. pose proof (N_ascii_bounded c). lia. Qed.

Lemma byte_chr_val c : byte_chr (byte_val c) = c.
Proof. unfold byte_chr, byte_val. by rewrite N2Z.id, ascii_N_embedding. Qed.

Lemma byte_val_chr z : 0 ≤ z < 256 → byte_val (byte_chr z) = z.
Proof. intros H. unfold byte_chr, byte_val. rewrite N_ascii_embedding; lia. Qed.

Lemma of_bytes_of s : of_bytes (bytes_of s) = s.
Proof.
  unfold of_bytes, bytes_of. rewrite <-list_fmap_compose.
  rewrite (list_fmap_ext _ id _ (λ _ c _, byte_chr_val c)), list_fmap_id.
  apply string_of_list_ascii_of_string.
Qed.

Lemma bytes_of_bytes l : Forall (λ z, 0 ≤ z < 256) l → bytes_of (of_bytes l) = l.
Proof.
  intros H. unfold of_bytes, bytes_of. rewrite list_ascii_of_string_of_list_ascii.
  induction H as [|z l Hz _ IH]; [done|]. cbn. by rewrite byte_val_chr, IH.
Qed.

Lemma len_of_bytes l : len (of_bytes l) = length l.
Proof. unfold of_bytes, len. induction l as [|z l IH]; cbn; [done|]. by rewrite IH. Qed.

Lemma length_bytes_of s : length (bytes_of s) = len s.
Proof. by rewrite <-len_of_bytes, of_bytes_of. Qed.

Lemma bytes_of_range s : Forall (λ z, 0 ≤ z < 256) (bytes_of s).
Proof. unfold bytes_of. apply Forall_fmap, Forall_true. intros c. apply byte_val_range. Qed.

Lemma len_app s t : len (s +:+ t) = (len s + len t)%nat.
Proof. apply string_app_length. Qed.

Lemma app_inv_len (s s' t t' : string) :
  len s = len s' → (s +:+ t = s' +:+ t')%string → s = s' ∧ t = t'.
Proof.
  unfold len. revert s'. induction s as [|c s IH]; intros [|c' s'] Hl; try done.
  rewrite !string_cons_app. intros [= -> H]. destruct (IH s') as [-> ->]; auto.
Qed.

(** ** Characters of a string *)
Fixpoint all_chars (p : ascii → bool) (s : string) : bool :=
  match s with
  | EmptyString => true
  | String c s' => p c && all_chars p s'
  end.

Lemma all_chars_app p s t : all_chars p (s +:+ t) = all_chars p s && all_chars p t.
Proof.
  induction s as [|c s IH]; [done|]. rewrite string_cons_app. cbn. by rewrite IH, andb_assoc.
Qed.

Lemma all_chars_impl p q s :
  (∀ c, p c = true → q c = true) → all_chars p s = true → all_chars q s = true.
Proof.
  intros H. induction s as [|c s IH]; cbn; [done|].
  rewrite !andb_true_iff. intros [Hc Hs]. auto.
Qed.

Definition not_char (d c : ascii) : bool := negb (Ascii.eqb c d).

(** The first occurrence of a separator determines the parts around it. *)
Lemma sep_inj d (s s' t t' : string) :
  all_chars (not_char d) s = true → all_chars (not_char d) s' = true →
  (s +:+ String d t = s' +:+ String d t')%string → s = s' ∧ t = t'.
Proof.
  revert s'. induction s as [|c s IH]; intros [|c' s'] H H' E;
    rewrite ?string_cons_app in E; cbn in *.
  - by injection E.
  - injection E as <- _. unfold not_char in H'. by rewrite Ascii.eqb_refl in H'.
  - injection E as -> _. unfold not_char in H. by rewrite Ascii.eqb_refl in H.
  - apply andb_true_iff in H as [_ H]. apply andb_true_iff in H' as [_ H'].
    injection E as -> E. by destruct (IH s' H H' E) as [-> ->].
Qed.

(** ** strings *)

(** [strings.HasPrefix(s, p)]. *)
Definition HasPrefix (s p : string) : bool := String.prefix p s.

Lemma HasPrefix_app p s : HasPrefix (p +:+ s) p = true.
Proof.
  unfold HasPrefix. induction p as [|c p IH]; [by destruct s|].
  rewrite string_cons_app. cbn. by destruct (ascii_dec c c).
Qed.

(** [strings.Split(s, sep)] for a one-byte separator. *)
Fixpoint Split (sep : ascii) (s : string) : list string :=
  match s with
  | EmptyString => [""]
  | String c s' =>
      if Ascii.eqb c sep then "" :: Split sep s'
      else match Split sep s' with
           | [] => [String c ""]
           | w :: ws => String c w :: ws
           end
  end.

Lemma Split_last sep s : all_chars (not_char sep) s = true → Split sep s = [s].
Proof.
  induction s as [|c s IH]; cbn; [done|]. unfold not_char at 1.
  destruct (Ascii.eqb c sep); [done|]. cbn. intros H. by rewrite IH.
Qed.

Lemma Split_app sep s t :
  all_chars (not_char sep) s = true → Split sep (s +:+ String sep t) = s :: Split sep t.
Proof.
  induction s as [|c s IH]; intros H.
  - change ("" +:+ String sep t) with (String sep t). cbn. by rewrite Ascii.eqb_refl.
  - rewrite string_cons_app. cbn in *. unfold not_char in H at 1.
    destruct (Ascii.eqb c sep); [done|]. cbn in H. by rewrite IH.
Qed.

(** The UTF-8 encodings of the runes [unicode.IsSpace] accepts. *)
Definition space_encodings : list (list Z) :=
  [[9]; [10]; [11]; [12]; [13]; [32]; [194; 133]; [194; 160]; [225; 154; 128];
   [226; 128; 128]; [226; 128; 129]; [226; 128; 130]; [226; 128; 131]; [226; 128; 132];
   [226; 128; 133]; [226; 128; 134]; [226; 128; 135]; [226; 128; 136]; [226; 128; 137];
   [226; 128; 138]; [226; 128; 168]; [226; 128; 169]; [226; 128; 175]; [226; 129; 159];
   [227; 128; 128]].

Fixpoint strip_prefix (p l : list Z) : option (list Z) :=
  match p, l with
  | [], _ => Some l
  | x :: p', y :: l' => if x =? y then strip_prefix p' l' else None
  | _, [] => None
  end.

(** Remove leading white space; [fuel] is the number of bytes. *)
Fixpoint trim_left (fuel : nat) (l : list Z) : list Z :=
  match fuel with
  | O => l
  | S f =>
      match list_find is_Some (flip strip_prefix l <$> space_encodings) with
      | Some (_, Some l') => trim_left f l'
      | _ => l
      end
  end.

(** [strings.TrimSpace(s) == ""]. *)
Definition is_blank (s : string) : bool :=
  bool_decide (trim_left (len s) (bytes_of s) = []).

(** [strconv.Itoa(len(s))]. *)
Definition Itoa_len (s : string) : string := pretty (N.of_nat (len s)).

Definition is_digit (c : ascii) : bool := (48 <=? byte_val c) && (byte_val c <=? 57).

Lemma pretty_N_char_digit n : (n < 10)%N → is_digit (pretty_N_char n) = true.
Proof.
  intros H. assert (n ∈ [0;1;2;3;4;5;6;7;8;9]%N) as Hn by
    (rewrite !elem_of_cons; lia).
  rewrite !elem_of_cons in Hn. by destruct_or! Hn; subst; try set_solver.
Qed.

Lemma pretty_N_go_digits n s :
  all_chars is_digit s = true → all_chars is_digit (pretty_N_go n s) = true.
Proof.
  revert s. induction (N.lt_wf_0 n) as [n _ IH]. intros s Hs.
  destruct (decide (n = 0%N)) as [-> | Hn]; [by rewrite pretty_N_go_0|].
  rewrite pretty_N_go_step by lia. apply IH.
  - by apply N.div_lt; lia.
  - cbn. rewrite Hs, pretty_N_char_digit; [done|]. apply N.mod_lt. lia.
Qed.

Lemma Itoa_len_digits s : all_chars is_digit (Itoa_len s) = true.
Proof.
  unfold Itoa_len, pretty, pretty_N. case_decide; [done|]. by apply pretty_N_go_digits.
Qed.

Lemma Itoa_len_inj s t : Itoa_len s = Itoa_len t → len s = len t.
Proof. unfold Itoa_len. intros H%(inj pretty). lia. Qed.

(** ** encoding/hex *)
Definition hex_digit (z : Z) : ascii :=
  default "0"%char (String.get (Z.to_nat z) "0123456789abcdef").

(** [hex.EncodeToString]. *)
Definition hex_EncodeToString (s : string) : string :=
  string_of_list_ascii
    (concat ((λ b, [hex_digit (b / 16); hex_digit (b mod 16)]) <$> bytes_of s)).

(** [isHex] of session/domain/types.go, and what [hex.EncodeToString] emits. *)
Definition hex_char (c : ascii) : bool :=
  let v := byte_val c in ((48 <=? v) && (v <=? 57)) || ((97 <=? v) && (v <=? 102)).

Arguments hex_digit : simpl never.
Arguments hex_char : simpl never.

Lemma hex_digit_char z : hex_char (hex_digit z) = true.
Proof.
  unfold hex_digit. destruct (Z.to_nat z) as [|n]; [done|].
  do 15 (destruct n as [|n]; [done|]). done.
Qed.

Lemma all_chars_list p l : all_chars p (string_of_list_ascii l) = forallb p l.
Proof. induction l as [|c l IH]; cbn; [done|]. by rewrite IH. Qed.

Lemma len_string_of_list l : len (string_of_list_ascii l) = length l.
Proof. unfold len. induction l as [|c l IH]; cbn; [done|]. by rewrite IH. Qed.

Lemma hex_EncodeToString_len s : len (hex_EncodeToString s) = (2 * len s)%nat.
Proof.
  unfold hex_EncodeToString. rewrite len_string_of_list, <-length_bytes_of.
  induction (bytes_of s) as [|b l IH]; cbn in *; lia.
Qed.

Lemma hex_EncodeToString_hex s : all_chars hex_char (hex_EncodeToString s) = true.
Proof.
  unfold hex_EncodeToString. rewrite all_chars_list.
  induction (bytes_of s) as [|b l IH]; [done|]. cbn. by rewrite !hex_digit_char.
Qed.

(** ** encoding/base64, without padding *)
Definition url_alphabet : string :=
  "ABCDEFGHIJKLMNOPQRSTUVWXYZabcdefghijklmnopqrstuvwxyz0123456789-_".
Definition std_alphabet : string :=
  "ABCDEFGHIJKLMNOPQRSTUVWXYZabcdefghijklmnopqrstuvwxyz0123456789+/".

Definition enc64 (alphabet : string) (z : Z) : ascii :=
  default "A"%char (String.get (Z.to_nat z) alphabet).
Definition dec64 (alphabet : string) (c : ascii) : option Z :=
  z ← String.index 0 (String c "") alphabet; Some (Z.of_nat z).
Arguments enc64 : simpl never.
Arguments dec64 : simpl never.

(** Three bytes become four sextets; one or two left over become two or three. *)
Fixpoint b64_sextets (l : list Z) : list Z :=
  match l with
  | a :: b :: c :: l' =>
      let v := a * 65536 + b * 256 + c in
      v / 262144 :: (v / 4096) mod 64 :: (v / 64) mod 64 :: v mod 64 :: b64_sextets l'
  | [a; b] =>
      let v := a * 65536 + b * 256 in [v / 262144; (v / 4096) mod 64; (v / 64) mod 64]
  | [a] => let v := a * 65536 in [v / 262144; (v / 4096) mod 64]
  | [] => []
  end.

(** The decoder is not strict: unused low bits of the last sextet are dropped. *)
Fixpoint b64_unsextets (l : list Z) : option (list Z) :=
  match l with
  | s0 :: s1 :: s2 :: s3 :: l' =>
      let v := s0 * 262144 + s1 * 4096 + s2 * 64 + s3 in
      r ← b64_unsextets l'; Some (v / 65536 :: (v / 256) mod 256 :: v mod 256 :: r)
  | [s0; s1; s2] =>
      let v := s0 * 262144 + s1 * 4096 + s2 * 64 in Some [v / 65536; (v / 256) mod 256]
  | [s0; s1] => let v := s0 * 262144 + s1 * 4096 in Some [v / 65536]
  | [_] => None
  | [] => Some []
  end.

(** [DecodeString] skips carriage returns and newlines. *)
Definition is_newline (c : ascii) : bool := (byte_val c =? 10) || (byte_val c =? 13).

Definition encode64 (alphabet s : string) : string :=
  string_of_list_ascii (enc64 alphabet <$> b64_sextets (bytes_of s)).

Definition decode64 (alphabet s : string) : option string :=
  sextets ← mapM (dec64 alphabet) (filter (λ c, is_newline c = false) (list_ascii_of_string s));
  of_bytes <$> b64_unsextets sextets.

(** [base64.RawURLEncoding] and [base64.RawStdEncoding]. *)
Definition b64_EncodeToString : string → string := encode64 url_alphabet.
Definition b64_DecodeString : string → option string := decode64 url_alphabet.
Definition std_EncodeToString : string → string := encode64 std_alphabet.
Definition std_DecodeString : string → option string := decode64 std_alphabet.

Definition char64 (alphabet : string) (c : ascii) : bool :=
  bool_decide (is_Some (dec64 alphabet c)) && negb (is_newline c).
Definition b64_char : ascii → bool := char64 url_alphabet.

(** An alphabet gives 64 different characters, none of them a newline. *)
Class Alphabet64 (alphabet : string) : Prop :=
  alphabet64 : Forall (λ z, dec64 alphabet (enc64 alphabet z) = Some z ∧
                            is_newline (enc64 alphabet z) = false) (seqZ 0 64).
#[global] Instance url_alphabet64 : Alphabet64 url_alphabet.
Proof. unfold Alphabet64. apply (bool_decide_unpack _). vm_compute. exact I. Qed.
#[global] Instance std_alphabet64 : Alphabet64 std_alphabet.
Proof. unfold Alphabet64. apply (bool_decide_unpack _). vm_compute. exact I. Qed.

(** Induction three elements at a time. *)
Lemma list_ind3 {A} (P : list A → Prop) :
  P [] → (∀ a, P [a]) → (∀ a b, P [a; b]) → (∀ a b c l, P l → P (a :: b :: c :: l)) → ∀ l, P l.
Proof.
  intros H0 H1 H2 H3. fix IH 1. intros [|a [|b [|c l]]]; [done|apply H1|apply H2|].
  apply H3, IH.
Qed.

Lemma b64_sextets_range l :
  Forall (λ z, 0 ≤ z < 256) l → Forall (λ z, 0 ≤ z < 64) (b64_sextets l).
Proof.
  induction l as [|a|a b|a b c l IH] using list_ind3; cbn; intros H; decompose_Forall_hyps;
    repeat constructor; auto; try apply Z.mod_pos_bound; try lia;
    try apply Z.div_pos; try apply Z.div_lt_upper_bound; lia.
Qed.

Lemma b64_unsextets_sextets l :
  Forall (λ z, 0 ≤ z < 256) l → b64_unsextets (b64_sextets l) = Some l.
Proof.
  induction l as [|a|a b|a b c l IH] using list_ind3; cbn; intros H; decompose_Forall_hyps;
    rewrite ?IH by done; cbn; repeat f_equal; Z.to_euclidean_division_equations; lia.
Qed.

Section alphabet.
Context (alphabet : string) `{!Alphabet64 alphabet}.

Lemma enc64_facts z :
  0 ≤ z < 64 → dec64 alphabet (enc64 alphabet z) = Some z ∧ is_newline (enc64 alphabet z) = false.
Proof.
  intros Hz. pose proof alphabet64 as H. rewrite Forall_forall in H. apply H.
  rewrite elem_of_seqZ. lia.
Qed.

Lemma encode64_sextets s :
  mapM (dec64 alphabet) (filter (λ c, is_newline c = false)
    (list_ascii_of_string (encode64 alphabet s))) = Some (b64_sextets (bytes_of s)).
Proof.
  unfold encode64. rewrite list_ascii_of_string_of_list_ascii.
  pose proof (b64_sextets_range _ (bytes_of_range s)) as H.
  induction H as [|z l Hz _ IH]; [done|]. destruct (enc64_facts z Hz) as [H1 H2].
  rewrite fmap_cons, filter_cons_True by done. cbn. by rewrite H1, IH.
Qed.

(** Decoding undoes encoding. *)
Lemma decode64_encode64 s : decode64 alphabet (encode64 alphabet s) = Some s.
Proof.
  unfold decode64. rewrite encode64_sextets. cbn.
  by rewrite (b64_unsextets_sextets _ (bytes_of_range s)); cbn; rewrite of_bytes_of.
Qed.

Lemma encode64_chars s : all_chars (char64 alphabet) (encode64 alphabet s) = true.
Proof.
  unfold encode64. rewrite all_chars_list.
  pose proof (b64_sextets_range _ (bytes_of_range s)) as H.
  induction H as [|z l Hz _ IH]; [done|]. destruct (enc64_facts z Hz) as [H1 H2].
  cbn. rewrite IH. unfold char64. by rewrite H1, H2.
Qed.
End alphabet.

Lemma b64_roundtrip s : b64_DecodeString (b64_EncodeToString s) = Some s.
Proof. apply decode64_encode64, _. Qed.

Lemma b64_EncodeToString_inj s t : b64_EncodeToString s = b64_EncodeToString t → s = t.
Proof. intros H. apply (inj Some). by rewrite <-!b64_roundtrip, H. Qed.

Lemma b64_EncodeToString_chars s : all_chars b64_char (b64_EncodeToString s) = true.
Proof. apply encode64_chars, _. Qed.

Lemma b64_char_not_dot c : b64_char c = true → not_char "." c = true.
Proof.
  unfold not_char. destruct (Ascii.eqb_spec c ".") as [-> | H]; [|done].
  intros [=].
Qed.

(** Standard base64 does not meet the separator of an encoded hash. *)
Lemma std_EncodeToString_no_dollar s : all_chars (not_char "$") (std_EncodeToString s) = true.
Proof.
  eapply all_chars_impl; [|exact (encode64_chars std_alphabet s)]. intros c.
  unfold not_char. destruct (Ascii.eqb_spec c "$") as [-> | H]; [|done]. intros [=].
Qed.

Lemma b64_sextets_length l : (length (b64_sextets l) ≤ 2 * length l)%nat.
Proof.
  induction l as [|a|a b|a b c l IH] using list_ind3; cbn; lia.
Qed.

Lemma b64_EncodeToString_len s : (len (b64_EncodeToString s) ≤ 2 * len s)%nat.
Proof.
  unfold b64_EncodeToString, encode64. rewrite len_string_of_list, length_fmap, <-length_bytes_of.
  apply b64_sextets_length.
Qed.

(** ** crypto/sha256 and crypto/hmac *)
Module Sha256.
Definition w32 (z : Z) : Z := z mod 2 ^ 32.
Definition rotr (n x : Z) : Z := w32 (Z.lor (Z.shiftr x n) (Z.shiftl x (32 - n))).
Definition Ch (x y z : Z) : Z := Z.lxor (Z.land x y) (Z.land (Z.lxor x (2 ^ 32 - 1)) z).
Definition Maj (x y z : Z) : Z := Z.lxor (Z.lxor (Z.land x y) (Z.land x z)) (Z.land y z).
Definition Sigma0 (x : Z) : Z := Z.lxor (Z.lxor (rotr 2 x) (rotr 13 x)) (rotr 22 x).
Definition Sigma1 (x : Z) : Z := Z.lxor (Z.lxor (rotr 6 x) (rotr 11 x)) (rotr 25 x).
Definition sigma0 (x : Z) : Z := Z.lxor (Z.lxor (rotr 7 x) (rotr 18 x)) (Z.shiftr x 3).
Definition sigma1 (x : Z) : Z := Z.lxor (Z.lxor (rotr 17 x) (rotr 19 x)) (Z.shiftr x 10).

(** The constants of FIPS 180-4: the first 32 bits of the fractional parts of the cube
    roots of the first 64 primes. *)
Definition is_prime (n : Z) : bool :=
  (2 <=? n) && forallb (λ d, negb (n mod d =? 0)) (seqZ 2 (Z.sqrt n - 1)).
Definition primes : list Z := Eval vm_compute in filter (λ n, is_prime n = true) (seqZ 0 312).

(** The integer cube root below [2 ^ k], bit by bit from the top. *)
Fixpoint cbrt (k : nat) (acc n : Z) : Z :=
  match k with
  | O => acc
  | S k' => let acc' := acc + 2 ^ Z.of_nat k' in cbrt k' (if acc' ^ 3 <=? n then acc' else acc) n
  end.

Definition K : list Z := Eval vm_compute in (λ p, cbrt 36 0 (p * 2 ^ 96) mod 2 ^ 32) <$> primes.

Definition State : Type := Z * Z * Z * Z * Z * Z * Z * Z.

(** Likewise of the square roots of the first eight. *)
Definition H0 : State := Eval vm_compute in
  let h i := Z.sqrt (nth i primes 0 * 2 ^ 64) mod 2 ^ 32 in
  (h 0, h 1, h 2, h 3, h 4, h 5, h 6, h 7)%nat.

(** Extend the sixteen words of a block, kept in reverse order, by [n] words. *)
Fixpoint expand (n : nat) (ws : list Z) : list Z :=
  match n with
  | O => ws
  | S n' =>
      let at_ i := nth i ws 0 in
      expand n' (w32 (sigma1 (at_ 1%nat) + at_ 6%nat + sigma0 (at_ 14%nat) + at_ 15%nat) :: ws)
  end.

Definition round (st : State) (kw : Z * Z) : State :=
  let '(a, b, c, d, e, f, g, h) := st in
  let t1 := h + Sigma1 e + Ch e f g + kw.1 + kw.2 in
  let t2 := Sigma0 a + Maj a b c in
  (w32 (t1 + t2), a, b, c, w32 (d + t1), e, f, g).

Definition compress (st : State) (block : list Z) : State :=
  let '(a, b, c, d, e, f, g, h) := st in
  let '(a', b', c', d', e', f', g', h') :=
    fold_left round (zip K (rev (expand 48 (rev block)))) st in
  (w32 (a + a'), w32 (b + b'), w32 (c + c'), w32 (d + d'),
   w32 (e + e'), w32 (f + f'), w32 (g + g'), w32 (h + h')).

Definition be32 (w : Z) : list Z := [w / 2 ^ 24; (w / 2 ^ 16) mod 256; (w / 2 ^ 8) mod 256; w mod 256].

Fixpoint words (l : list Z) : list Z :=
  match l with
  | a :: b :: c :: d :: l' => (a * 2 ^ 24 + b * 2 ^ 16 + c * 2 ^ 8 + d) :: words l'
  | _ => []
  end.

(** The message, the bit 1, zeros, and the length in bits on eight bytes. *)
Definition pad (l : list Z) : list Z :=
  let n := Z.of_nat (length l) in
  l ++ [128] ++ replicate (Z.to_nat ((55 - n) mod 64)) 0
    ++ be32 ((n * 8) / 2 ^ 32) ++ be32 ((n * 8) mod 2 ^ 32).

Fixpoint blocks (fuel : nat) (st : State) (ws : list Z) : State :=
  match fuel, ws with
  | S f, _ :: _ => blocks f (compress st (take 16 ws)) (drop 16 ws)
  | _, _ => st
  end.

Definition digest (l : list Z) : list Z :=
  let ws := words (pad l) in
  let '(a, b, c, d, e, f, g, h) := blocks (length ws) H0 ws in
  be32 a ++ be32 b ++ be32 c ++ be32 d ++ be32 e ++ be32 f ++ be32 g ++ be32 h.

Lemma digest_length l : length (digest l) = 32%nat.
Proof.
  unfold digest. by destruct (blocks _ _ _) as [[[[[[[a b] c] d] e] f] g] h].
Qed.
End Sha256.

Definition sha256_Size : nat := 32.

(** [sha256.Sum256]. *)
Definition Sum256 (s : string) : string := of_bytes (Sha256.digest (bytes_of s)).

Lemma Sum256_len s : len (Sum256 s) = sha256_Size.
Proof. unfold Sum256. by rewrite len_of_bytes, Sha256.digest_length. Qed.

(** [hmac.New(sha256.New, key)], the message written to it, [mac.Sum(nil)]. *)
Definition hmac_sha256 (key msg : string) : string :=
  let k := bytes_of (if (64 <? len key)%nat then Sum256 key else key) in
  let k := k ++ replicate (64 - length k) 0 in
  Sum256 (of_bytes (Z.lxor 92 <$> k) +:+ Sum256 (of_bytes (Z.lxor 54 <$> k) +:+ msg)).

Lemma hmac_sha256_len key msg : len (hmac_sha256 key msg) = sha256_Size.
Proof. apply Sum256_len. Qed.

#[global] Opaque Sum256 hmac_sha256.

(** FIPS 180-4: the digest of "abc", and of the empty message. *)
Example sha256_abc :
  hex_EncodeToString (Sum256 "abc")
  = "ba7816bf8f01cfea414140de5dae2223b00361a396177a9cb410ff61f20015ad".
Proof. vm_compute. reflexivity. Qed.

Example sha256_two_blocks :
  hex_EncodeToString (Sum256 "abcdbcdecdefdefgefghfghighijhijkijkljklmklmnlmnomnopnopq")
  = "248d6a61d20638b8e5c026930c3e6039a33ce45964ff2167f6ecedd419db06c1".
Proof. vm_compute. reflexivity. Qed.

(** RFC 4231, test case 2. *)
Example hmac_rfc4231 :
  hex_EncodeToString (hmac_sha256 "Jefe" "what do ya want for nothing?")
  = "5bdcc146bf60754e6a042426089575c75a003f089d2739839dec58b964ec3843".
Proof. vm_compute. reflexivity. Qed.

(** RFC 4648 test vectors, without padding. *)
Example base64_vectors :
  b64_EncodeToString <$> ["f"; "fo"; "foo"; "foob"; "fooba"; "foobar"]
  = ["Zg"; "Zm8"; "Zm9v"; "Zm9vYg"; "Zm9vYmE"; "Zm9vYmFy"].
Proof. vm_compute. reflexivity. Qed.
