(* ===== verification/KeyCrypto.v ===== *)
(** * Encryption of stored secrets (src/internal/crypto/encryption.go)

    The blob formats v3, v2 and v1, the write path that only emits v3 and the read
    path that dispatches on the first byte and falls back on an authentication
    failure.  PBKDF2 (golang.org/x/crypto), AES-GCM and the random source are
    parameters; the laws used of them are the length of their outputs and that
    opening undoes sealing. *)

From Stdlib Require Import ZArith Lia Ascii String.
From stdpp Require Import prelude strings list pretty.
From S2P Require Import Prelude GoBytes.

(** [s[:n]] and [s[n:]]. *)
Definition str_take (n : nat) (s : string) : string := String.substring 0 n s.
Fixpoint str_drop (n : nat) (s : string) : string :=
  match n, s with
  | S n', String _ s' => str_drop n' s'
  | _, _ => s
  end.

Lemma substring_all s t : String.substring 0 (len s) (s +:+ t) = s.
Proof.
  unfold len. induction s as [|c s IH]; [by destruct t|]. rewrite string_cons_app. cbn. by f_equal.
Qed.

Lemma str_take_app n s t : len s = n → str_take n (s +:+ t) = s.
Proof. intros <-. apply substring_all. Qed.

Lemma str_drop_app n s t : len s = n → str_drop n (s +:+ t) = t.
Proof.
  intros <-. unfold len. induction s as [|c s IH]; [done|]. rewrite string_cons_app. exact IH.
Qed.

(** ** The random source

    [entropy k n] is what the [k]-th draw of [n] bytes returns; [None] is a failed
    read.  The environment's counter numbers the draws. *)
Class Entropy := entropy : N → nat → option string.

Class EntropyOk (E : Entropy) : Prop := entropy_len k n s : entropy k n = Some s → len s = n.

(** [rand.Read(b)] and [io.ReadFull(rand.Reader, b)] for a buffer of [n] bytes. *)
Definition readRand `{Entropy} {D} (n : nat) : M D (res string) :=
  k ← fresh;
  mret match entropy k n with Some s => Ok s | None => Err (ErrMsg "rand: read failed") end.

Lemma wpres_readRand `{Entropy} {D} (R : relation (World D)) `{!PreOrder R} `{!Steady R} n :
  wpres R (readRand n).
Proof. unfold readRand. repeat wstep. Qed.
#[export] Hint Resolve wpres_readRand : certctl.


(** ** The ciphers *)
Class Ciphers := mkCiphers {
  pbkdf2_Key : string → string → Z → nat → string;      (* password, salt, rounds, length *)
  gcm_Seal : string → string → string → string;         (* key, nonce, plaintext *)
  gcm_Open : string → string → string → option string   (* key, nonce, sealed *)
}.

Class CiphersOk (C : Ciphers) : Prop := {
  pbkdf2_len p s r n : len (pbkdf2_Key p s r n) = n;
  gcm_open_seal k n p : gcm_Open k n (gcm_Seal k n p) = Some p
}.

Definition v2Magic : ascii := byte_chr 2.
Definition v3Magic : ascii := byte_chr 3.
Definition v2SaltSize : nat := 16.
Definition v3SaltSize : nat := 16.
Definition pbkdf2IterationsV1V2 : Z := 100000.
Definition pbkdf2IterationsV3 : Z := 600000.
Definition aes256KeySize : nat := 32.
Definition gcm_NonceSize : nat := 12.
Definition legacyV1Salt : string := "certctl-config-encryption-v1".

Definition ErrEncryptionKeyRequired : error := ErrSentinel
  "crypto: CERTCTL_CONFIG_ENCRYPTION_KEY is required to encrypt or decrypt sensitive config".

Section crypto.
Context `{E : Entropy, C : Ciphers} {D : Type}.

Definition key_size_error (key : string) : error :=
  ErrMsg ("encryption key must be exactly 32 bytes, got " +:+ Itoa_len key).

(** [aes.NewCipher] and [cipher.NewGCM] accept every 32-byte key. *)
Definition Encrypt (plaintext key : string) : M D (res string) :=
  if negb (len key =? aes256KeySize)%nat then mret (Err (key_size_error key)) else
  r ← readRand gcm_NonceSize;
  mret match r with
       | Err e => Err (ErrWrap "failed to generate nonce" e)
       | Ok nonce => Ok (nonce +:+ gcm_Seal key nonce plaintext)
       end.

Definition Decrypt (ciphertext key : string) : res string :=
  if negb (len key =? aes256KeySize)%nat then Err (key_size_error key) else
  if (len ciphertext <? gcm_NonceSize)%nat
  then Err (ErrMsg ("ciphertext too short: " +:+ Itoa_len ciphertext +:+ " bytes")) else
  match gcm_Open key (str_take gcm_NonceSize ciphertext) (str_drop gcm_NonceSize ciphertext) with
  | None => Err (ErrWrap "failed to decrypt" (ErrMsg "cipher: message authentication failed"))
  | Some plaintext => Ok plaintext
  end.

Definition deriveKeyWithSalt (passphrase salt : string) : string :=
  pbkdf2_Key passphrase salt pbkdf2IterationsV1V2 aes256KeySize.
Definition deriveKeyWithSaltV3 (passphrase salt : string) : string :=
  pbkdf2_Key passphrase salt pbkdf2IterationsV3 aes256KeySize.
Definition DeriveKey (passphrase : string) : string := deriveKeyWithSalt passphrase legacyV1Salt.

Definition starts_with (c : ascii) (blob : string) : bool :=
  match blob with String d _ => Ascii.eqb d c | EmptyString => false end.

Definition IsLegacyFormat (blob : string) : bool :=
  match blob with
  | EmptyString => false
  | String first _ => negb (Ascii.eqb first v2Magic) && negb (Ascii.eqb first v3Magic)
  end.

Definition EncryptIfKeySet (plaintext passphrase : string) : M D (res (string * bool)) :=
  if bool_decide (passphrase = "") then mret (Err ErrEncryptionKeyRequired) else
  r ← readRand v3SaltSize;
  match r with
  | Err e => mret (Err (ErrWrap "failed to generate v3 salt" e))
  | Ok salt =>
      let key := deriveKeyWithSaltV3 passphrase salt in
      r ← Encrypt plaintext key;
      mret match r with
           | Err e => Err e
           | Ok inner => Ok (String v3Magic (salt +:+ inner), true)
           end
  end.

(** One attempt of the read path: the blob carries a version's magic byte and is
    long enough for its header. *)
Definition versioned_attempt (magic : ascii) (saltSize : nat) (derive : string → string → string)
    (blob passphrase : string) : option string :=
  if starts_with magic blob && (1 + saltSize + 12 <=? len blob)%nat then
    let salt := str_take saltSize (str_drop 1 blob) in
    let sealed := str_drop (1 + saltSize) blob in
    match Decrypt sealed (derive passphrase salt) with Ok p => Some p | Err _ => None end
  else None.

Definition DecryptIfKeySet (blob passphrase : string) : res string :=
  if bool_decide (passphrase = "") then Err ErrEncryptionKeyRequired else
  if bool_decide (blob = "") then Err (ErrMsg "ciphertext is empty") else
  match versioned_attempt v3Magic v3SaltSize deriveKeyWithSaltV3 blob passphrase with
  | Some plaintext => Ok plaintext
  | None =>
      match versioned_attempt v2Magic v2SaltSize deriveKeyWithSalt blob passphrase with
      | Some plaintext => Ok plaintext
      | None => Decrypt blob (DeriveKey passphrase)
      end
  end.
End crypto.

(** ** Correctness *)
Section facts.
Context `{EO : EntropyOk, CO : CiphersOk} {D : Type}.

Lemma readRand_ok n (w : World D) s w' : readRand n w = (Ok s, w') → len s = n.
Proof.
  unfold readRand. mrun. destruct (entropy _ n) eqn:Ee; intros [= <- _]. by eapply entropy_len.
Qed.

Lemma Decrypt_sealed key nonce p :
  len key = aes256KeySize → len nonce = gcm_NonceSize →
  Decrypt (nonce +:+ gcm_Seal key nonce p) key = Ok p.
Proof.
  intros Hk Hn. unfold Decrypt. rewrite Hk, len_app, Hn, Nat.eqb_refl. cbn [negb].
  rewrite (proj2 (Nat.ltb_ge _ _)) by lia.
  rewrite str_take_app, str_drop_app, gcm_open_seal by done. done.
Qed.

Lemma Encrypt_ok plaintext key (w : World D) inner w' :
  Encrypt plaintext key w = (Ok inner, w') →
  len key = aes256KeySize ∧ (gcm_NonceSize ≤ len inner)%nat ∧ Decrypt inner key = Ok plaintext.
Proof.
  unfold Encrypt. destruct (Nat.eqb_spec (len key) aes256KeySize) as [Hk|]; cbn [negb];
    [|by intros [=]].
  unfold mbind, M_bind. destruct (readRand _ w) as [[nonce|] w1] eqn:Er; intros [= <- _].
  apply readRand_ok in Er. split_and!; [done| |by apply Decrypt_sealed].
  rewrite len_app. lia.
Qed.

Lemma versioned_attempt_sealed magic saltSize derive salt inner passphrase p :
  len salt = saltSize → (gcm_NonceSize ≤ len inner)%nat →
  Decrypt inner (derive passphrase salt) = Ok p →
  versioned_attempt magic saltSize derive (String magic (salt +:+ inner)) passphrase = Some p.
Proof.
  intros Hs Hi Hd. unfold versioned_attempt. cbn [starts_with]. rewrite Ascii.eqb_refl.
  change (len (String magic (salt +:+ inner))) with (S (len (salt +:+ inner))).
  rewrite len_app. unfold gcm_NonceSize in Hi.
  replace (1 + saltSize + 12 <=? S (len salt + len inner))%nat with true
    by (symmetry; apply Nat.leb_le; lia).
  change (1 + saltSize)%nat with (S saltSize). cbn [str_drop andb].
  change (str_drop 0 (salt +:+ inner)) with (salt +:+ inner).
  rewrite str_take_app, str_drop_app by done. by rewrite Hd.
Qed.

Lemma versioned_attempt_other magic saltSize derive c rest passphrase :
  c ≠ magic → versioned_attempt magic saltSize derive (String c rest) passphrase = None.
Proof.
  intros Hc. unfold versioned_attempt. cbn [starts_with].
  by destruct (Ascii.eqb_spec c magic).
Qed.

Lemma EncryptIfKeySet_readable plaintext passphrase (w : World D) blob enc w' :
  EncryptIfKeySet plaintext passphrase w = (Ok (blob, enc), w') →
  enc = true ∧ IsLegacyFormat blob = false ∧ starts_with v3Magic blob = true ∧
  DecryptIfKeySet blob passphrase = Ok plaintext.
Proof.
  unfold EncryptIfKeySet. destruct (decide (passphrase = "")) as [Hp|Hp];
    [by rewrite bool_decide_eq_true_2 by done; intros [=]|].
  rewrite bool_decide_eq_false_2 by done.
  unfold mbind, M_bind. destruct (readRand v3SaltSize w) as [[salt|] w1] eqn:Es; [|by intros [=]].
  destruct (Encrypt _ _ w1) as [[inner|] w2] eqn:Ei; intros [= <- <- _].
  apply readRand_ok in Es. apply Encrypt_ok in Ei as (_ & Hl & Hd).
  split_and!; [done|done|done|]. unfold DecryptIfKeySet.
  rewrite !bool_decide_eq_false_2 by done.
  by rewrite (versioned_attempt_sealed _ _ _ _ _ _ plaintext).
Qed.

(** C31: what the write path stores, the read path returns: for every non-empty
    passphrase a blob produced by [EncryptIfKeySet] carries the v3 magic byte and
    [DecryptIfKeySet] with the same passphrase gives back the plaintext; a v2 blob
    is read back as well, and so is a v1 blob whose nonce does not begin with a
    magic byte. *)
Theorem config_encryption_roundtrip (plaintext passphrase : string) (w : World D) :
  passphrase ≠ "" →
  (∀ blob enc w', EncryptIfKeySet plaintext passphrase w = (Ok (blob, enc), w') →
     enc = true ∧ IsLegacyFormat blob = false ∧ starts_with v3Magic blob = true ∧
     DecryptIfKeySet blob passphrase = Ok plaintext) ∧
  (∀ salt inner, len salt = v2SaltSize → (gcm_NonceSize ≤ len inner)%nat →
     Decrypt inner (deriveKeyWithSalt passphrase salt) = Ok plaintext →
     DecryptIfKeySet (String v2Magic (salt +:+ inner)) passphrase = Ok plaintext) ∧
  (∀ blob, IsLegacyFormat blob = true →
     Decrypt blob (DeriveKey passphrase) = Ok plaintext →
     DecryptIfKeySet blob passphrase = Ok plaintext).
Proof.
  intros Hp. split_and!.
  - intros blob enc w'. by apply EncryptIfKeySet_readable.
  - intros salt inner Hs Hl Hd. unfold DecryptIfKeySet. rewrite !bool_decide_eq_false_2 by done.
    rewrite versioned_attempt_other by done.
    by rewrite (versioned_attempt_sealed _ _ _ _ _ _ plaintext).
  - intros [|c rest]; [done|]. cbn. intros [H2 H3]%andb_true_iff Hd.
    unfold DecryptIfKeySet. rewrite !bool_decide_eq_false_2 by done.
    rewrite !versioned_attempt_other; [done| |]; intros ->; by rewrite Ascii.eqb_refl in *.
Qed.
End facts.

(** A toy instance: the key stream is ignored and the tag is the key and nonce. *)
Definition toy_ciphers : Ciphers := {|
  pbkdf2_Key p s r n := of_bytes (replicate n (Z.of_nat (len p + len s) mod 256));
  gcm_Seal k n p := k +:+ n +:+ p;
  gcm_Open k n c := if String.prefix (k +:+ n) c then Some (str_drop (len (k +:+ n)) c) else None
|}.

#[global] Instance toy_ciphers_ok : CiphersOk toy_ciphers.
Proof.
  split.
  - intros p s r n. unfold pbkdf2_Key, toy_ciphers. by rewrite len_of_bytes, length_replicate.
  - intros k n p. unfold gcm_Open, gcm_Seal, toy_ciphers. rewrite <-string_app_assoc.
    pose proof (HasPrefix_app (k +:+ n) p) as H. unfold HasPrefix in H. rewrite H.
    by rewrite str_drop_app.
Qed.

(** Draw [k] is filled with the byte [k mod 256]. *)
Definition toy_entropy : Entropy := λ k n, Some (of_bytes (replicate n (Z.of_N k mod 256))).

#[global] Instance toy_entropy_ok : EntropyOk toy_entropy.
Proof. intros k n s [= <-]. by rewrite len_of_bytes, length_replicate. Qed.

Lemma config_encryption_roundtrip_witness :
  let w := mkWorld tt (mkEnv 0 [] [] 0) in
  let blob := match fst (EncryptIfKeySet (E:=toy_entropy) (C:=toy_ciphers) "secret" "pass" w) with
              | Ok (b, _) => b | Err _ => "" end in
  fst (EncryptIfKeySet (E:=toy_entropy) (C:=toy_ciphers) "secret" "pass" w) = Ok (blob, true) ∧
  DecryptIfKeySet (C:=toy_ciphers) blob "pass" = Ok "secret".
Proof.
  intros w blob.
  assert (EncryptIfKeySet (E:=toy_entropy) (C:=toy_ciphers) "secret" "pass" w
          = (Ok (blob, true), snd (EncryptIfKeySet (E:=toy_entropy) (C:=toy_ciphers) "secret" "pass" w)))
    as He by (vm_compute; reflexivity).
  split; [by rewrite He|].
  pose proof (config_encryption_roundtrip (C:=toy_ciphers) (E:=toy_entropy) "secret" "pass" w
                ltac:(done)) as (H & _ & _).
  destruct (H blob true _ He) as (_ & _ & _ & Hd). exact Hd.
Defined.
