(* ===== verification/Identity.v ===== *)
(** * The identity tables and their repositories
      (src/internal/auth/session/domain/types.go, auth/breakglass/domain/types.go,
       repository/postgres/session.go, oidc_prelogin.go, breakglass.go;
       src/migrations 000035, 000037, 000038, 000041)

    [IdentityDB] extends the role tables of Rbac.v with sessions, session signing
    keys, pre-login rows, OIDC provider ids, users and break-glass credentials; the
    audit log is the one of the role tables.  Primary keys, foreign keys between
    these tables, UNIQUE and CHECK constraints are part of the statements; the
    tenant row every table refers to is taken to exist.  Times are nanoseconds. *)

From Stdlib Require Import ZArith Lia Ascii String.
From stdpp Require Import prelude gmap strings list sorting pretty.
From S2P Require Import Prelude AuditTrail Store Rbac GoBytes KeyCrypto.

(** [time.Time{}] and its [IsZero]: 1 January of year 1. *)
Definition zero_time : Z := -62135596800 * 10 ^ 9.
Definition IsZero (t : Z) : bool := t =? zero_time.
Definition second : Z := 10 ^ 9.

(** ** session/domain/types.go *)
Record Session := mkSession {
  ses_ID : string;
  ses_ActorID : string;
  ses_ActorType : string;
  ses_SigningKeyID : string;
  ses_IsPreLogin : bool;
  ses_CSRFTokenHash : string;
  ses_IdleExpiresAt : Z;
  ses_AbsoluteExpiresAt : Z;
  ses_CreatedAt : Z;
  ses_LastSeenAt : Z;
  ses_IPAddress : string;
  ses_UserAgent : string;
  ses_RevokedAt : option Z;
  ses_TenantID : string
}.

#[global] Instance Session_eq_dec : EqDecision Session.
Proof. solve_decision. Defined.

Record SessionSigningKey := mkSigningKey {
  sk_ID : string;
  sk_TenantID : string;
  sk_KeyMaterialEncrypted : string;
  sk_CreatedAt : Z;
  sk_RetiredAt : option Z
}.

#[global] Instance SessionSigningKey_eq_dec : EqDecision SessionSigningKey.
Proof. solve_decision. Defined.

Definition CookieFormatVersion : string := "v1".

Definition ErrSessionInvalidID := ErrSentinel "session: id must start with 'ses-'".
Definition ErrSessionEmptyActorID := ErrSentinel "session: actor_id is required".
Definition ErrSessionEmptyActorType := ErrSentinel "session: actor_type is required".
Definition ErrSessionInvalidSigningKeyID := ErrSentinel "session: signing_key_id must start with 'sk-'".
Definition ErrSessionExpiryOrder := ErrSentinel "session: absolute_expires_at must be > idle_expires_at".
Definition ErrSessionExpiryNotInFuture := ErrSentinel "session: idle_expires_at must be after created_at".
Definition ErrSessionInvalidCSRFHash := ErrSentinel
  "session: csrf_token_hash must be 64 hex characters (sha256) when set".
Definition ErrSessionSigningKeyInvalidID := ErrSentinel "session: signing key id must start with 'sk-'".
Definition ErrSessionSigningKeyEmptyMaterial := ErrSentinel "session: signing key material is required".
Definition ErrSessionSigningKeyRetiredBeforeNow := ErrSentinel
  "session: retired_at cannot be before created_at".

Definition ses_with_tenant (t : string) (s : Session) : Session :=
  mkSession (ses_ID s) (ses_ActorID s) (ses_ActorType s) (ses_SigningKeyID s) (ses_IsPreLogin s)
    (ses_CSRFTokenHash s) (ses_IdleExpiresAt s) (ses_AbsoluteExpiresAt s) (ses_CreatedAt s)
    (ses_LastSeenAt s) (ses_IPAddress s) (ses_UserAgent s) (ses_RevokedAt s) t.

Definition isHex (s : string) : bool := all_chars hex_char s.

(** [(s *Session) Validate]: the row with its tenant defaulted, or the error. *)
Definition Session_Validate (s : Session) : res Session :=
  if negb (HasPrefix (ses_ID s) "ses-") then Err ErrSessionInvalidID else
  if is_blank (ses_ActorID s) then Err ErrSessionEmptyActorID else
  if is_blank (ses_ActorType s) then Err ErrSessionEmptyActorType else
  if negb (HasPrefix (ses_SigningKeyID s) "sk-") then Err ErrSessionInvalidSigningKeyID else
  if negb (ses_IdleExpiresAt s <? ses_AbsoluteExpiresAt s) then Err ErrSessionExpiryOrder else
  if negb (IsZero (ses_CreatedAt s)) && negb (ses_CreatedAt s <? ses_IdleExpiresAt s)
  then Err ErrSessionExpiryNotInFuture else
  if negb (ses_IsPreLogin s) && is_blank (ses_CSRFTokenHash s) then Err ErrSessionInvalidCSRFHash else
  if negb (bool_decide (ses_CSRFTokenHash s = "")) &&
     (negb (len (ses_CSRFTokenHash s) =? 64)%nat || negb (isHex (ses_CSRFTokenHash s)))
  then Err ErrSessionInvalidCSRFHash else
  Ok (if is_blank (ses_TenantID s) then ses_with_tenant DefaultTenantID s else s).

(** [(k *SessionSigningKey) Validate]. *)
Definition SessionSigningKey_Validate (k : SessionSigningKey) : res SessionSigningKey :=
  if negb (HasPrefix (sk_ID k) "sk-") then Err ErrSessionSigningKeyInvalidID else
  if bool_decide (sk_KeyMaterialEncrypted k = "") then Err ErrSessionSigningKeyEmptyMaterial else
  if match sk_RetiredAt k with
     | Some r => negb (IsZero (sk_CreatedAt k)) && (r <? sk_CreatedAt k)
     | None => false
     end then Err ErrSessionSigningKeyRetiredBeforeNow else
  Ok (if is_blank (sk_TenantID k)
      then mkSigningKey (sk_ID k) DefaultTenantID (sk_KeyMaterialEncrypted k) (sk_CreatedAt k)
             (sk_RetiredAt k)
      else k).

(** ** repository/oidc.go: the pre-login row, and its columns at rest *)
Record PreLoginSession := mkPreLogin {
  pl_ID : string;
  pl_TenantID : string;
  pl_SigningKeyID : string;
  pl_OIDCProviderID : string;
  pl_State : string;
  pl_Nonce : string;
  pl_PKCEVerifier : string;
  pl_CreatedAt : Z;
  pl_AbsoluteExpiresAt : Z;
  pl_ClientIP : string;
  pl_UserAgent : string
}.

(** A row of oidc_pre_login_sessions: the plaintext columns are nullable leftovers,
    the encrypted ones hold blobs. *)
Record PreLoginRow := mkPreLoginRow {
  plr_ID : string;
  plr_TenantID : string;
  plr_SigningKeyID : string;
  plr_OIDCProviderID : string;
  plr_plain : option string * option string * option string;
  plr_enc : option string * option string * option string;
  plr_ClientIP : option string;
  plr_UserAgent : option string;
  plr_CreatedAt : Z;
  plr_AbsoluteExpiresAt : Z
}.

(** ** breakglass/domain/types.go *)
Record BreakglassCredential := mkBreakglass {
  bg_ID : string;
  bg_TenantID : string;
  bg_ActorID : string;
  bg_PasswordHash : string;
  bg_CreatedAt : Z;
  bg_LastPasswordChangeAt : Z;
  bg_FailureCount : Z;
  bg_LockedUntil : option Z;
  bg_LastFailureAt : option Z
}.

(** ** The tables *)
Record IdentityDB := mkIdentityDB {
  id_auth : AuthDB;
  id_sessions : gmap string Session;
  id_keys : gmap string SessionSigningKey;
  id_prelogin : gmap string PreLoginRow;
  id_providers : gset string;
  id_users : gset string;
  id_breakglass : list BreakglassCredential
}.

Definition set_auth (f : AuthDB → AuthDB) (d : IdentityDB) : IdentityDB :=
  mkIdentityDB (f (id_auth d)) (id_sessions d) (id_keys d) (id_prelogin d) (id_providers d)
    (id_users d) (id_breakglass d).
Definition set_sessions (f : gmap string Session → gmap string Session) (d : IdentityDB) : IdentityDB :=
  mkIdentityDB (id_auth d) (f (id_sessions d)) (id_keys d) (id_prelogin d) (id_providers d)
    (id_users d) (id_breakglass d).
Definition set_keys (f : gmap string SessionSigningKey → gmap string SessionSigningKey)
    (d : IdentityDB) : IdentityDB :=
  mkIdentityDB (id_auth d) (id_sessions d) (f (id_keys d)) (id_prelogin d) (id_providers d)
    (id_users d) (id_breakglass d).
Definition set_prelogin (f : gmap string PreLoginRow → gmap string PreLoginRow)
    (d : IdentityDB) : IdentityDB :=
  mkIdentityDB (id_auth d) (id_sessions d) (id_keys d) (f (id_prelogin d)) (id_providers d)
    (id_users d) (id_breakglass d).
Definition set_breakglass (f : list BreakglassCredential → list BreakglassCredential)
    (d : IdentityDB) : IdentityDB :=
  mkIdentityDB (id_auth d) (id_sessions d) (id_keys d) (id_prelogin d) (id_providers d)
    (id_users d) (f (id_breakglass d)).

#[global, program] Instance HasAudit_IdentityDB : HasAudit IdentityDB :=
  {| audit_log d := au_audit (id_auth d);
     append_audit ev := set_auth (append_audit ev) |}.
Next Obligation. done. Qed.

(** Run an operation on the role tables inside the identity database. *)
Definition zoom_auth {A} (m : M AuthDB A) : M IdentityDB A := λ w,
  let '(a, w') := m (mkWorld (id_auth (w_db w)) (w_env w)) in
  (a, mkWorld (set_auth (λ _, w_db w') (w_db w)) (w_env w')).

Definition ErrSessionNotFound := ErrSentinel "session: not found".
Definition ErrSessionSigningKeyNotFound := ErrSentinel "session: signing key not found".
Definition ErrSessionSigningKeyInUse := ErrSentinel
  "session: signing key still referenced by active sessions".

(** ** postgres/session.go, SessionRepository *)
Module SessionRepo.

(** The CHECK constraints of the sessions table. *)
Definition session_checks (s : Session) : bool :=
  (ses_IdleExpiresAt s <? ses_AbsoluteExpiresAt s) && (ses_CreatedAt s <? ses_IdleExpiresAt s).

(** The INSERT names every column but revoked_at. *)
Definition inserted (s : Session) : Session :=
  mkSession (ses_ID s) (ses_ActorID s) (ses_ActorType s) (ses_SigningKeyID s) (ses_IsPreLogin s)
    (ses_CSRFTokenHash s) (ses_IdleExpiresAt s) (ses_AbsoluteExpiresAt s) (ses_CreatedAt s)
    (ses_LastSeenAt s) (ses_IPAddress s) (ses_UserAgent s) None (ses_TenantID s).

Definition Create (s : Session) : M IdentityDB (res unit) :=
  sql_exec "sessions create" (λ d,
    if negb (session_checks s)
    then (Err (ErrWrap "sessions create" (ErrMsg "check constraint")), d)
    else if bool_decide (is_Some (id_sessions d !! ses_ID s)) then (Err AuthRepo.ErrAuthDuplicateName, d)
    else if bool_decide (id_keys d !! ses_SigningKeyID s = None)
    then (Err (ErrWrap "sessions create" (ErrMsg "foreign key constraint")), d)
    else (Ok tt, set_sessions (<[ses_ID s := inserted s]>) d)).

Definition Get (id : string) : M IdentityDB (res Session) :=
  r ← sql_query "sessions get" (λ d, id_sessions d !! id);
  mret match r with
       | Err e => Err e
       | Ok None => Err ErrSessionNotFound
       | Ok (Some s) => Ok s
       end.

Definition of_actor (actorID actorType tenantID : string) (s : Session) : bool :=
  bool_decide (ses_ActorID s = actorID) && bool_decide (ses_ActorType s = actorType) &&
  bool_decide (ses_TenantID s = tenantID).

Definition ListByActor (actorID actorType tenantID : string) : M IdentityDB (res (list Session)) :=
  t ← now;
  sql_query "sessions list_by_actor" (λ d,
    merge_sort (desc ses_CreatedAt)
      (filter (λ s, of_actor actorID actorType tenantID s &&
                    bool_decide (ses_RevokedAt s = None) && negb (ses_IsPreLogin s) &&
                    (t <? ses_AbsoluteExpiresAt s) = true)
         (rows (id_sessions d)))).

Definition ses_seen (t : Z) (s : Session) : Session :=
  mkSession (ses_ID s) (ses_ActorID s) (ses_ActorType s) (ses_SigningKeyID s) (ses_IsPreLogin s)
    (ses_CSRFTokenHash s) (ses_IdleExpiresAt s) (ses_AbsoluteExpiresAt s) (ses_CreatedAt s)
    t (ses_IPAddress s) (ses_UserAgent s) (ses_RevokedAt s) (ses_TenantID s).
Definition ses_rehash (h : string) (s : Session) : Session :=
  mkSession (ses_ID s) (ses_ActorID s) (ses_ActorType s) (ses_SigningKeyID s) (ses_IsPreLogin s)
    h (ses_IdleExpiresAt s) (ses_AbsoluteExpiresAt s) (ses_CreatedAt s)
    (ses_LastSeenAt s) (ses_IPAddress s) (ses_UserAgent s) (ses_RevokedAt s) (ses_TenantID s).
Definition ses_revoke (t : Z) (s : Session) : Session :=
  mkSession (ses_ID s) (ses_ActorID s) (ses_ActorType s) (ses_SigningKeyID s) (ses_IsPreLogin s)
    (ses_CSRFTokenHash s) (ses_IdleExpiresAt s) (ses_AbsoluteExpiresAt s) (ses_CreatedAt s)
    (ses_LastSeenAt s) (ses_IPAddress s) (ses_UserAgent s) (Some t) (ses_TenantID s).

(** [UPDATE sessions SET ... WHERE id = $1], zero rows reported as not found. *)
Definition update_session (op : string) (id : string) (f : Session → Session) : M IdentityDB (res unit) :=
  sql_exec op (λ d,
    match id_sessions d !! id with
    | None => (Err ErrSessionNotFound, d)
    | Some s => (Ok tt, set_sessions (<[id := f s]>) d)
    end).

Definition UpdateLastSeen (id : string) : M IdentityDB (res unit) :=
  t ← now; update_session "sessions update_last_seen" id (ses_seen t).

Definition UpdateCSRFTokenHash (id csrfTokenHash : string) : M IdentityDB (res unit) :=
  update_session "sessions update_csrf_token_hash" id (ses_rehash csrfTokenHash).

(** The UPDATE reports the number of rows; a second query tells "already revoked"
    from "not found". *)
Definition Revoke (id : string) : M IdentityDB (res unit) :=
  t ← now;
  n ← sql_exec "sessions revoke" (λ d,
        match id_sessions d !! id with
        | Some s => if bool_decide (ses_RevokedAt s = None)
                    then (Ok 1%nat, set_sessions (<[id := ses_revoke t s]>) d)
                    else (Ok 0%nat, d)
        | None => (Ok 0%nat, d)
        end);
  match n with
  | Err e => mret (Err e)
  | Ok 0%nat =>
      r ← sql_query "sessions revoke probe" (λ d, bool_decide (is_Some (id_sessions d !! id)));
      mret match r with
           | Err e => Err e
           | Ok false => Err ErrSessionNotFound
           | Ok true => Ok tt
           end
  | Ok _ => mret (Ok tt)
  end.

Definition live_of_actor (actorID actorType tenantID : string) (s : Session) : bool :=
  of_actor actorID actorType tenantID s && bool_decide (ses_RevokedAt s = None).

Definition revoke_where (p : Session → bool) (t : Z) (m : gmap string Session) : gmap string Session :=
  (λ s, if p s then ses_revoke t s else s) <$> m.

Definition RevokeAllForActor (actorID actorType tenantID : string) : M IdentityDB (res unit) :=
  t ← now;
  sql_exec "sessions revoke_all_for_actor" (λ d,
    (Ok tt, set_sessions (revoke_where (live_of_actor actorID actorType tenantID) t) d)).

Definition RevokeAllExceptForActor (actorID actorType tenantID exceptSessionID : string)
    : M IdentityDB (res nat) :=
  t ← now;
  let p s := live_of_actor actorID actorType tenantID s &&
             negb (bool_decide (ses_ID s = exceptSessionID)) in
  sql_exec "sessions revoke_all_except_for_actor" (λ d,
    (Ok (length (filter (λ s, p s = true) (rows (id_sessions d)))),
     set_sessions (revoke_where p t) d)).

Definition gc_expired (t : Z) (s : Session) : bool :=
  (ses_AbsoluteExpiresAt s <? t) ||
  (ses_IsPreLogin s && (ses_CreatedAt s <? t - 600 * second)).

Definition GarbageCollectExpired : M IdentityDB (res nat) :=
  t ← now;
  sql_exec "sessions garbage_collect" (λ d,
    (Ok (length (filter (λ s, gc_expired t s = true) (rows (id_sessions d)))),
     set_sessions (filter (λ kv, gc_expired t kv.2 = false)) d)).

Definition Delete (id : string) : M IdentityDB (res unit) :=
  sql_exec "sessions delete" (λ d,
    match id_sessions d !! id with
    | None => (Err ErrSessionNotFound, d)
    | Some _ => (Ok tt, set_sessions (delete id) d)
    end).
End SessionRepo.

(** ** postgres/session.go, SessionSigningKeyRepository *)
Module KeyRepo.
Definition List (tenantID : string) : M IdentityDB (res (list SessionSigningKey)) :=
  sql_query "session_signing_keys list" (λ d,
    merge_sort (desc sk_CreatedAt)
      (filter (λ k, sk_TenantID k = tenantID) (rows (id_keys d)))).

(** [WHERE tenant_id = $1 AND retired_at IS NULL ORDER BY created_at DESC LIMIT 1]. *)
Definition active_key (tenantID : string) (d : IdentityDB) : option SessionSigningKey :=
  head (merge_sort (desc sk_CreatedAt)
          (filter (λ k, sk_TenantID k = tenantID ∧ sk_RetiredAt k = None) (rows (id_keys d)))).

Definition GetActive (tenantID : string) : M IdentityDB (res SessionSigningKey) :=
  r ← sql_query "session_signing_keys get_active" (active_key tenantID);
  mret match r with
       | Err e => Err e
       | Ok None => Err ErrSessionSigningKeyNotFound
       | Ok (Some k) => Ok k
       end.

Definition Get (id : string) : M IdentityDB (res SessionSigningKey) :=
  r ← sql_query "session_signing_keys get" (λ d, id_keys d !! id);
  mret match r with
       | Err e => Err e
       | Ok None => Err ErrSessionSigningKeyNotFound
       | Ok (Some k) => Ok k
       end.

Definition insert_key (k : SessionSigningKey) (created : Z) : M IdentityDB (res unit) :=
  sql_exec "session_signing_keys add" (λ d,
    match id_keys d !! sk_ID k with
    | Some _ => (Err (ErrWrap "session_signing_keys add" (ErrMsg "duplicate key")), d)
    | None => (Ok tt, set_keys (<[sk_ID k :=
                 mkSigningKey (sk_ID k) (sk_TenantID k) (sk_KeyMaterialEncrypted k) created None]>) d)
    end).

(** created_at defaults to [NOW()] and is read back. *)
Definition Add (k : SessionSigningKey) : M IdentityDB (res unit) :=
  if IsZero (sk_CreatedAt k) then
    t ← now;
    r ← insert_key k t;
    match r with
    | Err e => mret (Err e)
    | Ok _ =>
        c ← sql_query "session_signing_keys add (read created_at)" (λ d, id_keys d !! sk_ID k);
        mret match c with
             | Err e => Err e
             | Ok None => Err (ErrWrap "session_signing_keys add (read created_at)" sql_ErrNoRows)
             | Ok (Some _) => Ok tt
             end
    end
  else insert_key k (sk_CreatedAt k).

Definition sk_retire (t : Z) (k : SessionSigningKey) : SessionSigningKey :=
  mkSigningKey (sk_ID k) (sk_TenantID k) (sk_KeyMaterialEncrypted k) (sk_CreatedAt k) (Some t).

Definition Retire (id : string) : M IdentityDB (res unit) :=
  t ← now;
  n ← sql_exec "session_signing_keys retire" (λ d,
        match id_keys d !! id with
        | Some k =>
            if negb (bool_decide (sk_RetiredAt k = None)) then (Ok 0%nat, d)
            else if t <? sk_CreatedAt k
            then (Err (ErrWrap "session_signing_keys retire" (ErrMsg "check constraint")), d)
            else (Ok 1%nat, set_keys (<[id := sk_retire t k]>) d)
        | None => (Ok 0%nat, d)
        end);
  match n with
  | Err e => mret (Err e)
  | Ok 0%nat =>
      r ← sql_query "session_signing_keys retire probe"
            (λ d, bool_decide (is_Some (id_keys d !! id)));
      mret match r with
           | Err e => Err e
           | Ok false => Err ErrSessionSigningKeyNotFound
           | Ok true => Ok tt
           end
  | Ok _ => mret (Ok tt)
  end.

(** ON DELETE RESTRICT from sessions and oidc_pre_login_sessions. *)
Definition referenced (id : string) (d : IdentityDB) : bool :=
  existsb (λ s, bool_decide (ses_SigningKeyID s = id)) (rows (id_sessions d)) ||
  existsb (λ p, bool_decide (plr_SigningKeyID p = id)) (rows (id_prelogin d)).

Definition Delete (id : string) : M IdentityDB (res unit) :=
  sql_exec "session_signing_keys delete" (λ d,
    match id_keys d !! id with
    | None => (Err ErrSessionSigningKeyNotFound, d)
    | Some _ => if referenced id d then (Err ErrSessionSigningKeyInUse, d)
                else (Ok tt, set_keys (delete id) d)
    end).
End KeyRepo.
