(* ===== verification/Session.v ===== *)
(** * Sessions (src/internal/auth/session/service.go)

    [Module Cookies] is the wire format of the session cookie and its HMAC;
    [Module SessionService] the session life cycle: creation, validation, CSRF
    tokens, revocation, signing-key rotation and garbage collection. *)

From Stdlib Require Import ZArith Lia Ascii String.
From stdpp Require Import prelude gmap strings list sorting pretty.
From S2P Require Import Prelude AuditTrail Store Rbac GoBytes KeyCrypto Identity.

(** ** The cookie *)
Module Cookies.
Definition dot : ascii := ".".
Definition colon : ascii := ":".

(** The length-prefixed input of the MAC. *)
Definition canonical (sessionID signingKeyID : string) : string :=
  Itoa_len sessionID +:+ String colon (sessionID +:+
    String colon (Itoa_len signingKeyID +:+ String colon signingKeyID)).

Definition computeHMAC (sessionID signingKeyID hmacKey : string) : string :=
  hmac_sha256 hmacKey (canonical sessionID signingKeyID).

Definition signCookie (sessionID signingKeyID hmacKey : string) : string :=
  CookieFormatVersion +:+ String dot (sessionID +:+ String dot (signingKeyID +:+
    String dot (b64_EncodeToString (computeHMAC sessionID signingKeyID hmacKey)))).

Definition maxCookieSegmentLen : nat := Z.to_nat 4096.

(** [parseCookie]: session id, signing key id and MAC. *)
Definition parseCookie (cookieValue : string) : res (string * string * string) :=
  if bool_decide (cookieValue = "") then Err (ErrMsg "empty cookie") else
  match Split dot cookieValue with
  | [p0; p1; p2; p3] =>
      if existsb (λ seg, (maxCookieSegmentLen <? len seg)%nat) [p0; p1; p2; p3]
      then Err (ErrMsg "cookie segment exceeds cap") else
      if negb (bool_decide (p0 = CookieFormatVersion))
      then Err (ErrMsg "unsupported version prefix") else
      if bool_decide (p1 = "") then Err (ErrMsg "session id segment empty") else
      if negb (HasPrefix p2 "sk-") then Err (ErrMsg "signing key id missing prefix") else
      match b64_DecodeString p3 with
      | None => Err (ErrMsg "hmac base64")
      | Some mac =>
          if negb (len mac =? sha256_Size)%nat then Err (ErrMsg "hmac length")
          else Ok (p1, p2, mac)
      end
  | _ => Err (ErrMsg "expected 4 segments")
  end.

Definition errInvalidIDPrefix : error := ErrSentinel "session: cookie id has unexpected prefix".

Definition ParseCookieValue (cookieValue expectedID1Prefix : string)
    : res (string * string * string) :=
  match parseCookie cookieValue with
  | Err e => Err e
  | Ok (id1, id2, mac) =>
      if negb (bool_decide (expectedID1Prefix = "")) && negb (HasPrefix id1 expectedID1Prefix)
      then Err errInvalidIDPrefix
      else Ok (id1, id2, mac)
  end.

Definition hashCSRFToken (plaintext : string) : string := hex_EncodeToString (Sum256 plaintext).

(** [subtle.ConstantTimeCompare(a, b) == 1]. *)
Definition ConstantTimeCompare (a b : string) : bool := bool_decide (a = b).
End Cookies.
Import Cookies.

(** ** The service *)
Module SessionService.
Definition ErrSessionInvalidCookie := ErrSentinel "session: invalid cookie".
Definition ErrSessionExpiredIdle := ErrSentinel "session: idle timeout exceeded".
Definition ErrSessionExpiredAbsolute := ErrSentinel "session: absolute timeout exceeded".
Definition ErrSessionRevoked := ErrSentinel "session: revoked".
Definition ErrSigningKeyNotFound := ErrSentinel "session: signing key not found".
Definition ErrSigningKeyRetired := ErrSentinel "session: signing key retired beyond retention window".
Definition ErrCSRFMissing := ErrSentinel "session: CSRF token missing".
Definition ErrCSRFMismatch := ErrSentinel "session: CSRF token mismatch".
Definition ErrSessionIPMismatch := ErrSentinel "session: client IP does not match session-bound IP".
Definition ErrSessionTransient := ErrSentinel "session: transient backend error".
Definition ErrSessionUAMismatch := ErrSentinel
  "session: User-Agent does not match session-bound User-Agent".
Definition ErrInitialSigningKeyMintFailed := ErrSentinel "session: initial signing key mint failed".

(** Durations are nanoseconds. *)
Record Config := mkConfig {
  cfg_IdleTimeout : Z;
  cfg_AbsoluteTimeout : Z;
  cfg_SigningKeyRetention : Z;
  cfg_BindIP : bool;
  cfg_BindUserAgent : bool
}.

Definition DefaultConfig : Config :=
  mkConfig (3600 * second) (8 * 3600 * second) (24 * 3600 * second) false false.

Record CreateResult := mkCreateResult {
  cr_Session : Session; cr_CookieValue : string; cr_CSRFToken : string }.

Record ValidateInput := mkValidateInput {
  vi_CookieValue : string; vi_ClientIP : string; vi_UserAgent : string }.

(** The fields of [Service] that do not change. *)
Record Service := mkService {
  svc_audit : bool;            (* whether an audit recorder is wired *)
  svc_tenantID : string;
  svc_cfg : Config;
  svc_encryption : string
}.

Section service.
Context `{E : Entropy, C : Ciphers}.
Variable ToLower : string → string.
Variable s : Service.

Definition encryptKeyMaterial (plaintext passphrase : string) : M IdentityDB (res string) :=
  if bool_decide (passphrase = "") then mret (Ok plaintext) else
  r ← EncryptIfKeySet plaintext passphrase;
  mret match r with Err e => Err e | Ok (blob, _) => Ok blob end.

Definition decryptKeyMaterial (blob passphrase : string) : res string :=
  if bool_decide (passphrase = "") then Ok blob else DecryptIfKeySet blob passphrase.

(** The audit row is best effort. *)
Definition recordAudit (action actor actorType resourceID : string) (d : details)
    : M IdentityDB unit :=
  if svc_audit s then
    _ ← RecordEventWithCategory ToLower actor actorType action "auth" "session" resourceID d;
    mret tt
  else mret tt.

Definition newOpaqueID (prefix : string) : M IdentityDB (res string) :=
  r ← readRand 16;
  mret match r with Err e => Err e | Ok b => Ok (prefix +:+ b64_EncodeToString b) end.

Definition newCSRFToken : M IdentityDB (res string) :=
  r ← readRand 32;
  mret match r with Err e => Err e | Ok b => Ok (b64_EncodeToString b) end.

Definition newKeyMaterial : M IdentityDB (res string) := readRand 32.

Definition new_session (sessionID actorID actorType keyID csrfToken ip userAgent : string) (t : Z)
    : Session :=
  mkSession sessionID actorID actorType keyID false (hashCSRFToken csrfToken)
    (t + cfg_IdleTimeout (svc_cfg s)) (t + cfg_AbsoluteTimeout (svc_cfg s)) t t ip userAgent None
    (svc_tenantID s).

Definition Create (actorID actorType ip userAgent : string) : M IdentityDB (res CreateResult) :=
  if is_blank actorID then mret (Err (ErrMsg "session: actor_id is required")) else
  if is_blank actorType then mret (Err (ErrMsg "session: actor_type is required")) else
  r ← KeyRepo.GetActive (svc_tenantID s);
  match r with
  | Err e => mret (Err (ErrWrap "session: get active signing key" e))
  | Ok active =>
  match decryptKeyMaterial (sk_KeyMaterialEncrypted active) (svc_encryption s) with
  | Err e => mret (Err (ErrWrap "session: decrypt active key material" e))
  | Ok hmacKey =>
  r ← newOpaqueID "ses-";
  match r with
  | Err e => mret (Err (ErrWrap "session: generate session id" e))
  | Ok sessionID =>
  r ← newCSRFToken;
  match r with
  | Err e => mret (Err (ErrWrap "session: generate csrf token" e))
  | Ok csrfToken =>
  t ← now;
  match Session_Validate
          (new_session sessionID actorID actorType (sk_ID active) csrfToken ip userAgent t) with
  | Err e => mret (Err (ErrWrap "session: validate row" e))
  | Ok row =>
  r ← SessionRepo.Create row;
  match r with
  | Err e => mret (Err (ErrWrap "session: create row" e))
  | Ok _ =>
      mret (Ok (mkCreateResult row (signCookie (ses_ID row) (ses_SigningKeyID row) hmacKey) csrfToken))
  end end end end end end.

(** The checks of [Validate] on the row, after the cookie has been authenticated. *)
Definition check_row (t : Z) (input : ValidateInput) (row : Session) : M IdentityDB (res Session) :=
  if negb (bool_decide (ses_RevokedAt row = None)) then mret (Err ErrSessionRevoked) else
  if negb (t <? ses_AbsoluteExpiresAt row) then mret (Err ErrSessionExpiredAbsolute) else
  if negb (t <? ses_LastSeenAt row + cfg_IdleTimeout (svc_cfg s))
  then mret (Err ErrSessionExpiredIdle) else
  if cfg_BindIP (svc_cfg s) && negb (bool_decide (vi_ClientIP input = "")) &&
     negb (bool_decide (ses_IPAddress row = "")) &&
     negb (bool_decide (vi_ClientIP input = ses_IPAddress row))
  then
    _ ← recordAudit "auth.session_ip_mismatch" (ses_ActorID row) (ses_ActorType row) (ses_ID row)
          [("session_id", GStr (ses_ID row)); ("expected_ip", GStr (ses_IPAddress row));
           ("request_ip", GStr (vi_ClientIP input))];
    mret (Err ErrSessionIPMismatch)
  else if cfg_BindUserAgent (svc_cfg s) && negb (bool_decide (vi_UserAgent input = "")) &&
     negb (bool_decide (ses_UserAgent row = "")) &&
     negb (bool_decide (vi_UserAgent input = ses_UserAgent row))
  then
    _ ← recordAudit "auth.session_ua_mismatch" (ses_ActorID row) (ses_ActorType row) (ses_ID row)
          [("session_id", GStr (ses_ID row))];
    mret (Err ErrSessionUAMismatch)
  else mret (Ok row).

Definition Validate (input : ValidateInput) : M IdentityDB (res Session) :=
  match parseCookie (vi_CookieValue input) with
  | Err _ => mret (Err ErrSessionInvalidCookie)
  | Ok (sessionID, signingKeyID, providedHMAC) =>
  if negb (HasPrefix sessionID "ses-") then mret (Err ErrSessionInvalidCookie) else
  r ← KeyRepo.Get signingKeyID;
  match r with
  | Err _ => mret (Err ErrSigningKeyNotFound)
  | Ok signingKey =>
  t ← now;
  if match sk_RetiredAt signingKey with
     | Some retired => retired + cfg_SigningKeyRetention (svc_cfg s) <? t
     | None => false
     end then mret (Err ErrSigningKeyRetired) else
  match decryptKeyMaterial (sk_KeyMaterialEncrypted signingKey) (svc_encryption s) with
  | Err _ => mret (Err ErrSessionInvalidCookie)
  | Ok hmacKey =>
  if negb (ConstantTimeCompare (computeHMAC sessionID signingKeyID hmacKey) providedHMAC)
  then mret (Err ErrSessionInvalidCookie) else
  r ← SessionRepo.Get sessionID;
  match r with
  | Err e => if errors_Is e ErrSessionNotFound then mret (Err ErrSessionInvalidCookie)
             else mret (Err (ErrWrapPre ErrSessionTransient (Error e)))
  | Ok row => check_row t input row
  end end end end.

Definition ValidateCSRF (headerValue : string) (sess : option Session) : res unit :=
  if is_blank headerValue then Err ErrCSRFMissing else
  match sess with
  | None => Err ErrCSRFMismatch
  | Some row =>
      if bool_decide (ses_CSRFTokenHash row = "") then Err ErrCSRFMismatch else
      if negb (ConstantTimeCompare (hashCSRFToken headerValue) (ses_CSRFTokenHash row))
      then Err ErrCSRFMismatch
      else Ok tt
  end.

Definition UpdateLastSeen (sessionID : string) : M IdentityDB (res unit) :=
  r ← SessionRepo.UpdateLastSeen sessionID;
  mret match r with Err e => Err (ErrWrap "session: update_last_seen" e) | Ok _ => Ok tt end.

Definition Revoke (sessionID : string) : M IdentityDB (res unit) :=
  r ← SessionRepo.Revoke sessionID;
  match r with
  | Err e => mret (Err (ErrWrap "session: revoke" e))
  | Ok _ =>
      _ ← recordAudit "auth.session_revoked" "system" ActorTypeSystem sessionID
            [("session_id", GStr sessionID)];
      mret (Ok tt)
  end.

Definition RevokeAllForActor (actorID actorType : string) : M IdentityDB (res unit) :=
  r ← SessionRepo.RevokeAllForActor actorID actorType (svc_tenantID s);
  match r with
  | Err e => mret (Err (ErrWrap "session: revoke_all_for_actor" e))
  | Ok _ =>
      _ ← recordAudit "auth.sessions_revoked_for_actor" actorID actorType actorID
            [("actor_id", GStr actorID); ("actor_type", GStr actorType)];
      mret (Ok tt)
  end.

Definition RotateCSRFToken (sessionID : string) : M IdentityDB (res string) :=
  r ← newCSRFToken;
  match r with
  | Err e => mret (Err (ErrWrap "session: generate csrf token" e))
  | Ok csrfToken =>
      r ← SessionRepo.UpdateCSRFTokenHash sessionID (hashCSRFToken csrfToken);
      match r with
      | Err e => mret (Err (ErrWrap "session: update csrf hash" e))
      | Ok _ =>
          _ ← recordAudit "auth.session_csrf_rotated" "system" ActorTypeSystem sessionID
                [("session_id", GStr sessionID)];
          mret (Ok csrfToken)
      end
  end.

(** The loop of [RotateCSRFTokenForActor]: stale rows are skipped, a failed
    rotation is not counted. *)
Fixpoint rotate_rows (t : Z) (rows : list Session) (rotated : nat) : M IdentityDB nat :=
  match rows with
  | [] => mret rotated
  | sess :: rows' =>
      if negb (bool_decide (ses_RevokedAt sess = None)) then rotate_rows t rows' rotated else
      if (ses_AbsoluteExpiresAt sess <? t) || (ses_IdleExpiresAt sess <? t)
      then rotate_rows t rows' rotated else
      r ← RotateCSRFToken (ses_ID sess);
      rotate_rows t rows' (if is_Ok r then S rotated else rotated)
  end.

Definition RotateCSRFTokenForActor (actorID actorType : string) : M IdentityDB nat :=
  r ← SessionRepo.ListByActor actorID actorType (svc_tenantID s);
  match r with
  | Err _ => mret 0%nat
  | Ok rows => t ← now; rotate_rows t rows 0
  end.

(** Generate, encrypt and validate a key: the part [RotateSigningKey] and
    [EnsureInitialSigningKey] share, up to how they wrap its errors. *)
Definition mint_key (wrap : string → error → error) : M IdentityDB (res SessionSigningKey) :=
  r ← newOpaqueID "sk-";
  match r with
  | Err e => mret (Err (wrap "session: generate signing key id" e))
  | Ok newID =>
  r ← newKeyMaterial;
  match r with
  | Err e => mret (Err (wrap "session: generate signing key material" e))
  | Ok plaintext =>
  r ← encryptKeyMaterial plaintext (svc_encryption s);
  match r with
  | Err e => mret (Err (wrap "session: encrypt signing key material" e))
  | Ok ciphertext =>
  match SessionSigningKey_Validate (mkSigningKey newID (svc_tenantID s) ciphertext zero_time None) with
  | Err e => mret (Err (wrap "session: validate new key" e))
  | Ok k =>
  r ← KeyRepo.Add k;
  mret match r with
       | Err e => Err (wrap "session: add new signing key" e)
       | Ok _ => Ok k
       end
  end end end end.

Definition RotateSigningKey : M IdentityDB (res unit) :=
  r ← KeyRepo.GetActive (svc_tenantID s);
  match r with
  | Err e => mret (Err (ErrWrap "session: get active for rotate" e))
  | Ok currentActive =>
  r ← mint_key ErrWrap;
  match r with
  | Err e => mret (Err e)
  | Ok newKey =>
  r ← KeyRepo.Retire (sk_ID currentActive);
  match r with
  | Err e => mret (Err (ErrWrap "session: retire previous active key" e))
  | Ok _ =>
      _ ← recordAudit "auth.session_signing_key_rotated" "system" ActorTypeSystem (sk_ID newKey)
            [("new_key_id", GStr (sk_ID newKey)); ("retired_key_id", GStr (sk_ID currentActive))];
      mret (Ok tt)
  end end end.

Definition ensure_wrap (what : string) (e : error) : error :=
  ErrWrapPre ErrInitialSigningKeyMintFailed
    ((if bool_decide (what = "session: validate new key") then "validate: "
      else if bool_decide (what = "session: add new signing key") then "persist: "
      else "") +:+ Error e).

Definition EnsureInitialSigningKey : M IdentityDB (res unit) :=
  r ← KeyRepo.GetActive (svc_tenantID s);
  match r with
  | Ok _ => mret (Ok tt)
  | Err e =>
      if negb (errors_Is e ErrSessionSigningKeyNotFound)
      then mret (Err (ErrWrap "session: probe active signing key" e))
      else
        r ← mint_key ensure_wrap;
        match r with
        | Err e => mret (Err e)
        | Ok k =>
            _ ← recordAudit "auth.session_signing_key_bootstrap" "system" ActorTypeSystem (sk_ID k)
                  [("key_id", GStr (sk_ID k))];
            mret (Ok tt)
        end
  end.

(** The sweep over the retired keys stops at the first unexpected error. *)
Fixpoint sweep_keys (t : Z) (keys : list SessionSigningKey) : M IdentityDB (res unit) :=
  match keys with
  | [] => mret (Ok tt)
  | k :: keys' =>
      match sk_RetiredAt k with
      | None => sweep_keys t keys'
      | Some retired =>
          if negb (retired + cfg_SigningKeyRetention (svc_cfg s) <? t) then sweep_keys t keys' else
          r ← KeyRepo.Delete (sk_ID k);
          match r with
          | Ok _ => sweep_keys t keys'
          | Err e => if errors_Is e ErrSessionSigningKeyInUse then sweep_keys t keys'
                     else mret (Err (ErrWrap ("session: gc delete signing key " +:+ sk_ID k) e))
          end
      end
  end.

(** The number of deleted sessions, and the error. *)
Definition GarbageCollect : M IdentityDB (nat * res unit) :=
  r ← SessionRepo.GarbageCollectExpired;
  match r with
  | Err e => mret (0%nat, Err (ErrWrap "session: gc expired sessions" e))
  | Ok deleted =>
      r ← KeyRepo.List (svc_tenantID s);
      match r with
      | Err e => mret (deleted, Err (ErrWrap "session: gc list keys" e))
      | Ok keys =>
          t ← now;
          r ← sweep_keys t keys;
          mret (deleted, r)
      end
  end.
End service.
End SessionService.

(** ** Pre-login rows (repository/postgres/oidc_prelogin.go, auth/oidc/prelogin.go) *)
Module PreLogin.
Definition ErrPreLoginNotFound := ErrSentinel "oidc: pre-login session not found or already consumed".
Definition ErrPreLoginExpired := ErrSentinel "oidc: pre-login session expired (10-minute TTL exceeded)".

Section prelogin.
Context `{E : Entropy, C : Ciphers}.
Variable tenantID : string.
Variable encryptionKey : string.

Definition nullableString (x : string) : option string :=
  if bool_decide (x = "") then None else Some x.

Definition insert_prelogin (row : PreLoginRow) : M IdentityDB (res unit) :=
  sql_exec "oidc_pre_login create" (λ d,
    if negb (plr_CreatedAt row <? plr_AbsoluteExpiresAt row)
    then (Err (ErrWrap "oidc_pre_login create" (ErrMsg "check constraint")), d)
    else if bool_decide (is_Some (id_prelogin d !! plr_ID row))
    then (Err (ErrWrap "oidc_pre_login create" (ErrMsg "duplicate key")), d)
    else if bool_decide (id_keys d !! plr_SigningKeyID row = None) ||
            negb (bool_decide (plr_OIDCProviderID row ∈ id_providers d))
    then (Err (ErrWrap "oidc_pre_login create" (ErrMsg "foreign key constraint")), d)
    else (Ok tt, set_prelogin (<[plr_ID row := row]>) d)).

(** [PreLoginRepository.Create]: the secrets are sealed, the plaintext columns stay
    NULL; when both times are zero the schema's defaults apply and are read back. *)
Definition PreLoginRepository_Create (p : PreLoginSession) : M IdentityDB (res unit) :=
  r ← EncryptIfKeySet (pl_State p) encryptionKey;
  match r with
  | Err e => mret (Err (ErrWrap "oidc_pre_login encrypt state" e))
  | Ok (stateEnc, _) =>
  r ← EncryptIfKeySet (pl_Nonce p) encryptionKey;
  match r with
  | Err e => mret (Err (ErrWrap "oidc_pre_login encrypt nonce" e))
  | Ok (nonceEnc, _) =>
  r ← EncryptIfKeySet (pl_PKCEVerifier p) encryptionKey;
  match r with
  | Err e => mret (Err (ErrWrap "oidc_pre_login encrypt pkce_verifier" e))
  | Ok (verifierEnc, _) =>
  let row created expires :=
    mkPreLoginRow (pl_ID p) (pl_TenantID p) (pl_SigningKeyID p) (pl_OIDCProviderID p)
      (None, None, None) (Some stateEnc, Some nonceEnc, Some verifierEnc)
      (nullableString (pl_ClientIP p)) (nullableString (pl_UserAgent p)) created expires in
  if IsZero (pl_CreatedAt p) && IsZero (pl_AbsoluteExpiresAt p) then
    t ← now;
    r ← insert_prelogin (row t (t + 600 * second));
    match r with
    | Err e => mret (Err e)
    | Ok _ =>
        c ← sql_query "oidc_pre_login create read-back" (λ d, id_prelogin d !! pl_ID p);
        mret match c with
             | Err e => Err e
             | Ok None => Err (ErrWrap "oidc_pre_login create read-back" sql_ErrNoRows)
             | Ok (Some _) => Ok tt
             end
    end
  else insert_prelogin (row (pl_CreatedAt p) (pl_AbsoluteExpiresAt p))
  end end end.

Definition materialize (enc plain : option string) : res string :=
  let blob := default "" enc in
  if negb (bool_decide (blob = "")) then DecryptIfKeySet blob encryptionKey else
  match plain with
  | Some v => Ok v
  | None => Err (ErrMsg "row missing both encrypted and plaintext value")
  end.

(** The row is deleted by the statement that reads it. *)
Definition PreLoginRepository_LookupAndConsume (id : string) : M IdentityDB (res PreLoginSession) :=
  r ← sql_exec "oidc_pre_login lookup_and_consume" (λ d,
        match id_prelogin d !! id with
        | None => (Err ErrPreLoginNotFound, d)
        | Some row => (Ok row, set_prelogin (delete id) d)
        end);
  match r with
  | Err e => mret (Err e)
  | Ok row =>
      let '(encState, encNonce, encVerifier) := plr_enc row in
      let '(plState, plNonce, plVerifier) := plr_plain row in
      match materialize encState plState with
      | Err e => mret (Err (ErrWrap "oidc_pre_login decrypt state" e))
      | Ok state =>
      match materialize encNonce plNonce with
      | Err e => mret (Err (ErrWrap "oidc_pre_login decrypt nonce" e))
      | Ok nonce =>
      match materialize encVerifier plVerifier with
      | Err e => mret (Err (ErrWrap "oidc_pre_login decrypt pkce_verifier" e))
      | Ok verifier =>
          t ← now;
          if plr_AbsoluteExpiresAt row <? t then mret (Err ErrPreLoginExpired) else
          mret (Ok (mkPreLogin (plr_ID row) (plr_TenantID row) (plr_SigningKeyID row)
                      (plr_OIDCProviderID row) state nonce verifier (plr_CreatedAt row)
                      (plr_AbsoluteExpiresAt row) (default "" (plr_ClientIP row))
                      (default "" (plr_UserAgent row))))
      end end end
  end.

Definition PreLoginRepository_GarbageCollectExpired : M IdentityDB (res nat) :=
  t ← now;
  sql_exec "oidc_pre_login gc" (λ d,
    (Ok (length (filter (λ p, plr_AbsoluteExpiresAt p <? t = true) (rows (id_prelogin d)))),
     set_prelogin (filter (λ kv, plr_AbsoluteExpiresAt kv.2 <? t = false)) d)).

(** [PreLoginAdapter.newID]. *)
Definition newID : M IdentityDB (res string) :=
  r ← readRand 16;
  mret match r with Err e => Err e | Ok b => Ok ("pl-" +:+ b64_EncodeToString b) end.

(** The cookie value and the row id. *)
Definition CreatePreLogin (providerID state nonce verifier clientIP userAgent : string)
    : M IdentityDB (res (string * string)) :=
  r ← KeyRepo.GetActive tenantID;
  match r with
  | Err e => mret (Err (ErrWrap "pre-login: get active signing key" e))
  | Ok active =>
  match SessionService.decryptKeyMaterial (sk_KeyMaterialEncrypted active) encryptionKey with
  | Err e => mret (Err (ErrWrap "pre-login: decrypt active key" e))
  | Ok hmacKey =>
  r ← newID;
  match r with
  | Err e => mret (Err (ErrWrap "pre-login: generate id" e))
  | Ok id =>
  r ← PreLoginRepository_Create
        (mkPreLogin id tenantID (sk_ID active) providerID state nonce verifier zero_time zero_time
           clientIP userAgent);
  match r with
  | Err e => mret (Err (ErrWrap "pre-login: persist row" e))
  | Ok _ => mret (Ok (signCookie id (sk_ID active) hmacKey, id))
  end end end end.

Record Handshake := mkHandshake {
  hs_providerID : string; hs_state : string; hs_nonce : string; hs_verifier : string;
  hs_clientIP : string; hs_userAgent : string }.

Definition LookupAndConsume (cookieValue : string) : M IdentityDB (res Handshake) :=
  match ParseCookieValue cookieValue "pl-" with
  | Err _ => mret (Err ErrPreLoginNotFound)
  | Ok (plID, signingKeyID, providedHMAC) =>
  r ← KeyRepo.Get signingKeyID;
  match r with
  | Err _ => mret (Err ErrPreLoginNotFound)
  | Ok signingKey =>
  match SessionService.decryptKeyMaterial (sk_KeyMaterialEncrypted signingKey) encryptionKey with
  | Err _ => mret (Err ErrPreLoginNotFound)
  | Ok hmacKey =>
  if negb (ConstantTimeCompare (computeHMAC plID signingKeyID hmacKey) providedHMAC)
  then mret (Err ErrPreLoginNotFound) else
  r ← PreLoginRepository_LookupAndConsume plID;
  mret match r with
       | Err e =>
           if errors_Is e ErrPreLoginNotFound || errors_Is e ErrPreLoginExpired
           then Err ErrPreLoginNotFound
           else Err (ErrWrap "pre-login: lookup_and_consume" e)
       | Ok row => Ok (mkHandshake (pl_OIDCProviderID row) (pl_State row) (pl_Nonce row)
                         (pl_PKCEVerifier row) (pl_ClientIP row) (pl_UserAgent row))
       end
  end end end.
End prelogin.
End PreLogin.
