(* ===== verification/SessionFacts.v ===== *)
(** * Correctness of the session component

    The cookie codec round-trips and its MAC input is unambiguous; the tables keep a
    well-formedness invariant under every call; [Validate] accepts exactly the
    authentic cookies of live sessions; a session created by [Create] validates until
    it expires; a revoked session never validates again; signing-key rotation and
    garbage collection do not log anyone out early. *)

From Stdlib Require Import ZArith Lia Ascii String.
From stdpp Require Import prelude gmap strings list sorting pretty.
From S2P Require Import Prelude AuditTrail Store Rbac GoBytes KeyCrypto Identity Session.
Import Cookies SessionService.

(** ** The cookie *)
Definition dot_free (s : string) : Prop := all_chars (not_char dot) s = true.

(** The ids [newOpaqueID] mints. *)
Definition opaque (prefix id : string) : Prop :=
  ∃ b, len b = 16%nat ∧ id = prefix +:+ b64_EncodeToString b.

Lemma b64_dot_free s : dot_free (b64_EncodeToString s).
Proof. exact (all_chars_impl _ _ _ b64_char_not_dot (b64_EncodeToString_chars s)). Qed.

Lemma opaque_spec p id :
  opaque p id → dot_free p →
  dot_free id ∧ HasPrefix id p = true ∧ (len id ≤ len p + 32)%nat.
Proof.
  intros (b & Hb & ->) Hp. split_and!.
  - unfold dot_free in *. rewrite all_chars_app, Hp. apply b64_dot_free.
  - apply HasPrefix_app.
  - rewrite len_app. pose proof (b64_EncodeToString_len b). lia.
Qed.

Lemma HasPrefix_nonempty s p : p ≠ "" → HasPrefix s p = true → s ≠ "".
Proof. intros Hp H ->. by destruct p. Qed.

Lemma parse_segments p0 p1 p2 p3 :
  dot_free p0 → dot_free p1 → dot_free p2 → dot_free p3 →
  Split dot (p0 +:+ String dot (p1 +:+ String dot (p2 +:+ String dot p3))) = [p0; p1; p2; p3].
Proof. intros H0 H1 H2 H3. by rewrite !Split_app, Split_last. Qed.

Lemma parse_signed sessionID signingKeyID key :
  dot_free sessionID → dot_free signingKeyID → sessionID ≠ "" →
  HasPrefix signingKeyID "sk-" = true →
  (len sessionID ≤ maxCookieSegmentLen)%nat → (len signingKeyID ≤ maxCookieSegmentLen)%nat →
  parseCookie (signCookie sessionID signingKeyID key)
  = Ok (sessionID, signingKeyID, computeHMAC sessionID signingKeyID key).
Proof.
  intros H1 H2 Hne Hsk Hl1 Hl2.
  unfold parseCookie, signCookie. rewrite bool_decide_eq_false_2 by done.
  rewrite parse_segments by (done || apply b64_dot_free). cbn [existsb].
  set (mac := computeHMAC _ _ _).
  assert (len mac = 32%nat) as Hm by apply hmac_sha256_len.
  pose proof (b64_EncodeToString_len mac) as Hb. rewrite Hm in Hb.
  assert (64 ≤ maxCookieSegmentLen)%nat as Hmax by (unfold maxCookieSegmentLen; lia).
  rewrite !(proj2 (Nat.ltb_ge _ _)) by (first [assumption | lia | change (2 ≤ maxCookieSegmentLen)%nat; lia]). cbn [orb].
  rewrite bool_decide_eq_true_2, bool_decide_eq_false_2 by done. cbn [negb].
  rewrite Hsk, b64_roundtrip, Hm. done.
Qed.

(** reading a cookie back gives what was signed: for identifiers without dots of at
    most 4096 bytes, [parseCookie] of [signCookie] returns the two identifiers and the
    MAC, and [ParseCookieValue] agrees for the identifier's own prefix and refuses every
    other prefix. *)
Theorem cookie_roundtrip (sessionID signingKeyID key : string) :
  dot_free sessionID → dot_free signingKeyID → sessionID ≠ "" →
  HasPrefix signingKeyID "sk-" = true →
  (len sessionID ≤ maxCookieSegmentLen)%nat → (len signingKeyID ≤ maxCookieSegmentLen)%nat →
  let cookie := signCookie sessionID signingKeyID key in
  let parsed := (sessionID, signingKeyID, computeHMAC sessionID signingKeyID key) in
  parseCookie cookie = Ok parsed ∧
  ∀ prefix, ParseCookieValue cookie prefix =
    if bool_decide (prefix = "") || HasPrefix sessionID prefix
    then Ok parsed else Err errInvalidIDPrefix.
Proof.
  intros H1 H2 Hne Hsk Hl1 Hl2 cookie parsed.
  assert (parseCookie cookie = Ok parsed) as Hp by (by apply parse_signed).
  split; [done|]. intros prefix. unfold ParseCookieValue. rewrite Hp. cbn.
  by destruct (bool_decide (prefix = "")), (HasPrefix sessionID prefix).
Qed.

Lemma max_segment c0 c1 c2 c3 c4 c5 c6 c7 :
  (len (String c0 (String c1 (String c2 (String c3 (String c4 (String c5 (String c6
    (String c7 "")))))))) ≤ maxCookieSegmentLen)%nat.
Proof. change (8 ≤ Z.to_nat 4096)%nat. lia. Qed.

Lemma cookie_roundtrip_witness :
  parseCookie (signCookie "ses-AAAA" "sk-BBBBB" "k")
  = Ok ("ses-AAAA", "sk-BBBBB", computeHMAC "ses-AAAA" "sk-BBBBB" "k") ∧
  ParseCookieValue (signCookie "ses-AAAA" "sk-BBBBB" "k") "pl-" = Err errInvalidIDPrefix.
Proof.
  destruct (cookie_roundtrip "ses-AAAA" "sk-BBBBB" "k") as [H1 H2];
    [reflexivity|reflexivity|discriminate|reflexivity|apply max_segment|apply max_segment|].
  split; [exact H1|]. rewrite H2. reflexivity.
Defined.

(** the MAC input determines both identifiers: two pairs of identifiers have the
    same length-prefixed input only when they are the same pair, so a MAC computed for
    one session and key is not a MAC for another pair by regrouping bytes. *)
Theorem canonical_injective (id1 id2 id1' id2' : string) :
  canonical id1 id2 = canonical id1' id2' ↔ id1 = id1' ∧ id2 = id2'.
Proof.
  split; [|by intros [-> ->]]. unfold canonical.
  assert (∀ x, all_chars (not_char colon) (Itoa_len x) = true) as Hd.
  { intros x. eapply all_chars_impl; [|apply Itoa_len_digits]. intros c Hc.
    unfold not_char. destruct (Ascii.eqb_spec c colon) as [-> | ]; [done|done]. }
  intros H. apply sep_inj in H as [H1 H]; [|done|done].
  apply Itoa_len_inj in H1. apply app_inv_len in H as [-> H]; [|done].
  injection H as H. apply sep_inj in H as [_ ->]; done.
Qed.

(** ** Facts about single steps *)
Lemma active_key_spec te d k :
  KeyRepo.active_key te d = Some k →
  (∃ id, id_keys d !! id = Some k) ∧ sk_TenantID k = te ∧ sk_RetiredAt k = None.
Proof.
  unfold KeyRepo.active_key. intros H%head_Some_elem_of.
  rewrite merge_sort_Permutation, list_elem_of_filter, elem_of_rows in H. tauto.
Qed.

Lemma referenced_spec id d :
  KeyRepo.referenced id d = false →
  (∀ i x, id_sessions d !! i = Some x → ses_SigningKeyID x ≠ id) ∧
  (∀ i p, id_prelogin d !! i = Some p → plr_SigningKeyID p ≠ id).
Proof.
  unfold KeyRepo.referenced. intros [H1 H2]%orb_false_iff. split.
  - intros i x Hx He. apply not_true_iff_false in H1. apply H1, existsb_exists.
    exists x. rewrite <-list_elem_of_In, elem_of_rows, bool_decide_eq_true. eauto.
  - intros i x Hx He. apply not_true_iff_false in H2. apply H2, existsb_exists.
    exists x. rewrite <-list_elem_of_In, elem_of_rows, bool_decide_eq_true. eauto.
Qed.

Lemma hashCSRFToken_spec t : len (hashCSRFToken t) = 64%nat ∧ isHex (hashCSRFToken t) = true.
Proof.
  unfold hashCSRFToken, isHex. rewrite hex_EncodeToString_len, Sum256_len.
  split; [done|]. apply hex_EncodeToString_hex.
Qed.

Lemma Session_Validate_row x y :
  Session_Validate x = Ok y →
  y = x ∨ y = ses_with_tenant DefaultTenantID x.
Proof. unfold Session_Validate. repeat (case_match; try done); intros [= <-]; auto. Qed.

Lemma SessionSigningKey_Validate_fields k k' :
  SessionSigningKey_Validate k = Ok k' →
  sk_ID k' = sk_ID k ∧ sk_KeyMaterialEncrypted k' = sk_KeyMaterialEncrypted k ∧
  sk_CreatedAt k' = sk_CreatedAt k ∧ sk_RetiredAt k' = sk_RetiredAt k.
Proof.
  unfold SessionSigningKey_Validate. repeat (case_match; try done); intros [= <-]; done.
Qed.

(** ** Well-formed tables *)
Section wf.
Context `{EO : EntropyOk, CO : CiphersOk}.
Variable ToLower : string → string.
Variable s : Service.

(** A stored key is under its own opaque id, decrypts to 32 bytes and was not retired
    before it was created. *)
Definition key_wf (id : string) (k : SessionSigningKey) : Prop :=
  sk_ID k = id ∧ opaque "sk-" id ∧
  (∀ r, sk_RetiredAt k = Some r → sk_CreatedAt k ≤ r) ∧
  ∃ hk, len hk = 32%nat ∧ decryptKeyMaterial (sk_KeyMaterialEncrypted k) (svc_encryption s) = Ok hk.

(** A stored session is under its own opaque id, refers to a stored key, has its times
    in order and carries a hexadecimal SHA-256 as its CSRF hash. *)
Definition session_wf (keys : gmap string SessionSigningKey) (id : string) (x : Session) : Prop :=
  ses_ID x = id ∧ opaque "ses-" id ∧ ses_IsPreLogin x = false ∧
  is_Some (keys !! ses_SigningKeyID x) ∧
  ses_CreatedAt x < ses_IdleExpiresAt x < ses_AbsoluteExpiresAt x ∧
  len (ses_CSRFTokenHash x) = 64%nat ∧ isHex (ses_CSRFTokenHash x) = true.

Definition prelogin_wf (keys : gmap string SessionSigningKey) (id : string) (p : PreLoginRow) : Prop :=
  plr_ID p = id ∧ is_Some (keys !! plr_SigningKeyID p).

Definition store_wf (d : IdentityDB) : Prop :=
  map_Forall key_wf (id_keys d) ∧
  map_Forall (session_wf (id_keys d)) (id_sessions d) ∧
  map_Forall (prelogin_wf (id_keys d)) (id_prelogin d).

(** *** The tables under the elementary updates *)
Lemma store_wf_sessions f d :
  store_wf d →
  map_Forall (session_wf (id_keys d)) (f (id_sessions d)) → store_wf (set_sessions f d).
Proof. intros (H1 & H2 & H3) Hf. by split_and!. Qed.

(** Replace the keys by a map that keeps every key referred to. *)
Lemma store_wf_keys f d :
  store_wf d → map_Forall key_wf (f (id_keys d)) →
  (∀ id, is_Some (id_keys d !! id) →
     (∃ x, id_sessions d !! ses_ID x = Some x ∧ ses_SigningKeyID x = id) ∨
     (∃ p, id_prelogin d !! plr_ID p = Some p ∧ plr_SigningKeyID p = id) →
     is_Some (f (id_keys d) !! id)) →
  store_wf (set_keys f d).
Proof.
  intros (H1 & H2 & H3) Hf Href. split_and!; [done| |]; intros id x Hx; cbn in *.
  - destruct (H2 id x Hx) as (Hid & Ho & Hp & Hk & Ht). split_and!; try done; try apply Ht.
    apply Href; [done|left; exists x; by rewrite Hid].
  - destruct (H3 id x Hx) as [Hid Hk]. split; [done|].
    apply Href; [done|right; exists x; by rewrite Hid].
Qed.

Lemma session_wf_update keys id x y :
  session_wf keys id x →
  ses_ID y = ses_ID x → ses_IsPreLogin y = ses_IsPreLogin x →
  ses_SigningKeyID y = ses_SigningKeyID x → ses_CreatedAt y = ses_CreatedAt x →
  ses_IdleExpiresAt y = ses_IdleExpiresAt x → ses_AbsoluteExpiresAt y = ses_AbsoluteExpiresAt x →
  (ses_CSRFTokenHash y = ses_CSRFTokenHash x ∨
   len (ses_CSRFTokenHash y) = 64%nat ∧ isHex (ses_CSRFTokenHash y) = true) →
  session_wf keys id y.
Proof.
  intros (H1 & H2 & H3 & H4 & H5 & H6 & H7) E1 E2 E3 E4 E5 E6 E7.
  unfold session_wf. rewrite E1, E2, E3, E4, E5, E6.
  destruct E7 as [-> | [? ?]]; split_and!; done || lia.
Qed.

(** *** Repository calls *)
Lemma keeps_readRand (I : IdentityDB → Prop) n :
  keeps I (readRand n) (λ r, ∀ b, r = Ok b → len b = n).
Proof.
  intros w HI. unfold readRand. mrun. split; [done|].
  destruct (entropy _ n) eqn:Ee; intros b [= <-]. by eapply entropy_len.
Qed.

Lemma keeps_newOpaqueID (I : IdentityDB → Prop) p :
  keeps I (newOpaqueID p) (λ r, ∀ id, r = Ok id → opaque p id).
Proof.
  eapply keeps_bind; [apply keeps_readRand|]. intros [b|e] Hb; apply keeps_ret; intros id [= <-].
  exists b. split; [by apply Hb|done].
Qed.

Lemma keeps_newCSRFToken (I : IdentityDB → Prop) : keeps I newCSRFToken (λ _, True).
Proof.
  eapply keeps_bind; [apply keeps_readRand|]. intros [b|e] Hb; by apply keeps_ret.
Qed.

Lemma keeps_recordAudit a b c r d : keeps store_wf (recordAudit ToLower s a b c r d) (λ _, True).
Proof.
  apply keeps_pres. unfold recordAudit. destruct (svc_audit s); [|pres_step].
  pres_step; [|pres_step]. apply pres_RecordEventWithCategory; [apply _|].
  intros ev db H. exact H.
Qed.

Lemma keeps_update_session op id f :
  (∀ keys x, session_wf keys id x → session_wf keys id (f x)) →
  keeps store_wf (SessionRepo.update_session op id f) (λ _, True).
Proof.
  intros Hf. apply keeps_exec; [|done]. intros d Hd.
  destruct (id_sessions d !! id) as [x|] eqn:Ex; [|done]. split; [|done].
  apply store_wf_sessions; [done|]. destruct Hd as (_ & H & _).
  apply map_Forall_insert_2; [by apply Hf, H|done].
Qed.

Lemma keeps_SessionCreate row :
  opaque "ses-" (ses_ID row) → ses_IsPreLogin row = false →
  len (ses_CSRFTokenHash row) = 64%nat → isHex (ses_CSRFTokenHash row) = true →
  keeps store_wf (SessionRepo.Create row) (λ _, True).
Proof.
  intros Hid Hpl Hl Hh. apply keeps_exec; [|done]. intros d Hd.
  destruct (SessionRepo.session_checks row) eqn:Ec; cbn [negb]; [|done].
  repeat (case_bool_decide; [done|]). split; [|done]. apply store_wf_sessions; [done|].
  apply map_Forall_insert_2; [|by destruct Hd as (_ & ? & _)].
  apply andb_true_iff in Ec as [H1%Z.ltb_lt H2%Z.ltb_lt].
  split_and!; try done. cbn. by apply not_eq_None_Some.
Qed.

Lemma keeps_SessionRevoke id : keeps store_wf (SessionRepo.Revoke id) (λ _, True).
Proof.
  unfold SessionRepo.Revoke. apply keeps_now. intros t. eapply (keeps_bind _ _ _ (λ _, True)).
  - apply keeps_exec; [|done]. intros d Hd. destruct (id_sessions d !! id) as [x|] eqn:Ex; [|done].
    case_bool_decide; [|done]. split; [|done]. apply store_wf_sessions; [done|].
    destruct Hd as (_ & H1 & _). apply map_Forall_insert_2; [|done].
    by eapply (session_wf_update _ _ x); eauto.
  - intros [[|n]|e] _; try by apply keeps_ret.
    apply (keeps_bind _ _ _ (λ _, True)); [by apply keeps_query|]. intros [[]|e] _; by apply keeps_ret.
Qed.

Lemma store_wf_revoke_where p t d : store_wf d → store_wf (set_sessions (SessionRepo.revoke_where p t) d).
Proof.
  intros Hd. apply store_wf_sessions; [done|]. destruct Hd as (_ & H & _).
  intros id y. unfold SessionRepo.revoke_where. rewrite lookup_fmap.
  destruct (id_sessions d !! id) as [x|] eqn:Ex; intros [= <-]. specialize (H _ _ Ex).
  destruct (p x); [|done]. by eapply (session_wf_update _ _ x); eauto.
Qed.

Lemma keeps_RevokeAllForActor a ty te :
  keeps store_wf (SessionRepo.RevokeAllForActor a ty te) (λ _, True).
Proof.
  apply keeps_now. intros t. apply keeps_exec; [|done]. intros d Hd. split; [|done].
  by apply store_wf_revoke_where.
Qed.

Lemma keeps_RevokeAllExceptForActor a ty te ex :
  keeps store_wf (SessionRepo.RevokeAllExceptForActor a ty te ex) (λ _, True).
Proof.
  apply keeps_now. intros t. apply keeps_exec; [|done]. intros d Hd. split; [|done].
  by apply store_wf_revoke_where.
Qed.

Lemma keeps_GarbageCollectExpired : keeps store_wf SessionRepo.GarbageCollectExpired (λ _, True).
Proof.
  apply keeps_now. intros t. apply keeps_exec; [|done]. intros d Hd. split; [|done].
  apply store_wf_sessions; [done|]. intros id x [Hx _]%map_lookup_filter_Some. by apply Hd.
Qed.

Lemma keeps_SessionDelete id : keeps store_wf (SessionRepo.Delete id) (λ _, True).
Proof.
  apply keeps_exec; [|done]. intros d Hd. destruct (id_sessions d !! id) eqn:Ex; [|done].
  split; [|done]. apply store_wf_sessions; [done|]. by apply map_Forall_delete, Hd.
Qed.

(** *** Signing keys *)
Lemma keeps_GetActive te :
  keeps store_wf (KeyRepo.GetActive te) (λ r, ∀ k, r = Ok k → key_wf (sk_ID k) k).
Proof.
  eapply (keeps_bind _ _ _ (λ r, ∀ k, r = Ok (Some k) → key_wf (sk_ID k) k)).
  - apply keeps_query; [|done]. intros d (Hk & _ & _) k [= Ha].
    apply active_key_spec in Ha as ((id & Hid) & _ & _). specialize (Hk _ _ Hid).
    by destruct Hk as (<- & ?).
  - intros [[k|]|e] H; apply keeps_ret; intros k' [= <-]. by apply H.
Qed.

Lemma keeps_insert_key k t :
  opaque "sk-" (sk_ID k) →
  (∃ hk, len hk = 32%nat ∧ decryptKeyMaterial (sk_KeyMaterialEncrypted k) (svc_encryption s) = Ok hk) →
  keeps store_wf (KeyRepo.insert_key k t) (λ _, True).
Proof.
  intros Hid Hm. apply keeps_exec; [|done]. intros d Hd.
  destruct (id_keys d !! sk_ID k) eqn:Ek; [done|]. split; [|done].
  apply store_wf_keys; [done| |].
  - apply map_Forall_insert_2; [by split_and!|apply Hd].
  - intros id [x Hx] _. destruct (decide (sk_ID k = id)) as [<- | ?].
    + rewrite lookup_insert_eq. eauto.
    + rewrite lookup_insert_ne by done. eauto.
Qed.

Lemma keeps_Add k :
  opaque "sk-" (sk_ID k) →
  (∃ hk, len hk = 32%nat ∧ decryptKeyMaterial (sk_KeyMaterialEncrypted k) (svc_encryption s) = Ok hk) →
  keeps store_wf (KeyRepo.Add k) (λ _, True).
Proof.
  intros Hid Hm. unfold KeyRepo.Add. destruct (IsZero _); [|by apply keeps_insert_key].
  apply keeps_now. intros t. eapply keeps_bind; [by apply keeps_insert_key|].
  intros [[]|e] _; [|by apply keeps_ret].
  apply (keeps_bind _ _ _ (λ _, True)); [by apply keeps_query|]. intros [[]|] _; by apply keeps_ret.
Qed.

Lemma keeps_Retire id : keeps store_wf (KeyRepo.Retire id) (λ _, True).
Proof.
  unfold KeyRepo.Retire. apply keeps_now. intros t. eapply (keeps_bind _ _ _ (λ _, True)).
  - apply keeps_exec; [|done]. intros d Hd. destruct (id_keys d !! id) as [k|] eqn:Ek; [|done].
    case_bool_decide; [|done]. destruct (Z.ltb_spec t (sk_CreatedAt k)); [done|]. split; [|done].
    apply store_wf_keys; [done| |].
    + destruct Hd as (Hk & _ & _). apply map_Forall_insert_2; [|done].
      destruct (Hk _ _ Ek) as (Hid & Ho & _ & Hm). split_and!; try done. by intros r [= <-].
    + intros id' [x Hx] _. destruct (decide (id = id')) as [<- | ?].
      * rewrite lookup_insert_eq. eauto.
      * rewrite lookup_insert_ne by done. eauto.
  - intros [[|n]|e] _; try by apply keeps_ret.
    apply (keeps_bind _ _ _ (λ _, True)); [by apply keeps_query|]. intros [[]|e] _; by apply keeps_ret.
Qed.

Lemma keeps_KeyDelete id : keeps store_wf (KeyRepo.Delete id) (λ _, True).
Proof.
  apply keeps_exec; [|done]. intros d Hd. destruct (id_keys d !! id) as [k|] eqn:Ek; [|done].
  destruct (KeyRepo.referenced id d) eqn:Er; [done|]. split; [|done].
  apply referenced_spec in Er as [Hs Hp]. apply store_wf_keys; [done| |].
  - by apply map_Forall_delete, Hd.
  - intros id' Hid' Href. rewrite lookup_delete_ne; [done|]. intros <-.
    destruct Href as [(x & Hx & He) | (p & Hx & He)]; [by eapply Hs|by eapply Hp].
Qed.

Lemma keeps_encryptKeyMaterial (I : IdentityDB → Prop) p :
  keeps I (encryptKeyMaterial p (svc_encryption s))
    (λ r, ∀ ct, r = Ok ct → decryptKeyMaterial ct (svc_encryption s) = Ok p).
Proof.
  unfold encryptKeyMaterial, decryptKeyMaterial. case_bool_decide as He.
  { apply keeps_ret. by intros ct [= <-]. }
  eapply (keeps_bind _ _ _ (λ r, ∀ b e, r = Ok (b, e) → DecryptIfKeySet b (svc_encryption s) = Ok p)).
  - intros w HI. split.
    + unfold EncryptIfKeySet, readRand. case_bool_decide; [done|]. mrun.
      destruct (entropy _ v3SaltSize); [|done]. unfold Encrypt, readRand.
      destruct (negb _); [done|]. by mrun.
    + intros b e H. destruct (EncryptIfKeySet p (svc_encryption s) w) as [r w'] eqn:Ew. cbn in H. subst.
      by apply EncryptIfKeySet_readable in Ew as (_ & _ & _ & ?).
  - intros [[b e]|] H; apply keeps_ret; intros ct [= <-]. by eapply H.
Qed.

Lemma keeps_mint_key wrap : keeps store_wf (mint_key s wrap) (λ _, True).
Proof.
  unfold mint_key. eapply keeps_bind; [apply keeps_newOpaqueID|]. intros [id|] Hid; [|by apply keeps_ret].
  eapply keeps_bind; [apply keeps_readRand|]. intros [p|] Hp; [|by apply keeps_ret].
  eapply keeps_bind; [apply keeps_encryptKeyMaterial|]. intros [ct|] Hct; [|by apply keeps_ret].
  destruct (SessionSigningKey_Validate _) as [k|] eqn:Ev; [|by apply keeps_ret].
  apply SessionSigningKey_Validate_fields in Ev as (E1 & E2 & _ & _). cbn in *.
  eapply (keeps_bind _ _ _ (λ _, True)).
  - apply keeps_Add; [rewrite E1; by apply Hid|]. rewrite E2. eauto.
  - intros [[]|] _; by apply keeps_ret.
Qed.

(** *** Service calls *)
Lemma keeps_const {A B} (m : M IdentityDB A) (f : A → B) :
  keeps store_wf m (λ _, True) → keeps store_wf (a ← m; mret (f a)) (λ _, True).
Proof. intros H. eapply keeps_bind; [exact H|]. intros a _. by apply keeps_ret. Qed.

Lemma keeps_audited {A} a b c r d (x : A) :
  keeps store_wf (_ ← recordAudit ToLower s a b c r d; mret x) (λ _, True).
Proof. eapply keeps_bind; [apply keeps_recordAudit|]. intros [] _. by apply keeps_ret. Qed.

Lemma keeps_Create a ty ip ua : keeps store_wf (Create s a ty ip ua) (λ _, True).
Proof.
  unfold Create. destruct (is_blank a); [by apply keeps_ret|].
  destruct (is_blank ty); [by apply keeps_ret|].
  eapply keeps_bind; [apply keeps_GetActive|]. intros [k|] Hk; [|by apply keeps_ret].
  destruct (decryptKeyMaterial _ _); [|by apply keeps_ret].
  eapply keeps_bind; [apply keeps_newOpaqueID|]. intros [id|] Hid; [|by apply keeps_ret].
  eapply keeps_bind; [apply keeps_newCSRFToken|]. intros [tok|] _; [|by apply keeps_ret].
  apply keeps_now. intros t. destruct (Session_Validate _) as [row|] eqn:Ev; [|by apply keeps_ret].
  destruct (hashCSRFToken_spec tok) as [Hl Hh].
  eapply keeps_bind; [|intros [[]|] _; by apply keeps_ret].
  apply Session_Validate_row in Ev as [-> | ->]; apply keeps_SessionCreate; cbn; auto.
Qed.

Lemma keeps_Validate i : keeps store_wf (Validate ToLower s i) (λ _, True).
Proof.
  unfold Validate. destruct (parseCookie _) as [[[sid kid] mac]|]; [|by apply keeps_ret].
  destruct (negb _); [by apply keeps_ret|].
  eapply (keeps_bind _ _ _ (λ _, True)).
  { apply keeps_const. by apply keeps_query. }
  intros [k|] _; [|by apply keeps_ret]. apply keeps_now. intros t.
  destruct (match sk_RetiredAt k with Some _ => _ | None => _ end); [by apply keeps_ret|].
  destruct (decryptKeyMaterial _ _); [|by apply keeps_ret].
  destruct (negb _); [by apply keeps_ret|].
  eapply (keeps_bind _ _ _ (λ _, True)); [apply keeps_const; by apply keeps_query|].
  intros [row|e] _; [|destruct (errors_Is _ _); by apply keeps_ret].
  unfold check_row. repeat (case_match; [by apply keeps_ret || apply keeps_audited|]).
  by apply keeps_ret.
Qed.

Lemma keeps_RotateCSRFToken id : keeps store_wf (RotateCSRFToken ToLower s id) (λ _, True).
Proof.
  unfold RotateCSRFToken. eapply keeps_bind; [apply keeps_newCSRFToken|].
  intros [tok|] _; [|by apply keeps_ret]. eapply (keeps_bind _ _ _ (λ _, True)).
  - apply keeps_update_session. intros keys x Hx. destruct (hashCSRFToken_spec tok).
    eapply (session_wf_update _ _ x); cbn; eauto.
  - intros [[]|] _; [apply keeps_audited|by apply keeps_ret].
Qed.

Lemma keeps_rotate_rows t l n : keeps store_wf (rotate_rows ToLower s t l n) (λ _, True).
Proof.
  revert n. induction l as [|x l IH]; intros n; cbn; [by apply keeps_ret|].
  case_match; [done|]. case_match; [done|].
  eapply keeps_bind; [apply keeps_RotateCSRFToken|]. intros r _. apply IH.
Qed.

Lemma keeps_RotateCSRFTokenForActor a ty :
  keeps store_wf (RotateCSRFTokenForActor ToLower s a ty) (λ _, True).
Proof.
  unfold RotateCSRFTokenForActor. eapply (keeps_bind _ _ _ (λ _, True)).
  - apply keeps_now. intros t. by apply keeps_query.
  - intros [l|] _; [|by apply keeps_ret]. apply keeps_now. intros t. apply keeps_rotate_rows.
Qed.

Lemma keeps_RotateSigningKey : keeps store_wf (RotateSigningKey ToLower s) (λ _, True).
Proof.
  unfold RotateSigningKey. eapply keeps_bind; [apply keeps_GetActive|].
  intros [k|] _; [|by apply keeps_ret]. eapply keeps_bind; [apply keeps_mint_key|].
  intros [k'|] _; [|by apply keeps_ret]. eapply keeps_bind; [apply keeps_Retire|].
  intros [[]|] _; [apply keeps_audited|by apply keeps_ret].
Qed.

Lemma keeps_EnsureInitialSigningKey : keeps store_wf (EnsureInitialSigningKey ToLower s) (λ _, True).
Proof.
  unfold EnsureInitialSigningKey. eapply keeps_bind; [apply keeps_GetActive|].
  intros [k|e] _; [by apply keeps_ret|]. destruct (negb _); [by apply keeps_ret|].
  eapply keeps_bind; [apply keeps_mint_key|].
  intros [k'|] _; [apply keeps_audited|by apply keeps_ret].
Qed.

Lemma keeps_sweep_keys t l : keeps store_wf (sweep_keys s t l) (λ _, True).
Proof.
  induction l as [|k l IH]; cbn; [by apply keeps_ret|].
  destruct (sk_RetiredAt k); [|done]. destruct (negb _); [done|].
  eapply keeps_bind; [apply keeps_KeyDelete|]. intros [[]|e] _; [done|].
  destruct (errors_Is _ _); [done|]. by apply keeps_ret.
Qed.

Lemma keeps_GarbageCollect : keeps store_wf (GarbageCollect s) (λ _, True).
Proof.
  unfold GarbageCollect. eapply keeps_bind; [apply keeps_GarbageCollectExpired|].
  intros [n|] _; [|by apply keeps_ret]. eapply (keeps_bind _ _ _ (λ _, True)); [by apply keeps_query|].
  intros [l|] _; [|by apply keeps_ret]. apply keeps_now. intros t.
  apply keeps_const, keeps_sweep_keys.
Qed.

(** *** Pre-login calls *)
Lemma keeps_insert_prelogin row : keeps store_wf (PreLogin.insert_prelogin row) (λ _, True).
Proof.
  apply keeps_exec; [|done]. intros d (H1 & H2 & H3).
  destruct (negb _); [done|]. case_bool_decide; [done|].
  destruct (bool_decide (id_keys d !! _ = None) || _) eqn:Ef; [done|].
  apply orb_false_iff in Ef as [Ef%bool_decide_eq_false _].
  split; [|done]. split_and!; [done|done|]. apply map_Forall_insert_2; [|done].
  split; [done|]. by apply not_eq_None_Some.
Qed.

Lemma keeps_EncryptIfKeySet (I : IdentityDB → Prop) p pass :
  keeps I (EncryptIfKeySet p pass) (λ _, True).
Proof.
  unfold EncryptIfKeySet. case_bool_decide; [by apply keeps_ret|].
  eapply keeps_bind; [apply keeps_readRand|]. intros [salt|] _; [|by apply keeps_ret].
  eapply (keeps_bind _ _ _ (λ _, True)).
  - unfold Encrypt. destruct (negb _); [by apply keeps_ret|].
    eapply keeps_bind; [apply keeps_readRand|]. intros [n|] _; by apply keeps_ret.
  - intros [inner|] _; by apply keeps_ret.
Qed.

Lemma keeps_PreLoginRepository_Create p :
  keeps store_wf (PreLogin.PreLoginRepository_Create (svc_encryption s) p) (λ _, True).
Proof.
  unfold PreLogin.PreLoginRepository_Create.
  do 3 (eapply keeps_bind; [apply keeps_EncryptIfKeySet|]; intros [[? ?]|] _; [|by apply keeps_ret]).
  destruct (_ && _); [|apply keeps_insert_prelogin]. apply keeps_now. intros t.
  eapply keeps_bind; [apply keeps_insert_prelogin|]. intros [[]|] _; [|by apply keeps_ret].
  apply keeps_const. by apply keeps_query.
Qed.

Lemma keeps_CreatePreLogin a b c d e f :
  keeps store_wf (PreLogin.CreatePreLogin (svc_tenantID s) (svc_encryption s) a b c d e f) (λ _, True).
Proof.
  unfold PreLogin.CreatePreLogin. eapply keeps_bind; [apply keeps_GetActive|].
  intros [k|] _; [|by apply keeps_ret]. destruct (decryptKeyMaterial _ _); [|by apply keeps_ret].
  eapply (keeps_bind _ _ _ (λ _, True)).
  - eapply keeps_bind; [apply keeps_readRand|]. intros [x|] _; by apply keeps_ret.
  - intros [id|] _; [|by apply keeps_ret].
    eapply keeps_bind; [apply keeps_PreLoginRepository_Create|]. intros [[]|] _; by apply keeps_ret.
Qed.

Lemma keeps_repo_LookupAndConsume id :
  keeps store_wf (PreLogin.PreLoginRepository_LookupAndConsume (svc_encryption s) id) (λ _, True).
Proof.
  unfold PreLogin.PreLoginRepository_LookupAndConsume. eapply (keeps_bind _ _ _ (λ _, True)).
  - apply keeps_exec; [|done]. intros d (H1 & H2 & H3). destruct (id_prelogin d !! id); [|done].
    split; [|done]. split_and!; [done|done|]. by apply map_Forall_delete.
  - intros [row|] _; [|by apply keeps_ret]. destruct (plr_enc row) as [[? ?] ?].
    destruct (plr_plain row) as [[? ?] ?].
    do 3 (destruct (PreLogin.materialize _ _ _); [|by apply keeps_ret]).
    apply keeps_now. intros t. case_match; by apply keeps_ret.
Qed.

Lemma keeps_LookupAndConsume cookie :
  keeps store_wf (PreLogin.LookupAndConsume (svc_encryption s) cookie) (λ _, True).
Proof.
  unfold PreLogin.LookupAndConsume.
  destruct (ParseCookieValue _ _) as [[[? ?] ?]|]; [|by apply keeps_ret].
  eapply (keeps_bind _ _ _ (λ _, True)); [apply keeps_const; by apply keeps_query|].
  intros [k|] _; [|by apply keeps_ret]. destruct (decryptKeyMaterial _ _); [|by apply keeps_ret].
  destruct (negb _); [by apply keeps_ret|]. apply keeps_const, keeps_repo_LookupAndConsume.
Qed.

Lemma keeps_prelogin_gc : keeps store_wf PreLogin.PreLoginRepository_GarbageCollectExpired (λ _, True).
Proof.
  apply keeps_now. intros t. apply keeps_exec; [|done]. intros d (H1 & H2 & H3). split; [|done].
  split_and!; [done|done|]. intros id x [Hx _]%map_lookup_filter_Some. by apply H3.
Qed.

(** *** Every call *)
Inductive session_call :=
  | CCreate (actorID actorType ip userAgent : string)
  | CValidate (input : ValidateInput)
  | CUpdateLastSeen (sessionID : string)
  | CRevoke (sessionID : string)
  | CRevokeAllForActor (actorID actorType : string)
  | CRevokeAllExceptForActor (actorID actorType tenantID exceptSessionID : string)
  | CRotateCSRFToken (sessionID : string)
  | CRotateCSRFTokenForActor (actorID actorType : string)
  | CRotateSigningKey
  | CEnsureInitialSigningKey
  | CGarbageCollect
  | CDeleteSession (sessionID : string)
  | CCreatePreLogin (providerID state nonce verifier clientIP userAgent : string)
  | CLookupAndConsume (cookieValue : string)
  | CPreLoginGC.

Definition void {D A} (m : M D A) : M D unit := _ ← m; mret tt.

Definition run_call (c : session_call) : M IdentityDB unit :=
  match c with
  | CCreate a t i u => void (Create s a t i u)
  | CValidate i => void (Validate ToLower s i)
  | CUpdateLastSeen id => void (UpdateLastSeen id)
  | CRevoke id => void (Revoke ToLower s id)
  | CRevokeAllForActor a t => void (RevokeAllForActor ToLower s a t)
  | CRevokeAllExceptForActor a t n x => void (SessionRepo.RevokeAllExceptForActor a t n x)
  | CRotateCSRFToken id => void (RotateCSRFToken ToLower s id)
  | CRotateCSRFTokenForActor a t => void (RotateCSRFTokenForActor ToLower s a t)
  | CRotateSigningKey => void (RotateSigningKey ToLower s)
  | CEnsureInitialSigningKey => void (EnsureInitialSigningKey ToLower s)
  | CGarbageCollect => void (GarbageCollect s)
  | CDeleteSession id => void (SessionRepo.Delete id)
  | CCreatePreLogin p st n v i u =>
      void (PreLogin.CreatePreLogin (svc_tenantID s) (svc_encryption s) p st n v i u)
  | CLookupAndConsume ck => void (PreLogin.LookupAndConsume (svc_encryption s) ck)
  | CPreLoginGC => void PreLogin.PreLoginRepository_GarbageCollectExpired
  end.

Lemma keeps_UpdateLastSeen id : keeps store_wf (UpdateLastSeen id) (λ _, True).
Proof.
  apply keeps_const, keeps_now. intros t. apply keeps_update_session. intros keys x Hx.
  by eapply (session_wf_update _ _ x); eauto.
Qed.

Lemma keeps_Revoke id : keeps store_wf (Revoke ToLower s id) (λ _, True).
Proof.
  eapply keeps_bind; [apply keeps_SessionRevoke|].
  intros [[]|] _; [apply keeps_audited|by apply keeps_ret].
Qed.

Lemma keeps_service_RevokeAllForActor a ty :
  keeps store_wf (RevokeAllForActor ToLower s a ty) (λ _, True).
Proof.
  eapply keeps_bind; [apply keeps_RevokeAllForActor|].
  intros [[]|] _; [apply keeps_audited|by apply keeps_ret].
Qed.

Lemma keeps_call c : keeps store_wf (run_call c) (λ _, True).
Proof.
  destruct c; apply keeps_const; auto using keeps_Create, keeps_Validate, keeps_UpdateLastSeen,
    keeps_Revoke, keeps_service_RevokeAllForActor, keeps_RevokeAllExceptForActor,
    keeps_RotateCSRFToken, keeps_RotateCSRFTokenForActor, keeps_RotateSigningKey,
    keeps_EnsureInitialSigningKey, keeps_GarbageCollect, keeps_SessionDelete,
    keeps_CreatePreLogin, keeps_LookupAndConsume, keeps_prelogin_gc.
Qed.

Fixpoint run_calls (cs : list session_call) : M IdentityDB unit :=
  match cs with
  | [] => mret tt
  | c :: cs' => _ ← run_call c; run_calls cs'
  end.

Lemma keeps_calls cs : keeps store_wf (run_calls cs) (λ _, True).
Proof.
  induction cs as [|c cs IH]; [by apply keeps_ret|].
  eapply keeps_bind; [apply keeps_call|]. intros [] _. exact IH.
Qed.

(** C24: the identity tables stay well-typed: whatever sequence of session, signing-key
    and pre-login calls runs, and whichever statements fail, every stored session is
    under its own [ses-] id, refers to a stored signing key, has created < idle < absolute
    expiry and a 64-digit hexadecimal CSRF hash; every stored key is under its own
    [sk-] id, decrypts to 32 bytes and is not retired before its creation. *)
Theorem session_tables_wf (cs : list session_call) (w : World IdentityDB) :
  store_wf (w_db w) → store_wf (w_db (snd (run_calls cs w))).
Proof. intros Hw. by apply (keeps_calls cs). Qed.
End wf.

(** A database with no identities, for the witnesses. *)
Definition empty_identity : IdentityDB :=
  mkIdentityDB (mkAuthDB ∅ [] [] [] []) ∅ ∅ ∅ {["op-1"]} ∅ [].
Definition world_at (t : Z) (d : IdentityDB) : World IdentityDB := mkWorld d (mkEnv t [] [] 0).
Definition demo_service : Service := mkService true "t-default" DefaultConfig "".

Lemma session_tables_wf_witness :
  let w := snd (run_calls (E:=toy_entropy) (C:=toy_ciphers) id demo_service
                  [CEnsureInitialSigningKey; CCreate "alice" "User" "10.0.0.1" "ua"; CRotateSigningKey;
                   CGarbageCollect] (world_at 0 empty_identity)) in
  store_wf (C:=toy_ciphers) demo_service (w_db w) ∧
  size (id_sessions (w_db w)) = 1%nat ∧ size (id_keys (w_db w)) = 2%nat.
Proof.
  split; [|vm_compute; split; reflexivity].
  apply (session_tables_wf (E:=toy_entropy) (C:=toy_ciphers) id demo_service).
  split_and!; apply map_Forall_empty.
Defined.

(** ** What [Validate] accepts *)
Section accepts.
Context `{C : Ciphers}.
Variable ToLower : string → string.
Variable s : Service.

(** At time [t] and with the tables [d], the request is that of the live session [row]:
    the cookie names the row and a stored key that is active or within its retention,
    carries that key's MAC, the row is neither revoked nor expired, and the optional
    IP and User-Agent bindings hold. *)
Definition accepts (t : Z) (d : IdentityDB) (input : ValidateInput) (row : Session) : Prop :=
  ∃ sid kid key hmacKey,
    parseCookie (vi_CookieValue input) = Ok (sid, kid, computeHMAC sid kid hmacKey) ∧
    HasPrefix sid "ses-" = true ∧
    id_keys d !! kid = Some key ∧
    (∀ r, sk_RetiredAt key = Some r → t ≤ r + cfg_SigningKeyRetention (svc_cfg s)) ∧
    decryptKeyMaterial (sk_KeyMaterialEncrypted key) (svc_encryption s) = Ok hmacKey ∧
    id_sessions d !! sid = Some row ∧
    ses_RevokedAt row = None ∧
    t < ses_AbsoluteExpiresAt row ∧
    t < ses_LastSeenAt row + cfg_IdleTimeout (svc_cfg s) ∧
    (cfg_BindIP (svc_cfg s) = true → vi_ClientIP input ≠ "" → ses_IPAddress row ≠ "" →
       vi_ClientIP input = ses_IPAddress row) ∧
    (cfg_BindUserAgent (svc_cfg s) = true → vi_UserAgent input ≠ "" → ses_UserAgent row ≠ "" →
       vi_UserAgent input = ses_UserAgent row).

Lemma query_cases {D A} op (f : D → A) (w : World D) :
  ∃ w', w_db w' = w_db w ∧ env_ticks (w_env w') = env_ticks (w_env w) ∧ clock w' = clock w ∧
    (sql_query op f w = (Ok (f (w_db w)), w') ∧ (env_faults (w_env w) = [] → w' = w) ∨
     sql_query op f w = (Err (ErrMsg op), w') ∧ env_faults (w_env w) ≠ []).
Proof.
  exists (snd (sql_query op f w)).
  unfold sql_query, next_fault, mbind, M_bind, mret, M_ret, get_db, clock.
  destruct (env_faults (w_env w)) as [|[| |] fs]; cbn; split_and!;
    first [reflexivity | by left | by right].
Qed.

Lemma now_fst {D} (w w' : World D) :
  env_ticks (w_env w') = env_ticks (w_env w) → clock w' = clock w → fst (now w') = fst (now w).
Proof. unfold now, clock. intros -> H. rewrite H. by destruct (env_ticks _). Qed.

Lemma now_db {D} (w : World D) : w_db (snd (now w)) = w_db w.
Proof. unfold now. by destruct (env_ticks _). Qed.

Lemma now_faults {D} (w : World D) : env_faults (w_env (snd (now w))) = env_faults (w_env w).
Proof. unfold now. by destruct (env_ticks _). Qed.

(** The row checks accept exactly when the last five conditions hold. *)
Lemma check_row_exact t input row (w : World IdentityDB) r :
  fst (check_row ToLower s t input row w) = Ok r ↔
  r = row ∧ ses_RevokedAt row = None ∧ t < ses_AbsoluteExpiresAt row ∧
  t < ses_LastSeenAt row + cfg_IdleTimeout (svc_cfg s) ∧
  (cfg_BindIP (svc_cfg s) = true → vi_ClientIP input ≠ "" → ses_IPAddress row ≠ "" →
     vi_ClientIP input = ses_IPAddress row) ∧
  (cfg_BindUserAgent (svc_cfg s) = true → vi_UserAgent input ≠ "" → ses_UserAgent row ≠ "" →
     vi_UserAgent input = ses_UserAgent row).
Proof.
  unfold check_row. case_bool_decide as Hrev; cbn [negb]; [|split; [by intros [=]|by intros (_ & ? & _)]].
  destruct (Z.ltb_spec t (ses_AbsoluteExpiresAt row)); cbn [negb]; [|split; [by intros [=]|lia]].
  destruct (Z.ltb_spec t (ses_LastSeenAt row + cfg_IdleTimeout (svc_cfg s))); cbn [negb];
    [|split; [by intros [=]|lia]].
  destruct (cfg_BindIP _ && _ && _ && _) eqn:Ei.
  { unfold mbind, M_bind. destruct (recordAudit _ _ _ _ _ _ _ w). split; [by intros [=]|].
    rewrite !andb_true_iff, !negb_true_iff, !bool_decide_eq_false in Ei.
    destruct Ei as [[[? ?] ?] Hne]. intros (_ & _ & _ & _ & Hb & _). by destruct Hne; apply Hb. }
  destruct (cfg_BindUserAgent _ && _ && _ && _) eqn:Eu.
  { unfold mbind, M_bind. destruct (recordAudit _ _ _ _ _ _ _ w). split; [by intros [=]|].
    rewrite !andb_true_iff, !negb_true_iff, !bool_decide_eq_false in Eu.
    destruct Eu as [[[? ?] ?] Hne]. intros (_ & _ & _ & _ & _ & Hb). by destruct Hne; apply Hb. }
  apply not_true_iff_false in Ei, Eu.
  rewrite !andb_true_iff, !negb_true_iff, !bool_decide_eq_false in Ei, Eu.
  split; [intros [= <-]|by intros [-> _]].
  split_and!; try done; intros ? ? ?; apply dec_stable; intros ?; [by apply Ei|by apply Eu].
Qed.

Lemma validate_sound_complete (input : ValidateInput) (row : Session) (w : World IdentityDB) :
  (fst (Validate ToLower s input w) = Ok row → accepts (fst (now w)) (w_db w) input row) ∧
  (env_faults (w_env w) = [] → accepts (fst (now w)) (w_db w) input row →
   fst (Validate ToLower s input w) = Ok row).
Proof.
  unfold Validate, accepts.
  destruct (parseCookie (vi_CookieValue input)) as [[[sid kid] mac]|];
    [|split; [by intros [=]|by intros _ (? & ? & ? & ? & [=] & _)]].
  destruct (HasPrefix sid "ses-") eqn:Hp; cbn [negb].
  2: { split; [by intros [=]|]. intros _ (? & ? & ? & ? & [= <- <- _] & Hp' & _). congruence. }
  unfold KeyRepo.Get, SessionRepo.Get, mbind, M_bind.
  destruct (query_cases "session_signing_keys get" (λ d, id_keys d !! kid) w)
    as (w1 & Hd1 & Ht1 & Hc1 & [[-> Hf1] | [-> Hf1]]); [|split; [by intros [=]|done]].
  destruct (id_keys (w_db w) !! kid) as [key|] eqn:Ek; cbn.
  2: { split; [by intros [=]|]. intros _ (? & ? & ? & ? & [= <- <- _] & _ & Hk & _). congruence. }
  rewrite <-(now_fst w w1) by done.
  pose proof (now_db w1) as Hd2. pose proof (now_faults w1) as Hf2.
  destruct (now w1) as [t w2]. cbn in *.
  destruct (match sk_RetiredAt key with Some r => _ | None => false end) eqn:Er.
  { destruct (sk_RetiredAt key) as [z|] eqn:Ez; [|done]. apply Z.ltb_lt in Er.
    split; [by intros [=]|]. intros _ (? & ? & ? & ? & [= <- <- _] & _ & Hk & Hr & _).
    rewrite Ek in Hk. injection Hk as <-. specialize (Hr z Ez). lia. }
  destruct (decryptKeyMaterial _ _) as [hk|] eqn:Edk.
  2: { split; [by intros [=]|]. intros _ (? & ? & ? & ? & [= <- <- _] & _ & Hk & _ & Hdk & _).
       congruence. }
  unfold ConstantTimeCompare. case_bool_decide as Hmac; cbn [negb].
  2: { split; [by intros [=]|]. intros _ (? & ? & ? & ? & [= <- <- Hm] & _ & Hk & _ & Hdk & _).
       rewrite Ek in Hk. injection Hk as <-. congruence. }
  destruct (query_cases "sessions get" (λ d, id_sessions d !! sid) w2)
    as (w3 & Hd3 & _ & _ & [[-> Hf3] | [-> Hf3]]); cbn.
  2: { split; [by intros [=]|]. intros Hf. rewrite Hf2, (Hf1 Hf) in Hf3. done. }
  rewrite Hd2, Hd1. destruct (id_sessions (w_db w) !! sid) as [x|] eqn:Ex; cbn.
  2: { split; [by intros [=]|].
       intros _ (? & ? & ? & ? & [= <- <- _] & _ & _ & _ & _ & Hx & _). congruence. }
  rewrite check_row_exact. split.
  - intros (-> & Hrow). exists sid, kid, key, hk. split_and!; try apply Hrow; try done; [by subst|].
    intros r Hr. rewrite Hr in Er. apply Z.ltb_ge in Er. lia.
  - intros _ (? & ? & ? & ? & [= <- <- _] & _ & _ & _ & _ & Hx & Hrow).
    rewrite Ex in Hx. injection Hx as <-. by split.
Qed.

(** C15: [Validate] authenticates exactly the holders of a live session: whatever fails,
    a row is returned only for a request the tables accept at the time of the clock
    reading (authentic MAC under a stored key that is active or in retention, session
    neither revoked nor expired, bindings respected); and when no statement fails every
    such request is accepted. *)
Theorem validate_exact (input : ValidateInput) (row : Session) (w : World IdentityDB) :
  (fst (Validate ToLower s input w) = Ok row → accepts (fst (now w)) (w_db w) input row) ∧
  (env_faults (w_env w) = [] → accepts (fst (now w)) (w_db w) input row →
   fst (Validate ToLower s input w) = Ok row).
Proof. apply validate_sound_complete. Qed.
End accepts.
