(* ===== verification/SessionLife.v ===== *)
(** * The life of a session

    What [Create] hands out validates until the session expires; a revoked session stays
    out for good; rotation and garbage collection end no session early; a pre-login
    cookie works once. *)

From Stdlib Require Import ZArith Lia Ascii String.
From stdpp Require Import prelude gmap strings list sorting pretty.
From S2P Require Import Prelude AuditTrail Store Rbac GoBytes KeyCrypto Identity Session SessionFacts.
Import Cookies SessionService.

(** ** Stepping through an operation *)
Lemma exec_ok {D A} op (f : D → res A * D) (w : World D) a w' :
  sql_exec op f w = (Ok a, w') → fst (f (w_db w)) = Ok a ∧ w_db w' = snd (f (w_db w)).
Proof.
  unfold sql_exec, next_fault, mbind, M_bind, mret, M_ret, get_db, put_db.
  destruct (env_faults (w_env w)) as [|[| |] fs]; cbn; try by intros [=].
  all: destruct (f (w_db w)) as [r d]; cbn; by intros [= -> <-].
Qed.

Lemma query_ok {D A} op (f : D → A) (w : World D) a w' :
  sql_query op f w = (Ok a, w') → f (w_db w) = a ∧ w_db w' = w_db w.
Proof.
  destruct (query_cases op f w) as (w1 & H & _ & _ & [[-> _] | [-> _]]); [|by intros [=]].
  by intros [= -> <-].
Qed.

Lemma readRand_db `{Entropy} {D} n (w : World D) : w_db (snd (readRand n w)) = w_db w.
Proof. done. Qed.

Lemma newOpaqueID_ok `{EntropyOk} p (w : World IdentityDB) id w' :
  newOpaqueID p w = (Ok id, w') → opaque p id ∧ w_db w' = w_db w.
Proof.
  unfold newOpaqueID, mbind, M_bind. pose proof (readRand_db 16 w) as Hd.
  destruct (readRand 16 w) as [[b|] w1] eqn:Er; intros [= <- <-]. split; [|done].
  exists b. split; [|done]. by eapply readRand_ok.
Qed.

(** ** Tokens are not blank *)
Definition space_starts : list Z := [9; 10; 11; 12; 13; 32; 194; 225; 226; 227].

Lemma trim_left_none n v l : v ∉ space_starts → trim_left n (v :: l) = v :: l.
Proof.
  intros Hv. destruct n as [|n]; [done|]. cbn [trim_left].
  replace (list_find is_Some (flip strip_prefix (v :: l) <$> space_encodings)) with
    (@None (nat * option (list Z))); [done|].
  symmetry. apply list_find_None, Forall_fmap.
  assert (∀ x p, x ∈ space_starts → ¬ is_Some (strip_prefix (x :: p) (v :: l))) as Hx.
  { intros x p Hin. cbn. destruct (Z.eqb_spec x v) as [-> | ]; [done|]. by intros [? [=]]. }
  unfold space_encodings, compose, flip.
  repeat (constructor; [apply Hx; by apply (bool_decide_unpack _)|]). constructor.
Qed.

Lemma b64_not_blank c t : b64_char c = true → is_blank (String c t) = false.
Proof.
  intros Hc. apply bool_decide_eq_false.
  change (bytes_of (String c t)) with (byte_val c :: bytes_of t).
  enough (byte_val c ∉ space_starts) as Hn by (by rewrite trim_left_none).
  assert (∀ z, z ∈ space_starts → b64_char (byte_chr z) = false) as Hs.
  { apply Forall_forall. apply (bool_decide_unpack _). vm_compute. exact I. }
  intros Hin. apply Hs in Hin. rewrite byte_chr_val in Hin. congruence.
Qed.

Lemma csrf_token_not_blank b : len b = 32%nat → is_blank (b64_EncodeToString b) = false.
Proof.
  intros Hb. pose proof (b64_EncodeToString_chars b) as H.
  assert (b64_EncodeToString b ≠ "") as Hne.
  { intros He. pose proof (b64_roundtrip b) as Hr. rewrite He in Hr. injection Hr as <-. done. }
  destruct (b64_EncodeToString b) as [|c t]; [done|]. apply andb_true_iff in H as [Hc _].
  by apply b64_not_blank.
Qed.

(** ** Logging in *)
Section login.
Context `{EO : EntropyOk, CO : CiphersOk}.
Variable ToLower : string → string.
Variable s : Service.

Lemma inserted_id x : ses_RevokedAt x = None → SessionRepo.inserted x = x.
Proof. destruct x; cbn. by intros ->. Qed.

(** What a successful [Create] did. *)
Lemma Create_inv a ty ip ua (w w1 : World IdentityDB) r :
  Create s a ty ip ua w = (Ok r, w1) →
  ∃ kid k hk b t tenant,
    id_keys (w_db w) !! kid = Some k ∧ sk_RetiredAt k = None ∧
    decryptKeyMaterial (sk_KeyMaterialEncrypted k) (svc_encryption s) = Ok hk ∧
    opaque "ses-" (ses_ID (cr_Session r)) ∧ len b = 32%nat ∧
    cr_CSRFToken r = b64_EncodeToString b ∧
    cr_Session r = ses_with_tenant tenant
      (new_session s (ses_ID (cr_Session r)) a ty (sk_ID k) (cr_CSRFToken r) ip ua t) ∧
    SessionRepo.session_checks (cr_Session r) = true ∧
    cr_CookieValue r = signCookie (ses_ID (cr_Session r)) (sk_ID k) hk ∧
    w_db w1 = set_sessions (<[ses_ID (cr_Session r) := cr_Session r]>) (w_db w).
Proof.
  unfold Create. destruct (is_blank a); [by intros [=]|]. destruct (is_blank ty); [by intros [=]|].
  unfold KeyRepo.GetActive, mbind, M_bind.
  destruct (sql_query _ _ w) as [[[k|]|] w2] eqn:Eq; try by intros [=].
  apply query_ok in Eq as [Hk Hd2]. apply active_key_spec in Hk as ((kid & Hkid) & _ & Hret). cbn.
  destruct (decryptKeyMaterial _ _) as [hk|] eqn:Ed; [|by intros [=]].
  destruct (newOpaqueID "ses-" w2) as [[sid|] w3] eqn:Eid; [|by intros [=]].
  apply newOpaqueID_ok in Eid as [Hop Hd3]. unfold newCSRFToken, mbind, M_bind.
  pose proof (readRand_db 32 w3) as Hd4.
  destruct (readRand 32 w3) as [[b|] w4] eqn:Er; [|by intros [=]]. apply readRand_ok in Er. cbn in *.
  pose proof (now_db w4) as Hd5. destruct (now w4) as [t w5]. cbn in *.
  destruct (Session_Validate _) as [row|] eqn:Ev; [|by intros [=]].
  destruct (SessionRepo.Create row w5) as [[[]|] w6] eqn:Ec; [|by intros [=]]. intros [= <- <-]. cbn.
  apply Session_Validate_row in Ev.
  assert (ses_RevokedAt row = None ∧ ses_ID row = sid) as [Hrev Hsid] by (by destruct Ev as [-> | ->]).
  unfold SessionRepo.Create in Ec. apply exec_ok in Ec as [Ec1 Ec2].
  destruct (SessionRepo.session_checks row) eqn:Eck; [|done]. cbn [negb] in *.
  repeat (case_bool_decide; [done|]). cbn in Ec2. rewrite inserted_id in Ec2 by done.
  assert (ses_SigningKeyID row = sk_ID k) as -> by (by destruct Ev as [-> | ->]).
  exists kid, k, hk, b, t, (ses_TenantID row). split_and!; try done.
  - by rewrite Hsid.
  - by destruct Ev as [-> | ->].
  - by rewrite Ec2, Hd5, Hd4, Hd3, Hd2.
Qed.

(** A cookie minted for opaque ids parses back. *)
Lemma minted_cookie_parses p sid kid hk :
  dot_free p → p ≠ "" → (len p ≤ 32)%nat → opaque p sid → opaque "sk-" kid →
  parseCookie (signCookie sid kid hk) = Ok (sid, kid, computeHMAC sid kid hk).
Proof.
  intros Hp Hne Hlp Hs Hk. apply opaque_spec in Hs as (Hs1 & Hs2 & Hs3); [|done].
  apply opaque_spec in Hk as (Hk1 & Hk2 & Hk3); [|done].
  assert (64 ≤ maxCookieSegmentLen)%nat as Hmax by (unfold maxCookieSegmentLen; lia).
  change (len "sk-") with 3%nat in Hk3.
  apply parse_signed; try done; try lia. by eapply HasPrefix_nonempty.
Qed.

(** logging in works until the idle deadline: after [Create] succeeds, the row it
    returns is stored, the CSRF token it returns is accepted for that row, and the cookie
    it returns is validated to that row at any later time exactly until the idle
    deadline of the row (as long as nothing else touches the tables). *)
Theorem created_session_validates a ty ip ua (w w1 : World IdentityDB) r :
  store_wf s (w_db w) → Create s a ty ip ua w = (Ok r, w1) →
  id_sessions (w_db w1) !! ses_ID (cr_Session r) = Some (cr_Session r) ∧
  ValidateCSRF (cr_CSRFToken r) (Some (cr_Session r)) = Ok tt ∧
  ∀ w2, w_db w2 = w_db w1 → env_faults (w_env w2) = [] →
    (fst (Validate ToLower s (mkValidateInput (cr_CookieValue r) ip ua) w2) = Ok (cr_Session r) ↔
     fst (now w2) < ses_IdleExpiresAt (cr_Session r)).
Proof.
  intros Hwf Hc. destruct (Create_inv _ _ _ _ _ _ _ Hc)
    as (kid & k & hk & b & t & te & Hk & Hret & Hdk & Hop & Hb & Htok & Hrow & Hck & Hcookie & Hdb).
  destruct Hwf as (Hkeys & _ & _). destruct (Hkeys _ _ Hk) as (Hid & Hkop & _ & _). subst kid.
  set (sid := ses_ID (cr_Session r)) in *.
  assert (id_sessions (w_db w1) !! sid = Some (cr_Session r)) as Hstored
    by (rewrite Hdb; apply lookup_insert_eq).
  split_and!; [done| |].
  - assert (ses_CSRFTokenHash (cr_Session r) = hashCSRFToken (cr_CSRFToken r)) as Hh
      by (rewrite Hrow at 1; done).
    unfold ValidateCSRF, ConstantTimeCompare. rewrite Hh.
    rewrite (bool_decide_eq_true_2 (hashCSRFToken _ = hashCSRFToken _)) by done.
    rewrite bool_decide_eq_false_2; [by rewrite Htok, csrf_token_not_blank|].
    intros He. destruct (hashCSRFToken_spec (cr_CSRFToken r)) as [Hl _]. by rewrite He in Hl.
  - intros w2 Hd2 Hf2.
    apply andb_true_iff in Hck as [Hlt%Z.ltb_lt _].
    assert (ses_LastSeenAt (cr_Session r) + cfg_IdleTimeout (svc_cfg s) = ses_IdleExpiresAt (cr_Session r))
      as Hidle by (by rewrite Hrow).
    rewrite <-Hidle in *.
    destruct (validate_sound_complete ToLower s (mkValidateInput (cr_CookieValue r) ip ua)
                (cr_Session r) w2) as [H1 H2].
    split.
    + intros H. apply H1 in H as (? & ? & ? & ? & _ & _ & _ & _ & _ & _ & _ & _ & Hi & _). done.
    + intros Ht. apply H2; [done|]. exists sid, (sk_ID k), k, hk.
      rewrite Hd2, Hdb. split_and!; try done.
      * cbn. rewrite Hcookie. apply (minted_cookie_parses "ses-"); try done. cbn; lia.
      * by apply opaque_spec in Hop as (_ & ? & _).
      * intros x. by rewrite Hret.
      * apply lookup_insert_eq.
      * by rewrite Hrow.
      * lia.
      * intros _ _ _. by rewrite Hrow.
      * intros _ _ _. by rewrite Hrow.
Qed.
End login.

(** The world after the signing key has been bootstrapped, and one login. *)
Definition booted : World IdentityDB :=
  snd (run_calls (E:=toy_entropy) (C:=toy_ciphers) id demo_service [CEnsureInitialSigningKey]
         (world_at 0 empty_identity)).
Definition demo_login : res CreateResult * World IdentityDB :=
  Create (E:=toy_entropy) (C:=toy_ciphers) demo_service "alice" "User" "10.0.0.1" "ua" booted.
Definition demo_result : CreateResult :=
  match fst demo_login with
  | Ok r => r
  | Err _ => mkCreateResult (mkSession "" "" "" "" false "" 0 0 0 0 "" "" None "") "" ""
  end.

Lemma booted_wf : store_wf (C:=toy_ciphers) demo_service (w_db booted).
Proof.
  apply (keeps_calls (E:=toy_entropy) (C:=toy_ciphers) id demo_service).
  split_and!; apply map_Forall_empty.
Qed.

Lemma demo_login_ok : demo_login = (Ok demo_result, snd demo_login).
Proof. vm_compute. reflexivity. Qed.

Lemma created_session_validates_witness :
  store_wf (C:=toy_ciphers) demo_service (w_db booted) ∧
  fst (Validate (C:=toy_ciphers) id demo_service
         (mkValidateInput (cr_CookieValue demo_result) "10.0.0.1" "ua")
         (world_at (1800 * second) (w_db (snd demo_login)))) = Ok (cr_Session demo_result).
Proof.
  split; [exact booted_wf|].
  destruct (created_session_validates (E:=toy_entropy) (C:=toy_ciphers) id demo_service
              "alice" "User" "10.0.0.1" "ua" booted (snd demo_login) demo_result booted_wf demo_login_ok)
    as (_ & _ & H).
  apply H; [reflexivity|reflexivity|]. vm_compute. reflexivity.
Defined.

(** ** Revocation *)
Section revoked.
Context `{EO : EntropyOk, CO : CiphersOk}.
Variable ToLower : string → string.
Variable s : Service.

Definition counter (w : World IdentityDB) : N := env_counter (w_env w).

(** [id] was drawn from the random source between two worlds. *)
Definition drawn (w w' : World IdentityDB) (id : string) : Prop :=
  ∃ k b, (counter w < k ≤ counter w')%N ∧ entropy k 16 = Some b ∧ id = "ses-" +:+ b64_EncodeToString b.

(** Every session present afterwards was there before and has not lost its revocation,
    or carries an id drawn in between. *)
Definition evolves (w w' : World IdentityDB) : Prop :=
  (counter w ≤ counter w')%N ∧
  ∀ id x', id_sessions (w_db w') !! id = Some x' →
    (∃ x, id_sessions (w_db w) !! id = Some x ∧ (ses_RevokedAt x ≠ None → ses_RevokedAt x' ≠ None)) ∨
    drawn w w' id.

#[local] Instance evolves_preorder : PreOrder evolves.
Proof.
  split.
  - intros w. split; [lia|]. eauto.
  - intros w1 w2 w3 [H1 H2] [H3 H4]. split; [lia|]. intros id x3 Hx3.
    destruct (H4 _ _ Hx3) as [(x2 & Hx2 & Hr2) | (k & b & Hk & Hb)].
    + destruct (H2 _ _ Hx2) as [(x1 & Hx1 & Hr1) | (k & b & Hk & Hb)].
      * left. exists x1. auto.
      * right. exists k, b. split; [lia|done].
    + right. exists k, b. split; [lia|done].
Qed.

Lemma evolves_same w w' :
  id_sessions (w_db w') = id_sessions (w_db w) → (counter w ≤ counter w')%N → evolves w w'.
Proof. intros Hs Hc. split; [done|]. intros id x Hx. rewrite Hs in Hx. eauto. Qed.

#[local] Instance evolves_steady : Steady evolves.
Proof. intros w w' Hd (_ & Hc & _). apply evolves_same; [by rewrite Hd|done]. Qed.

Lemma wpres_recordAudit a b c r d : wpres evolves (recordAudit ToLower s a b c r d).
Proof.
  unfold recordAudit, RecordEventWithCategory, generateID, AuditRepository_Create.
  repeat wstep. repeat case_match; by apply evolves_same.
Qed.

Lemma evolves_sub d e f :
  (∀ id x', f (id_sessions d) !! id = Some x' →
     ∃ x, id_sessions d !! id = Some x ∧ (ses_RevokedAt x ≠ None → ses_RevokedAt x' ≠ None)) →
  evolves (mkWorld d e) (mkWorld (set_sessions f d) e).
Proof. intros H. split; [done|]. intros id x' Hx. left. by apply H. Qed.

Lemma evolves_insert d e id x y :
  id_sessions d !! id = Some x → (ses_RevokedAt x ≠ None → ses_RevokedAt y ≠ None) →
  evolves (mkWorld d e) (mkWorld (set_sessions (<[id := y]>) d) e).
Proof.
  intros Hx Hr. apply evolves_sub. intros id' x' [[<- <-] | [Hne H]]%lookup_insert_Some; eauto.
Qed.

Lemma wpres_update_session op id f :
  (∀ x, ses_RevokedAt (f x) = ses_RevokedAt x) → wpres evolves (SessionRepo.update_session op id f).
Proof.
  intros Hf. unfold SessionRepo.update_session. wstep.
  destruct (id_sessions d !! id) as [x|] eqn:Ex; [|reflexivity].
  eapply evolves_insert; [done|]. by rewrite Hf.
Qed.

Lemma wpres_SessionRevoke id : wpres evolves (SessionRepo.Revoke id).
Proof.
  unfold SessionRepo.Revoke. repeat wstep. destruct (id_sessions d !! id) as [x|] eqn:Ex; [|reflexivity].
  case_bool_decide; [|reflexivity]. by eapply evolves_insert.
Qed.

Lemma evolves_revoke_where p t d e :
  evolves (mkWorld d e) (mkWorld (set_sessions (SessionRepo.revoke_where p t) d) e).
Proof.
  apply evolves_sub. intros id x'. unfold SessionRepo.revoke_where. rewrite lookup_fmap.
  destruct (id_sessions d !! id) as [x|]; intros [= <-]. exists x. split; [done|].
  by destruct (p x).
Qed.

(** The id of a stored session is one [newOpaqueID] drew. *)
Lemma newOpaqueID_drawn p w id w' :
  newOpaqueID p w = (Ok id, w') →
  ∃ b, entropy (counter w + 1)%N 16 = Some b ∧ id = p +:+ b64_EncodeToString b ∧
       counter w' = (counter w + 1)%N ∧ w_db w' = w_db w.
Proof.
  unfold newOpaqueID, mbind, M_bind, readRand. mrun. fold (counter w).
  destruct (entropy (counter w + 1)%N 16) as [b|] eqn:Eb; intros [= <- <-]. eauto.
Qed.

Lemma wpres_newOpaqueID p : wpres evolves (newOpaqueID p).
Proof. unfold newOpaqueID. repeat wstep. Qed.

(** From a world where [id] has just been drawn, inserting it evolves the earlier one. *)
Lemma evolves_create w0 w1 row :
  (counter w0 ≤ counter w1)%N → evolves w0 w1 → drawn w0 w1 (ses_ID row) →
  evolves w0 (snd (SessionRepo.Create row w1)).
Proof.
  intros Hc He Hd. unfold SessionRepo.Create.
  set (f := λ d : IdentityDB, _).
  assert (∀ e, env_counter e = env_counter (w_env w1) → evolves w0 (mkWorld (w_db w1) e) ∧
            evolves w0 (mkWorld (snd (f (w_db w1))) e)) as Hw.
  { intros e Hee. assert (evolves w0 (mkWorld (w_db w1) e)) as H1.
    { etransitivity; [exact He|]. apply evolves_same; [done|]. unfold counter. cbn. lia. }
    split; [done|]. unfold f. destruct (negb _); [done|]. case_bool_decide; [done|].
    case_bool_decide; [done|]. destruct H1 as [H1 H2]. split; [done|].
    intros id x' Hx. cbn in Hx. apply lookup_insert_Some in Hx as [[<- <-] | [Hne Hx]]; [|by apply H2].
    right. destruct Hd as (k & b & Hk & Hb). exists k, b. split; [|done]. unfold counter in *. cbn. lia. }
  unfold sql_exec, next_fault, mbind, M_bind, mret, M_ret, get_db, put_db.
  destruct (env_faults (w_env w1)) as [|[| |] fs].
  - specialize (Hw (w_env w1) eq_refl) as [_ Hw]. destruct (f (w_db w1)). exact Hw.
  - cbn. match goal with |- context [mkWorld _ ?e] => specialize (Hw e eq_refl) as [_ Hw] end.
    destruct (f (w_db w1)). exact Hw.
  - by apply Hw.
  - by apply Hw.
Qed.

Lemma wpres_Create a ty ip ua : wpres evolves (Create s a ty ip ua).
Proof.
  unfold Create, KeyRepo.GetActive. do 2 (wstep; [wstep|]). wstep; [repeat wstep|].
  destruct a0 as [k|]; [|wstep]. wstep; [|wstep]. intros w.
  unfold mbind at 1, M_bind at 1. pose proof (wpres_newOpaqueID "ses-" w) as H1.
  destruct (newOpaqueID "ses-" w) as [[sid|] w1] eqn:Eid; [|exact H1].
  apply newOpaqueID_drawn in Eid as (b & Hb & Hsid & Hc1 & _).
  unfold mbind at 1, M_bind at 1. assert (wpres evolves newCSRFToken) as H2 by (unfold newCSRFToken; repeat wstep).
  specialize (H2 w1). destruct (newCSRFToken w1) as [[tok|] w2]; cbn in H1, H2; [|by etransitivity].
  unfold mbind at 1, M_bind at 1. pose proof (wpres_now evolves w2) as H3. destruct (now w2) as [t w3]. cbn in H3.
  assert (evolves w w3) as H4 by (etransitivity; [exact H1|]; by etransitivity).
  destruct (Session_Validate _) as [row|] eqn:Ev; [|exact H4].
  assert (ses_ID row = sid) as Hrow by (apply Session_Validate_row in Ev as [-> | ->]; done).
  unfold mbind, M_bind.
  pose proof (evolves_create w w3 row) as H5.
  destruct (SessionRepo.Create row w3) as [[[]|] w4]; cbn in *; apply H5; try done; try apply H4.
  all: exists (counter w + 1)%N, b; rewrite Hrow; split; [|done].
  all: destruct H2 as [H2 _], H3 as [H3 _]; lia.
Qed.

Ltac wsolve :=
  repeat first
    [ wstep
    | apply wpres_recordAudit
    | apply wpres_newOpaqueID
    | by apply wpres_update_session
    | apply wpres_SessionRevoke
    | apply evolves_revoke_where
    | reflexivity
    | by apply evolves_same
    | progress case_match ].

Lemma wpres_RotateCSRFToken id : wpres evolves (RotateCSRFToken ToLower s id).
Proof. unfold RotateCSRFToken, newCSRFToken, SessionRepo.UpdateCSRFTokenHash. wsolve. Qed.

Lemma wpres_rotate_rows t l n : wpres evolves (rotate_rows ToLower s t l n).
Proof.
  revert n. induction l as [|x l IH]; intros n; cbn; [wstep|].
  case_match; [done|]. case_match; [done|]. wstep; [apply wpres_RotateCSRFToken|apply IH].
Qed.

Lemma wpres_EncryptIfKeySet p pass : wpres evolves (EncryptIfKeySet p pass).
Proof. unfold EncryptIfKeySet, Encrypt. wsolve. Qed.

Lemma wpres_insert_key k t : wpres evolves (KeyRepo.insert_key k t).
Proof. unfold KeyRepo.insert_key. wsolve. Qed.

Lemma wpres_mint_key wrap : wpres evolves (mint_key s wrap).
Proof.
  unfold mint_key, newKeyMaterial, encryptKeyMaterial, KeyRepo.Add.
  repeat first [wstep | apply wpres_newOpaqueID | apply wpres_EncryptIfKeySet | apply wpres_insert_key].
Qed.

Lemma wpres_sweep_keys t l : wpres evolves (sweep_keys s t l).
Proof.
  induction l as [|k l IH]; cbn; [wstep|]. case_match; [|done]. case_match; [done|].
  wstep; [unfold KeyRepo.Delete; wsolve|]. case_match; [done|]. case_match; [done|wstep].
Qed.

Lemma wpres_gc_expired t d e :
  evolves (mkWorld d e)
    (mkWorld (set_sessions (filter (λ kv, SessionRepo.gc_expired t kv.2 = false)) d) e).
Proof. apply evolves_sub. intros id x [Hx _]%map_lookup_filter_Some. eauto. Qed.

Lemma wpres_delete id d e : evolves (mkWorld d e) (mkWorld (set_sessions (delete id) d) e).
Proof. apply evolves_sub. intros id' x [_ Hx]%lookup_delete_Some. eauto. Qed.

Lemma wpres_insert_prelogin row : wpres evolves (PreLogin.insert_prelogin row).
Proof. unfold PreLogin.insert_prelogin. wstep. repeat case_match; by apply evolves_same. Qed.

Lemma wpres_CreatePreLogin te enc p st n v i u :
  wpres evolves (PreLogin.CreatePreLogin te enc p st n v i u).
Proof.
  unfold PreLogin.CreatePreLogin, KeyRepo.GetActive, PreLogin.newID, PreLogin.PreLoginRepository_Create.
  repeat first [wstep | simple apply wpres_EncryptIfKeySet | simple apply wpres_insert_prelogin].
Qed.

Lemma wpres_call c : wpres evolves (run_call ToLower s c).
Proof.
  destruct c; unfold run_call, void; (wstep; [|wstep]).
  - apply wpres_Create.
  - unfold Validate, check_row, KeyRepo.Get, SessionRepo.Get. wsolve.
  - unfold UpdateLastSeen, SessionRepo.UpdateLastSeen. wsolve.
  - unfold Revoke. wsolve.
  - unfold RevokeAllForActor, SessionRepo.RevokeAllForActor. wsolve.
  - unfold SessionRepo.RevokeAllExceptForActor. wsolve.
  - apply wpres_RotateCSRFToken.
  - unfold RotateCSRFTokenForActor, SessionRepo.ListByActor.
    repeat first [wstep | apply wpres_rotate_rows].
  - unfold RotateSigningKey, KeyRepo.GetActive, KeyRepo.Retire.
    repeat first [apply wpres_mint_key | progress wsolve].
  - unfold EnsureInitialSigningKey, KeyRepo.GetActive.
    repeat first [apply wpres_mint_key | progress wsolve].
  - unfold GarbageCollect, SessionRepo.GarbageCollectExpired, KeyRepo.List.
    repeat first [apply wpres_sweep_keys | apply wpres_gc_expired | wstep].
  - unfold SessionRepo.Delete. wstep. case_match; [apply wpres_delete|reflexivity].
  - apply wpres_CreatePreLogin.
  - unfold PreLogin.LookupAndConsume, KeyRepo.Get, PreLogin.PreLoginRepository_LookupAndConsume.
    wsolve.
  - unfold PreLogin.PreLoginRepository_GarbageCollectExpired. wsolve.
Qed.

Lemma wpres_calls cs : wpres evolves (run_calls ToLower s cs).
Proof.
  induction cs as [|c cs IH]; cbn; [wstep|]. wstep; [apply wpres_call|exact IH].
Qed.

(** No stored session under [id], or a revoked one. *)
Definition out (id : string) (w : World IdentityDB) : Prop :=
  ∀ x, id_sessions (w_db w) !! id = Some x → ses_RevokedAt x ≠ None.

Lemma out_evolves id w w' :
  evolves w w' → ¬ drawn w w' id → out id w → out id w'.
Proof.
  intros [_ He] Hd Ho x' Hx'. destruct (He _ _ Hx') as [(x & Hx & Hr) | ?]; [|done].
  by apply Hr, Ho.
Qed.

Lemma recordAudit_sessions a b c r d w :
  id_sessions (w_db (snd (recordAudit ToLower s a b c r d w))) = id_sessions (w_db w).
Proof.
  revert w. change (pres (λ d d', id_sessions d' = id_sessions d) (recordAudit ToLower s a b c r d)).
  assert (PreOrder (λ d d' : IdentityDB, id_sessions d' = id_sessions d))
    by (split; [by intros ?|intros ? ? ? H1 H2; congruence]).
  unfold recordAudit. destruct (svc_audit s); [|pres_step]. pres_step; [|pres_step].
  by apply pres_RecordEventWithCategory.
Qed.

Lemma out_Revoke id w w' : Revoke ToLower s id w = (Ok tt, w') → out id w'.
Proof.
  unfold Revoke, SessionRepo.Revoke, mbind, M_bind. destruct (now w) as [t w1].
  destruct (sql_exec _ _ w1) as [[n|] w2] eqn:Ee; [|by intros [=]]. apply exec_ok in Ee as [E1 E2].
  assert (out id w2 ∨ n = 0%nat ∧ w_db w2 = w_db w1 ∧ ∀ x, id_sessions (w_db w1) !! id = Some x →
            ses_RevokedAt x ≠ None) as Hcase.
  { destruct (id_sessions (w_db w1) !! id) as [x|] eqn:Ex; [case_bool_decide|]; cbn in *.
    - left. intros y. rewrite E2. cbn. rewrite lookup_insert_eq. by intros [= <-].
    - right. split_and!; [congruence|done|]. by intros y [= <-].
    - right. split_and!; [congruence|done|]. done. }
  intros H. assert (∃ w3, out id w3 ∧ w' = snd (recordAudit ToLower s "auth.session_revoked" "system"
    ActorTypeSystem id [("session_id", GStr id)] w3)) as (w3 & Ho & ->).
  { destruct n as [|n].
    - destruct (sql_query _ _ w2) as [[[]|] w3] eqn:Eq; try (by cbn in H).
      apply query_ok in Eq as [_ Hd3]. exists w3.
      cbn -[recordAudit] in H. destruct (recordAudit _ _ _ _ _ _ _ w3). injection H as <-. split; [|done].
      intros x Hx. rewrite Hd3 in Hx. destruct Hcase as [Hc | (_ & Hc & Hr)]; [by apply Hc|].
      apply Hr. by rewrite <-Hc.
    - exists w2. cbn -[recordAudit] in H. destruct (recordAudit _ _ _ _ _ _ _ w2). injection H as <-. split; [|done].
      by destruct Hcase as [? | [[=] _]]. }
  intros x Hx. rewrite recordAudit_sessions in Hx. by apply Ho.
Qed.

Lemma out_RevokeAllForActor a ty w w' id x :
  RevokeAllForActor ToLower s a ty w = (Ok tt, w') →
  id_sessions (w_db w) !! id = Some x →
  SessionRepo.of_actor a ty (svc_tenantID s) x = true → out id w'.
Proof.
  unfold RevokeAllForActor, SessionRepo.RevokeAllForActor, mbind, M_bind.
  pose proof (now_db w) as Hd. destruct (now w) as [t w1]. cbn in Hd.
  destruct (sql_exec _ _ w1) as [[[]|] w2] eqn:Ee; [|by intros [=]].
  apply exec_ok in Ee as [_ E2]. cbn in E2. intros H Hx Ha y Hy.
  replace w' with (snd (recordAudit ToLower s "auth.sessions_revoked_for_actor" a ty a
    [("actor_id", GStr a); ("actor_type", GStr ty)] w2)) in Hy
    by (cbn -[recordAudit] in H; destruct (recordAudit _ _ _ _ _ _ _ w2); by injection H as <-).
  rewrite recordAudit_sessions, E2 in Hy. cbn in Hy.
  unfold SessionRepo.revoke_where in Hy. rewrite lookup_fmap, Hd, Hx in Hy. injection Hy as <-.
  unfold SessionRepo.live_of_actor. rewrite Ha. cbn. by case_bool_decide.
Qed.

Lemma not_accepted_out sid kid mac input row w :
  out sid w → parseCookie (vi_CookieValue input) = Ok (sid, kid, mac) →
  fst (Validate ToLower s input w) ≠ Ok row.
Proof.
  intros Ho Hp Hv. apply validate_sound_complete in Hv
    as (? & ? & ? & ? & Hp' & _ & _ & _ & _ & Hx & Hr & _).
  rewrite Hp in Hp'. injection Hp' as <- <- _. by apply Ho in Hx.
Qed.

(** C5: a revoked session stays out: after [Revoke] of a session, or [RevokeAllForActor]
    of its actor, has returned without error, no later sequence of session calls, with
    any statements failing, makes [Validate] accept a cookie of that session, unless the
    random source draws its 128-bit id once more. *)
Theorem revoked_stays_out sid kid mac (w w1 : World IdentityDB) (cs : list session_call) input row :
  Revoke ToLower s sid w = (Ok tt, w1) ∨
  (∃ a ty x, RevokeAllForActor ToLower s a ty w = (Ok tt, w1) ∧
     id_sessions (w_db w) !! sid = Some x ∧ SessionRepo.of_actor a ty (svc_tenantID s) x = true) →
  ¬ drawn w1 (snd (run_calls ToLower s cs w1)) sid →
  parseCookie (vi_CookieValue input) = Ok (sid, kid, mac) →
  fst (Validate ToLower s input (snd (run_calls ToLower s cs w1))) ≠ Ok row.
Proof.
  intros Hr Hd Hp. apply (not_accepted_out sid kid mac); [|done].
  eapply out_evolves; [apply wpres_calls|done|].
  destruct Hr as [Hr | (a & ty & x & Hr & Hx & Ha)]; [by eapply out_Revoke|].
  by eapply out_RevokeAllForActor.
Qed.
End revoked.

Definition demo_sid : string := ses_ID (cr_Session demo_result).
Definition demo_revoked : World IdentityDB :=
  snd (Revoke id demo_service demo_sid (snd demo_login)).

Lemma revoked_stays_out_witness :
  Revoke id demo_service demo_sid (snd demo_login) = (Ok tt, demo_revoked) ∧
  fst (Validate (C:=toy_ciphers) id demo_service
         (mkValidateInput (cr_CookieValue demo_result) "10.0.0.1" "ua")
         (snd (run_calls (E:=toy_entropy) (C:=toy_ciphers) id demo_service
                 [CUpdateLastSeen demo_sid; CGarbageCollect] demo_revoked)))
  ≠ Ok (cr_Session demo_result).
Proof.
  assert (Revoke id demo_service demo_sid (snd demo_login) = (Ok tt, demo_revoked)) as Hr
    by (vm_compute; reflexivity).
  split; [exact Hr|].
  apply (revoked_stays_out (E:=toy_entropy) (C:=toy_ciphers) id demo_service demo_sid
           (ses_SigningKeyID (cr_Session demo_result))
           (match parseCookie (cr_CookieValue demo_result) with Ok (_, _, m) => m | Err _ => "" end)
           (snd demo_login)).
  - left. exact Hr.
  - intros (k & b & [H1 H2] & _).
    assert (counter demo_revoked = 6%N) as E1 by (vm_compute; reflexivity).
    assert (counter (snd (run_calls (E:=toy_entropy) (C:=toy_ciphers) id demo_service
              [CUpdateLastSeen demo_sid; CGarbageCollect] demo_revoked)) = 6%N) as E2
      by (vm_compute; reflexivity).
    rewrite E1 in H1. rewrite E2 in H2. lia.
  - vm_compute. reflexivity.
Defined.

(** ** Maintenance *)
Section maintenance.
Context `{E : Entropy, C : Ciphers}.
Variable ToLower : string → string.
Variable s : Service.
Variables c0 t : Z.
Hypothesis Hretention : t ≤ c0 + cfg_SigningKeyRetention (svc_cfg s).

(** Whoever is accepted at [t] before is accepted at [t] afterwards, provided [t] is not
    in the past. *)
Definition undisturbed (w w' : World IdentityDB) : Prop :=
  clock w ≤ clock w' ∧
  (clock w' ≤ t → ∀ input row, accepts s t (w_db w) input row → ses_IsPreLogin row = false →
     accepts s t (w_db w') input row).

#[local] Instance undisturbed_trans : Transitive undisturbed.
Proof.
  intros w1 w2 w3 [H1 H2] [H3 H4]. split; [lia|]. intros Ht input row Ha Hp.
  apply H4; [done| |done]. apply H2; [lia|done|done].
Qed.

#[local] Instance undisturbed_env : EnvClosed undisturbed.
Proof. intros w w' Hd Hc. split; [done|]. intros _ input row. by rewrite Hd. Qed.

(** A change of the keys that keeps each key's material, and at most retires it recently
    enough, disturbs nobody. *)
Lemma undisturbed_keys f (w : World IdentityDB) e :
  env_clock e = clock w →
  (clock w ≤ t → ∀ id k, id_keys (w_db w) !! id = Some k →
     (∀ r, sk_RetiredAt k = Some r → t ≤ r + cfg_SigningKeyRetention (svc_cfg s)) →
     ∃ k', f (id_keys (w_db w)) !! id = Some k' ∧
       sk_KeyMaterialEncrypted k' = sk_KeyMaterialEncrypted k ∧
       (∀ r, sk_RetiredAt k' = Some r → t ≤ r + cfg_SigningKeyRetention (svc_cfg s))) →
  undisturbed w (mkWorld (set_keys f (w_db w)) e).
Proof.
  intros He Hf. unfold undisturbed, clock in *. cbn. split; [lia|]. rewrite He.
  intros Ht input row (sid & kid & k & hk & H1 & H2 & H3 & H4 & H5 & H6) _.
  destruct (Hf Ht kid k H3 H4) as (k' & Hk' & Hm & Hr).
  exists sid, kid, k', hk. rewrite Hm. by split_and!; try apply H6.
Qed.

Lemma undisturbed_same (w : World IdentityDB) d e :
  env_clock e = clock w → id_keys d = id_keys (w_db w) → id_sessions d = id_sessions (w_db w) →
  undisturbed w (mkWorld d e).
Proof.
  intros He Hk Hs. unfold undisturbed, clock in *. cbn. split; [lia|].
  intros _ input row (sid & kid & k & hk & H) _. exists sid, kid, k, hk. by rewrite Hk, Hs.
Qed.

Lemma since_recordAudit c a b ty r d : since c undisturbed (recordAudit ToLower s a b ty r d).
Proof.
  unfold recordAudit. destruct (svc_audit s); [|apply since_ret; apply _].
  apply since_bind; [apply _| |intros; apply since_ret; apply _].
  unfold RecordEventWithCategory, generateID, AuditRepository_Create.
  repeat first [since_step | apply since_exec; [apply _|]; intros w e _ He; repeat case_match;
                by apply undisturbed_same ].
  all: try (apply since_free; [apply _|]; intros w; split; [done|unfold clock; cbn; lia]).
Qed.

Lemma since_insert_key c k t' : since c undisturbed (KeyRepo.insert_key k t').
Proof.
  unfold KeyRepo.insert_key. apply since_exec; [apply _|]. intros w e _ He.
  destruct (id_keys (w_db w) !! sk_ID k) eqn:Ek; [by apply undisturbed_same|].
  apply undisturbed_keys; [done|]. intros _ id k0 Hk0 Hr. exists k0.
  rewrite lookup_insert_ne by congruence. done.
Qed.

Lemma since_Retire c id : c0 ≤ c → since c undisturbed (KeyRepo.Retire id).
Proof.
  intros Hc. unfold KeyRepo.Retire. apply since_now; [apply _|apply _|]. intros tr Htr.
  apply since_bind; [apply _| |].
  - apply since_exec; [apply _|]. intros w e _ He.
    destruct (id_keys (w_db w) !! id) as [k|] eqn:Ek; [|by apply undisturbed_same].
    case_bool_decide; [|by apply undisturbed_same]. cbn [negb].
    destruct (tr <? sk_CreatedAt k); [by apply undisturbed_same|].
    apply undisturbed_keys; [done|]. intros _ id' k0 Hk0 Hr.
    destruct (decide (id = id')) as [<- | Hne].
    + exists (KeyRepo.sk_retire tr k). rewrite lookup_insert_eq. rewrite Ek in Hk0. injection Hk0 as <-.
      split_and!; [done|done|]. intros r [= <-]. lia.
    + exists k0. by rewrite lookup_insert_ne.
  - intros [[|n]|]; repeat since_step.
Qed.

Lemma since_GarbageCollectExpired c : since c undisturbed SessionRepo.GarbageCollectExpired.
Proof.
  unfold SessionRepo.GarbageCollectExpired. apply since_now; [apply _|apply _|]. intros tg Hg.
  apply since_exec; [apply _|]. intros w e Hw He. unfold undisturbed, clock in *. cbn. split; [lia|].
  rewrite He. intros Ht input row (sid & kid & k & hk & H1 & H2 & H3 & H4 & H5 & H6 & H7 & H8 & H9) Hp.
  exists sid, kid, k, hk. split_and!; try done; try apply H9. apply map_lookup_filter_Some.
  split; [done|]. unfold SessionRepo.gc_expired. cbn. rewrite Hp. cbn. rewrite orb_false_r.
  apply Z.ltb_ge. lia.
Qed.

Lemma since_newOpaqueID c p : since c undisturbed (newOpaqueID p).
Proof. apply since_free; [apply _|]. intros w. done. Qed.

(** Deleting a key past its retention, which is stored as listed. *)
Lemma delete_undisturbed tg k retired (w : World IdentityDB) :
  tg ≤ clock w → sk_RetiredAt k = Some retired →
  retired + cfg_SigningKeyRetention (svc_cfg s) < tg →
  (∀ k', id_keys (w_db w) !! sk_ID k = Some k' → k' = k) →
  let w' := snd (KeyRepo.Delete (sk_ID k) w) in
  undisturbed w w' ∧ clock w ≤ clock w' ∧ id_keys (w_db w') ⊆ id_keys (w_db w).
Proof.
  intros Htg Hr Hlt Hk. cbv zeta. set (d' := w_db (snd (KeyRepo.Delete (sk_ID k) w))).
  assert (clock (snd (KeyRepo.Delete (sk_ID k) w)) = clock w) as Hc.
  { unfold KeyRepo.Delete, sql_exec, next_fault, mbind, M_bind, mret, M_ret, get_db, put_db, clock.
    destruct (env_faults (w_env w)) as [|[| |] fs]; cbn; try done;
      by repeat case_match. }
  assert (d' = w_db w ∨ d' = set_keys (delete (sk_ID k)) (w_db w)) as Hd.
  { unfold d', KeyRepo.Delete. destruct (sql_exec_cases "session_signing_keys delete" (λ d,
      match id_keys d !! sk_ID k with
      | None => (Err ErrSessionSigningKeyNotFound, d)
      | Some _ => if KeyRepo.referenced (sk_ID k) d then (Err ErrSessionSigningKeyInUse, d)
                  else (Ok tt, set_keys (delete (sk_ID k)) d)
      end) w) as [H | H]; [by left|]. rewrite H. repeat case_match; auto. }
  split_and!; [|lia|destruct Hd as [Hd | Hd]; fold d'; rewrite Hd; [done|apply delete_subseteq]].
  split; [lia|]. rewrite Hc. fold d'. intros Ht input row Ha _.
  destruct Hd as [-> | ->]; [done|].
  destruct Ha as (sid & kid & k0 & hk & H1 & H2 & H3 & H4 & H5).
  exists sid, kid, k0, hk. split_and!; try done; try apply H5.
  apply lookup_delete_Some. split; [|done]. intros <-.
  specialize (Hk _ H3) as ->. specialize (H4 _ Hr). lia.
Qed.

Lemma sweep_undisturbed tg (l : list SessionSigningKey) (w : World IdentityDB) :
  tg ≤ clock w →
  (∀ k k', k ∈ l → id_keys (w_db w) !! sk_ID k = Some k' → k' = k) →
  undisturbed w (snd (sweep_keys s tg l w)).
Proof.
  assert (∀ w, undisturbed w w) as Hrefl by (intros w'; by apply env_closed).
  revert w. induction l as [|k l IH]; intros w Hw Hl; [apply Hrefl|]. cbn [sweep_keys].
  assert (∀ k0 k', k0 ∈ l → id_keys (w_db w) !! sk_ID k0 = Some k' → k' = k0) as Hl'
    by (intros k0 k' Hin; apply Hl; by right).
  destruct (sk_RetiredAt k) as [retired|] eqn:Er; [|by apply IH].
  destruct (Z.ltb_spec (retired + cfg_SigningKeyRetention (svc_cfg s)) tg) as [Hlt | ?]; cbn [negb];
    [|by apply IH].
  unfold mbind, M_bind.
  destruct (delete_undisturbed tg k retired w) as (H1 & H2 & H3); try done.
  { intros k'. apply Hl. by left. }
  destruct (KeyRepo.Delete (sk_ID k) w) as [r w1]. cbn in H1, H2, H3.
  assert (undisturbed w1 (snd (sweep_keys s tg l w1))) as H4.
  { apply IH; [lia|]. intros k0 k' Hin Hk'. apply (Hl' k0 k' Hin). eapply lookup_weaken; done. }
  destruct r as [[]|e]; [by etransitivity|]. destruct (errors_Is _ _); [by etransitivity|exact H1].
Qed.

Lemma gc_keys_subset (w : World IdentityDB) :
  id_keys (w_db (snd (SessionRepo.GarbageCollectExpired w))) = id_keys (w_db w).
Proof.
  unfold SessionRepo.GarbageCollectExpired, mbind, M_bind. pose proof (now_db w) as Hd.
  destruct (now w) as [tg w1]. cbn in Hd. rewrite <-Hd.
  destruct (sql_exec_cases "sessions garbage_collect" (λ d : IdentityDB,
    (Ok (length (filter (λ x, SessionRepo.gc_expired tg x = true) (rows (id_sessions d)))),
     set_sessions (filter (λ kv, SessionRepo.gc_expired tg kv.2 = false)) d)) w1) as [-> | ->]; done.
Qed.

Lemma GarbageCollect_undisturbed (w : World IdentityDB) :
  map_Forall (λ id k, sk_ID k = id) (id_keys (w_db w)) →
  undisturbed w (snd (GarbageCollect s w)).
Proof.
  intros Hkeys. unfold GarbageCollect, mbind, M_bind.
  destruct (since_GarbageCollectExpired (clock w) w) as [Hc1 H1]; [done|].
  pose proof (gc_keys_subset w) as Hk1.
  destruct (SessionRepo.GarbageCollectExpired w) as [[n|] w1]; cbn in *; [|done].
  unfold KeyRepo.List. destruct (query_cases "session_signing_keys list" (λ d,
    merge_sort (desc sk_CreatedAt) (filter (λ k, sk_TenantID k = svc_tenantID s) (rows (id_keys d)))) w1)
    as (w2 & Hd2 & _ & Hc2 & [[-> _] | [-> _]]); cbn.
  2: { etransitivity; [exact H1|]. apply env_closed; [done|lia]. }
  destruct (since_now undisturbed (clock w2) (λ t, mret t)) with (w := w2) as [Hc3 _];
    [intros; apply since_ret; apply _|done|].
  pose proof (now_db w2) as Hd3. unfold mbind, M_bind in Hc3.
  assert (fst (now w2) ≤ clock (snd (now w2))) as Htg by (unfold now, clock; destruct (env_ticks _); done).
  destruct (now w2) as [tg w3]. cbn in *.
  assert (undisturbed w w3) as H3.
  { etransitivity; [exact H1|]. apply env_closed; [congruence|lia]. }
  pose proof (sweep_undisturbed tg (merge_sort (desc sk_CreatedAt)
    (filter (λ k, sk_TenantID k = svc_tenantID s) (rows (id_keys (w_db w1))))) w3 Htg) as H4.
  destruct (sweep_keys _ _ _ w3) as [r w4]. cbn in *. etransitivity; [exact H3|]. apply H4.
  intros k k' Hin Hk'. rewrite merge_sort_Permutation, list_elem_of_filter, elem_of_rows in Hin.
  destruct Hin as [_ [id Hid]]. rewrite Hd3, Hd2, Hk1 in Hk'. rewrite Hk1 in Hid.
  assert (sk_ID k = id) as Hsk by (by apply (Hkeys id k)). congruence.
Qed.

Lemma since_readRand c n : since c undisturbed (readRand n).
Proof. apply since_free; [apply _|]. intros w. done. Qed.

Lemma since_EncryptIfKeySet c p pass : since c undisturbed (EncryptIfKeySet p pass).
Proof.
  unfold EncryptIfKeySet, Encrypt. repeat first [since_step | apply since_readRand].
Qed.

Lemma since_mint_key c wrap : since c undisturbed (mint_key s wrap).
Proof.
  unfold mint_key, newKeyMaterial, encryptKeyMaterial, KeyRepo.Add.
  repeat first [since_step | apply since_newOpaqueID | apply since_readRand
               | apply since_EncryptIfKeySet | apply since_insert_key].
Qed.

Lemma since_RotateSigningKey : since c0 undisturbed (RotateSigningKey ToLower s).
Proof.
  unfold RotateSigningKey, KeyRepo.GetActive.
  repeat first [since_step | apply since_mint_key | by apply since_Retire | apply since_recordAudit].
Qed.

Lemma since_EnsureInitialSigningKey : since c0 undisturbed (EnsureInitialSigningKey ToLower s).
Proof.
  unfold EnsureInitialSigningKey, KeyRepo.GetActive.
  repeat first [since_step | apply since_mint_key | apply since_recordAudit].
Qed.

Lemma since_prelogin_gc c : since c undisturbed PreLogin.PreLoginRepository_GarbageCollectExpired.
Proof.
  unfold PreLogin.PreLoginRepository_GarbageCollectExpired. apply since_now; [apply _|apply _|].
  intros tg _. apply since_exec; [apply _|]. intros w e _ He. by apply undisturbed_same.
Qed.
End maintenance.

Definition maintenance_call (c : session_call) : bool :=
  match c with
  | CRotateSigningKey | CEnsureInitialSigningKey | CGarbageCollect | CPreLoginGC => true
  | _ => false
  end.

Lemma snd_void {D A} (m : M D A) w : snd (void m w) = snd (m w).
Proof. unfold void, mbind, M_bind. by destruct (m w). Qed.

(** maintenance logs nobody out early: rotating the signing key, bootstrapping it and
    both garbage collections, whichever statements fail, leave every request that the
    tables accept at a time [t] accepted at [t], for every [t] from the end of the call
    up to the signing-key retention after its start. *)
Theorem maintenance_keeps_sessions `{E : Entropy, C : Ciphers} ToLower (s : Service)
    (c : session_call) (w : World IdentityDB) (t : Z) input row :
  maintenance_call c = true →
  store_wf s (w_db w) →
  accepts s t (w_db w) input row →
  clock (snd (run_call ToLower s c w)) ≤ t ≤ clock w + cfg_SigningKeyRetention (svc_cfg s) →
  accepts s t (w_db (snd (run_call ToLower s c w))) input row.
Proof.
  intros Hc (Hk & Hs & _) Ha [Ht1 Ht2].
  assert (ses_IsPreLogin row = false) as Hp.
  { destruct Ha as (sid & ? & ? & ? & _ & _ & _ & _ & _ & Hx & _).
    destruct (Hs _ _ Hx) as (_ & _ & ? & _). done. }
  assert (undisturbed s t w (snd (run_call ToLower s c w))) as Hu.
  { destruct c; try done; unfold run_call; rewrite snd_void.
    - apply (since_RotateSigningKey ToLower s (clock w) t Ht2 w). done.
    - apply (since_EnsureInitialSigningKey ToLower s (clock w) t w). done.
    - apply GarbageCollect_undisturbed. intros id k Hid. by destruct (Hk _ _ Hid).
    - apply (since_prelogin_gc s t (clock w) w). done. }
  by apply Hu.
Qed.

Lemma maintenance_keeps_sessions_witness :
  let w := snd demo_login in
  let w' := snd (run_call (E:=toy_entropy) (C:=toy_ciphers) id demo_service CRotateSigningKey w) in
  size (id_keys (w_db w')) = 2%nat ∧
  ∃ row, accepts (C:=toy_ciphers) demo_service (1800 * second) (w_db w')
           (mkValidateInput (cr_CookieValue demo_result) "10.0.0.1" "ua") row.
Proof.
  cbv zeta. split; [vm_compute; reflexivity|]. exists (cr_Session demo_result).
  apply (maintenance_keeps_sessions (E:=toy_entropy) (C:=toy_ciphers) id demo_service CRotateSigningKey
           (snd demo_login)).
  - reflexivity.
  - pose proof (keeps_Create (E:=toy_entropy) (C:=toy_ciphers) demo_service "alice" "User" "10.0.0.1" "ua"
                  booted booted_wf) as [H _]. exact H.
  - apply (validate_sound_complete (C:=toy_ciphers) id demo_service
             (mkValidateInput (cr_CookieValue demo_result) "10.0.0.1" "ua") (cr_Session demo_result)
             (world_at (1800 * second) (w_db (snd demo_login)))).
    vm_compute. reflexivity.
  - vm_compute. split; discriminate.
Defined.

(** ** Pre-login cookies *)
Section prelogin.
Context `{EO : EntropyOk, CO : CiphersOk}.
Variable s : Service.
Notation enc := (svc_encryption s).

Lemma EncryptIfKeySet_db p pass (w : World IdentityDB) :
  w_db (snd (EncryptIfKeySet p pass w)) = w_db w.
Proof.
  unfold EncryptIfKeySet, Encrypt, readRand. case_bool_decide; [done|]. mrun.
  destruct (entropy _ v3SaltSize); [|done]. destruct (negb _); [done|]. by mrun.
Qed.

Lemma materialize_sealed p (w w' : World IdentityDB) blob e plain :
  EncryptIfKeySet p enc w = (Ok (blob, e), w') →
  PreLogin.materialize enc (Some blob) plain = Ok p ∧ w_db w' = w_db w.
Proof.
  intros He. pose proof (EncryptIfKeySet_db p enc w) as Hd. rewrite He in Hd.
  apply EncryptIfKeySet_readable in He as (_ & _ & Hs & Hdec). split; [|done].
  unfold PreLogin.materialize. cbn. case_bool_decide as Hb; [by subst|]. done.
Qed.

Lemma CreatePreLogin_inv p st n v ip ua (w w1 : World IdentityDB) cookie id :
  PreLogin.CreatePreLogin (svc_tenantID s) enc p st n v ip ua w = (Ok (cookie, id), w1) →
  ∃ kid k hk row,
    id_keys (w_db w) !! kid = Some k ∧
    decryptKeyMaterial (sk_KeyMaterialEncrypted k) enc = Ok hk ∧
    opaque "pl-" id ∧ cookie = signCookie id (sk_ID k) hk ∧
    w_db w1 = set_prelogin (<[id := row]>) (w_db w) ∧
    plr_OIDCProviderID row = p ∧
    plr_ClientIP row = PreLogin.nullableString ip ∧ plr_UserAgent row = PreLogin.nullableString ua ∧
    PreLogin.materialize enc (plr_enc row).1.1 (plr_plain row).1.1 = Ok st ∧
    PreLogin.materialize enc (plr_enc row).1.2 (plr_plain row).1.2 = Ok n ∧
    PreLogin.materialize enc (plr_enc row).2 (plr_plain row).2 = Ok v.
Proof.
  unfold PreLogin.CreatePreLogin, KeyRepo.GetActive, PreLogin.newID, mbind, M_bind.
  destruct (sql_query _ _ w) as [[[k|]|] w2] eqn:Eq; try by intros [=].
  apply query_ok in Eq as [Hk Hd2]. apply active_key_spec in Hk as ((kid & Hkid) & _ & _). cbn.
  destruct (decryptKeyMaterial _ _) as [hk|] eqn:Ed; [|by intros [=]].
  pose proof (readRand_db 16 w2) as Hd3.
  destruct (readRand 16 w2) as [[b|] w3] eqn:Er; [|by intros [=]]. apply readRand_ok in Er. cbn in *.
  unfold PreLogin.PreLoginRepository_Create, mbind, M_bind. cbn.
  destruct (EncryptIfKeySet st enc w3) as [[[b1 e1]|] w4] eqn:E1; [|by intros [=]].
  destruct (EncryptIfKeySet n enc w4) as [[[b2 e2]|] w5] eqn:E2; [|by intros [=]].
  destruct (EncryptIfKeySet v enc w5) as [[[b3 e3]|] w6] eqn:E3; [|by intros [=]].
  eapply (materialize_sealed _ _ _ _ _ None) in E1 as [M1 Hd4].
  eapply (materialize_sealed _ _ _ _ _ None) in E2 as [M2 Hd5].
  eapply (materialize_sealed _ _ _ _ _ None) in E3 as [M3 Hd6].
  change (IsZero zero_time && IsZero zero_time) with true. cbv beta iota.
  pose proof (now_db w6) as Hd7. destruct (now w6) as [t w7]. cbn in Hd7.
  destruct (PreLogin.insert_prelogin _ w7) as [[[]|] w8] eqn:Ei; [|by intros [=]].
  apply exec_ok in Ei as [Ei1 Ei2].
  destruct (sql_query _ _ w8) as [[[c|]|] w9] eqn:Eq; try by intros [=].
  apply query_ok in Eq as [_ Hd9]. intros [= <- <- <-].
  destruct (negb _); [done|]. case_bool_decide; [done|]. destruct (_ || _); [done|]. cbn in Ei2.
  eexists kid, k, hk, _. rewrite Hd9, Ei2, Hd7, Hd6, Hd5, Hd4, Hd3, Hd2.
  split_and!; [done|done|by exists b|done|done| ..]; done.
Qed.

Lemma nullableString_default x : default "" (PreLogin.nullableString x) = x.
Proof. unfold PreLogin.nullableString. by case_bool_decide. Qed.

(** The repository's consumption when no statement fails. *)
Lemma repo_consume_run id row (w : World IdentityDB) :
  env_faults (w_env w) = [] → id_prelogin (w_db w) !! id = Some row →
  ∀ st n v,
  PreLogin.materialize enc (plr_enc row).1.1 (plr_plain row).1.1 = Ok st →
  PreLogin.materialize enc (plr_enc row).1.2 (plr_plain row).1.2 = Ok n →
  PreLogin.materialize enc (plr_enc row).2 (plr_plain row).2 = Ok v →
  ∃ w', w_db w' = set_prelogin (delete id) (w_db w) ∧ env_faults (w_env w') = [] ∧
    PreLogin.PreLoginRepository_LookupAndConsume enc id w =
      (if plr_AbsoluteExpiresAt row <? fst (now w) then Err PreLogin.ErrPreLoginExpired else
       Ok (mkPreLogin (plr_ID row) (plr_TenantID row) (plr_SigningKeyID row) (plr_OIDCProviderID row)
             st n v (plr_CreatedAt row) (plr_AbsoluteExpiresAt row)
             (default "" (plr_ClientIP row)) (default "" (plr_UserAgent row))), w').
Proof.
  intros Hf Hrow st n v M1 M2 M3. unfold PreLogin.PreLoginRepository_LookupAndConsume.
  unfold mbind at 1, M_bind at 1. rewrite exec_run by done. rewrite Hrow. cbn [fst snd].
  destruct (plr_enc row) as [[? ?] ?], (plr_plain row) as [[? ?] ?]. cbn in M1, M2, M3.
  rewrite M1, M2, M3. unfold mbind, M_bind.
  set (w2 := mkWorld (set_prelogin (delete id) (w_db w)) (w_env w)).
  rewrite <-(now_fst w w2) by done.
  pose proof (now_db w2) as Hd. pose proof (now_faults w2) as Hf2. destruct (now w2) as [t w3].
  cbn in *. exists w3. rewrite Hf2. split_and!; [done|done|]. by destruct (_ <? t).
Qed.

Lemma consume_missing sid kid mac cookie (w : World IdentityDB) :
  ParseCookieValue cookie "pl-" = Ok (sid, kid, mac) →
  env_faults (w_env w) = [] → id_prelogin (w_db w) !! sid = None →
  fst (PreLogin.LookupAndConsume enc cookie w) = Err PreLogin.ErrPreLoginNotFound.
Proof.
  intros Hp Hf Hn. unfold PreLogin.LookupAndConsume. rewrite Hp.
  unfold KeyRepo.Get, mbind, M_bind. rewrite query_run by done. cbn.
  destruct (id_keys (w_db w) !! kid) as [k|]; [|done]. cbn.
  destruct (decryptKeyMaterial _ _); [|done]. destruct (negb _); [done|].
  unfold PreLogin.PreLoginRepository_LookupAndConsume, mbind, M_bind. rewrite exec_run by done.
  by rewrite Hn.
Qed.

Lemma consume_stored id k hk cookie row st n v (w : World IdentityDB) :
  ParseCookieValue cookie "pl-" = Ok (id, sk_ID k, computeHMAC id (sk_ID k) hk) →
  env_faults (w_env w) = [] → id_keys (w_db w) !! sk_ID k = Some k →
  decryptKeyMaterial (sk_KeyMaterialEncrypted k) enc = Ok hk →
  id_prelogin (w_db w) !! id = Some row →
  PreLogin.materialize enc (plr_enc row).1.1 (plr_plain row).1.1 = Ok st →
  PreLogin.materialize enc (plr_enc row).1.2 (plr_plain row).1.2 = Ok n →
  PreLogin.materialize enc (plr_enc row).2 (plr_plain row).2 = Ok v →
  ∃ w', w_db w' = set_prelogin (delete id) (w_db w) ∧ env_faults (w_env w') = [] ∧
    PreLogin.LookupAndConsume enc cookie w =
      (if plr_AbsoluteExpiresAt row <? fst (now w) then Err PreLogin.ErrPreLoginNotFound else
       Ok (PreLogin.mkHandshake (plr_OIDCProviderID row) st n v (default "" (plr_ClientIP row))
             (default "" (plr_UserAgent row))), w').
Proof.
  intros Hp Hf Hk Hdk Hrow M1 M2 M3. unfold PreLogin.LookupAndConsume. rewrite Hp.
  unfold KeyRepo.Get, mbind, M_bind. rewrite query_run by done. cbn. rewrite Hk. cbn. rewrite Hdk.
  unfold ConstantTimeCompare. rewrite bool_decide_eq_true_2 by done. cbn [negb].
  destruct (repo_consume_run id row w Hf Hrow st n v M1 M2 M3) as (w' & Hd & Hf' & Hrun).
  rewrite Hrun. exists w'. split_and!; [done|done|]. by destruct (_ <? _).
Qed.

(** a pre-login cookie carries the handshake across the redirect exactly once: after
    [CreatePreLogin], [LookupAndConsume] of the cookie it returned gives back the provider,
    state, nonce, PKCE verifier, IP and User-Agent up to the stored expiry and refuses it
    later; either way the row is gone and the same cookie is refused from then on. *)
Theorem prelogin_single_use p st n v ip ua (w w1 : World IdentityDB) cookie id :
  store_wf s (w_db w) →
  PreLogin.CreatePreLogin (svc_tenantID s) enc p st n v ip ua w = (Ok (cookie, id), w1) →
  ∃ row, id_prelogin (w_db w1) !! id = Some row ∧
  ∀ w2, w_db w2 = w_db w1 → env_faults (w_env w2) = [] →
  let '(r, w3) := PreLogin.LookupAndConsume enc cookie w2 in
  r = (if plr_AbsoluteExpiresAt row <? fst (now w2) then Err PreLogin.ErrPreLoginNotFound
       else Ok (PreLogin.mkHandshake p st n v ip ua)) ∧
  id_prelogin (w_db w3) !! id = None ∧
  fst (PreLogin.LookupAndConsume enc cookie w3) = Err PreLogin.ErrPreLoginNotFound.
Proof.
  intros Hwf Hc. destruct (CreatePreLogin_inv _ _ _ _ _ _ _ _ _ _ Hc)
    as (kid & k & hk & row & Hk & Hdk & Hop & Hcookie & Hdb & Hp & Hip & Hua & M1 & M2 & M3).
  destruct Hwf as (Hkeys & _ & _). destruct (Hkeys _ _ Hk) as (Hid & Hkop & _ & _). subst kid.
  exists row. split; [rewrite Hdb; apply lookup_insert_eq|]. intros w2 Hd2 Hf2.
  assert (ParseCookieValue cookie "pl-" = Ok (id, sk_ID k, computeHMAC id (sk_ID k) hk)) as Hparse.
  { unfold ParseCookieValue. rewrite Hcookie, (minted_cookie_parses "pl-") by (done || (cbn; lia)).
    apply opaque_spec in Hop as (_ & -> & _); done. }
  destruct (consume_stored id k hk cookie row st n v w2) as (w3 & Hd3 & Hf3 & Hrun); try done.
  - by rewrite Hd2, Hdb.
  - rewrite Hd2, Hdb. apply lookup_insert_eq.
  - rewrite Hrun, Hp, Hip, Hua, !nullableString_default. split_and!; [done| |].
    + rewrite Hd3. apply lookup_delete_eq.
    + eapply consume_missing; [done|done|]. rewrite Hd3. apply lookup_delete_eq.
Qed.
End prelogin.

Definition sealed_service : Service := mkService false "t-default" DefaultConfig "passphrase".
Definition sealed_boot : World IdentityDB :=
  snd (run_calls (E:=toy_entropy) (C:=toy_ciphers) id sealed_service [CEnsureInitialSigningKey]
         (world_at 0 empty_identity)).
Definition demo_prelogin : res (string * string) * World IdentityDB :=
  PreLogin.CreatePreLogin (E:=toy_entropy) (C:=toy_ciphers) "t-default" "passphrase"
    "op-1" "st" "no" "ver" "10.0.0.1" "ua" sealed_boot.
Definition demo_cookie : string := match fst demo_prelogin with Ok (c, _) => c | Err _ => "" end.
Definition demo_plid : string := match fst demo_prelogin with Ok (_, i) => i | Err _ => "" end.

Lemma prelogin_single_use_witness :
  demo_prelogin = (Ok (demo_cookie, demo_plid), snd demo_prelogin) ∧
  ∃ row, id_prelogin (w_db (snd demo_prelogin)) !! demo_plid = Some row ∧
  let w2 := world_at (60 * second) (w_db (snd demo_prelogin)) in
  fst (PreLogin.LookupAndConsume (C:=toy_ciphers) "passphrase" demo_cookie w2)
  = (if plr_AbsoluteExpiresAt row <? 60 * second then Err PreLogin.ErrPreLoginNotFound
     else Ok (PreLogin.mkHandshake "op-1" "st" "no" "ver" "10.0.0.1" "ua")).
Proof.
  assert (demo_prelogin = (Ok (demo_cookie, demo_plid), snd demo_prelogin)) as He
    by (vm_compute; reflexivity).
  split; [exact He|].
  destruct (prelogin_single_use (E:=toy_entropy) (C:=toy_ciphers) sealed_service
              "op-1" "st" "no" "ver" "10.0.0.1" "ua" sealed_boot (snd demo_prelogin)
              demo_cookie demo_plid) as (row & Hrow & H).
  - apply (keeps_calls (E:=toy_entropy) (C:=toy_ciphers) id sealed_service).
    split_and!; apply map_Forall_empty.
  - exact He.
  - exists row. split; [exact Hrow|]. cbv zeta.
    specialize (H (world_at (60 * second) (w_db (snd demo_prelogin))) eq_refl eq_refl).
    change (svc_encryption sealed_service) with "passphrase" in H.
    destruct (PreLogin.LookupAndConsume "passphrase" demo_cookie
                (world_at (60 * second) (w_db (snd demo_prelogin)))) as [r w3].
    destruct H as [H _]. exact H.
Defined.

(** ** CSRF rotation skips sessions in use

    [IdleExpiresAt] is written once, at creation; [UpdateLastSeen] moves only
    [LastSeenAt].  A session used 50 minutes after its creation is still accepted by
    [Validate] 70 minutes after it, but [RotateCSRFTokenForActor] takes it for expired and
    leaves its token as it was. *)
Example active_session_not_rotated :
  let touched := snd (UpdateLastSeen demo_sid (world_at (3000 * second) (w_db (snd demo_login)))) in
  let w := world_at (4200 * second) (w_db touched) in
  let '(n, w') := RotateCSRFTokenForActor (E:=toy_entropy) id demo_service "alice" "User" w in
  is_Ok (fst (Validate (C:=toy_ciphers) id demo_service
                (mkValidateInput (cr_CookieValue demo_result) "10.0.0.1" "ua") w)) = true ∧
  n = 0%nat ∧
  (ses_CSRFTokenHash <$> id_sessions (w_db w') !! demo_sid)
  = Some (hashCSRFToken (cr_CSRFToken demo_result)).
Proof. vm_compute. split_and!; reflexivity. Qed.
