(* ===== verification/AuthGate.v ===== *)
(** * The authentication gate of the HTTP server
      (src/internal/auth/apikey.go, keystore.go, middleware.go, context.go,
       require_permission.go, protocol_endpoints.go; auth/session/middleware.go;
       api/router/router.go; cmd/server/wire.go, main.go)

    Handlers are functions from a request and its context to a response; middlewares
    are functions on handlers, composed as the code composes them.  [Module KeyStore] is
    the API-key store, [Module Gate] the middlewares, [Module Router] the route table,
    the multiplexer and the outer dispatch.  A handler behind the gate is abstract: it
    answers [Reached] with its route and context.  The middlewares of the chain that do
    not authenticate (request ids, logging, recovery, body limit, security headers, CORS,
    rate limit, audit log) are left out.  Request paths are taken in the cleaned form the
    multiplexer works on. *)

From Stdlib Require Import ZArith Lia Ascii String.
From stdpp Require Import prelude gmap strings list sorting pretty.
From S2P Require Import Prelude AuditTrail Store Rbac GoBytes KeyCrypto Identity Session.
Import AuthService Cookies.

(** ** apikey.go, keystore.go *)
Module KeyStore.
Record NamedAPIKey := mkNamedAPIKey { nk_Name : string; nk_Key : string; nk_Admin : bool }.

Definition HashAPIKey (key : string) : string := hex_EncodeToString (Sum256 key).

Record entry := mkEntry { en_hash : string; en_name : string; en_admin : bool }.

(** [NewStaticKeyStore] and [NewMutableKeyStore]. *)
Definition NewKeyStore (keys : list NamedAPIKey) : list entry :=
  (λ nk, mkEntry (HashAPIKey (nk_Key nk)) (nk_Name nk) (nk_Admin nk)) <$> keys.

Fixpoint LookupByHash (entries : list entry) (hash : string) : option NamedAPIKey :=
  match entries with
  | [] => None
  | e :: rest => if ConstantTimeCompare hash (en_hash e)
                 then Some (mkNamedAPIKey (en_name e) "" (en_admin e))
                 else LookupByHash rest hash
  end.

(** [MutableKeyStore.AddHashed]: an entry with the same hash is renamed in place. *)
Fixpoint AddHashed (name hashHex : string) (admin : bool) (entries : list entry) : list entry :=
  match entries with
  | [] => [mkEntry hashHex name admin]
  | e :: rest => if bool_decide (en_hash e = hashHex) then mkEntry hashHex name admin :: rest
                 else e :: AddHashed name hashHex admin rest
  end.

Definition Add (key : NamedAPIKey) (entries : list entry) : list entry :=
  AddHashed (nk_Name key) (HashAPIKey (nk_Key key)) (nk_Admin key) entries.
End KeyStore.
Import KeyStore.

(** ** Requests, contexts, responses *)
Record Request := mkRequest {
  rq_Method : string;
  rq_Path : string;
  rq_Cookie : option string;          (* the session cookie *)
  rq_Authorization : string;          (* header values, empty when absent *)
  rq_XCSRFToken : string;
  rq_XForwardedFor : string;
  rq_UserAgent : string;
  rq_RemoteAddr : string;
  rq_PathValues : list (string * string)
}.

Definition with_path_values (vs : list (string * string)) (r : Request) : Request :=
  mkRequest (rq_Method r) (rq_Path r) (rq_Cookie r) (rq_Authorization r) (rq_XCSRFToken r)
    (rq_XForwardedFor r) (rq_UserAgent r) (rq_RemoteAddr r) vs.

(** The values the authentication code stores in the request context. *)
Record Ctx := mkCtx {
  cx_User : option string;
  cx_Admin : option bool;
  cx_ActorID : option string;
  cx_ActorType : option string;
  cx_TenantID : option string;
  cx_session : option Session;
  cx_cause : option string
}.
Definition background : Ctx := mkCtx None None None None None None None.

Inductive Gated_by := Open | Gated (perm : string) | GatedScoped (perm scopeType param : string).
#[global] Instance Gated_by_eq_dec : EqDecision Gated_by.
Proof. solve_decision. Defined.

Record Route := mkRoute { rt_Method : string; rt_Path : string; rt_Gate : Gated_by }.

Inductive Response :=
  | Status (code : Z) (body : string)
  | Static (path : string)                  (* the dashboard's files *)
  | Reached (route : Route) (req : Request) (ctx : Ctx).

Definition Handler : Type := Request → Ctx → M IdentityDB Response.

(** ** context.go *)
Definition GetUser (c : Ctx) : string := default "" (cx_User c).
Definition IsAdmin (c : Ctx) : bool := default false (cx_Admin c).
Definition GetActorID (c : Ctx) : string :=
  match cx_ActorID c with
  | Some id => if bool_decide (id = "") then GetUser c else id
  | None => GetUser c
  end.
Definition GetActorType (c : Ctx) : string := default "" (cx_ActorType c).
Definition GetTenantID (c : Ctx) : string :=
  match cx_TenantID c with
  | Some t => if bool_decide (t = "") then DefaultTenantID else t
  | None => DefaultTenantID
  end.

(** The keys every authenticated request sets. *)
Definition with_actor (user : string) (admin : bool) (actorType tenantID : string) (c : Ctx) : Ctx :=
  mkCtx (Some user) (Some admin) (Some user) (Some actorType) (Some tenantID) (cx_session c) (cx_cause c).

(** ** The middlewares *)
Module Gate.

(** *** middleware.go *)
Definition bearer_prefix : string := "Bearer ".

(** [NewAuthWithKeyStore]; [None] is a nil store. *)
Definition NewAuthWithKeyStore (store : option (list entry)) (next : Handler) : Handler :=
  match store with
  | None => next
  | Some entries => λ r c,
      let authHeader := rq_Authorization r in
      if bool_decide (authHeader = "")
      then mret (Status 401 "Authorization header required") else
      if (len authHeader <? 8)%nat || negb (bool_decide (str_take 7 authHeader = bearer_prefix))
      then mret (Status 401 "Invalid Authorization header format, expected: Bearer <token>") else
      let token := str_drop 7 authHeader in
      match LookupByHash entries (HashAPIKey token) with
      | None => mret (Status 401 "Invalid API key")
      | Some matched =>
          next r (with_actor (nk_Name matched) (nk_Admin matched) ActorTypeAPIKey DefaultTenantID c)
      end
  end.

Definition NewDemoModeAuth (next : Handler) : Handler :=
  λ r c, next r (with_actor DemoAnonActorID true ActorTypeAnonymous DefaultTenantID c).

(** *** session/middleware.go *)
Section client_ip.
(** [net.ParseIP(s) != nil], and [net.ParseCIDR(c)] with [network.Contains(ip)]. *)
Variable ParseIP_ok : string → bool.
Variable cidr_contains : string → string → option bool.
Variable trustedProxyCIDRs : list string.

Fixpoint lastIndexByte_go (s : string) (b : ascii) (i : nat) (acc : option nat) : option nat :=
  match s with
  | EmptyString => acc
  | String c s' => lastIndexByte_go s' b (S i) (if Ascii.eqb c b then Some i else acc)
  end.
Definition lastIndexByte (s : string) (b : ascii) : option nat := lastIndexByte_go s b 0 None.

Definition strContainsByte (s : string) (b : ascii) : bool := negb (all_chars (not_char b) s).

Fixpoint ipInCIDRs_loop (ip : string) (cidrs : list string) : bool :=
  match cidrs with
  | [] => false
  | c :: cs =>
      if negb (strContainsByte c "/")
      then if bool_decide (c = ip) then true else ipInCIDRs_loop ip cs
      else match cidr_contains c ip with
           | Some true => true
           | _ => ipInCIDRs_loop ip cs
           end
  end.

Definition ipInCIDRs (ip : string) (cidrs : list string) : bool :=
  match cidrs with
  | [] => false
  | _ => if ParseIP_ok ip then ipInCIDRs_loop ip cidrs else false
  end.

Definition is_blank_byte (c : ascii) : bool := Ascii.eqb c " " || Ascii.eqb c "009".
Fixpoint trim_leading (l : list ascii) : list ascii :=
  match l with
  | c :: l' => if is_blank_byte c then trim_leading l' else l
  | [] => []
  end.
Definition trimSpace (s : string) : string :=
  string_of_list_ascii (rev (trim_leading (rev (trim_leading (list_ascii_of_string s))))).

Definition clientIPFromRequest (r : Request) : string :=
  let remoteIP := match lastIndexByte (rq_RemoteAddr r) ":" with
                  | Some (S i) => str_take (S i) (rq_RemoteAddr r)
                  | _ => rq_RemoteAddr r
                  end in
  if negb (ipInCIDRs remoteIP trustedProxyCIDRs) then remoteIP else
  if bool_decide (rq_XForwardedFor r = "") then remoteIP else
  trimSpace (hd "" (Split "," (rq_XForwardedFor r))).
End client_ip.

Definition classifySessionError (e : error) : string :=
  if errors_Is e SessionService.ErrSessionExpiredIdle then "idle_timeout" else
  if errors_Is e SessionService.ErrSessionExpiredAbsolute then "absolute_timeout" else
  if errors_Is e SessionService.ErrSessionRevoked then "back_channel_revoked" else "invalid_token".

Definition isStateChangingMethod (m : string) : bool :=
  bool_decide (m ∈ ["POST"; "PUT"; "DELETE"; "PATCH"]).

Section session_mw.
Context `{C : Ciphers}.
Variable ToLower : string → string.
Variable client_ip : Request → string.

Definition NewSessionMiddleware (svc : option SessionService.Service) (next : Handler) : Handler :=
  match svc with
  | None => next
  | Some s => λ r c,
      match rq_Cookie r with
      | None => next r c
      | Some value =>
          if bool_decide (value = "") then next r c else
          v ← SessionService.Validate ToLower s
                (SessionService.mkValidateInput value (client_ip r) (rq_UserAgent r));
          match v with
          | Err e =>
              if errors_Is e SessionService.ErrSessionTransient
              then mret (Status 503 "transient backend error; retry")
              else next r (mkCtx (cx_User c) (cx_Admin c) (cx_ActorID c) (cx_ActorType c) (cx_TenantID c)
                             (cx_session c) (Some (classifySessionError e)))
          | Ok sess =>
              _ ← SessionService.UpdateLastSeen (ses_ID sess);
              next r (mkCtx (Some (ses_ActorID sess)) (Some false) (Some (ses_ActorID sess))
                        (Some (ses_ActorType sess)) (Some (ses_TenantID sess)) (Some sess) (cx_cause c))
          end
      end
  end.

Definition NewCSRFMiddleware (svc : option SessionService.Service) (next : Handler) : Handler :=
  match svc with
  | None => next
  | Some _ => λ r c,
      if negb (isStateChangingMethod (rq_Method r)) then next r c else
      match cx_session c with
      | None => next r c
      | Some sess =>
          match SessionService.ValidateCSRF (rq_XCSRFToken r) (Some sess) with
          | Err _ => mret (Status 403 "CSRF token missing or invalid")
          | Ok _ => next r c
          end
      end
  end.
End session_mw.

(** [bearerSkipIfAuthenticated]; [None] is a nil Bearer middleware. *)
Definition bearerSkipIfAuthenticated (bearerMW : option (Handler → Handler)) (next : Handler) : Handler :=
  λ r c,
    let authenticated := negb (bool_decide (default "" (cx_ActorID c) = "")) in
    match bearerMW with
    | None => if authenticated then next r c else mret (Status 401 "Authentication required")
    | Some mw => if authenticated then next r c else mw next r c
    end.

Definition ChainAuthSessionThenBearer (sessionMW : Handler → Handler)
    (bearerMW : option (Handler → Handler)) (next : Handler) : Handler :=
  sessionMW (bearerSkipIfAuthenticated bearerMW next).

(** *** protocol_endpoints.go, require_permission.go *)
Definition ProtocolEndpointPrefixes : list string :=
  ["/acme"; "/scep"; "/scep-mtls"; "/.well-known/est"; "/.well-known/est-mtls";
   "/.well-known/pki/ocsp"; "/.well-known/pki/crl"].

Definition IsProtocolEndpoint (path : string) : bool :=
  existsb (λ p, bool_decide (path = p) || HasPrefix path (p +:+ "/")) ProtocolEndpointPrefixes.

(** [RequirePermission]; the checker is the authorizer of service/auth. *)
Definition RequirePermission (permission : string) (scope : option (Request → string * option string))
    (next : Handler) : Handler := λ r c,
  if IsProtocolEndpoint (rq_Path r) then next r c else
  let actorID := GetActorID c in
  if bool_decide (actorID = "") then mret (Status 401 "Authentication required") else
  let actorType := if bool_decide (GetActorType c = "") then ActorTypeAPIKey else GetActorType c in
  let '(scopeType, scopeID) := match scope with Some f => f r | None => (ScopeTypeGlobal, None) end in
  ok ← zoom_auth (CheckPermission actorID actorType (GetTenantID c) permission scopeType scopeID);
  match ok with
  | Err _ => mret (Status 500 "Internal error")
  | Ok false => mret (Status 403 "Insufficient permissions")
  | Ok true => next r c
  end.
End Gate.
Import Gate.

(** ** router.go *)
Module Router.

(** [rbacGate] and [rbacGateScoped] around a handler; [wired] is a non-nil checker. *)
Definition pathScope (param : string) (r : Request) : string :=
  default "" (snd <$> head (filter (λ kv, kv.1 = param) (rq_PathValues r))).

Definition rbacGate (wired : bool) (perm : string) (h : Handler) : Handler :=
  if wired then RequirePermission perm None h else h.

Definition scope_of (scopeType : string) (scopeFn : Request → string) (r : Request)
    : string * option string :=
  let id := scopeFn r in
  if bool_decide (id = "") then (ScopeTypeGlobal, None) else (scopeType, Some id).

Definition rbacGateScoped (wired : bool) (perm scopeType : string) (scopeFn : Request → string)
    (h : Handler) : Handler :=
  if wired then RequirePermission perm (Some (scope_of scopeType scopeFn)) h else h.

(** *** [RegisterHandlers], block by block, and [RegisterPKIHandlers].  All optional
    handler groups are registered, as cmd/server does. *)
Definition public_routes : list Route :=
  [ mkRoute "GET" "/health" Open;
    mkRoute "GET" "/ready" Open;
    mkRoute "GET" "/api/v1/auth/info" Open;
    mkRoute "GET" "/api/v1/version" Open;
    mkRoute "GET" "/api/v1/auth/check" Open;
    mkRoute "GET" "/api/v1/auth/bootstrap" Open;
    mkRoute "POST" "/api/v1/auth/bootstrap" Open ].

Definition role_routes : list Route :=
  [ mkRoute "GET" "/api/v1/auth/me" Open;
    mkRoute "GET" "/api/v1/auth/permissions" Open;
    mkRoute "GET" "/api/v1/auth/roles" (Gated "auth.role.list");
    mkRoute "POST" "/api/v1/auth/roles" (Gated "auth.role.create");
    mkRoute "GET" "/api/v1/auth/roles/{id}" (Gated "auth.role.list");
    mkRoute "PUT" "/api/v1/auth/roles/{id}" (Gated "auth.role.edit");
    mkRoute "DELETE" "/api/v1/auth/roles/{id}" (Gated "auth.role.delete");
    mkRoute "POST" "/api/v1/auth/roles/{id}/permissions" (Gated "auth.role.edit");
    mkRoute "DELETE" "/api/v1/auth/roles/{id}/permissions/{perm}" (Gated "auth.role.edit");
    mkRoute "GET" "/api/v1/auth/keys" (Gated "auth.key.list");
    mkRoute "POST" "/api/v1/auth/keys/{id}/roles" (Gated "auth.role.assign");
    mkRoute "DELETE" "/api/v1/auth/keys/{id}/roles/{role_id}" (Gated "auth.role.revoke");
    mkRoute "POST" "/api/v1/auth/demo-residual/cleanup" (Gated "auth.role.assign") ].

Definition oidc_routes : list Route :=
  [ mkRoute "GET" "/auth/oidc/login" Open;
    mkRoute "GET" "/auth/oidc/callback" Open;
    mkRoute "POST" "/auth/oidc/back-channel-logout" Open;
    mkRoute "POST" "/auth/logout" Open;
    mkRoute "GET" "/api/v1/auth/sessions" (Gated "auth.session.list");
    mkRoute "DELETE" "/api/v1/auth/sessions/{id}" (Gated "auth.session.revoke");
    mkRoute "DELETE" "/api/v1/auth/sessions" (Gated "auth.session.revoke");
    mkRoute "GET" "/api/v1/auth/oidc/providers" (Gated "auth.oidc.list");
    mkRoute "POST" "/api/v1/auth/oidc/providers" (Gated "auth.oidc.create");
    mkRoute "PUT" "/api/v1/auth/oidc/providers/{id}" (Gated "auth.oidc.edit");
    mkRoute "DELETE" "/api/v1/auth/oidc/providers/{id}" (Gated "auth.oidc.delete");
    mkRoute "POST" "/api/v1/auth/oidc/providers/{id}/refresh" (Gated "auth.oidc.edit");
    mkRoute "POST" "/api/v1/auth/oidc/test" (Gated "auth.oidc.create");
    mkRoute "GET" "/api/v1/auth/oidc/providers/{id}/jwks-status" (Gated "auth.oidc.list");
    mkRoute "GET" "/api/v1/auth/users" (Gated "auth.user.read");
    mkRoute "DELETE" "/api/v1/auth/users/{id}" (Gated "auth.user.deactivate");
    mkRoute "POST" "/api/v1/auth/users/{id}/reactivate" (Gated "auth.user.deactivate");
    mkRoute "POST" "/auth/local/login" Open;
    mkRoute "POST" "/api/v1/auth/users" (Gated "auth.user.edit");
    mkRoute "POST" "/api/v1/auth/users/{id}/password" (Gated "auth.user.edit");
    mkRoute "GET" "/api/v1/auth/runtime-config" (Gated "auth.role.assign");
    mkRoute "GET" "/api/v1/auth/oidc/group-mappings" (Gated "auth.oidc.list");
    mkRoute "POST" "/api/v1/auth/oidc/group-mappings" (Gated "auth.oidc.edit");
    mkRoute "DELETE" "/api/v1/auth/oidc/group-mappings/{id}" (Gated "auth.oidc.edit") ].

Definition breakglass_routes : list Route :=
  [ mkRoute "POST" "/auth/breakglass/login" Open;
    mkRoute "GET" "/api/v1/auth/breakglass/credentials" (Gated "auth.breakglass.admin");
    mkRoute "POST" "/api/v1/auth/breakglass/credentials" (Gated "auth.breakglass.admin");
    mkRoute "POST" "/api/v1/auth/breakglass/credentials/{actor_id}/unlock" (Gated "auth.breakglass.admin");
    mkRoute "DELETE" "/api/v1/auth/breakglass/credentials/{actor_id}" (Gated "auth.breakglass.admin") ].

Definition certificate_routes : list Route :=
  [ mkRoute "POST" "/api/v1/certificates/bulk-revoke" (Gated "cert.bulk_revoke");
    mkRoute "POST" "/api/v1/est/certificates/bulk-revoke" (Gated "cert.bulk_revoke");
    mkRoute "POST" "/api/v1/certificates/bulk-renew" (Gated "cert.issue");
    mkRoute "POST" "/api/v1/certificates/bulk-reassign" (Gated "cert.edit");
    mkRoute "GET" "/api/v1/certificates" (Gated "cert.read");
    mkRoute "POST" "/api/v1/certificates" (Gated "cert.issue");
    mkRoute "GET" "/api/v1/certificates/{id}" (Gated "cert.read");
    mkRoute "PUT" "/api/v1/certificates/{id}" (Gated "cert.edit");
    mkRoute "DELETE" "/api/v1/certificates/{id}" (Gated "cert.delete");
    mkRoute "GET" "/api/v1/certificates/{id}/versions" (Gated "cert.read");
    mkRoute "GET" "/api/v1/certificates/{id}/deployments" (Gated "cert.read");
    mkRoute "POST" "/api/v1/certificates/{id}/renew" (Gated "cert.issue");
    mkRoute "POST" "/api/v1/certificates/{id}/deploy" (Gated "cert.edit");
    mkRoute "POST" "/api/v1/certificates/{id}/revoke" (Gated "cert.revoke");
    mkRoute "GET" "/api/v1/certificates/{id}/export/pem" (Gated "cert.read");
    mkRoute "POST" "/api/v1/certificates/{id}/export/pkcs12" (Gated "cert.read") ].

Definition inventory_routes : list Route :=
  [ mkRoute "GET" "/api/v1/issuers" (Gated "issuer.read");
    mkRoute "POST" "/api/v1/issuers" (Gated "issuer.edit");
    mkRoute "GET" "/api/v1/issuers/{id}" (GatedScoped "issuer.read" "issuer" "id");
    mkRoute "PUT" "/api/v1/issuers/{id}" (GatedScoped "issuer.edit" "issuer" "id");
    mkRoute "DELETE" "/api/v1/issuers/{id}" (GatedScoped "issuer.delete" "issuer" "id");
    mkRoute "POST" "/api/v1/issuers/{id}/test" (GatedScoped "issuer.edit" "issuer" "id");
    mkRoute "GET" "/api/v1/targets" (Gated "target.read");
    mkRoute "POST" "/api/v1/targets" (Gated "target.edit");
    mkRoute "GET" "/api/v1/targets/{id}" (Gated "target.read");
    mkRoute "PUT" "/api/v1/targets/{id}" (Gated "target.edit");
    mkRoute "DELETE" "/api/v1/targets/{id}" (Gated "target.delete");
    mkRoute "POST" "/api/v1/targets/{id}/test" (Gated "target.edit");
    mkRoute "GET" "/api/v1/agents" (Gated "agent.read");
    mkRoute "POST" "/api/v1/agents" (Gated "agent.edit");
    mkRoute "GET" "/api/v1/agents/retired" (Gated "agent.read");
    mkRoute "GET" "/api/v1/agents/{id}" (Gated "agent.read");
    mkRoute "DELETE" "/api/v1/agents/{id}" (Gated "agent.retire");
    mkRoute "POST" "/api/v1/agents/{id}/heartbeat" (Gated "agent.heartbeat");
    mkRoute "POST" "/api/v1/agents/{id}/csr" (Gated "agent.job.poll");
    mkRoute "GET" "/api/v1/agents/{id}/certificates/{cert_id}" (Gated "cert.read");
    mkRoute "GET" "/api/v1/agents/{id}/work" (Gated "agent.job.poll");
    mkRoute "POST" "/api/v1/agents/{id}/jobs/{job_id}/status" (Gated "agent.job.complete");
    mkRoute "GET" "/api/v1/jobs" (Gated "job.read");
    mkRoute "GET" "/api/v1/jobs/{id}" (Gated "job.read");
    mkRoute "POST" "/api/v1/jobs/{id}/cancel" (Gated "job.cancel");
    mkRoute "POST" "/api/v1/jobs/{id}/approve" (Gated "approval.approve");
    mkRoute "POST" "/api/v1/jobs/{id}/reject" (Gated "approval.reject") ].

Definition policy_routes : list Route :=
  [ mkRoute "GET" "/api/v1/policies" (Gated "policy.read");
    mkRoute "POST" "/api/v1/policies" (Gated "policy.edit");
    mkRoute "GET" "/api/v1/policies/{id}" (Gated "policy.read");
    mkRoute "PUT" "/api/v1/policies/{id}" (Gated "policy.edit");
    mkRoute "DELETE" "/api/v1/policies/{id}" (Gated "policy.delete");
    mkRoute "GET" "/api/v1/policies/{id}/violations" (Gated "policy.read");
    mkRoute "GET" "/api/v1/renewal-policies" (Gated "policy.read");
    mkRoute "POST" "/api/v1/renewal-policies" (Gated "policy.edit");
    mkRoute "GET" "/api/v1/renewal-policies/{id}" (Gated "policy.read");
    mkRoute "PUT" "/api/v1/renewal-policies/{id}" (Gated "policy.edit");
    mkRoute "DELETE" "/api/v1/renewal-policies/{id}" (Gated "policy.delete");
    mkRoute "GET" "/api/v1/profiles" (Gated "profile.read");
    mkRoute "POST" "/api/v1/profiles" (Gated "profile.edit");
    mkRoute "GET" "/api/v1/profiles/{id}" (GatedScoped "profile.read" "profile" "id");
    mkRoute "PUT" "/api/v1/profiles/{id}" (GatedScoped "profile.edit" "profile" "id");
    mkRoute "DELETE" "/api/v1/profiles/{id}" (GatedScoped "profile.delete" "profile" "id");
    mkRoute "GET" "/api/v1/teams" (Gated "team.read");
    mkRoute "POST" "/api/v1/teams" (Gated "team.edit");
    mkRoute "GET" "/api/v1/teams/{id}" (Gated "team.read");
    mkRoute "PUT" "/api/v1/teams/{id}" (Gated "team.edit");
    mkRoute "DELETE" "/api/v1/teams/{id}" (Gated "team.delete");
    mkRoute "GET" "/api/v1/owners" (Gated "owner.read");
    mkRoute "POST" "/api/v1/owners" (Gated "owner.edit");
    mkRoute "GET" "/api/v1/owners/{id}" (Gated "owner.read");
    mkRoute "PUT" "/api/v1/owners/{id}" (Gated "owner.edit");
    mkRoute "DELETE" "/api/v1/owners/{id}" (Gated "owner.delete");
    mkRoute "GET" "/api/v1/agent-groups" (Gated "agent.read");
    mkRoute "POST" "/api/v1/agent-groups" (Gated "agent.edit");
    mkRoute "GET" "/api/v1/agent-groups/{id}" (Gated "agent.read");
    mkRoute "PUT" "/api/v1/agent-groups/{id}" (Gated "agent.edit");
    mkRoute "DELETE" "/api/v1/agent-groups/{id}" (Gated "agent.edit");
    mkRoute "GET" "/api/v1/agent-groups/{id}/members" (Gated "agent.read") ].

Definition admin_routes : list Route :=
  [ mkRoute "GET" "/api/v1/audit" (Gated "audit.read");
    mkRoute "GET" "/api/v1/audit/export" (Gated "audit.export");
    mkRoute "GET" "/api/v1/audit/{id}" (Gated "audit.read");
    mkRoute "GET" "/api/v1/admin/crl/cache" (Gated "crl.admin");
    mkRoute "GET" "/api/v1/admin/scep/profiles" (Gated "scep.admin");
    mkRoute "GET" "/api/v1/admin/scep/intune/stats" (Gated "scep.admin");
    mkRoute "POST" "/api/v1/admin/scep/intune/reload-trust" (Gated "scep.admin");
    mkRoute "GET" "/api/v1/admin/est/profiles" (Gated "est.admin");
    mkRoute "POST" "/api/v1/admin/est/reload-trust" (Gated "est.admin");
    mkRoute "GET" "/api/v1/notifications" (Gated "notification.read");
    mkRoute "GET" "/api/v1/notifications/{id}" (Gated "notification.read");
    mkRoute "POST" "/api/v1/notifications/{id}/read" (Gated "notification.read");
    mkRoute "POST" "/api/v1/notifications/{id}/requeue" (Gated "notification.edit");
    mkRoute "GET" "/api/v1/approvals" (Gated "approval.read");
    mkRoute "GET" "/api/v1/approvals/{id}" (Gated "approval.read");
    mkRoute "POST" "/api/v1/approvals/{id}/approve" (Gated "approval.approve");
    mkRoute "POST" "/api/v1/approvals/{id}/reject" (Gated "approval.reject");
    mkRoute "POST" "/api/v1/issuers/{id}/intermediates" (Gated "ca.hierarchy.manage");
    mkRoute "GET" "/api/v1/issuers/{id}/intermediates" (Gated "ca.hierarchy.manage");
    mkRoute "POST" "/api/v1/intermediates/{id}/retire" (Gated "ca.hierarchy.manage");
    mkRoute "GET" "/api/v1/intermediates/{id}" (Gated "ca.hierarchy.manage") ].

Definition observability_routes : list Route :=
  [ mkRoute "GET" "/api/v1/stats/summary" (Gated "stats.read");
    mkRoute "GET" "/api/v1/stats/certificates-by-status" (Gated "stats.read");
    mkRoute "GET" "/api/v1/stats/expiration-timeline" (Gated "stats.read");
    mkRoute "GET" "/api/v1/stats/job-trends" (Gated "stats.read");
    mkRoute "GET" "/api/v1/stats/issuance-rate" (Gated "stats.read");
    mkRoute "GET" "/api/v1/metrics" (Gated "metrics.read");
    mkRoute "GET" "/api/v1/metrics/prometheus" (Gated "metrics.read");
    mkRoute "POST" "/api/v1/agents/{id}/discoveries" (Gated "discovery.run");
    mkRoute "GET" "/api/v1/discovered-certificates" (Gated "discovery.read");
    mkRoute "GET" "/api/v1/discovered-certificates/{id}" (Gated "discovery.read");
    mkRoute "POST" "/api/v1/discovered-certificates/{id}/claim" (Gated "discovery.claim");
    mkRoute "POST" "/api/v1/discovered-certificates/{id}/dismiss" (Gated "discovery.claim");
    mkRoute "GET" "/api/v1/discovery-scans" (Gated "discovery.read");
    mkRoute "GET" "/api/v1/discovery-summary" (Gated "discovery.read");
    mkRoute "GET" "/api/v1/network-scan-targets" (Gated "network_scan.read");
    mkRoute "POST" "/api/v1/network-scan-targets" (Gated "network_scan.edit");
    mkRoute "GET" "/api/v1/network-scan-targets/{id}" (Gated "network_scan.read");
    mkRoute "PUT" "/api/v1/network-scan-targets/{id}" (Gated "network_scan.edit");
    mkRoute "DELETE" "/api/v1/network-scan-targets/{id}" (Gated "network_scan.edit");
    mkRoute "POST" "/api/v1/network-scan-targets/{id}/scan" (Gated "network_scan.run");
    mkRoute "POST" "/api/v1/network-scan/scep-probe" (Gated "network_scan.run");
    mkRoute "GET" "/api/v1/network-scan/scep-probes" (Gated "network_scan.read");
    mkRoute "POST" "/api/v1/jobs/{id}/verify" (Gated "verification.run");
    mkRoute "GET" "/api/v1/jobs/{id}/verification" (Gated "verification.read");
    mkRoute "GET" "/api/v1/health-checks/summary" (Gated "healthcheck.read");
    mkRoute "GET" "/api/v1/health-checks" (Gated "healthcheck.read");
    mkRoute "POST" "/api/v1/health-checks" (Gated "healthcheck.edit");
    mkRoute "GET" "/api/v1/health-checks/{id}" (Gated "healthcheck.read");
    mkRoute "PUT" "/api/v1/health-checks/{id}" (Gated "healthcheck.edit");
    mkRoute "DELETE" "/api/v1/health-checks/{id}" (Gated "healthcheck.delete");
    mkRoute "GET" "/api/v1/health-checks/{id}/history" (Gated "healthcheck.read");
    mkRoute "POST" "/api/v1/health-checks/{id}/acknowledge" (Gated "healthcheck.acknowledge") ].

Definition acme_routes : list Route :=
  [ mkRoute "GET" "/acme/profile/{id}/directory" Open;
    mkRoute "HEAD" "/acme/profile/{id}/new-nonce" Open;
    mkRoute "GET" "/acme/profile/{id}/new-nonce" Open;
    mkRoute "POST" "/acme/profile/{id}/new-account" Open;
    mkRoute "POST" "/acme/profile/{id}/account/{acc_id}" Open;
    mkRoute "POST" "/acme/profile/{id}/new-order" Open;
    mkRoute "POST" "/acme/profile/{id}/order/{ord_id}" Open;
    mkRoute "POST" "/acme/profile/{id}/order/{ord_id}/finalize" Open;
    mkRoute "POST" "/acme/profile/{id}/authz/{authz_id}" Open;
    mkRoute "POST" "/acme/profile/{id}/challenge/{chall_id}" Open;
    mkRoute "POST" "/acme/profile/{id}/cert/{cert_id}" Open;
    mkRoute "POST" "/acme/profile/{id}/key-change" Open;
    mkRoute "POST" "/acme/profile/{id}/revoke-cert" Open;
    mkRoute "GET" "/acme/profile/{id}/renewal-info/{cert_id}" Open;
    mkRoute "GET" "/acme/directory" Open;
    mkRoute "HEAD" "/acme/new-nonce" Open;
    mkRoute "GET" "/acme/new-nonce" Open;
    mkRoute "POST" "/acme/new-account" Open;
    mkRoute "POST" "/acme/account/{acc_id}" Open;
    mkRoute "POST" "/acme/new-order" Open;
    mkRoute "POST" "/acme/order/{ord_id}" Open;
    mkRoute "POST" "/acme/order/{ord_id}/finalize" Open;
    mkRoute "POST" "/acme/authz/{authz_id}" Open;
    mkRoute "POST" "/acme/challenge/{chall_id}" Open;
    mkRoute "POST" "/acme/cert/{cert_id}" Open;
    mkRoute "POST" "/acme/key-change" Open;
    mkRoute "POST" "/acme/revoke-cert" Open;
    mkRoute "GET" "/acme/renewal-info/{cert_id}" Open ].

Definition pki_routes : list Route :=
  [ mkRoute "GET" "/.well-known/pki/crl/{issuer_id}" Open;
    mkRoute "GET" "/.well-known/pki/ocsp/{issuer_id}/{serial}" Open;
    mkRoute "POST" "/.well-known/pki/ocsp/{issuer_id}" Open ].

Definition routes : list Route :=
  public_routes ++ role_routes ++ oidc_routes ++ breakglass_routes ++ certificate_routes ++
  inventory_routes ++ policy_routes ++ admin_routes ++ observability_routes ++ acme_routes ++
  pki_routes.

Definition AuthExemptRouterRoutes : list (string * string) :=
  [("GET", "/health"); ("GET", "/ready"); ("GET", "/api/v1/auth/info"); ("GET", "/api/v1/version");
   ("GET", "/api/v1/auth/bootstrap"); ("POST", "/api/v1/auth/bootstrap");
   ("GET", "/auth/oidc/login"); ("GET", "/auth/oidc/callback");
   ("POST", "/auth/oidc/back-channel-logout"); ("POST", "/auth/logout");
   ("POST", "/auth/breakglass/login"); ("POST", "/auth/local/login")].

(** *** [http.ServeMux]: segments match literally or bind a wildcard, the most specific
    pattern wins, a GET pattern also serves HEAD. *)
Definition wildcard (seg : string) : option string :=
  match seg with
  | String "{" rest => Some (hd "" (Split "}" rest))
  | _ => None
  end.

Fixpoint match_segs (pat path : list string) : option (list (string * string)) :=
  match pat, path with
  | [], [] => Some []
  | p :: pat', x :: path' =>
      match wildcard p with
      | Some name => if bool_decide (x = "") then None
                     else vs ← match_segs pat' path'; Some ((name, x) :: vs)
      | None => if bool_decide (p = x) then match_segs pat' path' else None
      end
  | _, _ => None
  end.

Definition method_matches (pat m : string) : bool :=
  bool_decide (pat = m) || (bool_decide (pat = "GET") && bool_decide (m = "HEAD")).

Definition route_match (r : Request) (rt : Route) : option (list (string * string)) :=
  if method_matches (rt_Method rt) (rq_Method r)
  then match_segs (Split "/" (rt_Path rt)) (Split "/" (rq_Path r)) else None.

(** Is [a] more specific than [b]: a literal before a wildcard, an exact method before
    GET standing for HEAD. *)
Fixpoint segs_before (a b : list string) : option bool :=
  match a, b with
  | x :: a', y :: b' =>
      match wildcard x, wildcard y with
      | None, Some _ => Some true
      | Some _, None => Some false
      | _, _ => segs_before a' b'
      end
  | _, _ => None
  end.

Definition more_specific (a b : Route) : bool :=
  match segs_before (Split "/" (rt_Path a)) (Split "/" (rt_Path b)) with
  | Some v => v
  | None => bool_decide (rt_Method a = "HEAD")
  end.

Fixpoint mux_find (r : Request) (rts : list Route) : option (Route * list (string * string)) :=
  match rts with
  | [] => None
  | rt :: rest =>
      match route_match r rt, mux_find r rest with
      | Some vs, Some (rt', vs') => if more_specific rt' rt then Some (rt', vs') else Some (rt, vs)
      | Some vs, None => Some (rt, vs)
      | None, found => found
      end
  end.

(** The handler of a route behind its gate. *)
Definition route_handler (wired : bool) (rt : Route) : Handler :=
  let h := λ r c, mret (Reached rt r c) in
  match rt_Gate rt with
  | Open => h
  | Gated perm => rbacGate wired perm h
  | GatedScoped perm scopeType param => rbacGateScoped wired perm scopeType (pathScope param) h
  end.

(** [Router.ServeHTTP]: 404, or 405 when only the method differs. *)
Definition ServeHTTP (wired : bool) : Handler := λ r c,
  match mux_find r routes with
  | Some (rt, vs) => route_handler wired rt (with_path_values vs r) c
  | None =>
      if existsb (λ rt, bool_decide (is_Some
           (match_segs (Split "/" (rt_Path rt)) (Split "/" (rq_Path r))))) routes
      then mret (Status 405 "Method Not Allowed") else mret (Status 404 "404 page not found")
  end.
End Router.
Import Router.

(** ** cmd/server: the chain and the outer dispatch *)
Module Server.
Section server.
Context `{C : Ciphers}.
Variable ToLower : string → string.
Variable client_ip : Request → string.

Record Deployment := mkDeployment {
  dp_authNone : bool;                     (* CERTCTL_AUTH_TYPE=none *)
  dp_keyStore : list entry;
  dp_sessions : SessionService.Service;
  dp_dashboard : bool
}.
Variable dp : Deployment.

(** main.go: the Bearer middleware by authentication type. *)
Definition bearerMiddleware : Handler → Handler :=
  if dp_authNone dp then NewDemoModeAuth else NewAuthWithKeyStore (Some (dp_keyStore dp)).

Definition authMiddleware : Handler → Handler :=
  ChainAuthSessionThenBearer (NewSessionMiddleware ToLower client_ip (Some (dp_sessions dp)))
    (Some bearerMiddleware).

Definition apiHandler : Handler :=
  authMiddleware (NewCSRFMiddleware (Some (dp_sessions dp)) (Router.ServeHTTP true)).
Definition noAuthHandler : Handler := Router.ServeHTTP true.

Definition buildFinalHandler (api noAuth : Handler) (dashboardEnabled : bool) : Handler := λ r c,
  let path := rq_Path r in
  if bool_decide (path ∈ ["/health"; "/ready"; "/api/v1/auth/info"; "/api/v1/version"])
  then noAuth r c else
  if HasPrefix path "/auth/" then noAuth r c else
  if HasPrefix path "/.well-known/pki" then noAuth r c else
  if HasPrefix path "/.well-known/est" then noAuth r c else
  if bool_decide (path = "/scep") || HasPrefix path "/scep/" then noAuth r c else
  if bool_decide (path = "/scep-mtls") || HasPrefix path "/scep-mtls/" then noAuth r c else
  if HasPrefix path "/api/v1/" then api r c else
  if negb dashboardEnabled then api r c else
  if HasPrefix path "/assets/" then mret (Static path) else
  mret (Static "/index.html").

Definition serve (r : Request) : M IdentityDB Response :=
  buildFinalHandler apiHandler noAuthHandler (dp_dashboard dp) r background.
End server.
End Server.
