(* ===== verification/AuthGateFacts.v ===== *)
(** * What the authentication gate guarantees

    A gated handler is reached only by an authenticated and authorised request, with a
    CSRF token when a session cookie authenticates a state change; the route table gates
    every state-changing API route but the bootstrap one; and two groups of routes that
    are documented as open cannot be reached without credentials. *)

From Stdlib Require Import ZArith Lia Ascii String.
From stdpp Require Import prelude gmap strings list sorting pretty.
From S2P Require Import Prelude AuditTrail Store Rbac RbacFacts GoBytes KeyCrypto Identity.
From S2P Require Import Session SessionFacts AuthGate.
Import AuthService Cookies KeyStore Gate Router Server.

(** ** Strings *)
Lemma str_take_drop n s : str_take n s +:+ str_drop n s = s.
Proof.
  unfold str_take. revert s. induction n as [|n IH]; intros [|c s]; cbn; try done.
  rewrite string_cons_app. by rewrite IH.
Qed.

Lemma Split_inv sep s w ws :
  Split sep s = w :: ws → (ws = [] ∧ s = w) ∨ ∃ t, s = w +:+ String sep t ∧ Split sep t = ws.
Proof.
  revert w ws. induction s as [|c s IH]; intros w ws; cbn; [intros [= <- <-]; by left|].
  destruct (Ascii.eqb_spec c sep) as [-> | Hc].
  - intros [= <- <-]. right. by exists s.
  - destruct (Split sep s) as [|w0 ws0] eqn:Es; intros [= <- <-].
    + exfalso. clear -Es. destruct s; cbn in Es; [done|]. destruct (Ascii.eqb _ _); [done|].
      by destruct (Split sep s).
    + destruct (IH w0 ws0 eq_refl) as [[-> ->] | (t & -> & Ht)]; [by left|].
      right. exists t. by rewrite string_cons_app.
Qed.

(** ** The route table *)
Definition gated (rt : Route) : bool := negb (bool_decide (rt_Gate rt = Open)).
Definition gate_permission (rt : Route) : option string :=
  match rt_Gate rt with Open => None | Gated p | GatedScoped p _ _ => Some p end.
Definition api_route (rt : Route) : bool :=
  bool_decide (take 3 (Split "/" (rt_Path rt)) = [""; "api"; "v1"]).

(** Permissions required by routes that the catalogue does not list. *)
Definition uncatalogued : list string := ["auth.user.read"; "auth.user.edit"; "auth.user.deactivate"].

(** the route table gates the API: every route of the table that changes state under
    /api/v1 requires a permission, except the bootstrap route, and every gated route lies
    under /api/v1; no two routes share method and path; and the permissions required are
    those of the canonical catalogue together with auth.user.read, auth.user.edit and
    auth.user.deactivate, which routes require although the catalogue, and hence
    [AddPermission], does not know them. *)
Theorem mutations_gated :
  Forall (λ rt, api_route rt = true → isStateChangingMethod (rt_Method rt) = true →
            rt_Path rt ≠ "/api/v1/auth/bootstrap" → gated rt = true) routes ∧
  Forall (λ rt, gated rt = true → api_route rt = true) routes ∧
  NoDup ((λ rt, (rt_Method rt, rt_Path rt)) <$> routes) ∧
  Forall (λ p, p ∈ Catalogue.CanonicalPermissions ++ uncatalogued) (omap gate_permission routes) ∧
  Forall (λ p, p ∉ Catalogue.CanonicalPermissions ∧ p ∈ omap gate_permission routes) uncatalogued.
Proof.
  split_and!; apply (bool_decide_unpack _); vm_compute; exact I.
Qed.

Lemma gated_api : Forall (λ rt, gated rt = true → api_route rt = true) routes.
Proof. apply (bool_decide_unpack _). vm_compute. exact I. Qed.

Lemma match_segs_literal p pat path vs :
  wildcard p = None → match_segs (p :: pat) path = Some vs →
  ∃ path', path = p :: path' ∧ match_segs pat path' = Some vs.
Proof.
  intros Hp. destruct path as [|x path]; cbn; [done|]. rewrite Hp.
  case_bool_decide as Hx; [|done]. subst. eauto.
Qed.

(** A path matched by a route under /api/v1 is not a protocol endpoint. *)
Lemma api_not_protocol r rt vs :
  api_route rt = true → route_match r rt = Some vs → IsProtocolEndpoint (rq_Path r) = false.
Proof.
  unfold api_route, route_match. intros Ha%bool_decide_eq_true.
  destruct (method_matches _ _); [|done].
  destruct (Split "/" (rt_Path rt)) as [|s0 [|s1 rest]]; try done. injection Ha as -> -> _.
  intros (p1 & H1 & (p2 & -> & _)%match_segs_literal)%match_segs_literal; [|done|done].
  apply Split_inv in H1 as [[[=] _] | (t & -> & Ht)].
  apply Split_inv in Ht as [[_ ->] | (u & -> & _)]; [reflexivity|].
  rewrite !string_cons_app. reflexivity.
Qed.

Lemma mux_find_spec r rts rt vs :
  mux_find r rts = Some (rt, vs) → rt ∈ rts ∧ route_match r rt = Some vs.
Proof.
  induction rts as [|x rts IH]; cbn; [done|].
  destruct (route_match r x) as [vx|] eqn:Ex; destruct (mux_find r rts) as [[rt' vs']|] eqn:Em.
  - case_match; intros [= <- <-]; [|by split; [left|]].
    destruct IH as [? ?]; [done|]. split; [by right|done].
  - intros [= <- <-]. split; [by left|done].
  - intros [= <- <-]. destruct IH as [? ?]; [done|]. split; [by right|done].
  - done.
Qed.

(** ** Behind the router *)

(** The type RequirePermission checks for. *)
Definition actor_type (c : Ctx) : string :=
  if bool_decide (GetActorType c = "") then ActorTypeAPIKey else GetActorType c.

(** The permission and scope a route asks for. *)
Definition requested (rt : Route) (r : Request) : option (string * (string * option string)) :=
  match rt_Gate rt with
  | Open => None
  | Gated perm => Some (perm, (ScopeTypeGlobal, None))
  | GatedScoped perm scopeType param => Some (perm, scope_of scopeType (pathScope param) r)
  end.

Definition authorized (d : IdentityDB) (t : Z) (rt : Route) (r : Request) (c : Ctx) : Prop :=
  GetActorID c ≠ "" ∧
  ∃ perm st sid, requested rt r = Some (perm, (st, sid)) ∧
    granted (id_auth d) t (GetActorID c) (actor_type c) (GetTenantID c) perm st sid.

Lemma GetTenantID_nonempty c : tenant_or_default (GetTenantID c) = GetTenantID c.
Proof.
  unfold tenant_or_default, GetTenantID. destruct (cx_TenantID c) as [t|]; [|done].
  repeat case_bool_decide; done.
Qed.

(** A middleware of permissions lets only authorised requests through. *)
Lemma require_reached perm scope rt r c w r' c' w' :
  IsProtocolEndpoint (rq_Path r) = false →
  RequirePermission perm scope (λ r c, mret (Reached rt r c)) r c w = (Reached rt r' c', w') →
  r' = r ∧ c' = c ∧ GetActorID c ≠ "" ∧
  let '(st, sid) := match scope with Some f => f r | None => (ScopeTypeGlobal, None) end in
  granted (id_auth (w_db w')) (clock w') (GetActorID c) (actor_type c) (GetTenantID c) perm st sid.
Proof.
  intros Hp. unfold RequirePermission. rewrite Hp.
  destruct (match scope with Some f => f r | None => _ end) as [st sid].
  case_bool_decide as Ha; [by intros [=]|]. unfold zoom_auth, mbind, M_bind.
  pose proof (check_permission_spec (GetActorID c) (actor_type c) (GetTenantID c) perm st sid
                (mkWorld (id_auth (w_db w)) (w_env w))) as Hs.
  unfold actor_type in Hs.
  destruct (CheckPermission _ _ _ _ _ _ _) as [[[]|] w1]; try by intros [=].
  destruct Hs as (Hd & _ & Hg & _). intros [= -> -> <-].
  destruct (proj1 (Hg true eq_refl) eq_refl) as [_ Hgr]. split_and!; try done.
  rewrite GetTenantID_nonempty in Hgr. cbn in *. by rewrite Hd.
Qed.

Lemma router_reached r c w rt r' c' w' :
  Router.ServeHTTP true r c w = (Reached rt r' c', w') → gated rt = true →
  c' = c ∧ rt ∈ routes ∧ authorized (w_db w') (clock w') rt r' c.
Proof.
  unfold Router.ServeHTTP. destruct (mux_find r routes) as [[x vs]|] eqn:Em.
  2: { destruct (existsb _ _); intros [=]. }
  apply mux_find_spec in Em as [Hin Hm]. intros Hr Hg.
  assert (x = rt) as ->.
  { revert Hr. unfold route_handler, rbacGate, rbacGateScoped, RequirePermission.
    destruct (rt_Gate x); [by intros [= <-]| |];
      (destruct (IsProtocolEndpoint _); [by intros [= <-]|]); case_bool_decide; try (by intros [=]).
    all: try destruct (scope_of _ _ _); unfold mbind, M_bind; destruct (zoom_auth _ w) as [[[]|] ?];
      by intros [= <-]. }
  assert (IsProtocolEndpoint (rq_Path (with_path_values vs r)) = false) as Hp.
  { eapply api_not_protocol; [|exact Hm]. pose proof gated_api as Ht. rewrite Forall_forall in Ht.
    by apply Ht. }
  unfold route_handler in Hr. unfold authorized, requested.
  destruct (rt_Gate rt) eqn:Eg; [by unfold gated in Hg; rewrite Eg in Hg| |]; cbn in Hr;
    apply require_reached in Hr as (-> & -> & Ha & Hgr); [|done| |done]; split_and!; try done.
  - by exists perm, ScopeTypeGlobal, None.
  - destruct (scope_of _ _ _) as [st sid] eqn:Es. by exists perm, st, sid.
Qed.

(** ** In front of it *)
Section gate.
Context `{C : Ciphers}.
Variable ToLower : string → string.
Variable client_ip : Request → string.
Variable dp : Deployment.
Notation s := (dp_sessions dp).

Definition session_input (r : Request) (value : string) : SessionService.ValidateInput :=
  SessionService.mkValidateInput value (client_ip r) (rq_UserAgent r).

(** The request carries the cookie of a live session of the actor, and its CSRF token when
    it changes state. *)
Definition by_session (d : IdentityDB) (t : Z) (r : Request) (actor type : string) : Prop :=
  ∃ value sess, rq_Cookie r = Some value ∧ accepts s t d (session_input r value) sess ∧
    actor = ses_ActorID sess ∧
    type = (if bool_decide (ses_ActorType sess = "") then ActorTypeAPIKey else ses_ActorType sess) ∧
    (isStateChangingMethod (rq_Method r) = true →
       hashCSRFToken (rq_XCSRFToken r) = ses_CSRFTokenHash sess).

(** The request carries an API key of the store, named after the actor. *)
Definition by_api_key (r : Request) (actor type : string) : Prop :=
  dp_authNone dp = false ∧ type = ActorTypeAPIKey ∧
  ∃ token e, rq_Authorization r = bearer_prefix +:+ token ∧ e ∈ dp_keyStore dp ∧
    en_hash e = HashAPIKey token ∧ actor = en_name e.

(** Authentication is switched off. *)
Definition by_demo_mode (actor type : string) : Prop :=
  dp_authNone dp = true ∧ actor = DemoAnonActorID ∧ type = ActorTypeAnonymous.

Definition authenticated_as (d : IdentityDB) (t : Z) (r : Request) (actor type : string) : Prop :=
  by_session d t r actor type ∨ by_api_key r actor type ∨ by_demo_mode actor type.

Lemma LookupByHash_spec entries h k :
  LookupByHash entries h = Some k → ∃ e, e ∈ entries ∧ en_hash e = h ∧ nk_Name k = en_name e.
Proof.
  induction entries as [|e l IH]; cbn; [done|]. unfold ConstantTimeCompare. case_bool_decide as He.
  - intros [= <-]. exists e. split_and!; [by left|done|done].
  - intros (e' & ? & ? & ?)%IH. exists e'. split_and!; [by right|done|done].
Qed.

(** The Bearer middleware hands over an authenticated context. *)
Lemma bearer_reached next r c w rt r' c' w' :
  bearerMiddleware dp next r c w = (Reached rt r' c', w') →
  ∃ c1, next r c1 w = (Reached rt r' c', w') ∧ cx_session c1 = cx_session c ∧
    (by_api_key r (GetActorID c1) (actor_type c1) ∨ by_demo_mode (GetActorID c1) (actor_type c1) ∨
     GetActorID c1 = "").
Proof.
  unfold bearerMiddleware, by_api_key, by_demo_mode. destruct (dp_authNone dp).
  { intros H. eexists. split_and!; [exact H|done|]. right. left. done. }
  cbn. case_bool_decide as He; [by intros [=]|]. clear He.
  destruct (_ || _) eqn:Ef; [by intros [=]|]. apply orb_false_iff in Ef as [_ Ef].
  apply negb_false_iff, bool_decide_eq_true in Ef.
  destruct (LookupByHash _ _) as [k|] eqn:El; [|by intros [=]]. intros H.
  eexists. split_and!; [exact H|done|]. apply LookupByHash_spec in El as (e & He & Hh & Hn).
  destruct (decide (nk_Name k = "")) as [Hk|Hk].
  - right. right. unfold GetActorID, with_actor, GetUser. cbn. by rewrite bool_decide_eq_true_2.
  - left. unfold GetActorID, with_actor, actor_type, GetActorType. cbn.
    rewrite (bool_decide_eq_false_2 (nk_Name k = "")) by done. split_and!; [done|done|].
    exists (str_drop 7 (rq_Authorization r)), e. split_and!; try done.
    by rewrite <-Ef, str_take_drop.
Qed.

Lemma csrf_reached next r c w rt r' c' w' :
  NewCSRFMiddleware (Some s) next r c w = (Reached rt r' c', w') →
  next r c w = (Reached rt r' c', w') ∧
  (isStateChangingMethod (rq_Method r) = true → ∀ sess, cx_session c = Some sess →
     hashCSRFToken (rq_XCSRFToken r) = ses_CSRFTokenHash sess).
Proof.
  cbn. destruct (isStateChangingMethod _); cbn [negb]; [|by intros H].
  destruct (cx_session c) as [x|]; [|by intros H]. unfold SessionService.ValidateCSRF, ConstantTimeCompare.
  destruct (is_blank _); [by intros [=]|]. case_bool_decide as He; [by intros [=]|].
  case_bool_decide as Hh; cbn; [|by intros [=]]. intros H. split; [done|]. by intros _ ? [= <-].
Qed.

(** The session middleware passes the context on unchanged but for the failure cause, or
    hands over the context of a session the tables accept. *)
Lemma session_reached next r w rt r' c' w' :
  NewSessionMiddleware ToLower client_ip (Some s) next r background w = (Reached rt r' c', w') →
  ∃ c1 w1, next r c1 w1 = (Reached rt r' c', w') ∧
    ((cx_ActorID c1 = None ∧ cx_session c1 = None) ∨
     ∃ value sess, rq_Cookie r = Some value ∧
       accepts s (fst (now w)) (w_db w) (session_input r value) sess ∧
       cx_ActorID c1 = Some (ses_ActorID sess) ∧ cx_ActorType c1 = Some (ses_ActorType sess) ∧
       cx_session c1 = Some sess).
Proof.
  cbn. destruct (rq_Cookie r) as [value|] eqn:Ec; [|intros H; eexists _, w; eauto].
  case_bool_decide as He; [intros H; eexists _, w; eauto|]. unfold mbind, M_bind.
  pose proof (validate_sound_complete ToLower s (session_input r value)) as Hv.
  unfold session_input in *.
  destruct (SessionService.Validate _ _ _ w) as [[sess|e] w1] eqn:Ev.
  - specialize (Hv sess w) as [Hv _]. rewrite Ev in Hv. specialize (Hv eq_refl).
    destruct (SessionService.UpdateLastSeen _ w1) as [? w2]. intros H.
    eexists _, w2. split; [exact H|]. right. exists value, sess. done.
  - destruct (errors_Is _ _); [by intros [=]|]. intros H. eexists _, w1. split; [exact H|]. by left.
Qed.

(** The part of the chain after the session middleware. *)
Lemma bearer_skip_reached r c1 w1 rt r' c' w' :
  bearerSkipIfAuthenticated (Some (bearerMiddleware dp))
    (NewCSRFMiddleware (Some s) (Router.ServeHTTP true)) r c1 w1 = (Reached rt r' c', w') →
  gated rt = true →
  authorized (w_db w') (clock w') rt r' c' ∧
  ((default "" (cx_ActorID c1) ≠ "" ∧ c' = c1 ∧
    (isStateChangingMethod (rq_Method r) = true → ∀ sess, cx_session c1 = Some sess →
       hashCSRFToken (rq_XCSRFToken r) = ses_CSRFTokenHash sess)) ∨
   by_api_key r (GetActorID c') (actor_type c') ∨ by_demo_mode (GetActorID c') (actor_type c')).
Proof.
  intros H Hg. unfold bearerSkipIfAuthenticated in H. case_bool_decide as Ha; cbn [negb] in H.
  - apply bearer_reached in H as (c2 & H & _ & Hby). apply csrf_reached in H as [H _].
    apply router_reached in H as (-> & _ & Hauth); [|done]. split; [done|].
    destruct Hby as [? | [? | Hno]]; [by right; left|by right; right|]. by destruct Hauth.
  - apply csrf_reached in H as [H Hcsrf]. apply router_reached in H as (-> & _ & Hauth); [|done].
    split; [done|]. by left.
Qed.

Lemma api_reached r w rt r' c' w' :
  apiHandler ToLower client_ip dp r background w = (Reached rt r' c', w') → gated rt = true →
  authorized (w_db w') (clock w') rt r' c' ∧
  authenticated_as (w_db w) (fst (now w)) r (GetActorID c') (actor_type c').
Proof.
  intros H Hg. unfold apiHandler, authMiddleware, ChainAuthSessionThenBearer in H.
  apply session_reached in H as (c1 & w1 & H & Hc1).
  apply bearer_skip_reached in H as [Hauth Hby]; [|done]. split; [done|].
  destruct Hby as [(Hne & -> & Hcsrf) | Hby]; [|by right].
  destruct Hc1 as [[Hn _] | (value & sess & Hv & Hacc & Ha & Ht & Hs)]; [by rewrite Hn in Hne|].
  left. exists value, sess. unfold GetActorID, actor_type, GetActorType. rewrite Ha, Ht in *. cbn in *.
  rewrite bool_decide_eq_false_2 by done. split_and!; try done.
  intros Hm. by apply Hcsrf.
Qed.

(** C2: a gated handler runs only for an authenticated, authorised request: when the
    server answers a request by running a handler whose route requires a permission, then
    the request carried the cookie of a session that the tables accept (with the session's
    CSRF token if the method changes state), or a stored API key, or authentication is
    switched off; and the actor so identified holds, at that moment and in its tenant, the
    permission the route asks for on the scope the route asks for. *)
Theorem gated_request_authorized r w rt r' c w' :
  serve ToLower client_ip dp r w = (Reached rt r' c, w') → gated rt = true →
  authenticated_as (w_db w) (fst (now w)) r (GetActorID c) (actor_type c) ∧
  authorized (w_db w') (clock w') rt r' c.
Proof.
  intros H Hg. unfold serve, buildFinalHandler, noAuthHandler in H.
  assert (∀ w0 w1, Router.ServeHTTP true r background w0 = (Reached rt r' c, w1) → False) as Hno.
  { intros w0 w1 H0. apply router_reached in H0 as (_ & _ & [Ha _]); done. }
  repeat match type of H with
         | (if ?b then _ else _) _ = _ => destruct b
         | context [if ?b then _ else _] => destruct b
         end; try (exfalso; exact (Hno _ _ H)); try discriminate H.
  all: by apply api_reached in H as [? ?].
Qed.
End gate.

(** A deployment with one API key, whose actor may read certificates. *)
Definition demo_deployment : Deployment :=
  mkDeployment false (NewKeyStore [mkNamedAPIKey "ci" "secret-token" false]) demo_service true.
Definition demo_tables : IdentityDB :=
  mkIdentityDB
    (mkAuthDB ∅ [mkPermission "p-1" "cert.read" "cert"]
       [mkRolePermission "r-viewer" "p-1" ScopeTypeGlobal None]
       [mkActorRole "ar-1" "ci" ActorTypeAPIKey "r-viewer" 0 None "admin" DefaultTenantID
          ScopeTypeGlobal None] [])
    ∅ ∅ ∅ ∅ ∅ [].
Definition demo_request (authorization : string) : Request :=
  mkRequest "GET" "/api/v1/certificates/mc-1" None authorization "" "" "curl" "10.0.0.9:4711" [].

Lemma gated_request_authorized_witness :
  let '(resp, w') := serve (C:=toy_ciphers) id rq_RemoteAddr demo_deployment
                       (demo_request "Bearer secret-token") (world_at 0 demo_tables) in
  ∃ rt r' c, resp = Reached rt r' c ∧
    authorized (w_db w') (clock w') rt r' c ∧ GetActorID c = "ci" ∧
    rq_PathValues r' = [("id", "mc-1")].
Proof.
  destruct (serve (C:=toy_ciphers) id rq_RemoteAddr demo_deployment
              (demo_request "Bearer secret-token") (world_at 0 demo_tables)) as [resp w'] eqn:E.
  pose proof E as E'. vm_compute in E'. injection E' as Hr _.
  do 3 eexists. split; [exact (eq_sym Hr)|]. rewrite <-Hr in E.
  split; [|vm_compute; split; reflexivity].
  exact (proj2 (gated_request_authorized (C:=toy_ciphers) id rq_RemoteAddr demo_deployment
                  _ _ _ _ _ _ E eq_refl)).
Defined.

(** ** Open routes that need credentials

    [AuthExemptRouterRoutes] lists the bootstrap routes as exempt from authentication, and
    protocol_endpoints.go leaves ACME to its own signatures; but the authentication
    middleware wraps the whole router, and the outer dispatch exempts neither path. *)

(** the bootstrap and ACME routes are not open: with authentication switched on, a
    request without cookie and Authorization header to /api/v1/auth/bootstrap is refused
    with 401 before the router sees it, and one to a path under /acme/ gets the dashboard's
    index page when the dashboard is installed and 401 otherwise. *)
Theorem open_routes_closed `{C : Ciphers} ToLower client_ip (dp : Deployment)
    (method csrf xff ua addr u : string) vs w :
  dp_authNone dp = false →
  let req path := mkRequest method path None "" csrf xff ua addr vs in
  fst (serve ToLower client_ip dp (req "/api/v1/auth/bootstrap") w)
    = Status 401 "Authorization header required" ∧
  fst (serve ToLower client_ip dp (req ("/acme/" +:+ u)) w)
    = (if dp_dashboard dp then Static "/index.html" else Status 401 "Authorization header required").
Proof.
  intros Hauth req. split.
  - unfold serve, buildFinalHandler, apiHandler, authMiddleware, ChainAuthSessionThenBearer,
      bearerSkipIfAuthenticated, bearerMiddleware. rewrite Hauth. reflexivity.
  - unfold serve, buildFinalHandler, apiHandler, authMiddleware, ChainAuthSessionThenBearer,
      bearerSkipIfAuthenticated, bearerMiddleware. rewrite Hauth, !string_cons_app.
    destruct (dp_dashboard dp); reflexivity.
Qed.

Lemma open_routes_closed_witness :
  ("POST", "/api/v1/auth/bootstrap") ∈ AuthExemptRouterRoutes ∧
  fst (serve (C:=toy_ciphers) id rq_RemoteAddr demo_deployment
         (mkRequest "POST" "/api/v1/auth/bootstrap" None "" "" "" "curl" "10.0.0.9:4711" [])
         (world_at 0 demo_tables)) = Status 401 "Authorization header required".
Proof.
  split; [apply (bool_decide_unpack _); vm_compute; exact I|].
  destruct (open_routes_closed (C:=toy_ciphers) id rq_RemoteAddr demo_deployment
              "POST" "" "" "curl" "10.0.0.9:4711" "" [] (world_at 0 demo_tables) eq_refl) as [H _].
  exact H.
Defined.
