(* ===== verification/Breakglass.v ===== *)
(** * Break-glass credentials
      (src/internal/auth/breakglass/service.go and domain/types.go,
       repository/postgres/breakglass.go, the session adapter of cmd/server/wire.go)

    [Module Argon2Hash] is the encoded password hash: [hashPassword] writes it,
    [verifyPassword] parses it back with [fmt.Sscanf] and base64.  [Module BreakglassRepo]
    is the table with its lockout counters, [Module BreakglassService] the service:
    setting a password, logging in, unlocking and removing a credential.  Argon2id is a
    parameter with its documented output length.  [fmt.Sscanf] is modelled for formats of
    literal characters and [%d]. *)

From Stdlib Require Import ZArith Lia Ascii String.
From stdpp Require Import prelude gmap strings list sorting pretty.
From S2P Require Import Prelude AuditTrail Store Rbac GoBytes KeyCrypto Identity Session.

(** ** fmt.Sscanf *)
Module Scan.
Inductive directive := Lit (c : ascii) | Dint | Duint32.

(** White space in front of a number; a newline is an error. *)
Fixpoint SkipSpace (fuel : nat) (l : list Z) : option (list Z) :=
  match fuel with
  | O => Some l
  | S f =>
      match list_find is_Some (flip strip_prefix l <$> space_encodings) with
      | Some (_, Some l') => if bool_decide (head l = Some 10) then None else SkipSpace f l'
      | _ => Some l
      end
  end.

(** The longest run of decimal digits, with its value. *)
Fixpoint scanNumber (acc : Z) (l : list Z) : Z * list Z :=
  match l with
  | b :: l' => if (48 <=? b) && (b <=? 57) then scanNumber (acc * 10 + (b - 48)) l' else (acc, l)
  | [] => (acc, [])
  end.

(** At least one digit, and a value in the given range. *)
Definition scan_in_range (neg : bool) (lo hi : Z) (l : list Z) : option (Z * list Z) :=
  match l with
  | b :: _ =>
      if (48 <=? b) && (b <=? 57) then
        let '(v, rest) := scanNumber 0 l in
        let v := if neg then - v else v in
        if (lo <=? v) && (v <=? hi) then Some (v, rest) else None
      else None
  | [] => None
  end.

Definition scan_int (l : list Z) : option (Z * list Z) :=
  l ← SkipSpace (length l) l;
  match l with
  | 43 :: l' => scan_in_range false (- 2 ^ 63) (2 ^ 63 - 1) l'
  | 45 :: l' => scan_in_range true (- 2 ^ 63) (2 ^ 63 - 1) l'
  | _ => scan_in_range false (- 2 ^ 63) (2 ^ 63 - 1) l
  end.

Definition scan_uint32 (l : list Z) : option (Z * list Z) :=
  l ← SkipSpace (length l) l; scan_in_range false 0 (2 ^ 32 - 1) l.

(** The scanned numbers; input past the format is ignored. *)
Fixpoint scanf (format : list directive) (l : list Z) : option (list Z) :=
  match format with
  | [] => Some []
  | Lit c :: fmt' =>
      match l with
      | b :: l' => if b =? byte_val c then scanf fmt' l' else None
      | [] => None
      end
  | Dint :: fmt' => '(v, l') ← scan_int l; vs ← scanf fmt' l'; Some (v :: vs)
  | Duint32 :: fmt' => '(v, l') ← scan_uint32 l; vs ← scanf fmt' l'; Some (v :: vs)
  end.

Definition Sscanf (str : string) (format : list directive) : option (list Z) :=
  scanf format (bytes_of str).
End Scan.
Import Scan.

(** ** The encoded hash *)

(** [argon2.IDKey(password, salt, time, memory, threads, keyLen)]. *)
Class Argon2 := IDKey : string → string → Z → Z → Z → Z → string.

Class Argon2Ok (A : Argon2) : Prop :=
  IDKey_len p salt t m par n : len (IDKey p salt t m par n) = Z.to_nat n.

Module Argon2Hash.
Definition argon2Memory : Z := 64 * 1024.
Definition argon2Iterations : Z := 3.
Definition argon2Parallelism : Z := 4.
Definition argon2SaltSize : nat := 16.
Definition argon2OutputSize : Z := 32.
(** [argon2.Version], 0x13. *)
Definition argon2_Version : Z := 19.
Definition Argon2idPHCPrefix : string := "$argon2id$".

Section hash.
Context `{A : Argon2}.

(** [fmt.Sprintf] of the encoded hash. *)
Definition encode_hash (salt hash : string) : string :=
  "$argon2id$v=" +:+ pretty argon2_Version +:+ "$m=" +:+ pretty argon2Memory +:+
  ",t=" +:+ pretty argon2Iterations +:+ ",p=" +:+ pretty argon2Parallelism +:+
  "$" +:+ std_EncodeToString salt +:+ "$" +:+ std_EncodeToString hash.

Definition hashPassword `{Entropy} {D} (plaintext : string) : M D (res string) :=
  r ← readRand argon2SaltSize;
  mret match r with
       | Err e => Err e
       | Ok salt => Ok (encode_hash salt (IDKey plaintext salt argon2Iterations argon2Memory
                                            argon2Parallelism argon2OutputSize))
       end.

Definition verifyPassword (plaintext encoded : string) : res bool :=
  if negb (HasPrefix encoded Argon2idPHCPrefix) then Err (ErrMsg "not an argon2id hash") else
  match Split "$" encoded with
  | [_; _; part2; part3; part4; part5] =>
      match Sscanf part2 [Lit "v"; Lit "="; Dint] with
      | Some [version] =>
          if negb (version =? argon2_Version)
          then Err (ErrMsg ("incompatible argon2id version: " +:+ pretty version +:+
                            " (want " +:+ pretty argon2_Version +:+ ")"))
          else
          match Sscanf part3 [Lit "m"; Lit "="; Duint32; Lit ","; Lit "t"; Lit "="; Duint32;
                              Lit ","; Lit "p"; Lit "="; Duint32] with
          | Some [memory; iters; parallelism] =>
              match std_DecodeString part4 with
              | None => Err (ErrMsg "decode salt")
              | Some salt =>
                  match std_DecodeString part5 with
                  | None => Err (ErrMsg "decode hash")
                  | Some want =>
                      let got := IDKey plaintext salt iters memory (parallelism mod 256)
                                   (Z.of_nat (len want)) in
                      Ok (Cookies.ConstantTimeCompare got want)
                  end
              end
          | _ => Err (ErrMsg "parse params")
          end
      | _ => Err (ErrMsg "parse version")
      end
  | parts => Err (ErrMsg ("malformed argon2id hash (parts=" +:+ pretty (length parts) +:+ ")"))
  end.
End hash.
End Argon2Hash.
Import Argon2Hash.

(** ** postgres/breakglass.go *)
Module BreakglassRepo.
Definition ErrBreakglassNotFound := ErrSentinel "breakglass: credential not found".
Definition ErrBreakglassDuplicate := ErrSentinel "breakglass: credential already exists for actor".

(** [WHERE actor_id = $1 AND tenant_id = $2]. *)
Definition credential_of (actorID tenantID : string) (c : BreakglassCredential) : bool :=
  bool_decide (bg_ActorID c = actorID) && bool_decide (bg_TenantID c = tenantID).

Definition find_credential (actorID tenantID : string) (d : IdentityDB) : option BreakglassCredential :=
  head (filter (λ c, credential_of actorID tenantID c = true) (id_breakglass d)).

(** An UPDATE of the rows of an actor. *)
Definition update_credentials (actorID tenantID : string) (f : BreakglassCredential → BreakglassCredential)
    : IdentityDB → IdentityDB :=
  set_breakglass (fmap (λ c, if credential_of actorID tenantID c then f c else c)).

Definition insert_credential (c : BreakglassCredential) (t : Z) : BreakglassCredential :=
  mkBreakglass (bg_ID c) (bg_TenantID c) (bg_ActorID c) (bg_PasswordHash c) t t 0 None None.

(** The primary key, the unique actor_id, the reference to users. *)
Definition BreakglassRepository_Create (c : BreakglassCredential) : M IdentityDB (res unit) :=
  t ← now;
  sql_exec "breakglass create" (λ d,
    if existsb (λ x, bool_decide (bg_ID x = bg_ID c) || bool_decide (bg_ActorID x = bg_ActorID c))
         (id_breakglass d)
    then (Err ErrBreakglassDuplicate, d)
    else if bool_decide (bg_ActorID c ∈ id_users d)
    then (Ok tt, set_breakglass (λ l, l ++ [insert_credential c t]) d)
    else (Err (ErrWrap "breakglass create" (ErrMsg "foreign key constraint")), d)).

Definition GetByActor (actorID tenantID : string) : M IdentityDB (res BreakglassCredential) :=
  r ← sql_query "breakglass get_by_actor" (find_credential actorID tenantID);
  mret match r with
       | Err e => Err e
       | Ok None => Err ErrBreakglassNotFound
       | Ok (Some c) => Ok c
       end.

(** An UPDATE that reports zero rows as not found. *)
Definition exec_update (op actorID tenantID : string) (f : BreakglassCredential → BreakglassCredential)
    : M IdentityDB (res unit) :=
  sql_exec op (λ d,
    match find_credential actorID tenantID d with
    | None => (Err ErrBreakglassNotFound, d)
    | Some _ => (Ok tt, update_credentials actorID tenantID f d)
    end).

Definition with_password (hash : string) (t : Z) (c : BreakglassCredential) : BreakglassCredential :=
  mkBreakglass (bg_ID c) (bg_TenantID c) (bg_ActorID c) hash (bg_CreatedAt c) t 0 None None.

Definition UpdatePasswordHash (actorID tenantID newHash : string) : M IdentityDB (res unit) :=
  t ← now; exec_update "breakglass update_password_hash" actorID tenantID (with_password newHash t).

(** [SET failure_count = failure_count + 1, last_failure_at = NOW(), locked_until = CASE ...]. *)
Definition bg_fail (threshold lockoutDurationSec t : Z) (c : BreakglassCredential) : BreakglassCredential :=
  mkBreakglass (bg_ID c) (bg_TenantID c) (bg_ActorID c) (bg_PasswordHash c) (bg_CreatedAt c)
    (bg_LastPasswordChangeAt c) (bg_FailureCount c + 1)
    (if threshold <=? bg_FailureCount c + 1 then Some (t + lockoutDurationSec * second)
     else bg_LockedUntil c)
    (Some t).

Definition IncrementFailure (actorID tenantID : string) (threshold lockoutDurationSec : Z)
    : M IdentityDB (res BreakglassCredential) :=
  t ← now;
  sql_exec "breakglass increment_failure" (λ d,
    let d' := update_credentials actorID tenantID (bg_fail threshold lockoutDurationSec t) d in
    match find_credential actorID tenantID d' with
    | None => (Err ErrBreakglassNotFound, d')
    | Some c => (Ok c, d')
    end).

Definition bg_reset (c : BreakglassCredential) : BreakglassCredential :=
  mkBreakglass (bg_ID c) (bg_TenantID c) (bg_ActorID c) (bg_PasswordHash c) (bg_CreatedAt c)
    (bg_LastPasswordChangeAt c) 0 None None.

Definition ResetFailureCount (actorID tenantID : string) : M IdentityDB (res unit) :=
  exec_update "breakglass reset_failure_count" actorID tenantID bg_reset.

Definition BreakglassRepository_Delete (actorID tenantID : string) : M IdentityDB (res unit) :=
  sql_exec "breakglass delete" (λ d,
    match find_credential actorID tenantID d with
    | None => (Err ErrBreakglassNotFound, d)
    | Some _ => (Ok tt, set_breakglass (filter (λ c, credential_of actorID tenantID c = false)) d)
    end).

Definition BreakglassRepository_List (tenantID : string) : M IdentityDB (res (list BreakglassCredential)) :=
  sql_query "breakglass list" (λ d,
    merge_sort (asc bg_CreatedAt) (filter (λ c, bg_TenantID c = tenantID) (id_breakglass d))).
End BreakglassRepo.
Import BreakglassRepo.

(** ** breakglass/service.go *)
Module BreakglassService.
Definition ErrDisabled := ErrSentinel "breakglass: service disabled".
Definition ErrInvalidCredentials := ErrSentinel "breakglass: invalid credentials".
Definition ErrWeakPassword := ErrSentinel
  "breakglass: password fails strength requirements (min 12, max 256 bytes)".
Definition ErrUnauthenticated := ErrSentinel "breakglass: caller is unauthenticated".
Definition MinPasswordLengthBytes : nat := 12.
Definition MaxPasswordLengthBytes : Z := 256.

Record BreakglassConfig := mkBreakglassConfig {
  bc_Enabled : bool;
  bc_LockoutThreshold : Z;
  bc_LockoutDuration : Z;
  bc_LockoutResetInterval : Z
}.
Definition DefaultBreakglassConfig : BreakglassConfig :=
  mkBreakglassConfig false 5 (15 * 60 * second) (3600 * second).

(** The collaborators: whether an audit recorder is wired, and the session service behind
    [breakglassSessionMinterAdapter]. *)
Record BreakglassSvc := mkBreakglassSvc {
  bs_audit : bool;
  bs_sessions : option SessionService.Service;
  bs_cfg : BreakglassConfig;
  bs_tenantID : string
}.

Record SetPasswordResult := mkSetPasswordResult { spr_ActorID : string; spr_CreatedAt : Z }.
Record AuthenticateResult := mkAuthenticateResult { atr_CookieValue : string; atr_CSRFToken : string }.

Section service.
Context `{E : Entropy, C : Ciphers, A : Argon2}.
Variable ToLower : string → string.
Variable s : BreakglassSvc.
Notation cfg := (bs_cfg s).

Definition breakglass_audit (action actor resourceID : string) (d : details) : M IdentityDB unit :=
  if bs_audit s then
    _ ← RecordEventWithCategory ToLower actor ActorTypeUser action "auth" "breakglass_credential"
          resourceID d;
    mret tt
  else mret tt.

Definition newCredentialID : M IdentityDB (res string) :=
  r ← readRand 16;
  mret match r with Err e => Err e | Ok b => Ok ("bg-" +:+ b64_EncodeToString b) end.

(** [verifyDummy] only takes time and a salt. *)
Definition verifyDummy : M IdentityDB unit := _ ← readRand argon2SaltSize; mret tt.

(** The adapters of cmd/server/wire.go. *)
Definition mint_session (svc : SessionService.Service) (actorID ip userAgent : string)
    : M IdentityDB (res (string * string)) :=
  r ← SessionService.Create svc actorID ActorTypeUser ip userAgent;
  mret match r with
       | Err e => Err e
       | Ok res => Ok (SessionService.cr_CookieValue res, SessionService.cr_CSRFToken res)
       end.

Definition caller_details (caller target : string) : details :=
  [("caller_actor_id", GStr caller); ("target_actor_id", GStr target)].

(** The best-effort revocation after a credential changed. *)
Definition revoke_sessions_of (action caller target : string) : M IdentityDB unit :=
  match bs_sessions s with
  | None => mret tt
  | Some svc =>
      r ← SessionService.RevokeAllForActor ToLower svc target ActorTypeUser;
      match r with
      | Ok _ => mret tt
      | Err _ => breakglass_audit action caller target
                   (caller_details caller target ++ [("outcome", GStr "session_revoke_failed")])
      end
  end.

(** Update the row, or create it. *)
Definition store_password (target hash : string) : M IdentityDB (res unit) :=
  u ← UpdatePasswordHash target (bs_tenantID s) hash;
  match u with
  | Ok _ => mret (Ok tt)
  | Err e =>
      if negb (errors_Is e ErrBreakglassNotFound) then mret (Err (ErrWrap "breakglass: update" e)) else
      r ← newCredentialID;
      match r with
      | Err e => mret (Err (ErrWrap "breakglass: id generate" e))
      | Ok newID =>
          c ← BreakglassRepository_Create
                (mkBreakglass newID (bs_tenantID s) target hash zero_time zero_time 0 None None);
          mret match c with
               | Err e => Err (ErrWrap "breakglass: create" e)
               | Ok _ => Ok tt
               end
      end
  end.

Definition SetPassword (callerActorID targetActorID plaintext : string)
    : M IdentityDB (res SetPasswordResult) :=
  if negb (bc_Enabled cfg) then mret (Err ErrDisabled) else
  if is_blank callerActorID then mret (Err ErrUnauthenticated) else
  if is_blank targetActorID then mret (Err (ErrMsg "breakglass: target actor id is required")) else
  if (Z.of_nat (len plaintext) <? Z.of_nat MinPasswordLengthBytes) ||
     (MaxPasswordLengthBytes <? Z.of_nat (len plaintext))
  then mret (Err ErrWeakPassword) else
  h ← hashPassword plaintext;
  match h with
  | Err e => mret (Err (ErrWrap "breakglass: hash password" e))
  | Ok hash =>
      p ← store_password targetActorID hash;
      match p with
      | Err e => mret (Err e)
      | Ok _ =>
          _ ← breakglass_audit "auth.breakglass_password_set" callerActorID targetActorID
                (caller_details callerActorID targetActorID);
          _ ← revoke_sessions_of "auth.breakglass_password_set" callerActorID targetActorID;
          t ← now;
          mret (Ok (mkSetPasswordResult targetActorID t))
      end
  end.

(** [int(s.cfg.LockoutDuration.Seconds())]. *)
Definition lockout_seconds : Z := Z.quot (bc_LockoutDuration cfg) second.

Definition login_failed (actorID category ip : string) : M IdentityDB unit :=
  breakglass_audit "auth.breakglass_login_failed" actorID actorID
    [("actor_id", GStr actorID); ("failure_category", GStr category); ("ip_address", GStr ip)].

(** The lockout check of a row. *)
Definition is_locked (t : Z) (c : BreakglassCredential) : bool :=
  match bg_LockedUntil c with Some u => t <? u | None => false end.

(** Whether the failures of a row have aged out. *)
Definition aged_out (t : Z) (c : BreakglassCredential) : bool :=
  match bg_LastFailureAt c with
  | Some l => (bc_LockoutResetInterval cfg <? t - l) && (0 <? bg_FailureCount c)
  | None => false
  end.

(** After the password has been verified. *)
Definition login_succeeded (actorID ip userAgent : string) : M IdentityDB (res AuthenticateResult) :=
  _ ← ResetFailureCount actorID (bs_tenantID s);
  _ ← breakglass_audit "auth.breakglass_login_succeeded" actorID actorID
        [("actor_id", GStr actorID); ("ip_address", GStr ip)];
  match bs_sessions s with
  | None => mret (Ok (mkAuthenticateResult "" ""))
  | Some svc =>
      r ← mint_session svc actorID ip userAgent;
      mret match r with
           | Err e => Err (ErrWrap "breakglass: session mint" e)
           | Ok (cookie, csrf) => Ok (mkAuthenticateResult cookie csrf)
           end
  end.

(** The row is read before the slow comparison and the failure is counted after it; logins at the
    same time all compare (BreakglassFacts, [parallel_guesses_compared]). *)
Definition Authenticate (actorID plaintext ip userAgent : string)
    : M IdentityDB (res AuthenticateResult) :=
  if negb (bc_Enabled cfg) then mret (Err ErrDisabled) else
  g ← GetByActor actorID (bs_tenantID s);
  match g with
  | Err _ =>
      _ ← login_failed actorID "no_credential_or_lookup_error" ip;
      _ ← verifyDummy;
      mret (Err ErrInvalidCredentials)
  | Ok cred =>
      t ← now;
      if is_locked t cred then
        _ ← login_failed actorID "locked" ip;
        _ ← verifyDummy;
        mret (Err ErrInvalidCredentials)
      else
        _ ← (if aged_out t cred then _ ← ResetFailureCount actorID (bs_tenantID s); mret tt
             else mret tt);
        match verifyPassword plaintext (bg_PasswordHash cred) with
        | Ok true => login_succeeded actorID ip userAgent
        | _ =>
            _ ← IncrementFailure actorID (bs_tenantID s) (bc_LockoutThreshold cfg) lockout_seconds;
            _ ← login_failed actorID "wrong_password" ip;
            mret (Err ErrInvalidCredentials)
        end
  end.

Definition Unlock (callerActorID targetActorID : string) : M IdentityDB (res unit) :=
  if negb (bc_Enabled cfg) then mret (Err ErrDisabled) else
  if is_blank callerActorID then mret (Err ErrUnauthenticated) else
  r ← ResetFailureCount targetActorID (bs_tenantID s);
  match r with
  | Err e => mret (Err (ErrWrap "breakglass: unlock" e))
  | Ok _ =>
      _ ← breakglass_audit "auth.breakglass_unlocked" callerActorID targetActorID
            (caller_details callerActorID targetActorID);
      mret (Ok tt)
  end.

Definition RemoveCredential (callerActorID targetActorID : string) : M IdentityDB (res unit) :=
  if negb (bc_Enabled cfg) then mret (Err ErrDisabled) else
  if is_blank callerActorID then mret (Err ErrUnauthenticated) else
  r ← BreakglassRepository_Delete targetActorID (bs_tenantID s);
  match r with
  | Err e => mret (Err (ErrWrap "breakglass: remove" e))
  | Ok _ =>
      _ ← breakglass_audit "auth.breakglass_credential_removed" callerActorID targetActorID
            (caller_details callerActorID targetActorID);
      _ ← revoke_sessions_of "auth.breakglass_credential_removed" callerActorID targetActorID;
      mret (Ok tt)
  end.

Definition ListCredentials : M IdentityDB (res (list BreakglassCredential)) :=
  if negb (bc_Enabled cfg) then mret (Err ErrDisabled) else
  r ← BreakglassRepository_List (bs_tenantID s);
  mret match r with Err e => Err (ErrWrap "breakglass: list" e) | Ok l => Ok l end.
End service.
End BreakglassService.
