(* ===== verification/BreakglassFacts.v ===== *)
(** * What break-glass credentials guarantee

    A stored hash verifies exactly the password it was made from; a login succeeds only
    with a verified password on an unlocked account; guessing is bounded by the lockout;
    a new password ends every session of the actor. *)

From Stdlib Require Import ZArith Lia Ascii String.
From stdpp Require Import prelude gmap strings list sorting pretty.
From S2P Require Import Prelude AuditTrail Store Rbac GoBytes KeyCrypto Identity Session.
From S2P Require Import SessionFacts SessionLife Breakglass.
Import Scan Argon2Hash BreakglassRepo BreakglassService.

(** ** The encoded hash *)
Section hash.
Context `{AO : Argon2Ok, EO : EntropyOk}.

(** The derived key at the parameters the service uses. *)
Definition kdf (password salt : string) : string :=
  IDKey password salt argon2Iterations argon2Memory argon2Parallelism argon2OutputSize.

Lemma encoded_parts salt hash :
  Split "$" (encode_hash salt hash)
  = [""; "argon2id"; "v=19"; "m=65536,t=3,p=4"; std_EncodeToString salt; std_EncodeToString hash].
Proof.
  change (encode_hash salt hash) with
    ("" +:+ String "$" ("argon2id" +:+ String "$" ("v=19" +:+ String "$" ("m=65536,t=3,p=4" +:+
       String "$" (std_EncodeToString salt +:+ String "$" (std_EncodeToString hash)))))).
  do 4 (rewrite Split_app by done). rewrite Split_app by apply std_EncodeToString_no_dollar.
  by rewrite Split_last by apply std_EncodeToString_no_dollar.
Qed.

Lemma encoded_prefix salt hash : HasPrefix (encode_hash salt hash) Argon2idPHCPrefix = true.
Proof.
  exact (HasPrefix_app "$argon2id$" ("v=19$m=65536,t=3,p=4$" +:+ std_EncodeToString salt +:+ "$" +:+
           std_EncodeToString hash)).
Qed.

Lemma verify_encoded password password' salt :
  verifyPassword password' (encode_hash salt (kdf password salt))
  = Ok (bool_decide (kdf password' salt = kdf password salt)).
Proof.
  unfold verifyPassword. rewrite encoded_parts.
  rewrite encoded_prefix. cbn [negb].
  change (Sscanf "v=19" _) with (Some [19]).
  change (Sscanf "m=65536,t=3,p=4" _) with (Some [65536; 3; 4]).
  cbn [Z.eqb argon2_Version negb Pos.eqb]. unfold std_DecodeString, std_EncodeToString.
  rewrite !decode64_encode64 by apply _. unfold Cookies.ConstantTimeCompare.
  assert (len (kdf password salt) = 32%nat) as -> by apply IDKey_len. done.
Qed.

(** a stored hash verifies exactly the password it was made from: [verifyPassword] of
    the text [hashPassword] writes parses back the version, the parameters, the salt and
    the key, accepts the password that was hashed, and accepts another one only if
    Argon2id derives the same key from it under the salt of the hash. *)
Theorem password_hash_roundtrip {D} (password h : string) (w w' : World D) :
  hashPassword password w = (Ok h, w') →
  verifyPassword password h = Ok true ∧
  ∃ salt, len salt = argon2SaltSize ∧ HasPrefix h Argon2idPHCPrefix = true ∧
    ∀ password', verifyPassword password' h = Ok (bool_decide (kdf password' salt = kdf password salt)).
Proof.
  unfold hashPassword, mbind, M_bind. destruct (readRand _ w) as [[salt|] w1] eqn:Er; intros [= <- <-].
  change (IDKey _ _ _ _ _ _) with (kdf password salt). split.
  - rewrite verify_encoded. by rewrite bool_decide_true.
  - exists salt. split_and!; [by eapply readRand_ok| |intros; apply verify_encoded].
    apply encoded_prefix.
Qed.
End hash.

(** A small Argon2id stand-in: the password and the salt hashed, cut to the length. *)
Definition toy_argon2 : Argon2 := λ p salt _ _ _ n,
  of_bytes (take (Z.to_nat n) (bytes_of (Sum256 (p +:+ salt)) ++ replicate (Z.to_nat n) 0)).

#[global] Instance toy_argon2_ok : Argon2Ok toy_argon2.
Proof.
  intros p salt t m par n. unfold toy_argon2, IDKey.
  rewrite len_of_bytes, length_take, length_app, length_replicate. lia.
Qed.

Lemma password_hash_roundtrip_witness :
  let w := world_at 0 empty_identity in
  let h := match fst (hashPassword (A:=toy_argon2) (H:=toy_entropy) "correct horse" w) with
           | Ok h => h | Err _ => "" end in
  verifyPassword (A:=toy_argon2) "correct horse" h = Ok true ∧
  verifyPassword (A:=toy_argon2) "battery staple" h = Ok false.
Proof.
  cbv zeta. set (w := world_at 0 empty_identity).
  destruct (hashPassword (A:=toy_argon2) (H:=toy_entropy) "correct horse" w) as [[h|] w'] eqn:Eh;
    [|by vm_compute in Eh].
  destruct (password_hash_roundtrip (AO:=toy_argon2_ok) (EO:=toy_entropy_ok) _ _ _ _ Eh) as [H _].
  split; [exact H|]. apply (f_equal fst) in Eh. vm_compute in Eh. injection Eh as <-.
  vm_compute. reflexivity.
Defined.

(** ** The table *)
Section table.
Variables (a te : string).
Notation row := (find_credential a te).

(** Fields an update of a row keeps. *)
Definition keeps_owner (f : BreakglassCredential → BreakglassCredential) : Prop :=
  ∀ c, bg_ActorID (f c) = bg_ActorID c ∧ bg_TenantID (f c) = bg_TenantID c.

Lemma credential_of_owner f a' te' c :
  keeps_owner f → credential_of a' te' (f c) = credential_of a' te' c.
Proof. intros H. unfold credential_of. by destruct (H c) as [-> ->]. Qed.

Lemma find_update_own f d :
  keeps_owner f → row (update_credentials a te f d) = f <$> row d.
Proof.
  intros Hf. unfold find_credential, update_credentials, set_breakglass. cbn.
  induction (id_breakglass d) as [|c l IH]; [done|]. rewrite fmap_cons, !filter_cons.
  destruct (credential_of a te c) eqn:Ec.
  - rewrite (credential_of_owner f) by done. rewrite Ec. rewrite !decide_True by done. done.
  - rewrite Ec, !decide_False by done. exact IH.
Qed.

Lemma find_update_other f a' te' d :
  keeps_owner f → a' ≠ a → row (update_credentials a' te' f d) = row d.
Proof.
  intros Hf Hne. unfold find_credential, update_credentials, set_breakglass. cbn.
  induction (id_breakglass d) as [|c l IH]; [done|]. rewrite fmap_cons, !filter_cons.
  destruct (credential_of a' te' c) eqn:Ec.
  - assert (credential_of a te c = false) as Hc.
    { unfold credential_of in *. apply andb_true_iff in Ec as [->%bool_decide_eq_true _].
      by rewrite bool_decide_false. }
    rewrite (credential_of_owner f) by done. rewrite Hc, !decide_False by done. exact IH.
  - destruct (credential_of a te c); [by rewrite !decide_True by done|].
    by rewrite !decide_False by done.
Qed.

Lemma bg_fail_owner th secs t : keeps_owner (bg_fail th secs t).
Proof. done. Qed.
Lemma bg_reset_owner : keeps_owner bg_reset.
Proof. done. Qed.

(** The row stays as it is and time goes on. *)
Definition calm (w w' : World IdentityDB) : Prop :=
  env_le (w_env w) (w_env w') ∧ row (w_db w') = row (w_db w).

#[global] Instance calm_preorder : PreOrder calm.
Proof.
  split.
  - intros w. by split.
  - intros w1 w2 w3 [H1 H2] [H3 H4]. split; [by etransitivity|congruence].
Qed.
#[global] Instance calm_steady : Steady calm.
Proof. intros w w' Hd He. split; [done|by rewrite Hd]. Qed.

Lemma calm_db d d' e : id_breakglass d' = id_breakglass d → calm (mkWorld d e) (mkWorld d' e).
Proof. intros H. split; [done|]. unfold find_credential. cbn. by rewrite H. Qed.
End table.

(** ** Guessing *)
Record attempt := mkAttempt {
  at_Actor : string; at_Password : string; at_IP : string; at_UserAgent : string }.

Section guessing.
Context `{E : Entropy, C : Ciphers, A : Argon2}.
Variable ToLower : string → string.
Variable s : BreakglassSvc.
Variable a : string.
Notation cfg := (bs_cfg s).
Notation te := (bs_tenantID s).
Notation row := (find_credential a te).
Notation calm := (calm a te).

Lemma calm_audit b c r d : wpres calm (breakglass_audit ToLower s b c r d).
Proof.
  unfold breakglass_audit, RecordEventWithCategory, generateID, AuditRepository_Create.
  repeat wstep. repeat case_match; by apply calm_db.
Qed.

Lemma calm_create svc ac ty ip ua : wpres calm (SessionService.Create svc ac ty ip ua).
Proof.
  unfold SessionService.Create, KeyRepo.GetActive, SessionService.newOpaqueID,
    SessionService.newCSRFToken, SessionRepo.Create.
  repeat wstep; repeat case_match; by apply calm_db.
Qed.

Lemma calm_update op ac f : keeps_owner f → ac ≠ a → wpres calm (exec_update op ac te f).
Proof.
  intros Hf Hne. unfold exec_update. wstep. case_match; [|reflexivity].
  split; [done|]. by apply find_update_other.
Qed.

Lemma calm_failed ac cat ip : wpres calm (login_failed ToLower s ac cat ip).
Proof. apply calm_audit. Qed.
#[local] Hint Resolve calm_failed : certctl.

Lemma calm_succeeded ac ip ua : ac ≠ a → wpres calm (login_succeeded ToLower s ac ip ua).
Proof.
  intros Hne. unfold login_succeeded, ResetFailureCount, mint_session.
  repeat first [ simple apply calm_audit | simple apply calm_create
               | simple apply calm_update; [exact bg_reset_owner|exact Hne] | wstep ].
Qed.

Lemma calm_increment ac th secs : ac ≠ a → wpres calm (IncrementFailure ac te th secs).
Proof.
  intros Hne. unfold IncrementFailure. repeat wstep. cbv zeta.
  case_match; (split; [done|]); by apply find_update_other.
Qed.

(** Logins of the other actors leave the row alone. *)
Lemma calm_other ac pw ip ua : ac ≠ a → wpres calm (Authenticate ToLower s ac pw ip ua).
Proof.
  intros Hne. unfold Authenticate, GetByActor, verifyDummy, ResetFailureCount.
  repeat first [ simple apply calm_failed | simple apply calm_succeeded; exact Hne
               | simple apply calm_increment; exact Hne
               | simple apply calm_update; [exact bg_reset_owner|exact Hne] | wstep ].
Qed.

(** The time at which the password of a login is compared with the stored hash. *)
Definition guess_time (w : World IdentityDB) : option Z :=
  match row (w_db w) with
  | Some c => let t := fst (now w) in if is_locked t c then None else Some t
  | None => None
  end.

Lemma GetByActor_run ac (w : World IdentityDB) :
  env_faults (w_env w) = [] →
  GetByActor ac te w = (match find_credential ac te (w_db w) with
                        | Some c => Ok c | None => Err ErrBreakglassNotFound end, w).
Proof.
  intros Hf. unfold GetByActor, mbind, M_bind. rewrite query_run by done.
  by destruct (find_credential ac te (w_db w)).
Qed.

(** A login whose password is not compared tells nothing about it. *)
Lemma uncompared pw pw' ip ua (w : World IdentityDB) :
  env_faults (w_env w) = [] → guess_time w = None →
  Authenticate ToLower s a pw ip ua w = Authenticate ToLower s a pw' ip ua w.
Proof.
  intros Hf. unfold guess_time, Authenticate. destruct (bc_Enabled cfg); [|done]. cbn [negb].
  rewrite !(bind_run _ _ _ _ _ (GetByActor_run a w Hf)).
  destruct (row (w_db w)) as [c|]; [|done]. destruct (now w) as [t w1] eqn:En.
  rewrite !(bind_run _ _ _ _ _ En). cbn. by destruct (is_locked t c).
Qed.

(** One counted guess: the failure is recorded, after the aged ones were dropped. *)
Definition after_guess (t b : Z) (c : BreakglassCredential) : BreakglassCredential :=
  bg_fail (bc_LockoutThreshold cfg) (lockout_seconds s) b (if aged_out s t c then bg_reset c else c).

Lemma aged_run (aged : bool) c (w : World IdentityDB) :
  env_faults (w_env w) = [] → row (w_db w) = Some c →
  ∃ d, (if aged then _ ← ResetFailureCount a te; mret tt else mret tt) w = (tt, mkWorld d (w_env w)) ∧
       row d = Some (if aged then bg_reset c else c).
Proof.
  intros Hf Hr. destruct aged; [|exists (w_db w); by destruct w].
  unfold ResetFailureCount, exec_update, mbind, M_bind. rewrite exec_run, Hr by done. cbn.
  eexists. split; [done|]. rewrite find_update_own by apply bg_reset_owner. by rewrite Hr.
Qed.

Lemma increment_run c (w : World IdentityDB) th secs :
  env_faults (w_env w) = [] → row (w_db w) = Some c →
  ∃ r w', IncrementFailure a te th secs w = (r, w') ∧ env_le (w_env w) (w_env w') ∧
    clock w ≤ clock w' ∧ row (w_db w') = Some (bg_fail th secs (clock w') c).
Proof.
  intros Hf Hr. unfold IncrementFailure. destruct (now_clock w) as (Hd & Ht & Hc & Hf1).
  destruct (wpres_now calm w) as [He _]. destruct (now w) as [t w1] eqn:En.
  rewrite (bind_run _ _ _ _ _ En). cbn [fst snd] in *. rewrite exec_run by congruence.
  eexists _, _. split; [reflexivity|]. cbn [w_env]. split_and!; [done|done|].
  rewrite find_update_own by apply bg_fail_owner. rewrite Hd, Hr. cbn.
  rewrite Ht, find_update_own by apply bg_fail_owner. by rewrite Hr.
Qed.

Lemma own_wrong pw ip ua c (w : World IdentityDB) :
  env_faults (w_env w) = [] → bc_Enabled cfg = true → row (w_db w) = Some c →
  verifyPassword pw (bg_PasswordHash c) ≠ Ok true →
  let w' := snd (Authenticate ToLower s a pw ip ua w) in
  env_le (w_env w) (w_env w') ∧
  match guess_time w with
  | None => row (w_db w') = Some c
  | Some t => ∃ b, clock w ≤ t ≤ b ∧ b ≤ clock w' ∧ row (w_db w') = Some (after_guess t b c)
  end.
Proof.
  intros Hf He Hr Hv. cbv zeta. unfold guess_time, Authenticate. rewrite He, Hr. cbn [negb].
  rewrite (bind_run _ _ _ _ _ (GetByActor_run a w Hf)), Hr.
  destruct (now_clock w) as (Hd1 & Ht & Hc1 & Hf1). pose proof (wpres_now calm w) as Hcalm1.
  destruct (now w) as [t w1] eqn:En. rewrite (bind_run _ _ _ _ _ En). cbn [fst snd] in *.
  destruct (is_locked t c) eqn:El.
  { assert (wpres calm (_ ← login_failed ToLower s a "locked" ip; _ ← verifyDummy;
              mret (Err ErrInvalidCredentials : res AuthenticateResult))) as H.
    { unfold verifyDummy. repeat wstep. }
    destruct (H w1) as [H1 H2]. destruct Hcalm1 as [H3 H4]. split; [by etransitivity|].
    by rewrite H2, Hd1. }
  destruct (aged_run (aged_out s t c) c w1) as (d2 & E2 & Hr2); [congruence|by rewrite Hd1|].
  rewrite (bind_run _ _ _ _ _ E2).
  destruct (increment_run _ (mkWorld d2 (w_env w1)) (bc_LockoutThreshold cfg) (lockout_seconds s)
              ltac:(cbn; congruence) Hr2) as (r & w3 & E3 & He3 & Hc3 & Hr3).
  assert (wpres calm (_ ← login_failed ToLower s a "wrong_password" ip;
            mret (Err ErrInvalidCredentials : res AuthenticateResult))) as H by repeat wstep.
  destruct (H w3) as [H1 H2]. destruct Hcalm1 as [H3 _]. cbn [w_env] in He3.
  destruct (verifyPassword pw (bg_PasswordHash c)) as [[|]|]; try done;
    rewrite (bind_run _ _ _ _ _ E3);
    (split; [etransitivity; [exact H3|]; etransitivity; [exact He3|exact H1]|]);
    exists (clock w3); destruct H1 as [H1 _]; unfold clock in *; cbn [w_env] in Hc3;
    (split; [lia|]); (split; [exact H1|]); by rewrite H2, Hr3.
Qed.

(** A sequence of logins, by anyone, and the times of the guesses among them. *)
Definition attempt_login (x : attempt) : M IdentityDB (res AuthenticateResult) :=
  Authenticate ToLower s (at_Actor x) (at_Password x) (at_IP x) (at_UserAgent x).

Fixpoint guesses (xs : list attempt) (w : World IdentityDB) : list Z :=
  match xs with
  | [] => []
  | x :: xs' =>
      (if bool_decide (at_Actor x = a) then option_list (guess_time w) else []) ++
      guesses xs' (snd (attempt_login x w))
  end.

Notation D := (lockout_seconds s * second).
Notation K := (Z.max 1 (bc_LockoutThreshold cfg)).

Definition within (x : Z) (h : list Z) : list Z := filter (λ g, x ≤ g < x + D) h.
Definition recent (t : Z) (h : list Z) : list Z := filter (λ g, t - D < g) h.
Notation size h := (Z.of_nat (length h)).

(** The row remembers the guesses [h] made so far well enough. *)
Definition remembers (hash : string) (h : list Z) (w : World IdentityDB) : Prop :=
  env_faults (w_env w) = [] ∧
  ∃ c, row (w_db w) = Some c ∧ bg_PasswordHash c = hash ∧ 0 ≤ bg_FailureCount c ∧
    (∀ g, g ∈ h → g ≤ clock w ∧ ∃ l, bg_LastFailureAt c = Some l ∧ g ≤ l) ∧
    (∀ t, clock w ≤ t → is_locked t c = false →
       size (recent t h) ≤ bg_FailureCount c ∧ size (recent t h) ≤ K - 1) ∧
    (∀ x, size (within x h) ≤ K).

Lemma recent_old t h : (∀ g, g ∈ h → g ≤ t - D) → recent t h = [].
Proof. intros H. apply filter_none, Forall_forall. intros g Hg%H. lia. Qed.

Lemma recent_snoc t h g : size (recent t (h ++ [g])) ≤ size (recent t h) + 1.
Proof.
  unfold recent. rewrite filter_app, length_app. pose proof (length_filter (λ g, t - D < g) [g]). cbn in *. lia.
Qed.

(** Guesses in a window that ends after [t] are recent at [t]. *)
Lemma within_recent x t h : t < x + D → size (within x h) ≤ size (recent t h).
Proof.
  intros Ht. unfold within, recent. induction h as [|g h IH]; [done|]. rewrite !filter_cons.
  do 2 case_decide; cbn; lia.
Qed.

Lemma within_snoc x h t :
  size (within x h) ≤ K → size (recent t h) ≤ K - 1 → size (within x (h ++ [t])) ≤ K.
Proof.
  intros H1 H2. unfold within in *. rewrite filter_app, length_app, filter_cons, filter_nil.
  case_decide as Hw; cbn [length]; [|lia]. pose proof (within_recent x t h ltac:(lia)).
  unfold within in *. lia.
Qed.

Hypothesis lockout_nonneg : 0 ≤ bc_LockoutDuration cfg.
Hypothesis reset_after_lockout : D ≤ bc_LockoutResetInterval cfg.

Lemma D_nonneg : 0 ≤ D.
Proof. unfold lockout_seconds. assert (0 < second) by done. apply Z.mul_nonneg_nonneg; [by apply Z.quot_pos|lia]. Qed.

(** Time passes. *)
Lemma remembers_calm hash h (w w' : World IdentityDB) :
  calm w w' → remembers hash h w → remembers hash h w'.
Proof.
  intros [(Hc & _ & Hf) Hrow] (H1 & c & H2 & H3 & H4 & H5 & H6 & H7). split; [auto|].
  exists c. unfold clock in *. split_and!; [congruence|done|done| | |done].
  - intros g Hg. destruct (H5 g Hg) as [? ?]. split; [lia|done].
  - intros t Ht. apply H6. lia.
Qed.

(** A guess at [t], recorded at [b]. *)
Lemma remembers_guess hash h t b (w w' : World IdentityDB) c :
  remembers hash h w → row (w_db w) = Some c → is_locked t c = false →
  clock w ≤ t ≤ b → b ≤ clock w' → env_faults (w_env w') = [] →
  row (w_db w') = Some (after_guess t b c) → remembers hash (h ++ [t]) w'.
Proof.
  intros (_ & c' & Hrow & Hh & Hn & Hold & Hrec & Hwin) Hrow' Hl Ht Hb Hf Hnew.
  rewrite Hrow in Hrow'. injection Hrow' as ->. pose proof D_nonneg as HD.
  destruct (Hrec t) as [Hrc Hrk]; [lia|done|].
  split; [done|]. exists (after_guess t b c). unfold after_guess. split_and!; [done| | | | |].
  - by destruct (aged_out s t c).
  - destruct (aged_out s t c); cbn; lia.
  - intros g [Hg | ->%list_elem_of_singleton]%elem_of_app; cbn; (split; [|exists b]); try lia.
    + destruct (Hold g Hg) as [? ?]; lia.
    + destruct (Hold g Hg) as [? ?]; split; [done|lia].
    + by split; [|lia].
  - intros t' Ht' Hl'. pose proof (recent_snoc t' h t) as Hs.
    assert (∀ g, g ∈ h ++ [t] → g ≤ b) as Hle.
    { intros g [Hg | ->%list_elem_of_singleton]%elem_of_app; [destruct (Hold g Hg); lia|lia]. }
    assert (1 ≤ K ∧ bc_LockoutThreshold cfg ≤ K) as [HK1 HK2] by lia.
    revert Hl' Hrec. generalize dependent K. intros k Hwin Hrk HK1 HK2 Hl' Hrec. revert Hl'.
    unfold is_locked, bg_fail, aged_out. cbn [bg_LockedUntil bg_FailureCount].
    destruct (bg_LastFailureAt c) as [l|] eqn:El; [destruct (_ && _) eqn:Ea|];
      cbn [bg_reset bg_LockedUntil bg_FailureCount];
      (destruct (_ <=? _) eqn:Eth; [intros Hl'%Z.ltb_ge; rewrite recent_old; [cbn; lia|intros g Hg%Hle; lia]|]);
      apply Z.leb_gt in Eth; intros Hl'.
    + apply andb_true_iff in Ea as [Ea%Z.ltb_lt _]. rewrite (recent_old t' h) in Hs; [cbn in *; lia|].
      intros g Hg. destruct (Hold g Hg) as (_ & l' & [= <-] & ?). lia.
    + destruct (Hrec t') as [? _]; [lia|exact Hl'|]. lia.
    + destruct (Hrec t') as [? _]; [lia|exact Hl'|]. lia.
  - intros x. by apply within_snoc.
Qed.

(** A login that does not know the password of [a]. *)
Definition wrong_for (hash : string) (x : attempt) : Prop :=
  at_Actor x = a → verifyPassword (at_Password x) hash ≠ Ok true.

Lemma remembers_step hash h x (w : World IdentityDB) :
  bc_Enabled cfg = true → wrong_for hash x → remembers hash h w →
  remembers hash (h ++ (if bool_decide (at_Actor x = a) then option_list (guess_time w) else []))
    (snd (attempt_login x w)).
Proof.
  intros He Hx Hw. case_bool_decide as Ha.
  - specialize (Hx Ha). unfold attempt_login. rewrite Ha.
    pose proof Hw as (Hf & c & Hrow & <- & _).
    destruct (own_wrong (at_Password x) (at_IP x) (at_UserAgent x) c w) as [Hle Hg]; try done.
    unfold guess_time in *. rewrite Hrow in *. destruct (is_locked _ c) eqn:El; cbn [option_list].
    + rewrite app_nil_r. eapply remembers_calm; [|exact Hw]. split; [done|congruence].
    + destruct Hg as (b & H1 & H2 & H3). eapply remembers_guess; try done. by apply Hle.
  - rewrite app_nil_r. eapply remembers_calm; [|exact Hw]. exact (calm_other _ _ _ _ Ha w).
Qed.

Lemma remembers_run hash xs h (w : World IdentityDB) :
  bc_Enabled cfg = true → Forall (wrong_for hash) xs → remembers hash h w →
  ∀ x, size (within x (h ++ guesses xs w)) ≤ K.
Proof.
  intros He Hxs. revert h w. induction Hxs as [|y xs Hy _ IH]; intros h w Hw x; cbn [guesses].
  - rewrite app_nil_r. destruct Hw as (_ & c & _ & _ & _ & _ & _ & H). apply H.
  - rewrite app_assoc. apply IH. by apply remembers_step.
Qed.
End guessing.

(** C25: guessing is bounded by the lockout for logins that come one after another: however many
    logins are tried, each after the answer to the one before, for whatever actors, an attacker
    who does not know the password of an actor gets at most [LockoutThreshold] passwords (one, if
    the threshold is lower) compared with the stored hash in any window as long as the lockout,
    as long as no statement fails and the failures age out no sooner than a lockout ends.  Every
    other login of the actor behaves the same whatever its password is.  Logins that run at the
    same time are not bounded by the lockout: the check reads the row before the comparison and
    the failure is counted after it (parallel_guesses_compared). *)
Theorem guessing_bounded `{E : Entropy, C : Ciphers, A : Argon2} ToLower (s : BreakglassSvc)
    (a : string) (c : BreakglassCredential) (xs : list attempt) (w : World IdentityDB) :
  bc_Enabled (bs_cfg s) = true → 0 ≤ bc_LockoutDuration (bs_cfg s) →
  lockout_seconds s * second ≤ bc_LockoutResetInterval (bs_cfg s) →
  env_faults (w_env w) = [] → find_credential a (bs_tenantID s) (w_db w) = Some c →
  0 ≤ bg_FailureCount c →
  Forall (λ x, at_Actor x = a → verifyPassword (at_Password x) (bg_PasswordHash c) ≠ Ok true) xs →
  (∀ x, Z.of_nat (length (filter (λ g, x ≤ g < x + lockout_seconds s * second)
                            (guesses ToLower s a xs w)))
        ≤ Z.max 1 (bc_LockoutThreshold (bs_cfg s))) ∧
  (∀ w' pw pw' ip ua, env_faults (w_env w') = [] → guess_time s a w' = None →
     Authenticate ToLower s a pw ip ua w' = Authenticate ToLower s a pw' ip ua w').
Proof.
  intros He Hd Hr Hf Hrow Hn Hxs. split; [|intros; by apply uncompared].
  apply (remembers_run ToLower s a Hd Hr (bg_PasswordHash c) xs [] w He Hxs).
  split; [done|]. exists c. split_and!; try done; [set_solver| |];
    intros t; [intros _ _|]; cbn; lia.
Qed.

Definition demo_breakglass : BreakglassSvc :=
  mkBreakglassSvc true (Some demo_service) (mkBreakglassConfig true 2 (900 * second) (3600 * second))
    "t-default".
Definition demo_credential : BreakglassCredential :=
  mkBreakglass "bg-1" "t-default" "u-alice"
    (encode_hash "0123456789abcdef" (kdf (A:=toy_argon2) "correct horse" "0123456789abcdef"))
    0 0 0 None None.
Definition alice_identity : IdentityDB :=
  mkIdentityDB (id_auth empty_identity) ∅ ∅ ∅ ∅ {["u-alice"]} [demo_credential].

Lemma guessing_bounded_witness :
  let w := mkWorld alice_identity (mkEnv 0 (replicate 30 1%N) [] 0) in
  let xs := replicate 6 (mkAttempt "u-alice" "battery staple" "" "") in
  let gs := guesses (E:=toy_entropy) (C:=toy_ciphers) (A:=toy_argon2) id demo_breakglass "u-alice" xs w in
  length gs = 2%nat ∧ Z.of_nat (length (filter (λ g, 0 ≤ g < 0 + 900 * second) gs)) ≤ 2.
Proof.
  cbv zeta. split; [vm_compute; reflexivity|].
  apply (guessing_bounded (E:=toy_entropy) (C:=toy_ciphers) (A:=toy_argon2) id demo_breakglass "u-alice"
           demo_credential); try reflexivity; try done.
  apply Forall_replicate. intros _. vm_compute. intros [=].
Defined.

(** ** Logins at the same time

    [Authenticate] in two halves: the row is read and checked, then the password is compared and
    the verdict written.  Between the halves of one login those of others may run. *)
Section halves.
Context `{E : Entropy, C : Ciphers, A : Argon2}.
Variable ToLower : string → string.
Variable s : BreakglassSvc.
Notation cfg := (bs_cfg s).
Notation te := (bs_tenantID s).

Definition login_check (actorID ip : string) : M IdentityDB (res (Z * BreakglassCredential)) :=
  if negb (bc_Enabled cfg) then mret (Err ErrDisabled) else
  g ← GetByActor actorID te;
  match g with
  | Err _ =>
      _ ← login_failed ToLower s actorID "no_credential_or_lookup_error" ip;
      _ ← verifyDummy;
      mret (Err ErrInvalidCredentials)
  | Ok cred =>
      t ← now;
      if is_locked t cred then
        _ ← login_failed ToLower s actorID "locked" ip;
        _ ← verifyDummy;
        mret (Err ErrInvalidCredentials)
      else mret (Ok (t, cred))
  end.

Definition login_judge (actorID plaintext ip userAgent : string) (t : Z) (cred : BreakglassCredential)
    : M IdentityDB (res AuthenticateResult) :=
  _ ← (if aged_out s t cred then _ ← ResetFailureCount actorID te; mret tt else mret tt);
  match verifyPassword plaintext (bg_PasswordHash cred) with
  | Ok true => login_succeeded ToLower s actorID ip userAgent
  | _ =>
      _ ← IncrementFailure actorID te (bc_LockoutThreshold cfg) (lockout_seconds s);
      _ ← login_failed ToLower s actorID "wrong_password" ip;
      mret (Err ErrInvalidCredentials)
  end.

(** The halves are [Authenticate]. *)
Lemma Authenticate_halves a pw ip ua (w : World IdentityDB) :
  Authenticate ToLower s a pw ip ua w =
  (r ← login_check a ip;
   match r with Err e => mret (Err e) | Ok (t, cred) => login_judge a pw ip ua t cred end) w.
Proof.
  unfold Authenticate, login_check, login_judge. destruct (bc_Enabled cfg); [|done]. cbn [negb].
  unfold mbind, M_bind. destruct (GetByActor a te w) as [[cred|e] w1].
  - destruct (now w1) as [t w2]. destruct (is_locked t cred); [|done].
    destruct (login_failed _ _ _ _ _ w2) as [u w3]. by destruct (verifyDummy w3).
  - destruct (login_failed _ _ _ _ _ w1) as [u w3]. by destruct (verifyDummy w3).
Qed.

(** The checks of [n] logins of one actor, none of which has been judged yet. *)
Fixpoint login_checks (n : nat) (a ip : string) : M IdentityDB (list (res (Z * BreakglassCredential))) :=
  match n with
  | O => mret []
  | S n' => r ← login_check a ip; rest ← login_checks n' a ip; mret (r :: rest)
  end.

Definition passed_with (c : BreakglassCredential) (r : res (Z * BreakglassCredential)) : bool :=
  match r with Ok (_, c') => bool_decide (bg_PasswordHash c' = bg_PasswordHash c) | Err _ => false end.

(** Any number of logins that start before the first of them is judged have their passwords
    compared, whatever the threshold. *)
Theorem parallel_guesses_compared n a ip c (w : World IdentityDB) :
  bc_Enabled cfg = true → env_faults (w_env w) = [] → find_credential a te (w_db w) = Some c →
  bg_LockedUntil c = None →
  let '(rs, w') := login_checks n a ip w in
  length rs = n ∧ Forall (λ r, passed_with c r = true) rs ∧ w_db w' = w_db w.
Proof.
  intros He Hf Hc Hl. revert w Hf Hc. induction n as [|n IH]; intros w Hf Hc; [done|].
  cbn [login_checks]. unfold login_check at 1. rewrite He. cbn [negb]. unfold mbind, M_bind.
  rewrite GetByActor_run, Hc by done. destruct (now_run w) as (t & w1 & -> & Hdb & Hf1).
  unfold is_locked at 1. rewrite Hl. cbn [mret M_ret].
  specialize (IH w1 ltac:(congruence) ltac:(congruence)). unfold mbind, M_bind in IH.
  destruct (login_checks n a ip w1) as [rs w2]. destruct IH as (H1 & H2 & H3).
  cbn. split_and!; [by rewrite H1| |congruence]. constructor; [|done]. cbn. by rewrite bool_decide_eq_true_2.
Qed.
End halves.

Lemma parallel_guesses_compared_witness :
  let w := mkWorld alice_identity (mkEnv 0 (replicate 30 1%N) [] 0) in
  let rs := (login_checks (E:=toy_entropy) id demo_breakglass 6 "u-alice" "" w).1 in
  bc_LockoutThreshold (bs_cfg demo_breakglass) = 2 ∧ length rs = 6%nat ∧
  Forall (λ r, passed_with demo_credential r = true) rs.
Proof.
  cbv zeta. split; [reflexivity|].
  pose proof (parallel_guesses_compared (E:=toy_entropy) id demo_breakglass 6 "u-alice" "" demo_credential
    (mkWorld alice_identity (mkEnv 0 (replicate 30 1%N) [] 0)) eq_refl eq_refl eq_refl eq_refl) as H.
  destruct (login_checks _ _ _ _ _) as [rs w']. by destruct H as (? & ? & _).
Defined.

(** Without a session service a login that succeeds returns no cookie. *)
Definition demo_no_sessions : BreakglassSvc := mkBreakglassSvc true None (bs_cfg demo_breakglass) "t-default".

(** The third password of a list is the right one and the threshold is 2.  One after another the
    third login is refused; when all three are checked before the first is judged it succeeds. *)
Example parallel_login_beats_lockout :
  let w := mkWorld alice_identity (mkEnv 0 (replicate 40 1%N) [] 0) in
  let login pw := Authenticate (E:=toy_entropy) (C:=toy_ciphers) (A:=toy_argon2) id demo_no_sessions "u-alice" pw "" "" in
  let judge pw := login_judge (E:=toy_entropy) (C:=toy_ciphers) (A:=toy_argon2) id demo_no_sessions "u-alice" pw "" ""
                    0 demo_credential in
  let checked := (login_checks (E:=toy_entropy) id demo_no_sessions 3 "u-alice" "" w).2 in
  is_Ok (login "correct horse" (login "two" (login "one" w).2).2).1 = false ∧
  is_Ok (judge "correct horse" (judge "two" (judge "one" checked).2).2).1 = true.
Proof. vm_compute. split; reflexivity. Qed.

(** ** Logging in *)
Section login.
Context `{EO : EntropyOk, CO : CiphersOk, A : Argon2}.
Variable ToLower : string → string.
Variable s : BreakglassSvc.
Notation te := (bs_tenantID s).

Lemma login_succeeded_inv svc a ip ua (w w' : World IdentityDB) r :
  bs_sessions s = Some svc → login_succeeded ToLower s a ip ua w = (Ok r, w') →
  ∃ sess, id_sessions (w_db w') !! ses_ID sess = Some sess ∧ ses_ActorID sess = a ∧
    ses_ActorType sess = ActorTypeUser ∧ ses_RevokedAt sess = None ∧
    ∃ kid hk, atr_CookieValue r = Cookies.signCookie (ses_ID sess) kid hk ∧
      Cookies.hashCSRFToken (atr_CSRFToken r) = ses_CSRFTokenHash sess.
Proof.
  intros Hs. unfold login_succeeded. rewrite Hs. unfold mbind at 1, M_bind at 1.
  destruct (ResetFailureCount a te w) as [_r w1]. unfold mbind at 1, M_bind at 1.
  destruct (breakglass_audit _ _ _ _ _ _ w1) as [_u w2]. unfold mint_session, mbind, M_bind.
  destruct (SessionService.Create svc a ActorTypeUser ip ua w2) as [[res|] w3] eqn:Ec; [|by intros [=]].
  cbn. intros [= <- <-]. destruct (Create_inv _ _ _ _ _ _ _ _ Ec)
    as (kid & k & hk & b & t & tenant & _ & _ & _ & _ & _ & _ & Hrow & _ & Hcookie & Hdb).
  exists (SessionService.cr_Session res). rewrite Hdb. split_and!.
  - apply lookup_insert_eq.
  - by rewrite Hrow.
  - by rewrite Hrow.
  - by rewrite Hrow.
  - exists (sk_ID k), hk. split; [done|]. by rewrite Hrow.
Qed.

(** a break-glass login is genuine: whatever statements fail, [Authenticate] succeeds
    only when the feature is enabled, the actor has a credential whose hash verifies the
    given password, and the credential is not locked at the time of the login; the cookie
    and the CSRF token it returns belong to a stored, live session of the actor. *)
Theorem breakglass_login_sound a pw ip ua (w w' : World IdentityDB) r :
  Authenticate ToLower s a pw ip ua w = (Ok r, w') →
  bc_Enabled (bs_cfg s) = true ∧
  (∃ c t, find_credential a te (w_db w) = Some c ∧ clock w ≤ t ∧ is_locked t c = false ∧
     verifyPassword pw (bg_PasswordHash c) = Ok true) ∧
  (∀ svc, bs_sessions s = Some svc →
     ∃ sess, id_sessions (w_db w') !! ses_ID sess = Some sess ∧ ses_ActorID sess = a ∧
       ses_ActorType sess = ActorTypeUser ∧ ses_RevokedAt sess = None ∧
       ∃ kid hk, atr_CookieValue r = Cookies.signCookie (ses_ID sess) kid hk ∧
         Cookies.hashCSRFToken (atr_CSRFToken r) = ses_CSRFTokenHash sess).
Proof.
  unfold Authenticate. destruct (bc_Enabled _); [|by intros [=]]. cbn [negb].
  intros ([c|e] & w1 & Eg & H)%bind_inv.
  2: { apply bind_inv in H as (? & ? & _ & H). by apply bind_inv in H as (? & ? & _ & [=]). }
  assert (find_credential a te (w_db w) = Some c ∧ clock w ≤ clock w1) as [Hrow Hclk].
  { unfold GetByActor in Eg. apply bind_inv in Eg as ([[c'|]|] & w1' & Eq & [=]). subst.
    pose proof (wpres_query (calm a te) "breakglass get_by_actor" (find_credential a te) w) as [[Hc _] _].
    rewrite Eq in Hc. by apply query_ok in Eq as [-> _]. }
  apply bind_inv in H as (t & w2 & En & H).
  destruct (now_clock w1) as (_ & Ht & Hc2 & _). rewrite En in Ht, Hc2. cbn [fst snd] in *.
  destruct (is_locked t c) eqn:El.
  { apply bind_inv in H as (? & ? & _ & H). by apply bind_inv in H as (? & ? & _ & [=]). }
  apply bind_inv in H as (_u & w3 & _ & H).
  destruct (verifyPassword pw (bg_PasswordHash c)) as [[|]|] eqn:Ev.
  2,3: apply bind_inv in H as (? & ? & _ & H); by apply bind_inv in H as (? & ? & _ & [=]).
  split_and!; [done| |intros svc Hs; by eapply login_succeeded_inv].
  exists c, t. split_and!; try done. lia.
Qed.
End login.

(** ** Rotating a password *)
Section rotation.
Context `{AO : Argon2Ok, EO : EntropyOk, CO : CiphersOk}.
Variable ToLower : string → string.
Variable s : BreakglassSvc.
Notation te := (bs_tenantID s).

(** The sessions stay as they are. *)
Definition still (w w' : World IdentityDB) : Prop :=
  env_le (w_env w) (w_env w') ∧ id_sessions (w_db w') = id_sessions (w_db w).
#[local] Instance still_preorder : PreOrder still.
Proof.
  split; [intros w; by split|].
  intros w1 w2 w3 [H1 H2] [H3 H4]. split; [by etransitivity|congruence].
Qed.
#[local] Instance still_steady : Steady still.
Proof. intros w w' Hd He. split; [done|by rewrite Hd]. Qed.

Lemma still_db d d' e : id_sessions d' = id_sessions d → still (mkWorld d e) (mkWorld d' e).
Proof. by split. Qed.

Lemma still_audit b c r d : wpres still (breakglass_audit ToLower s b c r d).
Proof.
  unfold breakglass_audit, RecordEventWithCategory, generateID, AuditRepository_Create.
  repeat wstep. repeat case_match; by apply still_db.
Qed.

Lemma still_store target hash : wpres still (store_password s target hash).
Proof.
  unfold store_password, UpdatePasswordHash, exec_update, newCredentialID, BreakglassRepository_Create.
  repeat wstep; repeat case_match; by apply still_db.
Qed.

Lemma find_insert_credential c t d :
  find_credential (bg_ActorID c) (bg_TenantID c) d = None →
  find_credential (bg_ActorID c) (bg_TenantID c)
    (set_breakglass (λ l, l ++ [insert_credential c t]) d) = Some (insert_credential c t).
Proof.
  unfold find_credential. cbn. intros H. rewrite filter_app.
  destruct (filter _ (id_breakglass d)); [|done]. rewrite app_nil_l, filter_cons_True; [done|].
  unfold credential_of. cbn. by rewrite !bool_decide_true.
Qed.

(** Without failures a stored password is the one of the row, unlocked and without failures. *)
Lemma store_password_run target hash (w w' : World IdentityDB) :
  env_faults (w_env w) = [] → store_password s target hash w = (Ok tt, w') →
  ∃ c, find_credential target te (w_db w') = Some c ∧ bg_PasswordHash c = hash ∧
    bg_FailureCount c = 0 ∧ bg_LockedUntil c = None.
Proof.
  intros Hf. unfold store_password, UpdatePasswordHash, exec_update.
  intros (u & w1 & (t & w2 & En & E1)%bind_inv & H)%bind_inv.
  destruct (now_clock w) as (Hd & _ & _ & Hf2). rewrite En in Hd, Hf2. cbn [snd] in *.
  rewrite exec_run in E1 by congruence. rewrite Hd in E1.
  destruct (find_credential target te (w_db w)) as [c|] eqn:Er; cbn in E1; injection E1 as <- <-.
  - injection H as <-. eexists. cbn [w_db]. by rewrite find_update_own, Er.
  - cbn in H. apply bind_inv in H as ([id|] & w3 & E3 & H); [|by injection H].
    apply bind_inv in H as ([[]|] & w4 & E4 & H); [|by injection H]. injection H as <-.
    unfold newCredentialID in E3. apply bind_inv in E3 as ([b|] & w5 & E5 & [=]). subst.
    pose proof (readRand_db 16 (mkWorld (w_db w) (w_env w2))) as Hd3. rewrite E5 in Hd3. cbn in Hd3.
    unfold BreakglassRepository_Create in E4. apply bind_inv in E4 as (t4 & w6 & E6 & E7).
    destruct (now_clock w3) as (Hd6 & _). rewrite E6 in Hd6. cbn [snd] in Hd6.
    apply exec_ok in E7 as [E7 E8]. destruct (existsb _ _); [done|]. case_bool_decide; [|done].
    cbn [snd] in E8. rewrite E8, Hd6, Hd3.
    set (c := mkBreakglass _ te target hash _ _ _ _ _). exists (insert_credential c t4).
    split; [by apply (find_insert_credential c)|done].
Qed.

Lemma RevokeAllForActor_run svc a ty (w : World IdentityDB) :
  env_faults (w_env w) = [] →
  ∃ w', SessionService.RevokeAllForActor ToLower svc a ty w = (Ok tt, w').
Proof.
  intros Hf. unfold SessionService.RevokeAllForActor, SessionRepo.RevokeAllForActor.
  destruct (now_clock w) as (_ & _ & _ & Hf1). destruct (now w) as [t w1] eqn:En. cbn [snd] in Hf1.
  erewrite bind_run; [|rewrite (bind_run _ _ _ _ _ En); apply exec_run; congruence].
  cbn [fst snd]. unfold mbind, M_bind. destruct (SessionService.recordAudit _ _ _ _ _ _ _ _). eauto.
Qed.

Lemma calm_revoke_sessions a action caller target :
  wpres (calm a te) (revoke_sessions_of ToLower s action caller target).
Proof.
  unfold revoke_sessions_of, breakglass_audit, SessionService.RevokeAllForActor,
    SessionRepo.RevokeAllForActor, SessionService.recordAudit, RecordEventWithCategory, generateID,
    AuditRepository_Create.
  repeat wstep; repeat case_match; by apply calm_db.
Qed.

(** rotating a break-glass password takes the account back: when [SetPassword] succeeds
    and no statement fails, the password has an acceptable length, the credential of the
    actor accepts exactly the new password (another one only if Argon2id derives the same
    key), with its failures and its lock cleared, and every session the actor had is
    revoked. *)
Theorem password_rotation caller target pw (w w' : World IdentityDB) r :
  env_faults (w_env w) = [] → SetPassword ToLower s caller target pw w = (Ok r, w') →
  (12 ≤ len pw ≤ 256)%nat ∧
  (∃ c salt, find_credential target te (w_db w') = Some c ∧ len salt = argon2SaltSize ∧
     bg_FailureCount c = 0 ∧ bg_LockedUntil c = None ∧
     ∀ pw', verifyPassword pw' (bg_PasswordHash c) = Ok (bool_decide (kdf pw' salt = kdf pw salt))) ∧
  (∀ svc id x x', bs_sessions s = Some svc →
     id_sessions (w_db w) !! id = Some x →
     SessionRepo.of_actor target ActorTypeUser (SessionService.svc_tenantID svc) x = true →
     id_sessions (w_db w') !! id = Some x' → ses_RevokedAt x' ≠ None).
Proof.
  intros Hf. unfold SetPassword. destruct (bc_Enabled _); [|by intros [=]]. cbn [negb].
  destruct (is_blank caller); [by intros [=]|]. destruct (is_blank target); [by intros [=]|].
  destruct (_ || _) eqn:El; [by intros [=]|].
  apply orb_false_iff in El as [El1%Z.ltb_ge El2%Z.ltb_ge].
  intros ([hash|] & w1 & Eh & H)%bind_inv; [|by injection H].
  assert (wpres still (hashPassword (D:=IdentityDB) pw)) as Hst1 by (unfold hashPassword; repeat wstep).
  specialize (Hst1 w). rewrite Eh in Hst1. destruct Hst1 as [(_ & _ & Hf1) Hs1]. specialize (Hf1 Hf).
  apply bind_inv in H as ([[]|] & w2 & Ep & H); [|by injection H].
  pose proof (still_store target hash w1) as [(_ & _ & Hf2) Hs2]. rewrite Ep in Hf2, Hs2.
  specialize (Hf2 Hf1). apply store_password_run in Ep as (c & Hrow & Hhash & Hn & Hl); [|done].
  apply bind_inv in H as (_u & w3 & Ea & H).
  pose proof (calm_audit ToLower s target "auth.breakglass_password_set" caller target
                (caller_details caller target) w2) as [_ Hr3].
  pose proof (still_audit "auth.breakglass_password_set" caller target
                (caller_details caller target) w2) as [(_ & _ & Hf3) Hs3].
  rewrite Ea in Hr3, Hf3, Hs3. cbn [snd] in *. specialize (Hf3 Hf2).
  apply bind_inv in H as (_v & w4 & Er & H). apply bind_inv in H as (t & w5 & En & [= _ <-]).
  pose proof (now_db w4) as Hd5. rewrite En in Hd5. cbn [snd] in Hd5. rewrite Hd5.
  split_and!; [unfold MinPasswordLengthBytes, MaxPasswordLengthBytes in *; lia..| |].
  - unfold hashPassword in Eh. apply bind_inv in Eh as ([salt|] & w0 & Es & Eq); [|by injection Eq].
    injection Eq as <- <-. exists c, salt.
    pose proof (calm_revoke_sessions target "auth.breakglass_password_set" caller target w3) as [_ Hr4].
    rewrite Er in Hr4. cbn [snd] in Hr4. split_and!; [congruence|by eapply readRand_ok|done|done|].
    intros pw'. rewrite Hhash. apply verify_encoded.
  - intros svc id x x' Hsvc Hx Ho Hx'. unfold revoke_sessions_of in Er. rewrite Hsvc in Er.
    destruct (RevokeAllForActor_run svc target ActorTypeUser w3 Hf3) as [w6 E6].
    rewrite (bind_run _ _ _ _ _ E6) in Er. injection Er as _ ->.
    eapply (out_RevokeAllForActor ToLower svc); [exact E6| |exact Ho|exact Hx'].
    cbn [snd] in *. congruence.
Qed.
End rotation.

Definition alice_booted : World IdentityDB :=
  snd (SessionService.EnsureInitialSigningKey (E:=toy_entropy) (C:=toy_ciphers) id demo_service
         (world_at (100 * second) alice_identity)).
Definition alice_login : res AuthenticateResult * World IdentityDB :=
  Authenticate (E:=toy_entropy) (C:=toy_ciphers) (A:=toy_argon2) id demo_breakglass
    "u-alice" "correct horse" "" "" alice_booted.

Lemma breakglass_login_sound_witness :
  is_Ok (fst alice_login) = true ∧
  ∃ sess, id_sessions (w_db (snd alice_login)) !! ses_ID sess = Some sess ∧ ses_ActorID sess = "u-alice".
Proof.
  assert (is_Ok (fst alice_login) = true) as Hok by (vm_compute; reflexivity).
  split; [exact Hok|]. destruct (is_Ok_inv _ Hok) as [r Er].
  destruct (breakglass_login_sound (EO:=toy_entropy_ok) (C:=toy_ciphers) (A:=toy_argon2) id
              demo_breakglass "u-alice" "correct horse" "" "" alice_booted (snd alice_login) r)
    as (_ & _ & H).
  - rewrite <-Er. exact (surjective_pairing _).
  - destruct (H demo_service eq_refl) as (sess & H1 & H2 & _). exists sess. exact (conj H1 H2).
Defined.

Definition alice_rotated : res SetPasswordResult * World IdentityDB :=
  SetPassword (E:=toy_entropy) (A:=toy_argon2) id demo_breakglass
    "u-root" "u-alice" "a fresh password" (snd alice_login).

Definition alice_hash : string :=
  match find_credential "u-alice" "t-default" (w_db (snd alice_rotated)) with
  | Some c => bg_PasswordHash c
  | None => ""
  end.

Lemma password_rotation_witness :
  is_Ok (fst alice_rotated) = true ∧
  verifyPassword (A:=toy_argon2) "a fresh password" alice_hash = Ok true ∧
  verifyPassword (A:=toy_argon2) "correct horse" alice_hash = Ok false.
Proof.
  assert (is_Ok (fst alice_rotated) = true) as Hok by (vm_compute; reflexivity).
  split; [exact Hok|]. destruct (is_Ok_inv _ Hok) as [r Er]. split; [|vm_compute; reflexivity].
  destruct (password_rotation (AO:=toy_argon2_ok) (EO:=toy_entropy_ok) id
              demo_breakglass "u-root" "u-alice" "a fresh password" (snd alice_login) (snd alice_rotated) r)
    as (_ & (c & salt & Hc & _ & _ & _ & Hv) & _).
  - vm_compute. reflexivity.
  - rewrite <-Er. exact (surjective_pairing _).
  - unfold alice_hash. change "t-default" with (bs_tenantID demo_breakglass). rewrite Hc.
    rewrite Hv. by rewrite bool_decide_true.
Defined.
