(* ===== verification/Agents.v ===== *)
(** * Agents (src/internal/repository/postgres/agent.go, service/agent.go, service/agent_retire.go,
      domain/connector.go)

    Registration, heartbeats, the offline sweep and retirement.  The agent's side of a job
    (polling and status reports) is in Jobs.v, the submission of a CSR in Lifecycle.v.  An
    agent's API key is 32 random bytes of which the table holds the SHA-256. *)

From Stdlib Require Import ZArith Lia Ascii String.
From stdpp Require Import prelude gmap strings list sorting pretty.
From S2P Require Import Prelude AuditTrail Store Transactions Jobs GoBytes KeyCrypto.

(** ** domain/connector.go *)
Definition IsRetired (a : Agent) : bool := bool_decide (is_Some (agent_RetiredAt a)).

Record AgentMetadata := mkMetadata {
  md_OS : string; md_Architecture : string; md_Hostname : string;
  md_IPAddress : string; md_Version : string }.

Record AgentDependencyCounts := mkCounts {
  dc_ActiveTargets : Z; dc_ActiveCertificates : Z; dc_PendingJobs : Z }.

Definition HasDependencies (c : AgentDependencyCounts) : bool :=
  (0 <? dc_ActiveTargets c) || (0 <? dc_ActiveCertificates c) || (0 <? dc_PendingJobs c).

Definition SentinelAgentIDs : list string :=
  [ "server-scanner"; "cloud-aws-sm"; "cloud-azure-kv"; "cloud-gcp-sm" ].

Definition IsSentinelAgent (id : string) : bool := existsb (λ s, bool_decide (s = id)) SentinelAgentIDs.

(** [agent.Status = s] on a copy of the row. *)
Definition agent_with_status (s : string) (a : Agent) : Agent :=
  mkAgent (agent_ID a) (agent_Name a) (agent_Hostname a) s (agent_LastHeartbeatAt a)
    (agent_RegisteredAt a) (agent_APIKeyHash a) (agent_OS a) (agent_Architecture a)
    (agent_IPAddress a) (agent_Version a) (agent_RetiredAt a) (agent_RetiredReason a).

(** ** repository/postgres/agent.go *)
Module AgentRepo.
Definition List : M DB (res (list Agent)) :=
  sql_query "failed to query agents" (λ d,
    merge_sort (desc agent_RegisteredAt) (filter (λ a, agent_RetiredAt a = None) (rows (db_agents d)))).

(** The names of agents are unique. *)
Definition name_free (d : DB) (a : Agent) : bool :=
  forallb (λ b, bool_decide (agent_ID b = agent_ID a) || negb (bool_decide (agent_Name b = agent_Name a)))
    (rows (db_agents d)).

(** The INSERT has no retirement columns. *)
Definition inserted (a : Agent) : Agent :=
  mkAgent (agent_ID a) (agent_Name a) (agent_Hostname a) (agent_Status a) (agent_LastHeartbeatAt a)
    (agent_RegisteredAt a) (agent_APIKeyHash a) (agent_OS a) (agent_Architecture a)
    (agent_IPAddress a) (agent_Version a) None None.

(** [Create] on an agent whose ID the caller has set, as every caller does. *)
Definition Create (a : Agent) : M DB (res unit) :=
  sql_exec "failed to create agent" (λ d,
    if bool_decide (db_agents d !! agent_ID a = None) && name_free d a
    then (Ok tt, set_agents (<[agent_ID a := inserted a]>) d)
    else (Err (ErrWrap "failed to create agent" (ErrMsg "duplicate key")), d)).

Definition CreateIfNotExists (a : Agent) : M DB (res bool) :=
  sql_exec "failed to create agent" (λ d,
    match db_agents d !! agent_ID a with
    | Some _ => (Ok false, d)
    | None =>
        if name_free d a then (Ok true, set_agents (<[agent_ID a := inserted a]>) d)
        else (Err (ErrWrap "failed to create agent" (ErrMsg "duplicate key")), d)
    end).

(** The SET list of [Update]: not the registration, not the retirement. *)
Definition agent_set (a row : Agent) : Agent :=
  mkAgent (agent_ID row) (agent_Name a) (agent_Hostname a) (agent_Status a) (agent_LastHeartbeatAt a)
    (agent_RegisteredAt row) (agent_APIKeyHash a) (agent_OS a) (agent_Architecture a)
    (agent_IPAddress a) (agent_Version a) (agent_RetiredAt row) (agent_RetiredReason row).

(** There is no condition on retired_at (AgentFacts, [retired_agent_overwritten]). *)
Definition Update (a : Agent) : M DB (res unit) :=
  sql_exec "failed to update agent" (λ d,
    match db_agents d !! agent_ID a with
    | None => (Err (ErrWrap "agent not found" repo_ErrNotFound), d)
    | Some row =>
        if name_free d a then (Ok tt, set_agents (<[agent_ID a := agent_set a row]>) d)
        else (Err (ErrWrap "failed to update agent" (ErrMsg "duplicate key")), d)
    end).

(** Targets refer to their agent (ON DELETE RESTRICT), jobs lose the reference (SET NULL). *)
Definition forget_agent (id : string) (j : Job) : Job :=
  if bool_decide (job_AgentID j = Some id)
  then mkJob (job_ID j) (job_Type j) (job_CertificateID j) (job_TargetID j) None (job_Status j)
         (job_Attempts j) (job_MaxAttempts j) (job_LastError j) (job_ScheduledAt j) (job_StartedAt j)
         (job_CompletedAt j) (job_CreatedAt j) (job_VerificationStatus j) (job_VerifiedAt j)
         (job_VerificationError j) (job_VerificationFp j)
  else j.

Definition Delete (id : string) : M DB (res unit) :=
  sql_exec "failed to delete agent" (λ d,
    match db_agents d !! id with
    | None => (Err (ErrWrap "agent not found" repo_ErrNotFound), d)
    | Some _ =>
        if existsb (λ t, bool_decide (target_AgentID t = id)) (rows (db_targets d))
        then (Err (ErrWrap "failed to delete agent" (ErrMsg "foreign key constraint")), d)
        else (Ok tt, set_jobs (fmap (forget_agent id)) (set_agents (delete id) d))
    end).

(** [CASE WHEN $n = '' THEN column ELSE $n END]. *)
Definition or_keep (v old : string) : string := if bool_decide (v = "") then old else v.

Definition beat (t : Z) (metadata : option AgentMetadata) (a : Agent) : Agent :=
  let '(h, os, ar, ip, v) :=
    match metadata with
    | Some m => (or_keep (md_Hostname m) (agent_Hostname a), or_keep (md_OS m) (agent_OS a),
                 or_keep (md_Architecture m) (agent_Architecture a),
                 or_keep (md_IPAddress m) (agent_IPAddress a), or_keep (md_Version m) (agent_Version a))
    | None => (agent_Hostname a, agent_OS a, agent_Architecture a, agent_IPAddress a, agent_Version a)
    end in
  mkAgent (agent_ID a) (agent_Name a) h (agent_Status a) (Some t) (agent_RegisteredAt a)
    (agent_APIKeyHash a) os ar ip v (agent_RetiredAt a) (agent_RetiredReason a).

Definition UpdateHeartbeat (id : string) (metadata : option AgentMetadata) : M DB (res unit) :=
  t ← now;
  sql_exec "failed to update heartbeat" (λ d,
    match db_agents d !! id with
    | Some a =>
        if IsRetired a then (Err (ErrWrap "agent not found" repo_ErrNotFound), d)
        else (Ok tt, set_agents (<[id := beat t metadata a]>) d)
    | None => (Err (ErrWrap "agent not found" repo_ErrNotFound), d)
    end).

Definition GetByAPIKey (keyHash : string) : M DB (res Agent) :=
  r ← sql_query "failed to query agent" (λ d,
        head (filter (λ a, agent_APIKeyHash a = keyHash) (rows (db_agents d))));
  mret match r with
       | Err e => Err e
       | Ok None => Err (ErrWrap "agent not found" repo_ErrNotFound)
       | Ok (Some a) => Ok a
       end.

Definition retired_key (a : Agent) : Z := default 0 (agent_RetiredAt a).

Definition ListRetired (page perPage : Z) : M DB (res (list Agent * Z)) :=
  let page := if page <? 1 then 1 else page in
  let perPage := if perPage <? 1 then 50 else perPage in
  let offset := wrap64 (wrap64 (page - 1) * perPage) in
  let retired := λ d, filter (λ a, IsRetired a = true) (rows (db_agents d)) in
  total ← sql_query "failed to count retired agents" (λ d, Z.of_nat (length (retired d)));
  match total with
  | Err e => mret (Err e)
  | Ok total =>
      r ← sql_query "failed to query retired agents" (λ d,
            if offset <? 0 then Err (ErrMsg "failed to query retired agents: OFFSET must not be negative")
            else Ok (take (Z.to_nat perPage)
                       (drop (Z.to_nat offset) (merge_sort (desc retired_key) (retired d)))));
      mret match r with
           | Err e | Ok (Err e) => Err e
           | Ok (Ok l) => Ok (l, total)
           end
  end.

(** [SET retired_at = $2, retired_reason = $3 WHERE ... AND retired_at IS NULL]. *)
Definition retire_agent (t : Z) (reason : string) (a : Agent) : Agent :=
  if IsRetired a then a else
  mkAgent (agent_ID a) (agent_Name a) (agent_Hostname a) (agent_Status a) (agent_LastHeartbeatAt a)
    (agent_RegisteredAt a) (agent_APIKeyHash a) (agent_OS a) (agent_Architecture a)
    (agent_IPAddress a) (agent_Version a) (Some t) (Some reason).

Definition retire_target (id : string) (t : Z) (reason : string) (g : DeploymentTarget) : DeploymentTarget :=
  if bool_decide (target_AgentID g = id ∧ target_RetiredAt g = None)
  then mkTarget (target_ID g) (target_Name g) (target_AgentID g) (Some t) (Some reason) (target_CreatedAt g)
  else g.

Definition SoftRetire (id : string) (retiredAt : Z) (reason : string) : M DB (res unit) :=
  sql_exec "failed to soft-retire agent" (λ d,
    (Ok tt, set_agents (alter (retire_agent retiredAt reason) id) d)).

Definition RetireAgentWithCascade (id : string) (retiredAt : Z) (reason : string) : M DB (res unit) :=
  b ← tx_stmt "failed to begin retire-cascade transaction";
  match b with
  | Err e => mret (Err e)
  | Ok _ =>
      '(r, view) ← run_tx (
         u ← tx_exec "failed to retire agent in cascade" (λ d,
               (Ok tt, set_agents (alter (retire_agent retiredAt reason) id) d));
         match u with
         | Err e => mret (Err e)
         | Ok _ =>
             tx_exec "failed to cascade-retire deployment targets" (λ d,
               (Ok tt, set_targets (fmap (retire_target id retiredAt reason)) d))
         end);
      match r with
      | Err e => mret (Err e)
      | Ok _ => sql_exec "failed to commit retire-cascade transaction" (λ _, (Ok tt, view))
      end
  end.

Definition active_target (id : string) (g : DeploymentTarget) : bool :=
  bool_decide (target_AgentID g = id) && bool_decide (target_RetiredAt g = None).

Definition active_targets (id : string) (d : DB) : Z :=
  Z.of_nat (length (filter (λ g, active_target id g = true) (rows (db_targets d)))).
Definition CountActiveTargets (id : string) : M DB (res Z) :=
  sql_query "failed to count active targets for agent" (active_targets id).

(** [COUNT(DISTINCT certificate_id)] of the mappings to active targets of the agent. *)
Definition active_certificates (id : string) (d : DB) : Z :=
  Z.of_nat (length (remove_dups (fst <$> filter (λ m : string * string,
    match db_targets d !! m.2 with Some g => active_target id g | None => false end = true)
    (db_mappings d)))).
Definition CountActiveCertificates (id : string) : M DB (res Z) :=
  sql_query "failed to count active certificates for agent" (active_certificates id).

Definition pending_jobs (id : string) (d : DB) : Z :=
  Z.of_nat (length (filter (λ j, job_AgentID j = Some id ∧
    job_Status j ∈ [JobStatusPending; JobStatusAwaitingCSR; JobStatusAwaitingApproval; JobStatusRunning])
    (rows (db_jobs d)))).
Definition CountPendingJobs (id : string) : M DB (res Z) :=
  sql_query "failed to count pending jobs for agent" (pending_jobs id).
End AgentRepo.

(** ** service/agent.go and agent_retire.go *)
Module AgentService.
Definition ErrAgentIsSentinel : error := ErrSentinel "agent is a reserved sentinel and cannot be retired".
Definition ErrBlockedByDependencies : error := ErrSentinel "agent has active downstream dependencies".
Definition ErrForceReasonRequired : error := ErrSentinel "force=true requires a non-empty reason".
Definition ErrAgentRetired : error := ErrSentinel "agent has been retired".

(** [*BlockedByDependenciesError], which unwraps to its sentinel. *)
Definition BlockedByDependenciesError (c : AgentDependencyCounts) : error :=
  ErrWrapPre ErrBlockedByDependencies
    ("active_targets=" +:+ pretty (dc_ActiveTargets c) +:+ ", active_certificates=" +:+
     pretty (dc_ActiveCertificates c) +:+ ", pending_jobs=" +:+ pretty (dc_PendingJobs c)).

Record AgentRetirementResult := mkRetirement {
  ar_AlreadyRetired : bool; ar_Cascade : bool; ar_RetiredAt : Z; ar_Counts : AgentDependencyCounts }.

Section service.
Context `{E : Entropy}.
Variable ToLower : string → string.

Definition generateAPIKey : M DB (res string) :=
  b ← readRand 32;
  mret match b with
       | Err e => Err (ErrWrap "generate agent api key" e)
       | Ok b => Ok (b64_EncodeToString b)
       end.

Definition hashAPIKey (apiKey : string) : string := hex_EncodeToString (Sum256 apiKey).

Definition new_agent (id name hostname keyHash : string) (t : Z) : Agent :=
  mkAgent id name hostname AgentStatusOnline (Some t) t keyHash "" "" "" "" None None.

Definition Register (name hostname : string) : M DB (res (Agent * string)) :=
  if bool_decide (name = "") || bool_decide (hostname = "")
  then mret (Err (ErrMsg "agent name and hostname are required")) else
  k ← generateAPIKey;
  match k with
  | Err e => mret (Err (ErrWrap "failed to generate agent api key" e))
  | Ok apiKey =>
      t ← now;
      id ← generateID "agent";
      let agent := new_agent id name hostname (hashAPIKey apiKey) t in
      c ← AgentRepo.Create agent;
      match c with
      | Err e => mret (Err (ErrWrap "failed to create agent" e))
      | Ok _ =>
          _ ← RecordEvent ToLower "system" ActorTypeSystem "agent_registered" "agent" id
                [("name", GStr name); ("hostname", GStr hostname)];
          mret (Ok (agent, apiKey))
      end
  end.

(** [RegisterAgent]: the fields the request leaves open keep their values. *)
Definition with_registration (id keyHash : string) (t : Z) (a : Agent) : Agent :=
  mkAgent id (agent_Name a) (agent_Hostname a) AgentStatusOnline (Some t) t keyHash (agent_OS a)
    (agent_Architecture a) (agent_IPAddress a) (agent_Version a) (agent_RetiredAt a) (agent_RetiredReason a).

Definition RegisterAgent (agent : Agent) : M DB (res (Agent * string)) :=
  id ← generateID "agent";
  k ← generateAPIKey;
  match k with
  | Err e => mret (Err (ErrWrap "failed to generate agent api key" e))
  | Ok apiKey =>
      t ← now;
      let agent := with_registration id (hashAPIKey apiKey) t agent in
      c ← AgentRepo.Create agent;
      mret match c with
           | Err e => Err (ErrWrap "failed to register agent" e)
           | Ok _ => Ok (agent, apiKey)
           end
  end.

Definition Heartbeat (agentID : string) (metadata : option AgentMetadata) : M DB (res unit) :=
  a ← AgentRepository_Get agentID;
  match a with
  | Err e => mret (Err (ErrWrap "failed to fetch agent" e))
  | Ok agent =>
      if IsRetired agent then mret (Err ErrAgentRetired) else
      u ← AgentRepo.UpdateHeartbeat agentID metadata;
      match u with
      | Err e => mret (Err (ErrWrap "failed to update heartbeat" e))
      | Ok _ =>
          _ ← (if bool_decide (agent_Status agent = AgentStatusOnline) then mret tt
               else _ ← AgentRepo.Update (agent_with_status AgentStatusOnline agent); mret tt);
          mret (Ok tt)
      end
  end.

(** One round of the sweep loop. *)
Definition stale_agent (cutoff : Z) (a : Agent) : bool :=
  bool_decide (agent_Status a = AgentStatusOnline) &&
  match agent_LastHeartbeatAt a with Some t => t <? cutoff | None => false end.

Definition mark_offline (cutoff : Z) (a : Agent) : M DB unit :=
  if stale_agent cutoff a then _ ← AgentRepo.Update (agent_with_status AgentStatusOffline a); mret tt
  else mret tt.

Definition MarkStaleAgentsOffline (threshold : Z) : M DB (res unit) :=
  r ← AgentRepo.List;
  match r with
  | Err e => mret (Err (ErrWrap "failed to list agents" e))
  | Ok agents =>
      t ← now;
      _ ← for_each agents (mark_offline (t - threshold));
      mret (Ok tt)
  end.

Definition GetAgentByAPIKey (apiKey : string) : M DB (res Agent) :=
  r ← AgentRepo.GetByAPIKey (hashAPIKey apiKey);
  mret match r with Err e => Err (ErrWrap "invalid API key" e) | Ok a => Ok a end.

Definition ListAgents (page perPage : Z) : M DB (res (list Agent * Z)) :=
  let page := if page <? 1 then 1 else page in
  let perPage := if perPage <? 1 then 50 else perPage in
  r ← AgentRepo.List;
  mret match r with
       | Err e => Err (ErrWrap "failed to list agents" e)
       | Ok agents =>
           let total := Z.of_nat (length agents) in
           let start := wrap64 (wrap64 (page - 1) * perPage) in
           if total <=? start then Ok ([], total) else
           let end_ := wrap64 (start + perPage) in
           let end_ := if total <? end_ then total else end_ in
           match JobService.go_slice agents start end_ with
           | Some l => Ok (l, total)
           | None => Err JobService.panic_slice
           end
       end.

(** *** agent_retire.go *)
Definition collectAgentDependencyCounts (id : string) : M DB (res AgentDependencyCounts) :=
  t ← AgentRepo.CountActiveTargets id;
  match t with
  | Err e => mret (Err (ErrWrap "count active targets" e))
  | Ok targets =>
      c ← AgentRepo.CountActiveCertificates id;
      match c with
      | Err e => mret (Err (ErrWrap "count active certificates" e))
      | Ok certs =>
          j ← AgentRepo.CountPendingJobs id;
          mret match j with
               | Err e => Err (ErrWrap "count pending jobs" e)
               | Ok jobs => Ok (mkCounts targets certs jobs)
               end
      end
  end.

Definition resolveActorType (actor : string) : string :=
  if bool_decide (actor = "system") then ActorTypeSystem
  else if (6 <? len actor)%nat && HasPrefix actor "agent-" then ActorTypeAgent
  else ActorTypeUser.

Definition count_details (c : AgentDependencyCounts) : details :=
  [("active_targets", GInt (dc_ActiveTargets c)); ("active_certificates", GInt (dc_ActiveCertificates c));
   ("pending_jobs", GInt (dc_PendingJobs c))].

(** Step 7, the change, and step 8, the audit rows. *)
Definition retire_rows (cascade : bool) (id reason : string) (t : Z) : M DB (res unit) :=
  if cascade then
    r ← AgentRepo.RetireAgentWithCascade id t reason;
    mret match r with Err e => Err (ErrWrap "failed to retire agent with cascade" e) | Ok _ => Ok tt end
  else
    r ← AgentRepo.SoftRetire id t reason;
    mret match r with Err e => Err (ErrWrap "failed to soft-retire agent" e) | Ok _ => Ok tt end.

Definition audit_retirement (cascade force : bool) (id actor reason : string)
    (c : AgentDependencyCounts) : M DB unit :=
  let actorType := resolveActorType actor in
  _ ← RecordEvent ToLower actor actorType "agent_retired" "agent" id
        ([("actor", GStr actor); ("reason", GStr reason); ("force", GBool force)] ++ count_details c);
  if cascade then
    _ ← RecordEvent ToLower actor actorType "agent_retirement_cascaded" "agent" id
          ([("actor", GStr actor); ("reason", GStr reason)] ++ count_details c);
    mret tt
  else mret tt.

Definition RetireAgent (id actor : string) (force : bool) (reason : string)
    : M DB (res AgentRetirementResult) :=
  if IsSentinelAgent id then mret (Err ErrAgentIsSentinel) else
  a ← AgentRepository_Get id;
  match a with
  | Err e => mret (Err (ErrWrap "failed to fetch agent" e))
  | Ok agent =>
      match agent_RetiredAt agent with
      | Some at_ => mret (Ok (mkRetirement true false at_ (mkCounts 0 0 0)))
      | None =>
          c ← collectAgentDependencyCounts id;
          match c with
          | Err e => mret (Err (ErrWrap "failed to collect agent dependency counts" e))
          | Ok counts =>
              if force && bool_decide (reason = "") then mret (Err ErrForceReasonRequired) else
              if negb force && HasDependencies counts then mret (Err (BlockedByDependenciesError counts)) else
              t ← now;
              let cascade := force && HasDependencies counts in
              r ← retire_rows cascade id reason t;
              match r with
              | Err e => mret (Err e)
              | Ok _ =>
                  _ ← audit_retirement cascade force id actor reason counts;
                  mret (Ok (mkRetirement false cascade t counts))
              end
          end
      end
  end.

Definition ListRetiredAgents (page perPage : Z) : M DB (res (list Agent * Z)) :=
  let page := if page <? 1 then 1 else page in
  let perPage := if perPage <? 1 then 50 else perPage in
  r ← AgentRepo.ListRetired page perPage;
  mret match r with Err e => Err (ErrWrap "failed to list retired agents" e) | Ok x => Ok x end.

(** The calls that change agents. *)
Inductive agent_call :=
  | CallRegister (name hostname : string)
  | CallRegisterAgent (agent : Agent)
  | CallHeartbeat (agentID : string) (metadata : option AgentMetadata)
  | CallMarkStale (threshold : Z)
  | CallRetire (id actor : string) (force : bool) (reason : string).

Definition run_agent_call (c : agent_call) : M DB unit :=
  match c with
  | CallRegister n h => _ ← Register n h; mret tt
  | CallRegisterAgent a => _ ← RegisterAgent a; mret tt
  | CallHeartbeat a m => _ ← Heartbeat a m; mret tt
  | CallMarkStale t => _ ← MarkStaleAgentsOffline t; mret tt
  | CallRetire id actor f r => _ ← RetireAgent id actor f r; mret tt
  end.
End service.
End AgentService.
