(* ===== verification/AgentFacts.v ===== *)
(** * Facts about agents (Agents.v)

    A retired agent is frozen, retirement is all or nothing, a registered agent is found by
    its key, the sweep marks exactly the silent agents, and a heartbeat that brings an agent
    back online loses its own time stamp. *)

From Stdlib Require Import ZArith Lia Ascii String.
From stdpp Require Import prelude gmap strings list sorting pretty.
From S2P Require Import Prelude AuditTrail Store Transactions Jobs GoBytes KeyCrypto Agents.
Import AgentService.

(** ** Frozen rows *)
Definition agents_keyed (d : DB) : Prop := map_Forall (λ k a, agent_ID a = k) (db_agents d).

Definition frozen (d d' : DB) : Prop :=
  ∀ id a, db_agents d !! id = Some a → IsRetired a = true → db_agents d' !! id = Some a.

Definition kept (d0 d : DB) : Prop := agents_keyed d ∧ frozen d0 d.

Lemma agents_keyed_insert d id a :
  agents_keyed d → agent_ID a = id → agents_keyed (set_agents (<[id := a]>) d).
Proof. intros H <-. by apply map_Forall_insert_2. Qed.

Lemma frozen_insert d0 d id a :
  frozen d0 d → (∀ old, db_agents d !! id = Some old → IsRetired old = false) →
  frozen d0 (set_agents (<[id := a]>) d).
Proof.
  intros H Hn k old Hk Hr. cbn. specialize (H k old Hk Hr).
  destruct (decide (k = id)) as [->|Hne]; [|by rewrite lookup_insert_ne].
  specialize (Hn _ H). congruence.
Qed.

Lemma kept_insert d0 d id a :
  kept d0 d → agent_ID a = id → (∀ old, db_agents d !! id = Some old → IsRetired old = false) →
  kept d0 (set_agents (<[id := a]>) d).
Proof. intros [H1 H2] Ha Hn. split; [by apply agents_keyed_insert|by apply frozen_insert]. Qed.

Lemma kept_audit d0 d ev : kept d0 d → kept d0 (append_audit ev d).
Proof. done. Qed.

Lemma kept_retire d0 d id t reason :
  kept d0 d → kept d0 (set_agents (alter (AgentRepo.retire_agent t reason) id) d).
Proof.
  intros [H1 H2]. split.
  - intros k a Hk. cbn in Hk. destruct (decide (id = k)) as [->|Hne].
    + rewrite lookup_alter_eq in Hk. destruct (db_agents d !! k) as [b|] eqn:Eb; simplify_eq/=.
      unfold AgentRepo.retire_agent. case_match; exact (H1 k b Eb).
    + rewrite lookup_alter_ne in Hk by done. by apply (H1 k).
  - intros k a Hk Hr. cbn. specialize (H2 k a Hk Hr). destruct (decide (id = k)) as [->|Hne].
    + rewrite lookup_alter_eq, H2. cbn. f_equal. unfold AgentRepo.retire_agent. by rewrite Hr.
    + by rewrite lookup_alter_ne.
Qed.

Lemma hoare_Agent_Get id d0 :
  hoare (kept d0) (AgentRepository_Get id)
    (λ r d, kept d0 d ∧ ∀ a, r = Ok a → db_agents d !! id = Some a).
Proof.
  unfold AgentRepository_Get.
  apply hoare_bind with (λ r d, kept d0 d ∧ ∀ o, r = Ok o → db_agents d !! id = o).
  - apply hoare_query; intros d Hd; split; try done. by intros o [= <-].
  - intros [[a|]|e]; apply hoare_ret; intros d [Hd Ha]; split; try done.
    intros b [= <-]. by apply Ha.
Qed.

Lemma hoare_Agent_Create a d0 : hoare (kept d0) (AgentRepo.Create a) (λ _, kept d0).
Proof.
  apply hoare_exec; [|done|]; intros d Hd; cbn; case_match; cbn; try done.
  all: apply kept_insert; [done|done|]; intros old Ho; exfalso;
    rewrite andb_true_iff, bool_decide_eq_true in *; destruct_and!; congruence.
Qed.

(** The row an update writes is the active row it was read from. *)
Lemma hoare_Agent_Update s a d0 :
  hoare (λ d, kept d0 d ∧ ∃ row, db_agents d !! agent_ID a = Some row ∧ IsRetired row = false)
    (AgentRepo.Update (agent_with_status s a))
    (λ _ d, kept d0 d ∧ ∃ row, db_agents d !! agent_ID a = Some row ∧ IsRetired row = false).
Proof.
  assert (∀ d, (kept d0 d ∧ ∃ row, db_agents d !! agent_ID a = Some row ∧ IsRetired row = false) →
    let f := λ d, match db_agents d !! agent_ID a with
                  | None => (Err (ErrWrap "agent not found" repo_ErrNotFound), d)
                  | Some row => if AgentRepo.name_free d (agent_with_status s a)
                      then (Ok tt, set_agents (<[agent_ID a := AgentRepo.agent_set (agent_with_status s a) row]>) d)
                      else (Err (ErrWrap "failed to update agent" (ErrMsg "duplicate key")), d)
                  end : res unit * DB in
    kept d0 (f d).2 ∧ ∃ row, db_agents (f d).2 !! agent_ID a = Some row ∧ IsRetired row = false) as Hf.
  { intros d (Hd & row & Hr & Hn). cbn. rewrite Hr. case_match; cbn; [|by eauto]. split.
    - apply kept_insert; [done| |]; cbn; [by apply Hd|]. intros old Ho. congruence.
    - eexists. by rewrite lookup_insert_eq. }
  apply hoare_exec; [|done|]; intros d Hd; by apply (Hf d).
Qed.

Lemma hoare_Heartbeat_keeps id md d0 : hoare (kept d0) (Heartbeat id md) (λ _, kept d0).
Proof.
  unfold Heartbeat. eapply hoare_bind; [apply hoare_Agent_Get|]. intros [a|e]; cbn; [|by hkeep; intros d []].
  destruct (IsRetired a) eqn:Er; [by hkeep; intros d []|].
  set (act := λ d, kept d0 d ∧ agent_ID a = id ∧ ∃ row, db_agents d !! agent_ID a = Some row ∧ IsRetired row = false).
  apply hoare_conseq with (P' := act) (Q' := λ _, kept d0); [|intros d [Hd Ha]|done].
  2:{ specialize (Ha a eq_refl). assert (agent_ID a = id) as Hid by (by apply Hd).
      split_and!; [done|done|]. rewrite Hid. by exists a. }
  apply hoare_bind with (λ _, act).
  - unfold AgentRepo.UpdateHeartbeat. hkeep; [by hkeep|].
    assert (∀ t d, act d → act (set_agents (<[id := AgentRepo.beat t md (default a (db_agents d !! id))]>) d)) as Hb.
    { intros t d (Hd & Hid & row & Hr & Hn). rewrite Hid in Hr. split_and!; [|done|].
      - apply kept_insert; [done| |by intros old ?; simplify_eq].
        unfold AgentRepo.beat. rewrite Hr. destruct md; cbn; by apply Hd.
      - cbn. rewrite Hid, lookup_insert_eq. eexists; split; [done|]. rewrite Hr.
        unfold AgentRepo.beat. destruct md; done. }
    apply hoare_exec; [|done|]; intros d Hd; pose proof (Hb a0 d Hd) as Hd';
      destruct Hd as (Hd & Hid & row & Hr & Hn); rewrite Hid in Hr; rewrite Hr in *; cbn in *; by rewrite Hn.
  - intros [[]|e]; [|by hkeep; intros d []].
    apply hoare_bind with (λ _, kept d0); [|by intros; hkeep].
    case_bool_decide; [by hkeep; intros d []|].
    apply hoare_bind with (λ _, kept d0); [|intros ?; hkeep].
    eapply hoare_conseq; [apply hoare_Agent_Update| |]; cbn; [intros d (?&_&?); by split|by intros ?? []].
Qed.

(** The sweep: every listed agent stays active while the loop runs. *)
Lemma hoare_MarkStale_keeps threshold d0 : hoare (kept d0) (MarkStaleAgentsOffline threshold) (λ _, kept d0).
Proof.
  unfold MarkStaleAgentsOffline.
  set (live := λ l d, kept d0 d ∧ Forall (λ a, ∃ row, db_agents d !! agent_ID a = Some row ∧ IsRetired row = false) l).
  apply hoare_bind with (λ r d, kept d0 d ∧ ∀ l, r = Ok l → live l d).
  - apply hoare_query; intros d Hd; split; try done. intros l [= <-]. split; [done|].
    apply Forall_forall. intros a Ha. rewrite merge_sort_Permutation, list_elem_of_filter in Ha.
    destruct Ha as [Hr (k & Hk)%elem_of_rows]. pose proof (proj1 Hd k a Hk) as <-.
    exists a. split; [done|]. unfold IsRetired. by rewrite Hr.
  - intros [l|e]; cbn; [|by hkeep; intros d []].
    hkeep; [by hkeep|]. apply hoare_bind with (λ _, kept d0); [|intros; hkeep].
    apply hoare_conseq with (P' := live l) (Q' := λ _, kept d0); [|intros d [_ H]; by apply H|done].
    rename a into t. revert l. intros l. induction l as [|a l IH]; cbn; [by hkeep; intros d []|].
    apply hoare_bind with (λ _, live l); [|by intros _].
    unfold mark_offline. case_match; [|hkeep; intros d [Hd Hl]; by inversion_clear Hl].
    apply hoare_bind with (λ _, live l); [|by intros; hkeep].
    intros w [Hd Hl]. pose proof (Forall_inv Hl) as Ha. pose proof (Forall_inv_tail Hl) as Ht.
    destruct (hoare_Agent_Update AgentStatusOffline a d0 w (conj Hd Ha)) as [Hk _].
    split; [done|]. eapply Forall_impl; [exact Ht|]. intros b (row & Hb & Hn). unfold AgentRepo.Update.
    match goal with |- context [sql_exec ?op ?f] => destruct (sql_exec_cases op f w) as [->| ->] end; [by eauto|].
    cbn. destruct Ha as (rowa & Hra & Hna). rewrite Hra. case_match; cbn; [|by eauto].
    destruct (decide (agent_ID a = agent_ID b)) as [->|Hne]; [rewrite lookup_insert_eq|rewrite lookup_insert_ne by done]; by eauto.
Qed.

(** ** Retirement *)
Definition agent_counts (id : string) (d : DB) : AgentDependencyCounts :=
  mkCounts (AgentRepo.active_targets id d) (AgentRepo.active_certificates id d) (AgentRepo.pending_jobs id d).

(** What a retirement asks for. *)
Definition may_retire (id : string) (force : bool) (reason : string) (d : DB) : Prop :=
  IsSentinelAgent id = false ∧
  (∃ a, db_agents d !! id = Some a ∧ agent_RetiredAt a = None) ∧
  (force = true → reason ≠ "") ∧ (force = false → HasDependencies (agent_counts id d) = false).

Definition cascades (id : string) (force : bool) (d : DB) : bool := force && HasDependencies (agent_counts id d).

(** The agent, and with the cascade its active targets, carry the same time and reason. *)
Definition stamped (cascade : bool) (id : string) (t : Z) (reason : string) (d : DB) : DB :=
  let d1 := set_agents (alter (AgentRepo.retire_agent t reason) id) d in
  if cascade then set_targets (fmap (AgentRepo.retire_target id t reason)) d1 else d1.

(** Everything but the audit log. *)
Definition tables (d : DB) : DB := set_audit (λ _, []) d.

Lemma hoare_collect_counts id d0 :
  hoare (λ d, d = d0) (collectAgentDependencyCounts id)
    (λ r d, d = d0 ∧ ∀ c, r = Ok c → c = agent_counts id d0).
Proof.
  unfold collectAgentDependencyCounts, agent_counts.
  apply hoare_bind with (λ r d, d = d0 ∧ ∀ z, r = Ok z → z = AgentRepo.active_targets id d0).
  { apply hoare_query; intros d ->; split; try done. by intros z [= <-]. }
  intros [z1|e]; [|hkeep; by intros d []].
  apply hoare_bind with (λ r d, d = d0 ∧ z1 = AgentRepo.active_targets id d0 ∧
    ∀ z, r = Ok z → z = AgentRepo.active_certificates id d0).
  { apply hoare_query; intros d [-> H]; rewrite (H z1 eq_refl); split_and!; try done. by intros z [= <-]. }
  intros [z2|e]; [|hkeep; intros d []; by split].
  apply hoare_bind with (λ r d, d = d0 ∧ z1 = AgentRepo.active_targets id d0 ∧
    z2 = AgentRepo.active_certificates id d0 ∧ ∀ z, r = Ok z → z = AgentRepo.pending_jobs id d0).
  { apply hoare_query; intros d (-> & -> & H); rewrite (H z2 eq_refl); split_and!; try done. by intros z [= <-]. }
  intros [z3|e]; hkeep; intros d (-> & -> & H1 & H2); split; try done.
  intros c [= <-]. by rewrite (H2 z3 eq_refl), H1.
Qed.

(** The change is made whole or not at all, whatever fails. *)
Lemma hoare_retire_rows cascade id reason t d0 :
  hoare (λ d, d = d0) (retire_rows cascade id reason t)
    (λ r d, (d = d0 ∨ d = stamped cascade id t reason d0) ∧
            (is_Ok r = true → d = stamped cascade id t reason d0)).
Proof.
  unfold retire_rows. destruct cascade; cbn.
  - apply hoare_bind with (λ r d, (d = d0 ∨ d = stamped true id t reason d0) ∧
      (is_Ok r = true → d = stamped true id t reason d0)).
    2:{ intros [[]|e]; hkeep; intros d [H1 H2]; split; auto. }
    unfold AgentRepo.RetireAgentWithCascade.
    apply hoare_bind with (λ _ d, d = d0); [by apply hoare_tx_stmt|]. intros [[]|e]; [|hkeep; intros d ->; split; [by left|done]].
    apply hoare_bind with (λ rv d, d = d0 ∧ (is_Ok rv.1 = true → rv.2 = stamped true id t reason d0)).
    + intros w Hw. subst d0. unfold run_tx, tx_exec. mrun.
      repeat case_match; simplify_eq/=; split; done.
    + intros [[[]|e] v]; cbn; [|hkeep; intros d [-> _]; split; [by left|done]].
      apply hoare_exec; cbn; intros d [-> H]; rewrite ?H by done; split; auto; done.
  - apply hoare_bind with (λ r d, (d = d0 ∨ d = stamped false id t reason d0) ∧
      (is_Ok r = true → d = stamped false id t reason d0)).
    + apply hoare_exec; cbn; intros d ->; split; auto; done.
    + intros [[]|e]; hkeep; intros d [H1 H2]; split; auto.
Qed.

Section facts.
Context `{E : Entropy}.
Variable ToLower : string → string.

Lemma hoare_audit_retirement cascade force id actor reason c d0 :
  hoare (λ d, tables d = tables d0) (audit_retirement ToLower cascade force id actor reason c)
    (λ _ d, tables d = tables d0).
Proof.
  assert (∀ TL a at_ act rt ri det, hoare (λ d : DB, tables d = tables d0)
    (RecordEvent TL a at_ act rt ri det) (λ _ d, tables d = tables d0)) as H.
  { intros. by apply hoare_audit_keeps. }
  unfold audit_retirement. cbv zeta. hkeep; [apply H|]. destruct cascade; [|hkeep].
  hkeep; [apply H|hkeep].
Qed.

Definition retired_as (id reason : string) (force : bool) (d0 : DB) (r : res AgentRetirementResult) (d : DB) : Prop :=
  match r with
  | Ok res =>
      if ar_AlreadyRetired res
      then d = d0 ∧ ∃ a, db_agents d0 !! id = Some a ∧ agent_RetiredAt a = Some (ar_RetiredAt res)
      else may_retire id force reason d0 ∧ ar_Counts res = agent_counts id d0 ∧
           ar_Cascade res = cascades id force d0 ∧
           tables d = tables (stamped (ar_Cascade res) id (ar_RetiredAt res) reason d0)
  | Err _ =>
      d = d0 ∨ may_retire id force reason d0 ∧ ∃ t, d = stamped (cascades id force d0) id t reason d0
  end.

Lemma hoare_RetireAgent id actor force reason d0 :
  hoare (λ d, d = d0) (RetireAgent ToLower id actor force reason) (retired_as id reason force d0).
Proof.
  unfold RetireAgent. destruct (IsSentinelAgent id) eqn:Es; [hkeep; intros d ->; by left|].
  apply hoare_bind with (λ r d, d = d0 ∧ ∀ a, r = Ok a → db_agents d0 !! id = Some a).
  { unfold AgentRepository_Get.
    apply hoare_bind with (λ r d, d = d0 ∧ ∀ o, r = Ok o → db_agents d0 !! id = o).
    - apply hoare_query; intros d ->; split; try done. by intros o [= <-].
    - intros [[a|]|e]; hkeep; intros d [-> H]; split; try done. intros b [= <-]. by apply H. }
  intros [a|e]; [|hkeep; intros d [-> _]; by left].
  destruct (agent_RetiredAt a) as [t0|] eqn:Ea.
  { hkeep. intros d [-> H]. split; [done|]. exists a. split; [by apply H|done]. }
  apply hoare_bind with (λ r d, d = d0 ∧ db_agents d0 !! id = Some a ∧ ∀ c, r = Ok c → c = agent_counts id d0).
  { intros w [Hw Ha]. pose proof (hoare_collect_counts id d0 w Hw) as [H1 H2]. split_and!; auto. }
  intros [c|e]; [|hkeep; intros d [-> _]; by left].
  destruct (force && bool_decide (reason = "")) eqn:Ef; [hkeep; intros d [-> _]; by left|].
  destruct (negb force && HasDependencies c) eqn:Ed; [hkeep; intros d [-> _]; by left|].
  set (start := λ d, d = d0 ∧ db_agents d0 !! id = Some a ∧ c = agent_counts id d0).
  apply hoare_conseq with (P' := start) (Q' := retired_as id reason force d0); [|intros d (-> & H1 & H2); split_and!; auto|done].
  hkeep; [by hkeep|]. rename a0 into t. cbv zeta.
  assert (∀ d, start d → may_retire id force reason d0) as Hm.
  { intros d (-> & H1 & ->). split_and!; [done|by eauto| |]; intros ->; cbn in *.
    - by case_bool_decide.
    - done. }
  apply hoare_bind with (λ r d, start d0 ∧ (d = d0 ∨ d = stamped (cascades id force d0) id t reason d0) ∧
    (is_Ok r = true → d = stamped (cascades id force d0) id t reason d0)).
  { intros w Hw. pose proof Hw as (Hd & H1 & Hc). subst c. split; [by rewrite <-Hd|].
    apply (hoare_retire_rows _ id reason t d0 w Hd). }
  intros [[]|e].
  2:{ hkeep. intros d (Hs & [->| ->] & _); [by left|right]. split; [by eapply Hm|by eauto]. }
  apply hoare_bind with (λ _ d, start d0 ∧ tables d = tables (stamped (cascades id force d0) id t reason d0)).
  { intros w (Hs & _ & Hd). specialize (Hd eq_refl). split; [done|].
    apply (hoare_audit_retirement _ _ _ _ _ _ (stamped (cascades id force d0) id t reason d0) w).
    by rewrite Hd. }
  intros []. hkeep. intros d (Hs & Hd). pose proof (Hm _ Hs) as Hmay. destruct Hs as (_ & _ & ->).
  by split_and!.
Qed.

(** Retiring an agent is guarded and all or nothing.  Whatever statements fail: the call
    retires an agent only if it is not one of the reserved identities, is registered and not
    retired yet, a forced retirement names a reason and an unforced one meets no active
    target, certificate or job; then the agent - and, when a forced retirement finds
    dependants, every active target of it - carries one time and reason, and no other row
    changes.  Success reports exactly what was done; an error means nothing was done, or the
    retirement took effect unacknowledged, and in neither case an audit row. *)
Theorem retirement_all_or_nothing id actor force reason (w : World DB) :
  let '(r, w') := RetireAgent ToLower id actor force reason w in
  retired_as id reason force (w_db w) r (w_db w').
Proof.
  pose proof (hoare_RetireAgent id actor force reason (w_db w) w eq_refl) as H.
  by destruct (RetireAgent _ _ _ _ _ w).
Qed.

Lemma kept_retired_as id reason force d0 d1 r d :
  kept d0 d1 → retired_as id reason force d1 r d → kept d0 d.
Proof.
  assert (∀ c t, kept d0 d1 → kept d0 (stamped c id t reason d1)) as Hs.
  { intros c t H. unfold stamped. pose proof (kept_retire d0 d1 id t reason H). by destruct c. }
  intros Hk. destruct r as [res|e]; cbn.
  - destruct (ar_AlreadyRetired res); [by intros [-> _]|]. intros (_ & _ & _ & Ht).
    assert (db_agents d = db_agents (stamped (ar_Cascade res) id (ar_RetiredAt res) reason d1)) as Ha
      by (by injection Ht).
    destruct (Hs (ar_Cascade res) (ar_RetiredAt res) Hk) as [H1 H2].
    unfold kept, agents_keyed, frozen in *. by rewrite Ha.
  - intros [->|(_ & t & ->)]; auto.
Qed.

Lemma hoare_agent_call c d0 : hoare (kept d0) (run_agent_call ToLower c) (λ _, kept d0).
Proof.
  assert (∀ A (m : M DB A), hoare (kept d0) m (λ _, kept d0) →
    hoare (kept d0) (m ≫= λ _, mret tt) (λ _, kept d0)) as Hw.
  { intros A m H. eapply hoare_bind; [exact H|]. intros a. hkeep. }
  assert (hoare (kept d0) generateAPIKey (λ _, kept d0)) as Hkey.
  { unfold generateAPIKey, readRand. hkeep; [|hkeep]. hkeep; hkeep. }
  destruct c; cbn; apply Hw.
  - unfold Register. case_match; [hkeep|]. hkeep; [exact Hkey|]. hkeep; [|hkeep].
    hkeep; [hkeep|]. hkeep; [hkeep|]. cbv zeta. hkeep; [apply hoare_Agent_Create|]. hkeep; [|hkeep].
    hkeep; [by apply hoare_audit_keeps|hkeep].
  - unfold RegisterAgent. hkeep; [hkeep|]. hkeep; [exact Hkey|]. hkeep; [|hkeep].
    hkeep; [hkeep|]. cbv zeta. hkeep; [apply hoare_Agent_Create|hkeep].
  - apply hoare_Heartbeat_keeps.
  - apply hoare_MarkStale_keeps.
  - intros w Hk. eapply kept_retired_as; [exact Hk|]. by apply hoare_RetireAgent.
Qed.

(** C17: A retired agent is frozen: no sequence of registrations, heartbeats, offline sweeps and
    retirements, with any failures, changes its row or brings it back. *)
Theorem retired_agent_frozen calls id a (w : World DB) :
  agents_keyed (w_db w) → db_agents (w_db w) !! id = Some a → IsRetired a = true →
  db_agents (w_db (snd (for_each calls (run_agent_call ToLower) w))) !! id = Some a.
Proof.
  intros Hk Ha Hr.
  assert (hoare (kept (w_db w)) (for_each calls (run_agent_call ToLower)) (λ _, kept (w_db w))) as H.
  { clear. induction calls as [|c l IH]; cbn; [hkeep|]. hkeep; [apply hoare_agent_call|exact IH]. }
  apply (H w); [|done|done]. split; [done|]. by intros k b.
Qed.
End facts.

(** ** Heartbeats *)
Lemma name_free_beat d id t md a :
  db_agents d !! id = Some a → agent_ID a = id → AgentRepo.name_free d a = true →
  AgentRepo.name_free (set_agents (<[id := AgentRepo.beat t md a]>) d) (agent_with_status AgentStatusOnline a) = true.
Proof.
  intros Ha Hid Hn. unfold AgentRepo.name_free in *. rewrite forallb_forall in *.
  intros b Hb%list_elem_of_In. cbn. apply elem_of_rows in Hb as (k & Hk). cbn in Hk.
  destruct (decide (k = id)) as [->|Hne].
  - rewrite lookup_insert_eq in Hk. injection Hk as <-.
    replace (agent_ID (AgentRepo.beat t md a)) with (agent_ID a) by (unfold AgentRepo.beat; by destruct md).
    by rewrite bool_decide_eq_true_2.
  - rewrite lookup_insert_ne in Hk by done. apply (Hn b), list_elem_of_In, elem_of_rows. by exists k.
Qed.

(** The heartbeat that brings an offline agent back is lost: with a working database it
    reports success and leaves the row as it was before but for the status - the time of the
    last heartbeat and the reported metadata are those read before the update.  The agent is
    listed online with a stale heartbeat until its next one. *)
Theorem heartbeat_lost_on_recovery id md a (w : World DB) :
  env_faults (w_env w) = [] → db_agents (w_db w) !! id = Some a → agent_ID a = id →
  AgentRepo.name_free (w_db w) a = true → IsRetired a = false → agent_Status a ≠ AgentStatusOnline →
  fst (Heartbeat id md w) = Ok tt ∧
  db_agents (w_db (snd (Heartbeat id md w))) !! id = Some (agent_with_status AgentStatusOnline a).
Proof.
  intros Hf Ha Hid Hn Hr Hs. unfold Heartbeat.
  assert (AgentRepository_Get id w = (Ok a, w)) as Hg.
  { unfold AgentRepository_Get. rewrite (bind_run _ _ w w (Ok (Some a))); [done|].
    rewrite query_run by done. by rewrite Ha. }
  rewrite (bind_run _ _ _ _ _ Hg), Hr. unfold AgentRepo.UpdateHeartbeat.
  destruct (now_run w) as (t & w1 & Hnow & Hdb & Hf1).
  erewrite bind_run; [|erewrite bind_run by exact Hnow; apply exec_run; congruence].
  rewrite Hdb, Ha, Hr. cbn. rewrite bool_decide_eq_false_2 by done.
  erewrite bind_run; [|erewrite bind_run by (apply exec_run; cbn; congruence); reflexivity].
  cbn. rewrite Hid, lookup_insert_eq, (name_free_beat _ _ _ _ _ Ha Hid Hn). cbn. split; [done|].
  rewrite lookup_insert_eq. f_equal. unfold AgentRepo.agent_set, AgentRepo.beat, agent_with_status. by destruct md.
Qed.

(** The UPDATE has no guard on retired_at: the second write of a heartbeat, or a write of the
    offline sweep, that carries a row read before the agent was retired goes through, and only the
    retirement columns survive it. *)
Theorem retired_agent_overwritten st a row (w : World DB) :
  env_faults (w_env w) = [] → db_agents (w_db w) !! agent_ID a = Some row → is_Some (agent_RetiredAt row) →
  AgentRepo.name_free (w_db w) (agent_with_status st a) = true →
  fst (AgentRepo.Update (agent_with_status st a) w) = Ok tt ∧
  ∃ row', db_agents (w_db (snd (AgentRepo.Update (agent_with_status st a) w))) !! agent_ID a = Some row' ∧
    agent_Status row' = st ∧ agent_LastHeartbeatAt row' = agent_LastHeartbeatAt a ∧ agent_RetiredAt row' = agent_RetiredAt row.
Proof.
  intros Hf Hrow _ Hn. unfold AgentRepo.Update. rewrite exec_run by done. cbn [agent_with_status agent_ID].
  rewrite Hrow. cbn in Hn |- *. rewrite Hn. cbn. split; [done|]. eexists. split; [apply lookup_insert_eq|done].
Qed.

(** ** Keys *)

(** An agent is found by the key its registration returned, as long as no other agent has
    a key of the same digest. *)
Theorem registered_agent_authenticates `{E : Entropy} ToLower name hostname agent key (w w' : World DB) :
  env_faults (w_env w) = [] → Register ToLower name hostname w = (Ok (agent, key), w') →
  (∀ b, b ∈ rows (db_agents (w_db w)) → agent_APIKeyHash b ≠ hashAPIKey key) →
  fst (GetAgentByAPIKey key w') = Ok agent ∧ db_agents (w_db w') !! agent_ID agent = Some agent.
Proof.
  intros Hf Hreg Hfresh. unfold Register in Hreg.
  destruct (_ || _); [done|]. apply bind_inv in Hreg as (k & w1 & Hk & Hreg).
  destruct k as [apiKey|e]; [|done].
  assert (w_db w1 = w_db w ∧ env_faults (w_env w1) = []) as [Hd1 Hf1].
  { unfold generateAPIKey, readRand, fresh, mret, M_ret, mbind, M_bind in Hk. cbn in Hk. repeat case_match; simplify_eq/=; by split. }
  apply bind_inv in Hreg as (t & w2 & Ht & Hreg). pose proof (now_clock w1) as (Hd2 & _ & _ & Hf2).
  rewrite Ht in Hd2, Hf2. cbn in Hd2, Hf2. apply bind_inv in Hreg as (id & w3 & Hi & Hreg).
  assert (w_db w3 = w_db w2 ∧ env_faults (w_env w3) = env_faults (w_env w2)) as [Hd3 Hf3].
  { unfold generateID, fresh, now, mret, M_ret, mbind, M_bind in Hi. cbn in Hi. repeat case_match; simplify_eq/=; by split. }
  cbv zeta in Hreg. unfold AgentRepo.Create in Hreg.
  erewrite bind_run in Hreg by (apply exec_run; congruence). cbn in Hreg.
  destruct (_ && _) eqn:Ec; [|done]. cbn in Hreg.
  apply bind_inv in Hreg as (ra & w4 & Hra & Hreg). injection Hreg as <- <- <-.
  match type of Hra with RecordEvent _ _ _ _ _ _ _ ?w = _ => set (w5 := w) in Hra end.
  set (m := <[id := new_agent id name hostname (hashAPIKey apiKey) t]> (db_agents (w_db w3))).
  assert (hoare (λ d, db_agents d = m) (RecordEvent ToLower "system" ActorTypeSystem "agent_registered"
    "agent" id [("name", GStr name); ("hostname", GStr hostname)]) (λ _ d, db_agents d = m)) as Ha
    by (by apply hoare_audit_keeps).
  specialize (Ha w5 eq_refl). rewrite Hra in Ha. cbn in Ha.
  assert (db_agents (w_db w4) !! id = Some (new_agent id name hostname (hashAPIKey apiKey) t)) as Hl
    by (by rewrite Ha; apply lookup_insert_eq).
  split; [|done].
  pose proof (quiet_RecordEvent ToLower "system" ActorTypeSystem "agent_registered" "agent" id
    [("name", GStr name); ("hostname", GStr hostname)] w5) as Hq.
  rewrite Hra in Hq. unfold quiet in Hq. cbn in Hq.
  unfold GetAgentByAPIKey, AgentRepo.GetByAPIKey.
  erewrite bind_run; [|erewrite bind_run by (apply query_run, Hq; congruence); reflexivity].
  cbn. set (l := filter _ _).
  assert (∀ b, b ∈ l → b = new_agent id name hostname (hashAPIKey apiKey) t) as Hall.
  { intros b [Hb (k & Hkb)%elem_of_rows]%list_elem_of_filter. rewrite Ha in Hkb. unfold m in Hkb.
    destruct (decide (k = id)) as [->|Hne]; [by rewrite lookup_insert_eq in Hkb; simplify_eq|].
    rewrite lookup_insert_ne in Hkb by done. exfalso. apply (Hfresh b); [|done].
    apply elem_of_rows. exists k. congruence. }
  assert (new_agent id name hostname (hashAPIKey apiKey) t ∈ l) as Hin.
  { apply list_elem_of_filter. split; [done|]. apply elem_of_rows. by exists id. }
  clearbody l. destruct l as [|b l']; [by apply not_elem_of_nil in Hin|]. cbn. by rewrite (Hall b) by left.
Qed.

(** ** Concrete runs *)
Definition ex_agent (status : string) (beat retired : option Z) : Agent :=
  mkAgent "agent-1" "web" "web.local" status beat 1 "hash" "" "" "" "" retired None.
Definition ex_agents (a : Agent) : World DB :=
  mkWorld (mkDB ∅ ∅ ∅ ∅ {[ "agent-1" := a ]} ∅ [] ∅ []) (mkEnv 100 [] [] 0).

Lemma retired_agent_frozen_witness :
  db_agents (w_db (snd (for_each [CallHeartbeat "agent-1" None; CallRetire "agent-1" "alice" true "gone"]
    (run_agent_call (E := toy_entropy) id) (ex_agents (ex_agent AgentStatusOnline (Some 5) (Some 7)))))) !! "agent-1"
  = Some (ex_agent AgentStatusOnline (Some 5) (Some 7)).
Proof.
  apply (retired_agent_frozen (E := toy_entropy) id _ "agent-1").
  - apply map_Forall_singleton. reflexivity.
  - reflexivity.
  - reflexivity.
Defined.

Lemma heartbeat_lost_on_recovery_witness :
  fst (Heartbeat "agent-1" None (ex_agents (ex_agent AgentStatusOffline (Some 5) None))) = Ok tt ∧
  db_agents (w_db (snd (Heartbeat "agent-1" None (ex_agents (ex_agent AgentStatusOffline (Some 5) None))))) !! "agent-1"
  = Some (ex_agent AgentStatusOnline (Some 5) None).
Proof.
  apply (heartbeat_lost_on_recovery "agent-1" None (ex_agent AgentStatusOffline (Some 5) None)); try reflexivity.
  discriminate.
Defined.

(** The agent was read offline, retired by an administrator, and is set online by the heartbeat. *)
Lemma retired_agent_overwritten_witness :
  let w := ex_agents (ex_agent AgentStatusOffline (Some 5) (Some 7)) in
  let a := ex_agent AgentStatusOffline (Some 5) None in
  fst (AgentRepo.Update (agent_with_status AgentStatusOnline a) w) = Ok tt ∧
  ∃ row', db_agents (w_db (snd (AgentRepo.Update (agent_with_status AgentStatusOnline a) w))) !! "agent-1" = Some row' ∧
    agent_Status row' = AgentStatusOnline ∧ agent_LastHeartbeatAt row' = Some 5 ∧ agent_RetiredAt row' = Some 7.
Proof.
  apply (retired_agent_overwritten AgentStatusOnline (ex_agent AgentStatusOffline (Some 5) None)
    (ex_agent AgentStatusOffline (Some 5) (Some 7))); [reflexivity|reflexivity|by eexists|reflexivity].
Defined.

Lemma registered_agent_authenticates_witness :
  let run := Register (E := toy_entropy) id "db" "db.local" (ex_agents (ex_agent AgentStatusOnline None None)) in
  ∃ agent key w', run = (Ok (agent, key), w') ∧ fst (GetAgentByAPIKey key w') = Ok agent ∧
    db_agents (w_db w') !! agent_ID agent = Some agent.
Proof.
  intros run. destruct run as [[[agent key]|e] w'] eqn:Er; [|vm_compute in Er; discriminate].
  exists agent, key, w'. split; [reflexivity|].
  apply (registered_agent_authenticates (E := toy_entropy) id "db" "db.local" agent key
    (ex_agents (ex_agent AgentStatusOnline None None)) w'); [reflexivity|exact Er|].
  intros b (k & Hk)%elem_of_rows. vm_compute in Er. injection Er as <- <- <-.
  cbn in Hk. apply lookup_singleton_Some in Hk as [_ <-]. vm_compute. discriminate.
Defined.
