(* ===== verification/AcmeWire.v ===== *)
(** * The ACME protocol layer (src/internal/api/acme)

    [Module Text] has the string functions the package uses.  [Module Problems] is errors.go
    and the validator sentinels of challenge.go, [Module Orders] the checks of order.go,
    [Module Keys] the account-key functions of jws.go and challenge.go, [Module Ari] is
    ari.go, [Module Jws] and [Module KeyChange] the verifiers of jws.go and keychange.go.  The JOSE library is the class [Jose]: keys and their thumbprints, the parser of
    signed messages and the signature check, with its documented laws in [JoseOk]. *)

From Stdlib Require Import ZArith Lia Ascii String.
From stdpp Require Import prelude gmap strings list sorting pretty.
From S2P Require Import Prelude Store GoBytes KeyCrypto.

(** ** strings, encoding/base64 with padding *)
Module Text.
(** The bytes of [s] from offset [n]. *)
Fixpoint drop_bytes (n : nat) (s : string) : string :=
  match n, s with
  | O, _ => s
  | S n', String _ s' => drop_bytes n' s'
  | S _, EmptyString => EmptyString
  end.

(** [strings.TrimPrefix(s, p)]. *)
Definition TrimPrefix (s p : string) : string :=
  if HasPrefix s p then drop_bytes (len p) s else s.

(** [strings.LastIndex(s, sub)] for a non-empty [sub]: what follows that occurrence. *)
Fixpoint after_last (sub s : string) : option string :=
  match s with
  | EmptyString => None
  | String _ s' =>
      match after_last sub s' with
      | Some r => Some r
      | None => if HasPrefix s sub then Some (drop_bytes (len sub) s) else None
      end
  end.

(** [strings.Index(s, sub)] for a non-empty [sub]: what precedes that occurrence. *)
Fixpoint before_first (sub s : string) : option string :=
  match s with
  | EmptyString => None
  | String c s' =>
      if HasPrefix s sub then Some ""
      else String c <$> before_first sub s'
  end.

(** [strings.Contains(s, sub)] for a non-empty [sub]. *)
Definition Contains (s sub : string) : bool := bool_decide (is_Some (before_first sub s)).

(** [strings.ReplaceAll(s, c, "")] for a one-byte [c]. *)
Fixpoint remove_char (c : ascii) (s : string) : string :=
  match s with
  | EmptyString => EmptyString
  | String d s' => if Ascii.eqb d c then remove_char c s' else String d (remove_char c s')
  end.

(** Remove trailing white space from a reversed list of bytes. *)
Fixpoint trim_rev (fuel : nat) (l : list Z) : list Z :=
  match fuel with
  | O => l
  | S f =>
      match list_find is_Some (flip strip_prefix l ∘ reverse <$> space_encodings) with
      | Some (_, Some l') => trim_rev f l'
      | _ => l
      end
  end.

(** [strings.TrimSpace(s)]. *)
Definition TrimSpace (s : string) : string :=
  let l := trim_left (len s) (bytes_of s) in
  of_bytes (reverse (trim_rev (length l) (reverse l))).

(** [base64.StdEncoding]: the raw encoding filled up to a multiple of four characters. *)
Definition padding (n : nat) : string :=
  match (n mod 4)%nat with 2%nat => "==" | 3%nat => "=" | _ => "" end.
Definition std_pad_EncodeToString (s : string) : string :=
  let e := std_EncodeToString s in e +:+ padding (len e).

Definition not_newline (c : ascii) : bool := negb (is_newline c).
Fixpoint keep_chars (p : ascii → bool) (s : string) : string :=
  match s with
  | EmptyString => EmptyString
  | String c s' => if p c then String c (keep_chars p s') else keep_chars p s'
  end.

Fixpoint take_bytes (n : nat) (s : string) : string :=
  match n, s with
  | S n', String c s' => String c (take_bytes n' s')
  | _, _ => EmptyString
  end.

Definition std_pad_DecodeString (s : string) : option string :=
  let s := keep_chars not_newline s in
  let n := len s in
  if negb (n mod 4 =? 0)%nat then None else
  if bool_decide (drop_bytes (n - 2) s = "==") && (2 <=? n)%nat then std_DecodeString (take_bytes (n - 2) s) else
  if bool_decide (drop_bytes (n - 1) s = "=") && (1 <=? n)%nat then std_DecodeString (take_bytes (n - 1) s) else
  std_DecodeString s.

(** [new(big.Int).SetBytes(b)] and [n.Text(16)] for a natural number. *)
Definition SetBytes (b : string) : Z := foldl (λ acc x, acc * 256 + x) 0 (bytes_of b).
Fixpoint hex_text (fuel : nat) (n : Z) (acc : string) : string :=
  match fuel with
  | O => acc
  | S f => if n <=? 0 then acc else hex_text f (n / 16) (String (hex_digit (n mod 16)) acc)
  end.
(** [Z.log2 n + 1] digits are enough. *)
Definition Text16 (n : Z) : string :=
  if n =? 0 then "0" else
  (if n <? 0 then "-" else "") +:+ hex_text (S (Z.to_nat (Z.log2 (Z.abs n)))) (Z.abs n) "".
End Text.
Import Text.

(** ** domain/acme.go *)
Record ACMEIdentifier := mkIdentifier { ident_Type : string; ident_Value : string }.
#[global] Instance ACMEIdentifier_eq_dec : EqDecision ACMEIdentifier.
Proof. solve_decision. Defined.

Record ACMEProblem := mkACMEProblem { apb_Type : string; apb_Detail : string; apb_Status : Z }.
#[global] Instance ACMEProblem_eq_dec : EqDecision ACMEProblem.
Proof. solve_decision. Defined.

Definition ACMEAccountStatusValid : string := "valid".
Definition ACMEAccountStatusDeactivated : string := "deactivated".
Definition ACMEAccountStatusRevoked : string := "revoked".

(** An empty [OwnerID] is NULL in the table. *)
Record ACMEAccount := mkAccount {
  acc_ID : string;
  acc_JWKThumbprint : string;
  acc_JWKPEM : string;
  acc_Contact : list string;
  acc_Status : string;
  acc_ProfileID : string;
  acc_OwnerID : string;
  acc_CreatedAt : Z;
  acc_UpdatedAt : Z
}.

Definition ACMEOrderStatusPending : string := "pending".
Definition ACMEOrderStatusReady : string := "ready".
Definition ACMEOrderStatusProcessing : string := "processing".
Definition ACMEOrderStatusValid : string := "valid".
Definition ACMEOrderStatusInvalid : string := "invalid".

Record ACMEOrder := mkOrder {
  ord_ID : string;
  ord_AccountID : string;
  ord_Identifiers : list ACMEIdentifier;
  ord_Status : string;
  ord_ExpiresAt : Z;
  ord_NotBefore : option Z;
  ord_NotAfter : option Z;
  ord_Error : option ACMEProblem;
  ord_CSRPEM : string;
  ord_CertificateID : string;
  ord_CreatedAt : Z;
  ord_UpdatedAt : Z
}.

Definition ACMEAuthzStatusPending : string := "pending".
Definition ACMEAuthzStatusValid : string := "valid".
Definition ACMEAuthzStatusInvalid : string := "invalid".
Definition ACMEAuthzStatusExpired : string := "expired".

(** The row; [Challenges] is filled in on read. *)
Record ACMEAuthorization := mkAuthz {
  az_ID : string;
  az_OrderID : string;
  az_Identifier : ACMEIdentifier;
  az_Status : string;
  az_ExpiresAt : Z;
  az_Wildcard : bool;
  az_CreatedAt : Z;
  az_UpdatedAt : Z
}.

Definition ACMEChallengeTypeHTTP01 : string := "http-01".
Definition ACMEChallengeTypeDNS01 : string := "dns-01".
Definition ACMEChallengeTypeTLSALPN01 : string := "tls-alpn-01".
Definition ACMEChallengeStatusPending : string := "pending".
Definition ACMEChallengeStatusProcessing : string := "processing".
Definition ACMEChallengeStatusValid : string := "valid".
Definition ACMEChallengeStatusInvalid : string := "invalid".

Record ACMEChallenge := mkChallenge {
  ch_ID : string;
  ch_AuthzID : string;
  ch_Type : string;
  ch_Status : string;
  ch_Token : string;
  ch_ValidatedAt : option Z;
  ch_Error : option ACMEProblem;
  ch_CreatedAt : Z
}.

(** What the package uses of the runtime: [strings.ToLower], [strconv.Quote] (the verb %q)
    and the order in which a map used as a set is ranged over. *)
Class GoRuntime := mkGoRuntime {
  ToLower : string → string;
  Quote : string → string;
  range_set : gset string → list string
}.

(** A range visits every key once. *)
Class GoRuntimeOk (R : GoRuntime) : Prop := range_set_perm X : range_set X ≡ₚ elements X.

(** ** errors.go, and the sentinels of challenge.go *)
Module Problems.
Definition acmeErrorPrefix : string := "urn:ietf:params:acme:error:".

(** [Subproblems] is filled in by the handlers only. *)
Record Problem := mkProblem {
  pb_Type : string;
  pb_Detail : string;
  pb_Status : Z;
  pb_Identifier : option ACMEIdentifier
}.
#[global] Instance Problem_eq_dec : EqDecision Problem.
Proof. solve_decision. Defined.

Definition problem (type detail : string) (status : Z) : Problem := mkProblem type detail status None.
Definition Malformed (detail : string) : Problem := problem (acmeErrorPrefix +:+ "malformed") detail 400.
Definition ServerInternal (detail : string) : Problem :=
  problem (acmeErrorPrefix +:+ "serverInternal") detail 500.
Definition UserActionRequired (detail : string) : Problem :=
  problem (acmeErrorPrefix +:+ "userActionRequired") detail 403.
Definition UnsupportedContentType (got : string) : Problem :=
  problem "about:blank" ("unsupported content type: " +:+ got) 415.
Definition AccountDoesNotExist (detail : string) : Problem :=
  problem (acmeErrorPrefix +:+ "accountDoesNotExist") detail 400.
Definition BadNonce (detail : string) : Problem := problem (acmeErrorPrefix +:+ "badNonce") detail 400.

Definition ErrChallengeConnection := ErrSentinel "acme: connection-level failure during challenge validation".
Definition ErrChallengeDNS := ErrSentinel "acme: DNS-level failure during challenge validation".
Definition ErrChallengeTLS := ErrSentinel "acme: TLS-level failure during challenge validation".
Definition ErrChallengeMismatch := ErrSentinel
  "acme: challenge response did not match expected key authorization".
Definition ErrChallengeReservedIP := ErrSentinel
  "acme: HTTP-01 target resolves to a reserved IP (SSRF guard)".
Definition ErrChallengeRedirect := ErrSentinel "acme: HTTP-01 target redirected too many times".
Definition ErrChallengeBodyTooBig := ErrSentinel "acme: HTTP-01 response body exceeded 16 KiB cap".

Definition ChallengeProblemFromError (challengeType : string) (err : option error) : option Problem :=
  match err with
  | None => None
  | Some e =>
      Some (if errors_Is e ErrChallengeConnection
            then problem "urn:ietf:params:acme:error:connection" (Error e) 400
            else if errors_Is e ErrChallengeDNS
            then problem "urn:ietf:params:acme:error:dns" (Error e) 400
            else if errors_Is e ErrChallengeTLS
            then problem "urn:ietf:params:acme:error:tls" (Error e) 400
            else problem "urn:ietf:params:acme:error:incorrectResponse"
                   (challengeType +:+ " validation failed: " +:+ Error e) 403)
  end.
End Problems.
Import Problems.

(** ** order.go *)
Module Orders.
(** The fields of [x509.CertificateRequest] the package reads. *)
Record CertificateRequest := mkCSR { csr_CommonName : string; csr_DNSNames : list string }.

Section orders.
Context `{RT : GoRuntime}.

Definition rejected (detail : string) (id : ACMEIdentifier) : Problem :=
  mkProblem "urn:ietf:params:acme:error:rejectedIdentifier" detail 400 (Some id).

Definition identifier_problem (id : ACMEIdentifier) : list Problem :=
  if bool_decide (ToLower (ident_Type id) = "dns") then
    if bool_decide (ident_Value id = "") then [rejected "identifier value is empty" id] else []
  else [rejected ("identifier type " +:+ Quote (ident_Type id) +:+
                  " is not supported (Phase 2: dns only)") id].

Definition ValidateIdentifiers (ids : list ACMEIdentifier) : list Problem :=
  match ids with
  | [] => [Malformed "new-order requires at least one identifier"]
  | _ => concat (identifier_problem <$> ids)
  end.

(** The names a CSR asks for and the names an order was made for. *)
Definition csrSet (csr : CertificateRequest) : gset string :=
  (if bool_decide (csr_CommonName csr = "") then ∅ else {[ ToLower (csr_CommonName csr) ]}) ∪
  list_to_set (ToLower <$> csr_DNSNames csr).
Definition orderSet (ids : list ACMEIdentifier) : gset string :=
  list_to_set ((λ id, ToLower (ident_Value id)) <$> filter (λ id, ident_Type id = "dns") ids).

Definition badCSR (detail : string) : Problem := problem "urn:ietf:params:acme:error:badCSR" detail 400.

(** [None] when the CSR matches. *)
Definition CSRMatchesIdentifiers (csr : CertificateRequest) (ids : list ACMEIdentifier) : option Problem :=
  if negb (size (csrSet csr) =? size (orderSet ids))%nat
  then Some (badCSR ("CSR identifier count (" +:+ pretty (size (csrSet csr)) +:+
                     ") differs from order identifier count (" +:+ pretty (size (orderSet ids)) +:+ ")"))
  else
    match filter (λ k, k ∉ csrSet csr) (range_set (orderSet ids)) with
    | k :: _ => Some (badCSR ("CSR is missing the order identifier " +:+ Quote k))
    | [] => None
    end.

Definition HasWildcard (ids : list ACMEIdentifier) : bool :=
  existsb (λ id, HasPrefix (ident_Value id) "*.") ids.
End orders.
End Orders.
Import Orders.

(** ** go-jose *)
Inductive header_value := HStr (s : string) | HNull | HOther.

Record ProtectedHeader (K : Type) := mkHeader {
  ph_Algorithm : string;
  ph_KeyID : string;
  ph_JSONWebKey : option K;
  ph_Nonce : string;
  ph_ExtraHeaders : list (string * header_value)
}.
Arguments mkHeader {K}.
Arguments ph_Algorithm {K}.
Arguments ph_KeyID {K}.
Arguments ph_JSONWebKey {K}.
Arguments ph_Nonce {K}.
Arguments ph_ExtraHeaders {K}.

(** A parsed message: the protected headers of its signatures, the payload before
    verification, and the bytes it was parsed from. *)
Record JSONWebSignature (K : Type) := mkJWS {
  jws_Signatures : list (ProtectedHeader K);
  jws_UnsafePayload : string;
  jws_raw : string
}.
Arguments mkJWS {K}.
Arguments jws_Signatures {K}.
Arguments jws_UnsafePayload {K}.
Arguments jws_raw {K}.

(** Keys, their RFC 7638 SHA-256 thumbprint and JSON form; [ParseSigned] with an allow-list
    of algorithms; [Verify]; and the JSON of a key-change payload. *)
Class Jose := mkJose {
  JWK : Type;
  jwk_Valid : JWK → bool;
  jwk_Thumbprint : JWK → res string;
  jwk_MarshalJSON : JWK → res string;
  jwk_UnmarshalJSON : string → res JWK;
  ParseSigned : string → list string → res (JSONWebSignature JWK);
  jws_Verify : JSONWebSignature JWK → JWK → res string;
  unmarshal_KeyChange : string → res (string * option JWK)
}.

(** The JSON of a key decodes to that key; [Verify] returns the payload that was parsed. *)
Class JoseOk (J : Jose) : Prop := {
  jwk_json_roundtrip k raw : jwk_MarshalJSON k = Ok raw → jwk_UnmarshalJSON raw = Ok k;
  verify_payload m k p : jws_Verify m k = Ok p → p = jws_UnsafePayload m
}.

(** ** The key functions of jws.go and challenge.go *)
Module Keys.
Section keys.
Context `{J : Jose}.

Definition pem_header : string := "-----BEGIN ACME ACCOUNT JWK-----".
Definition pem_footer : string := "-----END ACME ACCOUNT JWK-----".
Definition nl : string := String (ascii_of_nat 10) "".

(** Lines of 64 characters; [fuel] is the length of the text. *)
Fixpoint wrap_lines (fuel : nat) (s : string) : string :=
  match fuel, s with
  | S f, String _ _ => take_bytes 64 s +:+ nl +:+ wrap_lines f (drop_bytes 64 s)
  | _, _ => ""
  end.

Definition JWKToPEM (jwk : JWK) : res string :=
  match jwk_MarshalJSON jwk with
  | Err e => Err (ErrWrap "acme jws: marshal jwk json" e)
  | Ok raw =>
      let encoded := std_pad_EncodeToString raw in
      Ok (pem_header +:+ nl +:+ wrap_lines (len encoded) encoded +:+ pem_footer +:+ nl)
  end.

Definition ParseJWKFromPEM (pemString : string) : res JWK :=
  let s := TrimSpace pemString in
  if negb (HasPrefix s pem_header) then Err (ErrMsg "acme jws: pem missing header") else
  match before_first pem_footer (TrimPrefix s pem_header) with
  | None => Err (ErrMsg "acme jws: pem missing footer")
  | Some body =>
      let body := remove_char (ascii_of_nat 13) (remove_char (ascii_of_nat 10) (TrimSpace body)) in
      match std_pad_DecodeString body with
      | None => Err (ErrMsg "acme jws: decode pem body")
      | Some raw =>
          match jwk_UnmarshalJSON raw with
          | Err e => Err (ErrWrap "acme jws: parse jwk json" e)
          | Ok jwk =>
              if jwk_Valid jwk then Ok jwk else Err (ErrMsg "acme jws: jwk did not validate")
          end
      end
  end.

Definition JWKThumbprint (jwk : JWK) : res string :=
  match jwk_Thumbprint jwk with
  | Err e => Err (ErrWrap "acme jws: thumbprint" e)
  | Ok raw => Ok (b64_EncodeToString raw)
  end.

Definition AccountID (thumbprint : string) : string := "acme-acc-" +:+ thumbprint.

(** The comparison takes constant time. *)
Definition jwksThumbprintEqual (a b : option JWK) : res bool :=
  match a, b with
  | Some a, Some b =>
      match JWKThumbprint a with
      | Err e => Err e
      | Ok tA =>
          match JWKThumbprint b with
          | Err e => Err e
          | Ok tB => Ok (bool_decide (tA = tB))
          end
      end
  | _, _ => Ok false
  end.

Definition KeyAuthorization (token : string) (jwk : option JWK) : res string :=
  match jwk with
  | None => Err (ErrMsg "acme: nil jwk for key authorization")
  | Some k =>
      match jwk_Thumbprint k with
      | Err e => Err (ErrWrap "acme: thumbprint" e)
      | Ok thumb => Ok (token +:+ "." +:+ b64_EncodeToString thumb)
      end
  end.

Definition DNS01TXTRecordValue (keyAuthorization : string) : string :=
  b64_EncodeToString (Sum256 keyAuthorization).
Definition TLSALPN01ExtensionValue (keyAuthorization : string) : string := Sum256 keyAuthorization.
End keys.

Definition nonceByteLen : nat := 32.
Definition GenerateNonce `{Entropy} {D} : M D (res string) :=
  b ← readRand nonceByteLen;
  mret match b with Err e => Err e | Ok s => Ok (b64_EncodeToString s) end.
End Keys.
Import Keys.

(** ** ari.go *)
Module Ari.
Record ARICertID := mkARICertID { ari_AKI : string; ari_Serial : string }.

Definition ErrARICertIDMalformed := ErrSentinel "acme ari: cert-id is not <aki>.<serial>".
Definition ErrARICertIDDecodeAKI := ErrSentinel "acme ari: cert-id AKI is not valid base64url".
Definition ErrARICertIDDecodeSeria := ErrSentinel "acme ari: cert-id serial is not valid base64url".
Definition ErrARICertIDEmpty := ErrSentinel "acme ari: cert-id has empty AKI or serial".

Definition SerialHex `{GoRuntime} (a : ARICertID) : string :=
  if bool_decide (ari_Serial a = "") then "" else
  let n := SetBytes (ari_Serial a) in
  if n =? 0 then "0" else ToLower (Text16 n).

Definition AKIHex `{GoRuntime} (a : ARICertID) : string := ToLower (hex_EncodeToString (ari_AKI a)).

Definition ParseARICertID (certID : string) : res ARICertID :=
  match Split "." certID with
  | [p0; p1] =>
      if bool_decide (p0 = "") || bool_decide (p1 = "") then Err ErrARICertIDEmpty else
      match b64_DecodeString p0 with
      | None => Err (ErrWrapPre ErrARICertIDDecodeAKI "illegal base64 data")
      | Some aki =>
          match b64_DecodeString p1 with
          | None => Err (ErrWrapPre ErrARICertIDDecodeSeria "illegal base64 data")
          | Some serial =>
              if bool_decide (aki = "") || bool_decide (serial = "") then Err ErrARICertIDEmpty
              else Ok (mkARICertID aki serial)
          end
      end
  | parts => Err (ErrWrapPre ErrARICertIDMalformed ("got " +:+ pretty (length parts) +:+ " parts"))
  end.

(** [BuildARICertID] after the PEM and the certificate are parsed; the serial number is
    given by its big-endian bytes. *)
Definition BuildARICertID (authorityKeyId : string) (serial : option string) : res string :=
  if bool_decide (authorityKeyId = "")
  then Err (ErrMsg "acme ari: certificate has no authorityKeyIdentifier extension") else
  match serial with
  | None => Err (ErrMsg "acme ari: certificate has no serial number")
  | Some b => Ok (b64_EncodeToString authorityKeyId +:+ "." +:+ b64_EncodeToString b)
  end.

Definition hour : Z := 3600 * 10 ^ 9.
Definition zero_time : Z := - 62135596800 * 10 ^ 9.

(** [t.Sub(u)] saturates at the extremes of a [Duration]. *)
Definition Sub (t u : Z) : Z := Z.max (- 2 ^ 63) (Z.min (2 ^ 63 - 1) (t - u)).

(** The clamp both branches end with. *)
Definition not_before_now (now : Z) (w : Z * Z) : Z * Z :=
  let '(start, end_) := w in
  let start := if negb (now =? zero_time) && (start <? now) then now else start in
  (start, if end_ <? start then start else end_).

(** The last third of the validity. *)
Definition default_window (notBefore notAfter now : Z) : Z * Z :=
  let validity := Sub notAfter notBefore in
  if validity <=? 0 then (notAfter - 24 * hour, notAfter) else
  let thirty3 := Z.quot validity 3 in
  not_before_now now (notAfter + wrap64 (- thirty3), notAfter + Z.quot (wrap64 (- thirty3)) 3).

(** [expiresAt] is the certificate's, [versionNotBefore] the version's, [days] the policy's
    [RenewalWindowDays]; [None] is a nil pointer. *)
Definition ComputeRenewalWindow (expiresAt versionNotBefore days : option Z) (now : Z) : Z * Z :=
  match expiresAt with
  | None => (zero_time, zero_time)
  | Some notAfter =>
      let notBefore := match versionNotBefore with
                       | Some nb => if nb =? zero_time then notAfter else nb
                       | None => notAfter
                       end in
      if negb (now =? zero_time) && (notAfter <? now) then (now, now + 24 * hour) else
      match days with
      | Some n =>
          if 0 <? n then
            let windowDays := wrap64 (wrap64 (n * 24) * hour) in
            let start := notAfter + wrap64 (- windowDays) in
            not_before_now now (start, start + Z.quot windowDays 2)
          else default_window notBefore notAfter now
      | None => default_window notBefore notAfter now
      end
  end.
End Ari.

(** ** jws.go and keychange.go *)
Module Jws.
Definition AllowedSignatureAlgorithms : list string := ["RS256"; "ES256"; "EdDSA"].

Definition ErrJWSMalformed := ErrSentinel "acme jws: malformed".
Definition ErrJWSWrongType := ErrSentinel
  "acme jws: protected header `typ` must be `application/jose+json` or absent".
Definition ErrJWSAlgorithmRejected := ErrSentinel
  "acme jws: signature algorithm not in {RS256, ES256, EdDSA}".
Definition ErrJWSMissingNonce := ErrSentinel "acme jws: protected header `nonce` is required".
Definition ErrJWSBadNonce := ErrSentinel "acme jws: nonce missing, replayed, or expired".
Definition ErrJWSMissingURL := ErrSentinel "acme jws: protected header `url` is required".
Definition ErrJWSURLMismatch := ErrSentinel
  "acme jws: protected header `url` does not match request URL".
Definition ErrJWSBothKidAndJWK := ErrSentinel
  "acme jws: protected header MUST contain exactly one of `kid` or `jwk`".
Definition ErrJWSNeitherKidNorJWK := ErrSentinel
  "acme jws: protected header MUST contain exactly one of `kid` or `jwk`".
Definition ErrJWSExpectKidGotJWK := ErrSentinel
  "acme jws: this endpoint requires `kid` (registered account); got `jwk`".
Definition ErrJWSExpectJWKGotKid := ErrSentinel
  "acme jws: this endpoint requires `jwk` (new account); got `kid`".
Definition ErrJWSInvalidJWK := ErrSentinel "acme jws: embedded JWK is invalid".
Definition ErrJWSSignatureInvalid := ErrSentinel "acme jws: signature did not verify".
Definition ErrJWSPayloadMismatch := ErrSentinel
  "acme jws: post-verify payload differs from pre-verify payload".
Definition ErrJWSAccountNotFound := ErrSentinel "acme jws: kid points at unknown account".
Definition ErrJWSAccountInactive := ErrSentinel "acme jws: account status is not `valid`".

Definition algorithmAllowed (alg : string) : bool := bool_decide (alg ∈ AllowedSignatureAlgorithms).

(** [extra[name]]. *)
Definition header (extra : list (string * header_value)) (name : string) : option header_value :=
  snd <$> head (filter (λ kv : string * header_value, kv.1 = name) extra).

Definition extractStringHeader (extra : list (string * header_value)) (name : string) : res string :=
  match header extra name with
  | None => Ok ""
  | Some (HStr s) => Ok s
  | Some _ => Err (ErrMsg "acme jws: header is not a string")
  end.

Section jws.
Context `{J : Jose}.

Record VerifiedRequest := mkVerified {
  vr_Payload : string;
  vr_Algorithm : string;
  vr_URL : string;
  vr_Nonce : string;
  vr_Account : option ACMEAccount;
  vr_JWK : option JWK
}.

(** [AccountLookup], [NonceConsumer] and the builder of key URLs. *)
Record VerifierConfig (D : Type) := mkVerifierConfig {
  vc_LookupAccount : string → M D (res ACMEAccount);
  vc_ConsumeNonce : string → M D (res unit);
  vc_AccountKID : option (string → string)
}.
Arguments mkVerifierConfig {D}.
Arguments vc_LookupAccount {D}.
Arguments vc_ConsumeNonce {D}.
Arguments vc_AccountKID {D}.

Definition accountIDFromKID (kid : string) (AccountKID : option (string → string)) : res string :=
  match after_last "/account/" kid with
  | None => Err (ErrWrapPre ErrJWSMalformed "kid does not match expected /account/<id> shape")
  | Some accountID =>
      if bool_decide (accountID = "") then Err (ErrWrapPre ErrJWSMalformed "kid has empty account id") else
      match AccountKID with
      | Some f => if bool_decide (f accountID = kid) then Ok accountID
                  else Err (ErrWrapPre ErrJWSMalformed "kid does not match canonical URL")
      | None => Ok accountID
      end
  end.

Definition check_typ (sig : ProtectedHeader JWK) : res unit :=
  match header (ph_ExtraHeaders sig) "typ" with
  | None | Some HNull => Ok tt
  | Some (HStr t) => if bool_decide (t ∈ ["application/jose+json"; ""]) then Ok tt
                     else Err (ErrWrapPre ErrJWSWrongType t)
  | Some HOther => Err (ErrWrapPre ErrJWSWrongType "not a string")
  end.

(** The [url] header, which must name the request. *)
Definition check_url (sig : ProtectedHeader JWK) (requestURL : string) : res string :=
  match extractStringHeader (ph_ExtraHeaders sig) "url" with
  | Err _ => Err ErrJWSMissingURL
  | Ok url =>
      if bool_decide (url = "") then Err ErrJWSMissingURL else
      if bool_decide (url = requestURL) then Ok url else Err (ErrWrapPre ErrJWSURLMismatch url)
  end.

(** Everything before the nonce is consumed: the message, its header and its URL. *)
Definition parse_request (body requestURL : string)
    : res (JSONWebSignature JWK * ProtectedHeader JWK * string) :=
  match ParseSigned body AllowedSignatureAlgorithms with
  | Err e => Err (ErrWrapPre ErrJWSMalformed (Error e))
  | Ok jws =>
      match jws_Signatures jws with
      | [sig] =>
          if negb (algorithmAllowed (ph_Algorithm sig))
          then Err (ErrWrapPre ErrJWSAlgorithmRejected (ph_Algorithm sig)) else
          match check_typ sig with
          | Err e => Err e
          | Ok _ =>
              match check_url sig requestURL with
              | Err e => Err e
              | Ok url => if bool_decide (ph_Nonce sig = "") then Err ErrJWSMissingNonce
                          else Ok (jws, sig, url)
              end
          end
      | _ => Err (ErrWrapPre ErrJWSMalformed "multi-signature JWS rejected")
      end
  end.

(** Exactly one of kid and jwk, the one the endpoint expects. *)
Definition check_key_choice (sig : ProtectedHeader JWK) (ExpectNewAccount : bool) : res unit :=
  let hasKid := negb (bool_decide (ph_KeyID sig = "")) in
  let hasJWK := bool_decide (is_Some (ph_JSONWebKey sig)) in
  if hasKid && hasJWK then Err ErrJWSBothKidAndJWK else
  if negb hasKid && negb hasJWK then Err ErrJWSNeitherKidNorJWK else
  if ExpectNewAccount && hasKid then Err ErrJWSExpectJWKGotKid else
  if negb ExpectNewAccount && hasJWK then Err ErrJWSExpectKidGotJWK else Ok tt.

(** The key to verify with, and the account on the kid path. *)
Definition resolve_key {D} (cfg : VerifierConfig D) (sig : ProtectedHeader JWK)
    : M D (res (JWK * option ACMEAccount)) :=
  match ph_JSONWebKey sig with
  | Some jwk => mret (if jwk_Valid jwk then Ok (jwk, None) else Err ErrJWSInvalidJWK)
  | None =>
      match accountIDFromKID (ph_KeyID sig) (vc_AccountKID cfg) with
      | Err e => mret (Err e)
      | Ok accountID =>
          r ← vc_LookupAccount cfg accountID;
          mret match r with
               | Err e => Err e
               | Ok acct =>
                   if negb (bool_decide (acc_Status acct = ACMEAccountStatusValid))
                   then Err (ErrWrapPre ErrJWSAccountInactive ("status=" +:+ acc_Status acct)) else
                   match ParseJWKFromPEM (acc_JWKPEM acct) with
                   | Err e => Err (ErrWrapPre ErrJWSInvalidJWK (Error e))
                   | Ok key => Ok (key, Some acct)
                   end
               end
      end
  end.

Definition verify_signature (jws : JSONWebSignature JWK) (key : JWK) : res string :=
  match jws_Verify jws key with
  | Err e => Err (ErrWrapPre ErrJWSSignatureInvalid (Error e))
  | Ok verified => if bool_decide (verified = jws_UnsafePayload jws) then Ok verified
                   else Err ErrJWSPayloadMismatch
  end.

(** The nonce is consumed before the key is looked up and the signature checked. *)
Definition VerifyJWS {D} (cfg : VerifierConfig D) (body requestURL : string) (ExpectNewAccount : bool)
    : M D (res VerifiedRequest) :=
  match parse_request body requestURL with
  | Err e => mret (Err e)
  | Ok (jws, sig, url) =>
      c ← vc_ConsumeNonce cfg (ph_Nonce sig);
      match c with
      | Err e => mret (Err (ErrWrapPre ErrJWSBadNonce (Error e)))
      | Ok _ =>
          match check_key_choice sig ExpectNewAccount with
          | Err e => mret (Err e)
          | Ok _ =>
              k ← resolve_key cfg sig;
              mret match k with
                   | Err e => Err e
                   | Ok (key, account) =>
                       match verify_signature jws key with
                       | Err e => Err e
                       | Ok payload => Ok (mkVerified payload (ph_Algorithm sig) url (ph_Nonce sig)
                                             account (ph_JSONWebKey sig))
                       end
                   end
          end
      end
  end.

Definition unauthorized (detail : string) : Problem :=
  problem "urn:ietf:params:acme:error:unauthorized" detail 401.

Definition MapJWSErrorToProblem (err : error) : Problem :=
  let Is := errors_Is err in
  if Is ErrJWSBadNonce then BadNonce "nonce missing, replayed, or expired" else
  if Is ErrJWSMissingNonce then BadNonce "protected header `nonce` is required" else
  if Is ErrJWSURLMismatch || Is ErrJWSMissingURL
  then unauthorized "protected header `url` mismatch or missing" else
  if Is ErrJWSAccountNotFound then AccountDoesNotExist "kid points at unknown account" else
  if Is ErrJWSAccountInactive then unauthorized "account status is not `valid`" else
  if Is ErrJWSSignatureInvalid then unauthorized "signature did not verify" else
  if Is ErrJWSAlgorithmRejected
  then Malformed "signature algorithm not allowed (RFC 8555 §6.2: RS256, ES256, EdDSA only)" else
  if Is ErrJWSExpectJWKGotKid
  then Malformed "this endpoint requires `jwk` (new-account flow); got `kid`" else
  if Is ErrJWSExpectKidGotJWK
  then Malformed "this endpoint requires `kid` (registered account); got `jwk`" else
  if Is ErrJWSBothKidAndJWK || Is ErrJWSNeitherKidNorJWK
  then Malformed "protected header MUST contain exactly one of `kid` or `jwk`" else
  if Is ErrJWSInvalidJWK then Malformed "invalid or unsupported JWK" else
  if Is ErrJWSWrongType then Malformed "protected header `typ` must be `application/jose+json`" else
  if Is ErrJWSPayloadMismatch then ServerInternal "JWS payload integrity check failed" else
  if Is ErrJWSMalformed then Malformed "malformed JWS" else Malformed "malformed request".
End jws.
#[global] Arguments VerifiedRequest : clear implicits.
#[global] Arguments VerifiedRequest {J}.
#[global] Arguments mkVerifierConfig {D}.
#[global] Arguments vc_LookupAccount {D}.
#[global] Arguments vc_ConsumeNonce {D}.
#[global] Arguments vc_AccountKID {D}.
End Jws.
Import Jws.

Module KeyChange.
Definition ErrKeyChangeInnerMalformed := ErrSentinel "acme keychange: inner JWS malformed".
Definition ErrKeyChangeInnerAlgRejected := ErrSentinel
  "acme keychange: inner JWS uses disallowed signature algorithm".
Definition ErrKeyChangeInnerMissingJWK := ErrSentinel
  "acme keychange: inner JWS protected header MUST contain `jwk`".
Definition ErrKeyChangeInnerForbidsKID := ErrSentinel
  "acme keychange: inner JWS MUST NOT contain `kid` (use `jwk`)".
Definition ErrKeyChangeInnerInvalidJWK := ErrSentinel
  "acme keychange: inner JWS embedded JWK is invalid".
Definition ErrKeyChangeInnerURLMissing := ErrSentinel
  "acme keychange: inner JWS protected header `url` is required".
Definition ErrKeyChangeInnerURLMismatch := ErrSentinel
  "acme keychange: inner JWS `url` does not match outer JWS `url`".
Definition ErrKeyChangeInnerSignatureBad := ErrSentinel
  "acme keychange: inner JWS signature did not verify against embedded JWK".
Definition ErrKeyChangeInnerPayloadParse := ErrSentinel
  "acme keychange: inner JWS payload is not parseable JSON".
Definition ErrKeyChangeInnerAccountMismatch := ErrSentinel
  "acme keychange: inner JWS payload `account` does not match outer JWS `kid`".
Definition ErrKeyChangeInnerOldKeyMissing := ErrSentinel
  "acme keychange: inner JWS payload missing `oldKey`".
Definition ErrKeyChangeInnerOldKeyMismatch := ErrSentinel
  "acme keychange: inner JWS payload `oldKey` does not match registered account key".

Section keychange.
Context `{J : Jose}.

Record KeyChangeInner := mkKeyChangeInner {
  kc_NewJWK : JWK;
  kc_Account : string;
  kc_OldKey : JWK;
  kc_URL : string;
  kc_Algorithm : string
}.

(** The key that signed the inner message, and its URL. *)
Definition check_inner_header (sig : ProtectedHeader JWK) (outerURL : string) : res (JWK * string) :=
  if negb (algorithmAllowed (ph_Algorithm sig))
  then Err (ErrWrapPre ErrKeyChangeInnerAlgRejected (ph_Algorithm sig)) else
  if negb (bool_decide (ph_KeyID sig = "")) then Err ErrKeyChangeInnerForbidsKID else
  match ph_JSONWebKey sig with
  | None => Err ErrKeyChangeInnerMissingJWK
  | Some jwk =>
      if negb (jwk_Valid jwk) then Err ErrKeyChangeInnerInvalidJWK else
      match extractStringHeader (ph_ExtraHeaders sig) "url" with
      | Err _ => Err ErrKeyChangeInnerURLMissing
      | Ok url =>
          if bool_decide (url = "") then Err ErrKeyChangeInnerURLMissing else
          if bool_decide (url = outerURL) then Ok (jwk, url)
          else Err (ErrWrapPre ErrKeyChangeInnerURLMismatch url)
      end
  end.

(** The payload names the account and the key on file. *)
Definition check_inner_payload (payload outerKID : string) (registeredOldJWK : option JWK)
    : res (string * JWK) :=
  match unmarshal_KeyChange payload with
  | Err e => Err (ErrWrapPre ErrKeyChangeInnerPayloadParse (Error e))
  | Ok (account, oldKey) =>
      if negb (bool_decide (account = outerKID))
      then Err (ErrWrapPre ErrKeyChangeInnerAccountMismatch account) else
      match oldKey with
      | None => Err ErrKeyChangeInnerOldKeyMissing
      | Some old =>
          if negb (jwk_Valid old)
          then Err (ErrWrapPre ErrKeyChangeInnerOldKeyMismatch "oldKey did not validate") else
          match jwksThumbprintEqual (Some old) registeredOldJWK with
          | Err e => Err (ErrWrapPre ErrKeyChangeInnerOldKeyMismatch ("thumbprint compare: " +:+ Error e))
          | Ok false => Err ErrKeyChangeInnerOldKeyMismatch
          | Ok true => Ok (account, old)
          end
      end
  end.

Definition ParseAndVerifyKeyChangeInner (innerBytes outerKID outerURL : string)
    (registeredOldJWK : option JWK) : res KeyChangeInner :=
  match ParseSigned innerBytes AllowedSignatureAlgorithms with
  | Err e => Err (ErrWrapPre ErrKeyChangeInnerMalformed (Error e))
  | Ok jws =>
      match jws_Signatures jws with
      | [sig] =>
          match check_inner_header sig outerURL with
          | Err e => Err e
          | Ok (jwk, url) =>
              match jws_Verify jws jwk with
              | Err e => Err (ErrWrapPre ErrKeyChangeInnerSignatureBad (Error e))
              | Ok payload =>
                  match check_inner_payload payload outerKID registeredOldJWK with
                  | Err e => Err e
                  | Ok (account, old) => Ok (mkKeyChangeInner jwk account old url (ph_Algorithm sig))
                  end
              end
          end
      | _ => Err (ErrWrapPre ErrKeyChangeInnerMalformed "multi-signature inner JWS")
      end
  end.

(** The leaf of a chain of wrapped errors. *)
Fixpoint plainCause (e : error) : string :=
  match e with
  | ErrWrap _ e' | ErrWrapPre e' _ => plainCause e'
  | _ => Error e
  end.

Definition MapKeyChangeErrorToProblem (err : error) : Problem :=
  let Is := errors_Is err in
  if Is ErrKeyChangeInnerSignatureBad || Is ErrKeyChangeInnerOldKeyMismatch
  then unauthorized ("key rollover proof failed: " +:+ plainCause err) else
  if Is ErrKeyChangeInnerURLMismatch || Is ErrKeyChangeInnerURLMissing
  then unauthorized ("key rollover inner URL: " +:+ plainCause err) else
  if Is ErrKeyChangeInnerAlgRejected
  then Malformed "key rollover inner JWS uses disallowed algorithm" else
  if Is ErrKeyChangeInnerForbidsKID
  then Malformed "key rollover inner JWS MUST use `jwk`, not `kid`" else
  if Is ErrKeyChangeInnerMissingJWK || Is ErrKeyChangeInnerInvalidJWK
  then Malformed "key rollover inner JWS missing or invalid `jwk`" else
  if Is ErrKeyChangeInnerAccountMismatch
  then Malformed "key rollover inner `account` does not match outer kid" else
  if Is ErrKeyChangeInnerOldKeyMissing
  then Malformed "key rollover inner missing `oldKey`" else
  if Is ErrKeyChangeInnerPayloadParse
  then Malformed "key rollover inner payload is not valid JSON" else
  if Is ErrKeyChangeInnerMalformed then Malformed "key rollover inner JWS malformed"
  else Malformed "key rollover request rejected".
End keychange.
End KeyChange.
