(* ===== verification/AcmeWireFacts.v ===== *)
(** * What the ACME protocol layer guarantees

    The text an account key is stored as reads back as that key; certificate ids of renewal
    information round-trip; a CSR is accepted exactly when it names what the order names; the
    suggested renewal window is ordered, never in the past and never after the expiry. *)

From Stdlib Require Import ZArith Lia Ascii String.
From stdpp Require Import prelude gmap strings list sorting pretty.
From S2P Require Import Prelude Store GoBytes KeyCrypto AcmeWire.
Import Text Problems Orders Keys Ari.

(** ** Byte strings *)
Lemma bytes_of_app s t : bytes_of (s +:+ t) = bytes_of s ++ bytes_of t.
Proof. induction s as [|c s IH]; [done|]. rewrite string_cons_app. unfold bytes_of in *. cbn. by rewrite IH. Qed.

Lemma of_bytes_app l k : of_bytes (l ++ k) = of_bytes l +:+ of_bytes k.
Proof.
  induction l as [|z l IH]; [done|]. unfold of_bytes in *. cbn. rewrite IH. by rewrite string_cons_app.
Qed.

Lemma string_app_nil_r s : s +:+ "" = s.
Proof. induction s as [|c s IH]; [done|]. by rewrite string_cons_app, IH. Qed.

Lemma drop_app p s : drop_bytes (len p) (p +:+ s) = s.
Proof. induction p as [|c p IH]; [done|]. exact IH. Qed.

Lemma take_app p s : take_bytes (len p) (p +:+ s) = p.
Proof.
  induction p as [|c p IH]; [by destruct s|]. change (len (String c p)) with (S (len p)).
  rewrite string_cons_app. cbn [take_bytes]. by rewrite IH.
Qed.

Lemma take_drop n s : take_bytes n s +:+ drop_bytes n s = s.
Proof.
  revert s. induction n as [|n IH]; intros [|c s]; cbn; try done. by rewrite string_cons_app, IH.
Qed.

Lemma TrimPrefix_app p s : TrimPrefix (p +:+ s) p = s.
Proof. unfold TrimPrefix. by rewrite HasPrefix_app, drop_app. Qed.

(** The first occurrence of a text whose first character does not occur before it. *)
Lemma before_first_app c sub x y :
  all_chars (not_char c) x = true → before_first (String c sub) (x +:+ String c sub +:+ y) = Some x.
Proof.
  intros Hx. induction x as [|d x IH].
  - change ("" +:+ ?z) with z. rewrite string_cons_app. cbn [before_first].
    rewrite <-string_cons_app. by rewrite HasPrefix_app.
  - cbn [all_chars] in Hx. apply andb_true_iff in Hx as [Hd Hx]. rewrite string_cons_app.
    cbn [before_first]. unfold HasPrefix. cbn [String.prefix].
    unfold not_char in Hd. apply negb_true_iff in Hd. rewrite Ascii.eqb_neq in Hd.
    destruct (ascii_dec c d) as [->|]; [done|]. by rewrite IH.
Qed.

Lemma remove_char_none c s : all_chars (not_char c) s = true → remove_char c s = s.
Proof.
  induction s as [|d s IH]; [done|]. cbn. intros [Hd Hs]%andb_true_iff. unfold not_char in Hd.
  apply negb_true_iff in Hd. rewrite Hd, IH; done.
Qed.

Lemma remove_char_app c s t : remove_char c (s +:+ t) = remove_char c s +:+ remove_char c t.
Proof.
  induction s as [|d s IH]; [done|]. rewrite string_cons_app. cbn [remove_char]. rewrite IH.
  destruct (Ascii.eqb d c); [done|]. by rewrite string_cons_app.
Qed.

(** ** White space *)

(** Printable ASCII, which no encoding of a space begins or ends with. *)
Definition plain (z : Z) : Prop := 33 ≤ z < 128.

Lemma trim_left_plain f z l : plain z → trim_left f (z :: l) = z :: l.
Proof.
  intros [H1 H2]. destruct f; [done|]. cbn [trim_left]. unfold space_encodings.
  cbn [fmap list_fmap flip strip_prefix].
  repeat (rewrite (proj2 (Z.eqb_neq _ z)) by lia). done.
Qed.

Lemma trim_rev_plain f z l : plain z → trim_rev f (z :: l) = z :: l.
Proof.
  intros [H1 H2]. destruct f; [done|]. cbn [trim_rev]. unfold space_encodings.
  cbn [fmap list_fmap compose]. unfold flip, compose. rewrite ?reverse_cons. cbn [reverse rev_append app strip_prefix].
  repeat (rewrite (proj2 (Z.eqb_neq _ z)) by lia). done.
Qed.

Lemma trim_left_nl f l :
  Forall (λ z, z = 10 ∨ plain z) l → ∃ k, l = k ++ trim_left f l ∧ Forall (eq 10) k.
Proof.
  revert l. induction f as [|f IH]; intros l Hl; [by exists []|]. destruct Hl as [|z l Hz Hl].
  - by exists [].
  - destruct Hz as [->|Hz]; [|exists []; by rewrite (trim_left_plain (S f))].
    destruct (IH l Hl) as (k & Hk & Hn). exists (10 :: k). split; [|by constructor].
    change (trim_left (S f) (10 :: l)) with (trim_left f l). by rewrite Hk at 1.
Qed.

Lemma trim_rev_nl f l :
  Forall (λ z, z = 10 ∨ plain z) l → ∃ k, l = k ++ trim_rev f l ∧ Forall (eq 10) k.
Proof.
  revert l. induction f as [|f IH]; intros l Hl; [by exists []|]. destruct Hl as [|z l Hz Hl].
  - by exists [].
  - destruct Hz as [->|Hz]; [|exists []; by rewrite (trim_rev_plain (S f))].
    destruct (IH l Hl) as (k & Hk & Hn). exists (10 :: k). split; [|by constructor].
    change (trim_rev (S f) (10 :: l)) with (trim_rev f l). by rewrite Hk at 1.
Qed.

Lemma remove_newlines k : Forall (eq 10) k → remove_char (ascii_of_nat 10) (of_bytes k) = "".
Proof. induction 1 as [|z k <- _ IH]; [done|]. exact IH. Qed.

(** Trimming printable text with line breaks only removes line breaks. *)
Lemma TrimSpace_nl x :
  Forall (λ z, z = 10 ∨ plain z) (bytes_of x) →
  remove_char (ascii_of_nat 10) (TrimSpace x) = remove_char (ascii_of_nat 10) x.
Proof.
  intros Hx. unfold TrimSpace. destruct (trim_left_nl (len x) (bytes_of x) Hx) as (k & Hk & Hn).
  revert Hk. generalize (trim_left (len x) (bytes_of x)) as l. intros l Hk.
  destruct (trim_rev_nl (length l) (reverse l)) as (k' & Hk' & Hn').
  { apply Forall_reverse. rewrite Hk in Hx. by apply Forall_app in Hx as [_ ?]. }
  revert Hk'. generalize (trim_rev (length l) (reverse l)) as m. intros m Hk'.
  apply (f_equal reverse) in Hk'. rewrite reverse_involutive, reverse_app in Hk'.
  assert (x = of_bytes k +:+ of_bytes (reverse m) +:+ of_bytes (reverse k')) as ->.
  { by rewrite <-!of_bytes_app, <-Hk', <-Hk, of_bytes_of. }
  rewrite !remove_char_app, (remove_newlines k), (remove_newlines (reverse k')) by first [done | by apply Forall_reverse].
  change ("" +:+ ?z) with z. by rewrite string_app_nil_r.
Qed.

(** ** The stored form of a key *)
Lemma std_EncodeToString_plain s : Forall (λ z, plain z ∧ z ≠ 45) (bytes_of (std_EncodeToString s)).
Proof.
  unfold std_EncodeToString, encode64, bytes_of. rewrite list_ascii_of_string_of_list_ascii.
  pose proof (b64_sextets_range _ (bytes_of_range s)) as H. apply Forall_fmap, Forall_fmap.
  eapply Forall_impl; [exact H|]. intros z Hz. cbn in *.
  assert (Forall (λ z, plain (byte_val (enc64 std_alphabet z)) ∧ byte_val (enc64 std_alphabet z) ≠ 45)
            (seqZ 0 64)) as Ha.
  { apply (bool_decide_unpack _). vm_compute. exact I. }
  rewrite Forall_forall in Ha. apply (Ha z), elem_of_seqZ. lia.
Qed.

(** The raw encoding never leaves one character over. *)
Lemma std_EncodeToString_len s : (len (std_EncodeToString s) mod 4)%nat ≠ 1%nat.
Proof.
  unfold std_EncodeToString, encode64. rewrite len_string_of_list, length_fmap.
  generalize (bytes_of s) as l. intros l.
  induction l as [|a|a b|a b c l IH] using list_ind3; cbn [b64_sextets length]; try done.
  replace (S (S (S (S (length (b64_sextets l)))))) with (length (b64_sextets l) + 1 * 4)%nat by lia.
  by rewrite Nat.Div0.mod_add.
Qed.

Lemma drop_no_eq k s t : all_chars (not_char "=") s = true → drop_bytes k s ≠ String "=" t.
Proof.
  intros Hs Ht. rewrite <-(take_drop k s), all_chars_app, Ht in Hs. by apply andb_true_iff in Hs as [_ ?].
Qed.

Lemma drop_app_le k s t : (k ≤ len s)%nat → drop_bytes k (s +:+ t) = drop_bytes k s +:+ t.
Proof.
  revert s. induction k as [|k IH]; intros s Hk; [done|]. destruct s as [|c s]; [cbn in Hk; lia|].
  rewrite string_cons_app. cbn [drop_bytes]. apply IH. change (len (String c s)) with (S (len s)) in Hk. lia.
Qed.

Lemma keep_chars_all p s : all_chars p s = true → keep_chars p s = s.
Proof.
  induction s as [|c s IH]; [done|]. cbn. intros [-> Hs]%andb_true_iff. by rewrite IH.
Qed.

Lemma std_pad_strip enc :
  all_chars (not_char "=") enc = true → all_chars not_newline enc = true → (len enc mod 4)%nat ≠ 1%nat →
  std_pad_DecodeString (enc +:+ padding (len enc)) = std_DecodeString enc.
Proof.
  intros He Hn H1. unfold std_pad_DecodeString.
  pose proof (Nat.mod_upper_bound (len enc) 4) as Hb. pose proof (Nat.div_mod_eq (len enc) 4) as Hd.
  assert ((len enc mod 4 = 0 ∨ len enc mod 4 = 2 ∨ len enc mod 4 = 3)%nat) as [Hm|[Hm|Hm]] by lia;
    unfold padding; rewrite Hm in Hd |- *.
  - rewrite string_app_nil_r, (keep_chars_all _ _ Hn), Hm. cbn [Nat.eqb negb].
    rewrite !bool_decide_false; [done|by apply drop_no_eq..].
  - rewrite keep_chars_all by (rewrite all_chars_app, Hn; done). rewrite len_app.
    change (len "==") with 2%nat. replace (len enc + 2)%nat with (0 + (len enc / 4 + 1) * 4)%nat at 1 by lia.
    rewrite Nat.Div0.mod_add, Nat.add_sub, drop_app, take_app. cbn [Nat.eqb negb Nat.modulo].
    rewrite bool_decide_true by done. rewrite (proj2 (Nat.leb_le 2 _)) by lia. done.
  - rewrite keep_chars_all by (rewrite all_chars_app, Hn; done). rewrite len_app.
    change (len "=") with 1%nat. replace (len enc + 1)%nat with (0 + (len enc / 4 + 1) * 4)%nat at 1 by lia.
    rewrite Nat.Div0.mod_add, Nat.add_sub, drop_app, take_app. cbn [Nat.eqb negb Nat.modulo].
    rewrite drop_app_le by lia.
    rewrite bool_decide_false.
    + cbn [andb]. rewrite bool_decide_true by done. by rewrite (proj2 (Nat.leb_le 1 _)) by lia.
    + destruct (drop_bytes _ enc) as [|c t] eqn:Ed; [done|]. rewrite string_cons_app.
      intros [= -> _]. by eapply drop_no_eq.
Qed.

Lemma std_pad_roundtrip s : std_pad_DecodeString (std_pad_EncodeToString s) = Some s.
Proof.
  unfold std_pad_EncodeToString. rewrite std_pad_strip; [apply decode64_encode64, _|..|apply std_EncodeToString_len].
  all: eapply all_chars_impl; [|exact (encode64_chars std_alphabet s)]; intros c.
  - unfold not_char. destruct (Ascii.eqb_spec c "=") as [->|]; [by intros [=]|done].
  - unfold char64, not_newline. by intros [_ ?]%andb_true_iff.
Qed.

(** The characters of a wrapped body. *)
Lemma std_pad_plain s : Forall (λ z, plain z ∧ z ≠ 45) (bytes_of (std_pad_EncodeToString s)).
Proof.
  unfold std_pad_EncodeToString. rewrite bytes_of_app. apply Forall_app_2; [apply std_EncodeToString_plain|].
  unfold padding. repeat case_match; apply (bool_decide_unpack _); vm_compute; exact I.
Qed.

Lemma not_char_bytes (b : nat) s :
  (b < 256)%nat → Forall (λ z, z ≠ Z.of_nat b) (bytes_of s) → all_chars (not_char (ascii_of_nat b)) s = true.
Proof.
  intros Hb. induction s as [|c s IH]; [done|]. cbn. intros [Hc Hs]%Forall_cons. rewrite IH by done.
  unfold not_char. destruct (Ascii.eqb_spec c (ascii_of_nat b)) as [->|]; [|done]. destruct Hc.
  unfold byte_val. unfold ascii_of_nat.
  rewrite N_ascii_embedding by lia. lia.
Qed.

Lemma len_drop n s : len (drop_bytes n s) = (len s - n)%nat.
Proof.
  revert s. induction n as [|n IH]; intros s; [symmetry; apply Nat.sub_0_r|]. destruct s as [|c s]; [done|]. exact (IH s).
Qed.

Lemma wrap_lines_bytes (P : Z → Prop) f e :
  P 10 → Forall P (bytes_of e) → Forall P (bytes_of (wrap_lines f e)).
Proof.
  intros H10. revert e. induction f as [|f IH]; intros e He; [constructor|]. destruct e as [|c e]; [constructor|].
  cbn [wrap_lines]. rewrite <-(take_drop 64 (String c e)), bytes_of_app in He.
  apply Forall_app in He as [H1 H2]. rewrite !bytes_of_app. apply Forall_app_2; [exact H1|].
  apply Forall_app_2; [by repeat constructor|]. by apply IH.
Qed.

Lemma wrap_lines_unwrap f e :
  (len e ≤ f)%nat → Forall plain (bytes_of e) → remove_char (ascii_of_nat 10) (wrap_lines f e) = e.
Proof.
  revert e. induction f as [|f IH]; intros e Hf He; [by destruct e; [|cbn in Hf; lia]|].
  destruct e as [|c e]; [done|]. cbn [wrap_lines].
  pose proof (len_drop 64 (String c e)) as Hl. change (len (String c e)) with (S (len e)) in *.
  assert (Forall plain (bytes_of (take_bytes 64 (String c e))) ∧
          Forall plain (bytes_of (drop_bytes 64 (String c e)))) as [H1 H2].
  { apply Forall_app. by rewrite <-bytes_of_app, take_drop. }
  rewrite !remove_char_app, (remove_char_none _ (take_bytes _ _)), IH; [|lia|done|].
  - change (remove_char (ascii_of_nat 10) nl) with "". change ("" +:+ ?z) with z. apply take_drop.
  - apply not_char_bytes; [lia|]. eapply Forall_impl; [exact H1|]. unfold plain. cbn. lia.
Qed.

(** Text between dashes, and its final newline. *)
Lemma TrimSpace_dashes x : TrimSpace ("-" +:+ x +:+ "-" +:+ nl) = "-" +:+ x +:+ "-".
Proof.
  unfold TrimSpace. rewrite !bytes_of_app. change (bytes_of "-") with [45]. change (bytes_of nl) with [10].
  cbn [app]. rewrite trim_left_plain by done. rewrite app_comm_cons, reverse_app.
  change (reverse [45; 10]) with [10; 45]. cbn [app]. rewrite app_comm_cons, length_app, Nat.add_comm.
  change (length [45; 10]) with 2%nat. cbn [Nat.add].
  change (trim_rev (S ?f) (10 :: 45 :: ?l)) with (trim_rev f (45 :: l)). rewrite trim_rev_plain by done.
  rewrite reverse_cons, reverse_involutive, !of_bytes_app. cbn [app].
  change (45 :: bytes_of x) with (bytes_of "-" ++ bytes_of x).
  by rewrite of_bytes_app, !of_bytes_of, string_app_assoc.
Qed.

(** Reading undoes writing. *)
Lemma key_text_roundtrip `{J : Jose} `{!JoseOk J} (k : JWK) pem :
  JWKToPEM k = Ok pem → jwk_Valid k = true → ParseJWKFromPEM pem = Ok k.
Proof.
  unfold JWKToPEM. destruct (jwk_MarshalJSON k) as [raw|e] eqn:Em; [|done]. intros [= <-] Hv.
  set (enc := std_pad_EncodeToString raw). set (W := wrap_lines (len enc) enc).
  pose proof (std_pad_plain raw) as Hp. fold enc in Hp.
  assert (Forall plain (bytes_of enc)) as Hplain by (eapply Forall_impl; [exact Hp|]; by intros z [? _]).
  assert (Forall (λ z, z = 10 ∨ plain z ∧ z ≠ 45) (bytes_of (nl +:+ W))) as HW.
  { rewrite bytes_of_app. constructor; [by left|]. apply wrap_lines_bytes; [by left|].
    eapply Forall_impl; [exact Hp|]. auto. }
  unfold ParseJWKFromPEM.
  assert (TrimSpace (pem_header +:+ nl +:+ W +:+ pem_footer +:+ nl) =
          pem_header +:+ (nl +:+ W) +:+ pem_footer +:+ "") as ->.
  { pose proof (TrimSpace_dashes ("----BEGIN ACME ACCOUNT JWK-----" +:+ nl +:+ W +:+
                                  "-----END ACME ACCOUNT JWK----")) as H.
    rewrite !string_app_assoc in H. rewrite string_app_assoc, string_app_nil_r. exact H. }
  rewrite HasPrefix_app, TrimPrefix_app. cbn [negb].
  change pem_footer with (String "-" "----END ACME ACCOUNT JWK-----").
  rewrite (before_first_app "-" _ (nl +:+ W) "").
  2: { apply (not_char_bytes 45); [lia|]. eapply Forall_impl; [exact HW|]. cbn. intros z. unfold plain. lia. }
  rewrite TrimSpace_nl, remove_char_app.
  2: { eapply Forall_impl; [exact HW|]. cbn. tauto. }
  change (remove_char (ascii_of_nat 10) nl) with "". change ("" +:+ ?z) with z.
  unfold W. rewrite (wrap_lines_unwrap _ enc) by done. rewrite remove_char_none.
  2: { apply not_char_bytes; [lia|]. eapply Forall_impl; [exact Hplain|]. unfold plain. cbn. lia. }
  unfold enc. rewrite std_pad_roundtrip, (jwk_json_roundtrip _ _ Em). by rewrite Hv.
Qed.

(** The text an account key is stored as reads back as that key: [ParseJWKFromPEM] undoes
    [JWKToPEM] for every key whose JSON form the library accepts. *)
Theorem account_key_roundtrip `{J : Jose} `{!JoseOk J} (k : JWK) pem :
  JWKToPEM k = Ok pem → jwk_Valid k = true → ParseJWKFromPEM pem = Ok k.
Proof. apply key_text_roundtrip. Qed.

(** ** Certificate ids of renewal information *)
Lemma b64_EncodeToString_empty s : b64_EncodeToString s = "" → s = "".
Proof. exact (b64_EncodeToString_inj s ""). Qed.

Lemma b64_no_dot s : all_chars (not_char ".") (b64_EncodeToString s) = true.
Proof. eapply all_chars_impl; [apply b64_char_not_dot|apply b64_EncodeToString_chars]. Qed.

(** A certificate id the server builds for a certificate parses back to that
    certificate's authority key identifier and serial number, byte for byte. *)
Theorem ari_cert_id_roundtrip aki serial id :
  BuildARICertID aki (Some serial) = Ok id → serial ≠ "" →
  ParseARICertID id = Ok (mkARICertID aki serial).
Proof.
  unfold BuildARICertID. case_bool_decide as Ha; [done|]. intros [= <-] Hs. unfold ParseARICertID.
  change ("." +:+ ?t) with (String "." t).
  rewrite (Split_app "." _ _ (b64_no_dot aki)), (Split_last "." _ (b64_no_dot serial)).
  rewrite !(bool_decide_false (b64_EncodeToString _ = "")) by by intros ?%b64_EncodeToString_empty.
  cbn [orb]. rewrite !b64_roundtrip. by rewrite !bool_decide_false.
Qed.

(** ** Certificate requests *)

(** A finalize request is accepted exactly when its CSR names, in the common name and the
    DNS names together and up to letter case, the DNS identifiers of the order: none missing,
    none added. *)
Theorem csr_matches_exactly `{RT : GoRuntime} `{!GoRuntimeOk RT} csr ids :
  CSRMatchesIdentifiers csr ids = None ↔ csrSet csr = orderSet ids.
Proof.
  unfold CSRMatchesIdentifiers. split.
  - destruct (Nat.eqb_spec (size (csrSet csr)) (size (orderSet ids))) as [Hs|]; [|done]. cbn [negb].
    destruct (filter _ _) as [|k l] eqn:Ef; [|done]. intros _. symmetry.
    apply leibniz_equiv, set_subseteq_size_equiv; [|lia].
    intros k Hk. destruct (decide (k ∈ csrSet csr)) as [|Hn]; [done|].
    assert (k ∈ filter (λ k, k ∉ csrSet csr) (range_set (orderSet ids))) as H.
    { apply list_elem_of_filter. split; [done|]. rewrite range_set_perm. by apply elem_of_elements. }
    rewrite Ef in H. by apply not_elem_of_nil in H.
  - intros ->. rewrite Nat.eqb_refl. cbn [negb].
    rewrite filter_none; [done|]. rewrite range_set_perm. apply Forall_forall. intros k Hk.
    apply elem_of_elements in Hk. tauto.
Qed.

(** ** The renewal window *)
Lemma not_before_now_bounds now st en na :
  now ≠ zero_time → st ≤ na → en ≤ na → now ≤ na →
  let '(st', en') := not_before_now now (st, en) in now ≤ st' ≤ en' ∧ en' ≤ na.
Proof.
  intros Hz Hs He Hn. unfold not_before_now. rewrite (proj2 (Z.eqb_neq _ _) Hz). cbn [negb andb].
  destruct (Z.ltb_spec st now); case_match; lia.
Qed.

(** The renewal window the server suggests is well-formed: it does not start in the past or
    after its end, and while the certificate is valid it ends no later than the certificate
    does; once the certificate has expired the window is the next day.  Renewal policies of up
    to 106751 days (what a 64-bit duration can hold) are honoured. *)
Theorem ari_window_bounds na nb days now :
  now ≠ zero_time → nb ≠ zero_time → nb < na → (∀ n, days = Some n → n ≤ 106751) →
  let '(st, en) := ComputeRenewalWindow (Some na) (Some nb) days now in
  now ≤ st ≤ en ∧ (now ≤ na → en ≤ na) ∧ (na < now → st = now ∧ en = now + 24 * hour).
Proof.
  intros Hz Hb Hv Hd. unfold ComputeRenewalWindow.
  rewrite (proj2 (Z.eqb_neq nb _) Hb), (proj2 (Z.eqb_neq now _) Hz). cbn [negb andb].
  destruct (Z.ltb_spec na now) as [He|He]; [unfold hour; lia|].
  assert (let '(st, en) := default_window nb na now in now ≤ st ≤ en ∧ en ≤ na) as Hdef.
  { unfold default_window, Sub. rewrite (proj2 (Z.leb_gt _ _)) by lia.
    set (v := Z.max _ _). assert (0 < v < 2 ^ 63) as Hvv by lia.
    rewrite wrap64_small by (Z.to_euclidean_division_equations; lia).
    apply not_before_now_bounds; [done|Z.to_euclidean_division_equations; lia..|done]. }
  assert (∀ p : Z * Z, (let '(st, en) := p in now ≤ st ≤ en ∧ en ≤ na) →
    let '(st, en) := p in now ≤ st ≤ en ∧ (now ≤ na → en ≤ na) ∧ (na < now → st = now ∧ en = now + 24 * hour))
    as Hgo by (intros [st en]; lia).
  apply Hgo. destruct days as [n|]; [|done]. specialize (Hd n eq_refl).
  destruct (Z.ltb_spec 0 n); [|done]. unfold hour in *.
  rewrite (wrap64_small (n * 24)) by lia. rewrite (wrap64_small (n * 24 * _)) by lia.
  rewrite wrap64_small by lia.
  apply not_before_now_bounds; [done|lia|Z.to_euclidean_division_equations; lia|done].
Qed.

(** ** Concrete libraries

    Keys are texts.  A message is "nonce|kid|signer": the key that signed it goes with it, and
    an empty kid stands for a message that embeds its key. *)
Definition toy_header (body : string) : ProtectedHeader string * string :=
  match Split "|" body with
  | [nonce; kid; signer] =>
      (mkHeader "ES256" kid (if bool_decide (kid = "") then Some signer else None) nonce
         [("url", HStr "https://ca/acme")], signer)
  | _ => (mkHeader "none" "" None "" [], "")
  end.

Definition toy_jose : Jose := mkJose string (λ k, negb (bool_decide (k = ""))) (λ k, Ok k) Ok Ok
  (λ body _, Ok (mkJWS [(toy_header body).1] "payload" body))
  (λ m k, if bool_decide ((toy_header (jws_raw m)).2 = k) then Ok (jws_UnsafePayload m)
          else Err (ErrMsg "bad signature"))
  (λ p, Ok (p, None)).

#[global] Instance toy_jose_ok : JoseOk toy_jose.
Proof.
  split.
  - intros k raw H. exact (eq_sym H).
  - intros m k p. cbn. by case_bool_decide; intros [= <-].
Qed.

Definition toy_runtime : GoRuntime := mkGoRuntime id id elements.
#[global] Instance toy_runtime_ok : GoRuntimeOk toy_runtime.
Proof. by intros X. Qed.

Lemma account_key_roundtrip_witness :
  let pem := match JWKToPEM (J:=toy_jose) "a key" with Ok p => p | Err _ => "" end in
  len pem = 73%nat ∧ ParseJWKFromPEM (J:=toy_jose) pem = Ok "a key".
Proof.
  cbn zeta. split; [vm_compute; reflexivity|].
  apply (account_key_roundtrip (J:=toy_jose) "a key"); vm_compute; reflexivity.
Defined.

Lemma ari_cert_id_roundtrip_witness :
  BuildARICertID "aki" (Some "serial") = Ok "YWtp.c2VyaWFs" ∧
  ParseARICertID "YWtp.c2VyaWFs" = Ok (mkARICertID "aki" "serial").
Proof.
  split; [vm_compute; reflexivity|].
  apply (ari_cert_id_roundtrip "aki" "serial"); [vm_compute; reflexivity|done].
Defined.

Lemma csr_matches_exactly_witness :
  CSRMatchesIdentifiers (RT:=toy_runtime) (mkCSR "a.example" ["b.example"; "a.example"])
    [mkIdentifier "dns" "b.example"; mkIdentifier "dns" "a.example"] = None.
Proof. apply (csr_matches_exactly (RT:=toy_runtime)). vm_compute. reflexivity. Defined.

Lemma ari_window_bounds_witness :
  let '(st, en) := ComputeRenewalWindow (Some (100 * hour)) (Some 0) (Some 1) (90 * hour) in
  st = 90 * hour ∧ 90 * hour ≤ st ≤ en ∧ (90 * hour ≤ 100 * hour → en ≤ 100 * hour) ∧
  (100 * hour < 90 * hour → st = 90 * hour ∧ en = 90 * hour + 24 * hour).
Proof.
  split; [vm_compute; reflexivity|].
  refine (ari_window_bounds (100 * hour) 0 (Some 1) (90 * hour) _ _ _ _).
  - done.
  - done.
  - vm_compute; reflexivity.
  - intros n [= <-]. lia.
Defined.
