(* ===== verification/CertStore.v ===== *)
(** * The certificate inventory and the issuers (src/internal/domain/certificate.go,
      revocation.go, crl_cache.go, ocsp_response_cache.go, repository/postgres/certificate.go,
      service/certificate.go, issuer_registry.go, validation/certificate_id.go)

    [IssuanceDB] extends the shared tables with what issuance and revocation need:
    certificate versions, revocations, the OCSP and CRL caches, and the tables of the ACME
    server.  Teams, issuers and renewal policies appear as the keys foreign keys refer to.
    An issuer is an [IssuerConnector]: the outcome of a call may depend on everything outside
    the model, which is the number [call] draws. *)

From Stdlib Require Import ZArith Lia Ascii String.
From stdpp Require Import prelude gmap strings list sorting pretty.
From S2P Require Import Prelude AuditTrail Store Transactions Approval GoBytes AcmeWire.

(** ** Rows *)
Record CertificateVersion := mkVersion {
  cv_ID : string;
  cv_CertificateID : string;
  cv_SerialNumber : string;
  cv_NotBefore : Z;
  cv_NotAfter : Z;
  cv_FingerprintSHA256 : string;
  cv_PEMChain : string;
  cv_CSRPEM : string;
  cv_KeyAlgorithm : string;
  cv_KeySize : Z;
  cv_CreatedAt : Z
}.

Record CertificateRevocation := mkRevocation {
  rv_ID : string;
  rv_CertificateID : string;
  rv_SerialNumber : string;
  rv_Reason : string;
  rv_RevokedBy : string;
  rv_RevokedAt : Z;
  rv_IssuerID : string;
  rv_IssuerNotified : bool;
  rv_CreatedAt : Z
}.

Record OCSPResponseCacheEntry := mkOCSPEntry {
  oe_ResponseDER : string;
  oe_CertStatus : string;
  oe_ThisUpdate : Z;
  oe_NextUpdate : Z;
  oe_GeneratedAt : Z
}.

Record CRLCacheEntry := mkCRLEntry {
  ce_CRLDER : string;
  ce_CRLNumber : Z;
  ce_ThisUpdate : Z;
  ce_NextUpdate : Z;
  ce_GeneratedAt : Z;
  ce_GenerationDuration : Z;
  ce_RevokedCount : Z
}.

Record CRLGenerationEvent := mkCRLEvent {
  cg_IssuerID : string;
  cg_CRLNumber : Z;
  cg_Duration : Z;
  cg_RevokedCount : Z;
  cg_StartedAt : Z;
  cg_Succeeded : bool;
  cg_Error : string
}.

(** domain/certificate.go RenewalPolicy: the fields the modelled code reads. *)
Record RenewalPolicy := mkPolicy {
  rp_RenewalWindowDays : Z;
  rp_AlertThresholdsDays : list Z;
  rp_AlertChannels : gmap string (list string);
  rp_AlertSeverityMap : gmap Z string
}.

Record ACMENonce := mkNonce { nc_IssuedAt : Z; nc_ExpiresAt : Z; nc_Used : bool }.

(** A challenge handed to the validator pool: what the validator looks for and what
    [recordChallengeOutcome] will be called with. *)
Record Submission := mkSubmission {
  sb_AccountID : string;
  sb_Challenge : ACMEChallenge;
  sb_Authz : ACMEAuthorization;
  sb_Expected : string
}.

(** ** The tables *)
Record IssuanceDB := mkIssuanceDB {
  is_store : DB;
  is_teams : gset string;
  is_issuers : gset string;
  is_policies : gmap string RenewalPolicy;
  is_versions : gmap string CertificateVersion;
  is_revocations : list CertificateRevocation;
  is_ocsp : gmap (string * string) OCSPResponseCacheEntry;
  is_crl : gmap string CRLCacheEntry;
  is_crl_events : list CRLGenerationEvent;
  is_nonces : gmap string ACMENonce;
  is_accounts : gmap string ACMEAccount;
  is_orders : gmap string ACMEOrder;
  is_authzs : gmap string ACMEAuthorization;
  is_challenges : gmap string ACMEChallenge;
  is_pool : list Submission                           (* the validator pool, in memory *)
}.

Definition set_store (f : DB → DB) (d : IssuanceDB) : IssuanceDB :=
  mkIssuanceDB (f (is_store d)) (is_teams d) (is_issuers d) (is_policies d) (is_versions d)
    (is_revocations d) (is_ocsp d) (is_crl d) (is_crl_events d) (is_nonces d) (is_accounts d)
    (is_orders d) (is_authzs d) (is_challenges d) (is_pool d).
Definition set_versions (f : gmap string CertificateVersion → gmap string CertificateVersion)
    (d : IssuanceDB) : IssuanceDB :=
  mkIssuanceDB (is_store d) (is_teams d) (is_issuers d) (is_policies d) (f (is_versions d))
    (is_revocations d) (is_ocsp d) (is_crl d) (is_crl_events d) (is_nonces d) (is_accounts d)
    (is_orders d) (is_authzs d) (is_challenges d) (is_pool d).
Definition set_revocations (f : list CertificateRevocation → list CertificateRevocation)
    (d : IssuanceDB) : IssuanceDB :=
  mkIssuanceDB (is_store d) (is_teams d) (is_issuers d) (is_policies d) (is_versions d)
    (f (is_revocations d)) (is_ocsp d) (is_crl d) (is_crl_events d) (is_nonces d) (is_accounts d)
    (is_orders d) (is_authzs d) (is_challenges d) (is_pool d).
Definition set_ocsp (f : gmap (string * string) OCSPResponseCacheEntry →
    gmap (string * string) OCSPResponseCacheEntry) (d : IssuanceDB) : IssuanceDB :=
  mkIssuanceDB (is_store d) (is_teams d) (is_issuers d) (is_policies d) (is_versions d)
    (is_revocations d) (f (is_ocsp d)) (is_crl d) (is_crl_events d) (is_nonces d) (is_accounts d)
    (is_orders d) (is_authzs d) (is_challenges d) (is_pool d).
Definition set_crl (f : gmap string CRLCacheEntry → gmap string CRLCacheEntry) (d : IssuanceDB)
    : IssuanceDB :=
  mkIssuanceDB (is_store d) (is_teams d) (is_issuers d) (is_policies d) (is_versions d)
    (is_revocations d) (is_ocsp d) (f (is_crl d)) (is_crl_events d) (is_nonces d) (is_accounts d)
    (is_orders d) (is_authzs d) (is_challenges d) (is_pool d).
Definition set_crl_events (f : list CRLGenerationEvent → list CRLGenerationEvent) (d : IssuanceDB)
    : IssuanceDB :=
  mkIssuanceDB (is_store d) (is_teams d) (is_issuers d) (is_policies d) (is_versions d)
    (is_revocations d) (is_ocsp d) (is_crl d) (f (is_crl_events d)) (is_nonces d) (is_accounts d)
    (is_orders d) (is_authzs d) (is_challenges d) (is_pool d).
Definition set_nonces (f : gmap string ACMENonce → gmap string ACMENonce) (d : IssuanceDB)
    : IssuanceDB :=
  mkIssuanceDB (is_store d) (is_teams d) (is_issuers d) (is_policies d) (is_versions d)
    (is_revocations d) (is_ocsp d) (is_crl d) (is_crl_events d) (f (is_nonces d)) (is_accounts d)
    (is_orders d) (is_authzs d) (is_challenges d) (is_pool d).
Definition set_accounts (f : gmap string ACMEAccount → gmap string ACMEAccount) (d : IssuanceDB)
    : IssuanceDB :=
  mkIssuanceDB (is_store d) (is_teams d) (is_issuers d) (is_policies d) (is_versions d)
    (is_revocations d) (is_ocsp d) (is_crl d) (is_crl_events d) (is_nonces d) (f (is_accounts d))
    (is_orders d) (is_authzs d) (is_challenges d) (is_pool d).
Definition set_orders (f : gmap string ACMEOrder → gmap string ACMEOrder) (d : IssuanceDB)
    : IssuanceDB :=
  mkIssuanceDB (is_store d) (is_teams d) (is_issuers d) (is_policies d) (is_versions d)
    (is_revocations d) (is_ocsp d) (is_crl d) (is_crl_events d) (is_nonces d) (is_accounts d)
    (f (is_orders d)) (is_authzs d) (is_challenges d) (is_pool d).
Definition set_authzs (f : gmap string ACMEAuthorization → gmap string ACMEAuthorization)
    (d : IssuanceDB) : IssuanceDB :=
  mkIssuanceDB (is_store d) (is_teams d) (is_issuers d) (is_policies d) (is_versions d)
    (is_revocations d) (is_ocsp d) (is_crl d) (is_crl_events d) (is_nonces d) (is_accounts d)
    (is_orders d) (f (is_authzs d)) (is_challenges d) (is_pool d).
Definition set_challenges (f : gmap string ACMEChallenge → gmap string ACMEChallenge)
    (d : IssuanceDB) : IssuanceDB :=
  mkIssuanceDB (is_store d) (is_teams d) (is_issuers d) (is_policies d) (is_versions d)
    (is_revocations d) (is_ocsp d) (is_crl d) (is_crl_events d) (is_nonces d) (is_accounts d)
    (is_orders d) (is_authzs d) (f (is_challenges d)) (is_pool d).
Definition set_pool (f : list Submission → list Submission) (d : IssuanceDB) : IssuanceDB :=
  mkIssuanceDB (is_store d) (is_teams d) (is_issuers d) (is_policies d) (is_versions d)
    (is_revocations d) (is_ocsp d) (is_crl d) (is_crl_events d) (is_nonces d) (is_accounts d)
    (is_orders d) (is_authzs d) (is_challenges d) (f (is_pool d)).

Definition is_audit (d : IssuanceDB) : list AuditEvent := db_audit (is_store d).
Definition is_certs (d : IssuanceDB) : gmap string ManagedCertificate := db_certs (is_store d).

#[global, program] Instance HasAudit_IssuanceDB : HasAudit IssuanceDB :=
  {| audit_log := is_audit; append_audit := λ ev, set_store (append_audit ev) |}.
Next Obligation. done. Qed.

(** Code that works on the shared tables only. *)
Definition on_store {A} (m : M DB A) : M IssuanceDB A := λ w,
  let '(a, w') := m (mkWorld (is_store (w_db w)) (w_env w)) in
  (a, mkWorld (set_store (λ _, w_db w') (w_db w)) (w_env w')).

(** A call to a system outside the model. *)
Definition call {D A} (f : N → A) : M D A := k ← fresh; mret (f k).

(** ** Issuers (service/renewal.go, issuer_registry.go) *)
Record IssuanceResult := mkIssuance {
  ir_CertPEM : string; ir_ChainPEM : string; ir_Serial : string;
  ir_NotBefore : Z; ir_NotAfter : Z }.

Record CRLEntry := mkCRLItem { cl_SerialNumber : option Z; cl_RevokedAt : Z; cl_ReasonCode : Z }.

Record OCSPSignRequest := mkOCSPReq {
  os_CertSerial : option Z; os_CertStatus : Z; os_RevokedAt : option Z; os_RevocationReason : Z;
  os_ThisUpdate : Z; os_NextUpdate : Z; os_Nonce : string }.

Record IssuerConnector := mkConnector {
  ic_IssueCertificate : N → string → list string → string → list string → Z → bool → res IssuanceResult;
  ic_RenewCertificate : N → string → list string → string → list string → Z → bool → res IssuanceResult;
  ic_RevokeCertificate : N → string → string → res unit;
  ic_GenerateCRL : N → list CRLEntry → res string;
  ic_SignOCSPResponse : N → OCSPSignRequest → res string;
  ic_GetRenewalInfo : N → string → res (option (Z * Z))     (* the suggested window, if any *)
}.

Definition IssuerRegistry : Type := list (string * IssuerConnector).
Definition Registry_Get (r : IssuerRegistry) (id : string) : option IssuerConnector :=
  snd <$> head (filter (λ kc : string * IssuerConnector, kc.1 = id) r).

(** ** validation/certificate_id.go *)
Definition id_char (c : ascii) : bool :=
  let b := byte_val c in
  ((65 <=? b) && (b <=? 90)) || ((97 <=? b) && (b <=? 122)) || is_digit c ||
  bool_decide (c ∈ ["."; "_"; "-"]%char).

Definition ValidateCertificateID (id : string) : res unit :=
  if bool_decide (id = "") then Err (ErrMsg "certificate_id is required") else
  if (128 <? Z.of_nat (len id)) then Err (ErrMsg ("certificate_id length " +:+ Itoa_len id +:+ " exceeds 128")) else
  if negb (all_chars id_char id)
  then Err (ErrMsg "certificate_id contains disallowed characters; allowed: A-Z a-z 0-9 . _ -") else
  if bool_decide (id = "..") || bool_decide (id = ".")
  then Err (ErrMsg "certificate_id is a relative-path token") else Ok tt.

(** ** repository/postgres/certificate.go *)
Module CertRepo.
(** The primary key, the unique name and the foreign keys of managed_certificates. *)
Definition cert_insert_ok (d : IssuanceDB) (c : ManagedCertificate) : bool :=
  bool_decide (is_certs d !! cert_ID c = None) &&
  forallb (λ x, negb (bool_decide (cert_Name x = cert_Name c))) (rows (is_certs d)) &&
  bool_decide (is_Some (db_owners (is_store d) !! cert_OwnerID c)) &&
  bool_decide (cert_TeamID c ∈ is_teams d) && bool_decide (cert_IssuerID c ∈ is_issuers d) &&
  bool_decide (is_Some (is_policies d !! cert_RenewalPolicyID c)) &&
  (bool_decide (cert_CertificateProfileID c = "") ||
   bool_decide (is_Some (db_profiles (is_store d) !! cert_CertificateProfileID c))).

Definition cert_insert (c : ManagedCertificate) (d : IssuanceDB) : res unit * IssuanceDB :=
  if cert_insert_ok d c then (Ok tt, set_store (set_certs (<[cert_ID c := c]>)) d)
  else (Err (ErrWrap "failed to create certificate" (ErrMsg "constraint violation")), d).

Definition cert_update (c : ManagedCertificate) (d : IssuanceDB) : res unit * IssuanceDB :=
  match is_certs d !! cert_ID c with
  | None => (Err (ErrWrap "certificate not found" repo_ErrNotFound), d)
  | Some old => (Ok tt, set_store (set_certs (<[cert_ID c := cert_set_row old c]>)) d)
  end.

(** The callers give the certificate an id. *)
Definition CreateWithTx (c : ManagedCertificate) : M (Txn IssuanceDB) (res unit) :=
  tx_exec "failed to create certificate" (cert_insert c).
Definition Create (c : ManagedCertificate) : M IssuanceDB (res unit) :=
  sql_exec "failed to create certificate" (cert_insert c).
Definition UpdateWithTx (c : ManagedCertificate) : M (Txn IssuanceDB) (res unit) :=
  tx_exec "failed to update certificate" (cert_update c).
Definition Update (c : ManagedCertificate) : M IssuanceDB (res unit) :=
  sql_exec "failed to update certificate" (cert_update c).

Definition Get (id : string) : M IssuanceDB (res ManagedCertificate) :=
  on_store (CertificateRepository_Get id).

(** A fresh id ([uuid.New]), the unique fingerprint, the reference to the certificate. *)
Definition version_insert_ok (d : IssuanceDB) (v : CertificateVersion) : bool :=
  bool_decide (is_versions d !! cv_ID v = None) &&
  forallb (λ x, negb (bool_decide (cv_FingerprintSHA256 x = cv_FingerprintSHA256 v)))
    (rows (is_versions d)) &&
  bool_decide (is_Some (is_certs d !! cv_CertificateID v)).

Definition with_version_id (id : string) (v : CertificateVersion) : CertificateVersion :=
  mkVersion id (cv_CertificateID v) (cv_SerialNumber v) (cv_NotBefore v) (cv_NotAfter v)
    (cv_FingerprintSHA256 v) (cv_PEMChain v) (cv_CSRPEM v) (cv_KeyAlgorithm v) (cv_KeySize v)
    (cv_CreatedAt v).

Definition CreateVersionWithTx (uuid_New : N → string) (v : CertificateVersion)
    : M (Txn IssuanceDB) (res unit) :=
  v ← (if bool_decide (cv_ID v = "") then k ← fresh; mret (with_version_id (uuid_New k) v) else mret v);
  tx_exec "failed to create certificate version" (λ d,
    if version_insert_ok d v then (Ok tt, set_versions (<[cv_ID v := v]>) d)
    else (Err (ErrWrap "failed to create certificate version" (ErrMsg "constraint violation")), d)).

Definition latest (l : list CertificateVersion) : option CertificateVersion :=
  head (merge_sort (desc cv_CreatedAt) l).

Definition GetLatestVersion (certID : string) : M IssuanceDB (res CertificateVersion) :=
  r ← sql_query "failed to get latest certificate version" (λ d,
        latest (filter (λ v, cv_CertificateID v = certID) (rows (is_versions d))));
  mret match r with
       | Err e => Err e
       | Ok None => Err (ErrWrap "failed to get latest certificate version" sql_ErrNoRows)
       | Ok (Some v) => Ok v
       end.

(** Versions of the certificates of an issuer that carry a serial number. *)
Definition has_serial (issuerID serial : string) (d : IssuanceDB) (v : CertificateVersion) : bool :=
  bool_decide (cv_SerialNumber v = serial) &&
  match is_certs d !! cv_CertificateID v with
  | Some c => bool_decide (cert_IssuerID c = issuerID)
  | None => false
  end.

Definition GetVersionBySerial (issuerID serial : string) : M IssuanceDB (res CertificateVersion) :=
  r ← sql_query "failed to get certificate version by issuer+serial" (λ d,
        latest (filter (λ v, has_serial issuerID serial d v = true) (rows (is_versions d))));
  mret match r with
       | Err e => Err e
       | Ok None => Err sql_ErrNoRows
       | Ok (Some v) => Ok v
       end.

(** [LIMIT 1] without an order. *)
Definition GetByIssuerAndSerial (issuerID serial : string) : M IssuanceDB (res ManagedCertificate) :=
  r ← sql_query "failed to query certificate by issuer+serial" (λ d,
        v ← head (filter (λ v, has_serial issuerID serial d v = true) (rows (is_versions d)));
        is_certs d !! cv_CertificateID v);
  mret match r with
       | Err e => Err e
       | Ok None => Err sql_ErrNoRows
       | Ok (Some c) => Ok c
       end.
End CertRepo.

(** ** service/certificate.go: Create

    The policy engine is a parameter: the violations (rule, message) it finds. *)
Module CertService.
Section create.
Variable ToLower : string → string.
Variable ValidateCertificate : ManagedCertificate → IssuanceDB → res (list (string * string)).

Definition record_violation (actor certID : string) (v : string * string) : M IssuanceDB unit :=
  _ ← RecordEvent ToLower actor ActorTypeUser "policy_violation_detected" "certificate" certID
        [("rule_id", GStr v.1); ("message", GStr v.2)];
  mret tt.

(** The INSERT and its audit row: in one transaction when a transactor is wired. *)
Definition insert_certificate (tx : bool) (cert : ManagedCertificate) (actor : string)
    : M IssuanceDB (res unit) :=
  let details := [("common_name", GStr (cert_CommonName cert))] in
  if tx then
    WithinTx (
      r ← CertRepo.CreateWithTx cert;
      match r with
      | Err e => mret (Err (ErrWrap "failed to create certificate" e))
      | Ok _ =>
          a ← RecordEvent ToLower actor ActorTypeUser "certificate_created" "certificate"
                (cert_ID cert) details;
          mret match a with
               | Err e => Err (ErrWrap "failed to record audit event" e)
               | Ok _ => Ok tt
               end
      end)
  else
    r ← CertRepo.Create cert;
    match r with
    | Err e => mret (Err (ErrWrap "failed to create certificate" e))
    | Ok _ =>
        _ ← RecordEvent ToLower actor ActorTypeUser "certificate_created" "certificate"
              (cert_ID cert) details;
        mret (Ok tt)
    end.

Definition Create (tx : bool) (cert : ManagedCertificate) (actor : string) : M IssuanceDB (res unit) :=
  if bool_decide (cert_ID cert = "") || bool_decide (cert_CommonName cert = "") ||
     bool_decide (cert_IssuerID cert = "")
  then mret (Err (ErrMsg "invalid certificate: missing required fields")) else
  match ValidateCertificateID (cert_ID cert) with
  | Err e => mret (Err (ErrWrap "invalid certificate id" e))
  | Ok _ =>
      p ← sql_query "failed to list policy rules" (ValidateCertificate cert);
      match p with
      | Err e | Ok (Err e) => mret (Err (ErrWrap "policy validation failed" e))
      | Ok (Ok violations) =>
          _ ← for_each violations (record_violation actor (cert_ID cert));
          insert_certificate tx cert actor
      end
  end.
End create.
End CertService.
