(* ===== verification/Revocation.v ===== *)
(** * Revocation, OCSP and CRLs (src/internal/domain/revocation.go,
      repository/postgres/revocation.go, ocsp_response_cache.go, crl_cache.go,
      service/revocation_svc.go, bulk_revocation.go, ca_operations.go,
      ocsp_response_cache.go, crl_cache.go)

    [Module RevocationRepo], [Module OcspRepo] and [Module CrlRepo] are the tables,
    [Module RevocationService] revokes one certificate or many, [Module CaOperations] answers
    OCSP requests and builds CRLs through the issuer connectors, with the read-through caches
    in front.  The single-flight gates of the caches only merge concurrent callers and are
    left out, as is the notification sent after a revocation. *)

From Stdlib Require Import ZArith Lia Ascii String.
From stdpp Require Import prelude gmap strings list sorting pretty.
From S2P Require Import Prelude AuditTrail Store Transactions Approval GoBytes AcmeWire CertStore.
Import Text.

(** ** domain/revocation.go *)
Definition RevocationReasonUnspecified : string := "unspecified".
Definition RevocationReasonKeyCompromise : string := "keyCompromise".
Definition RevocationReasonCACompromise : string := "caCompromise".
Definition RevocationReasonAffiliationChanged : string := "affiliationChanged".
Definition RevocationReasonSuperseded : string := "superseded".
Definition RevocationReasonCessationOfOperation : string := "cessationOfOperation".
Definition RevocationReasonCertificateHold : string := "certificateHold".
Definition RevocationReasonPrivilegeWithdrawn : string := "privilegeWithdrawn".

Definition ValidRevocationReasons : list (string * Z) :=
  [(RevocationReasonUnspecified, 0); (RevocationReasonKeyCompromise, 1);
   (RevocationReasonCACompromise, 2); (RevocationReasonAffiliationChanged, 3);
   (RevocationReasonSuperseded, 4); (RevocationReasonCessationOfOperation, 5);
   (RevocationReasonCertificateHold, 6); (RevocationReasonPrivilegeWithdrawn, 9)].

Definition reason_code (reason : string) : option Z :=
  snd <$> head (filter (λ rc : string * Z, rc.1 = reason) ValidRevocationReasons).
Definition IsValidRevocationReason (reason : string) : bool := bool_decide (is_Some (reason_code reason)).
Definition CRLReasonCode (reason : string) : Z := default 0 (reason_code reason).

(** ** repository/postgres/revocation.go *)
Module RevocationRepo.
Definition same_serial (issuerID serial : string) (r : CertificateRevocation) : bool :=
  bool_decide (rv_IssuerID r = issuerID) && bool_decide (rv_SerialNumber r = serial).

(** [ON CONFLICT (issuer_id, serial_number) DO NOTHING]; the primary key and the references. *)
Definition revocation_insert (r : CertificateRevocation) (d : IssuanceDB) : res unit * IssuanceDB :=
  if existsb (same_serial (rv_IssuerID r) (rv_SerialNumber r)) (is_revocations d) then (Ok tt, d) else
  if bool_decide (rv_ID r ∈ rv_ID <$> is_revocations d) ||
     negb (bool_decide (is_Some (is_certs d !! rv_CertificateID r))) ||
     negb (bool_decide (rv_IssuerID r ∈ is_issuers d))
  then (Err (ErrWrap "failed to create revocation record" (ErrMsg "constraint violation")), d)
  else (Ok tt, set_revocations (λ l, l ++ [r]) d).

Definition CreateWithTx (r : CertificateRevocation) : M (Txn IssuanceDB) (res unit) :=
  tx_exec "failed to create revocation record" (revocation_insert r).
Definition Create (r : CertificateRevocation) : M IssuanceDB (res unit) :=
  sql_exec "failed to create revocation record" (revocation_insert r).

Definition find_revocation (issuerID serial : string) (d : IssuanceDB) : option CertificateRevocation :=
  head (filter (λ r, same_serial issuerID serial r = true) (is_revocations d)).

Definition GetByIssuerAndSerial (issuerID serial : string) : M IssuanceDB (res CertificateRevocation) :=
  r ← sql_query "failed to get revocation by issuer and serial" (find_revocation issuerID serial);
  mret match r with
       | Err e => Err e
       | Ok None => Err (ErrWrap "failed to get revocation by issuer and serial" sql_ErrNoRows)
       | Ok (Some r) => Ok r
       end.

Definition by_time (l : list CertificateRevocation) : list CertificateRevocation :=
  merge_sort (asc rv_RevokedAt) l.

Definition ListAll : M IssuanceDB (res (list CertificateRevocation)) :=
  sql_query "failed to list revocations" (λ d, by_time (is_revocations d)).
Definition ListByIssuer (issuerID : string) : M IssuanceDB (res (list CertificateRevocation)) :=
  sql_query "failed to list revocations by issuer" (λ d,
    by_time (filter (λ r, rv_IssuerID r = issuerID) (is_revocations d))).
Definition ListByCertificate (certID : string) : M IssuanceDB (res (list CertificateRevocation)) :=
  sql_query "failed to list revocations by certificate" (λ d,
    by_time (filter (λ r, rv_CertificateID r = certID) (is_revocations d))).

Definition notified (r : CertificateRevocation) : CertificateRevocation :=
  mkRevocation (rv_ID r) (rv_CertificateID r) (rv_SerialNumber r) (rv_Reason r) (rv_RevokedBy r)
    (rv_RevokedAt r) (rv_IssuerID r) true (rv_CreatedAt r).

Definition MarkIssuerNotified (id : string) : M IssuanceDB (res unit) :=
  sql_exec "failed to mark issuer notified" (λ d,
    if bool_decide (id ∈ rv_ID <$> is_revocations d)
    then (Ok tt, set_revocations (fmap (λ r, if bool_decide (rv_ID r = id) then notified r else r)) d)
    else (Err (ErrWrap "revocation not found" repo_ErrNotFound), d)).
End RevocationRepo.

(** ** repository/postgres/ocsp_response_cache.go *)
Module OcspRepo.
(** [None] is a miss. *)
Definition Get (issuerID serialHex : string) : M IssuanceDB (res (option OCSPResponseCacheEntry)) :=
  sql_query "OCSPResponseCacheRepository.Get" (λ d, is_ocsp d !! (issuerID, serialHex)).

Definition Put (issuerID serialHex : string) (e : OCSPResponseCacheEntry) : M IssuanceDB (res unit) :=
  sql_exec "OCSPResponseCacheRepository.Put" (λ d,
    if bool_decide (issuerID ∈ is_issuers d)
    then (Ok tt, set_ocsp (<[(issuerID, serialHex) := e]>) d)
    else (Err (ErrWrap "OCSPResponseCacheRepository.Put" (ErrMsg "foreign key constraint")), d)).

Definition Delete (issuerID serialHex : string) : M IssuanceDB (res unit) :=
  sql_exec "OCSPResponseCacheRepository.Delete" (λ d,
    (Ok tt, set_ocsp (delete (issuerID, serialHex)) d)).

(** [entry.IsStale(now)]. *)
Definition IsStale (now : Z) (e : OCSPResponseCacheEntry) : bool := negb (now <? oe_NextUpdate e).
End OcspRepo.

(** ** repository/postgres/crl_cache.go *)
Module CrlRepo.
Definition Get (issuerID : string) : M IssuanceDB (res (option CRLCacheEntry)) :=
  sql_query "crl_cache get" (λ d, is_crl d !! issuerID).

Definition durationToMs (d : Z) : Z := Z.quot d (10 ^ 6).
Definition msToDuration (ms : Z) : Z := ms * 10 ^ 6.

(** What the row holds of an entry: the duration in milliseconds. *)
Definition crl_row (e : CRLCacheEntry) : CRLCacheEntry :=
  mkCRLEntry (ce_CRLDER e) (ce_CRLNumber e) (ce_ThisUpdate e) (ce_NextUpdate e) (ce_GeneratedAt e)
    (msToDuration (durationToMs (ce_GenerationDuration e))) (ce_RevokedCount e).

Definition Put (issuerID : string) (e : CRLCacheEntry) : M IssuanceDB (res unit) :=
  if bool_decide (issuerID = "") then mret (Err (ErrMsg "crl_cache put: empty issuer_id")) else
  sql_exec "crl_cache put" (λ d,
    if bool_decide (issuerID ∈ is_issuers d)
    then (Ok tt, set_crl (<[issuerID := crl_row e]>) d)
    else (Err (ErrWrap "crl_cache put" (ErrMsg "foreign key constraint")), d)).

Definition NextCRLNumber (issuerID : string) : M IssuanceDB (res Z) :=
  if bool_decide (issuerID = "") then mret (Err (ErrMsg "crl_cache next_crl_number: empty issuer_id")) else
  b ← tx_stmt "crl_cache next_crl_number: begin tx";
  match b with
  | Err e => mret (Err e)
  | Ok _ =>
      cur ← sql_query "crl_cache next_crl_number: select" (λ d, ce_CRLNumber <$> is_crl d !! issuerID);
      match cur with
      | Err e => mret (Err e)
      | Ok cur =>
          c ← tx_stmt "crl_cache next_crl_number: commit";
          mret match c with
               | Err e => Err e
               | Ok _ => Ok match cur with None => 1 | Some n => wrap64 (n + 1) end
               end
      end
  end.

Definition RecordGenerationEvent (evt : CRLGenerationEvent) : M IssuanceDB (res unit) :=
  if bool_decide (cg_IssuerID evt = "") then mret (Err (ErrMsg "crl_cache record_event: empty issuer_id")) else
  sql_exec "crl_cache record_event" (λ d, (Ok tt, set_crl_events (λ l, l ++ [evt]) d)).

Definition IsStale (now : Z) (e : CRLCacheEntry) : bool := negb (now <? ce_NextUpdate e).
End CrlRepo.

(** ** Revoking (service/revocation_svc.go, bulk_revocation.go) *)
Module RevocationService.
(** Whether a transactor, the revocation table and the OCSP cache are wired; the registry. *)
Record RevocationSvc := mkRevocationSvc {
  rs_tx : bool;
  rs_revocationRepo : bool;
  rs_issuerRegistry : option IssuerRegistry;
  rs_ocspCache : bool
}.

Section revoke.
Variable ToLower : string → string.
Variable s : RevocationSvc.

Definition with_revocation (reason : string) (t : Z) (c : ManagedCertificate) : ManagedCertificate :=
  mkCert (cert_ID c) (cert_Name c) (cert_CommonName c) (cert_SANs c) (cert_OwnerID c)
    (cert_TeamID c) (cert_IssuerID c) (cert_RenewalPolicyID c) (cert_CertificateProfileID c)
    CertificateStatusRevoked (cert_ExpiresAt c) (cert_Source c) (cert_LastRenewalAt c) (Some t) reason (cert_CreatedAt c).

(** The row for the CRL. *)
Definition revocation_row (id actor reason : string) (t : Z) (c : ManagedCertificate)
    (v : CertificateVersion) : CertificateRevocation :=
  mkRevocation id (cert_ID c) (cv_SerialNumber v) reason actor t (cert_IssuerID c) false t.

Definition revoke_details (reason : string) (c : ManagedCertificate) (v : CertificateVersion) : details :=
  [("common_name", GStr (cert_CommonName c)); ("serial", GStr (cv_SerialNumber v));
   ("reason", GStr reason)].

(** The three writes in one transaction. *)
Definition revoke_in_tx (actor reason : string) (t : Z) (c : ManagedCertificate)
    (v : CertificateVersion) : M (Txn IssuanceDB) (res unit) :=
  u ← CertRepo.UpdateWithTx (with_revocation reason t c);
  match u with
  | Err e => mret (Err (ErrWrap "failed to update certificate status" e))
  | Ok _ =>
      r ← (if rs_revocationRepo s then
             id ← generateID "rev";
             RevocationRepo.CreateWithTx (revocation_row id actor reason t c v)
           else mret (Ok tt));
      match r with
      | Err e => mret (Err (ErrWrap "failed to record revocation" e))
      | Ok _ =>
          a ← RecordEvent ToLower actor ActorTypeUser "certificate_revoked" "certificate"
                (cert_ID c) (revoke_details reason c v);
          mret match a with
               | Err e => Err (ErrWrap "failed to record audit event" e)
               | Ok _ => Ok tt
               end
      end
  end.

(** The path without a transactor: a failed revocation row is only logged. *)
Definition revoke_plain (actor reason : string) (t : Z) (c : ManagedCertificate)
    (v : CertificateVersion) : M IssuanceDB (res unit) :=
  u ← CertRepo.Update (with_revocation reason t c);
  match u with
  | Err e => mret (Err (ErrWrap "failed to update certificate status" e))
  | Ok _ =>
      _ ← (if rs_revocationRepo s then
             id ← generateID "rev";
             r ← RevocationRepo.Create (revocation_row id actor reason t c v); mret tt
           else mret tt);
      mret (Ok tt)
  end.

(** Step 5: tell the issuer, and note that it knows. *)
Definition notify_issuer (c : ManagedCertificate) (v : CertificateVersion) (reason : string)
    : M IssuanceDB unit :=
  match rs_issuerRegistry s ≫= λ reg, Registry_Get reg (cert_IssuerID c) with
  | None => mret tt
  | Some conn =>
      r ← call (λ k, ic_RevokeCertificate conn k (cv_SerialNumber v) reason);
      match r with
      | Err _ => mret tt
      | Ok _ =>
          if rs_revocationRepo s then
            l ← RevocationRepo.ListByCertificate (cert_ID c);
            match l with
            | Err _ => mret tt
            | Ok revs =>
                for_each revs (λ rev,
                  if bool_decide (rv_SerialNumber rev = cv_SerialNumber v)
                  then _ ← RevocationRepo.MarkIssuerNotified (rv_ID rev); mret tt
                  else mret tt)
            end
          else mret tt
      end
  end.

(** After the revocation is written. *)
Definition after_revocation (actor reason : string) (c : ManagedCertificate) (v : CertificateVersion)
    : M IssuanceDB (res unit) :=
  _ ← notify_issuer c v reason;
  _ ← (if rs_ocspCache s then _ ← OcspRepo.Delete (cert_IssuerID c) (cv_SerialNumber v); mret tt
       else mret tt);
  _ ← (if rs_tx s then mret tt else
         _ ← RecordEvent ToLower actor ActorTypeUser "certificate_revoked" "certificate"
               (cert_ID c) (revoke_details reason c v);
         mret tt);
  mret (Ok tt).

Definition RevokeCertificateWithActor (certID reason actor : string) : M IssuanceDB (res unit) :=
  g ← CertRepo.Get certID;
  match g with
  | Err e => mret (Err (ErrWrap "failed to fetch certificate" e))
  | Ok cert =>
      if bool_decide (cert_Status cert = CertificateStatusRevoked)
      then mret (Err (ErrMsg "certificate is already revoked")) else
      if bool_decide (cert_Status cert = CertificateStatusArchived)
      then mret (Err (ErrMsg "cannot revoke archived certificate")) else
      let reason := if bool_decide (reason = "") then RevocationReasonUnspecified else reason in
      if negb (IsValidRevocationReason reason)
      then mret (Err (ErrMsg ("invalid revocation reason: " +:+ reason))) else
      v ← CertRepo.GetLatestVersion certID;
      match v with
      | Err e => mret (Err (ErrWrap "failed to get certificate version" e))
      | Ok version =>
          t ← now;
          r ← (if rs_tx s then WithinTx (revoke_in_tx actor reason t cert version)
               else revoke_plain actor reason t cert version);
          match r with
          | Err e => mret (Err e)
          | Ok _ => after_revocation actor reason cert version
          end
      end
  end.

Definition GetRevokedCertificates : M IssuanceDB (res (list CertificateRevocation)) :=
  if rs_revocationRepo s then RevocationRepo.ListAll
  else mret (Err (ErrMsg "revocation repository not configured")).

(** ** Bulk revocation *)

(** The filter of [CertificateRepository.List] with the fields bulk revocation sets; the
    others are at their zero values, and so the order is by created_at. *)
Record CertificateFilter := mkCertificateFilter {
  cf_OwnerID : string; cf_TeamID : string; cf_IssuerID : string; cf_AgentID : string;
  cf_ProfileID : string; cf_Page : Z; cf_PerPage : Z }.

(** The agents a certificate is deployed through. *)
Definition deployed_by (d : DB) (agentID certID : string) : bool :=
  existsb (λ m : string * string,
    bool_decide (m.1 = certID) &&
    match db_targets d !! m.2 with Some t => bool_decide (target_AgentID t = agentID) | None => false end)
    (db_mappings d).

Definition cert_matches (f : CertificateFilter) (d : DB) (c : ManagedCertificate) : bool :=
  (bool_decide (cf_OwnerID f = "") || bool_decide (cert_OwnerID c = cf_OwnerID f)) &&
  (bool_decide (cf_TeamID f = "") || bool_decide (cert_TeamID c = cf_TeamID f)) &&
  (bool_decide (cf_IssuerID f = "") || bool_decide (cert_IssuerID c = cf_IssuerID f)) &&
  (bool_decide (cf_ProfileID f = "") || bool_decide (cert_CertificateProfileID c = cf_ProfileID f)) &&
  (bool_decide (cf_AgentID f = "") || deployed_by d (cf_AgentID f) (cert_ID c)).

Definition CertificateRepository_List (f : CertificateFilter)
    : M IssuanceDB (res (list ManagedCertificate)) :=
  let Page := if cf_Page f <? 1 then 1 else cf_Page f in
  let PerPage := if (cf_PerPage f =? 0) || (500 <? cf_PerPage f) then 50 else cf_PerPage f in
  let offset := wrap64 ((Page - 1) * PerPage) in
  let matching := λ d, filter (λ c, cert_matches f (is_store d) c = true) (rows (is_certs d)) in
  total ← sql_query "failed to count certificates" (λ d, length (matching d));
  match total with
  | Err e => mret (Err e)
  | Ok _ =>
      r ← sql_query "failed to query certificates" (λ d,
            if (PerPage <? 0) || (offset <? 0)
            then Err (ErrMsg "failed to query certificates: LIMIT or OFFSET is negative")
            else Ok (take (Z.to_nat PerPage) (drop (Z.to_nat offset)
                       (merge_sort (asc cert_CreatedAt) (matching d)))));
      match r with
      | Err e | Ok (Err e) => mret (Err e)
      | Ok (Ok []) => mret (Ok [])
      | Ok (Ok certs) =>
          t ← sql_query "failed to query target mappings" (λ _, tt);
          mret match t with Err e => Err e | Ok _ => Ok certs end
      end
  end.

Record BulkRevocationCriteria := mkCriteria {
  bk_ProfileID : string; bk_OwnerID : string; bk_AgentID : string; bk_IssuerID : string;
  bk_TeamID : string; bk_CertificateIDs : list string; bk_Source : string }.

Definition has_filter (c : BulkRevocationCriteria) : bool :=
  negb (bool_decide (bk_ProfileID c = "") && bool_decide (bk_OwnerID c = "") &&
        bool_decide (bk_AgentID c = "") && bool_decide (bk_IssuerID c = "") &&
        bool_decide (bk_TeamID c = "")).
Definition IsEmpty (c : BulkRevocationCriteria) : bool :=
  negb (has_filter c) && bool_decide (bk_CertificateIDs c = []).

(** Explicit ids, one by one; those that cannot be read are skipped. *)
Fixpoint fetch_all (ids : list string) : M IssuanceDB (list ManagedCertificate) :=
  match ids with
  | [] => mret []
  | id :: ids' =>
      r ← CertRepo.Get id;
      l ← fetch_all ids';
      mret match r with Err _ => l | Ok c => c :: l end
  end.

Definition resolveCertificates (c : BulkRevocationCriteria) : M IssuanceDB (res (list ManagedCertificate)) :=
  let hasExplicitIDs := negb (bool_decide (bk_CertificateIDs c = [])) in
  if hasExplicitIDs && negb (has_filter c) then l ← fetch_all (bk_CertificateIDs c); mret (Ok l) else
  r ← CertificateRepository_List (mkCertificateFilter (bk_OwnerID c) (bk_TeamID c) (bk_IssuerID c)
        (bk_AgentID c) (bk_ProfileID c) 0 10000);
  mret match r with
       | Err e => Err e
       | Ok certs =>
           let certs := if hasExplicitIDs
                        then filter (λ x, cert_ID x ∈ bk_CertificateIDs c) certs else certs in
           Ok (if bool_decide (bk_Source c = "") then certs
               else filter (λ x, cert_Source x = bk_Source c) certs)
       end.

Record BulkRevocationResult := mkBulkResult {
  br_TotalMatched : Z; br_TotalRevoked : Z; br_TotalSkipped : Z; br_TotalFailed : Z;
  br_Errors : list (string * string) }.

Definition bulk_revoke_one (reason actor : string) (r : BulkRevocationResult) (c : ManagedCertificate)
    : M IssuanceDB BulkRevocationResult :=
  if bool_decide (cert_Status c ∈ [CertificateStatusRevoked; CertificateStatusArchived])
  then mret (mkBulkResult (br_TotalMatched r) (br_TotalRevoked r) (br_TotalSkipped r + 1)
               (br_TotalFailed r) (br_Errors r))
  else
    x ← RevokeCertificateWithActor (cert_ID c) reason actor;
    mret match x with
         | Err e => mkBulkResult (br_TotalMatched r) (br_TotalRevoked r) (br_TotalSkipped r)
                      (br_TotalFailed r + 1) (br_Errors r ++ [(cert_ID c, Error e)])
         | Ok _ => mkBulkResult (br_TotalMatched r) (br_TotalRevoked r + 1) (br_TotalSkipped r)
                     (br_TotalFailed r) (br_Errors r)
         end.

Fixpoint bulk_loop (reason actor : string) (r : BulkRevocationResult) (l : list ManagedCertificate)
    : M IssuanceDB BulkRevocationResult :=
  match l with
  | [] => mret r
  | c :: l' => r' ← bulk_revoke_one reason actor r c; bulk_loop reason actor r' l'
  end.

Definition nonempty (k v : string) : details := if bool_decide (v = "") then [] else [(k, GStr v)].
Definition buildAuditDetails (c : BulkRevocationCriteria) : details :=
  nonempty "profile_id" (bk_ProfileID c) ++ nonempty "owner_id" (bk_OwnerID c) ++
  nonempty "agent_id" (bk_AgentID c) ++ nonempty "issuer_id" (bk_IssuerID c) ++
  nonempty "team_id" (bk_TeamID c) ++
  (if bool_decide (bk_CertificateIDs c = []) then []
   else [("certificate_ids", GStr (String.concat "," (bk_CertificateIDs c)))]).

Definition BulkRevoke (criteria : BulkRevocationCriteria) (reason actor : string)
    : M IssuanceDB (res BulkRevocationResult) :=
  if IsEmpty criteria then mret (Err (ErrMsg "at least one filter criterion is required")) else
  if bool_decide (reason = "") then mret (Err (ErrMsg "revocation reason is required")) else
  if negb (IsValidRevocationReason reason)
  then mret (Err (ErrMsg ("invalid revocation reason: " +:+ reason))) else
  r ← resolveCertificates criteria;
  match r with
  | Err e => mret (Err (ErrWrap "failed to resolve certificates" e))
  | Ok certs =>
      result ← bulk_loop reason actor (mkBulkResult (Z.of_nat (length certs)) 0 0 0 []) certs;
      _ ← RecordEvent ToLower actor ActorTypeUser "bulk_revocation_initiated" "certificate" "bulk"
            (buildAuditDetails criteria ++
             [("reason", GStr reason); ("total_matched", GInt (br_TotalMatched result));
              ("total_revoked", GInt (br_TotalRevoked result));
              ("total_skipped", GInt (br_TotalSkipped result));
              ("total_failed", GInt (br_TotalFailed result))]);
      mret (Ok result)
  end.
End revoke.
End RevocationService.

(** ** OCSP and CRL generation (service/ca_operations.go and the two caches) *)
Module CaOperations.
(** What is wired: the revocation table, the profile and certificate tables, the registry and
    the OCSP cache. *)
Record CAOperationsSvc := mkCaSvc {
  ca_revocationRepo : bool;
  ca_certRepo : bool;
  ca_profileRepo : bool;
  ca_issuerRegistry : option IssuerRegistry;
  ca_ocspCache : bool
}.

(** [serial.SetString(s, 16)]; when the text is no number the value is undefined. *)
Definition hex_value (c : ascii) : option Z :=
  let b := byte_val c in
  if (48 <=? b) && (b <=? 57) then Some (b - 48) else
  if (97 <=? b) && (b <=? 102) then Some (b - 87) else
  if (65 <=? b) && (b <=? 70) then Some (b - 55) else None.
Fixpoint SetString16 (acc : Z) (s : string) : option Z :=
  match s with
  | EmptyString => Some acc
  | String c s' => v ← hex_value c; SetString16 (acc * 16 + v) s'
  end.
Definition parse_serial (s : string) : option Z := if bool_decide (s = "") then None else SetString16 0 s.

(** domain/profile.go *)
Definition IsShortLived (p : CertificateProfile) : bool :=
  pf_AllowShortLived p && (0 <? pf_MaxTTLSeconds p) && (pf_MaxTTLSeconds p <? 3600).

(** [entry != nil && !entry.IsStale(now)]. *)
Definition fresh_entry {E} (stale : E → bool) (entry : option E) : option E :=
  match entry with Some e => if stale e then None else Some e | None => None end.

Section ca.
Variable s : CAOperationsSvc.

(** Whether the certificate of a revocation is exempt: its profile is short-lived. *)
Definition short_lived (rev : CertificateRevocation) : M IssuanceDB bool :=
  c ← CertRepo.Get (rv_CertificateID rev);
  match c with
  | Err _ => mret false
  | Ok cert =>
      if bool_decide (cert_CertificateProfileID cert = "") then mret false else
      p ← on_store (ProfileRepo.ProfileRepository_Get (cert_CertificateProfileID cert));
      mret match p with Err _ => false | Ok profile => IsShortLived profile end
  end.

Definition crl_entry (rev : CertificateRevocation) : CRLEntry :=
  mkCRLItem (parse_serial (rv_SerialNumber rev)) (rv_RevokedAt rev) (CRLReasonCode (rv_Reason rev)).

Fixpoint crl_entries (revs : list CertificateRevocation) : M IssuanceDB (list CRLEntry) :=
  match revs with
  | [] => mret []
  | rev :: revs' =>
      skip ← (if ca_profileRepo s && ca_certRepo s then short_lived rev else mret false);
      l ← crl_entries revs';
      mret (if (skip : bool) then l else crl_entry rev :: l)
  end.

Definition GenerateDERCRL (issuerID : string) : M IssuanceDB (res string) :=
  if negb (ca_revocationRepo s) then mret (Err (ErrMsg "revocation repository not configured")) else
  match ca_issuerRegistry s with
  | None => mret (Err (ErrMsg "issuer registry not configured"))
  | Some reg =>
      match Registry_Get reg issuerID with
      | None => mret (Err (ErrMsg ("issuer not found: " +:+ issuerID)))
      | Some conn =>
          r ← RevocationRepo.ListByIssuer issuerID;
          match r with
          | Err e => mret (Err (ErrWrap ("failed to list revocations for issuer " +:+ issuerID) e))
          | Ok revs =>
              entries ← crl_entries revs;
              call (λ k, ic_GenerateCRL conn k entries)
          end
      end
  end.

Definition hour : Z := 3600 * 10 ^ 9.
Definition ocsp_request (serial : option Z) (status : Z) (revokedAt : option Z) (reason t : Z)
    (nonce : string) : OCSPSignRequest :=
  mkOCSPReq serial status revokedAt reason t (t + hour) nonce.

(** The exemption of short-lived certificates, looked up through the revocation. *)
Definition ocsp_exempt (issuerID serialHex : string) : M IssuanceDB bool :=
  if ca_profileRepo s && ca_certRepo s then
    r ← RevocationRepo.GetByIssuerAndSerial issuerID serialHex;
    match r with Err _ => mret false | Ok rev => short_lived rev end
  else mret false.

(** The status and, when revoked, the time and the reason code. *)
Definition ocsp_decide (issuerID serialHex : string) : M IssuanceDB (Z * option Z * Z) :=
  exempt ← ocsp_exempt issuerID serialHex;
  if (exempt : bool) then mret (0, None, 0) else
  r ← RevocationRepo.GetByIssuerAndSerial issuerID serialHex;
  match r with
  | Ok rev => mret (1, Some (rv_RevokedAt rev), CRLReasonCode (rv_Reason rev))
  | Err _ =>
      if ca_certRepo s then
        c ← CertRepo.GetByIssuerAndSerial issuerID serialHex;
        mret match c with Err _ => (2, None, 0) | Ok _ => (0, None, 0) end
      else mret (0, None, 0)
  end.

Definition LiveSignOCSPResponse (issuerID serialHex nonce : string) : M IssuanceDB (res string) :=
  if negb (ca_revocationRepo s) then mret (Err (ErrMsg "revocation repository not configured")) else
  match ca_issuerRegistry s with
  | None => mret (Err (ErrMsg "issuer registry not configured"))
  | Some reg =>
      match Registry_Get reg issuerID with
      | None => mret (Err (ErrMsg ("issuer not found: " +:+ issuerID)))
      | Some conn =>
          t ← now;
          '(status, revokedAt, reason) ← ocsp_decide issuerID serialHex;
          call (λ k, ic_SignOCSPResponse conn k
                       (ocsp_request (parse_serial serialHex) status revokedAt reason t nonce))
      end
  end.

(** service/ocsp_response_cache.go: sign, and write the response back.  This is what the leader of
    the single flight does; goroutines that find the key in flight wait and return the leader's
    answer.  Calls here run one after another, so nobody waits, and nothing runs between the
    signing and the write (see [ocsp_put_after_revoke] for what may). *)
Definition ocsp_regenerate (issuerID serialHex : string) : M IssuanceDB (res string) :=
  r ← LiveSignOCSPResponse issuerID serialHex "";
  match r with
  | Err e => mret (Err e)
  | Ok der =>
      t ← now;
      _ ← OcspRepo.Put issuerID serialHex (mkOCSPEntry der "good" t (t + hour) t);
      mret (Ok der)
  end.

Definition OCSPCache_Get (issuerID serialHex : string) : M IssuanceDB (res string) :=
  t ← now;
  e ← OcspRepo.Get issuerID serialHex;
  match e with
  | Err e => mret (Err (ErrWrap "ocsp_response_cache get" e))
  | Ok entry =>
      match fresh_entry (OcspRepo.IsStale t) entry with
      | Some e => mret (Ok (oe_ResponseDER e))
      | None =>
          r ← ocsp_regenerate issuerID serialHex;
          mret match r with
               | Err e => Err (ErrWrap "ocsp_response_cache regenerate" e)
               | Ok der => Ok der
               end
      end
  end.

(** Requests without a nonce are served from the cache. *)
Definition GetOCSPResponseWithNonce (issuerID serialHex nonce : string) : M IssuanceDB (res string) :=
  if ca_ocspCache s && bool_decide (nonce = "") then OCSPCache_Get issuerID serialHex
  else LiveSignOCSPResponse issuerID serialHex nonce.

(** ** service/crl_cache.go

    [x509.ParseRevocationList] gives the number, the two dates and the number of entries. *)
Variable ParseRevocationList : string → res (option Z * Z * Z * Z).

Definition recordEvent (evt : CRLGenerationEvent) : M IssuanceDB unit :=
  _ ← CrlRepo.RecordGenerationEvent evt; mret tt.

Definition doRegenerate (issuerID : string) : M IssuanceDB (res CRLCacheEntry) :=
  startedAt ← now;
  r ← GenerateDERCRL issuerID;
  match r with
  | Err e =>
      t ← now;
      _ ← recordEvent (mkCRLEvent issuerID 0 (t - startedAt) 0 startedAt false (Error e));
      mret (Err (ErrWrap "crl_cache service generate" e))
  | Ok der =>
      match ParseRevocationList der with
      | Err e =>
          t ← now;
          _ ← recordEvent (mkCRLEvent issuerID 0 (t - startedAt) 0 startedAt false
                             ("parse generated CRL: " +:+ Error e));
          mret (Err (ErrWrap "crl_cache service parse" e))
      | Ok (number, thisUpdate, nextUpdate, count) =>
          t ← now;
          let crlNumber := default 0 number in
          let entry := mkCRLEntry der crlNumber thisUpdate nextUpdate startedAt (t - startedAt) count in
          p ← CrlRepo.Put issuerID entry;
          match p with
          | Err e =>
              t ← now;
              _ ← recordEvent (mkCRLEvent issuerID crlNumber (t - startedAt) 0 startedAt false
                                 ("persist cache row: " +:+ Error e));
              mret (Err (ErrWrap "crl_cache service persist" e))
          | Ok _ =>
              _ ← recordEvent (mkCRLEvent issuerID crlNumber (ce_GenerationDuration entry) count
                                 startedAt true "");
              mret (Ok entry)
          end
      end
  end.

Definition CRLCache_Get (issuerID : string) : M IssuanceDB (res (string * Z)) :=
  t ← now;
  e ← CrlRepo.Get issuerID;
  match e with
  | Err e => mret (Err (ErrWrap "crl_cache service get" e))
  | Ok entry =>
      match fresh_entry (CrlRepo.IsStale t) entry with
      | Some e => mret (Ok (ce_CRLDER e, ce_ThisUpdate e))
      | None =>
          r ← doRegenerate issuerID;
          mret match r with Err e => Err e | Ok e => Ok (ce_CRLDER e, ce_ThisUpdate e) end
      end
  end.

(** The scheduler's tick: every registered issuer, failures logged. *)
Definition RegenerateAll : M IssuanceDB unit :=
  match ca_issuerRegistry s with
  | None => mret tt
  | Some reg => for_each (fst <$> reg) (λ id, _ ← doRegenerate id; mret tt)
  end.
End ca.
End CaOperations.
