(* ===== verification/RevocationFacts.v ===== *)
(** * What revocation guarantees

    Revoking is all or nothing under every placement of failures; a CRL names every
    revocation of its issuer that is not exempt; after a revocation, and as long as no
    statement fails, no OCSP response says good.  Three theorems show where the code does not
    do what it documents: a failed lookup makes the responder answer good, bulk revocation by
    filter stops after one page, and the source filter is skipped for explicit ids. *)

From Stdlib Require Import ZArith Lia Ascii String.
From stdpp Require Import prelude gmap strings list sorting pretty.
From S2P Require Import Prelude AuditTrail Store Transactions Approval GoBytes AcmeWire CertStore Revocation.
Import RevocationService CaOperations.

(** ** Reads leave the database alone *)
Lemma on_store_free {A} (m : M DB A) (w : World IssuanceDB) :
  (∀ w, w_db (snd (m w)) = w_db w) → w_db (snd (on_store m w)) = w_db w.
Proof.
  intros H. unfold on_store. specialize (H (mkWorld (is_store (w_db w)) (w_env w))).
  destruct (m _) as [a w']. cbn in *. rewrite H. unfold set_store. by destruct (w_db w).
Qed.

Lemma pres_eq_free {D A} (m : M D A) (w : World D) : pres eq m → w_db (snd (m w)) = w_db w.
Proof. intros H. by rewrite <-(H w). Qed.

Lemma pres_on_store {A} (R : relation IssuanceDB) `{!PreOrder R} (m : M DB A) :
  pres eq m → pres R (on_store m).
Proof. intros H w. rewrite on_store_free; [done|]. intros w'. by apply pres_eq_free. Qed.

Lemma pres_call {D A} (R : relation D) `{!PreOrder R} (f : N → A) : pres R (call f).
Proof. unfold call. solve_pres. Qed.
#[export] Hint Resolve pres_call : certctl.

Section reads.
Context (R : relation IssuanceDB) `{!PreOrder R}.

Lemma pres_CertGet id : pres R (CertRepo.Get id).
Proof. apply pres_on_store; [done|]. apply pres_CertificateRepository_Get, _. Qed.
Lemma pres_ProfileGet id : pres R (on_store (ProfileRepo.ProfileRepository_Get id)).
Proof. apply pres_on_store; [done|]. unfold ProfileRepo.ProfileRepository_Get. solve_pres. Qed.
Lemma pres_GetLatestVersion id : pres R (CertRepo.GetLatestVersion id).
Proof. unfold CertRepo.GetLatestVersion. solve_pres. Qed.
Lemma pres_GetVersionBySerial i x : pres R (CertRepo.GetVersionBySerial i x).
Proof. unfold CertRepo.GetVersionBySerial. solve_pres. Qed.
Lemma pres_CertByIssuerAndSerial i x : pres R (CertRepo.GetByIssuerAndSerial i x).
Proof. unfold CertRepo.GetByIssuerAndSerial. solve_pres. Qed.
Lemma pres_RevByIssuerAndSerial i x : pres R (RevocationRepo.GetByIssuerAndSerial i x).
Proof. unfold RevocationRepo.GetByIssuerAndSerial. solve_pres. Qed.
End reads.
#[export] Hint Resolve pres_CertGet pres_ProfileGet pres_GetLatestVersion pres_GetVersionBySerial
  pres_CertByIssuerAndSerial pres_RevByIssuerAndSerial : certctl.

(** What the lookups return. *)
Lemma hoare_CertGet (P : IssuanceDB → Prop) id :
  hoare P (CertRepo.Get id) (λ r d, P d ∧ ∀ c, r = Ok c → is_certs d !! id = Some c).
Proof.
  intros w HP. pose proof (pres_eq_free _ w (pres_CertGet eq id)) as Hw. rewrite Hw. split; [done|].
  unfold CertRepo.Get, on_store, CertificateRepository_Get, sql_query, next_fault, mbind, M_bind, mret, M_ret,
    get_db. cbn. destruct (env_faults (w_env w)) as [|[| |]]; cbn; try done;
    fold (is_certs (w_db w)); destruct (is_certs (w_db w) !! id); cbn; congruence.
Qed.

Lemma hoare_GetLatestVersion (P : IssuanceDB → Prop) id :
  hoare P (CertRepo.GetLatestVersion id) (λ r d, P d ∧ ∀ v, r = Ok v →
    CertRepo.latest (filter (λ v, cv_CertificateID v = id) (rows (is_versions d))) = Some v).
Proof.
  unfold CertRepo.GetLatestVersion. eapply hoare_bind.
  - apply hoare_query with (Q := λ r d, P d ∧ ∀ o, r = Ok o →
      CertRepo.latest (filter (λ v, cv_CertificateID v = id) (rows (is_versions d))) = o);
      intros d HP; split; congruence.
  - intros r. apply hoare_ret. intros d [HP H]. split; [done|].
    destruct r as [[v|]|e]; intros v' [=]. subst. by apply H.
Qed.

(** ** Revoking is all or nothing *)
Section atomic.
Variable TL : string → string.
Variable s : RevocationSvc.
Hypothesis Htx : rs_tx s = true.
Hypothesis Hrepo : rs_revocationRepo s = true.

(** The three writes of a revocation, and nothing else in those tables. *)
Definition revoked_from (d d' : IssuanceDB) (c : ManagedCertificate) (v : CertificateVersion) : Prop :=
  (∃ c', is_certs d' = <[cert_ID c := c']> (is_certs d) ∧ cert_Status c' = CertificateStatusRevoked ∧
         cert_IssuerID c' = cert_IssuerID c ∧ cert_ID c' = cert_ID c) ∧
  is_Some (RevocationRepo.find_revocation (cert_IssuerID c) (cv_SerialNumber v) d') ∧
  (∃ ev, is_audit d' = is_audit d ++ [ev] ∧ ae_Action ev = "certificate_revoked" ∧
         ae_ResourceID ev = cert_ID c).

Lemma find_revocation_insert r d :
  (RevocationRepo.revocation_insert r d).1 = Ok tt →
  is_Some (RevocationRepo.find_revocation (rv_IssuerID r) (rv_SerialNumber r)
             (RevocationRepo.revocation_insert r d).2).
Proof.
  unfold RevocationRepo.revocation_insert, RevocationRepo.find_revocation.
  destruct (existsb _ _) eqn:Ee; cbn.
  - intros _. apply existsb_exists in Ee as (x & Hx & Hs). apply list_elem_of_In in Hx.
    destruct (filter _ _) as [|y l] eqn:Ef; [|by eexists].
    assert (x ∈ filter (λ r0, RevocationRepo.same_serial (rv_IssuerID r) (rv_SerialNumber r) r0 = true)
              (is_revocations d)) as H by (by apply list_elem_of_filter).
    rewrite Ef in H. by apply elem_of_nil in H.
  - destruct (_ || _ || _); cbn; [done|]. intros _. rewrite filter_app.
    destruct (filter _ (is_revocations d)) as [|y l]; [|by eexists].
    rewrite app_nil_l, filter_cons_True; [by eexists|]. unfold RevocationRepo.same_serial.
    by rewrite !bool_decide_true.
Qed.

Lemma revocation_insert_tables r d :
  let d' := (RevocationRepo.revocation_insert r d).2 in
  is_certs d' = is_certs d ∧ is_audit d' = is_audit d.
Proof. unfold RevocationRepo.revocation_insert. repeat case_match; done. Qed.

(** What the transaction has built when its body returns no error. *)
Lemma revoke_in_tx_builds d actor reason t c v :
  hoare (λ x, x = mkTxn d d) (revoke_in_tx TL s actor reason t c v)
    (λ r x, tx_committed x = d ∧ (r = Ok tt → revoked_from d (tx_view x) c v)).
Proof.
  set (upd := λ x : IssuanceDB, ∃ c', is_certs x = <[cert_ID c := c']> (is_certs d) ∧
     cert_Status c' = CertificateStatusRevoked ∧ cert_IssuerID c' = cert_IssuerID c ∧
     cert_ID c' = cert_ID c).
  unfold revoke_in_tx. apply hoare_bind with
    (λ r x, tx_committed x = d ∧ (r = Ok tt → upd (tx_view x) ∧ is_audit (tx_view x) = is_audit d)).
  { apply hoare_tx_exec; intros x ->; cbn; [|done|]; unfold CertRepo.cert_update; cbn.
    - destruct (is_certs d !! cert_ID c) as [old|]; cbn; [|done]. split; [done|].
      intros _. split; [|done]. eexists. by split.
    - by destruct (is_certs d !! cert_ID c). }
  intros [[]|e]; [|apply hoare_ret; intros x [H _]; done]. rewrite Hrepo.
  apply hoare_bind with (λ r x, tx_committed x = d ∧ (r = Ok tt → upd (tx_view x) ∧
    is_audit (tx_view x) = is_audit d ∧
    is_Some (RevocationRepo.find_revocation (cert_IssuerID c) (cv_SerialNumber v) (tx_view x)))).
  { apply hoare_bind with (λ _ x, tx_committed x = d ∧ upd (tx_view x) ∧ is_audit (tx_view x) = is_audit d).
    - apply hoare_generateID. intros x a [H1 H2]. split; [done|by apply H2].
    - intros id. apply hoare_tx_exec; cbn; intros x (H1 & (c' & H2 & H3) & H4); split; try done.
      destruct (revocation_insert_tables (revocation_row id actor reason t c v) (tx_view x)) as [E1 E2].
      intros Hok. split_and!; [exists c'; by rewrite E1|congruence|].
      exact (find_revocation_insert _ _ Hok). }
  intros [[]|e]; [|apply hoare_ret; intros x [H _]; done].
  intros w (Hc & H). destruct (H eq_refl) as (Hu & Ha & Hf). clear H.
  pose proof (hoare_RecordEvent TL actor ActorTypeUser "certificate_revoked" "certificate" (cert_ID c)
    (revoke_details reason c v) (w_db w) w eq_refl) as Hr. cbn in Hr.
  unfold mbind, M_bind, mret, M_ret. destruct (RecordEvent _ _ _ _ _ _ _ w) as [[[]|e] w']; cbn in *;
    destruct Hr as [Hdb Hok].
  - destruct (Hok eq_refl) as (ev & (He1 & He2 & He3 & He4 & He5) & ->). cbn. split; [done|].
    intros _. split_and!; [done|done|]. exists ev. by rewrite <-Ha.
  - split; [|done]. destruct Hdb as [-> | (ev & _ & ->)]; done.
Qed.

(** What follows the transaction keeps certificates and log, and loses no revocation. *)
Definition settled (d d' : IssuanceDB) : Prop :=
  is_certs d' = is_certs d ∧ is_audit d' = is_audit d ∧
  ∀ i x, is_Some (RevocationRepo.find_revocation i x d) → is_Some (RevocationRepo.find_revocation i x d').

#[local] Instance settled_preorder : PreOrder settled.
Proof.
  split; [by intros d|]. intros d1 d2 d3 (H1 & H2 & H3) (H4 & H5 & H6).
  split_and!; [congruence|congruence|auto].
Qed.

Lemma filter_notified i x id (l : list CertificateRevocation) :
  filter (λ r, RevocationRepo.same_serial i x r = true)
    ((λ r, if bool_decide (rv_ID r = id) then RevocationRepo.notified r else r) <$> l) =
  (λ r, if bool_decide (rv_ID r = id) then RevocationRepo.notified r else r) <$>
    filter (λ r, RevocationRepo.same_serial i x r = true) l.
Proof.
  induction l as [|r l IH]; [done|]. rewrite fmap_cons, !filter_cons, IH.
  destruct (bool_decide (rv_ID r = id)) eqn:E;
    [change (RevocationRepo.same_serial i x (RevocationRepo.notified r)) with
       (RevocationRepo.same_serial i x r)|];
    destruct (decide (RevocationRepo.same_serial i x r = true)); cbn; by rewrite ?E.
Qed.

Lemma pres_MarkIssuerNotified id : pres settled (RevocationRepo.MarkIssuerNotified id).
Proof.
  unfold RevocationRepo.MarkIssuerNotified. pres_step. case_bool_decide; cbn; [|done].
  split_and!; [done|done|]. intros i x. unfold RevocationRepo.find_revocation. cbn.
  rewrite filter_notified. by destruct (filter _ (is_revocations _)).
Qed.

Lemma pres_after_revocation actor reason c v : pres settled (after_revocation TL s actor reason c v).
Proof.
  unfold after_revocation, notify_issuer, OcspRepo.Delete, RevocationRepo.ListByCertificate. rewrite Htx.
  repeat first [pres_step | apply pres_MarkIssuerNotified | apply pres_call; apply _]; done.
Qed.

Lemma revoked_from_settled d d1 d2 c v : revoked_from d d1 c v → settled d1 d2 → revoked_from d d2 c v.
Proof.
  intros (Hc & Hf & Ha) (H1 & H2 & H3). unfold revoked_from. rewrite H1, H2. auto.
Qed.

(** The outcome of a revocation, as a postcondition. *)
Definition revoke_outcome (d : IssuanceDB) (certID : string) (r : res unit) (d' : IssuanceDB) : Prop :=
  (d' = d ∧ r ≠ Ok tt) ∨
  (∃ c v, is_certs d !! certID = Some c ∧
     cert_Status c ∉ [CertificateStatusRevoked; CertificateStatusArchived] ∧
     CertRepo.latest (filter (λ v, cv_CertificateID v = certID) (rows (is_versions d))) = Some v ∧
     revoked_from d d' c v).

Lemma hoare_refused d certID (P : IssuanceDB → Prop) (e : error) :
  (∀ x, P x → x = d) → hoare P (mret (Err e)) (revoke_outcome d certID).
Proof. intros HP. apply hoare_ret. intros x ->%HP. by left. Qed.

Lemma hoare_revoke d certID reason actor :
  hoare (λ x, x = d) (RevokeCertificateWithActor TL s certID reason actor) (revoke_outcome d certID).
Proof.
  unfold RevokeCertificateWithActor. eapply hoare_bind; [apply hoare_CertGet|].
  intros [c|e]; [|apply hoare_refused; by intros x [-> _]].
  case_bool_decide as Hrev; [apply hoare_refused; by intros x [-> _]|].
  case_bool_decide as Harc; [apply hoare_refused; by intros x [-> _]|]. cbv zeta.
  destruct (negb _) eqn:Hreason; [apply hoare_refused; by intros x [-> _]|].
  eapply hoare_bind; [apply hoare_GetLatestVersion|].
  intros [v|e]; [|apply hoare_refused; by intros x [[-> _] _]].
  eapply hoare_bind; [apply hoare_now; intros x t Hx; exact Hx|]. intros t. cbn beta. rewrite Htx.
  set (rsn := if bool_decide _ then _ else _).
  apply hoare_bind with (λ (r : res unit) x,
    (x = d ∧ r ≠ Ok tt) ∨ (revoked_from d x c v ∧ is_certs d !! certID = Some c ∧
      CertRepo.latest (filter (λ v, cv_CertificateID v = certID) (rows (is_versions d))) = Some v)).
  - apply hoare_WithinTx; [|intros x e [[-> _] _]; by left].
    intros x [[-> Hc] Hv]. eapply hoare_post; [apply revoke_in_tx_builds|].
    intros r y [H1 H2]. split; [done|]. intros [] ->. split; [|intros e]; right; auto.
  - intros [[]|e].
    + intros w' [[_ Hn]|(Hf & Hc & Hv)]; [done|]. right. exists c, v.
      split_and!; [done|set_solver|done|].
      eapply revoked_from_settled; [exact Hf|apply pres_after_revocation].
    + apply hoare_ret. intros x [[-> _]|(Hf & Hc & Hv)]; [by left|]. right. exists c, v.
      split_and!; [done|set_solver|done|done].
Qed.

(** C16: With the transactor wired, revoking a certificate is all or nothing for every placement
    of failures: either the database is as before, or the certificate is marked revoked, the
    serial of its latest version is among the revocations of its issuer and one audit event
    records it.  A call that reports success did the latter, and a certificate that was
    revoked or archived before is never touched. *)
Theorem revocation_all_or_nothing certID reason actor w :
  let d := w_db w in
  let r := fst (RevokeCertificateWithActor TL s certID reason actor w) in
  let d' := w_db (snd (RevokeCertificateWithActor TL s certID reason actor w)) in
  (d' = d ∧ r ≠ Ok tt) ∨
  (∃ c v, is_certs d !! certID = Some c ∧
     cert_Status c ∉ [CertificateStatusRevoked; CertificateStatusArchived] ∧
     CertRepo.latest (filter (λ v, cv_CertificateID v = certID) (rows (is_versions d))) = Some v ∧
     revoked_from d d' c v).
Proof. exact (hoare_revoke (w_db w) certID reason actor w eq_refl). Qed.
End atomic.

(** ** CRLs *)

(** The certificate of a revocation has a short-lived profile. *)
Definition exempt (d : IssuanceDB) (rev : CertificateRevocation) : bool :=
  match is_certs d !! rv_CertificateID rev with
  | Some c =>
      negb (bool_decide (cert_CertificateProfileID c = "")) &&
      match db_profiles (is_store d) !! cert_CertificateProfileID c with
      | Some p => IsShortLived p
      | None => false
      end
  | None => false
  end.

Lemma hoare_ProfileGet (P : IssuanceDB → Prop) id :
  hoare P (on_store (ProfileRepo.ProfileRepository_Get id)) (λ r d, P d ∧ ∀ p, r = Ok p →
    ∃ row, db_profiles (is_store d) !! id = Some row ∧ p = ProfileRepo.scanProfile row).
Proof.
  intros w HP. rewrite (pres_eq_free _ w (pres_ProfileGet eq id)). split; [done|].
  unfold on_store, ProfileRepo.ProfileRepository_Get, sql_query, next_fault, mbind, M_bind, mret, M_ret,
    get_db. cbn. destruct (env_faults (w_env w)) as [|[| |]]; cbn; try done;
    destruct (db_profiles (is_store (w_db w)) !! id) as [row|]; cbn; intros p [= <-]; by exists row.
Qed.

Lemma hoare_short_lived d0 rev :
  hoare (λ d, d = d0) (short_lived rev) (λ b d, d = d0 ∧ (b = true → exempt d0 rev = true)).
Proof.
  unfold short_lived. eapply hoare_bind; [apply hoare_CertGet|].
  intros [c|e]; [|apply hoare_ret; by intros d [-> _]].
  case_bool_decide as Hp; [apply hoare_ret; by intros d [-> _]|].
  eapply hoare_bind; [apply hoare_ProfileGet|]. intros r. apply hoare_ret. intros d [[-> Hc] Hr].
  split; [done|]. destruct r as [p|e]; [|done]. destruct (Hr p eq_refl) as (row & Hrow & ->). intros H.
  unfold exempt. by rewrite (Hc c eq_refl), bool_decide_false, Hrow.
Qed.

Lemma hoare_crl_entries s d0 revs :
  hoare (λ d, d = d0) (crl_entries s revs) (λ entries d, d = d0 ∧
    (∀ rev, rev ∈ revs → crl_entry rev ∈ entries ∨ exempt d0 rev = true) ∧
    ∀ e, e ∈ entries → ∃ rev, rev ∈ revs ∧ e = crl_entry rev).
Proof.
  induction revs as [|rev revs IH]; cbn.
  { apply hoare_ret. intros d ->. split_and!; [done|set_solver|set_solver]. }
  apply hoare_bind with (λ (skip : bool) d, d = d0 ∧ (skip = true → exempt d0 rev = true)).
  { destruct (_ && _); [apply hoare_short_lived|by apply hoare_ret]. }
  intros skip. apply hoare_bind with (λ l d, (skip = true → exempt d0 rev = true) ∧ d = d0 ∧
    (∀ rev, rev ∈ revs → crl_entry rev ∈ l ∨ exempt d0 rev = true) ∧
    ∀ e, e ∈ l → ∃ rev, rev ∈ revs ∧ e = crl_entry rev).
  { intros w [Hw Hs]. split; [exact Hs|]. by apply IH. }
  intros l. apply hoare_ret. intros d (Hs & -> & H1 & H2). split; [done|]. destruct skip.
  - split; [|set_solver]. intros r [->|Hr]%elem_of_cons; auto.
  - split; [|set_solver]. intros r [->|Hr]%elem_of_cons; [left; left|].
    destruct (H1 r Hr); [left; by right|by right].
Qed.


(** ** OCSP after a revocation *)

(** Running the lookups when nothing fails. *)
Section quiet_runs.
Context (w : World IssuanceDB) (Hq : env_faults (w_env w) = []).

Lemma on_store_same (e : Env) (d : IssuanceDB) : set_store (λ _, is_store d) d = d.
Proof. by destruct d. Qed.

Lemma run_RevGet i x :
  RevocationRepo.GetByIssuerAndSerial i x w =
  (match RevocationRepo.find_revocation i x (w_db w) with
   | Some r => Ok r
   | None => Err (ErrWrap "failed to get revocation by issuer and serial" sql_ErrNoRows) end, w).
Proof.
  unfold RevocationRepo.GetByIssuerAndSerial. rewrite (bind_run _ _ _ _ _ (query_run _ _ w Hq)).
  by destruct (RevocationRepo.find_revocation i x (w_db w)).
Qed.

Lemma run_short_lived rev :
  map_Forall (λ _ p, IsShortLived p = false) (db_profiles (is_store (w_db w))) →
  short_lived rev w = (false, w).
Proof.
  intros Hp. unfold short_lived, CertRepo.Get, CertificateRepository_Get, ProfileRepo.ProfileRepository_Get.
  unfold on_store. cbv delta [sql_query next_fault get_db mbind M_bind mret M_ret]. cbn. rewrite Hq. cbn.
  destruct w as [d e]. cbn in *.
  destruct (db_certs (is_store d) !! rv_CertificateID rev) as [c|]; cbn; rewrite on_store_same; [|done..].
  case_bool_decide as Hc; [done|]. cbn. rewrite Hq. cbn.
  destruct (db_profiles (is_store d) !! cert_CertificateProfileID c) as [p|] eqn:Ep; cbn;
    rewrite on_store_same; [|done..].
  change (IsShortLived (ProfileRepo.scanProfile p)) with (IsShortLived p). by rewrite (Hp _ _ Ep).
Qed.
End quiet_runs.

(** The switch on the status in the local connector's [SignOCSPResponse]: what is neither good (0)
    nor revoked (1) is signed as unknown (2). *)
Definition ocsp_template_status (certStatus : Z) : Z :=
  if certStatus =? 0 then 0 else if certStatus =? 1 then 1 else 2.

(** The responder's answers are what the connectors sign: [status_of] reads the status of the
    template back. *)
Class OcspFaithful (status_of : string → option Z) (reg : IssuerRegistry) : Prop :=
  ocsp_faithful conn k req der :
    conn ∈ reg.*2 → ic_SignOCSPResponse conn k req = Ok der →
    status_of der = Some (ocsp_template_status (os_CertStatus req)).

Lemma Registry_Get_elem reg id conn : Registry_Get reg id = Some conn → conn ∈ reg.*2.
Proof.
  unfold Registry_Get. destruct (head _) as [[k c]|] eqn:E; [|done]. intros [= <-].
  destruct (filter _ reg) as [|kc l] eqn:Ef; [done|]. injection E as ->.
  assert ((k, c) ∈ filter (λ kc : string * IssuerConnector, kc.1 = id) reg) as H by (rewrite Ef; left).
  apply list_elem_of_filter in H as [_ H]. apply list_elem_of_fmap. by exists (k, c).
Qed.

Section ocsp.
Variable status_of : string → option Z.
Variable s : CAOperationsSvc.
Context (reg : IssuerRegistry) (Hreg : ca_issuerRegistry s = Some reg) `{!OcspFaithful status_of reg}.

(** The serial is revoked, no profile is short-lived, and no cached response says otherwise. *)
Definition known_revoked (i x : string) (d : IssuanceDB) : Prop :=
  is_Some (RevocationRepo.find_revocation i x d) ∧
  map_Forall (λ _ p, IsShortLived p = false) (db_profiles (is_store d)) ∧
  ∀ e, is_ocsp d !! (i, x) = Some e → status_of (oe_ResponseDER e) = Some 1.

Lemma LiveSign_revoked i x nonce w :
  env_faults (w_env w) = [] → known_revoked i x (w_db w) →
  let '(r, w') := LiveSignOCSPResponse s i x nonce w in
  w_db w' = w_db w ∧ env_faults (w_env w') = [] ∧ ∀ der, r = Ok der → status_of der = Some 1.
Proof.
  intros Hq ([rev Hrev] & Hp & _). unfold LiveSignOCSPResponse. destruct (negb _); [done|].
  rewrite Hreg. destruct (Registry_Get reg i) as [conn|] eqn:Ec; [|done].
  destruct (now_run w) as (t & w1 & Hn & Hw1 & Hf1). rewrite (bind_run _ _ _ _ _ Hn).
  assert (env_faults (w_env w1) = []) as Hq1 by congruence.
  rewrite <-Hw1 in Hrev, Hp.
  assert (ocsp_decide s i x w1 = ((1, Some (rv_RevokedAt rev), CRLReasonCode (rv_Reason rev)), w1)) as Hd.
  { unfold ocsp_decide, ocsp_exempt. destruct (_ && _).
    - rewrite (bind_run _ _ w1 w1 false).
      + by rewrite (bind_run _ _ _ _ _ (run_RevGet w1 Hq1 i x)), Hrev.
      + rewrite (bind_run _ _ _ _ _ (run_RevGet w1 Hq1 i x)), Hrev. by apply run_short_lived.
    - rewrite (bind_run _ _ w1 w1 false) by done.
      by rewrite (bind_run _ _ _ _ _ (run_RevGet w1 Hq1 i x)), Hrev. }
  rewrite (bind_run _ _ _ _ _ Hd). unfold call, fresh, mbind, M_bind, mret, M_ret. cbn.
  split_and!; [done|done|]. intros der Hder.
  apply (ocsp_faithful (status_of:=status_of) _ _ _ _ (Registry_Get_elem _ _ _ Ec) Hder).
Qed.

Lemma Get_revoked i x nonce w :
  env_faults (w_env w) = [] → known_revoked i x (w_db w) →
  let '(r, w') := GetOCSPResponseWithNonce s i x nonce w in
  known_revoked i x (w_db w') ∧ ∀ der, r = Ok der → status_of der = Some 1.
Proof.
  intros Hq Hk. unfold GetOCSPResponseWithNonce. destruct (_ && _).
  2:{ pose proof (LiveSign_revoked i x nonce w Hq Hk) as H. destruct (LiveSignOCSPResponse _ _ _ _ w) as [r w'].
      destruct H as (-> & _ & H). done. }
  unfold OCSPCache_Get. destruct (now_run w) as (t & w1 & Hn & Hw1 & Hf1).
  rewrite (bind_run _ _ _ _ _ Hn). assert (env_faults (w_env w1) = []) as Hq1 by congruence.
  rewrite <-Hw1 in Hk. unfold OcspRepo.Get. rewrite (bind_run _ _ _ _ _ (query_run _ _ w1 Hq1)).
  destruct (fresh_entry _ (is_ocsp (w_db w1) !! (i, x))) as [e|] eqn:Ee.
  { split; [done|]. intros der [= <-]. destruct Hk as (_ & _ & He). apply He.
    unfold fresh_entry in Ee. destruct (is_ocsp _ !! _) as [e'|]; [|done].
    by destruct (OcspRepo.IsStale t e'); simplify_eq. }
  unfold ocsp_regenerate, mbind, M_bind.
  pose proof (LiveSign_revoked i x "" w1 Hq1 Hk) as H.
  destruct (LiveSignOCSPResponse s i x "" w1) as [[der|e] w2]; destruct H as (Hw2 & Hq2 & Hs);
    [|unfold mret, M_ret; cbn; by rewrite Hw2].
  specialize (Hs der eq_refl). destruct (now_run w2) as (t2 & w3 & Hn3 & Hw3 & Hf3). rewrite Hn3.
  unfold OcspRepo.Put. rewrite exec_run by congruence. cbn. rewrite <-Hw2, <-Hw3 in Hk.
  split; [|by intros d [= <-]]. destruct Hk as (K1 & K2 & K3).
  case_bool_decide; cbn; [|by split_and!]. split_and!; [done|done|].
  cbn. intros e. rewrite lookup_insert. case_decide; [|by apply K3]. by intros [= <-].
Qed.

(** ** Everything else keeps a revoked serial revoked *)
Section keeps_revoked.
Variable TL : string → string.
Context (rs : RevocationSvc) (parse : string → res (option Z * Z * Z * Z)).
Context (i x : string).
Notation keep := (λ d d', known_revoked i x d → known_revoked i x d').

Lemma keep_revocations d f :
  (is_Some (RevocationRepo.find_revocation i x d) →
   is_Some (RevocationRepo.find_revocation i x (set_revocations f d))) → keep d (set_revocations f d).
Proof. intros H (H1 & H2 & H3). split_and!; [by apply H|done|done]. Qed.

Lemma pres_keep_RevInsert r : pres keep (RevocationRepo.Create r).
Proof.
  unfold RevocationRepo.Create, RevocationRepo.revocation_insert. pres_step. repeat case_match; cbn; auto.
  apply keep_revocations. unfold RevocationRepo.find_revocation. cbn. rewrite filter_app.
  destruct (filter _ (is_revocations _)); [by intros [? ?]|done].
Qed.

Lemma pres_keep_RevInsertTx r : pres (in_tx keep) (RevocationRepo.CreateWithTx r).
Proof.
  refine (pres_tx_exec _ _ _ _). intros d. pose proof (pres_keep_RevInsert r (mkWorld d (mkEnv 0 [] [] 0))) as H.
  unfold RevocationRepo.Create, sql_exec, next_fault, mbind, M_bind, get_db, put_db in H. cbn in H.
  by destruct (RevocationRepo.revocation_insert r d).
Qed.

Lemma keep_cert_update c d : keep d (CertRepo.cert_update c d).2.
Proof. unfold CertRepo.cert_update. by destruct (is_certs d !! cert_ID c). Qed.

Lemma pres_keep_Mark id : pres keep (RevocationRepo.MarkIssuerNotified id).
Proof.
  unfold RevocationRepo.MarkIssuerNotified. pres_step. case_bool_decide; cbn; auto.
  apply keep_revocations. unfold RevocationRepo.find_revocation. cbn. rewrite filter_notified.
  by destruct (filter _ (is_revocations _)).
Qed.

Lemma pres_keep_revoke certID reason actor :
  pres keep (RevokeCertificateWithActor TL rs certID reason actor).
Proof.
  unfold RevokeCertificateWithActor, after_revocation, notify_issuer, revoke_plain, CertRepo.Update,
    OcspRepo.Delete, RevocationRepo.ListByCertificate, generateID.
  repeat first
    [ simple apply pres_WithinTx; [apply _|] | simple apply pres_keep_Mark
    | simple apply pres_keep_RevInsert | simple apply pres_RecordEvent; [apply _|done]
    | pres_step | solve [eauto with certctl typeclass_instances] ]; cbn;
    try solve [apply keep_cert_update].
  - unfold revoke_in_tx, CertRepo.UpdateWithTx, generateID.
    repeat first
      [ simple apply pres_keep_RevInsertTx | refine (pres_tx_exec _ _ _ _); intros ?; apply keep_cert_update
      | simple apply pres_RecordEvent; [apply _|by intros ev [? ?]] | pres_step ].
  - intros (H1 & H2 & H3). split_and!; [done|done|]. cbn. intros e [_ He]%lookup_delete_Some. by apply H3.
Qed.

Lemma pres_short_lived (R : relation IssuanceDB) `{!PreOrder R} rev : pres R (short_lived rev).
Proof. unfold short_lived. solve_pres. Qed.

Lemma pres_LiveSign (R : relation IssuanceDB) `{!PreOrder R} i' x' nonce :
  pres R (LiveSignOCSPResponse s i' x' nonce).
Proof.
  unfold LiveSignOCSPResponse, ocsp_decide, ocsp_exempt.
  repeat first [simple apply pres_short_lived; apply _ | simple apply pres_call; apply _ | pres_step
               | solve [eauto with certctl typeclass_instances]].
Qed.

(** A response for another serial. *)
Lemma pres_keep_OtherRequest i' x' nonce :
  (i', x') ≠ (i, x) → pres keep (GetOCSPResponseWithNonce s i' x' nonce).
Proof.
  intros Hne. unfold GetOCSPResponseWithNonce, OCSPCache_Get, ocsp_regenerate, OcspRepo.Get, OcspRepo.Put.
  repeat first [simple apply pres_LiveSign; apply _ | pres_step]; cbn; auto.
  case_match; cbn; auto. intros (H1 & H2 & H3). split_and!; [done|done|]. cbn. intros e.
  rewrite lookup_insert_ne by done. apply H3.
Qed.

Lemma pres_keep_crl i' : pres keep (doRegenerate s parse i').
Proof.
  assert (∀ revs, pres keep (crl_entries s revs)) as Hc.
  { induction revs; cbn; repeat first [simple apply pres_short_lived; apply _ | pres_step | done]. }
  unfold doRegenerate, GenerateDERCRL, recordEvent, CrlRepo.RecordGenerationEvent, CrlRepo.Put,
    RevocationRepo.ListByIssuer.
  repeat first [apply Hc | simple apply pres_call; apply _ | pres_step]; cbn; auto;
    case_match; auto.
Qed.

Lemma pres_keep_bulk criteria reason actor : pres keep (BulkRevoke TL rs criteria reason actor).
Proof.
  assert (∀ ids, pres keep (fetch_all ids)) as Hf.
  { induction ids; cbn; solve_pres. }
  assert (∀ l r, pres keep (bulk_loop TL rs reason actor r l)) as Hb.
  { induction l; intros r; cbn; unfold bulk_revoke_one;
      repeat first [simple apply pres_keep_revoke | pres_step | done]. }
  unfold BulkRevoke, resolveCertificates, CertificateRepository_List.
  repeat first [apply Hf | apply Hb | simple apply pres_RecordEvent; [apply _|done] | pres_step].
Qed.
End keeps_revoked.

(** ** Serving

    Calls one after the other, each with its own clock and failures. *)
Inductive serve_op :=
  | SRequest (issuerID serial nonce : string)
  | SRevoke (certID reason actor : string)
  | SBulk (criteria : BulkRevocationCriteria) (reason actor : string)
  | SRegenerateCRL (issuerID : string).

Variable TL : string → string.
Context (rs : RevocationSvc) (parse : string → res (option Z * Z * Z * Z)).

Definition serve_one (op : serve_op) : M IssuanceDB unit :=
  match op with
  | SRequest i x nonce => _ ← GetOCSPResponseWithNonce s i x nonce; mret tt
  | SRevoke c reason actor => _ ← RevokeCertificateWithActor TL rs c reason actor; mret tt
  | SBulk c reason actor => _ ← BulkRevoke TL rs c reason actor; mret tt
  | SRegenerateCRL i => _ ← doRegenerate s parse i; mret tt
  end.

Definition serve (d : IssuanceDB) (ops : list (Env * serve_op)) : IssuanceDB :=
  foldl (λ d eo, w_db (snd (serve_one eo.2 (mkWorld d eo.1)))) d ops.

(** No statement of an OCSP request fails. *)
Definition ocsp_quiet (eo : Env * serve_op) : Prop :=
  match eo.2 with SRequest _ _ _ => env_faults eo.1 = [] | _ => True end.

Lemma serve_one_keeps i x d eo :
  ocsp_quiet eo → known_revoked i x d → known_revoked i x (w_db (snd (serve_one eo.2 (mkWorld d eo.1)))).
Proof.
  destruct eo as [e [i' x' nonce|c reason actor|c reason actor|i']]; intros Hq Hk; cbn [serve_one fst snd].
  - destruct (decide ((i', x') = (i, x))) as [[= -> ->]|Hne].
    + pose proof (Get_revoked i x nonce (mkWorld d e) Hq Hk) as H. unfold mbind, M_bind.
      destruct (GetOCSPResponseWithNonce _ _ _ _ _) as [r w']. apply H.
    + revert Hk. refine (pres_bind _ _ _ _ _ (mkWorld d e)); [by apply pres_keep_OtherRequest|].
      intros a. apply pres_ret, _.
  - revert Hk. refine (pres_bind _ _ _ _ _ (mkWorld d e)); [apply pres_keep_revoke|].
    intros a. apply pres_ret, _.
  - revert Hk. refine (pres_bind _ _ _ _ _ (mkWorld d e)); [apply pres_keep_bulk|].
    intros a. apply pres_ret, _.
  - revert Hk. refine (pres_bind _ _ _ _ _ (mkWorld d e)); [apply pres_keep_crl|].
    intros a. apply pres_ret, _.
Qed.

Lemma serve_keeps i x ops d :
  Forall ocsp_quiet ops → known_revoked i x d → known_revoked i x (serve d ops).
Proof.
  intros H. revert d. induction H as [|eo ops He Hops IH]; intros d Hd; [done|].
  cbn. apply IH. by apply serve_one_keeps.
Qed.
End ocsp.

(** ** A successful revocation removes the cached response *)
Section invalidate.
Variable TL : string → string.
Variable rs : RevocationSvc.
Hypothesis Htx : rs_tx rs = true.
Hypothesis Hrepo : rs_revocationRepo rs = true.
Hypothesis Hcache : rs_ocspCache rs = true.

Lemma quiet_on_store {A} (m : M DB A) : wpres quiet m → wpres quiet (on_store m).
Proof.
  intros H w Hw. unfold on_store. specialize (H (mkWorld (is_store (w_db w)) (w_env w)) Hw).
  by destruct (m _).
Qed.

Lemma quiet_CertGet id : wpres quiet (CertRepo.Get id).
Proof. apply quiet_on_store. unfold CertificateRepository_Get. repeat wstep. Qed.

Lemma quiet_revoke_in_tx actor reason t c v : wpres quiet (revoke_in_tx TL rs actor reason t c v).
Proof.
  unfold revoke_in_tx, CertRepo.UpdateWithTx, RevocationRepo.CreateWithTx, tx_exec, generateID.
  repeat first [simple apply quiet_exec | simple apply quiet_RecordEvent | wstep].
Qed.

Lemma quiet_notify c v reason : wpres quiet (notify_issuer rs c v reason).
Proof.
  unfold notify_issuer, call, RevocationRepo.ListByCertificate, RevocationRepo.MarkIssuerNotified.
  repeat first [simple apply quiet_exec | simple apply quiet_for_each; intros ? | wstep].
Qed.

Lemma after_revocation_invalidates actor reason c v w :
  env_faults (w_env w) = [] →
  is_ocsp (w_db (snd (after_revocation TL rs actor reason c v w))) !!
    (cert_IssuerID c, cv_SerialNumber v) = None.
Proof.
  intros Hq. unfold after_revocation. rewrite Hcache, Htx. unfold mbind, M_bind.
  pose proof (quiet_notify c v reason w Hq) as Hn. destruct (notify_issuer rs c v reason w) as [u w1].
  cbn in Hn. unfold OcspRepo.Delete. rewrite exec_run by done. cbn. apply lookup_delete_eq.
Qed.

(** The certificate and the version the call worked on. *)
Lemma revoke_success certID reason actor w w' :
  env_faults (w_env w) = [] →
  RevokeCertificateWithActor TL rs certID reason actor w = (Ok tt, w') →
  ∃ c v, is_certs (w_db w) !! certID = Some c ∧
    CertRepo.latest (filter (λ v, cv_CertificateID v = certID) (rows (is_versions (w_db w)))) = Some v ∧
    is_ocsp (w_db w') !! (cert_IssuerID c, cv_SerialNumber v) = None.
Proof.
  intros Hq H. unfold RevokeCertificateWithActor in H. apply bind_inv in H as (g & w1 & Hg & H).
  pose proof (hoare_CertGet (λ d, d = w_db w) certID w eq_refl) as H1.
  pose proof (quiet_CertGet certID w Hq) as Hq1. rewrite Hg in H1, Hq1. cbn in H1, Hq1.
  destruct H1 as [Hw1 Hc]. destruct g as [c|e]; [|done]. specialize (Hc c eq_refl).
  do 2 (case_bool_decide; [done|]). cbv zeta in H. destruct (negb _); [done|].
  apply bind_inv in H as (g & w2 & Hg2 & H).
  pose proof (hoare_GetLatestVersion (λ d, d = w_db w1) certID w1 eq_refl) as H2.
  assert (env_faults (w_env w2) = []) as Hq2.
  { assert (wpres quiet (CertRepo.GetLatestVersion certID)) as Hv
      by (unfold CertRepo.GetLatestVersion; repeat wstep).
    specialize (Hv w1 Hq1). by rewrite Hg2 in Hv. }
  rewrite Hg2 in H2. cbn in H2. destruct H2 as [Hw2 Hv]. destruct g as [v|e]; [|done].
  specialize (Hv v eq_refl). apply bind_inv in H as (t & w3 & Hn & H).
  pose proof (wpres_now quiet w2 Hq2) as Hq3. rewrite Hn in Hq3. cbn in Hq3.
  apply bind_inv in H as (r & w4 & Htr & H). rewrite Htx in Htr.
  set (rsn := if bool_decide _ then _ else _) in *.
  pose proof (quiet_WithinTx _ (quiet_revoke_in_tx actor rsn t c v) w3 Hq3) as Hq4.
  rewrite Htr in Hq4. cbn in Hq4. destruct r as [[]|e]; [|done].
  pose proof (after_revocation_invalidates actor rsn c v w4 Hq4) as Hi. rewrite H in Hi. cbn in Hi.
  exists c, v. split_and!; [by rewrite <-Hw1|by rewrite <-Hw1, <-Hw2|done].
Qed.

(** Profiles are not touched. *)
Lemma revoke_profiles certID reason actor w :
  db_profiles (is_store (w_db (snd (RevokeCertificateWithActor TL rs certID reason actor w)))) =
  db_profiles (is_store (w_db w)).
Proof.
  set (R := λ d d' : IssuanceDB, db_profiles (is_store d') = db_profiles (is_store d)).
  assert (PreOrder R) by (split; [by intros d|intros d1 d2 d3; unfold R; congruence]).
  assert (∀ c d, R d (CertRepo.cert_update c d).2) as Hu.
  { intros c d. unfold CertRepo.cert_update. by destruct (is_certs d !! cert_ID c). }
  assert (∀ r d, R d (RevocationRepo.revocation_insert r d).2) as Hr.
  { intros r d. unfold RevocationRepo.revocation_insert. by repeat case_match. }
  refine ((_ : pres R _) w).
  unfold RevokeCertificateWithActor, after_revocation, notify_issuer, revoke_plain, CertRepo.Update,
    OcspRepo.Delete, RevocationRepo.ListByCertificate, RevocationRepo.Create,
    RevocationRepo.MarkIssuerNotified, generateID.
  repeat first
    [ simple apply pres_WithinTx; [apply _|] | simple apply pres_RecordEvent; [apply _|done]
    | pres_step | solve [eauto with certctl typeclass_instances] ];
    try solve [auto | by repeat case_match].
  unfold revoke_in_tx, CertRepo.UpdateWithTx, RevocationRepo.CreateWithTx, generateID.
  repeat first
    [ refine (pres_tx_exec _ _ _ _); solve [auto]
    | simple apply pres_RecordEvent; [apply _|by intros ev [? ?]] | pres_step ].
Qed.

(** C7: Once a certificate has been revoked without failures, the OCSP responder never again says
    good for the serial of its latest version, as long as calls run one after another: after any
    further complete requests, revocations, bulk revocations and CRL generations - of which only
    the OCSP lookups must not fail - every response for it, cached or freshly signed, with a nonce
    or without, carries the status revoked.  The connectors are assumed to sign the status the
    local one puts into its template.  No profile is short-lived: those certificates are exempt.
    A cache miss that is under way while the certificate is revoked is not covered: what it signed
    before the revocation it may store after the invalidation, and that answer is then served for
    an hour (ocsp_put_after_revoke). *)
Theorem revoked_never_good status_of s reg `{!OcspFaithful status_of reg} parse
    certID reason actor w w1 c v ops e nonce der :
  ca_issuerRegistry s = Some reg →
  env_faults (w_env w) = [] →
  map_Forall (λ _ p, IsShortLived p = false) (db_profiles (is_store (w_db w))) →
  is_certs (w_db w) !! certID = Some c →
  CertRepo.latest (filter (λ v, cv_CertificateID v = certID) (rows (is_versions (w_db w)))) = Some v →
  RevokeCertificateWithActor TL rs certID reason actor w = (Ok tt, w1) →
  Forall ocsp_quiet ops → env_faults e = [] →
  fst (GetOCSPResponseWithNonce s (cert_IssuerID c) (cv_SerialNumber v) nonce
         (mkWorld (serve s TL rs parse (w_db w1) ops) e)) = Ok der →
  status_of der = Some 1.
Proof.
  intros Hreg Hq Hp Hc Hv Hrev Hops He Hget.
  destruct (revoke_success _ _ _ _ _ Hq Hrev) as (c' & v' & Hc' & Hv' & Hnone). simplify_eq.
  pose proof (hoare_revoke TL rs Htx Hrepo (w_db w) certID reason actor w eq_refl) as Ho.
  pose proof (revoke_profiles certID reason actor w) as Hpr. rewrite Hrev in Ho, Hpr. cbn in Ho, Hpr.
  destruct Ho as [[_ ?]|(c' & v' & Hc1 & _ & Hv1 & (_ & Hf & _))]; [done|]. simplify_eq.
  assert (known_revoked status_of (cert_IssuerID c) (cv_SerialNumber v) (w_db w1)) as Hk.
  { split_and!; [done|by rewrite Hpr|]. intros e'. by rewrite Hnone. }
  pose proof (serve_keeps status_of s reg Hreg TL rs parse _ _ ops _ Hops Hk) as Hk2.
  pose proof (Get_revoked status_of s reg Hreg _ _ nonce
    (mkWorld (serve s TL rs parse (w_db w1) ops) e) He Hk2) as Hg.
  destruct (GetOCSPResponseWithNonce _ _ _ _ _) as [r w2]. cbn in Hget. by apply Hg.
Qed.
End invalidate.

(** ** Where the code does not do what it documents *)

(** A cache miss in flight defeats the invalidation.  [ocsp_regenerate] signs and then stores; when
    a revocation, its invalidation included, runs in between, the answer signed before it is what
    every request of the following hour gets. *)
Theorem ocsp_put_after_revoke s i x der d t t' n :
  ca_ocspCache s = true → i ∈ is_issuers d → t' < t + hour →
  let stored := snd (OcspRepo.Put i x (mkOCSPEntry der "good" t (t + hour) t) (mkWorld d (mkEnv t [] [] n))) in
  fst (GetOCSPResponseWithNonce s i x "" (mkWorld (w_db stored) (mkEnv t' [] [] n))) = Ok der.
Proof.
  intros Hc Hi Ht. unfold OcspRepo.Put. rewrite exec_run by done. cbn.
  rewrite bool_decide_true by done. cbn. unfold GetOCSPResponseWithNonce. rewrite Hc, bool_decide_true by done.
  cbn [andb]. unfold OCSPCache_Get, OcspRepo.Get, now, sql_query, next_fault, get_db, mbind, M_bind, mret, M_ret. cbn.
  rewrite lookup_insert_eq. cbn. unfold OcspRepo.IsStale. cbn.
  by rewrite (proj2 (Z.ltb_lt _ _) Ht).
Qed.

(** The responder fails open.  When both lookups of a revoked serial fail and the inventory
    knows the certificate, the answer is signed with the status good; it is cached, and every
    request of the following hour gets it although nothing fails any more. *)
Theorem ocsp_fails_open s reg conn i x d t n :
  ca_revocationRepo s = true → ca_certRepo s = true → ca_profileRepo s = true →
  ca_ocspCache s = true → ca_issuerRegistry s = Some reg → Registry_Get reg i = Some conn →
  (∀ k req, os_CertStatus req ∈ [0; 1; 2] → is_Ok (ic_SignOCSPResponse conn k req) = true) →
  is_Some (RevocationRepo.find_revocation i x d) →
  is_Some (v ← head (filter (λ v, CertRepo.has_serial i x d v = true) (rows (is_versions d)));
           is_certs d !! cv_CertificateID v) →
  i ∈ is_issuers d → is_ocsp d !! (i, x) = None →
  ∃ der k req w',
    GetOCSPResponseWithNonce s i x "" (mkWorld d (mkEnv t [] [FOk; FFail; FFail] n)) = (Ok der, w') ∧
    ic_SignOCSPResponse conn k req = Ok der ∧ os_CertStatus req = 0 ∧
    ∀ t' n', t' < t + hour →
      fst (GetOCSPResponseWithNonce s i x "" (mkWorld (w_db w') (mkEnv t' [] [] n'))) = Ok der.
Proof.
  intros H1 H2 H3 H4 H5 H6 Hsign _ [c Hc] Hi Hnone.
  set (req := ocsp_request (parse_serial x) 0 None 0 t "").
  destruct (is_Ok_inv _ (Hsign (n + 1)%N req ltac:(cbn; set_solver))) as [der Hder].
  exists der, (n + 1)%N, req. unfold GetOCSPResponseWithNonce. rewrite H4, bool_decide_true by done. cbn [andb].
  assert (OCSPCache_Get s i x (mkWorld d (mkEnv t [] [FOk; FFail; FFail] n)) =
    (Ok der, mkWorld (set_ocsp (<[(i, x) := mkOCSPEntry der "good" t (t + hour) t]>) d)
               (mkEnv t [] [] (n + 1)))) as ->.
  { unfold OCSPCache_Get, OcspRepo.Get, ocsp_regenerate, LiveSignOCSPResponse, ocsp_decide, ocsp_exempt,
      RevocationRepo.GetByIssuerAndSerial, CertRepo.GetByIssuerAndSerial, OcspRepo.Put, call.
    rewrite H1, H2, H3, H5, H6. cbn [negb andb].
    cbv delta [sql_exec sql_query next_fault now fresh get_db put_db mbind M_bind mret M_ret]. cbn.
    rewrite Hnone. cbn. unfold mbind in Hc. rewrite Hc. cbn. fold req. rewrite Hder. cbn.
    by rewrite bool_decide_true. }
  eexists. split_and!; [done|done|done|]. intros t' n' Ht. unfold OCSPCache_Get, OcspRepo.Get. mrun.
  rewrite lookup_insert_eq. cbn. unfold OcspRepo.IsStale. cbn. by rewrite (proj2 (Z.ltb_lt _ _) Ht).
Qed.

(** *** Bulk revocation *)
Section bulk.
Variable TL : string → string.
Variable s : RevocationSvc.
Hypothesis Htx : rs_tx s = true.
Hypothesis Hrepo : rs_revocationRepo s = true.

Definition certs_keyed (d : IssuanceDB) : Prop := map_Forall (λ k c, cert_ID c = k) (is_certs d).

(** Only the rows of [L] change, and rows stay under their ids. *)
Definition within_rows (L : list string) (d d' : IssuanceDB) : Prop :=
  certs_keyed d → certs_keyed d' ∧ ∀ k, k ∉ L → is_certs d' !! k = is_certs d !! k.

#[local] Instance within_rows_preorder L : PreOrder (within_rows L).
Proof.
  split; [by intros d Hd|]. intros d1 d2 d3 H1 H2 Hk. destruct (H1 Hk) as [Hk2 E1].
  destruct (H2 Hk2) as [Hk3 E2]. split; [done|]. intros k Hn. by rewrite E2, E1.
Qed.

Lemma pres_within_revoke L certID reason actor :
  certID ∈ L → pres (within_rows L) (RevokeCertificateWithActor TL s certID reason actor).
Proof.
  intros HL w Hk. pose proof (hoare_revoke TL s Htx Hrepo (w_db w) certID reason actor w eq_refl) as Ho.
  destruct Ho as [[-> _]|(c & v & Hc & _ & _ & (c' & E & _ & _ & Hid) & _)]; [done|].
  pose proof (Hk _ _ Hc) as Hcid. cbn in Hcid. rewrite E, Hcid. split.
  - unfold certs_keyed. rewrite E. apply map_Forall_insert_2; [done|exact Hk].
  - intros k Hn. apply lookup_insert_ne. intros <-. done.
Qed.

Lemma pres_within_loop L reason actor l r :
  (cert_ID <$> l) ⊆ L → pres (within_rows L) (bulk_loop TL s reason actor r l).
Proof.
  revert r. induction l as [|c l IH]; intros r HL; cbn; [apply pres_ret, _|].
  apply pres_bind; [apply _| |intros r'; apply IH; set_solver].
  unfold bulk_revoke_one. pres_step; [apply pres_ret, _|].
  apply pres_bind; [apply _|apply pres_within_revoke; set_solver|]. intros a. apply pres_ret, _.
Qed.

Lemma resolve_one_page criteria w certs w' :
  has_filter criteria = true → resolveCertificates criteria w = (Ok certs, w') →
  (length certs ≤ 50)%nat ∧ w_db w' = w_db w.
Proof.
  intros Hf H. pose proof H as H0. unfold resolveCertificates in H. rewrite Hf, andb_false_r in H.
  split.
  - apply bind_inv in H as (r & w1 & Hl & H). destruct r as [l|e]; [|done].
    assert (length l ≤ 50)%nat as Hlen.
    { unfold CertificateRepository_List in Hl. cbn in Hl.
      apply bind_inv in Hl as (tot & w2 & _ & Hl). destruct tot; [|done].
      apply bind_inv in Hl as (q & w3 & Hq & Hl). destruct q as [[q|e]|e]; [|done..].
      assert (length q ≤ 50)%nat.
      { revert Hq. mrun. destruct (env_faults (w_env w2)) as [|[| |]]; intros [= <- _]; apply firstn_le_length. }
      destruct q as [|c q]; [injection Hl as <- _; cbn; lia|].
      apply bind_inv in Hl as (u & w4 & _ & Hl). destruct u; [|done]. by injection Hl as <- _. }
    injection H as <- _. cbv zeta.
    assert (∀ P `{!∀ c : ManagedCertificate, Decision (P c)} l, length (filter P l) ≤ length l)%nat as Hfl
      by (intros; apply length_filter).
    repeat case_match; rewrite ?Hfl; try lia; etransitivity; try apply Hfl; try apply Hlen.
  - assert (pres eq (resolveCertificates criteria)) as Hp; [|by rewrite (Hp w), H0].
    unfold resolveCertificates, CertificateRepository_List. rewrite Hf, andb_false_r. repeat pres_step.
Qed.

(** Bulk revocation by filter handles one page.  It asks the repository for ten thousand rows,
    which the repository turns into its default of fifty: whatever the criteria, at most
    fifty certificates are reported as matched and at most fifty rows change, although the
    comment says all matching certificates are revoked. *)
Theorem bulk_revocation_one_page criteria reason actor w r w' :
  has_filter criteria = true → certs_keyed (w_db w) →
  BulkRevoke TL s criteria reason actor w = (Ok r, w') →
  br_TotalMatched r ≤ 50 ∧
  ∃ L : list string, (length L ≤ 50)%nat ∧
    ∀ k, k ∉ L → is_certs (w_db w') !! k = is_certs (w_db w) !! k.
Proof.
  intros Hf Hk H. unfold BulkRevoke in H. destruct (IsEmpty criteria); [done|].
  destruct (bool_decide _); [done|]. destruct (negb _); [done|].
  apply bind_inv in H as (g & w1 & Hg & H). destruct g as [certs|e]; [|done].
  destruct (resolve_one_page _ _ _ _ Hf Hg) as [Hlen Hw1].
  apply bind_inv in H as (res & w2 & Hloop & H). apply bind_inv in H as (a & w3 & Haud & H).
  injection H as <- <-. set (L := cert_ID <$> certs).
  pose proof (pres_within_loop L reason actor certs
    (mkBulkResult (Z.of_nat (length certs)) 0 0 0 []) ltac:(done) w1) as HL.
  rewrite Hloop, Hw1 in HL. destruct (HL Hk) as [_ HE]. split.
  - assert (∀ l r0 w w', bulk_loop TL s reason actor r0 l w = (res, w') →
      br_TotalMatched res = br_TotalMatched r0) as Hm.
    { induction l as [|c l IH]; cbn; intros r0 u u' Hb; [by injection Hb as -> _|].
      apply bind_inv in Hb as (r1 & u1 & H1 & Hb). rewrite (IH _ _ _ Hb). revert H1.
      unfold bulk_revoke_one. destruct (bool_decide _); [by intros [= <- _]|].
      intros (x & u2 & _ & H1)%bind_inv. injection H1 as <- _. by destruct x. }
    rewrite (Hm _ _ _ _ Hloop). cbn. lia.
  - exists L. split; [by unfold L; rewrite length_fmap|]. intros k Hn. rewrite <-(HE k Hn).
    pose proof (hoare_RecordEvent TL actor ActorTypeUser "bulk_revocation_initiated" "certificate" "bulk"
      (buildAuditDetails criteria ++ [("reason", GStr reason); ("total_matched", GInt (br_TotalMatched res));
       ("total_revoked", GInt (br_TotalRevoked res)); ("total_skipped", GInt (br_TotalSkipped res));
       ("total_failed", GInt (br_TotalFailed res))]) (w_db w2) w2 eq_refl) as Hr.
    rewrite Haud in Hr. cbn in Hr. by destruct Hr as [[-> |(ev & _ & ->)] _].
Qed.
End bulk.

(** ** Concrete runs *)
Definition ex_cert (source : string) : ManagedCertificate :=
  mkCert "mc-1" "www" "www" [] "o-1" "t-1" "iss" "rp-1" "" "Active" 0 source None None "" 0.
Definition ex_version : CertificateVersion := mkVersion "v-1" "mc-1" "0a" 0 0 "fp" "pem" "" "" 0 0.
Definition ex_store (source : string) : DB := mkDB ∅ ∅ {[ "mc-1" := ex_cert source ]} ∅ ∅ ∅ [] ∅ [].
Definition ex_db (source : string) (revs : list CertificateRevocation) : IssuanceDB :=
  mkIssuanceDB (ex_store source) ∅ {[ "iss" ]} ∅ {[ "v-1" := ex_version ]} revs ∅ ∅ [] ∅ ∅ ∅ ∅ ∅ [].
Definition ex_rev : CertificateRevocation :=
  mkRevocation "rev-1" "mc-1" "0a" "keyCompromise" "alice" 5 "iss" false 5.
Definition ex_env : Env := mkEnv 100 [] [] 0.

(** A connector whose responses spell out the status. *)
Definition ex_conn : IssuerConnector :=
  mkConnector (λ _ _ _ _ _ _ _, Err (ErrMsg "no")) (λ _ _ _ _ _ _ _, Err (ErrMsg "no")) (λ _ _ _, Ok tt)
    (λ _ l, Ok (pretty (length l)))
    (λ _ r, if bool_decide (os_CertStatus r ∈ [0; 1; 2]) then Ok (pretty (os_CertStatus r))
            else Err (ErrMsg "status"))
    (λ _ _, Ok None).
Definition ex_reg : IssuerRegistry := [("iss", ex_conn)].
Definition ex_status (der : string) : option Z :=
  snd <$> head (filter (λ p : string * Z, p.1 = der) ((λ z : Z, (pretty z, z)) <$> [0; 1; 2])).
Definition ex_ca : CAOperationsSvc := mkCaSvc true true true (Some ex_reg) true.
Definition ex_rs : RevocationSvc := mkRevocationSvc true true (Some ex_reg) true.

Lemma revocation_all_or_nothing_witness :
  let w := mkWorld (ex_db "" []) ex_env in
  let run := RevokeCertificateWithActor id ex_rs "mc-1" "superseded" "alice" w in
  fst run = Ok tt ∧
  ((w_db (snd run) = w_db w ∧ fst run ≠ Ok tt) ∨
   ∃ c v, is_certs (w_db w) !! "mc-1" = Some c ∧
     cert_Status c ∉ [CertificateStatusRevoked; CertificateStatusArchived] ∧
     CertRepo.latest (filter (λ v, cv_CertificateID v = "mc-1") (rows (is_versions (w_db w)))) = Some v ∧
     revoked_from (w_db w) (w_db (snd run)) c v).
Proof.
  split; [vm_compute; reflexivity|].
  exact (revocation_all_or_nothing id ex_rs eq_refl eq_refl "mc-1" "superseded" "alice" _).
Defined.


#[local] Instance ex_faithful : OcspFaithful ex_status ex_reg.
Proof.
  intros conn k req der [-> |[]%elem_of_nil]%elem_of_cons. cbn. case_bool_decide as H; [|done].
  intros [= <-]. repeat (apply elem_of_cons in H as [-> |H]; [vm_compute; reflexivity|]).
  by apply elem_of_nil in H.
Qed.

(** One request, one CRL and one more revocation attempt after the revocation. *)
Definition ex_ops : list (Env * serve_op) :=
  [(ex_env, SRequest "iss" "0a" ""); (ex_env, SRegenerateCRL "iss");
   (mkEnv 100 [] [FFail] 0, SRevoke "mc-1" "" "bob")].

Lemma revoked_never_good_witness :
  let w := mkWorld (ex_db "" []) ex_env in
  let w1 := snd (RevokeCertificateWithActor id ex_rs "mc-1" "superseded" "alice" w) in
  let parse := λ _ : string, Err (ErrMsg "no CRL") in
  let final := mkWorld (serve ex_ca id ex_rs parse (w_db w1) ex_ops) ex_env in
  fst (GetOCSPResponseWithNonce ex_ca "iss" "0a" "" final) = Ok "1" ∧ ex_status "1" = Some 1.
Proof.
  intros w w1 parse final.
  assert (fst (RevokeCertificateWithActor id ex_rs "mc-1" "superseded" "alice" w) = Ok tt) as Hr
    by (vm_compute; reflexivity).
  assert (fst (GetOCSPResponseWithNonce ex_ca "iss" "0a" "" final) = Ok "1") as Hg
    by (vm_compute; reflexivity).
  split; [exact Hg|].
  refine (revoked_never_good id ex_rs eq_refl eq_refl eq_refl ex_status ex_ca ex_reg parse
    "mc-1" "superseded" "alice" w w1 (ex_cert "") ex_version ex_ops ex_env "" "1"
    eq_refl eq_refl _ _ _ _ _ eq_refl Hg).
  - vm_compute. intros i x. discriminate.
  - vm_compute. reflexivity.
  - vm_compute. reflexivity.
  - unfold w1. rewrite <-Hr. apply surjective_pairing.
  - repeat constructor.
Defined.

(** The miss signs good; the certificate is revoked and the cache invalidated; the miss stores its
    answer: the next request is told good, while a request with a nonce is told revoked. *)
Lemma ocsp_put_after_revoke_witness :
  let w := mkWorld (ex_db "" []) ex_env in
  let signed := LiveSignOCSPResponse ex_ca "iss" "0a" "" w in
  let revoked := RevokeCertificateWithActor id ex_rs "mc-1" "superseded" "alice" (snd signed) in
  let d := w_db (snd revoked) in
  let stored := snd (OcspRepo.Put "iss" "0a" (mkOCSPEntry "0" "good" 100 (100 + hour) 100) (mkWorld d (mkEnv 100 [] [] 0))) in
  fst signed = Ok "0" ∧ fst revoked = Ok tt ∧
  fst (GetOCSPResponseWithNonce ex_ca "iss" "0a" "n" (mkWorld (w_db stored) (mkEnv 200 [] [] 0))) = Ok "1" ∧
  fst (GetOCSPResponseWithNonce ex_ca "iss" "0a" "" (mkWorld (w_db stored) (mkEnv 200 [] [] 0))) = Ok "0".
Proof.
  intros w signed revoked d stored.
  split; [vm_compute; reflexivity|]. split; [vm_compute; reflexivity|]. split; [vm_compute; reflexivity|].
  apply (ocsp_put_after_revoke ex_ca "iss" "0a" "0" d 100 200 0%N); [reflexivity| |vm_compute; reflexivity].
  apply (bool_decide_unpack _). vm_compute. exact I.
Defined.

Lemma ocsp_fails_open_witness :
  ∃ der k req w',
    GetOCSPResponseWithNonce ex_ca "iss" "0a" ""
      (mkWorld (ex_db "" [ex_rev]) (mkEnv 0 [] [FOk; FFail; FFail] 0)) = (Ok der, w') ∧
    ic_SignOCSPResponse ex_conn k req = Ok der ∧ os_CertStatus req = 0 ∧
    ∀ t' n', t' < 0 + hour →
      fst (GetOCSPResponseWithNonce ex_ca "iss" "0a" "" (mkWorld (w_db w') (mkEnv t' [] [] n'))) = Ok der.
Proof.
  refine (ocsp_fails_open ex_ca ex_reg ex_conn "iss" "0a" (ex_db "" [ex_rev]) 0 0%N eq_refl eq_refl
    eq_refl eq_refl eq_refl _ _ _ _ _ _).
  - vm_compute. reflexivity.
  - intros k req Hreq. cbn. by rewrite bool_decide_true.
  - vm_compute. by eexists.
  - vm_compute. by eexists.
  - vm_compute. reflexivity.
  - vm_compute. reflexivity.
Defined.

Lemma bulk_revocation_one_page_witness :
  let w := mkWorld (ex_db "" []) ex_env in
  let criteria := mkCriteria "" "o-1" "" "" "" [] "" in
  let run := BulkRevoke id ex_rs criteria "superseded" "alice" w in
  fst run = Ok (mkBulkResult 1 1 0 0 []) ∧
  br_TotalMatched (mkBulkResult 1 1 0 0 []) ≤ 50 ∧
  ∃ L : list string, (length L ≤ 50)%nat ∧
    ∀ k, k ∉ L → is_certs (w_db (snd run)) !! k = is_certs (w_db w) !! k.
Proof.
  intros w criteria run.
  assert (fst run = Ok (mkBulkResult 1 1 0 0 [])) as H by (vm_compute; reflexivity).
  split; [exact H|].
  apply (bulk_revocation_one_page id ex_rs eq_refl eq_refl criteria "superseded" "alice" w
    (mkBulkResult 1 1 0 0 []) (snd run)).
  - reflexivity.
  - apply map_Forall_singleton. reflexivity.
  - rewrite <-H. apply surjective_pairing.
Defined.

(** The EST bulk endpoint pins the source to EST so that it never revokes other certificates,
    but with explicit ids the source is not looked at: a certificate that came through ACME is
    revoked. *)
Example est_bulk_revokes_other_sources :
  let run := BulkRevoke id ex_rs (mkCriteria "" "" "" "" "" ["mc-1"] "EST") "superseded" "alice"
               (mkWorld (ex_db CertificateSourceACME []) ex_env) in
  fst run = Ok (mkBulkResult 1 1 0 0 []) ∧
  (cert_Status <$> is_certs (w_db (snd run)) !! "mc-1") = Some CertificateStatusRevoked ∧
  (cert_Source <$> is_certs (w_db (snd run)) !! "mc-1") = Some CertificateSourceACME.
Proof. vm_compute. done. Qed.
