(* ===== verification/Acme.v ===== *)
(** * The ACME server (src/internal/repository/postgres/acme.go, service/acme.go,
      acme_nonces.go, acme_orders.go, acme_authz.go, acme_challenges.go, acme_gc.go)

    [Module AcmeRepo] is the persistence layer: nonces, accounts, orders, authorizations and
    challenges, with the constraints of migration 000025.  [Module AcmeService] is the service:
    accounts and key rollover, orders from creation to finalisation, challenges, revocation,
    renewal information and the collector.  Operations named [...WithTx] run inside a
    transaction; reads go through the pool also while one is open, as the code does.  JSON
    columns hold the values they decode to.  The token buckets of the rate limiter count in
    floating point and appear as their answers. *)

From Stdlib Require Import ZArith Lia Ascii String.
From stdpp Require Import prelude gmap strings list sorting pretty.
From S2P Require Import Prelude AuditTrail Store Transactions Approval GoBytes KeyCrypto AcmeWire.
From S2P Require Import CertStore Revocation.
Import Text Problems Orders Keys Jws.

(** ** repository/postgres/acme.go *)
Module AcmeRepo.
Definition ErrACMEAccountDuplicateThumbprint := ErrSentinel
  "acme: account already exists for this profile + JWK thumbprint".
Definition ErrACMEAccountKeyConcurrentUpdate := ErrSentinel
  "acme: account key was rotated concurrently; re-fetch and retry".

(** A table lookup that reports a missing row. *)
Definition found {A} (what : string) (r : res (option A)) : res A :=
  match r with
  | Err e => Err e
  | Ok None => Err (ErrWrap (what +:+ " not found") repo_ErrNotFound)
  | Ok (Some a) => Ok a
  end.

Definition IssueNonce (nonce : string) (ttl : Z) : M IssuanceDB (res unit) :=
  t ← now;
  issued ← now;
  sql_exec "acme: insert nonce" (λ d,
    match is_nonces d !! nonce with
    | Some _ => (Err (ErrWrap "acme: insert nonce" (ErrMsg "duplicate key")), d)
    | None => (Ok tt, set_nonces (<[nonce := mkNonce issued (t + ttl) false]>) d)
    end).

(** [WHERE nonce = $1 AND used = FALSE AND expires_at > NOW()]. *)
Definition nonce_live (t : Z) (n : ACMENonce) : bool := negb (nc_Used n) && (t <? nc_ExpiresAt n).

Definition ConsumeNonce (nonce : string) : M IssuanceDB (res unit) :=
  t ← now;
  sql_exec "acme: consume nonce" (λ d,
    match is_nonces d !! nonce with
    | Some n =>
        if nonce_live t n
        then (Ok tt, set_nonces (<[nonce := mkNonce (nc_IssuedAt n) (nc_ExpiresAt n) true]>) d)
        else (Err sql_ErrNoRows, d)
    | None => (Err sql_ErrNoRows, d)
    end).

(** *** Accounts *)
Definition same_key (profileID thumbprint : string) (a : ACMEAccount) : bool :=
  bool_decide (acc_ProfileID a = profileID) && bool_decide (acc_JWKThumbprint a = thumbprint).

Definition with_times (status : string) (created updated : Z) (a : ACMEAccount) : ACMEAccount :=
  mkAccount (acc_ID a) (acc_JWKThumbprint a) (acc_JWKPEM a) (acc_Contact a) status (acc_ProfileID a)
    (acc_OwnerID a) created updated.

(** The row as it is inserted comes back in [acct]. *)
Definition CreateAccountWithTx (acct : ACMEAccount) : M (Txn IssuanceDB) (res ACMEAccount) :=
  if bool_decide (acc_ID acct = "") || bool_decide (acc_JWKThumbprint acct = "") ||
     bool_decide (acc_JWKPEM acct = "") || bool_decide (acc_ProfileID acct = "")
  then mret (Err (ErrMsg "acme: create account: missing required field")) else
  t ← now;
  let acct := with_times
    (if bool_decide (acc_Status acct = "") then ACMEAccountStatusValid else acc_Status acct)
    (if acc_CreatedAt acct =? Ari.zero_time then t else acc_CreatedAt acct) t acct in
  tx_exec "acme: insert account" (λ d,
    if bool_decide (is_Some (is_accounts d !! acc_ID acct)) ||
       existsb (same_key (acc_ProfileID acct) (acc_JWKThumbprint acct)) (rows (is_accounts d))
    then (Err ErrACMEAccountDuplicateThumbprint, d)
    else if bool_decide (is_Some (db_profiles (is_store d) !! acc_ProfileID acct)) &&
            (bool_decide (acc_OwnerID acct = "") ||
             bool_decide (is_Some (db_owners (is_store d) !! acc_OwnerID acct)))
    then (Ok acct, set_accounts (<[acc_ID acct := acct]>) d)
    else (Err (ErrWrap "acme: insert account" (ErrMsg "foreign key constraint")), d)).

Definition GetAccountByID (accountID : string) : M IssuanceDB (res ACMEAccount) :=
  r ← sql_query "acme: scan account" (λ d, is_accounts d !! accountID);
  mret (found "account" r).

Definition GetAccountByThumbprint (profileID thumbprint : string) : M IssuanceDB (res ACMEAccount) :=
  r ← sql_query "acme: scan account" (λ d,
        head (filter (λ a, same_key profileID thumbprint a = true) (rows (is_accounts d))));
  mret (found "account" r).

(** An UPDATE of one account row. *)
Definition update_account (op accountID : string) (f : ACMEAccount → ACMEAccount)
    : M (Txn IssuanceDB) (res unit) :=
  tx_exec op (λ d,
    match is_accounts d !! accountID with
    | None => (Err (ErrWrap "account not found" repo_ErrNotFound), d)
    | Some a => (Ok tt, set_accounts (<[accountID := f a]>) d)
    end).

Definition UpdateAccountContactWithTx (accountID : string) (contact : list string)
    : M (Txn IssuanceDB) (res unit) :=
  t ← now;
  update_account "acme: update account contact" accountID (λ a,
    mkAccount (acc_ID a) (acc_JWKThumbprint a) (acc_JWKPEM a) contact (acc_Status a)
      (acc_ProfileID a) (acc_OwnerID a) (acc_CreatedAt a) t).

Definition UpdateAccountStatusWithTx (accountID status : string) : M (Txn IssuanceDB) (res unit) :=
  t ← now;
  update_account "acme: update account status" accountID (λ a,
    with_times status (acc_CreatedAt a) t a).

Definition with_key (thumbprint pem : string) (t : Z) (a : ACMEAccount) : ACMEAccount :=
  mkAccount (acc_ID a) thumbprint pem (acc_Contact a) (acc_Status a) (acc_ProfileID a)
    (acc_OwnerID a) (acc_CreatedAt a) t.

(** SELECT ... FOR UPDATE, the precondition, then the UPDATE with its unique constraint. *)
Definition UpdateAccountJWKWithTx (accountID expectedOldThumbprint newThumbprint newJWKPEM : string)
    : M (Txn IssuanceDB) (res unit) :=
  q ← tx_query "acme: lock account for key rollover" (λ d, acc_JWKThumbprint <$> is_accounts d !! accountID);
  match found "account" q with
  | Err e => mret (Err e)
  | Ok current =>
      if negb (bool_decide (current = expectedOldThumbprint))
      then mret (Err ErrACMEAccountKeyConcurrentUpdate) else
      t ← now;
      tx_exec "acme: update account jwk" (λ d,
        match is_accounts d !! accountID with
        | Some a =>
            if negb (bool_decide (acc_JWKThumbprint a = expectedOldThumbprint))
            then (Err ErrACMEAccountKeyConcurrentUpdate, d)
            else if existsb (λ b, same_key (acc_ProfileID a) newThumbprint b &&
                                  negb (bool_decide (acc_ID b = accountID))) (rows (is_accounts d))
            then (Err ErrACMEAccountDuplicateThumbprint, d)
            else (Ok tt, set_accounts (<[accountID := with_key newThumbprint newJWKPEM t a]>) d)
        | None => (Err ErrACMEAccountKeyConcurrentUpdate, d)
        end)
  end.

(** *** Orders *)
Definition order_updated (t : Z) (o : ACMEOrder) : ACMEOrder :=
  mkOrder (ord_ID o) (ord_AccountID o) (ord_Identifiers o) (ord_Status o) (ord_ExpiresAt o)
    (ord_NotBefore o) (ord_NotAfter o) (ord_Error o) (ord_CSRPEM o) (ord_CertificateID o)
    (ord_CreatedAt o) t.

(** An empty certificate id is NULL. *)
Definition cert_ref_ok (d : IssuanceDB) (id : string) : bool :=
  bool_decide (id = "") || bool_decide (is_Some (is_certs d !! id)).

(** The caller has set [CreatedAt]. *)
Definition CreateOrderWithTx (order : ACMEOrder) : M (Txn IssuanceDB) (res ACMEOrder) :=
  if bool_decide (ord_ID order = "") || bool_decide (ord_AccountID order = "")
  then mret (Err (ErrMsg "acme: create order: missing required field")) else
  t ← now;
  let order := order_updated t order in
  tx_exec "acme: insert order" (λ d,
    if bool_decide (is_orders d !! ord_ID order = None) &&
       bool_decide (is_Some (is_accounts d !! ord_AccountID order)) &&
       cert_ref_ok d (ord_CertificateID order)
    then (Ok order, set_orders (<[ord_ID order := order]>) d)
    else (Err (ErrWrap "acme: insert order" (ErrMsg "constraint violation")), d)).

Definition GetOrderByID (orderID : string) : M IssuanceDB (res ACMEOrder) :=
  r ← sql_query "acme: scan order" (λ d, is_orders d !! orderID);
  mret (found "order" r).

(** The mutable columns of a row, taken from [o]. *)
Definition order_set (o row : ACMEOrder) : ACMEOrder :=
  mkOrder (ord_ID row) (ord_AccountID row) (ord_Identifiers row) (ord_Status o) (ord_ExpiresAt row)
    (ord_NotBefore row) (ord_NotAfter row) (ord_Error o) (ord_CSRPEM o) (ord_CertificateID o)
    (ord_CreatedAt row) (ord_UpdatedAt o).

Definition UpdateOrderWithTx (order : ACMEOrder) : M (Txn IssuanceDB) (res ACMEOrder) :=
  t ← now;
  let order := order_updated t order in
  tx_exec "acme: update order" (λ d,
    match is_orders d !! ord_ID order with
    | None => (Err (ErrWrap "order not found" repo_ErrNotFound), d)
    | Some row =>
        if cert_ref_ok d (ord_CertificateID order)
        then (Ok order, set_orders (<[ord_ID order := order_set order row]>) d)
        else (Err (ErrWrap "acme: update order" (ErrMsg "foreign key constraint")), d)
    end).

(** *** Authorizations and challenges *)
Definition CreateAuthzWithTx (authz : ACMEAuthorization) : M (Txn IssuanceDB) (res unit) :=
  if bool_decide (az_ID authz = "") || bool_decide (az_OrderID authz = "")
  then mret (Err (ErrMsg "acme: create authz: missing required field")) else
  t ← now;
  let authz := mkAuthz (az_ID authz) (az_OrderID authz) (az_Identifier authz) (az_Status authz)
    (az_ExpiresAt authz) (az_Wildcard authz) (az_CreatedAt authz) t in
  tx_exec "acme: insert authz" (λ d,
    if bool_decide (is_authzs d !! az_ID authz = None) &&
       bool_decide (is_Some (is_orders d !! az_OrderID authz))
    then (Ok tt, set_authzs (<[az_ID authz := authz]>) d)
    else (Err (ErrWrap "acme: insert authz" (ErrMsg "constraint violation")), d)).

Definition ListChallengesByAuthz (authzID : string) : M IssuanceDB (res (list ACMEChallenge)) :=
  sql_query "acme: list challenges" (λ d,
    merge_sort (asc ch_CreatedAt) (filter (λ c, ch_AuthzID c = authzID) (rows (is_challenges d)))).

(** The row with its challenges. *)
Definition GetAuthzByID (authzID : string) : M IssuanceDB (res (ACMEAuthorization * list ACMEChallenge)) :=
  r ← sql_query "acme: scan authz" (λ d, is_authzs d !! authzID);
  match found "authz" r with
  | Err e => mret (Err e)
  | Ok authz =>
      c ← ListChallengesByAuthz authzID;
      mret match c with
           | Err e => Err (ErrWrap "acme: list challenges" e)
           | Ok chs => Ok (authz, chs)
           end
  end.

Definition ListAuthzsByOrder (orderID : string) : M IssuanceDB (res (list ACMEAuthorization)) :=
  sql_query "acme: list authzs" (λ d,
    merge_sort (asc az_CreatedAt) (filter (λ a, az_OrderID a = orderID) (rows (is_authzs d)))).

(** The caller has set [CreatedAt]. *)
Definition CreateChallengeWithTx (ch : ACMEChallenge) : M (Txn IssuanceDB) (res unit) :=
  if bool_decide (ch_ID ch = "") || bool_decide (ch_AuthzID ch = "") ||
     bool_decide (ch_Type ch = "") || bool_decide (ch_Token ch = "")
  then mret (Err (ErrMsg "acme: create challenge: missing required field")) else
  tx_exec "acme: insert challenge" (λ d,
    if bool_decide (is_challenges d !! ch_ID ch = None) &&
       bool_decide (is_Some (is_authzs d !! ch_AuthzID ch))
    then (Ok tt, set_challenges (<[ch_ID ch := ch]>) d)
    else (Err (ErrWrap "acme: insert challenge" (ErrMsg "constraint violation")), d)).

Definition GetChallengeByID (challengeID : string) : M IssuanceDB (res ACMEChallenge) :=
  r ← sql_query "acme: scan challenge" (λ d, is_challenges d !! challengeID);
  mret (found "challenge" r).

Definition challenge_set (ch row : ACMEChallenge) : ACMEChallenge :=
  mkChallenge (ch_ID row) (ch_AuthzID row) (ch_Type row) (ch_Status ch) (ch_Token row)
    (ch_ValidatedAt ch) (ch_Error ch) (ch_CreatedAt row).

Definition UpdateChallengeWithTx (ch : ACMEChallenge) : M (Txn IssuanceDB) (res unit) :=
  tx_exec "acme: update challenge" (λ d,
    match is_challenges d !! ch_ID ch with
    | None => (Err (ErrWrap "challenge not found" repo_ErrNotFound), d)
    | Some row => (Ok tt, set_challenges (<[ch_ID ch := challenge_set ch row]>) d)
    end).

Definition authz_status (status : string) (t : Z) (a : ACMEAuthorization) : ACMEAuthorization :=
  mkAuthz (az_ID a) (az_OrderID a) (az_Identifier a) status (az_ExpiresAt a) (az_Wildcard a)
    (az_CreatedAt a) t.

Definition UpdateAuthzStatusWithTx (authzID status : string) : M (Txn IssuanceDB) (res unit) :=
  t ← now;
  tx_exec "acme: update authz status" (λ d,
    match is_authzs d !! authzID with
    | None => (Err (ErrWrap "authz not found" repo_ErrNotFound), d)
    | Some a => (Ok tt, set_authzs (<[authzID := authz_status status t a]>) d)
    end).

(** *** Ownership, quotas and collection *)
Definition AccountOwnsCertificate (accountID certificateID : string) : M IssuanceDB (res bool) :=
  if bool_decide (accountID = "") || bool_decide (certificateID = "") then mret (Ok false) else
  sql_query "acme: account-owns-certificate" (λ d,
    existsb (λ o, bool_decide (ord_AccountID o = accountID) && bool_decide (ord_CertificateID o = certificateID))
      (rows (is_orders d))).

Definition active_status (s : string) : bool :=
  bool_decide (s ∈ [ACMEOrderStatusPending; ACMEOrderStatusReady; ACMEOrderStatusProcessing]).

Definition CountActiveOrdersByAccount (accountID : string) : M IssuanceDB (res Z) :=
  sql_query "acme: count active orders" (λ d,
    Z.of_nat (length (filter (λ o, ord_AccountID o = accountID ∧ active_status (ord_Status o) = true)
                        (rows (is_orders d))))).

(** The number of rows affected is only counted. *)
Definition GCExpiredNonces : M IssuanceDB (res unit) :=
  t ← now;
  sql_exec "acme: gc expired nonces" (λ d,
    (Ok tt, set_nonces (filter (λ kn, negb (nc_Used kn.2 || (nc_ExpiresAt kn.2 <? t)) = true)) d)).

Definition GCExpireAuthorizations : M IssuanceDB (res unit) :=
  t ← now;
  sql_exec "acme: gc expire authorizations" (λ d,
    (Ok tt, set_authzs (fmap (λ a,
       if bool_decide (az_Status a = ACMEAuthzStatusPending) && (az_ExpiresAt a <? t)
       then authz_status ACMEAuthzStatusExpired t a else a)) d)).

Definition expired_problem : ACMEProblem :=
  mkACMEProblem "urn:ietf:params:acme:error:serverInternal" "order expired before issuance" 500.

Definition GCInvalidateExpiredOrders : M IssuanceDB (res unit) :=
  t ← now;
  sql_exec "acme: gc invalidate expired orders" (λ d,
    (Ok tt, set_orders (fmap (λ o,
       if active_status (ord_Status o) && (ord_ExpiresAt o <? t)
       then mkOrder (ord_ID o) (ord_AccountID o) (ord_Identifiers o) ACMEOrderStatusInvalid
              (ord_ExpiresAt o) (ord_NotBefore o) (ord_NotAfter o) (Some expired_problem) (ord_CSRPEM o)
              (ord_CertificateID o) (ord_CreatedAt o) t
       else o)) d)).
End AcmeRepo.


(** ** service/acme.go and its siblings *)
Module AcmeService.
Definition ErrACMEUserActionRequired := ErrSentinel
  "acme: default profile not configured; use /acme/profile/<id>/*".
Definition ErrACMEProfileNotFound := ErrSentinel "acme: profile not found".
Definition ErrACMEAccountNotFound := ErrSentinel "acme: account not found".
Definition ErrACMEAccountDoesNotExist := ErrSentinel "acme: account does not exist for this JWK".
Definition ErrACMEOrderNotFound := ErrSentinel "acme: order not found".
Definition ErrACMEAuthzNotFound := ErrSentinel "acme: authz not found".
Definition ErrACMECertificateNotFound := ErrSentinel "acme: certificate not found".
Definition ErrACMEOrderNotReady := ErrSentinel "acme: order not in ready state".
Definition ErrACMEOrderUnauthorized := ErrSentinel "acme: account does not own this resource".
Definition ErrACMEFinalizeUnconfigured := ErrSentinel
  "acme: finalize pipeline not wired (call SetIssuancePipeline)".
Definition ErrACMEUnsupportedAuthMode := ErrSentinel "acme: unsupported auth mode on profile".
Definition ErrACMEChallengeNotFound := ErrSentinel "acme: challenge not found".
Definition ErrACMEChallengePoolUnconfigured := ErrSentinel
  "acme: validator pool not wired (call SetValidatorPool)".
Definition ErrACMERevocationUnconfigured := ErrSentinel
  "acme: revocation delegate not wired (call SetRevocationDelegate)".
Definition ErrACMEKeyRolloverConcurrent := ErrSentinel
  "acme: account key was rotated concurrently; retry".
Definition ErrACMEKeyRolloverDuplicateKey := ErrSentinel
  "acme: new account key already registered against this profile".
Definition ErrACMERevocationCertNotFound := ErrSentinel
  "acme: revocation target certificate not found".
Definition ErrACMERevocationUnauthorized := ErrSentinel
  "acme: account or signing key does not authorize revocation of this certificate".
Definition ErrACMERevocationAlreadyRevoked := ErrSentinel "acme: certificate is already revoked".
Definition ErrACMERevocationBadCSR := ErrSentinel
  "acme: revoke-cert payload `certificate` is malformed".
Definition ErrACMEARIDisabled := ErrSentinel "acme: ARI is disabled on this server".
Definition ErrACMEARIBadCertID := ErrSentinel "acme: ARI cert-id is malformed".
Definition ErrACMERateLimited := ErrSentinel "acme: rate limit exceeded".
Definition ErrACMEConcurrentOrdersExceeded := ErrSentinel "acme: concurrent orders limit exceeded".

(** The fields of config.ACMEServerConfig the service reads. *)
Record ACMEServerConfig := mkACMEConfig {
  ac_DefaultAuthMode : string;
  ac_DefaultProfileID : string;
  ac_NonceTTL : Z;
  ac_OrderTTL : Z;
  ac_AuthzTTL : Z;
  ac_ARIEnabled : bool;
  ac_ARIPollInterval : Z;
  ac_RateLimitOrdersPerHour : Z;
  ac_RateLimitConcurrentOrders : Z;
  ac_RateLimitKeyChangePerHour : Z;
  ac_RateLimitChallengeRespondsPerHour : Z
}.

(** [as_wired]: a transactor and the audit service.  [as_issuance]: the certificate service,
    its repository and the issuer registry, which are wired together.  [as_rateLimiter] gives
    the answers of the token buckets to (action, key, limit). *)
Record ACMEService := mkACMEService {
  as_cfg : ACMEServerConfig;
  as_wired : bool;
  as_issuance : option IssuerRegistry;
  as_validatorPool : bool;
  as_revoker : option RevocationService.RevocationSvc;
  as_renewalPolicies : bool;
  as_rateLimiter : option (N → string → string → Z → bool)
}.

(** api/acme/ratelimit.go *)
Definition ActionNewOrder : string := "new_order".
Definition ActionKeyChange : string := "key_change".
Definition ActionChallengeRespond : string := "challenge_respond".

Definition acme_actor (accountID : string) : string := "acme:" +:+ accountID.

(** *** Identifiers of new rows (acme_orders.go) *)
Definition base32_alphabet : string := "0123456789abcdefghjkmnpqrstvwxyz".
Definition alpha_at (i : Z) : ascii := default "0"%char (String.get (Z.to_nat i) base32_alphabet).

(** The inner loop: emit while five bits are buffered; at most twelve are. *)
Fixpoint b32_drain (fuel : nat) (buf bits : Z) (out : string) : Z * string :=
  match fuel with
  | O => (bits, out)
  | S f =>
      if 5 <=? bits
      then b32_drain f buf (bits - 5)
             (out +:+ String (alpha_at (Z.land (Z.shiftr buf (bits - 5)) 31)) "")
      else (bits, out)
  end.

Fixpoint b32_bytes (l : list Z) (buf bits : Z) (out : string) : Z * Z * string :=
  match l with
  | [] => (buf, bits, out)
  | c :: l' =>
      let buf := Z.lor (Z.shiftl buf 8 mod 2 ^ 64) c in
      let '(bits, out) := b32_drain 3 buf (bits + 8) out in
      b32_bytes l' buf bits out
  end.

Definition base32encode (b : string) : string :=
  let '(buf, bits, out) := b32_bytes (bytes_of b) 0 0 "" in
  if 0 <? bits
  then out +:+ String (alpha_at (Z.land (Z.shiftl buf (5 - bits) mod 2 ^ 64) 31)) ""
  else out.

Example base32encode_vec : base32encode "helloworld" = "d1jprv3fexqq4v34".
Proof. vm_compute. reflexivity. Qed.

(** The panic on a failing random source is an error. *)
Definition randIDSuffix `{Entropy} {D} : M D (res string) :=
  b ← readRand 10;
  mret match b with Err e => Err e | Ok s => Ok (base32encode s) end.

Definition identifierStrings (ids : list ACMEIdentifier) : list string := ident_Value <$> ids.

Definition mapACMERevocationReason (code : Z) : string :=
  match code with
  | 0 => RevocationReasonUnspecified
  | 1 => RevocationReasonKeyCompromise
  | 2 => RevocationReasonCACompromise
  | 3 => RevocationReasonAffiliationChanged
  | 4 => RevocationReasonSuperseded
  | 5 => RevocationReasonCessationOfOperation
  | 6 => RevocationReasonCertificateHold
  | 9 => RevocationReasonPrivilegeWithdrawn
  | _ => RevocationReasonUnspecified
  end.

Section service.
Context `{RT : GoRuntime, J : Jose, E : Entropy}.
Variable s : ACMEService.
(** [uuid.New], the policy engine, [x509.ParseCertificate] (the serial number and the public
    key as a JWK), and the key a range over the issuer map yields first. *)
Variable uuid_New : N → string.
Variable ValidateCertificate : ManagedCertificate → IssuanceDB → res (list (string * string)).
Variable ParseCertificate : string → res (Z * JWK).
Variable first_key : N → nat.

Notation cfg := (as_cfg s).

(** The audit row of a transaction. *)
Definition acme_audit (accountID action resourceType resourceID : string) (det : details)
    : M (Txn IssuanceDB) (res unit) :=
  RecordEvent ToLower (acme_actor accountID) ActorTypeUser action resourceType resourceID det.

(** A repository error the client sees as [sentinel] when the row is missing. *)
Definition not_found_as {A} (sentinel : error) (ctx : string) (r : res A) : res A :=
  match r with
  | Err e => Err (if errors_Is e repo_ErrNotFound then sentinel else ErrWrap ctx e)
  | Ok a => Ok a
  end.

Definition profiles_Get (id : string) : M IssuanceDB (res CertificateProfile) :=
  on_store (ProfileRepo.ProfileRepository_Get id).

Definition resolveProfile (profileID : string) : M IssuanceDB (res string) :=
  if bool_decide (profileID = "") && bool_decide (ac_DefaultProfileID cfg = "")
  then mret (Err ErrACMEUserActionRequired) else
  let profileID := if bool_decide (profileID = "") then ac_DefaultProfileID cfg else profileID in
  r ← profiles_Get profileID;
  mret match not_found_as ErrACMEProfileNotFound "acme: lookup profile" r with
       | Err e => Err e
       | Ok _ => Ok profileID
       end.

(** [true] when the call is refused. *)
Definition rate_limited (action key : string) (limit : Z) : M IssuanceDB bool :=
  match as_rateLimiter s with
  | Some allow => if 0 <? limit then call (λ k, negb (allow k action key limit)) else mret false
  | None => mret false
  end.

(** *** acme_nonces.go *)
Definition IssueNonce : M IssuanceDB (res string) :=
  g ← GenerateNonce;
  match g with
  | Err e => mret (Err (ErrWrap "acme: generate nonce" e))
  | Ok nonce =>
      r ← AcmeRepo.IssueNonce nonce (ac_NonceTTL cfg);
      mret match r with
           | Err e => Err (ErrWrap "acme: persist nonce" e)
           | Ok _ => Ok nonce
           end
  end.

(** *** The verifier over the repository *)
Definition accountAdapter (accountID : string) : M IssuanceDB (res ACMEAccount) :=
  r ← AcmeRepo.GetAccountByID accountID;
  mret (not_found_as ErrJWSAccountNotFound "acme: lookup account" r).

Definition VerifyJWS (body requestURL : string) (expectNewAccount : bool)
    (accountKID : option (string → string)) : M IssuanceDB (res VerifiedRequest) :=
  Jws.VerifyJWS (mkVerifierConfig accountAdapter AcmeRepo.ConsumeNonce accountKID)
    body requestURL expectNewAccount.

(** *** Accounts *)
Definition create_account (acct : ACMEAccount) (det : details) : M IssuanceDB (res ACMEAccount) :=
  WithinTx (
    r ← AcmeRepo.CreateAccountWithTx acct;
    match r with
    | Err e => mret (Err (ErrWrap "acme: create account" e))
    | Ok acct =>
        a ← acme_audit (acc_ID acct) "acme_account_created" "acme_account" (acc_ID acct) det;
        mret match a with Err e => Err e | Ok _ => Ok acct end
    end).

(** The boolean says whether the account is new. *)
Definition NewAccount (profileID : string) (jwk : JWK) (contact : list string)
    (onlyReturnExisting tosAgreed : bool) : M IssuanceDB (res (ACMEAccount * bool)) :=
  if negb (as_wired s)
  then mret (Err (ErrMsg "acme: new-account requires SetTransactor + SetAuditService")) else
  p ← resolveProfile profileID;
  match p with
  | Err e => mret (Err e)
  | Ok profileID =>
      match JWKThumbprint jwk with
      | Err e => mret (Err (ErrWrap "acme: thumbprint" e))
      | Ok thumb =>
          x ← AcmeRepo.GetAccountByThumbprint profileID thumb;
          match x with
          | Ok existing => mret (Ok (existing, false))
          | Err e =>
              if negb (errors_Is e repo_ErrNotFound)
              then mret (Err (ErrWrap "acme: lookup-by-thumbprint" e)) else
              if onlyReturnExisting then mret (Err ErrACMEAccountDoesNotExist) else
              match JWKToPEM jwk with
              | Err e => mret (Err (ErrWrap "acme: serialize jwk" e))
              | Ok jwkPEM =>
                  c ← create_account
                        (mkAccount (AccountID thumb) thumb jwkPEM contact ACMEAccountStatusValid
                           profileID "" Ari.zero_time Ari.zero_time)
                        [("profile_id", GStr profileID); ("jwk_thumbprint", GStr thumb);
                         ("contact_count", GInt (Z.of_nat (length contact)));
                         ("tos_agreed", GBool tosAgreed)];
                  mret match c with Err e => Err e | Ok acct => Ok (acct, true) end
              end
          end
      end
  end.

Definition LookupAccount (accountID : string) : M IssuanceDB (res ACMEAccount) :=
  r ← AcmeRepo.GetAccountByID accountID;
  mret (not_found_as ErrACMEAccountNotFound "acme: lookup account" r).

(** A row update with its audit row, then the row as it is. *)
Definition change_account (accountID action : string) (upd : M (Txn IssuanceDB) (res unit))
    (det : details) : M IssuanceDB (res ACMEAccount) :=
  r ← WithinTx (
        u ← upd;
        match u with
        | Err e => mret (Err e)
        | Ok _ => acme_audit accountID action "acme_account" accountID det
        end);
  match r with
  | Err e => mret (Err e)
  | Ok _ => LookupAccount accountID
  end.

Definition UpdateAccount (accountID : string) (contact : list string) : M IssuanceDB (res ACMEAccount) :=
  if negb (as_wired s)
  then mret (Err (ErrMsg "acme: update-account requires SetTransactor + SetAuditService")) else
  change_account accountID "acme_account_updated"
    (AcmeRepo.UpdateAccountContactWithTx accountID contact)
    [("account_id", GStr accountID); ("contact_count", GInt (Z.of_nat (length contact)))].

Definition DeactivateAccount (accountID : string) : M IssuanceDB (res ACMEAccount) :=
  if negb (as_wired s)
  then mret (Err (ErrMsg "acme: deactivate-account requires SetTransactor + SetAuditService")) else
  change_account accountID "acme_account_deactivated"
    (AcmeRepo.UpdateAccountStatusWithTx accountID ACMEAccountStatusDeactivated)
    [("account_id", GStr accountID); ("new_status", GStr ACMEAccountStatusDeactivated)].

(** *** Key rollover *)
Definition swap_key (old : ACMEAccount) (newThumbprint newJWKPEM : string) : M IssuanceDB (res unit) :=
  WithinTx (
    u ← AcmeRepo.UpdateAccountJWKWithTx (acc_ID old) (acc_JWKThumbprint old) newThumbprint newJWKPEM;
    match u with
    | Err e => mret (Err e)
    | Ok _ =>
        acme_audit (acc_ID old) "acme_account_key_rolled" "acme_account" (acc_ID old)
          [("old_thumbprint", GStr (acc_JWKThumbprint old)); ("new_thumbprint", GStr newThumbprint);
           ("profile_id", GStr (acc_ProfileID old))]
    end).

(** Sentinels of the repository are recognised by their text. *)
Definition rollover_error (e : error) : error :=
  if Contains (Error e) "rotated concurrently" then ErrACMEKeyRolloverConcurrent else
  if Contains (Error e) "already exists for this profile" then ErrACMEKeyRolloverDuplicateKey else e.

(** The handlers pass an account and a key. *)
Definition RotateAccountKey (old : ACMEAccount) (newJWK : JWK) : M IssuanceDB (res ACMEAccount) :=
  if negb (as_wired s)
  then mret (Err (ErrMsg "acme: key rollover requires SetTransactor + SetAuditService")) else
  limited ← rate_limited ActionKeyChange (acc_ID old) (ac_RateLimitKeyChangePerHour cfg);
  if (limited : bool) then mret (Err ErrACMERateLimited) else
  match JWKThumbprint newJWK, JWKToPEM newJWK with
  | Err e, _ => mret (Err (ErrWrap "acme: thumbprint new jwk" e))
  | _, Err e => mret (Err (ErrWrap "acme: serialize new jwk" e))
  | Ok newThumbprint, Ok newJWKPEM =>
      x ← AcmeRepo.GetAccountByThumbprint (acc_ProfileID old) newThumbprint;
      match x with
      | Ok _ => mret (Err ErrACMEKeyRolloverDuplicateKey)
      | Err e =>
          if negb (errors_Is e repo_ErrNotFound)
          then mret (Err (ErrWrap "acme: lookup new jwk thumbprint" e)) else
          r ← swap_key old newThumbprint newJWKPEM;
          match r with
          | Err e => mret (Err (rollover_error e))
          | Ok _ => t ← now; mret (Ok (AcmeRepo.with_key newThumbprint newJWKPEM t old))
          end
      end
  end.

(** *** Revocation and renewal information *)
Definition firstAvailableIssuer : M IssuanceDB (option (string * IssuerConnector)) :=
  match as_issuance s with
  | None => mret None
  | Some reg => call (λ k, reg !! (first_key k mod length reg)%nat)
  end.

(** The version and the certificate with a serial number under an issuer. *)
Definition find_by_serial (issuerID serialHex : string)
    : M IssuanceDB (option (CertificateVersion * ManagedCertificate)) :=
  v ← CertRepo.GetVersionBySerial issuerID serialHex;
  match v with
  | Err _ => mret None
  | Ok version =>
      c ← CertRepo.Get (cv_CertificateID version);
      mret match c with Err _ => None | Ok cert => Some (version, cert) end
  end.

(** The actor on whose authority the certificate is revoked. *)
Definition revocation_actor (verified : VerifiedRequest) (certKey : JWK) (serialHex certID : string)
    : M IssuanceDB (res string) :=
  match vr_Account verified, vr_JWK verified with
  | Some acct, _ =>
      o ← AcmeRepo.AccountOwnsCertificate (acc_ID acct) certID;
      mret match o with
           | Err e => Err (ErrWrap "acme: revoke-cert ownership lookup" e)
           | Ok false => Err ErrACMERevocationUnauthorized
           | Ok true => Ok (acme_actor (acc_ID acct))
           end
  | None, Some jwk =>
      mret match jwksThumbprintEqual (Some jwk) (Some certKey) with
           | Err e => Err (ErrWrap "acme: revoke-cert key compare" e)
           | Ok false => Err ErrACMERevocationUnauthorized
           | Ok true => Ok ("acme-cert-key:" +:+ serialHex)
           end
  | None, None => mret (Err ErrACMERevocationUnauthorized)
  end.

Definition RevokeCert (verified : VerifiedRequest) (certDER : string) (reasonCode : Z)
    : M IssuanceDB (res unit) :=
  match as_revoker s, as_issuance s with
  | None, _ => mret (Err ErrACMERevocationUnconfigured)
  | _, None => mret (Err (ErrMsg "acme: revoke-cert requires SetIssuancePipeline (no certRepo wired)"))
  | Some revoker, Some _ =>
      match ParseCertificate certDER with
      | Err _ => mret (Err ErrACMERevocationBadCSR)
      | Ok (serial, certKey) =>
          i ← firstAvailableIssuer;
          match i with
          | None => mret (Err ErrACMERevocationCertNotFound)
          | Some (issuerID, _) =>
              let serialHex := ToLower (Text16 serial) in
              f ← find_by_serial issuerID serialHex;
              match f with
              | None => mret (Err ErrACMERevocationCertNotFound)
              | Some (_, cert) =>
                  if bool_decide (cert_Status cert = CertificateStatusRevoked)
                  then mret (Err ErrACMERevocationAlreadyRevoked) else
                  a ← revocation_actor verified certKey serialHex (cert_ID cert);
                  match a with
                  | Err e => mret (Err e)
                  | Ok actor =>
                      r ← RevocationService.RevokeCertificateWithActor ToLower revoker (cert_ID cert)
                            (mapACMERevocationReason reasonCode) actor;
                      mret match r with
                           | Ok _ => Ok tt
                           | Err e => Err (if Contains (Error e) "already revoked"
                                           then ErrACMERevocationAlreadyRevoked
                                           else ErrWrap "acme: revoke pipeline" e)
                           end
                  end
              end
          end
      end
  end.

(** [renewalPolicies.Get], of which the window in days is used. *)
Definition renewal_window_days (policyID : string) : M IssuanceDB (option Z) :=
  if as_renewalPolicies s && negb (bool_decide (policyID = "")) then
    p ← sql_query "failed to query renewal policy" (λ d, is_policies d !! policyID);
    mret match p with Ok (Some policy) => Some (rp_RenewalWindowDays policy) | _ => None end
  else mret None.

(** The suggested window and the delay before the next poll. *)
Definition RenewalInfo (profileID certID : string) : M IssuanceDB (res (Z * Z * Z)) :=
  if negb (ac_ARIEnabled cfg) then mret (Err ErrACMEARIDisabled) else
  p ← resolveProfile profileID;
  match p with
  | Err e => mret (Err e)
  | Ok _ =>
      match Ari.ParseARICertID certID with
      | Err _ => mret (Err ErrACMEARIBadCertID)
      | Ok parsed =>
          i ← firstAvailableIssuer;
          match i with
          | None => mret (Err ErrACMECertificateNotFound)
          | Some (issuerID, _) =>
              f ← find_by_serial issuerID (Ari.SerialHex parsed);
              match f with
              | None => mret (Err ErrACMECertificateNotFound)
              | Some (version, cert) =>
                  days ← renewal_window_days (cert_RenewalPolicyID cert);
                  t ← now;
                  let '(start, end_) := Ari.ComputeRenewalWindow (Some (cert_ExpiresAt cert))
                                          (Some (cv_NotBefore version)) days t in
                  let retry := if ac_ARIPollInterval cfg <=? 0 then 6 * Ari.hour
                               else ac_ARIPollInterval cfg in
                  mret (Ok (start, end_, retry))
              end
          end
      end
  end.

(** *** acme_orders.go *)
Definition at_capacity (accountID : string) : M IssuanceDB bool :=
  if 0 <? ac_RateLimitConcurrentOrders cfg then
    c ← AcmeRepo.CountActiveOrdersByAccount accountID;
    mret match c with Ok count => ac_RateLimitConcurrentOrders cfg <=? count | Err _ => false end
  else mret false.

Definition auth_mode (profile : CertificateProfile) : string :=
  let m := if bool_decide (pf_ACMEAuthMode profile = "") then ac_DefaultAuthMode cfg
           else pf_ACMEAuthMode profile in
  if bool_decide (m = "") then "trust_authenticated" else m.

Definition ttl_or_day (ttl : Z) : Z := if ttl <=? 0 then 24 * Ari.hour else ttl.

(** One identifier: an authorization with its http-01 challenge.  [trust] creates them valid. *)
Definition create_authz (trust : bool) (orderID : string) (t : Z) (id : ACMEIdentifier)
    : M (Txn IssuanceDB) (res unit) :=
  a ← randIDSuffix;
  match a with
  | Err e => mret (Err e)
  | Ok asuf =>
      let authzID := "acme-authz-" +:+ asuf in
      r ← AcmeRepo.CreateAuthzWithTx
            (mkAuthz authzID orderID id
               (if trust then ACMEAuthzStatusValid else ACMEAuthzStatusPending)
               (t + ttl_or_day (ac_AuthzTTL cfg)) (HasPrefix (ident_Value id) "*.") t t);
      match r with
      | Err e => mret (Err (ErrWrap "acme: create authz" e))
      | Ok _ =>
          c ← randIDSuffix;
          k ← randIDSuffix;
          match c, k with
          | Err e, _ | _, Err e => mret (Err e)
          | Ok csuf, Ok token =>
              r ← AcmeRepo.CreateChallengeWithTx
                    (mkChallenge ("acme-chall-" +:+ csuf) authzID ACMEChallengeTypeHTTP01
                       (if trust then ACMEChallengeStatusValid else ACMEChallengeStatusPending)
                       token (if trust then Some t else None) None t);
              mret match r with
                   | Err e => Err (ErrWrap "acme: create challenge" e)
                   | Ok _ => Ok tt
                   end
          end
      end
  end.

Fixpoint create_authzs (trust : bool) (orderID : string) (t : Z) (ids : list ACMEIdentifier)
    : M (Txn IssuanceDB) (res unit) :=
  match ids with
  | [] => mret (Ok tt)
  | id :: ids' =>
      r ← create_authz trust orderID t id;
      match r with
      | Err e => mret (Err e)
      | Ok _ => create_authzs trust orderID t ids'
      end
  end.

(** The order and what hangs off it, in one transaction. *)
Definition insert_order (trust : bool) (order : ACMEOrder) (t : Z) (det : details)
    : M IssuanceDB (res ACMEOrder) :=
  WithinTx (
    r ← AcmeRepo.CreateOrderWithTx order;
    match r with
    | Err e => mret (Err (ErrWrap "acme: create order" e))
    | Ok order =>
        r ← create_authzs trust (ord_ID order) t (ord_Identifiers order);
        match r with
        | Err e => mret (Err e)
        | Ok _ =>
            a ← acme_audit (ord_AccountID order) "acme_order_created" "acme_order" (ord_ID order) det;
            mret match a with Err e => Err e | Ok _ => Ok order end
        end
    end).

(** [resolveProfile], then the profile. *)
Definition bound_profile (profileID : string) : M IssuanceDB (res (string * CertificateProfile)) :=
  p ← resolveProfile profileID;
  match p with
  | Err e => mret (Err e)
  | Ok profileID =>
      g ← profiles_Get profileID;
      mret match g with
           | Err e => Err (ErrWrap "acme: lookup profile" e)
           | Ok profile => Ok (profileID, profile)
           end
  end.

Definition CreateOrder (accountID profileID : string) (identifiers : list ACMEIdentifier)
    (notBefore notAfter : option Z) : M IssuanceDB (res ACMEOrder) :=
  if negb (as_wired s)
  then mret (Err (ErrMsg "acme: new-order requires SetTransactor + SetAuditService")) else
  limited ← rate_limited ActionNewOrder accountID (ac_RateLimitOrdersPerHour cfg);
  if (limited : bool) then mret (Err ErrACMERateLimited) else
  full ← at_capacity accountID;
  if (full : bool) then mret (Err ErrACMEConcurrentOrdersExceeded) else
  p ← bound_profile profileID;
  match p with
  | Err e => mret (Err e)
  | Ok (profileID, profile) =>
      let authMode := auth_mode profile in
      let trust := bool_decide (authMode = "trust_authenticated") in
      if negb trust && negb (bool_decide (authMode = "challenge"))
      then mret (Err (ErrWrapPre ErrACMEUnsupportedAuthMode (Quote authMode))) else
      t ← now;
      suf ← randIDSuffix;
      match suf with
      | Err e => mret (Err e)
      | Ok suf =>
          insert_order trust
            (mkOrder ("acme-ord-" +:+ suf) accountID identifiers
               (if trust then ACMEOrderStatusReady else ACMEOrderStatusPending)
               (t + ttl_or_day (ac_OrderTTL cfg)) notBefore notAfter None "" "" t t) t
            [("account_id", GStr accountID); ("profile_id", GStr profileID);
             ("auth_mode", GStr authMode); ("identifier_n", GInt (Z.of_nat (length identifiers)));
             ("identifiers", GStrs (identifierStrings identifiers))]
      end
  end.

Definition LookupOrder (orderID accountID : string) : M IssuanceDB (res ACMEOrder) :=
  r ← AcmeRepo.GetOrderByID orderID;
  mret match not_found_as ErrACMEOrderNotFound "acme: lookup order" r with
       | Err e => Err e
       | Ok order => if bool_decide (ord_AccountID order = accountID) then Ok order
                     else Err ErrACMEOrderUnauthorized
       end.

Definition with_status (status : string) (o : ACMEOrder) : ACMEOrder :=
  mkOrder (ord_ID o) (ord_AccountID o) (ord_Identifiers o) status (ord_ExpiresAt o) (ord_NotBefore o)
    (ord_NotAfter o) (ord_Error o) (ord_CSRPEM o) (ord_CertificateID o) (ord_CreatedAt o) (ord_UpdatedAt o).

Definition failed_order (p : ACMEProblem) (o : ACMEOrder) : ACMEOrder :=
  mkOrder (ord_ID o) (ord_AccountID o) (ord_Identifiers o) ACMEOrderStatusInvalid (ord_ExpiresAt o)
    (ord_NotBefore o) (ord_NotAfter o) (Some p) (ord_CSRPEM o) (ord_CertificateID o) (ord_CreatedAt o)
    (ord_UpdatedAt o).

(** Record a failure on the order; its own failure is ignored. *)
Definition fail_order (p : ACMEProblem) (o : ACMEOrder) : M IssuanceDB unit :=
  _ ← WithinTx (AcmeRepo.UpdateOrderWithTx (failed_order p o)); mret tt.

(** Step A. *)
Definition mark_processing (accountID profileID : string) (o : ACMEOrder) : M IssuanceDB (res unit) :=
  WithinTx (
    r ← AcmeRepo.UpdateOrderWithTx (with_status ACMEOrderStatusProcessing o);
    match r with
    | Err e => mret (Err e)
    | Ok _ => acme_audit accountID "acme_order_processing" "acme_order" (ord_ID o)
                [("profile_id", GStr profileID)]
    end).

Definition commonName_of (csr : CertificateRequest) (o : ACMEOrder) : string :=
  if bool_decide (csr_CommonName csr = "")
  then match ord_Identifiers o with id :: _ => ident_Value id | [] => "" end
  else csr_CommonName csr.
Definition sans_of (o : ACMEOrder) : list string :=
  ident_Value <$> filter (λ id, ident_Type id = "dns") (ord_Identifiers o).

(** The certificate row of step B; the owner, the team and the renewal policy are not set. *)
Definition acme_certificate (id commonName issuerID profileID : string) (notAfter : Z) (o : ACMEOrder)
    : ManagedCertificate :=
  mkCert id ("acme-" +:+ ord_ID o) commonName (sans_of o) "" "" issuerID "" profileID
    CertificateStatusActive notAfter CertificateSourceACME None None "" Ari.zero_time.

(** Step C. *)
Definition final_order (csrPEM certID : string) (o : ACMEOrder) : ACMEOrder :=
  mkOrder (ord_ID o) (ord_AccountID o) (ord_Identifiers o) ACMEOrderStatusValid (ord_ExpiresAt o)
    (ord_NotBefore o) (ord_NotAfter o) None csrPEM certID (ord_CreatedAt o) (ord_UpdatedAt o).

Definition complete_order (accountID profileID csrPEM certID : string) (i : IssuanceResult)
    (o : ACMEOrder) : M IssuanceDB (res ACMEOrder) :=
  WithinTx (
    v ← CertRepo.CreateVersionWithTx uuid_New
          (mkVersion "" certID (ir_Serial i) (ir_NotBefore i) (ir_NotAfter i) ""
             (ir_CertPEM i +:+ ir_ChainPEM i) csrPEM "" 0 Ari.zero_time);
    match v with
    | Err e => mret (Err e)
    | Ok _ =>
        r ← AcmeRepo.UpdateOrderWithTx (final_order csrPEM certID o);
        match r with
        | Err e => mret (Err e)
        | Ok o' =>
            a ← acme_audit accountID "acme_order_finalized" "acme_order" (ord_ID o)
                  [("profile_id", GStr profileID); ("certificate_id", GStr certID);
                   ("serial", GStr (ir_Serial i))];
            mret match a with Err e => Err e | Ok _ => Ok o' end
        end
    end).

(** Steps B and C, once the order is in processing. *)
Definition issue_order (accountID profileID : string) (profile : CertificateProfile)
    (csr : CertificateRequest) (csrPEM : string) (o : ACMEOrder) : M IssuanceDB (res (ACMEOrder * string)) :=
  let commonName := commonName_of csr o in
  i ← firstAvailableIssuer;
  match i with
  | None => mret (Err (ErrMsg "acme: no issuer available in registry"))
  | Some (issuerID, conn) =>
      let ekus := match pf_AllowedEKUs profile with [] => ["serverAuth"] | l => l end in
      r ← call (λ k, ic_IssueCertificate conn k commonName (sans_of o) csrPEM ekus
                       (pf_MaxTTLSeconds profile) (pf_MustStaple profile));
      match r with
      | Err e =>
          _ ← fail_order (mkACMEProblem "urn:ietf:params:acme:error:serverInternal"
                            "issuer rejected the CSR" 500) o;
          mret (Err (ErrWrap "acme: issuer issuance" e))
      | Ok issuance =>
          suf ← randIDSuffix;
          match suf with
          | Err e => mret (Err e)
          | Ok suf =>
              let certID := "mc-acme-" +:+ suf in
              c ← CertService.Create ToLower ValidateCertificate true
                    (acme_certificate certID commonName issuerID (pf_ID profile) (ir_NotAfter issuance) o)
                    (acme_actor accountID);
              match c with
              | Err e => mret (Err (ErrWrap "acme: cert insert" e))
              | Ok _ =>
                  f ← complete_order accountID profileID csrPEM certID issuance o;
                  mret match f with Err e => Err e | Ok o' => Ok (o', certID) end
              end
          end
      end
  end.

(** The order and the id of its certificate.  The transactor of the certificate service is the
    one the server wires into this service. *)
Definition FinalizeOrder (accountID orderID profileID : string) (csr : CertificateRequest)
    (csrPEM : string) : M IssuanceDB (res (ACMEOrder * string)) :=
  match as_issuance s with
  | None => mret (Err ErrACMEFinalizeUnconfigured)
  | Some _ =>
      if negb (as_wired s)
      then mret (Err (ErrMsg "acme: finalize requires SetTransactor + SetAuditService")) else
      g ← LookupOrder orderID accountID;
      match g with
      | Err e => mret (Err e)
      | Ok order =>
          if negb (bool_decide (ord_Status order ∈ [ACMEOrderStatusReady; ACMEOrderStatusProcessing]))
          then mret (Err (ErrWrapPre ErrACMEOrderNotReady ("status=" +:+ ord_Status order))) else
          if bool_decide (ord_Status order = ACMEOrderStatusValid) &&
             negb (bool_decide (ord_CertificateID order = ""))
          then mret (Ok (order, ord_CertificateID order)) else
          match CSRMatchesIdentifiers csr (ord_Identifiers order) with
          | Some p =>
              _ ← fail_order (mkACMEProblem (pb_Type p) (pb_Detail p) (pb_Status p)) order;
              mret (Err (ErrMsg ("acme: csr mismatch: " +:+ pb_Detail p)))
          | None =>
              p ← bound_profile profileID;
              match p with
              | Err e => mret (Err e)
              | Ok (profileID, profile) =>
                  a ← mark_processing accountID profileID order;
                  match a with
                  | Err e => mret (Err e)
                  | Ok _ => issue_order accountID profileID profile csr csrPEM
                              (with_status ACMEOrderStatusProcessing order)
                  end
              end
          end
      end
  end.

Definition accountOwnsACMECert (accountID certID : string) : bool := true.

Definition LookupCertificate (certID accountID : string) : M IssuanceDB (res string) :=
  match as_issuance s with
  | None => mret (Err ErrACMEFinalizeUnconfigured)
  | Some _ =>
      c ← CertRepo.Get certID;
      match not_found_as ErrACMECertificateNotFound "acme: get cert" c with
      | Err e => mret (Err e)
      | Ok cert =>
          if negb (bool_decide (cert_Source cert = CertificateSourceACME))
          then mret (Err ErrACMECertificateNotFound) else
          if negb (accountOwnsACMECert accountID certID)
          then mret (Err ErrACMEOrderUnauthorized) else
          v ← CertRepo.GetLatestVersion certID;
          mret match v with
               | Err e => Err (ErrWrap "acme: latest version" e)
               | Ok version => Ok (cv_PEMChain version)
               end
      end
  end.

(** *** acme_authz.go *)
Definition LookupAuthz (authzID : string)
    : M IssuanceDB (res (ACMEAuthorization * list ACMEChallenge)) :=
  r ← AcmeRepo.GetAuthzByID authzID;
  mret (not_found_as ErrACMEAuthzNotFound "acme: lookup authz" r).

Definition ListAuthzsByOrder (orderID : string) : M IssuanceDB (res (list ACMEAuthorization)) :=
  AcmeRepo.ListAuthzsByOrder orderID.

(** *** acme_challenges.go *)
Definition challenge_status (status : string) (ch : ACMEChallenge) : ACMEChallenge :=
  mkChallenge (ch_ID ch) (ch_AuthzID ch) (ch_Type ch) status (ch_Token ch) (ch_ValidatedAt ch)
    (ch_Error ch) (ch_CreatedAt ch).

(** [validatorPool.Submit]: the validation runs later. *)
Definition pool_Submit (sub : Submission) : M IssuanceDB unit :=
  d ← get_db; put_db (set_pool (λ l, l ++ [sub]) d).

(** The parent authorization, whose order must belong to the account. *)
Definition owned_authz (accountID authzID : string) : M IssuanceDB (res ACMEAuthorization) :=
  a ← AcmeRepo.GetAuthzByID authzID;
  match a with
  | Err e => mret (Err (ErrWrap "acme: lookup parent authz" e))
  | Ok (authz, _) =>
      o ← AcmeRepo.GetOrderByID (az_OrderID authz);
      mret match o with
           | Err e => Err (ErrWrap "acme: lookup parent order" e)
           | Ok order => if bool_decide (ord_AccountID order = accountID) then Ok authz
                         else Err ErrACMEOrderUnauthorized
           end
  end.

Definition start_challenge (accountID : string) (ch : ACMEChallenge) (authz : ACMEAuthorization)
    : M IssuanceDB (res unit) :=
  WithinTx (
    u ← AcmeRepo.UpdateChallengeWithTx ch;
    match u with
    | Err e => mret (Err e)
    | Ok _ => acme_audit accountID "acme_challenge_processing" "acme_challenge" (ch_ID ch)
                [("authz_id", GStr (ch_AuthzID ch)); ("type", GStr (ch_Type ch));
                 ("identifier", GStr (ident_Value (az_Identifier authz)))]
    end).

(** The status is read, checked and written in three statements of one call; two calls at the same
    time may both pass the check (AcmeOrderFacts, [racing_responses_strand_order]). *)
Definition RespondToChallenge (accountID challengeID : string) (accountJWK : option JWK)
    : M IssuanceDB (res ACMEChallenge) :=
  if negb (as_wired s)
  then mret (Err (ErrMsg "acme: respond-to-challenge requires SetTransactor + SetAuditService")) else
  if negb (as_validatorPool s) then mret (Err ErrACMEChallengePoolUnconfigured) else
  limited ← rate_limited ActionChallengeRespond challengeID (ac_RateLimitChallengeRespondsPerHour cfg);
  if (limited : bool) then mret (Err ErrACMERateLimited) else
  c ← AcmeRepo.GetChallengeByID challengeID;
  match not_found_as ErrACMEChallengeNotFound "acme: lookup challenge" c with
  | Err e => mret (Err e)
  | Ok ch =>
      if bool_decide (ch_Status ch ∈ [ACMEChallengeStatusValid; ACMEChallengeStatusInvalid;
                                      ACMEChallengeStatusProcessing])
      then mret (Ok ch) else
      a ← owned_authz accountID (ch_AuthzID ch);
      match a with
      | Err e => mret (Err e)
      | Ok authz =>
          match KeyAuthorization (ch_Token ch) accountJWK with
          | Err e => mret (Err (ErrWrap "acme: key authorization" e))
          | Ok expected =>
              let ch := challenge_status ACMEChallengeStatusProcessing ch in
              r ← start_challenge accountID ch authz;
              match r with
              | Err e => mret (Err e)
              | Ok _ => _ ← pool_Submit (mkSubmission accountID ch authz expected); mret (Ok ch)
              end
          end
      end
  end.

(** The challenge as the validator's verdict leaves it. *)
Definition judged (verr : option error) (t : Z) (ch : ACMEChallenge) : ACMEChallenge :=
  match verr with
  | None => mkChallenge (ch_ID ch) (ch_AuthzID ch) (ch_Type ch) ACMEChallengeStatusValid (ch_Token ch)
              (Some t) None (ch_CreatedAt ch)
  | Some _ =>
      mkChallenge (ch_ID ch) (ch_AuthzID ch) (ch_Type ch) ACMEChallengeStatusInvalid (ch_Token ch)
        (ch_ValidatedAt ch)
        match ChallengeProblemFromError (ch_Type ch) verr with
        | Some p => Some (mkACMEProblem (pb_Type p) (pb_Detail p) (pb_Status p))
        | None => ch_Error ch
        end (ch_CreatedAt ch)
  end.

(** The scan over the authorizations of the order: all valid, any invalid.  The one that was
    just judged counts with its new status. *)
Definition tally_step (authzID newStatus : string) (acc : bool * bool) (a : ACMEAuthorization)
    : bool * bool :=
  let status := if bool_decide (az_ID a = authzID) then newStatus else az_Status a in
  (acc.1 && bool_decide (status = ACMEAuthzStatusValid),
   acc.2 || bool_decide (status = ACMEAuthzStatusInvalid)).

Definition tally (authzID newStatus : string) (authzs : list ACMEAuthorization) : bool * bool :=
  foldl (tally_step authzID newStatus) (negb (bool_decide (authzs = [])), false) authzs.

Definition failed_authz_problem : ACMEProblem :=
  mkACMEProblem "urn:ietf:params:acme:error:incorrectResponse" "one or more authorizations failed" 403.

(** The order follows its authorizations while it is pending. *)
Definition cascade_order (allValid anyInvalid : bool) (order : ACMEOrder)
    : M (Txn IssuanceDB) (res unit) :=
  let pending := bool_decide (ord_Status order = ACMEOrderStatusPending) in
  if allValid && pending then
    r ← AcmeRepo.UpdateOrderWithTx (with_status ACMEOrderStatusReady order);
    mret match r with Err e => Err e | Ok _ => Ok tt end
  else if anyInvalid && pending then
    r ← AcmeRepo.UpdateOrderWithTx (failed_order failed_authz_problem order);
    mret match r with Err e => Err e | Ok _ => Ok tt end
  else mret (Ok tt).

(** The reads go through the pool of connections, outside the transaction. *)
Definition outcome_tx (accountID : string) (ch : ACMEChallenge) (authz : ACMEAuthorization)
    (newAuthzStatus : string) (det : details) : M (Txn IssuanceDB) (res unit) :=
  u ← AcmeRepo.UpdateChallengeWithTx ch;
  match u with
  | Err e => mret (Err e)
  | Ok _ =>
      u ← AcmeRepo.UpdateAuthzStatusWithTx (ch_AuthzID ch) newAuthzStatus;
      match u with
      | Err e => mret (Err e)
      | Ok _ =>
          l ← on_pool (AcmeRepo.ListAuthzsByOrder (az_OrderID authz));
          match l with
          | Err e => mret (Err e)
          | Ok authzs =>
              let '(allValid, anyInvalid) := tally (ch_AuthzID ch) newAuthzStatus authzs in
              o ← on_pool (AcmeRepo.GetOrderByID (az_OrderID authz));
              match o with
              | Err e => mret (Err e)
              | Ok order =>
                  c ← cascade_order allValid anyInvalid order;
                  match c with
                  | Err e => mret (Err e)
                  | Ok _ => acme_audit accountID "acme_challenge_completed" "acme_challenge" (ch_ID ch) det
                  end
              end
          end
      end
  end.

Definition recordChallengeOutcome (accountID : string) (ch : ACMEChallenge) (authz : ACMEAuthorization)
    (verr : option error) : M IssuanceDB unit :=
  t ← now;
  let ch := judged verr t ch in
  let newAuthzStatus := match verr with
                        | None => ACMEAuthzStatusValid
                        | Some _ => ACMEAuthzStatusInvalid
                        end in
  let det := [("authz_id", GStr (ch_AuthzID ch)); ("type", GStr (ch_Type ch));
              ("identifier", GStr (ident_Value (az_Identifier authz)));
              ("valid", GBool (bool_decide (verr = None)))] ++
             match verr with Some e => [("error", GStr (Error e))] | None => [] end in
  _ ← WithinTx (outcome_tx accountID ch authz newAuthzStatus det);
  mret tt.

(** A worker of the pool finishes the [i]-th submission with a verdict of the validator. *)
Definition pool_complete (i : nat) (verr : option error) : M IssuanceDB unit :=
  d ← get_db;
  match is_pool d !! i with
  | None => mret tt
  | Some sub =>
      _ ← put_db (set_pool (delete i) d);
      recordChallengeOutcome (sb_AccountID sub) (sb_Challenge sub) (sb_Authz sub) verr
  end.

(** *** acme_gc.go *)
Definition gc_error (firstErr : option error) (ctx : string) (r : res unit) : option error :=
  match firstErr, r with
  | None, Err e => Some (ErrWrap ctx e)
  | _, _ => firstErr
  end.

Definition GarbageCollect : M IssuanceDB (res unit) :=
  n ← AcmeRepo.GCExpiredNonces;
  a ← AcmeRepo.GCExpireAuthorizations;
  o ← AcmeRepo.GCInvalidateExpiredOrders;
  mret match gc_error (gc_error (gc_error None "acme gc: nonces" n) "acme gc: authzs" a)
               "acme gc: orders" o with
       | Some e => Err e
       | None => Ok tt
       end.

(** *** The calls that change state *)
Inductive acme_call :=
  | CallIssueNonce
  | CallVerifyJWS (body requestURL : string) (expectNewAccount : bool) (kid : option (string → string))
  | CallNewAccount (profileID : string) (jwk : JWK) (contact : list string) (only tos : bool)
  | CallUpdateAccount (accountID : string) (contact : list string)
  | CallDeactivateAccount (accountID : string)
  | CallRotateAccountKey (old : ACMEAccount) (newJWK : JWK)
  | CallRevokeCert (verified : VerifiedRequest) (certDER : string) (reasonCode : Z)
  | CallCreateOrder (accountID profileID : string) (ids : list ACMEIdentifier) (nb na : option Z)
  | CallFinalizeOrder (accountID orderID profileID : string) (csr : CertificateRequest) (csrPEM : string)
  | CallRespondToChallenge (accountID challengeID : string) (jwk : option JWK)
  | CallPoolComplete (i : nat) (verr : option error)
  | CallGarbageCollect.

Definition ignore {A} (m : M IssuanceDB A) : M IssuanceDB unit := _ ← m; mret tt.

Definition run_call (c : acme_call) : M IssuanceDB unit :=
  match c with
  | CallIssueNonce => ignore IssueNonce
  | CallVerifyJWS body url new kid => ignore (VerifyJWS body url new kid)
  | CallNewAccount p k c o t => ignore (NewAccount p k c o t)
  | CallUpdateAccount a c => ignore (UpdateAccount a c)
  | CallDeactivateAccount a => ignore (DeactivateAccount a)
  | CallRotateAccountKey a k => ignore (RotateAccountKey a k)
  | CallRevokeCert v der code => ignore (RevokeCert v der code)
  | CallCreateOrder a p ids nb na => ignore (CreateOrder a p ids nb na)
  | CallFinalizeOrder a o p csr pem => ignore (FinalizeOrder a o p csr pem)
  | CallRespondToChallenge a c k => ignore (RespondToChallenge a c k)
  | CallPoolComplete i verr => pool_complete i verr
  | CallGarbageCollect => ignore GarbageCollect
  end.

Definition run_calls (cs : list acme_call) : M IssuanceDB unit := for_each cs run_call.
End service.
End AcmeService.
