(* ===== verification/AcmeFrame.v ===== *)
(** * Which tables the calls of the ACME server touch

    [Frame R set]: the preorder [R] tolerates every change of the table behind the setter
    [set].  Each call of the service then satisfies [R] as soon as [R] tolerates the tables
    the call writes, so that a theorem about one table only has to look at the calls that
    write it.  The reads and statements of the repository get their rules here too. *)

From Stdlib Require Import ZArith Lia Ascii String.
From stdpp Require Import prelude gmap strings list sorting pretty.
From S2P Require Import Prelude AuditTrail Store Transactions Approval GoBytes KeyCrypto AcmeWire.
From S2P Require Import CertStore Revocation RevocationFacts Acme.
Import Text Problems Orders Keys Jws AcmeService.

Class Frame {A} (R : relation IssuanceDB) (set : (A → A) → IssuanceDB → IssuanceDB) : Prop :=
  frame f d : R d (set f d).

(** Close a [pres] goal by the structure of the operation and the frame. *)
Ltac frame_done := intros; repeat case_match; cbn; first [reflexivity | apply frame].
Ltac frame_step :=
  first
    [ lazymatch goal with
      | |- pres _ (WithinTx _) => refine (pres_WithinTx _ _ _)
      | |- pres (in_tx _) (RecordEvent _ _ _ _ _ _ _) =>
          simple apply pres_RecordEvent;
          [apply _|intros ev [? ?]; split; [reflexivity|exact (frame (set:=set_store) _ _)]]
      | |- pres _ (RecordEvent _ _ _ _ _ _ _) =>
          simple apply pres_RecordEvent; [apply _|intros; exact (frame (set:=set_store) _ _)]
      | |- pres (in_tx _) (tx_exec _ _) => refine (pres_tx_exec _ _ _ _); frame_done
      | |- pres (in_tx _) (on_pool _) => refine (pres_on_pool _ _ _)
      | |- pres _ (sql_exec _ _) => refine (pres_exec _ _ _ _); frame_done
      end
    | pres_step
    | solve [eauto with certctl typeclass_instances] ].
Ltac frame_op := repeat frame_step.

(** ** Reads *)
Section reads.
Context `{RT : GoRuntime, J : Jose, E : Entropy} (s : ACMEService).
Context (R : relation IssuanceDB) `{!PreOrder R}.

Lemma pres_resolveProfile id : pres R (resolveProfile s id).
Proof. unfold resolveProfile, profiles_Get. frame_op. Qed.
Lemma pres_bound_profile id : pres R (bound_profile s id).
Proof.
  unfold bound_profile, profiles_Get. pose proof pres_resolveProfile. frame_op.
Qed.
Lemma pres_rate_limited a k l : pres R (rate_limited s a k l).
Proof. unfold rate_limited. frame_op. Qed.
Lemma pres_at_capacity a : pres R (at_capacity s a).
Proof. unfold at_capacity, AcmeRepo.CountActiveOrdersByAccount. frame_op. Qed.
Lemma pres_GetAccountByID a : pres R (AcmeRepo.GetAccountByID a).
Proof. unfold AcmeRepo.GetAccountByID. frame_op. Qed.
Lemma pres_GetAccountByThumbprint p t : pres R (AcmeRepo.GetAccountByThumbprint p t).
Proof. unfold AcmeRepo.GetAccountByThumbprint. frame_op. Qed.
Lemma pres_GetOrderByID o : pres R (AcmeRepo.GetOrderByID o).
Proof. unfold AcmeRepo.GetOrderByID. frame_op. Qed.
Lemma pres_LookupOrder o a : pres R (LookupOrder o a).
Proof. unfold LookupOrder, AcmeRepo.GetOrderByID. frame_op. Qed.
Lemma pres_LookupAccount a : pres R (LookupAccount a).
Proof. unfold LookupAccount, AcmeRepo.GetAccountByID. frame_op. Qed.
Lemma pres_ListAuthzsByOrder o : pres R (AcmeRepo.ListAuthzsByOrder o).
Proof. unfold AcmeRepo.ListAuthzsByOrder. frame_op. Qed.
Lemma pres_GetChallengeByID c : pres R (AcmeRepo.GetChallengeByID c).
Proof. unfold AcmeRepo.GetChallengeByID. frame_op. Qed.
Lemma pres_owned_authz a z : pres R (owned_authz a z).
Proof.
  unfold owned_authz, AcmeRepo.GetAuthzByID, AcmeRepo.ListChallengesByAuthz, AcmeRepo.GetOrderByID. frame_op.
Qed.
Lemma pres_firstAvailableIssuer pick : pres R (firstAvailableIssuer s pick).
Proof. unfold firstAvailableIssuer. frame_op. Qed.
Lemma pres_find_by_serial i x : pres R (find_by_serial i x).
Proof. unfold find_by_serial. frame_op. Qed.
End reads.

Lemma pres_randIDSuffix `{Entropy} {D} (R : relation D) `{!PreOrder R} : pres R (randIDSuffix (D:=D)).
Proof. unfold randIDSuffix, readRand. frame_op. Qed.
Lemma pres_GenerateNonce `{Entropy} {D} (R : relation D) `{!PreOrder R} : pres R (GenerateNonce (D:=D)).
Proof. unfold GenerateNonce, readRand. frame_op. Qed.
#[export] Hint Resolve pres_resolveProfile pres_bound_profile pres_rate_limited pres_at_capacity
  pres_GetAccountByID pres_GetAccountByThumbprint pres_GetOrderByID pres_LookupOrder pres_LookupAccount
  pres_ListAuthzsByOrder pres_GetChallengeByID pres_owned_authz pres_firstAvailableIssuer
  pres_find_by_serial pres_randIDSuffix pres_GenerateNonce : certctl.

(** ** Calls *)
Section calls.
Context `{RT : GoRuntime, J : Jose, E : Entropy} (s : ACMEService).
Context (uuid_New : N → string) (pick : N → nat) (ParseCertificate : string → res (Z * JWK)).
Context (ValidateCertificate : ManagedCertificate → IssuanceDB → res (list (string * string))).
Context (R : relation IssuanceDB) `{!PreOrder R}.

Lemma frame_IssueNonce `{!Frame R set_nonces} : pres R (IssueNonce s).
Proof. unfold IssueNonce, AcmeRepo.IssueNonce. frame_op. Qed.

Lemma frame_ConsumeNonce `{!Frame R set_nonces} n : pres R (AcmeRepo.ConsumeNonce n).
Proof. unfold AcmeRepo.ConsumeNonce. frame_op. Qed.

(** Verifying a request writes what consuming its nonce writes. *)
Lemma pres_VerifyJWS body url new kid :
  (∀ n, pres R (AcmeRepo.ConsumeNonce n)) → pres R (VerifyJWS body url new kid).
Proof.
  intros H. unfold VerifyJWS, Jws.VerifyJWS, resolve_key, accountAdapter. cbn [vc_ConsumeNonce vc_LookupAccount].
  repeat first [apply H | frame_step].
Qed.

Section accounts.
Context `{!Frame R set_accounts} `{!Frame R set_store}.

Lemma frame_NewAccount p k c o t : pres R (NewAccount s p k c o t).
Proof. unfold NewAccount, create_account, acme_audit, AcmeRepo.CreateAccountWithTx. frame_op. Qed.
Lemma frame_UpdateAccount a c : pres R (UpdateAccount s a c).
Proof.
  unfold UpdateAccount, change_account, acme_audit, AcmeRepo.UpdateAccountContactWithTx,
    AcmeRepo.update_account. frame_op.
Qed.
Lemma frame_DeactivateAccount a : pres R (DeactivateAccount s a).
Proof.
  unfold DeactivateAccount, change_account, acme_audit, AcmeRepo.UpdateAccountStatusWithTx,
    AcmeRepo.update_account. frame_op.
Qed.
Lemma frame_RotateAccountKey a k : pres R (RotateAccountKey s a k).
Proof.
  unfold RotateAccountKey, swap_key, acme_audit, AcmeRepo.UpdateAccountJWKWithTx, tx_query. frame_op.
Qed.
End accounts.

Lemma frame_Revoke TL rs certID reason actor `{!Frame R set_store} `{!Frame R set_revocations}
    `{!Frame R set_ocsp} :
  pres R (RevocationService.RevokeCertificateWithActor TL rs certID reason actor).
Proof.
  unfold RevocationService.RevokeCertificateWithActor, RevocationService.after_revocation,
    RevocationService.notify_issuer, RevocationService.revoke_plain, RevocationService.revoke_in_tx,
    CertRepo.Update, CertRepo.UpdateWithTx, OcspRepo.Delete, RevocationRepo.ListByCertificate,
    RevocationRepo.Create, RevocationRepo.CreateWithTx, RevocationRepo.MarkIssuerNotified, generateID,
    CertRepo.cert_update, RevocationRepo.revocation_insert.
  frame_op.
Qed.

Lemma frame_RevokeCert v der code `{!Frame R set_store} `{!Frame R set_revocations}
    `{!Frame R set_ocsp} : pres R (RevokeCert s ParseCertificate pick v der code).
Proof.
  unfold RevokeCert, revocation_actor, AcmeRepo.AccountOwnsCertificate.
  repeat first [simple apply frame_Revoke; apply _ | frame_step].
Qed.

Lemma frame_CertCreate TL VC tx c actor `{!Frame R set_store} : pres R (CertService.Create TL VC tx c actor).
Proof.
  unfold CertService.Create, CertService.insert_certificate, CertService.record_violation,
    CertRepo.CreateWithTx, CertRepo.Create, CertRepo.cert_insert.
  frame_op.
Qed.

Lemma frame_pool_Submit sub `{!Frame R set_pool} : pres R (pool_Submit sub).
Proof. intros w. exact (frame (set:=set_pool) _ _). Qed.

(** The challenge and the submission to the pool. *)
Lemma frame_Respond a c k `{!Frame R set_store} `{!Frame R set_challenges} `{!Frame R set_pool} :
  pres R (RespondToChallenge s a c k).
Proof.
  unfold RespondToChallenge, start_challenge, acme_audit, AcmeRepo.UpdateChallengeWithTx.
  repeat first [simple apply frame_pool_Submit; apply _ | frame_step].
Qed.

Section orders.
Context `{!Frame R set_store} `{!Frame R set_orders} `{!Frame R set_authzs} `{!Frame R set_challenges}.

Lemma frame_CreateOrder a p ids nb na : pres R (CreateOrder s a p ids nb na).
Proof.
  assert (∀ trust o t ids, pres (in_tx R) (create_authzs s trust o t ids)) as Hc.
  { intros trust o t l. induction l as [|i l IH]; cbn [create_authzs]; [pres_step|].
    unfold create_authz, AcmeRepo.CreateAuthzWithTx, AcmeRepo.CreateChallengeWithTx.
    repeat first [exact IH | frame_step]. }
  unfold CreateOrder, insert_order, acme_audit, AcmeRepo.CreateOrderWithTx.
  repeat first [apply Hc | frame_step].
Qed.

Lemma frame_FinalizeOrder a o p csr pem `{!Frame R set_versions} :
  pres R (FinalizeOrder s uuid_New ValidateCertificate pick a o p csr pem).
Proof.
  unfold FinalizeOrder, issue_order, fail_order, mark_processing, complete_order, acme_audit,
    AcmeRepo.UpdateOrderWithTx, CertRepo.CreateVersionWithTx.
  repeat first [simple apply frame_CertCreate; apply _ | frame_step].
Qed.

Lemma frame_outcome a ch z v : pres R (recordChallengeOutcome a ch z v).
Proof.
  unfold recordChallengeOutcome, outcome_tx, cascade_order, acme_audit,
    AcmeRepo.UpdateChallengeWithTx, AcmeRepo.UpdateAuthzStatusWithTx, AcmeRepo.UpdateOrderWithTx.
  frame_op.
Qed.
End orders.

(** A finished validation is its submission taken off the pool, then the outcome. *)
Lemma pres_pool_complete i v `{!Frame R set_pool} :
  (∀ a ch z, pres R (recordChallengeOutcome a ch z v)) → pres R (pool_complete i v).
Proof.
  intros H w. unfold pool_complete, mbind, M_bind, get_db, put_db.
  destruct (is_pool (w_db w) !! i) as [sub|]; [|reflexivity].
  exact (transitivity (frame (set:=set_pool) _ (w_db w)) (H _ _ _ (mkWorld _ (w_env w)))).
Qed.

Lemma frame_GarbageCollect `{!Frame R set_nonces} `{!Frame R set_authzs} `{!Frame R set_orders} :
  pres R GarbageCollect.
Proof.
  unfold GarbageCollect, AcmeRepo.GCExpiredNonces, AcmeRepo.GCExpireAuthorizations,
    AcmeRepo.GCInvalidateExpiredOrders. frame_op.
Qed.
End calls.

(** ** Triples *)
Lemma hoare_reads {D A} (P : D → Prop) (m : M D A) : pres eq m → hoare P m (λ _, P).
Proof. intros H w Hw. by rewrite <-(H w). Qed.

Lemma hoare_pure {D A} (φ : Prop) (P : D → Prop) (m : M D A) (Q : A → D → Prop) :
  (φ → hoare P m Q) → hoare (λ d, P d ∧ φ) m Q.
Proof. intros H w [HP Hφ]. by apply H. Qed.

Lemma hoare_frame {D A} (R : relation D) (P : D → Prop) (m : M D A) :
  pres R m → (∀ d d', R d d' → P d → P d') → hoare P m (λ _, P).
Proof. intros Hm HR w Hw. by eapply HR. Qed.

(** An audit row of a transaction. *)
Lemma hoare_audit `{RT : GoRuntime} (R : relation IssuanceDB) `{!PreOrder R} `{!Frame R set_store}
    (P : Txn IssuanceDB → Prop) a act rt ri det :
  (∀ t t', in_tx R t t' → P t → P t') → hoare P (acme_audit a act rt ri det) (λ _, P).
Proof. intros H. apply (hoare_frame (in_tx R)); [|done]. unfold acme_audit. frame_op. Qed.

(** A transaction from [P] to [Q]: on an error either may hold. *)
Lemma hoare_tx {D A} (P Q : D → Prop) (fn : M (Txn D) (res A)) :
  (∀ d, P d → hoare (λ t, t = mkTxn d d) fn (λ r t, tx_committed t = d ∧ (is_Ok r = true → Q (tx_view t)))) →
  hoare P (WithinTx fn) (λ r d, Q d ∨ (is_Ok r = false ∧ P d)).
Proof.
  intros H. apply hoare_WithinTx; [|auto]. intros d HP. eapply hoare_post; [by apply H|].
  intros r t [H1 H2]. split; [done|]. intros a ->. specialize (H2 eq_refl). auto.
Qed.
