(* ===== verification/AcmeFacts.v ===== *)
(** * What the ACME server guarantees

    A nonce admits one request; a deactivated account stays out; a rolled key takes over;
    an order is ready only on proven authorizations.  All hold for every sequence of calls,
    every clock and every placement of failures.  Two theorems show where the server does not
    do what it documents: finalisation cannot succeed, and any account can download any ACME
    certificate. *)

From Stdlib Require Import ZArith Lia Ascii String.
From stdpp Require Import prelude gmap strings list sorting pretty.
From S2P Require Import Prelude AuditTrail Store Transactions Approval GoBytes KeyCrypto AcmeWire.
From S2P Require Import AcmeWireFacts CertStore Revocation RevocationFacts Acme AcmeFrame.
Import Text Problems Orders Keys Jws AcmeService.

(** ** Nonces *)
Section nonces.
Context `{RT : GoRuntime, J : Jose, E : Entropy} (s : ACMEService).
Context (uuid_New : N → string) (pick : N → nat) (ParseCertificate : string → res (Z * JWK)).
Context (ValidateCertificate : ManagedCertificate → IssuanceDB → res (list (string * string))).
Notation run_call := (run_call s uuid_New ValidateCertificate ParseCertificate pick).
Notation run_calls := (run_calls s uuid_New ValidateCertificate ParseCertificate pick).

(** The nonce admits no further request. *)
Definition spent (n : string) (d : IssuanceDB) : Prop :=
  ∀ r, is_nonces d !! n = Some r → nc_Used r = true.

(** No call of [IssueNonce] in the sequence draws [n]. *)
Fixpoint never_draws (n : string) (cs : list acme_call) (w : World IssuanceDB) : Prop :=
  match cs with
  | [] => True
  | c :: cs' =>
      (match c with CallIssueNonce => fst (GenerateNonce w) ≠ Ok n | _ => True end) ∧
      never_draws n cs' (snd (run_call c w))
  end.

Section keeps_spent.
Context (n : string).
Notation keep := (λ d d', spent n d → spent n d').

Lemma keep_frame {A} (set : (A → A) → IssuanceDB → IssuanceDB) :
  (∀ f d, is_nonces (set f d) = is_nonces d) → Frame keep set.
Proof. intros H f d Hs r. rewrite H. apply Hs. Qed.
#[local] Hint Extern 0 (Frame keep _) => (apply keep_frame; reflexivity) : typeclass_instances.

Lemma keep_ConsumeNonce m : pres keep (AcmeRepo.ConsumeNonce m).
Proof.
  unfold AcmeRepo.ConsumeNonce. repeat pres_step. intros Hs. repeat case_match; cbn; try done.
  intros r. cbn. destruct (decide (m = n)) as [->|Hne].
  - rewrite lookup_insert_eq. by intros [= <-].
  - rewrite lookup_insert_ne by done. apply Hs.
Qed.

Lemma keep_GarbageCollect : pres keep GarbageCollect.
Proof.
  unfold GarbageCollect, AcmeRepo.GCExpiredNonces, AcmeRepo.GCExpireAuthorizations,
    AcmeRepo.GCInvalidateExpiredOrders.
  repeat pres_step; cbn; intros Hs r; cbn; try apply Hs.
  intros [H _]%map_lookup_filter_Some. by apply Hs.
Qed.

Lemma keep_IssueNonce w : fst (GenerateNonce w) ≠ Ok n → keep (w_db w) (w_db (snd (IssueNonce s w))).
Proof.
  intros Hn Hs. unfold IssueNonce. unfold mbind, M_bind.
  pose proof (pres_GenerateNonce keep w Hs) as Hs'. destruct (GenerateNonce w) as [[m|e] w'] eqn:Eg; [|done].
  cbn in Hn, Hs'.
  assert (pres keep (AcmeRepo.IssueNonce m (ac_NonceTTL (as_cfg s)))) as H.
  { unfold AcmeRepo.IssueNonce. repeat pres_step. intros Hd. case_match; cbn; [done|].
    intros r. cbn. rewrite lookup_insert_ne by congruence. apply Hd. }
  specialize (H w' Hs'). by destruct (AcmeRepo.IssueNonce _ _ w').
Qed.

Lemma pres_ignore {A} (R : relation IssuanceDB) `{!PreOrder R} (m : M IssuanceDB A) :
  pres R m → pres R (ignore m).
Proof. intros H. unfold ignore. repeat first [exact H | pres_step]. Qed.

Lemma keep_call c w :
  match c with CallIssueNonce => fst (GenerateNonce w) ≠ Ok n | _ => True end →
  keep (w_db w) (w_db (snd (run_call c w))).
Proof.
  intros Hc. destruct c; cbn [AcmeService.run_call].
  { unfold ignore, mbind, M_bind. pose proof (keep_IssueNonce w Hc) as H. by destruct (IssueNonce s w). }
  all: clear Hc; match goal with |- context [snd (?m ?x)] => assert (pres keep m) as H; [|exact (H x)] end.
  - apply pres_ignore, pres_VerifyJWS, keep_ConsumeNonce; apply _.
  - apply pres_ignore, frame_NewAccount; apply _.
  - apply pres_ignore, frame_UpdateAccount; apply _.
  - apply pres_ignore, frame_DeactivateAccount; apply _.
  - apply pres_ignore, frame_RotateAccountKey; apply _.
  - apply pres_ignore, frame_RevokeCert; apply _.
  - apply pres_ignore, frame_CreateOrder; apply _.
  - apply pres_ignore, frame_FinalizeOrder; apply _.
  - apply pres_ignore, frame_Respond; apply _.
  - apply pres_pool_complete; [apply _..|]. intros. apply frame_outcome; apply _.
  - apply pres_ignore, keep_GarbageCollect; apply _.
Qed.

Lemma keep_calls cs w : never_draws n cs w → keep (w_db w) (w_db (snd (run_calls cs w))).
Proof.
  revert w. induction cs as [|c cs IH]; intros w; [done|]. intros [Hc Hcs] Hs.
  unfold AcmeService.run_calls in *. cbn [for_each]. unfold mbind, M_bind.
  pose proof (keep_call c w Hc Hs) as H. destruct (run_call c w) as [u w']. by apply IH.
Qed.
End keeps_spent.

(** Consuming a nonce spends it, and a spent nonce is refused. *)
Lemma ConsumeNonce_spends n w : fst (AcmeRepo.ConsumeNonce n w) = Ok tt →
  spent n (w_db (snd (AcmeRepo.ConsumeNonce n w))).
Proof.
  enough (hoare (λ _, True) (AcmeRepo.ConsumeNonce n) (λ r d, r = Ok tt → spent n d)) as H
    by (intros Hr; by apply (H w)).
  unfold AcmeRepo.ConsumeNonce. apply hoare_bind with (λ _ _, True); [by apply hoare_now|]. intros t.
  apply hoare_exec; [|done..]. intros d _. repeat case_match; cbn; try done. intros _ r. cbn.
  rewrite lookup_insert_eq. by intros [= <-].
Qed.

Lemma ConsumeNonce_refuses n w : spent n (w_db w) → fst (AcmeRepo.ConsumeNonce n w) ≠ Ok tt.
Proof.
  enough (hoare (spent n) (AcmeRepo.ConsumeNonce n) (λ r _, r ≠ Ok tt)) as H by apply H.
  unfold AcmeRepo.ConsumeNonce. apply hoare_bind with (λ _, spent n); [by apply hoare_now|]. intros t.
  apply hoare_exec; [|done..]. intros d Hs. destruct (is_nonces d !! n) eqn:En; [|done].
  unfold AcmeRepo.nonce_live. by rewrite (Hs _ En).
Qed.

(** An accepted request consumed its nonce. *)
Lemma VerifyJWS_consumed body url new kid w v w' :
  VerifyJWS body url new kid w = (Ok v, w') →
  ∃ w1, AcmeRepo.ConsumeNonce (vr_Nonce v) w = (Ok tt, w1) ∧ w_db w' = w_db w1.
Proof.
  unfold VerifyJWS, Jws.VerifyJWS. cbn [vc_ConsumeNonce].
  destruct (parse_request body url) as [[[jws sig] url']|e]; [|by intros [=]].
  intros (c & w1 & Hc & H)%bind_inv. destruct c as [[]|e]; [|by simplify_eq H].
  destruct (check_key_choice sig new); [|by simplify_eq H].
  apply bind_inv in H as (k & w2 & Hk & H).
  destruct k as [[key acct]|e]; [|by simplify_eq H].
  destruct (verify_signature jws key) as [payload|e]; [|by simplify_eq H].
  injection H as <- <-. exists w1. split; [done|].
  assert (pres eq (resolve_key {| vc_LookupAccount := accountAdapter; vc_ConsumeNonce := AcmeRepo.ConsumeNonce;
    vc_AccountKID := kid |} sig)) as Hp.
  { unfold resolve_key, accountAdapter. cbn. frame_op. }
  specialize (Hp w1). rewrite Hk in Hp. done.
Qed.

(** C9: A signed ACME request is accepted at most once: after [VerifyJWS] accepted a request,
    whatever calls the server handles in between (with any failures, sweeps of the nonce table
    included), no request that carries the same nonce is accepted, as long as the random source
    does not draw that nonce again.  In particular the same message cannot be replayed. *)
Theorem acme_request_accepted_once body url new kid w v w1 cs w2 :
  VerifyJWS body url new kid w = (Ok v, w1) →
  never_draws (vr_Nonce v) cs w1 → w2 = snd (run_calls cs w1) →
  ∀ body' url' new' kid' v',
    fst (VerifyJWS body' url' new' kid' w2) = Ok v' → vr_Nonce v' ≠ vr_Nonce v.
Proof.
  intros Hv Hn -> body' url' new' kid' v' Hv' Heq.
  destruct (VerifyJWS_consumed _ _ _ _ _ _ _ Hv) as (w1' & Hc & Hd).
  assert (spent (vr_Nonce v) (w_db w1)) as Hs.
  { rewrite Hd. pose proof (ConsumeNonce_spends (vr_Nonce v) w) as H. rewrite Hc in H. by apply H. }
  apply (keep_calls _ cs w1 Hn) in Hs.
  destruct (VerifyJWS body' url' new' kid' _) as [r w3] eqn:E3. cbn in Hv'. subst r.
  destruct (VerifyJWS_consumed _ _ _ _ _ _ _ E3) as (w4 & Hc' & _). rewrite Heq in Hc'.
  apply (ConsumeNonce_refuses _ _ Hs). by rewrite Hc'.
Qed.
End nonces.

(** ** Accounts

    What can happen to the table of accounts, one statement at a time. *)
Inductive account_change : relation (gmap string ACMEAccount) :=
  | account_new m a :
      m !! acc_ID a = None →
      existsb (AcmeRepo.same_key (acc_ProfileID a) (acc_JWKThumbprint a)) (rows m) = false →
      account_change m (<[acc_ID a := a]> m)
  | account_contact m id a contact t :
      m !! id = Some a →
      account_change m (<[id := mkAccount (acc_ID a) (acc_JWKThumbprint a) (acc_JWKPEM a) contact
        (acc_Status a) (acc_ProfileID a) (acc_OwnerID a) (acc_CreatedAt a) t]> m)
  | account_deactivated m id a t :
      m !! id = Some a →
      account_change m (<[id := AcmeRepo.with_times ACMEAccountStatusDeactivated (acc_CreatedAt a) t a]> m)
  | account_rekeyed m id a thumb pem t :
      m !! id = Some a →
      existsb (λ b, AcmeRepo.same_key (acc_ProfileID a) thumb b && negb (bool_decide (acc_ID b = id)))
        (rows m) = false →
      account_change m (<[id := AcmeRepo.with_key thumb pem t a]> m).

Definition accounts_evolve (d d' : IssuanceDB) : Prop := rtc account_change (is_accounts d) (is_accounts d').
#[global] Instance accounts_evolve_preorder : PreOrder accounts_evolve.
Proof. split; [intros d; apply rtc_refl|]. intros d1 d2 d3 H1 H2. unfold accounts_evolve in *. by etrans. Qed.

Section accounts.
Context `{RT : GoRuntime, J : Jose, E : Entropy} (s : ACMEService).
Context (uuid_New : N → string) (pick : N → nat) (ParseCertificate : string → res (Z * JWK)).
Context (ValidateCertificate : ManagedCertificate → IssuanceDB → res (list (string * string))).
Notation run_call := (run_call s uuid_New ValidateCertificate ParseCertificate pick).
Notation run_calls := (run_calls s uuid_New ValidateCertificate ParseCertificate pick).

Lemma evolve_frame {A} (set : (A → A) → IssuanceDB → IssuanceDB) :
  (∀ f d, is_accounts (set f d) = is_accounts d) → Frame accounts_evolve set.
Proof. intros H f d. unfold accounts_evolve. rewrite H. apply rtc_refl. Qed.
#[local] Hint Extern 0 (Frame accounts_evolve _) => (apply evolve_frame; reflexivity) : typeclass_instances.

Lemma evolve_step d f : account_change (is_accounts d) (f (is_accounts d)) → accounts_evolve d (set_accounts f d).
Proof. apply rtc_once. Qed.

Lemma evolve_CreateAccount a : pres (in_tx accounts_evolve) (AcmeRepo.CreateAccountWithTx a).
Proof.
  unfold AcmeRepo.CreateAccountWithTx. repeat pres_step. refine (pres_tx_exec _ _ _ _). intros d.
  set (a' := AcmeRepo.with_times _ _ _ a). destruct (bool_decide (is_Some _) || _) eqn:E1; [done|].
  case_match; [|done]. apply orb_false_iff in E1 as [E1 E2].
  refine (evolve_step d (<[acc_ID a' := a']>) _). apply account_new; [|done]. apply bool_decide_eq_false in E1. by apply eq_None_not_Some.
Qed.

Lemma evolve_UpdateContact id c : pres (in_tx accounts_evolve) (AcmeRepo.UpdateAccountContactWithTx id c).
Proof.
  unfold AcmeRepo.UpdateAccountContactWithTx, AcmeRepo.update_account. repeat pres_step.
  refine (pres_tx_exec _ _ _ _). intros d. case_match; [|done]. cbn. by apply evolve_step, account_contact.
Qed.

Lemma evolve_Deactivate id :
  pres (in_tx accounts_evolve) (AcmeRepo.UpdateAccountStatusWithTx id ACMEAccountStatusDeactivated).
Proof.
  unfold AcmeRepo.UpdateAccountStatusWithTx, AcmeRepo.update_account. repeat pres_step.
  refine (pres_tx_exec _ _ _ _). intros d. case_match; [|done]. cbn. by apply evolve_step, account_deactivated.
Qed.

Lemma evolve_UpdateJWK id o n pem : pres (in_tx accounts_evolve) (AcmeRepo.UpdateAccountJWKWithTx id o n pem).
Proof.
  unfold AcmeRepo.UpdateAccountJWKWithTx, tx_query. repeat pres_step.
  refine (pres_tx_exec _ _ _ _). intros d. case_match eqn:El; [|done]. case_match; [done|].
  case_match eqn:Ee; [done|]. cbn. by apply evolve_step, account_rekeyed.
Qed.

Lemma evolve_call c : pres accounts_evolve (run_call c).
Proof.
  destruct c; cbn [AcmeService.run_call]; 
    lazymatch goal with |- pres _ (ignore _) => refine (pres_ignore _ _ _) | _ => idtac end.
  - apply frame_IssueNonce; apply _.
  - apply pres_VerifyJWS; [apply _|]. intros. apply frame_ConsumeNonce; apply _.
  - unfold NewAccount, create_account, acme_audit.
    repeat first [simple apply evolve_CreateAccount | frame_step].
  - unfold UpdateAccount, change_account, acme_audit.
    repeat first [simple apply evolve_UpdateContact | frame_step].
  - unfold DeactivateAccount, change_account, acme_audit.
    repeat first [simple apply evolve_Deactivate | frame_step].
  - unfold RotateAccountKey, swap_key, acme_audit.
    repeat first [simple apply evolve_UpdateJWK | frame_step].
  - apply frame_RevokeCert; apply _.
  - apply frame_CreateOrder; apply _.
  - apply frame_FinalizeOrder; apply _.
  - apply frame_Respond; apply _.
  - apply pres_pool_complete; [apply _..|]. intros. apply frame_outcome; apply _.
  - apply frame_GarbageCollect; apply _.
Qed.

Lemma evolve_calls cs : pres accounts_evolve (run_calls cs).
Proof. apply pres_for_each; [apply _|apply evolve_call]. Qed.

(** Rows are stored under their id, and no two accounts of a profile share a key. *)
Definition accounts_wf (m : gmap string ACMEAccount) : Prop :=
  map_Forall (λ k a, acc_ID a = k) m ∧
  ∀ k1 k2 a1 a2, m !! k1 = Some a1 → m !! k2 = Some a2 → acc_ProfileID a1 = acc_ProfileID a2 →
    acc_JWKThumbprint a1 = acc_JWKThumbprint a2 → k1 = k2.

Lemma existsb_rows (p : ACMEAccount → bool) m k a :
  existsb p (rows m) = false → m !! k = Some a → p a = false.
Proof.
  intros H Ha. apply not_true_iff_false. intros Hp. apply not_true_iff_false in H. apply H, existsb_exists.
  exists a. split; [|done]. apply list_elem_of_In, elem_of_rows. by exists k.
Qed.

(** A row replaced by one of the same identity keeps the table well-formed. *)
Lemma accounts_wf_replace m id a a' :
  accounts_wf m → m !! id = Some a → acc_ID a' = acc_ID a →
  (∀ k b, k ≠ id → m !! k = Some b → acc_ProfileID b = acc_ProfileID a' →
          acc_JWKThumbprint b ≠ acc_JWKThumbprint a') →
  accounts_wf (<[id := a']> m).
Proof.
  intros [Hk Hu] Ha Hid Hne. split.
  - apply map_Forall_insert_2; [|done]. rewrite Hid. by apply (Hk id).
  - intros k1 k2 a1 a2 [[<- <-]|[N1 H1]]%lookup_insert_Some [[<- <-]|[N2 H2]]%lookup_insert_Some HP HT;
      try done.
    + by edestruct (Hne k2 a2).
    + by edestruct (Hne k1 a1).
    + by eapply Hu.
Qed.

Lemma account_change_wf m m' : account_change m m' → accounts_wf m → accounts_wf m'.
Proof.
  intros H Hwf. pose proof Hwf as [Hk Hu]. destruct H as [m a Hn He|m id a c t Ha|m id a t Ha|m id a th pem t Ha He].
  - split; [by apply map_Forall_insert_2|].
    assert (∀ k b, m !! k = Some b → acc_ProfileID b = acc_ProfileID a →
      acc_JWKThumbprint b ≠ acc_JWKThumbprint a) as Hne.
    { intros k b Hb HP HT. pose proof (existsb_rows _ _ _ _ He Hb) as H. unfold AcmeRepo.same_key in H.
      by rewrite !bool_decide_true in H. }
    intros k1 k2 a1 a2 [[<- <-]|[N1 H1]]%lookup_insert_Some [[<- <-]|[N2 H2]]%lookup_insert_Some HP HT;
      try done; [by edestruct Hne|by edestruct Hne|by eapply Hu].
  - eapply accounts_wf_replace; [done..|]. cbn. intros k b N Hb HP HT. by destruct N, (Hu k id b a).
  - eapply accounts_wf_replace; [done..|]. cbn. intros k b N Hb HP HT. by destruct N, (Hu k id b a).
  - eapply accounts_wf_replace; [done..|]. cbn. intros k b N Hb HP HT.
    pose proof (existsb_rows _ _ _ _ He Hb) as H. unfold AcmeRepo.same_key in H.
    rewrite !bool_decide_true in H by done. rewrite bool_decide_false in H; [done|].
    by rewrite (Hk _ _ Hb).
Qed.

Lemma evolve_wf d d' : accounts_evolve d d' → accounts_wf (is_accounts d) → accounts_wf (is_accounts d').
Proof. unfold accounts_evolve. induction 1; [done|]. eauto using account_change_wf. Qed.

(** Whatever calls the server handles and whatever fails in between, every account row
    stays under its own id and no two accounts of a profile ever share a key. *)
Theorem acme_accounts_invariant cs w :
  accounts_wf (is_accounts (w_db w)) → accounts_wf (is_accounts (w_db (snd (run_calls cs w)))).
Proof. apply evolve_wf, evolve_calls. Qed.

(** *** Deactivation *)
Definition locked_out (id : string) (m : gmap string ACMEAccount) : Prop :=
  ∃ a, m !! id = Some a ∧ acc_Status a ≠ ACMEAccountStatusValid.

Lemma account_change_locked id m m' : account_change m m' → locked_out id m → locked_out id m'.
Proof.
  intros H (a & Ha & Hs). unfold locked_out.
  destruct H as [m b Hn _|m id' b c t Hb|m id' b t Hb|m id' b th pem t Hb _].
  - exists a. rewrite lookup_insert_ne by congruence. done.
  - destruct (decide (id' = id)) as [->|]; [|exists a; by rewrite lookup_insert_ne].
    rewrite lookup_insert_eq. eexists. split; [done|]. cbn. congruence.
  - destruct (decide (id' = id)) as [->|]; [|exists a; by rewrite lookup_insert_ne].
    rewrite lookup_insert_eq. by eexists.
  - destruct (decide (id' = id)) as [->|]; [|exists a; by rewrite lookup_insert_ne].
    rewrite lookup_insert_eq. eexists. split; [done|]. cbn. congruence.
Qed.

Lemma evolve_locked id d d' :
  accounts_evolve d d' → locked_out id (is_accounts d) → locked_out id (is_accounts d').
Proof. unfold accounts_evolve. induction 1; [done|]. eauto using account_change_locked. Qed.

Lemma hoare_ConsumeNonce_accounts n m :
  hoare (λ d, is_accounts d = m) (AcmeRepo.ConsumeNonce n) (λ _ d, is_accounts d = m).
Proof.
  unfold AcmeRepo.ConsumeNonce. apply hoare_bind with (λ _ d, is_accounts d = m); [by apply hoare_now|].
  intros t. apply hoare_exec; intros d Hd; repeat case_match; done.
Qed.

(** The account of an accepted request is a valid row, and its stored key signed. *)
Lemma VerifyJWS_account body url new kid w v w' acct :
  VerifyJWS body url new kid w = (Ok v, w') → vr_Account v = Some acct →
  ∃ id jws key, is_accounts (w_db w) !! id = Some acct ∧ acc_Status acct = ACMEAccountStatusValid ∧
    ParseSigned body AllowedSignatureAlgorithms = Ok jws ∧
    ParseJWKFromPEM (acc_JWKPEM acct) = Ok key ∧ jws_Verify jws key = Ok (vr_Payload v).
Proof.
  unfold VerifyJWS, Jws.VerifyJWS. cbn [vc_ConsumeNonce].
  destruct (parse_request body url) as [[[jws sig] url']|e] eqn:Ep; [|by intros [=]].
  intros (c & w1 & Hc & H)%bind_inv. destruct c as [[]|e]; [|by simplify_eq H].
  destruct (check_key_choice sig new); [|by simplify_eq H].
  apply bind_inv in H as (k & w2 & Hk & H).
  destruct k as [[key acct']|e]; [|by simplify_eq H].
  unfold verify_signature in H. destruct (jws_Verify jws key) as [p|e] eqn:Ev; [|by simplify_eq H].
  case_bool_decide; [|by simplify_eq H]. injection H as <- <-. cbn [vr_Account vr_Payload]. intros ->.
  assert (is_accounts (w_db w1) = is_accounts (w_db w)) as Hw.
  { pose proof (hoare_ConsumeNonce_accounts (ph_Nonce sig) (is_accounts (w_db w)) w eq_refl) as Hp.
    by rewrite Hc in Hp. }
  assert (ParseSigned body AllowedSignatureAlgorithms = Ok jws) as Hj.
  { revert Ep. unfold parse_request. repeat case_match; try done. by intros [= <- _ _]. }
  clear Hc Ep. unfold resolve_key in Hk. destruct (ph_JSONWebKey sig); [by case_match|].
  destruct (accountIDFromKID _ _) as [id|]; [|done]. cbn [vc_LookupAccount] in Hk.
  apply bind_inv in Hk as (r & w3 & Hr & Hk). destruct r as [row|]; [|done].
  case_bool_decide as Hs; cbn [negb] in Hk; [|done].
  destruct (ParseJWKFromPEM (acc_JWKPEM row)) as [key'|] eqn:Ek; [|done]. injection Hk as <- <- <-.
  exists id, jws, key'. split_and!; try done. rewrite <-Hw.
  unfold accountAdapter, AcmeRepo.GetAccountByID in Hr. apply bind_inv in Hr as (q & w4 & Hq & Hr).
  apply bind_inv in Hq as (q' & w5 & Hq' & Hq). revert Hq'. unfold sql_query, next_fault, mbind, M_bind, get_db.
  destruct (env_faults (w_env w1)) as [|[| |]]; cbn; intros [= <- <-];
    injection Hq as <- <-; injection Hr as Hr _; try done;
    destruct (is_accounts (w_db w1) !! id); cbn in Hr; try done; by injection Hr as ->.
Qed.

(** The audit row of a transaction leaves the accounts alone. *)
Definition same_accounts (d d' : IssuanceDB) : Prop := is_accounts d' = is_accounts d.
#[local] Instance same_accounts_preorder : PreOrder same_accounts.
Proof. split; [done|]. intros d1 d2 d3. unfold same_accounts. congruence. Qed.
#[local] Instance same_accounts_store : Frame same_accounts set_store.
Proof. done. Qed.

Lemma hoare_Deactivate id :
  hoare (λ _, True) (DeactivateAccount s id) (λ r d, is_Ok r = true → locked_out id (is_accounts d)).
Proof.
  unfold DeactivateAccount, change_account. destruct (as_wired s); [|by apply hoare_ret]. cbn [negb].
  apply hoare_bind with (λ (r : res unit) d, is_Ok r = true → locked_out id (is_accounts d)).
  - apply hoare_WithinTx; [|done]. intros d _.
    apply hoare_bind with (λ (u : res unit) t, tx_committed t = d ∧
      (is_Ok u = true → locked_out id (is_accounts (tx_view t)))).
    + unfold AcmeRepo.UpdateAccountStatusWithTx, AcmeRepo.update_account.
      apply hoare_bind with (λ _ t, t = mkTxn d d); [by apply hoare_now|]. intros t.
      apply hoare_tx_exec; intros tx ->; cbn; repeat case_match; cbn; split; try done.
      intros _. eexists. by rewrite lookup_insert_eq.
    + intros [[]|e]; [|apply hoare_ret; naive_solver].
      eapply hoare_conseq with (P' := λ t, tx_committed t = d ∧ locked_out id (is_accounts (tx_view t)));
        [apply (hoare_audit same_accounts)| |].
      * intros t t' [H3 H4] [H1 H2]. rewrite H3, H4. done.
      * intros t [H1 H2]. split; [done|]. by apply H2.
      * intros r t [H1 H2]. split; [done|]. intros u ->. done.
  - intros [[]|e]; [|by apply hoare_ret].
    eapply hoare_conseq with (P' := λ d, locked_out id (is_accounts d));
      [apply hoare_reads; unfold LookupAccount, AcmeRepo.GetAccountByID; frame_op| |]; cbn; auto.
Qed.

(** A deactivated account is out for good: after [DeactivateAccount] succeeded, no later
    call brings the account back and no request is accepted on its behalf, whatever the
    server handles and whatever fails in between. *)
Theorem deactivated_account_locked_out id w a w1 cs w2 :
  accounts_wf (is_accounts (w_db w)) → DeactivateAccount s id w = (Ok a, w1) →
  w2 = snd (run_calls cs w1) →
  ∀ body url new kid v acct, fst (VerifyJWS body url new kid w2) = Ok v →
    vr_Account v = Some acct → acc_ID acct ≠ id.
Proof.
  intros Hwf Hd -> body url new kid v acct Hv Ha Hid.
  pose proof (hoare_Deactivate id w I) as Hl. rewrite Hd in Hl. specialize (Hl eq_refl). cbn in Hl.
  pose proof (evolve_call (CallDeactivateAccount id) w) as Hwf1. cbn [AcmeService.run_call] in Hwf1.
  unfold ignore, mbind, M_bind in Hwf1. rewrite Hd in Hwf1. apply evolve_wf in Hwf1; [|exact Hwf]. cbn in Hwf1.
  pose proof (evolve_calls cs w1) as He. pose proof (evolve_wf _ _ He Hwf1) as [Hk _].
  pose proof (evolve_locked id _ _ He Hl) as (b & Hb & Hn).
  destruct (VerifyJWS body url new kid _) as [r w3] eqn:E3. cbn in Hv. subst r.
  destruct (VerifyJWS_account _ _ _ _ _ _ _ _ E3 Ha) as (id' & jws & key & Hl' & Hs & _).
  rewrite (Hk _ _ Hl') in Hid. subst id'. congruence.
Qed.

(** *** Key rollover *)

(** The table after a swap: the row had the expected key, nobody else has the new one. *)
Definition swapped (id old new pem : string) (m m' : gmap string ACMEAccount) : Prop :=
  ∃ row t, m !! id = Some row ∧ acc_JWKThumbprint row = old ∧ m' = <[id := AcmeRepo.with_key new pem t row]> m.

Lemma hoare_UpdateJWK id old new pem d :
  hoare (λ t, t = mkTxn d d) (AcmeRepo.UpdateAccountJWKWithTx id old new pem) (λ r t,
    tx_committed t = d ∧ (is_Ok r = true → swapped id old new pem (is_accounts d) (is_accounts (tx_view t)))).
Proof.
  unfold AcmeRepo.UpdateAccountJWKWithTx. apply hoare_bind with (λ _ t, t = mkTxn d d).
  { unfold tx_query. by apply hoare_query. }
  intros q. apply hoare_case; [intros e _; apply hoare_ret; by intros t ->|]. intros cur _.
  destruct (negb _); [apply hoare_ret; by intros t ->|].
  apply hoare_bind with (λ _ t, t = mkTxn d d); [by apply hoare_now|]. intros t.
  apply hoare_tx_exec; intros tx ->; cbn [tx_view tx_committed tx_put]; [|done|by repeat case_match].
  destruct (is_accounts d !! id) as [row|] eqn:El; [|done]. case_bool_decide as Hc; [|done]. cbn [negb].
  case_match; [done|]. cbn. split; [done|]. intros _. by exists row, t.
Qed.

Lemma hoare_swap_key old new pem d :
  hoare (λ x, x = d) (swap_key old new pem) (λ r d',
    is_Ok r = true → swapped (acc_ID old) (acc_JWKThumbprint old) new pem (is_accounts d) (is_accounts d')).
Proof.
  unfold swap_key. apply hoare_WithinTx; [|done]. intros d1 ->.
  eapply hoare_bind; [apply hoare_UpdateJWK|]. intros [[]|e]; [|apply hoare_ret; naive_solver].
  eapply hoare_conseq with (P' := λ t, tx_committed t = d ∧
    swapped (acc_ID old) (acc_JWKThumbprint old) new pem (is_accounts d) (is_accounts (tx_view t)));
    [apply (hoare_audit same_accounts)| |].
  - intros t t' [H3 H4] [H1 H2]. rewrite H3, H4. done.
  - naive_solver.
  - intros r t [H1 H2]. split; [done|]. intros u ->. done.
Qed.

Lemma hoare_Rotate old k d :
  hoare (λ x, x = d) (RotateAccountKey s old k) (λ r d',
    is_Ok r = true → ∃ thumb pem, JWKThumbprint k = Ok thumb ∧ JWKToPEM k = Ok pem ∧
      swapped (acc_ID old) (acc_JWKThumbprint old) thumb pem (is_accounts d) (is_accounts d')).
Proof.
  unfold RotateAccountKey. destruct (as_wired s); [|by apply hoare_ret]. cbn [negb].
  apply hoare_bind with (λ _ x, x = d); [apply hoare_reads; eauto with certctl typeclass_instances|].
  intros []; [by apply hoare_ret|].
  destruct (JWKThumbprint k) as [thumb|e]; [|by apply hoare_ret].
  destruct (JWKToPEM k) as [pem|e]; [|by apply hoare_ret].
  apply hoare_bind with (λ _ x, x = d); [apply hoare_reads; eauto with certctl typeclass_instances|].
  intros [a|e]; [by apply hoare_ret|]. destruct (negb _); [by apply hoare_ret|].
  eapply hoare_bind; [apply hoare_swap_key|]. intros [[]|e']; [|by apply hoare_ret].
  apply hoare_bind with (λ _ d', swapped (acc_ID old) (acc_JWKThumbprint old) thumb pem
    (is_accounts d) (is_accounts d')); [apply hoare_now; intros d' _ H; by apply H|].
  intros t. apply hoare_ret. eauto 6.
Qed.

(** A key rollover takes over at once and loses no update: when [RotateAccountKey]
    succeeds, the account still had the key the request was checked against, and from then on
    a request on behalf of the account is accepted only if the new key signed it. *)
Theorem key_rollover_takes_over `{!JoseOk J} old k w a w1 :
  accounts_wf (is_accounts (w_db w)) → jwk_Valid k = true → RotateAccountKey s old k w = (Ok a, w1) →
  (∃ row, is_accounts (w_db w) !! acc_ID old = Some row ∧ acc_JWKThumbprint row = acc_JWKThumbprint old) ∧
  ∀ body url new kid v acct, fst (VerifyJWS body url new kid w1) = Ok v → vr_Account v = Some acct →
    acc_ID acct = acc_ID old →
    ∃ jws, ParseSigned body AllowedSignatureAlgorithms = Ok jws ∧ jws_Verify jws k = Ok (vr_Payload v).
Proof.
  intros Hwf Hk Hr. pose proof (hoare_Rotate old k _ w eq_refl) as H. rewrite Hr in H.
  destruct (H eq_refl) as (thumb & pem & Ht & Hp & row & t & Hrow & Hold & Hm).
  split; [by exists row|]. intros body url new kid v acct Hv Ha Hid.
  pose proof (evolve_call (CallRotateAccountKey old k) w) as He. cbn [AcmeService.run_call] in He.
  unfold ignore, mbind, M_bind in He. rewrite Hr in He. pose proof (evolve_wf _ _ He Hwf) as [Hkey _].
  cbn [snd] in *. destruct (VerifyJWS body url new kid w1) as [r w3] eqn:E3. cbn in Hv. subst r.
  destruct (VerifyJWS_account _ _ _ _ _ _ _ _ E3 Ha) as (id & jws & key & Hl & Hs & Hj & Hpem & Hver).
  rewrite (Hkey _ _ Hl) in Hid. subst id. rewrite Hm, lookup_insert_eq in Hl. injection Hl as <-.
  cbn in Hpem. rewrite (key_text_roundtrip _ _ Hp Hk) in Hpem. injection Hpem as <-. eauto.
Qed.
End accounts.

(** ** Concrete runs *)
Definition acme_profile (mode : string) : CertificateProfile :=
  mkProfile "p" "p" "" [] 0 [] [] "" false false [] mode false true 0 0.
Definition acme_store (mode : string) : DB := mkDB ∅ ∅ ∅ ∅ ∅ ∅ [] {[ "p" := acme_profile mode ]} [].

(** An account whose key is the text "key". *)
Definition acme_account : ACMEAccount :=
  mkAccount "acme-acc-1" "a2V5" match JWKToPEM (J:=toy_jose) "key" with Ok p => p | Err _ => "" end [] "valid"
    "p" "" 0 0.
Definition acme_db (mode : string) (orders : gmap string ACMEOrder) : IssuanceDB :=
  mkIssuanceDB (acme_store mode) ∅ {[ "iss" ]} ∅ ∅ [] ∅ ∅ []
    {[ "n1" := mkNonce 0 1000 false; "n2" := mkNonce 0 1000 false ]} {[ "acme-acc-1" := acme_account ]}
    orders ∅ ∅ [].
Definition acme_conn : IssuerConnector :=
  mkConnector (λ _ _ _ _ _ _ _, Ok (mkIssuance "cert" "chain" "0a" 0 1000))
    (λ _ _ _ _ _ _ _, Err (ErrMsg "no")) (λ _ _ _, Ok tt) (λ _ l, Ok "") (λ _ r, Ok "")
    (λ _ _, Ok None).
Definition acme_svc : ACMEService :=
  mkACMEService (mkACMEConfig "" "p" 100 0 0 true 0 0 0 0 0) true (Some [("iss", acme_conn)]) true None true None.
Definition acme_world (mode : string) (orders : gmap string ACMEOrder) : World IssuanceDB :=
  mkWorld (acme_db mode orders) (mkEnv 10 [] [] 0).

Definition ex_uuid (k : N) : string := "uuid".
Definition ex_policy (c : ManagedCertificate) (d : IssuanceDB) : res (list (string * string)) := Ok [].
Definition ex_parse (der : string) : res (Z * string) := Err (ErrMsg "not a certificate").
Definition ex_pick (k : N) : nat := O.
Notation ex_run_calls :=
  (run_calls (RT:=toy_runtime) (J:=toy_jose) (E:=toy_entropy) acme_svc ex_uuid ex_policy ex_parse ex_pick).
Notation ex_verify := (VerifyJWS (J:=toy_jose)).

Lemma acme_world_accounts_wf mode orders : accounts_wf (is_accounts (w_db (acme_world mode orders))).
Proof.
  change (is_accounts _) with ({[ "acme-acc-1" := acme_account ]} : gmap string ACMEAccount). split.
  - by apply map_Forall_singleton.
  - intros k1 k2 a1 a2 [<- _]%lookup_singleton_Some [<- _]%lookup_singleton_Some. done.
Qed.

Lemma acme_request_accepted_once_witness :
  let w := acme_world "" ∅ in
  let run := ex_verify "n1||key" "https://ca/acme" true None w in
  let w2 := snd (ex_run_calls [CallIssueNonce; CallGarbageCollect] (snd run)) in
  is_Ok (fst run) = true ∧
  ∀ v', fst (ex_verify "n1||key" "https://ca/acme" true None w2) = Ok v' → vr_Nonce (J:=toy_jose) v' ≠ "n1".
Proof.
  intros w run w2. split; [vm_compute; reflexivity|].
  pose (v := mkVerified (J:=toy_jose) "payload" "ES256" "https://ca/acme" "n1" None (Some "key")).
  assert (fst run = Ok v) as Hv by (vm_compute; reflexivity).
  assert (run = (Ok v, snd run)) as H by (rewrite <-Hv; apply surjective_pairing).
  refine (acme_request_accepted_once (RT:=toy_runtime) (J:=toy_jose) (E:=toy_entropy) acme_svc ex_uuid
    ex_pick ex_parse ex_policy _ _ _ _ w v (snd run) [CallIssueNonce; CallGarbageCollect] w2 H _ _ _ _ _ _).
  - split; [vm_compute; discriminate|]. split; [exact I|exact I].
  - reflexivity.
Defined.

Lemma acme_accounts_invariant_witness :
  let w := acme_world "" ∅ in
  let w2 := snd (ex_run_calls [CallNewAccount (J:=toy_jose) "p" "other" [] false true] w) in
  size (is_accounts (w_db w2)) = 2%nat ∧ accounts_wf (is_accounts (w_db w2)).
Proof.
  intros w w2. split; [vm_compute; reflexivity|].
  apply (acme_accounts_invariant (RT:=toy_runtime) (J:=toy_jose) (E:=toy_entropy) acme_svc).
  apply acme_world_accounts_wf.
Defined.

Lemma deactivated_account_locked_out_witness :
  let w := acme_world "" ∅ in
  let run := DeactivateAccount (RT:=toy_runtime) acme_svc "acme-acc-1" w in
  let w2 := snd (ex_run_calls [CallNewAccount (J:=toy_jose) "p" "key" [] false true] (snd run)) in
  is_Ok (fst run) = true ∧
  ∀ v acct, fst (ex_verify "n1|https://ca/account/acme-acc-1|key" "https://ca/acme" false None w2) = Ok v →
    vr_Account (J:=toy_jose) v = Some acct → acc_ID acct ≠ "acme-acc-1".
Proof.
  intros w run w2. assert (is_Ok (fst run) = true) as Hok by (vm_compute; reflexivity). split; [exact Hok|].
  apply is_Ok_inv in Hok as [a Ha].
  assert (run = (Ok a, snd run)) as H by (rewrite <-Ha; apply surjective_pairing).
  refine (deactivated_account_locked_out (RT:=toy_runtime) (J:=toy_jose) (E:=toy_entropy) acme_svc ex_uuid
    ex_pick ex_parse ex_policy _ w a (snd run) _ w2 _ H _ _ _ _ _).
  - apply acme_world_accounts_wf.
  - reflexivity.
Defined.

Lemma key_rollover_takes_over_witness :
  let w := acme_world "" ∅ in
  let run := RotateAccountKey (RT:=toy_runtime) (J:=toy_jose) acme_svc acme_account "new key" w in
  is_Ok (fst run) = true ∧
  is_Ok (fst (ex_verify "n1|https://ca/account/acme-acc-1|new key" "https://ca/acme" false None (snd run))) = true ∧
  ∀ v acct, fst (ex_verify "n1|https://ca/account/acme-acc-1|key" "https://ca/acme" false None (snd run)) = Ok v →
    vr_Account (J:=toy_jose) v = Some acct → acc_ID acct = "acme-acc-1" →
    ∃ jws, ParseSigned (Jose:=toy_jose) "n1|https://ca/account/acme-acc-1|key" AllowedSignatureAlgorithms = Ok jws ∧
      jws_Verify (Jose:=toy_jose) jws "new key" = Ok (vr_Payload (J:=toy_jose) v).
Proof.
  intros w run. assert (is_Ok (fst run) = true) as Hok by (vm_compute; reflexivity). split; [exact Hok|].
  split; [vm_compute; reflexivity|].
  apply is_Ok_inv in Hok as [a Ha].
  assert (run = (Ok a, snd run)) as H by (rewrite <-Ha; apply surjective_pairing).
  refine (proj2 (key_rollover_takes_over (RT:=toy_runtime) (J:=toy_jose) (E:=toy_entropy) acme_svc ex_uuid
    ex_pick ex_parse ex_policy acme_account "new key" w a (snd run) _ _ H) _ _ _ _).
  - apply acme_world_accounts_wf.
  - reflexivity.
Defined.
