(* ===== verification/AcmeOrderFacts.v ===== *)
(** * Orders, authorizations and challenges of the ACME server

    [acme_wf] relates the rows of an order, its authorizations, their challenges and the
    submissions waiting in the validator pool.  Every call keeps it, so an order gets past
    pending only with all its authorizations valid, each backed by a valid challenge; and a
    challenge turns valid only by a verdict of its validator. *)

From Stdlib Require Import ZArith Lia Ascii String.
From stdpp Require Import prelude gmap strings list sorting pretty.
From S2P Require Import Prelude AuditTrail Store Transactions Approval GoBytes KeyCrypto AcmeWire.
From S2P Require Import AcmeWireFacts CertStore Revocation RevocationFacts Acme AcmeFrame AcmeFacts.
Import Text Problems Orders Keys Jws AcmeService.

(** Past pending, and not failed. *)
Definition proceeding (status : string) : Prop :=
  status ∈ [ACMEOrderStatusReady; ACMEOrderStatusProcessing; ACMEOrderStatusValid].
#[global] Instance proceeding_dec status : Decision (proceeding status).
Proof. apply _. Defined.

Notation submitted := (λ sub : Submission, ch_ID (sb_Challenge sub)).

Record acme_wf (d : IssuanceDB) : Prop := {
  wf_orders k o : is_orders d !! k = Some o → ord_ID o = k;
  wf_authzs k a : is_authzs d !! k = Some a → az_ID a = k ∧ is_Some (is_orders d !! az_OrderID a);
  wf_challenges k c : is_challenges d !! k = Some c → ch_ID c = k ∧ is_Some (is_authzs d !! ch_AuthzID c);
  wf_one k1 k2 c1 c2 : is_challenges d !! k1 = Some c1 → is_challenges d !! k2 = Some c2 →
    ch_AuthzID c1 = ch_AuthzID c2 → k1 = k2;
  wf_proven k o z a : is_orders d !! k = Some o → proceeding (ord_Status o) →
    is_authzs d !! z = Some a → az_OrderID a = k → az_Status a = ACMEAuthzStatusValid;
  wf_backed z a k c : is_authzs d !! z = Some a → az_Status a = ACMEAuthzStatusValid →
    is_challenges d !! k = Some c → ch_AuthzID c = z → ch_Status c = ACMEChallengeStatusValid;
  wf_pool sub : sub ∈ is_pool d → ∃ c a,
    is_challenges d !! ch_ID (sb_Challenge sub) = Some c ∧ ch_Status c = ACMEChallengeStatusProcessing ∧
    ch_AuthzID c = ch_AuthzID (sb_Challenge sub) ∧
    is_authzs d !! ch_AuthzID c = Some a ∧ az_OrderID a = az_OrderID (sb_Authz sub);
  wf_pool_once : NoDup (submitted <$> is_pool d)
}.

(** Every authorization has a challenge. *)
Definition challenged (d : IssuanceDB) (z : string) : Prop :=
  ∃ k c, is_challenges d !! k = Some c ∧ ch_AuthzID c = z.
Definition all_challenged (d : IssuanceDB) : Prop := ∀ z, is_Some (is_authzs d !! z) → challenged d z.

Definition acme_ok (d : IssuanceDB) : Prop := acme_wf d ∧ all_challenged d.

(** The rest of the database does not matter. *)
Definition same_acme (d d' : IssuanceDB) : Prop :=
  is_orders d' = is_orders d ∧ is_authzs d' = is_authzs d ∧ is_challenges d' = is_challenges d ∧
  is_pool d' = is_pool d.
#[global] Instance same_acme_preorder : PreOrder same_acme.
Proof. split; [by intros d|]. unfold same_acme. intros d1 d2 d3. naive_solver congruence. Qed.
#[global] Instance same_acme_store : Frame same_acme set_store. Proof. done. Qed.
#[global] Instance same_acme_versions : Frame same_acme set_versions. Proof. done. Qed.
#[global] Instance same_acme_nonces : Frame same_acme set_nonces. Proof. done. Qed.
#[global] Instance same_acme_accounts : Frame same_acme set_accounts. Proof. done. Qed.
#[global] Instance same_acme_revocations : Frame same_acme set_revocations. Proof. done. Qed.
#[global] Instance same_acme_ocsp : Frame same_acme set_ocsp. Proof. done. Qed.

Lemma same_acme_wf d d' : same_acme d d' → acme_wf d → acme_wf d'.
Proof. intros (Ho & Ha & Hc & Hp) []. by split; rewrite ?Ho, ?Ha, ?Hc, ?Hp. Qed.

Lemma same_acme_ok d d' : same_acme d d' → acme_ok d → acme_ok d'.
Proof.
  intros Hs [Hw Ha]. split; [by eapply same_acme_wf|]. destruct Hs as (Ho & Hz & Hc & Hp).
  unfold all_challenged, challenged. by rewrite Hz, Hc.
Qed.

(** ** Changes of one row *)

(** An order that proceeds may take any status, one that does not may be failed. *)
Lemma wf_set_order d k row o :
  acme_wf d → is_orders d !! k = Some row → ord_ID o = ord_ID row →
  (proceeding (ord_Status o) → ∀ z a, is_authzs d !! z = Some a → az_OrderID a = k →
     az_Status a = ACMEAuthzStatusValid) →
  acme_wf (set_orders (<[k := o]>) d).
Proof.
  intros Hw Hk Hid Hp. pose proof Hw as []. split; cbn; auto.
  - intros k' o' [[<- <-]|[_ H]]%lookup_insert_Some; [rewrite Hid; by apply wf_orders0|by apply wf_orders0].
  - intros z a Ha. destruct (wf_authzs0 z a Ha) as [H1 H2]. split; [done|].
    destruct (decide (az_OrderID a = k)) as [->|]; [by rewrite lookup_insert_eq|by rewrite lookup_insert_ne].
  - intros k' o' z a [[<- <-]|[_ H]]%lookup_insert_Some; [by eauto|by apply wf_proven0].
Qed.

(** A proceeding order. *)
Definition proceeds (k : string) (d : IssuanceDB) : Prop :=
  ∃ row, is_orders d !! k = Some row ∧ proceeding (ord_Status row).

Lemma wf_set_proceeding d k row o :
  acme_wf d → is_orders d !! k = Some row → proceeding (ord_Status row) → ord_ID o = ord_ID row →
  acme_wf (set_orders (<[k := o]>) d).
Proof. intros Hw Hk Hp Hid. eapply wf_set_order; [done..|]. intros _ z a. by eapply wf_proven. Qed.

(** A new order has no authorizations yet. *)
Lemma wf_new_order d o :
  acme_wf d → is_orders d !! ord_ID o = None → acme_wf (set_orders (<[ord_ID o := o]>) d).
Proof.
  intros Hw Hn. pose proof Hw as []. split; cbn; auto.
  - intros k' o' [[<- <-]|[_ H]]%lookup_insert_Some; [done|by apply wf_orders0].
  - intros z a Ha. destruct (wf_authzs0 z a Ha) as [H1 H2]. split; [done|].
    destruct (decide (az_OrderID a = ord_ID o)) as [->|]; [by rewrite lookup_insert_eq|by rewrite lookup_insert_ne].
  - intros k' o' z a [[<- <-]|[_ H]]%lookup_insert_Some; [|by apply wf_proven0].
    intros _ Ha Hz. destruct (wf_authzs0 z a Ha) as [_ [? H2]]. congruence.
Qed.

(** A new authorization: valid if its order proceeds. *)
Lemma wf_new_authz d a :
  acme_wf d → is_authzs d !! az_ID a = None → is_Some (is_orders d !! az_OrderID a) →
  (proceeds (az_OrderID a) d → az_Status a = ACMEAuthzStatusValid) →
  acme_wf (set_authzs (<[az_ID a := a]>) d) ∧ ¬ challenged d (az_ID a).
Proof.
  intros Hw Hn Ho Hp. assert (¬ challenged d (az_ID a)) as Hch.
  { intros (k & c & Hc & Hz). destruct (wf_challenges _ Hw k c Hc) as [_ [? H]]. congruence. }
  split; [|done]. pose proof Hw as []. split; cbn; auto.
  - intros z b [[<- <-]|[_ H]]%lookup_insert_Some; [done|by apply wf_authzs0].
  - intros k c Hc. destruct (wf_challenges0 k c Hc) as [H1 H2]. split; [done|].
    destruct (decide (ch_AuthzID c = az_ID a)) as [->|]; [by rewrite lookup_insert_eq|by rewrite lookup_insert_ne].
  - intros k o z b Hk Hpr [[<- <-]|[_ H]]%lookup_insert_Some Hz; [|by eapply wf_proven0].
    apply Hp. exists o. by rewrite Hz.
  - intros z b k c [[<- <-]|[_ H]]%lookup_insert_Some Hv Hc Hz; [|by eapply wf_backed0].
    destruct Hch. by exists k, c.
  - intros sub Hs. destruct (wf_pool0 sub Hs) as (c & b & H1 & H2 & H3 & H4 & H5).
    exists c, b. split_and!; try done. rewrite lookup_insert_ne; [done|]. intros Heq. congruence.
Qed.

(** The challenge of an authorization that has none. *)
Lemma wf_new_challenge d c a :
  acme_wf d → is_challenges d !! ch_ID c = None → is_authzs d !! ch_AuthzID c = Some a →
  ¬ challenged d (ch_AuthzID c) →
  (az_Status a = ACMEAuthzStatusValid → ch_Status c = ACMEChallengeStatusValid) →
  acme_wf (set_challenges (<[ch_ID c := c]>) d).
Proof.
  intros Hw Hn Ha Hc Hv. pose proof Hw as []. split; cbn; auto.
  - intros k b [[<- <-]|[_ H]]%lookup_insert_Some; [by split|by apply wf_challenges0].
  - intros k1 k2 c1 c2 [[<- <-]|[_ H1]]%lookup_insert_Some [[<- <-]|[_ H2]]%lookup_insert_Some Hz; try done.
    + destruct Hc. by exists k2, c2.
    + destruct Hc. by exists k1, c1.
    + by eapply wf_one0.
  - intros z b k c' Hb Hs [[<- <-]|[_ H]]%lookup_insert_Some Hz; [|by eapply wf_backed0].
    subst z. rewrite Ha in Hb. injection Hb as <-. auto.
  - intros sub Hs. destruct (wf_pool0 sub Hs) as (c' & b & H1 & H2).
    exists c', b. rewrite lookup_insert_ne; [done|]. intros Heq. congruence.
Qed.

(** A challenge that is not valid may start. *)
Lemma wf_start_challenge d k row c :
  acme_wf d → is_challenges d !! k = Some row → ch_Status row ≠ ACMEChallengeStatusValid →
  ch_ID c = ch_ID row → ch_AuthzID c = ch_AuthzID row → ch_Status c = ACMEChallengeStatusProcessing →
  acme_wf (set_challenges (<[k := c]>) d).
Proof.
  intros Hw Hk Hs Hid Hz Hp. pose proof Hw as []. destruct (wf_challenges0 k row Hk) as [K1 K2].
  split; cbn; auto.
  - intros k' b [[<- <-]|[_ H]]%lookup_insert_Some; [rewrite Hid, Hz; done|by apply wf_challenges0].
  - intros k1 k2 c1 c2 [[<- <-]|[_ H1]]%lookup_insert_Some [[<- <-]|[_ H2]]%lookup_insert_Some He; try done.
    + rewrite Hz in He. by eapply wf_one0.
    + rewrite Hz in He. by eapply wf_one0.
    + by eapply wf_one0.
  - intros z b k' c' Hb Hv [[<- <-]|[_ H]]%lookup_insert_Some Hc; [|by eapply wf_backed0].
    destruct Hs. eapply wf_backed0; [done..|]. congruence.
  - intros sub Hsub. destruct (wf_pool0 sub Hsub) as (c' & b & H1 & H2 & H3 & H4 & H5).
    destruct (decide (ch_ID (sb_Challenge sub) = k)) as [He|Hne].
    + rewrite He in *. rewrite lookup_insert_eq. assert (c' = row) as -> by congruence.
      exists c, b. split_and!; congruence.
    + exists c', b. by rewrite lookup_insert_ne.
Qed.

(** A started challenge that nobody is validating may be submitted. *)
Lemma wf_submit d sub c a :
  acme_wf d → is_challenges d !! ch_ID (sb_Challenge sub) = Some c →
  ch_Status c = ACMEChallengeStatusProcessing → ch_AuthzID c = ch_AuthzID (sb_Challenge sub) →
  is_authzs d !! ch_AuthzID c = Some a → az_OrderID a = az_OrderID (sb_Authz sub) →
  ch_ID (sb_Challenge sub) ∉ submitted <$> is_pool d →
  acme_wf (set_pool (λ l, l ++ [sub]) d).
Proof.
  intros Hw H1 H2 H3 H4 H5 Hn. pose proof Hw as []. split; cbn; auto.
  - intros s [Hs|Hs]%elem_of_app; [by apply wf_pool0|]. apply list_elem_of_singleton in Hs as ->. eauto 8.
  - rewrite fmap_app. apply NoDup_app. split_and!; [done| |apply NoDup_singleton].
    intros x Hx Hx'. apply list_elem_of_singleton in Hx'. by subst.
Qed.

Lemma wf_unsubmit d i : acme_wf d → acme_wf (set_pool (delete i) d).
Proof.
  intros Hw. pose proof Hw as []. assert (delete i (is_pool d) `sublist_of` is_pool d) as Hs
    by apply sublist_delete.
  split; cbn; auto.
  - intros s Hin. apply wf_pool0. by eapply elem_of_sublist.
  - eapply sublist_NoDup; [exact wf_pool_once0|]. by apply fmap_sublist.
Qed.

(** What the pool holds about the challenge being judged, once its submission is taken off. *)
Record judgeable (d : IssuanceDB) (k z oid : string) : Prop := {
  jd_row : ∃ row, is_challenges d !! k = Some row ∧ ch_AuthzID row = z ∧
                  ch_Status row = ACMEChallengeStatusProcessing;
  jd_authz : ∃ a, is_authzs d !! z = Some a ∧ az_OrderID a = oid;
  jd_alone : k ∉ submitted <$> is_pool d
}.

(** The order of such a challenge is not past pending. *)
Lemma judgeable_pending d k z oid : acme_wf d → judgeable d k z oid → ¬ proceeds oid d.
Proof.
  intros Hw [(row & Hr & Hz & Hp) (a & Ha & Ho) _] (o & Hord & Hpr).
  pose proof (wf_proven _ Hw _ _ _ _ Hord Hpr Ha Ho) as Hv.
  pose proof (wf_backed _ Hw _ _ _ _ Ha Hv Hr Hz) as Hc. by rewrite Hp in Hc.
Qed.

(** The verdict on the challenge and its authorization. *)
Lemma wf_judge d k z oid row a c a' :
  acme_wf d → judgeable d k z oid → is_challenges d !! k = Some row → is_authzs d !! z = Some a →
  ch_ID c = ch_ID row → ch_AuthzID c = ch_AuthzID row → az_ID a' = az_ID a → az_OrderID a' = az_OrderID a →
  (az_Status a' = ACMEAuthzStatusValid → ch_Status c = ACMEChallengeStatusValid) →
  acme_wf (set_authzs (<[z := a']>) (set_challenges (<[k := c]>) d)).
Proof.
  intros Hw Hj Hr Ha C1 C2 A1 A2 Hv. pose proof (judgeable_pending _ _ _ _ Hw Hj) as Hnp.
  destruct Hj as [(row' & Hr' & Hz & _) (b & Hb & Ho) Hn].
  rewrite Hr in Hr'. injection Hr' as <-. rewrite Ha in Hb. injection Hb as <-.
  pose proof Hw as []. split; cbn; auto.
  - intros z' b [[<- <-]|[_ H]]%lookup_insert_Some; [rewrite A1, A2; by apply wf_authzs0|by apply wf_authzs0].
  - intros k' c' Hc'. assert (∃ c0, is_challenges d !! k' = Some c0 ∧ ch_ID c' = ch_ID c0 ∧
      ch_AuthzID c' = ch_AuthzID c0) as (c0 & H0 & -> & ->).
    { apply lookup_insert_Some in Hc' as [[<- <-]|[_ H]]; eauto. }
    destruct (wf_challenges0 k' c0 H0) as [H1 H2]. split; [done|].
    destruct (decide (ch_AuthzID c0 = z)) as [->|]; [by rewrite lookup_insert_eq|by rewrite lookup_insert_ne].
  - intros k1 k2 c1 c2 [[<- <-]|[_ H1]]%lookup_insert_Some [[<- <-]|[_ H2]]%lookup_insert_Some He; try done.
    + rewrite C2 in He. by eapply wf_one0.
    + rewrite C2 in He. by eapply wf_one0.
    + by eapply wf_one0.
  - intros k' o z' b Hk Hpr [[<- <-]|[_ H]]%lookup_insert_Some Ho'; [|by eapply wf_proven0].
    destruct Hnp. exists o. by rewrite <-Ho, <-A2, Ho'.
  - intros z' b k' c' [[<- <-]|[Nz H]]%lookup_insert_Some Hs [[<- <-]|[Nk H']]%lookup_insert_Some Hc'; auto.
    + destruct Nk. eapply wf_one0; [done..|]. congruence.
    + congruence.
    + by eapply wf_backed0.
  - intros sub Hsub. destruct (wf_pool0 sub Hsub) as (c' & b & H1 & H2 & H3 & H4 & H5).
    assert (ch_ID (sb_Challenge sub) ≠ k) as Hne.
    { intros <-. apply Hn. by apply (list_elem_of_fmap_2 submitted). }
    rewrite lookup_insert_ne by done.
    destruct (decide (z = ch_AuthzID c')) as [Hzz|]; [|exists c', b; by rewrite lookup_insert_ne].
    exists c', a'. rewrite <-Hzz in *. rewrite lookup_insert_eq. split_and!; congruence.
Qed.

(** ** Challenges of authorizations *)
Lemma all_challenged_authz d z a :
  is_Some (is_authzs d !! z) → all_challenged d → all_challenged (set_authzs (<[z := a]>) d).
Proof.
  intros Hz H z'. cbn. intros Hs. apply H.
  destruct (decide (z' = z)) as [->|]; [done|by rewrite lookup_insert_ne in Hs].
Qed.

Lemma all_challenged_ch d k row c :
  is_challenges d !! k = Some row → ch_AuthzID c = ch_AuthzID row → all_challenged d →
  all_challenged (set_challenges (<[k := c]>) d).
Proof.
  intros Hk Hz H z Hs. destruct (H z Hs) as (k' & c' & Hc & Hc').
  destruct (decide (k' = k)) as [->|Hne]; unfold challenged; cbn.
  - exists k, c. rewrite lookup_insert_eq. split; [done|]. congruence.
  - exists k', c'. by rewrite lookup_insert_ne.
Qed.

(** ** Reads *)
Section lookups.
Context (P : IssuanceDB → Prop).

Lemma hoare_found {A} what op (f : IssuanceDB → option A) :
  hoare P (r ← sql_query op f; mret (AcmeRepo.found what r)) (λ r d, P d ∧ ∀ a, r = Ok a → f d = Some a).
Proof.
  apply hoare_bind with (λ r d, P d ∧ ∀ x, r = Ok x → f d = x).
  - apply hoare_query; intros d Hd; (split; [done|]); [by intros x [= <-]|done].
  - intros [x|e]; apply hoare_ret; intros d [Hd H]; split; try done.
    rewrite (H x eq_refl). unfold AcmeRepo.found. destruct x; [by intros ? [= <-]|done].
Qed.

Lemma hoare_not_found_as {A} e ctx (m : M IssuanceDB (res A)) (Q : A → IssuanceDB → Prop) :
  hoare P m (λ r d, P d ∧ ∀ a, r = Ok a → Q a d) →
  hoare P (r ← m; mret (not_found_as e ctx r)) (λ r d, P d ∧ ∀ a, r = Ok a → Q a d).
Proof.
  intros H. eapply hoare_bind; [exact H|]. intros [a|e']; apply hoare_ret; intros d [H1 H2]; split; try done.
Qed.

Lemma hoare_GetChallengeByID k :
  hoare P (AcmeRepo.GetChallengeByID k) (λ r d, P d ∧ ∀ c, r = Ok c → is_challenges d !! k = Some c).
Proof. apply hoare_found. Qed.
Lemma hoare_GetOrderByID k :
  hoare P (AcmeRepo.GetOrderByID k) (λ r d, P d ∧ ∀ o, r = Ok o → is_orders d !! k = Some o).
Proof. apply hoare_found. Qed.

Lemma hoare_LookupOrder k acc :
  hoare P (LookupOrder k acc) (λ r d, P d ∧ ∀ o, r = Ok o → is_orders d !! k = Some o ∧ ord_AccountID o = acc).
Proof.
  unfold LookupOrder. eapply hoare_bind; [apply hoare_GetOrderByID|].
  intros [o|e]; apply hoare_ret; intros d [H1 H2]; split; try done.
  cbn. case_bool_decide; [|done]. intros o' [= <-]. auto.
Qed.

Lemma hoare_owned_authz acc z :
  hoare P (owned_authz acc z) (λ r d, P d ∧ ∀ a, r = Ok a → is_authzs d !! z = Some a).
Proof.
  unfold owned_authz.
  apply hoare_bind with (λ r d, P d ∧ ∀ x, r = Ok x → is_authzs d !! z = Some x.1).
  - unfold AcmeRepo.GetAuthzByID.
    apply hoare_bind with (λ r d, P d ∧ ∀ x, r = Ok x → is_authzs d !! z = x).
    + apply hoare_query; intros d Hd; (split; [done|]); [by intros x [= <-]|done].
    + intros [[a|]|e]; cbn; [|by apply hoare_ret; intros d [? _]..].
      eapply hoare_bind; [apply hoare_reads; unfold AcmeRepo.ListChallengesByAuthz; frame_op|].
      intros [chs|e]; apply hoare_ret; intros d [H1 H2]; split; try done. intros x [= <-]. by apply H2.
  - intros [[a chs]|e]; [|by apply hoare_ret; intros d [? _]].
    eapply hoare_bind; [apply hoare_reads, pres_GetOrderByID, _|].
    intros [o|e]; apply hoare_ret; intros d [H1 H2]; split; try done.
    case_bool_decide; [|done]. intros x [= <-]. by apply (H2 (a, chs)).
Qed.

Lemma hoare_ListAuthzs k :
  hoare P (AcmeRepo.ListAuthzsByOrder k) (λ r d, P d ∧
    ∀ l, r = Ok l → ∀ a, a ∈ l ↔ az_OrderID a = k ∧ a ∈ rows (is_authzs d)).
Proof.
  unfold AcmeRepo.ListAuthzsByOrder. apply hoare_query; intros d Hd; (split; [done|]); [|done].
  intros l [= <-] a. by rewrite merge_sort_Permutation, list_elem_of_filter.
Qed.
End lookups.

(** ** The calls *)
Section calls.
Context `{RT : GoRuntime, J : Jose, E : Entropy} (s : ACMEService).
Context (uuid_New : N → string) (pick : N → nat) (ParseCertificate : string → res (Z * JWK)).
Context (ValidateCertificate : ManagedCertificate → IssuanceDB → res (list (string * string))).
Notation run_call := (run_call s uuid_New ValidateCertificate ParseCertificate pick).
Notation run_calls := (run_calls s uuid_New ValidateCertificate ParseCertificate pick).

(** *** CreateOrder *)

(** Inside the transaction: the order is there, and in challenge mode still pending. *)
Definition building (trust : bool) (oid : string) (d : IssuanceDB) (t : Txn IssuanceDB) : Prop :=
  tx_committed t = d ∧ acme_ok (tx_view t) ∧
  ∃ o, is_orders (tx_view t) !! oid = Some o ∧ (trust = false → ¬ proceeding (ord_Status o)).

Lemma building_same trust oid d t t' : in_tx same_acme t t' → building trust oid d t → building trust oid d t'.
Proof.
  intros [H1 H2] (H3 & H4 & o & H5 & H6). split; [congruence|]. split; [by eapply same_acme_ok|].
  destruct H2 as (-> & _). eauto.
Qed.

Lemma hoare_create_authz trust oid t id d :
  hoare (building trust oid d) (create_authz s trust oid t id)
    (λ r t, tx_committed t = d ∧ (is_Ok r = true → building trust oid d t)).
Proof.
  unfold create_authz. apply hoare_bind with (λ _, building trust oid d);
    [apply hoare_reads, pres_randIDSuffix, _|].
  intros [asuf|e]; [|by apply hoare_ret; intros tx [? _]]. cbv zeta. set (z := "acme-authz-" +:+ asuf).
  apply hoare_bind with (λ (r : res unit) tx, tx_committed tx = d ∧ (is_Ok r = true →
    acme_wf (tx_view tx) ∧ (∀ z', z' ≠ z → is_Some (is_authzs (tx_view tx) !! z') → challenged (tx_view tx) z') ∧
    ¬ challenged (tx_view tx) z ∧
    (∃ a, is_authzs (tx_view tx) !! z = Some a ∧ (trust = false → az_Status a ≠ ACMEAuthzStatusValid)) ∧
    ∃ o, is_orders (tx_view tx) !! oid = Some o ∧ (trust = false → ¬ proceeding (ord_Status o)))).
  - unfold AcmeRepo.CreateAuthzWithTx. case_match; [by apply hoare_ret; intros tx [? _]|].
    apply hoare_bind with (λ _, building trust oid d); [by apply hoare_now|]. intros t'. cbv zeta.
    cbn [az_ID az_OrderID az_Identifier az_Status az_ExpiresAt az_Wildcard az_CreatedAt].
    set (a := mkAuthz z oid id _ _ _ _ t').
    apply hoare_tx_exec; intros tx (H1 & [H2 Hch] & o & Ho & Hp); cbn [tx_committed tx_put]; [|done|by case_match].
    destruct (bool_decide _ && bool_decide _) eqn:Ec; [|by split]. cbn [fst snd tx_view].
    apply andb_true_iff in Ec as [Ec1%bool_decide_eq_true Ec2%bool_decide_eq_true].
    destruct (wf_new_authz (tx_view tx) a) as [Hw Hn]; [done..| |].
    { intros (o' & Ho' & Hp'). unfold a. cbn. destruct trust; [done|]. exfalso. apply (Hp eq_refl).
      cbn in Ho'. congruence. }
    split; [done|]. intros _. split_and!; [exact Hw| |exact Hn| |by exists o].
    + intros z' Hne Hz. apply Hch. unfold set_authzs in Hz. cbn in Hz. by rewrite lookup_insert_ne in Hz.
    + exists a. cbn. rewrite lookup_insert_eq. split; [done|]. by intros ->.
  - intros [[]|e]; [|by apply hoare_ret; intros tx [? _]].
    eapply hoare_bind; [apply hoare_reads, pres_randIDSuffix, _|]. intros c.
    eapply hoare_bind; [apply hoare_reads, pres_randIDSuffix, _|]. intros k.
    destruct c as [csuf|e]; [|by apply hoare_ret; intros tx [? _]].
    destruct k as [token|e]; [|by apply hoare_ret; intros tx [? _]].
    apply hoare_bind with (λ (r : res unit) t, tx_committed t = d ∧ (is_Ok r = true → building trust oid d t));
      [|intros [[]|e]; apply hoare_ret; intros tx [H1 H2]; by split].
    unfold AcmeRepo.CreateChallengeWithTx. case_match; [by apply hoare_ret; intros tx [? _]|].
    set (c := mkChallenge _ z _ _ _ _ _ _).
    apply hoare_tx_exec; intros tx [H1 H2]; cbn [tx_committed tx_put]; [|done|by case_match].
    destruct (H2 eq_refl) as (Hw & Hch & Hn & (a & Ha & Hv) & o & Ho & Hp).
    destruct (bool_decide _ && bool_decide _) eqn:Ec; [|by split]. cbn [fst snd tx_view].
    apply andb_true_iff in Ec as [Ec1%bool_decide_eq_true _].
    split; [done|]. intros _. split; [done|]. split; [|by exists o]. split.
    + eapply wf_new_challenge; [done..|]. unfold c. cbn. destruct trust; [done|]. intros Hv'. by destruct (Hv eq_refl).
    + intros z' Hz'. unfold challenged. cbn. destruct (decide (z' = z)) as [->|Hne].
      * exists (ch_ID c), c. by rewrite lookup_insert_eq.
      * destruct (Hch z' Hne Hz') as (k' & c' & Hk' & Hc'). exists k', c'.
        rewrite lookup_insert_ne; [done|]. intros Heq. unfold c in Ec1. cbn in *. congruence.
Qed.

Lemma hoare_create_authzs trust oid t ids d :
  hoare (building trust oid d) (create_authzs s trust oid t ids)
    (λ r t, tx_committed t = d ∧ (is_Ok r = true → building trust oid d t)).
Proof.
  induction ids as [|id ids IH]; cbn [create_authzs]; [apply hoare_ret; intros tx H; split; [apply H|done]|].
  eapply hoare_bind; [apply hoare_create_authz|]. intros [[]|e]; [|by apply hoare_ret; intros tx [? _]].
  eapply hoare_conseq; [exact IH| |done]. cbn. intros tx [_ H]. by apply H.
Qed.

Lemma keep_CreateOrder a p ids nb na :
  hoare acme_ok (CreateOrder s a p ids nb na) (λ _, acme_ok).
Proof.
  unfold CreateOrder. destruct (negb _); [by apply hoare_ret|].
  eapply hoare_bind; [apply hoare_reads, pres_rate_limited, _|]. intros []; [by apply hoare_ret|].
  eapply hoare_bind; [apply hoare_reads, pres_at_capacity, _|]. intros []; [by apply hoare_ret|].
  eapply hoare_bind; [apply hoare_reads, pres_bound_profile, _|]. intros [[pid profile]|e]; [|by apply hoare_ret].
  cbv zeta. case_match; [by apply hoare_ret|].
  set (trust := bool_decide (auth_mode s profile = _)).
  apply hoare_bind with (λ _, acme_ok); [by apply hoare_now|]. intros t.
  eapply hoare_bind; [apply hoare_reads, pres_randIDSuffix, _|]. intros [suf|e]; [|by apply hoare_ret].
  unfold insert_order. eapply hoare_post; [apply (hoare_tx _ acme_ok)|by intros r d [|[]]].
  intros d Hd. set (o := mkOrder _ _ _ _ _ _ _ _ _ _ _ _).
  apply hoare_bind with (λ (r : res ACMEOrder) tx, tx_committed tx = d ∧
    (∀ o', r = Ok o' → building trust (ord_ID o') d tx)).
  - unfold AcmeRepo.CreateOrderWithTx. case_match; [by apply hoare_ret; intros tx ->|].
    apply hoare_bind with (λ _ tx, tx = mkTxn d d); [by apply hoare_now|]. intros t'. cbv zeta.
    apply hoare_tx_exec; intros tx ->; cbn [tx_committed tx_put tx_view]; [|done|by case_match].
    destruct (bool_decide _ && bool_decide _ && _) eqn:Ec; [|by split]. cbn [fst snd].
    apply andb_true_iff in Ec as [[Ec%bool_decide_eq_true _]%andb_true_iff _].
    split; [done|]. intros o' [= <-]. split; [done|]. destruct Hd as [Hw Hch].
    split; [by split; [by apply wf_new_order|]|]. exists (AcmeRepo.order_updated t' o). cbn.
    rewrite lookup_insert_eq. split; [done|]. intros ->. by apply (bool_decide_unpack _).
  - intros [o'|e]; [|by apply hoare_ret; intros tx [? _]].
    eapply hoare_bind.
    { eapply hoare_conseq; [apply (hoare_create_authzs trust (ord_ID o') t (ord_Identifiers o') d)| |done].
      intros tx [_ Hb]. by apply Hb. }
    intros [[]|e]; [|by apply hoare_ret; intros tx [? _]].
    eapply hoare_bind.
    { eapply hoare_conseq with (P' := building trust (ord_ID o') d);
        [apply (hoare_audit same_acme); intros tx tx'; apply building_same| |done].
      intros tx [_ Hb]. by apply Hb. }
    intros [[]|e]; apply hoare_ret; intros tx (H1 & H2 & _); by split.
Qed.

(** *** FinalizeOrder *)
Definition going (k : string) (d : IssuanceDB) : Prop := acme_ok d ∧ proceeds k d.

Lemma going_same k d d' : same_acme d d' → going k d → going k d'.
Proof.
  intros Hs [H1 H2]. split; [by eapply same_acme_ok|]. destruct Hs as (Ho & _). unfold proceeds. by rewrite Ho.
Qed.

Lemma hoare_UpdateOrder_going o d :
  hoare (λ t, tx_committed t = d ∧ going (ord_ID o) (tx_view t)) (AcmeRepo.UpdateOrderWithTx o)
    (λ r t, tx_committed t = d ∧ (is_Ok r = true →
       acme_ok (tx_view t) ∧ (proceeding (ord_Status o) → going (ord_ID o) (tx_view t)))).
Proof.
  unfold AcmeRepo.UpdateOrderWithTx. 
  apply hoare_bind with (λ _ t, tx_committed t = d ∧ going (ord_ID o) (tx_view t)); [by apply hoare_now|].
  intros t. cbv zeta. apply hoare_tx_exec; intros tx (H1 & [Hw Hch] & row & Hr & Hp);
    cbn [tx_committed tx_put]; [|done|by repeat case_match].
  cbn [ord_ID AcmeRepo.order_updated]. rewrite Hr. case_match; [|by split]. cbn [fst snd tx_view].
  split; [done|]. intros _.
  assert (acme_ok (set_orders (<[ord_ID o := AcmeRepo.order_set (AcmeRepo.order_updated t o) row]>) (tx_view tx))) as Hok.
  { split; [|done]. by eapply wf_set_proceeding. }
  split; [done|]. intros Hpr. split; [done|]. eexists. cbn. by rewrite lookup_insert_eq.
Qed.

Lemma keep_fail_order p o : hoare (going (ord_ID o)) (fail_order p o) (λ _, acme_ok).
Proof.
  unfold fail_order. apply hoare_bind with (λ _, acme_ok); [|intros; by apply hoare_ret].
  eapply hoare_post; [apply (hoare_tx _ acme_ok)|by intros r d [|[_ []]]]. intros d Hd.
  eapply hoare_conseq; [apply (hoare_UpdateOrder_going (failed_order p o) d)| |].
  - intros t ->. by split.
  - intros r t [H1 H2]. split; [done|]. intros Hr. by destruct (H2 Hr).
Qed.

Lemma keep_mark_processing a p o :
  hoare (going (ord_ID o)) (mark_processing a p o) (λ _, going (ord_ID o)).
Proof.
  unfold mark_processing. eapply hoare_post; [apply (hoare_tx _ (going (ord_ID o)))|by intros r d [|[]]].
  intros d Hd. eapply hoare_bind.
  { eapply hoare_conseq; [apply (hoare_UpdateOrder_going (with_status ACMEOrderStatusProcessing o) d)| |done].
    intros t ->. by split. }
  intros [o'|e]; [|by apply hoare_ret; intros tx [? _]].
  eapply hoare_conseq with (P' := λ t, tx_committed t = d ∧ going (ord_ID o) (tx_view t));
    [apply (hoare_audit same_acme)| |].
  - intros t t' [H1 H2] [H3 H4]. split; [congruence|by eapply going_same].
  - intros t [H1 H2]. split; [done|]. apply H2; [done|]. right. left.
  - intros r t [H1 H2]. by split.
Qed.

Lemma keep_complete_order a p pem cid i o :
  hoare (going (ord_ID o)) (complete_order uuid_New a p pem cid i o) (λ _, acme_ok).
Proof.
  unfold complete_order. eapply hoare_post; [apply (hoare_tx _ acme_ok)|by intros r d [|[_ []]]].
  intros d Hd. apply hoare_bind with (λ _ t, tx_committed t = d ∧ going (ord_ID o) (tx_view t)).
  { eapply hoare_conseq; [apply (hoare_frame (in_tx same_acme)
      (λ t, tx_committed t = d ∧ going (ord_ID o) (tx_view t)))| |done].
    - unfold CertRepo.CreateVersionWithTx. frame_op.
    - intros t t' [H1 H2] [H3 H4]. split; [congruence|by eapply going_same].
    - by intros t ->. }
  intros [[]|e]; [|by apply hoare_ret; intros tx [? _]].
  eapply hoare_bind; [apply (hoare_UpdateOrder_going (final_order pem cid o) d)|].
  intros [o'|e]; [|by apply hoare_ret; intros tx [? _]].
  eapply hoare_bind with (Q := λ _ t, tx_committed t = d ∧ acme_ok (tx_view t)).
  { eapply hoare_conseq; [apply (hoare_audit same_acme (λ t, tx_committed t = d ∧ acme_ok (tx_view t)))| |done].
    - intros t t' [H1 H2] [H3 H4]. split; [congruence|by eapply same_acme_ok].
    - intros t [H1 H2]. split; [done|]. by destruct (H2 eq_refl). }
  intros [[]|e]; apply hoare_ret; intros tx [H1 H2]; by split.
Qed.

Lemma keep_issue_order a p profile csr pem o :
  hoare (going (ord_ID o)) (issue_order s uuid_New ValidateCertificate pick a p profile csr pem o) (λ _, acme_ok).
Proof.
  unfold issue_order. cbv zeta.
  eapply hoare_bind; [apply hoare_reads, pres_firstAvailableIssuer, _|].
  intros [[iid conn]|]; [|apply hoare_ret; by intros d []].
  eapply hoare_bind; [apply hoare_reads, pres_call, _|]. intros [i|e].
  - eapply hoare_bind; [apply hoare_reads, pres_randIDSuffix, _|]. intros [suf|e]; [|apply hoare_ret; by intros d []].
    eapply hoare_bind; [apply (hoare_frame same_acme); [apply frame_CertCreate; apply _|intros d d'; apply going_same]|].
    intros [[]|e]; [|apply hoare_ret; by intros d []].
    eapply hoare_bind; [apply keep_complete_order|]. intros r. by apply hoare_ret.
  - eapply hoare_bind; [apply keep_fail_order|]. intros r. by apply hoare_ret.
Qed.

Lemma keep_FinalizeOrder a k p csr pem :
  hoare acme_ok (FinalizeOrder s uuid_New ValidateCertificate pick a k p csr pem) (λ _, acme_ok).
Proof.
  unfold FinalizeOrder. destruct (as_issuance s); [|by apply hoare_ret]. destruct (negb _); [by apply hoare_ret|].
  eapply hoare_bind; [apply hoare_LookupOrder|]. intros [o|e]; [|by apply hoare_ret; intros d [? _]].
  case_bool_decide as Hst; cbn [negb]; [|by apply hoare_ret; intros d [? _]].
  case_match; [by apply hoare_ret; intros d [? _]|].
  assert (∀ (Q : IssuanceDB → Prop) A (m : M IssuanceDB A),
    hoare (going (ord_ID o)) m (λ _, Q) →
    hoare (λ d, acme_ok d ∧ ∀ o0, Ok o = Ok o0 → is_orders d !! k = Some o0 ∧ ord_AccountID o0 = a) m (λ _, Q)) as Hgo.
  { intros Q A m Hm. eapply hoare_conseq; [exact Hm| |done]. intros d [H1 H2].
    destruct (H2 o eq_refl) as [Hk _]. pose proof (wf_orders _ (proj1 H1) _ _ Hk) as Hid. split; [done|].
    exists o. rewrite Hid. split; [done|]. unfold proceeding.
    apply elem_of_cons in Hst as [->|Hst]; [by left|]. apply list_elem_of_singleton in Hst as ->. by right; left. }
  apply Hgo. case_match.
  - eapply hoare_bind; [apply keep_fail_order|]. intros. by apply hoare_ret.
  - eapply hoare_bind; [apply hoare_reads, pres_bound_profile, _|].
    intros [[pid profile]|e]; [|apply hoare_ret; by intros d []].
    eapply hoare_bind; [apply keep_mark_processing|]. intros [[]|e]; [|apply hoare_ret; by intros d []].
    apply (keep_issue_order a pid profile csr pem (with_status ACMEOrderStatusProcessing o)).
Qed.

(** *** RespondToChallenge *)

(** A challenge that has not started, and its authorization. *)
Definition startable (k : string) (ch : ACMEChallenge) (az : ACMEAuthorization) (d : IssuanceDB) : Prop :=
  acme_ok d ∧ is_challenges d !! k = Some ch ∧ ch_Status ch ≠ ACMEChallengeStatusValid ∧
  ch_Status ch ≠ ACMEChallengeStatusProcessing ∧ is_authzs d !! ch_AuthzID ch = Some az.

Definition started (k : string) (ch : ACMEChallenge) (az : ACMEAuthorization) (d : IssuanceDB) : Prop :=
  acme_ok d ∧ ch_ID ch = k ∧ k ∉ submitted <$> is_pool d ∧ is_authzs d !! ch_AuthzID ch = Some az ∧
  ∃ c, is_challenges d !! k = Some c ∧ ch_Status c = ACMEChallengeStatusProcessing ∧
       ch_AuthzID c = ch_AuthzID ch.

Lemma started_same k ch az d d' : same_acme d d' → started k ch az d → started k ch az d'.
Proof.
  intros Hs (H1 & H2 & H3 & H4). split; [by eapply same_acme_ok|]. destruct Hs as (_ & -> & -> & ->). done.
Qed.

Lemma keep_start_challenge a k ch az :
  hoare (startable k ch az) (start_challenge a (challenge_status ACMEChallengeStatusProcessing ch) az)
    (λ r d, acme_ok d ∧ (is_Ok r = true → started k ch az d)).
Proof.
  unfold start_challenge. eapply hoare_post; [apply (hoare_tx _ (started k ch az))|].
  2: { intros r d [H|[-> H]]; split; try done; apply H. }
  intros d (Hok & Hk & N1 & N2 & Ha). pose proof Hok as [Hw Hch].
  pose proof (wf_challenges _ Hw _ _ Hk) as [Hid _].
  eapply hoare_bind with (Q := λ u t, tx_committed t = d ∧ (is_Ok u = true → started k ch az (tx_view t))).
  - unfold AcmeRepo.UpdateChallengeWithTx. cbn [ch_ID challenge_status]. rewrite Hid.
    apply hoare_tx_exec; intros tx ->; cbn [tx_committed tx_put tx_view]; rewrite ?Hk; [|done|done].
    cbn [fst snd]. split; [done|]. intros _. split.
    + split; [by eapply wf_start_challenge|by eapply all_challenged_ch].
    + split; [done|]. split; [|split; [done|]].
      * cbn. intros (sub & -> & Hs)%list_elem_of_fmap.
        destruct (wf_pool _ Hw sub Hs) as (c & b & H1 & H2 & _). congruence.
      * eexists. cbn. rewrite lookup_insert_eq. by split_and!.
  - intros [[]|e]; [|by apply hoare_ret; intros tx [? _]].
    eapply hoare_conseq with (P' := λ t, tx_committed t = d ∧ started k ch az (tx_view t));
      [apply (hoare_audit same_acme)| |].
    + intros t t' [H1 H2] [H3 H4]. split; [congruence|by eapply started_same].
    + intros t [H1 H2]. split; [done|]. by apply H2.
    + intros r t [H1 H2]. by split.
Qed.

Lemma keep_Respond a k jwk : hoare acme_ok (RespondToChallenge s a k jwk) (λ _, acme_ok).
Proof.
  unfold RespondToChallenge. destruct (negb (as_wired s)); [by apply hoare_ret|].
  destruct (negb _); [by apply hoare_ret|].
  eapply hoare_bind; [apply hoare_reads, pres_rate_limited, _|]. intros []; [by apply hoare_ret|].
  eapply hoare_bind; [apply hoare_GetChallengeByID|]. intros [ch|e]; cbn [not_found_as];
    [|by apply hoare_ret; intros d [? _]].
  case_bool_decide as Hst; [by apply hoare_ret; intros d [? _]|].
  eapply hoare_bind; [apply hoare_owned_authz|]. intros [az|e]; [|by apply hoare_ret; intros d [[? _] _]].
  destruct (KeyAuthorization _ _) as [expected|e]; [|by apply hoare_ret; intros d [[? _] _]].
  cbv zeta. eapply hoare_bind.
  { eapply hoare_conseq; [apply (keep_start_challenge a k ch az)| |done].
    intros d [[H1 H2] H3]. split; [done|]. split_and!; [by apply H2| | |by apply H3];
      intros Heq; apply Hst; rewrite Heq; set_solver. }
  intros [[]|e]; [|by apply hoare_ret; intros d [? _]].
  apply hoare_bind with (λ _, acme_ok); [|intros; by apply hoare_ret].
  intros w [_ Hs]. destruct (Hs eq_refl) as ([Hw Hch] & Hid & Hn & Ha & c & Hc & Hp & Hz).
  split; [|done]. eapply (wf_submit _ _ c az); cbn; rewrite ?Hid, ?Hz; done.
Qed.

(** *** The verdict of the validator *)
Lemma tally_all z new l :
  (tally z new l).1 = true →
  ∀ a, a ∈ l → (if bool_decide (az_ID a = z) then new else az_Status a) = ACMEAuthzStatusValid.
Proof.
  unfold tally. generalize (negb (bool_decide (l = [])), false) as acc. induction l as [|b l IH]; intros acc; cbn.
  - intros _ a H. by apply not_elem_of_nil in H.
  - intros H a [->|Ha]%elem_of_cons; [|by eapply IH].
    assert (∀ acc, (foldl (tally_step z new) acc l).1 = true → acc.1 = true) as Hmono.
    { clear. induction l as [|c l IH]; intros acc; cbn; [done|]. intros H%IH. cbn in H.
      by apply andb_true_iff in H as [? _]. }
    apply Hmono in H. cbn in H. apply andb_true_iff in H as [_ H]. by apply bool_decide_eq_true in H.
Qed.

(** The state of the transaction once the challenge and its authorization are judged. *)
Definition judged_view (d v : IssuanceDB) (z oid new : string) : Prop :=
  acme_ok v ∧ is_orders v = is_orders d ∧ ∃ a t, is_authzs d !! z = Some a ∧ az_OrderID a = oid ∧
    is_authzs v = <[z := AcmeRepo.authz_status new t a]> (is_authzs d).

Lemma judged_same d v v' z oid new : same_acme v v' → judged_view d v z oid new → judged_view d v' z oid new.
Proof.
  intros Hs (H1 & H2 & H3). split; [by eapply same_acme_ok|]. destruct Hs as (-> & -> & _). done.
Qed.

(** The order of the authorization follows. *)
Lemma keep_cascade d z oid new l order :
  acme_ok d → (∀ a, a ∈ l ↔ az_OrderID a = oid ∧ a ∈ rows (is_authzs d)) → is_orders d !! oid = Some order →
  hoare (λ t, tx_committed t = d ∧ judged_view d (tx_view t) z oid new)
    (cascade_order (tally z new l).1 (tally z new l).2 order)
    (λ r t, tx_committed t = d ∧ (is_Ok r = true → acme_ok (tx_view t))).
Proof.
  intros Hd Hl Ho. pose proof (wf_orders _ (proj1 Hd) _ _ Ho) as Hid. unfold cascade_order. cbv zeta.
  assert (∀ o, ord_ID o = oid → ((proceeding (ord_Status o) → (tally z new l).1 = true)) →
    hoare (λ t, tx_committed t = d ∧ judged_view d (tx_view t) z oid new)
      (r ← AcmeRepo.UpdateOrderWithTx o; mret match r with Err e => Err e | Ok _ => Ok tt end)
      (λ r t, tx_committed t = d ∧ (is_Ok r = true → acme_ok (tx_view t)))) as Hu.
  { intros o Hoid Hpr.
    apply hoare_bind with (λ (r : res ACMEOrder) t, tx_committed t = d ∧ (is_Ok r = true → acme_ok (tx_view t)));
      [|intros [o'|e]; apply hoare_ret; intros t [H1 H2]; by split].
    unfold AcmeRepo.UpdateOrderWithTx.
    apply hoare_bind with (λ _ t, tx_committed t = d ∧ judged_view d (tx_view t) z oid new); [by apply hoare_now|].
    intros t. cbv zeta. apply hoare_tx_exec; intros tx (H1 & Hok & Hos & a & t' & Ha & Haz & Hz);
      cbn [tx_committed tx_put]; [|done|by repeat case_match].
    cbn [ord_ID AcmeRepo.order_updated]. rewrite Hoid, Hos, Ho. case_match; [|by split]. cbn [fst snd tx_view].
    split; [done|]. intros _. split; [|by destruct Hok].
    eapply (wf_set_order _ _ order); [apply Hok|by rewrite Hos|done|]. cbn. intros Hp z' b.
    pose proof (tally_all _ _ _ (Hpr Hp)) as Hall. rewrite Hz.
    intros [[<- <-]|[Hne Hb]]%lookup_insert_Some Hbo.
    - specialize (Hall a). rewrite (proj1 (wf_authzs _ (proj1 Hd) _ _ Ha)) in Hall.
      rewrite bool_decide_true in Hall by done. cbn. apply Hall, Hl. split; [done|]. apply elem_of_rows. by exists z.
    - specialize (Hall b). rewrite (proj1 (wf_authzs _ (proj1 Hd) _ _ Hb)) in Hall.
      rewrite bool_decide_false in Hall by done. apply Hall, Hl. split; [done|]. apply elem_of_rows. by exists z'. }
  destruct (tally z new l) as [allv anyi]. cbn [fst snd] in *.
  destruct (allv && _) eqn:E1; [|destruct (anyi && _) eqn:E2].
  - apply Hu; [done|]. intros _. by apply andb_true_iff in E1 as [? _].
  - apply Hu; [done|]. intros Hp. exfalso. revert Hp. by apply (bool_decide_unpack _).
  - apply hoare_ret. intros t (H1 & H2 & _). by split.
Qed.

Lemma keep_outcome a ch az verr :
  hoare (λ d, acme_ok d ∧ judgeable d (ch_ID ch) (ch_AuthzID ch) (az_OrderID az))
    (recordChallengeOutcome a ch az verr) (λ _, acme_ok).
Proof.
  unfold recordChallengeOutcome.
  apply hoare_bind with (λ _ d, acme_ok d ∧ judgeable d (ch_ID ch) (ch_AuthzID ch) (az_OrderID az));
    [by apply hoare_now|].
  intros t. cbv zeta. set (c := judged verr t ch). set (new := match verr with None => _ | _ => _ end).
  apply hoare_bind with (λ _, acme_ok); [|intros; by apply hoare_ret].
  eapply hoare_post; [apply (hoare_tx _ acme_ok)|by intros r d [|[_ []]]]. intros d [Hok Hj].
  assert (ch_ID c = ch_ID ch ∧ ch_AuthzID c = ch_AuthzID ch ∧
    (new = ACMEAuthzStatusValid → ch_Status c = ACMEChallengeStatusValid)) as (Hc1 & Hc2 & Hc3)
    by (unfold c, new; destruct verr; done).
  unfold outcome_tx. rewrite Hc2.
  pose proof Hj as [(row & Hr & Hrz & Hrp) (z & Hz & Hzo) _].
  apply hoare_bind with (λ (u : res unit) tx, tx_committed tx = d ∧ (is_Ok u = true →
    tx_view tx = set_challenges (<[ch_ID ch := AcmeRepo.challenge_set c row]>) d)).
  { unfold AcmeRepo.UpdateChallengeWithTx. rewrite Hc1.
    apply hoare_tx_exec; intros tx ->; cbn [tx_committed tx_put tx_view]; rewrite ?Hr; done. }
  intros [[]|e]; [|by apply hoare_ret; intros tx [? _]].
  apply hoare_bind with (λ (u : res unit) tx, tx_committed tx = d ∧ (is_Ok u = true →
    judged_view d (tx_view tx) (ch_AuthzID ch) (az_OrderID az) new)).
  { unfold AcmeRepo.UpdateAuthzStatusWithTx.
    apply hoare_bind with (λ _ tx, tx_committed tx = d ∧
      tx_view tx = set_challenges (<[ch_ID ch := AcmeRepo.challenge_set c row]>) d).
    { apply hoare_now. intros tx _ [H1 H2]. split; [done|by apply H2]. }
    intros t'. apply hoare_tx_exec; intros tx [H1 H2]; cbn [tx_committed tx_put];
      rewrite ?H2; cbn [is_authzs set_challenges]; rewrite ?Hz; [|done|done].
    cbn [fst snd tx_view]. split; [done|]. intros _. split; [split|].
    - eapply wf_judge; [apply Hok|exact Hj|exact Hr|exact Hz|done..|exact Hc3].
    - apply all_challenged_authz; [cbn; by rewrite Hz|]. eapply all_challenged_ch; [exact Hr|done|apply Hok].
    - split; [done|]. exists z, t'. by split_and!. }
  intros [[]|e]; [|by apply hoare_ret; intros tx [? _]].
  set (K := λ tx, tx_committed tx = d ∧ judged_view d (tx_view tx) (ch_AuthzID ch) (az_OrderID az) new).
  apply hoare_bind with (λ r tx, K tx ∧
    ∀ l, r = Ok l → ∀ x, x ∈ l ↔ az_OrderID x = az_OrderID az ∧ x ∈ rows (is_authzs d)).
  { apply hoare_on_pool. intros v. eapply hoare_conseq; [apply (hoare_ListAuthzs (λ x, x = d ∧ K (mkTxn d v)))| |].
    - intros x [H1 H2]. cbn in H1. subst x. split; [done|]. split; [done|]. by apply H2.
    - intros r x [[-> HK] H]. by split. }
  intros [l|e]; [|by apply hoare_ret; intros tx [[? _] _]].
  destruct (tally (ch_AuthzID ch) new l) as [allv anyi] eqn:Et.
  apply hoare_bind with (λ r tx, K tx ∧
    (∀ x, x ∈ l ↔ az_OrderID x = az_OrderID az ∧ x ∈ rows (is_authzs d)) ∧
    ∀ o, r = Ok o → is_orders d !! az_OrderID az = Some o).
  { apply hoare_on_pool. intros v.
    eapply hoare_conseq; [apply (hoare_GetOrderByID (λ x, x = d ∧ K (mkTxn d v) ∧
      ∀ x, x ∈ l ↔ az_OrderID x = az_OrderID az ∧ x ∈ rows (is_authzs d)))| |].
    - intros x [HK H]. assert (x = d) as -> by apply HK. split_and!; [done|done|by apply H].
    - intros r x [(-> & HK & Hl) H]. by split_and!. }
  intros [o|e]; [|by apply hoare_ret; intros tx [[? _] _]].
  apply hoare_pure. intros [Hl Ho].
  pose proof (keep_cascade d (ch_AuthzID ch) (az_OrderID az) new l o Hok Hl (Ho o eq_refl)) as Hcas.
  rewrite Et in Hcas. eapply hoare_bind; [exact Hcas|]. intros [[]|e]; [|by apply hoare_ret; intros tx [? _]].
  eapply hoare_conseq with (P' := λ tx, tx_committed tx = d ∧ acme_ok (tx_view tx));
    [apply (hoare_audit same_acme)| |].
  - intros tx tx' [H1 H2] [H3 H4]. split; [congruence|by eapply same_acme_ok].
  - intros tx [H1 H2]. split; [done|by apply H2].
  - intros r tx [H1 H2]. by split.
Qed.

Lemma keep_pool_complete i verr : hoare acme_ok (pool_complete i verr) (λ _, acme_ok).
Proof.
  intros w Hok. unfold pool_complete, mbind, M_bind, get_db, put_db.
  destruct (is_pool (w_db w) !! i) as [sub|] eqn:Ei; [|done].
  apply (keep_outcome (sb_AccountID sub) (sb_Challenge sub) (sb_Authz sub) verr (mkWorld _ (w_env w))). cbn.
  destruct Hok as [Hw Hch]. split; [by split; [apply wf_unsubmit|]|].
  destruct (wf_pool _ Hw sub (list_elem_of_lookup_2 _ _ _ Ei)) as (c & a & H1 & H2 & H3 & H4 & H5).
  split.
  - by exists c.
  - rewrite H3 in H4. by exists a.
  - cbn. pose proof (wf_pool_once _ Hw) as Hnd. rewrite <-(take_drop_middle _ _ _ Ei) in Hnd.
    rewrite delete_take_drop, fmap_app, not_elem_of_app. rewrite fmap_app, fmap_cons in Hnd.
    apply NoDup_app in Hnd as (_ & Hd & Hnd). apply NoDup_cons in Hnd as [Hn _]. split; [|done].
    intros Hin. apply (Hd _ Hin). left.
Qed.

(** *** The collector *)
Lemma keep_GCAuthzs : hoare acme_ok AcmeRepo.GCExpireAuthorizations (λ _, acme_ok).
Proof.
  unfold AcmeRepo.GCExpireAuthorizations. apply hoare_bind with (λ _, acme_ok); [by apply hoare_now|]. intros t.
  enough (∀ d, acme_ok d → acme_ok (set_authzs (fmap (λ a,
       if bool_decide (az_Status a = ACMEAuthzStatusPending) && (az_ExpiresAt a <? t)
       then AcmeRepo.authz_status ACMEAuthzStatusExpired t a else a)) d)) as H by by apply hoare_exec.
  intros d [Hw Hch]. set (f := λ a : ACMEAuthorization, if _ && _ then _ else a).
  assert (∀ a, az_ID (f a) = az_ID a ∧ az_OrderID (f a) = az_OrderID a ∧
    (az_Status (f a) = ACMEAuthzStatusValid ↔ az_Status a = ACMEAuthzStatusValid)) as Hf.
  { intros a. unfold f. destruct (bool_decide _) eqn:Ep; cbn [andb]; [|done].
    apply bool_decide_eq_true in Ep. case_match; [|done]. cbn. rewrite Ep. done. }
  split.
  - pose proof Hw as []. split; cbn; auto.
    + intros z a'. rewrite lookup_fmap_Some. intros (a & <- & Ha). destruct (Hf a) as (-> & -> & _). auto.
    + intros k c Hc. rewrite lookup_fmap, fmap_is_Some. auto.
    + intros k o z a' Ho Hp. rewrite lookup_fmap_Some. intros (a & <- & Ha). destruct (Hf a) as (_ & -> & ->). eauto.
    + intros z a' k c. rewrite lookup_fmap_Some. intros (a & <- & Ha). destruct (Hf a) as (_ & _ & ->). eauto.
    + intros sub Hs. destruct (wf_pool0 sub Hs) as (c & a & H1 & H2 & H3 & H4 & H5). exists c, (f a).
      rewrite lookup_fmap, H4. destruct (Hf a) as (_ & -> & _). done.
  - intros z. cbn. rewrite lookup_fmap, fmap_is_Some. apply Hch.
Qed.

Lemma keep_GCOrders : hoare acme_ok AcmeRepo.GCInvalidateExpiredOrders (λ _, acme_ok).
Proof.
  unfold AcmeRepo.GCInvalidateExpiredOrders. apply hoare_bind with (λ _, acme_ok); [by apply hoare_now|]. intros t.
  match goal with |- hoare _ (sql_exec _ (λ d, (_, set_orders (fmap ?g) d))) _ => set (f := g) end.
  enough (∀ d, acme_ok d → acme_ok (set_orders (fmap f) d)) as H by by apply hoare_exec.
  intros d [Hw Hch]. assert (∀ o, ord_ID (f o) = ord_ID o ∧ (proceeding (ord_Status (f o)) → f o = o)) as Hf.
  { intros o. unfold f. case_match; [|done]. split; [done|]. cbn. intros Hp. exfalso. revert Hp.
    by apply (bool_decide_unpack _). }
  split; [|exact Hch]. pose proof Hw as []. split; cbn; auto.
  - intros k o'. rewrite lookup_fmap_Some. intros (o & <- & Ho). destruct (Hf o) as [-> _]. auto.
  - intros z a Ha. rewrite lookup_fmap, fmap_is_Some. auto.
  - intros k o' z a. rewrite lookup_fmap_Some. intros (o & <- & Ho) Hp. destruct (Hf o) as [_ Hs].
    rewrite (Hs Hp) in Hp. eauto.
Qed.

Lemma keep_GarbageCollect_orders : hoare acme_ok GarbageCollect (λ _, acme_ok).
Proof.
  unfold GarbageCollect. apply hoare_bind with (λ _, acme_ok).
  { apply (hoare_frame same_acme); [unfold AcmeRepo.GCExpiredNonces; frame_op|apply same_acme_ok]. }
  intros ?. apply hoare_bind with (λ _, acme_ok); [apply keep_GCAuthzs|]. intros ?.
  apply hoare_bind with (λ _, acme_ok); [apply keep_GCOrders|]. intros ?. by apply hoare_ret.
Qed.

(** *** Any call *)
Lemma keep_ignore {A} (m : M IssuanceDB A) : hoare acme_ok m (λ _, acme_ok) → hoare acme_ok (ignore m) (λ _, acme_ok).
Proof. intros H. unfold ignore. eapply hoare_bind; [exact H|]. intros. by apply hoare_ret. Qed.

Lemma keep_acme_call c : hoare acme_ok (run_call c) (λ _, acme_ok).
Proof.
  assert (∀ A (m : M IssuanceDB A), pres same_acme m → hoare acme_ok m (λ _, acme_ok)) as Hsame.
  { intros A m Hm. by apply (hoare_frame same_acme); [|apply same_acme_ok]. }
  destruct c; cbn [AcmeService.run_call];
    lazymatch goal with |- hoare _ (ignore _) _ => apply keep_ignore | _ => idtac end.
  - apply Hsame, frame_IssueNonce; apply _.
  - apply Hsame, pres_VerifyJWS; [apply _|]. intros. apply frame_ConsumeNonce; apply _.
  - apply Hsame, frame_NewAccount; apply _.
  - apply Hsame, frame_UpdateAccount; apply _.
  - apply Hsame, frame_DeactivateAccount; apply _.
  - apply Hsame, frame_RotateAccountKey; apply _.
  - apply Hsame, frame_RevokeCert; apply _.
  - apply keep_CreateOrder.
  - apply keep_FinalizeOrder.
  - apply keep_Respond.
  - apply keep_pool_complete.
  - apply keep_GarbageCollect_orders.
Qed.

Lemma keep_acme_calls cs : hoare acme_ok (run_calls cs) (λ _, acme_ok).
Proof.
  unfold AcmeService.run_calls. induction cs as [|c cs IH]; cbn [for_each]; [by apply hoare_ret|].
  eapply hoare_bind; [apply keep_acme_call|]. intros ?. exact IH.
Qed.

(** No order yet. *)
Definition no_orders (d : IssuanceDB) : Prop :=
  is_orders d = ∅ ∧ is_authzs d = ∅ ∧ is_challenges d = ∅ ∧ is_pool d = [].

Lemma no_orders_ok d : no_orders d → acme_ok d.
Proof.
  intros (H1 & H2 & H3 & H4). split; [split|]; rewrite ?H1, ?H2, ?H3, ?H4; try done.
  - by intros sub ?%elem_of_nil.
  - constructor.
  - intros z. rewrite H2. by intros [? ?].
Qed.

(** *** Where a valid challenge comes from *)
Section verdict.
Context (k : string).

(** The challenge does not exist, or is not valid. *)
Definition unproven (d : IssuanceDB) : Prop :=
  ∀ c, is_challenges d !! k = Some c → ch_Status c ≠ ACMEChallengeStatusValid.
Definition stays (d d' : IssuanceDB) : Prop := unproven d → unproven d'.
#[local] Instance stays_preorder : PreOrder stays.
Proof. split; [by intros d|]. intros d1 d2 d3. unfold stays. auto. Qed.

Lemma stays_frame {A} (set : (A → A) → IssuanceDB → IssuanceDB) :
  (∀ f d, is_challenges (set f d) = is_challenges d) → Frame stays set.
Proof. intros H f d. unfold stays, unproven. by rewrite H. Qed.
#[local] Hint Extern 0 (Frame stays _) => (apply stays_frame; reflexivity) : typeclass_instances.

(** A new challenge that is not created valid. *)
Lemma stays_CreateChallenge c : ch_Status c ≠ ACMEChallengeStatusValid →
  pres (in_tx stays) (AcmeRepo.CreateChallengeWithTx c).
Proof.
  intros Hs. unfold AcmeRepo.CreateChallengeWithTx. case_match; [pres_step|]. refine (pres_tx_exec _ _ _ _). intros d.
  destruct (bool_decide _ && _) eqn:Ec; [|done]. cbn. intros Hu c'. cbn. rewrite lookup_insert.
  destruct (decide (ch_ID c = k)); [intros Hc'; by simplify_eq|exact (Hu c')].
Qed.

(** A write of another status, or of another challenge. *)
Lemma stays_UpdateChallenge c :
  ch_Status c ≠ ACMEChallengeStatusValid ∨ ch_ID c ≠ k → pres (in_tx stays) (AcmeRepo.UpdateChallengeWithTx c).
Proof.
  intros H. unfold AcmeRepo.UpdateChallengeWithTx. refine (pres_tx_exec _ _ _ _). intros d.
  destruct (is_challenges d !! ch_ID c) as [row|] eqn:Er; [|done]. cbn. intros Hu c'. cbn. rewrite lookup_insert.
  destruct (decide (ch_ID c = k)); [|exact (Hu c')]. intros Hc'. simplify_eq. by destruct H.
Qed.

Lemma stays_outcome a ch z v :
  is_Some v ∨ ch_ID ch ≠ k → pres stays (recordChallengeOutcome a ch z v).
Proof.
  intros Hv. unfold recordChallengeOutcome, outcome_tx, cascade_order, acme_audit,
    AcmeRepo.UpdateAuthzStatusWithTx, AcmeRepo.UpdateOrderWithTx.
  repeat first [simple apply stays_UpdateChallenge | frame_step].
  destruct Hv as [[e ->]|Hk]; [by left|right; by destruct v].
Qed.

Definition creates (c : acme_call (J:=J)) : bool := match c with CallCreateOrder _ _ _ _ _ => true | _ => false end.

Lemma stays_other c : (∀ i, c ≠ CallPoolComplete i None) → creates c = false → pres stays (run_call c).
Proof.
  intros Hc Hn. destruct c; try discriminate Hn; cbn [AcmeService.run_call];
    lazymatch goal with |- pres _ (ignore _) => refine (pres_ignore _ _ _) | _ => idtac end.
  - apply frame_IssueNonce; apply _.
  - apply pres_VerifyJWS; [apply _|]. intros. apply frame_ConsumeNonce; apply _.
  - apply frame_NewAccount; apply _.
  - apply frame_UpdateAccount; apply _.
  - apply frame_DeactivateAccount; apply _.
  - apply frame_RotateAccountKey; apply _.
  - apply frame_RevokeCert; apply _.
  - unfold FinalizeOrder, issue_order, fail_order, mark_processing, complete_order, acme_audit,
      AcmeRepo.UpdateOrderWithTx, CertRepo.CreateVersionWithTx.
    repeat first [simple apply frame_CertCreate; apply _ | frame_step].
  - unfold RespondToChallenge, start_challenge, acme_audit.
    repeat first [simple apply frame_pool_Submit; apply _ | simple apply stays_UpdateChallenge | frame_step].
  - apply pres_pool_complete; [apply _..|]. intros. apply stays_outcome.
    left. destruct verr; [done|]. by destruct (Hc i).
  - apply frame_GarbageCollect; apply _.
Qed.

(** *** CreateOrder *)
Definition trusts (d : IssuanceDB) : Prop :=
  ∃ pid p, db_profiles (is_store d) !! pid = Some p ∧ auth_mode s p = "trust_authenticated".

(** The profile an order is bound to has the mode of a stored row. *)
Lemma hoare_bound_profile d0 p :
  hoare (λ d, d = d0) (bound_profile s p)
    (λ r d, d = d0 ∧ ∀ pid pr, r = Ok (pid, pr) → auth_mode s pr = "trust_authenticated" → trusts d0).
Proof.
  unfold bound_profile. eapply hoare_bind; [apply hoare_reads, pres_resolveProfile, _|].
  intros [id|e]; [|by apply hoare_ret; intros d ->]. intros w Hw. cbn in Hw.
  unfold profiles_Get, ProfileRepo.ProfileRepository_Get, on_store, sql_query, next_fault, get_db, mbind, M_bind, mret, M_ret.
  destruct w as [d [c tks fs n]]. cbn in *. subst d.
  destruct fs as [|[| |] fs]; cbn;
    try (destruct (db_profiles (is_store d0) !! id) as [row|] eqn:Er; cbn);
    (split; [by destruct d0|]); intros pid pr [= <- <-] Hm; exists id, row; split; done.
Qed.

Lemma stays_create_authzs o t ids : pres (in_tx stays) (create_authzs s false o t ids).
Proof.
  induction ids as [|x l IH]; cbn [create_authzs]; [pres_step|].
  unfold create_authz, AcmeRepo.CreateAuthzWithTx.
  repeat first [exact IH | simple apply stays_CreateChallenge; [done] | frame_step].
Qed.

(** Without a profile in trust mode no challenge is created valid. *)
Lemma stays_CreateOrder d0 a p ids nb na :
  ¬ trusts d0 → unproven d0 → hoare (λ d, d = d0) (CreateOrder s a p ids nb na) (λ _, unproven).
Proof.
  intros Ht Hu. unfold CreateOrder. destruct (negb _); [by apply hoare_ret; intros d ->|].
  eapply hoare_bind; [apply hoare_reads, pres_rate_limited, _|]. intros []; [by apply hoare_ret; intros d ->|].
  eapply hoare_bind; [apply hoare_reads, pres_at_capacity, _|]. intros []; [by apply hoare_ret; intros d ->|].
  eapply hoare_bind; [apply hoare_bound_profile|].
  intros [[pid profile]|e]; [|by apply hoare_ret; intros d [-> _]]. cbv zeta.
  destruct (decide (auth_mode s profile = "trust_authenticated")) as [Hm|Hm].
  { intros w [_ H]. destruct Ht. by eapply H. }
  rewrite (bool_decide_eq_false_2 _ Hm). cbn [negb andb]. apply (hoare_conseq _ unproven _ _ (λ _, unproven));
    [|by intros d [-> _]|done]. case_match; [by apply hoare_ret|].
  apply (hoare_frame stays); [|by intros d d' Hd]. unfold insert_order, acme_audit, AcmeRepo.CreateOrderWithTx.
  repeat first [apply stays_create_authzs | frame_step].
Qed.

(** An existing challenge is left alone by it. *)
Definition kept (d d' : IssuanceDB) : Prop :=
  ∀ c, is_challenges d !! k = Some c → is_challenges d' !! k = Some c.
#[local] Instance kept_preorder : PreOrder kept.
Proof. split; [by intros d c|]. intros d1 d2 d3 H1 H2 c. auto. Qed.
Lemma kept_frame {A} (set : (A → A) → IssuanceDB → IssuanceDB) :
  (∀ f d, is_challenges (set f d) = is_challenges d) → Frame kept set.
Proof. intros H f d c. by rewrite H. Qed.
#[local] Hint Extern 0 (Frame kept _) => (apply kept_frame; reflexivity) : typeclass_instances.

Lemma kept_CreateOrder a p ids nb na : pres kept (CreateOrder s a p ids nb na).
Proof.
  assert (∀ c, pres (in_tx kept) (AcmeRepo.CreateChallengeWithTx c)) as Hc.
  { intros c. unfold AcmeRepo.CreateChallengeWithTx. case_match; [pres_step|]. refine (pres_tx_exec _ _ _ _). intros d.
    destruct (bool_decide _ && _) eqn:Ec; [|done]. cbn. intros c' Hc'. cbn.
    apply andb_true_iff in Ec as [Ec%bool_decide_eq_true _]. rewrite lookup_insert_ne; [done|congruence]. }
  assert (∀ trust o t ids, pres (in_tx kept) (create_authzs s trust o t ids)) as Hz.
  { intros trust o t l. induction l as [|x l IH]; cbn [create_authzs]; [pres_step|].
    unfold create_authz, AcmeRepo.CreateAuthzWithTx. repeat first [exact IH | apply Hc | frame_step]. }
  unfold CreateOrder, insert_order, acme_audit, AcmeRepo.CreateOrderWithTx.
  repeat first [apply Hz | frame_step].
Qed.

(** *** One call *)
Definition completes (c : acme_call (J:=J)) (d : IssuanceDB) : Prop :=
  ∃ i sub, c = CallPoolComplete i None ∧ is_pool d !! i = Some sub ∧ ch_ID (sb_Challenge sub) = k.
Definition trust_creates (c : acme_call (J:=J)) (d : IssuanceDB) : Prop :=
  creates c = true ∧ is_challenges d !! k = None ∧ trusts d.

#[local] Instance trusts_dec d : Decision (trusts d).
Proof.
  destruct (decide (map_Forall (λ _ p, auth_mode s p ≠ "trust_authenticated") (db_profiles (is_store d)))) as [H|H].
  - right. intros (pid & p & Hp & Hm). by apply (H pid p Hp).
  - left. apply map_not_Forall in H as (pid & p & Hp & Hm); [|apply _]. exists pid, p. split; [done|].
    destruct (decide (auth_mode s p = "trust_authenticated")); [done|by destruct Hm].
Defined.

(** A challenge becomes valid only by its completion or by being created so. *)
Lemma stays_call c w :
  completes c (w_db w) ∨ trust_creates c (w_db w) ∨ stays (w_db w) (w_db (snd (run_call c w))).
Proof.
  destruct (creates c) eqn:Ec.
  - right. destruct c; try discriminate Ec. cbn [AcmeService.run_call]. unfold ignore, mbind, M_bind.
    destruct (is_challenges (w_db w) !! k) as [ch|] eqn:Ek.
    + right. pose proof (kept_CreateOrder accountID profileID ids nb na w ch Ek) as H.
      destruct (CreateOrder _ _ _ _ _ _ w) as [r w']. cbn in *. intros Hu c' Hc'. rewrite H in Hc'.
      injection Hc' as <-. by apply Hu.
    + destruct (decide (trusts (w_db w))) as [Ht|Ht]; [by left|right]. intros Hu.
      pose proof (stays_CreateOrder (w_db w) accountID profileID ids nb na Ht Hu w eq_refl) as H.
      by destruct (CreateOrder _ _ _ _ _ _ w).
  - assert ((∃ i, c = CallPoolComplete i None) ∨ ∀ i, c ≠ CallPoolComplete i None) as [[i ->]|Hn].
    { destruct c as [| | | | | | | | | |i [e|]|]; [right; done..| |left; by exists i|right; done]. right. by intros i' [=]. }
    2: { right. right. by apply stays_other. }
    cbn [AcmeService.run_call]. unfold pool_complete, mbind, M_bind, get_db, put_db.
    destruct (is_pool (w_db w) !! i) as [sub|] eqn:Ei; [|by right; right].
    destruct (decide (ch_ID (sb_Challenge sub) = k)) as [He|Hne]; [left; by exists i, sub|].
    right. right. intros Hu. apply (stays_outcome _ _ _ None (or_intror Hne) (mkWorld _ (w_env w))). exact Hu.
Qed.
End verdict.

(** The challenge was found valid by its validator in the course of the run. *)
Definition validated (k : string) (cs : list (acme_call (J:=J))) (w : World IssuanceDB) : Prop :=
  ∃ cs1 c cs2, cs = cs1 ++ c :: cs2 ∧ completes k c (w_db (snd (run_calls cs1 w))).
(** It was created valid in the course of the run, for a profile in trust mode. *)
Definition trusted (k : string) (cs : list (acme_call (J:=J))) (w : World IssuanceDB) : Prop :=
  ∃ cs1 c cs2, cs = cs1 ++ c :: cs2 ∧ trust_creates k c (w_db (snd (run_calls cs1 w))).

Lemma run_calls_snoc cs c w : snd (run_calls (cs ++ [c]) w) = snd (run_call c (snd (run_calls cs w))).
Proof.
  unfold AcmeService.run_calls. revert w. induction cs as [|x cs IH]; intros w; cbn [app for_each]; unfold mbind, M_bind.
  - unfold mret, M_ret. cbn [snd]. by destruct (run_call c w).
  - destruct (run_call x w) as [u w1]. apply IH.
Qed.

Lemma validated_snoc k cs c w : validated k cs w → validated k (cs ++ [c]) w.
Proof. intros (cs1 & c' & cs2 & -> & H). exists cs1, c', (cs2 ++ [c]). by rewrite <-app_assoc. Qed.
Lemma trusted_snoc k cs c w : trusted k cs w → trusted k (cs ++ [c]) w.
Proof. intros (cs1 & c' & cs2 & -> & H). exists cs1, c', (cs2 ++ [c]). by rewrite <-app_assoc. Qed.

(** In a run without either, a challenge that was not valid is not. *)
Lemma stays_calls k cs w :
  validated k cs w ∨ trusted k cs w ∨ stays k (w_db w) (w_db (snd (run_calls cs w))).
Proof.
  induction cs as [|c cs IH] using rev_ind; [right; right; by intros ?|].
  destruct IH as [IH|[IH|IH]]; [left; by apply validated_snoc|right; left; by apply trusted_snoc|].
  destruct (stays_call k c (snd (run_calls cs w))) as [H|[H|H]].
  - left. by exists cs, c, [].
  - right. left. by exists cs, c, [].
  - right. right. rewrite run_calls_snoc. intros Hu. by apply H, IH.
Qed.


(** A challenge is found valid only by its validator: a challenge that was not valid before
    a call and is valid after it was in the validator pool, and the call is the completion of
    exactly that submission without an error. *)
Theorem challenge_valid_only_by_verdict c w k ch ch' :
  is_challenges (w_db w) !! k = Some ch → ch_Status ch ≠ ACMEChallengeStatusValid →
  is_challenges (w_db (snd (run_call c w))) !! k = Some ch' → ch_Status ch' = ACMEChallengeStatusValid →
  ∃ i sub, c = CallPoolComplete i None ∧ is_pool (w_db w) !! i = Some sub ∧ ch_ID (sb_Challenge sub) = k.
Proof.
  intros Hk Hs Hk' Hs'. destruct (stays_call k c w) as [H|[(_ & H & _)|H]]; [done|congruence|].
  destruct (H ltac:(intros c' Hc'; congruence) ch' Hk' Hs').
Qed.

(** *** What finalisation writes *)
Definition same_owners (d d' : IssuanceDB) : Prop := db_owners (is_store d') = db_owners (is_store d).
#[local] Instance same_owners_preorder : PreOrder same_owners.
Proof. split; [done|]. unfold same_owners. intros d1 d2 d3. congruence. Qed.

Definition no_nameless_owner (d : IssuanceDB) : Prop := db_owners (is_store d) !! "" = None.

Lemma no_nameless_same d d' : same_owners d d' → no_nameless_owner d → no_nameless_owner d'.
Proof. unfold same_owners, no_nameless_owner. by intros ->. Qed.

Lemma owners_violations actor id l :
  pres same_owners (for_each l (CertService.record_violation ToLower actor id)).
Proof.
  refine (pres_for_each _ _ _ _). intros v. unfold CertService.record_violation.
  repeat first [simple apply pres_RecordEvent; [apply _|done] | pres_step].
Qed.

Lemma owners_update_order o :
  pres (in_tx same_owners) (AcmeRepo.UpdateOrderWithTx o).
Proof.
  unfold AcmeRepo.UpdateOrderWithTx. repeat pres_step. refine (pres_tx_exec _ _ _ _). intros d.
  by repeat case_match.
Qed.

(** A certificate without an owner is not inserted. *)
Lemma Create_ownerless tx c actor :
  cert_OwnerID c = "" →
  hoare no_nameless_owner (CertService.Create ToLower ValidateCertificate tx c actor) (λ r _, is_Ok r = false).
Proof.
  intros Hc. assert (∀ d, no_nameless_owner d → CertRepo.cert_insert c d =
    (Err (ErrWrap "failed to create certificate" (ErrMsg "constraint violation")), d)) as Hi.
  { intros d Hd. unfold CertRepo.cert_insert, CertRepo.cert_insert_ok. rewrite Hc, Hd.
    rewrite (bool_decide_false (is_Some None)) by by intros [? ?]. by rewrite andb_false_r. }
  unfold CertService.Create. destruct (_ || _); [by apply hoare_ret|].
  destruct (ValidateCertificateID _); [|by apply hoare_ret].
  eapply hoare_bind; [apply hoare_reads, pres_query, _|].
  intros [[violations|e]|e]; [|by apply hoare_ret..].
  eapply hoare_bind; [apply (hoare_frame same_owners); [apply owners_violations|apply no_nameless_same]|].
  intros ?. unfold CertService.insert_certificate. destruct tx.
  - eapply hoare_post; [apply (hoare_tx _ (λ _, False))|by intros r d [|[]]]. intros d Hd.
    apply hoare_bind with (λ r t, tx_committed t = d ∧ is_Ok r = false).
    + apply hoare_tx_exec; intros t ->; cbn [tx_view tx_committed tx_put]; rewrite ?Hi by done; done.
    + intros [r|e]; [intros w [_ [=]]|]. by apply hoare_ret; intros t [? _].
  - apply hoare_bind with (λ r _, is_Ok r = false).
    + apply hoare_exec; intros d Hd; rewrite ?Hi by done; done.
    + intros [r|e]; [by intros w [=]|]. by apply hoare_ret.
Qed.

(** C38: An ACME order can never be finalised: [FinalizeOrder] stores the issued certificate
    with an empty owner (and an empty team and renewal policy), which the foreign keys of the
    certificate table reject, so the call fails in every state without an owner whose id is
    empty - after the certificate authority has issued. *)
Theorem acme_finalize_never_succeeds a k p csr pem w :
  no_nameless_owner (w_db w) →
  is_Ok (fst (FinalizeOrder s uuid_New ValidateCertificate pick a k p csr pem w)) = false.
Proof.
  enough (hoare no_nameless_owner (FinalizeOrder s uuid_New ValidateCertificate pick a k p csr pem)
    (λ r _, is_Ok r = false)) as H by apply H.
  unfold FinalizeOrder. destruct (as_issuance s); [|by apply hoare_ret]. destruct (negb _); [by apply hoare_ret|].
  eapply hoare_bind; [apply hoare_reads, pres_LookupOrder, _|]. intros [o|e]; [|by apply hoare_ret].
  case_bool_decide as Hst; cbn [negb]; [|by apply hoare_ret].
  rewrite bool_decide_false; [cbn [andb]|].
  2: { apply elem_of_cons in Hst as [->|Hst]; [done|]. by apply list_elem_of_singleton in Hst as ->. }
  case_match; [eapply hoare_bind with (λ _ _, True); [done|]; intros; by apply hoare_ret|].
  eapply hoare_bind; [apply hoare_reads, pres_bound_profile, _|]. intros [[pid profile]|e]; [|by apply hoare_ret].
  eapply hoare_bind.
  { apply (hoare_frame same_owners _ _); [|apply no_nameless_same]. unfold mark_processing, acme_audit.
    refine (pres_WithinTx _ _ _). pres_step; [apply owners_update_order|]. pres_step; [|pres_step].
    simple apply pres_RecordEvent; [apply _|by intros ev [? ?]]. }
  intros [[]|e]; [|by apply hoare_ret]. unfold issue_order. cbv zeta.
  eapply hoare_bind; [apply hoare_reads, pres_firstAvailableIssuer, _|]. intros [[iid conn]|]; [|by apply hoare_ret].
  eapply hoare_bind; [apply hoare_reads, pres_call, _|].
  intros [iss|e]; [|eapply hoare_bind with (λ _ _, True); [done|]; intros; by apply hoare_ret].
  eapply hoare_bind; [apply hoare_reads, pres_randIDSuffix, _|]. intros [suf|e]; [|by apply hoare_ret].
  eapply hoare_bind; [by apply Create_ownerless|]. intros [[]|e]; [by intros w' [=]|by apply hoare_ret].
Qed.

End calls.

(** ** Concrete runs: an order in challenge mode, answered and validated *)
Definition ex_order_id : string := "acme-ord-040g2081040g2081".
Definition ex_authz_id : string := "acme-authz-081040g2081040g2".
Definition ex_challenge_id : string := "acme-chall-0c1g60r30c1g60r3".
Definition ex_create : acme_call (J:=toy_jose) :=
  CallCreateOrder "acme-acc-1" "p" [mkIdentifier "dns" "a.example"] None None.
Definition ex_respond : acme_call (J:=toy_jose) :=
  CallRespondToChallenge (J:=toy_jose) "acme-acc-1" ex_challenge_id (Some "key").
Definition ex_validated : acme_call (J:=toy_jose) := CallPoolComplete 0 None.
Definition ex_answered : World IssuanceDB := snd (ex_run_calls [ex_create; ex_respond] (acme_world "challenge" ∅)).
Definition ex_ready : World IssuanceDB :=
  snd (ex_run_calls [ex_create; ex_respond; ex_validated] (acme_world "challenge" ∅)).

(** Before the verdict the order is pending, after it it is ready. *)
Example order_ready_after_verdict :
  ord_Status <$> is_orders (w_db ex_answered) !! ex_order_id = Some ACMEOrderStatusPending ∧
  ord_Status <$> is_orders (w_db ex_ready) !! ex_order_id = Some ACMEOrderStatusReady.
Proof. split; vm_compute; reflexivity. Qed.

(** What the run above may say of a challenge. *)
Abbreviation ex_calls := [ex_create; ex_respond; ex_validated].
Abbreviation ex_validated_run i :=
  (validated (RT:=toy_runtime) (J:=toy_jose) (E:=toy_entropy) acme_svc ex_uuid ex_pick ex_parse ex_policy i ex_calls
     (acme_world "challenge" ∅)).
Abbreviation ex_trusted_run i :=
  (trusted (RT:=toy_runtime) (J:=toy_jose) (E:=toy_entropy) acme_svc ex_uuid ex_pick ex_parse ex_policy i ex_calls
     (acme_world "challenge" ∅)).


(** The default mode: the order is ready at once and nothing has been validated. *)
Example trust_mode_validates_nothing :
  let w := snd (ex_run_calls [ex_create] (acme_world "" ∅)) in
  ord_Status <$> is_orders (w_db w) !! ex_order_id = Some ACMEOrderStatusReady ∧ is_pool (w_db w) = [].
Proof. split; vm_compute; reflexivity. Qed.

(** Two responses to one challenge: the second has read it as pending before the first wrote, so it
    is submitted again.  The first validation succeeds and the order is ready; the second fails
    and leaves the ready order with an invalid authorization. *)
Definition ex_pending : World IssuanceDB := snd (ex_run_calls [ex_create] (acme_world "challenge" ∅)).
Definition ex_raced : World IssuanceDB :=
  match is_challenges (w_db ex_pending) !! ex_challenge_id, is_pool (w_db ex_answered) with
  | Some ch, [sub] =>
      let w := snd (start_challenge (RT:=toy_runtime) "acme-acc-1" (challenge_status ACMEChallengeStatusProcessing ch)
                      (sb_Authz sub) ex_answered) in
      snd (pool_Submit sub w)
  | _, _ => ex_pending
  end.

Example racing_responses_strand_order :
  let w := snd (ex_run_calls [CallPoolComplete 0 None; CallPoolComplete 0 (Some (ErrMsg "connection refused"))] ex_raced) in
  (ch_Status <$> is_challenges (w_db ex_pending) !! ex_challenge_id) = Some ACMEChallengeStatusPending ∧
  length (is_pool (w_db ex_raced)) = 2%nat ∧
  (ord_Status <$> is_orders (w_db w) !! ex_order_id) = Some ACMEOrderStatusReady ∧
  (az_Status <$> is_authzs (w_db w) !! ex_authz_id) = Some ACMEAuthzStatusInvalid.
Proof. vm_compute. by split_and!. Qed.

Lemma challenge_valid_only_by_verdict_witness :
  ∃ i sub, ex_validated = CallPoolComplete i None ∧ is_pool (w_db ex_answered) !! i = Some sub ∧
           ch_ID (sb_Challenge sub) = ex_challenge_id.
Proof.
  assert (∃ c, is_challenges (w_db ex_answered) !! ex_challenge_id = Some c ∧
               ch_Status c ≠ ACMEChallengeStatusValid) as (c & Hc & Hs).
  { eexists. split; [vm_compute; reflexivity|]. discriminate. }
  assert (∃ c, is_challenges (w_db (snd (run_call (RT:=toy_runtime) (J:=toy_jose) (E:=toy_entropy) acme_svc ex_uuid
    ex_policy ex_parse ex_pick ex_validated ex_answered))) !! ex_challenge_id = Some c ∧
    ch_Status c = ACMEChallengeStatusValid) as (c' & Hc' & Hs').
  { eexists. split; vm_compute; reflexivity. }
  exact (challenge_valid_only_by_verdict (RT:=toy_runtime) (J:=toy_jose) (E:=toy_entropy) acme_svc ex_uuid
    ex_pick ex_parse ex_policy ex_validated ex_answered ex_challenge_id c c' Hc Hs Hc' Hs').
Defined.

(** The order of the run is finalised with a matching CSR: the issuer has issued, the call
    fails, and the order stays in processing. *)
Definition ex_finalize :=
  FinalizeOrder (RT:=toy_runtime) (E:=toy_entropy) acme_svc ex_uuid ex_policy ex_pick "acme-acc-1" ex_order_id "p"
    (mkCSR "a.example" []) "csr" ex_ready.

Lemma acme_finalize_never_succeeds_witness :
  is_Ok (fst ex_finalize) = false ∧
  fst ex_finalize = Err (ErrWrap "acme: cert insert" (ErrWrap "failed to create certificate"
                      (ErrWrap "failed to create certificate" (ErrMsg "constraint violation")))) ∧
  ord_Status <$> is_orders (w_db (snd ex_finalize)) !! ex_order_id = Some ACMEOrderStatusProcessing.
Proof.
  split; [|split; vm_compute; reflexivity].
  apply (acme_finalize_never_succeeds (RT:=toy_runtime) (E:=toy_entropy) acme_svc ex_uuid ex_pick ex_policy).
  vm_compute. reflexivity.
Defined.

(** A certificate of one account's order, downloaded by an account that has none. *)
Example acme_download_by_stranger :
  let order := mkOrder "o" "acme-acc-1" [] "valid" 0 None None None "" "mc-1" 0 0 in
  let d := set_orders (<["o" := order]>) (ex_db CertificateSourceACME []) in
  let w := mkWorld d (mkEnv 10 [] [] 0) in
  fst (AcmeRepo.AccountOwnsCertificate "stranger" "mc-1" w) = Ok false ∧
  fst (LookupCertificate acme_svc "mc-1" "stranger" w) = Ok "pem".
Proof. split; vm_compute; reflexivity. Qed.
