(* ===== verification/Notify.v ===== *)
(** * Notifications (src/internal/domain/notification.go, repository/postgres/notification.go,
      service/notification.go)

    [LifeDB] adds the notification table to the issuance tables, and the outbox: the calls of
    [Notifier.Send] in the order they were made, with their outcome.  A notifier is a function
    of everything outside the model, which is the number [Send] draws.  [formatDate] is
    [Time.Format("2006-01-02")]. *)

From Stdlib Require Import ZArith Lia Ascii String.
From stdpp Require Import prelude gmap strings list sorting pretty.
From S2P Require Import Prelude AuditTrail Store Transactions Jobs GoBytes AcmeWire CertStore.

(** ** domain/notification.go *)
Definition NotificationStatusPending : string := "pending".
Definition NotificationStatusSent : string := "sent".
Definition NotificationStatusFailed : string := "failed".
Definition NotificationStatusDead : string := "dead".
Definition NotificationStatusRead : string := "read".

Definition NotificationTypeExpirationWarning : string := "ExpirationWarning".
Definition NotificationTypeRenewalSuccess : string := "RenewalSuccess".
Definition NotificationTypeRenewalFailure : string := "RenewalFailure".
Definition NotificationTypeDeploymentSuccess : string := "DeploymentSuccess".
Definition NotificationTypeDeploymentFailure : string := "DeploymentFailure".
Definition NotificationTypeRevocation : string := "Revocation".

Definition NotificationChannelWebhook : string := "Webhook".
Definition NotificationChannelSlack : string := "Slack".
Definition NotificationChannelTeams : string := "Teams".
Definition NotificationChannelPagerDuty : string := "PagerDuty".
Definition NotificationChannelOpsGenie : string := "OpsGenie".

Definition IsValidNotificationChannel (channel : string) : bool :=
  bool_decide (channel ∈ [NotificationChannelWebhook; NotificationChannelSlack; NotificationChannelTeams;
                          NotificationChannelPagerDuty; NotificationChannelOpsGenie]).

Record NotificationEvent := mkNotification {
  nt_ID : string;
  nt_Type : string;
  nt_CertificateID : option string;
  nt_Channel : string;
  nt_Recipient : string;
  nt_Message : string;
  nt_SentAt : option Z;
  nt_Status : string;
  nt_Error : option string;
  nt_RetryCount : Z;
  nt_NextRetryAt : option Z;
  nt_LastError : option string;
  nt_CreatedAt : Z
}.

(** ** The tables and the outbox *)
Record Delivery := mkDelivery {
  dl_Channel : string; dl_Recipient : string; dl_Subject : string; dl_Body : string; dl_Outcome : res unit }.

Record LifeDB := mkLifeDB {
  lf_iss : IssuanceDB;
  lf_notifs : gmap string NotificationEvent;
  lf_outbox : list Delivery
}.

Definition set_iss (f : IssuanceDB → IssuanceDB) (d : LifeDB) : LifeDB :=
  mkLifeDB (f (lf_iss d)) (lf_notifs d) (lf_outbox d).
Definition set_notifs (f : gmap string NotificationEvent → gmap string NotificationEvent) (d : LifeDB) : LifeDB :=
  mkLifeDB (lf_iss d) (f (lf_notifs d)) (lf_outbox d).

#[global, program] Instance HasAudit_LifeDB : HasAudit LifeDB :=
  {| audit_log := λ d, audit_log (lf_iss d); append_audit := λ ev, set_iss (append_audit ev) |}.
Next Obligation. done. Qed.

(** Code that works on the issuance tables, or on the shared ones, only. *)
Definition on_iss {A} (m : M IssuanceDB A) : M LifeDB A := λ w,
  let '(a, w') := m (mkWorld (lf_iss (w_db w)) (w_env w)) in
  (a, mkWorld (set_iss (λ _, w_db w') (w_db w)) (w_env w')).
Definition on_db {A} (m : M DB A) : M LifeDB A := on_iss (on_store m).

(** ** SQL's LIKE *)
Fixpoint like (p s : list ascii) {struct p} : bool :=
  match p with
  | [] => match s with [] => true | _ => false end
  | "%"%char :: p' =>
      (fix any (s : list ascii) : bool :=
         like p' s || match s with [] => false | _ :: s' => any s' end) s
  | "_"%char :: p' => match s with [] => false | _ :: s' => like p' s' end
  | "\"%char :: c :: p' => match s with [] => false | x :: s' => Ascii.eqb c x && like p' s' end
  | c :: p' => match s with [] => false | x :: s' => Ascii.eqb c x && like p' s' end
  end.

Definition LIKE (s p : string) : bool := like (list_ascii_of_string p) (list_ascii_of_string s).

(** ** repository/postgres/notification.go *)
Module NotificationRepo.
Record NotificationFilter := mkNotificationFilter {
  nf_CertificateID : string; nf_Type : string; nf_Status : string; nf_Channel : string;
  nf_MessageLike : string; nf_Page : Z; nf_PerPage : Z }.

(** The retry columns take their defaults; the callers set the ID and the creation time. *)
Definition inserted (n : NotificationEvent) : NotificationEvent :=
  mkNotification (nt_ID n) (nt_Type n) (nt_CertificateID n) (nt_Channel n) (nt_Recipient n) (nt_Message n)
    (nt_SentAt n) (nt_Status n) (nt_Error n) 0 None None (nt_CreatedAt n).

Definition insert_ok (d : LifeDB) (n : NotificationEvent) : bool :=
  bool_decide (lf_notifs d !! nt_ID n = None) &&
  match nt_CertificateID n with None => true | Some c => bool_decide (is_Some (is_certs (lf_iss d) !! c)) end.

Definition Create (n : NotificationEvent) : M LifeDB (res unit) :=
  sql_exec "failed to create notification" (λ d,
    if insert_ok d n then (Ok tt, set_notifs (<[nt_ID n := inserted n]>) d)
    else (Err (ErrWrap "failed to create notification" (ErrMsg "constraint violation")), d)).

Definition matches (f : NotificationFilter) (n : NotificationEvent) : bool :=
  (bool_decide (nf_CertificateID f = "") || bool_decide (nt_CertificateID n = Some (nf_CertificateID f))) &&
  (bool_decide (nf_Type f = "") || bool_decide (nt_Type n = nf_Type f)) &&
  (bool_decide (nf_Status f = "") || bool_decide (nt_Status n = nf_Status f)) &&
  (bool_decide (nf_MessageLike f = "") || LIKE (nt_Message n) (nf_MessageLike f)) &&
  (bool_decide (nf_Channel f = "") || bool_decide (nt_Channel n = nf_Channel f)).

(** [ORDER BY sent_at DESC NULLS LAST]. *)
Definition sent_order (a b : NotificationEvent) : Prop :=
  match nt_SentAt a, nt_SentAt b with
  | Some x, Some y => y ≤ x
  | None, Some _ => False
  | _, None => True
  end.
#[global] Instance sent_order_dec : RelDecision sent_order.
Proof. intros a b. unfold sent_order. destruct (nt_SentAt a), (nt_SentAt b); apply _. Defined.
#[global] Instance sent_order_total : Total sent_order.
Proof. intros a b. unfold sent_order. destruct (nt_SentAt a), (nt_SentAt b); auto; lia. Qed.

Definition List (f : NotificationFilter) : M LifeDB (res (list NotificationEvent)) :=
  let Page := if nf_Page f <? 1 then 1 else nf_Page f in
  let PerPage := if (nf_PerPage f =? 0) || (500 <? nf_PerPage f) then 50 else nf_PerPage f in
  let offset := wrap64 (wrap64 (Page - 1) * PerPage) in
  let matching := λ d, filter (λ n, matches f n = true) (rows (lf_notifs d)) in
  total ← sql_query "failed to count notifications" (λ d, length (matching d));
  match total with
  | Err e => mret (Err e)
  | Ok _ =>
      r ← sql_query "failed to query notifications" (λ d,
            if (PerPage <? 0) || (offset <? 0)
            then Err (ErrMsg "failed to query notifications: LIMIT or OFFSET is negative")
            else Ok (take (Z.to_nat PerPage) (drop (Z.to_nat offset) (merge_sort sent_order (matching d)))));
      mret match r with Err e | Ok (Err e) => Err e | Ok (Ok l) => Ok l end
  end.

(** An UPDATE of one row; the row must exist. *)
Definition update_row (op id : string) (f : NotificationEvent → NotificationEvent) : M LifeDB (res unit) :=
  sql_exec op (λ d,
    match lf_notifs d !! id with
    | None => (Err (ErrWrap "notification not found" repo_ErrNotFound), d)
    | Some n => (Ok tt, set_notifs (<[id := f n]>) d)
    end).

Definition with_status (status : string) (sentAt : Z) (n : NotificationEvent) : NotificationEvent :=
  mkNotification (nt_ID n) (nt_Type n) (nt_CertificateID n) (nt_Channel n) (nt_Recipient n) (nt_Message n)
    (Some sentAt) status (nt_Error n) (nt_RetryCount n) (nt_NextRetryAt n) (nt_LastError n) (nt_CreatedAt n).

Definition UpdateStatus (id status : string) (sentAt : Z) : M LifeDB (res unit) :=
  update_row "failed to update notification status" id (with_status status sentAt).

Definition with_retry (status : string) (count : Z) (next : option Z) (err : option string)
    (n : NotificationEvent) : NotificationEvent :=
  mkNotification (nt_ID n) (nt_Type n) (nt_CertificateID n) (nt_Channel n) (nt_Recipient n) (nt_Message n)
    (nt_SentAt n) status (nt_Error n) count next err (nt_CreatedAt n).

Definition RecordFailedAttempt (id lastError : string) (nextRetryAt : Z) : M LifeDB (res unit) :=
  update_row "failed to record notification retry attempt" id
    (λ n, with_retry (nt_Status n) (nt_RetryCount n + 1) (Some nextRetryAt) (Some lastError) n).

Definition MarkAsDead (id lastError : string) : M LifeDB (res unit) :=
  update_row "failed to mark notification as dead" id
    (λ n, with_retry NotificationStatusDead (nt_RetryCount n) None (Some lastError) n).

Definition Requeue (id : string) : M LifeDB (res unit) :=
  update_row "failed to requeue notification" id (with_retry NotificationStatusPending 0 None None).

Definition listRetryEligibleDefaultLimit : Z := 1000.

Definition eligible (now maxAttempts : Z) (n : NotificationEvent) : bool :=
  bool_decide (nt_Status n = NotificationStatusFailed) &&
  match nt_NextRetryAt n with Some t => t <=? now | None => false end && (nt_RetryCount n <? maxAttempts).

Definition retry_key (n : NotificationEvent) : Z := default 0 (nt_NextRetryAt n).

Definition ListRetryEligible (now maxAttempts limit : Z) : M LifeDB (res (list NotificationEvent)) :=
  let limit := if limit <=? 0 then listRetryEligibleDefaultLimit else limit in
  sql_query "failed to query retry-eligible notifications" (λ d,
    take (Z.to_nat limit)
      (merge_sort (asc retry_key) (filter (λ n, eligible now maxAttempts n = true) (rows (lf_notifs d))))).

Definition CountByStatus (status : string) : M LifeDB (res Z) :=
  sql_query "failed to count notifications by status" (λ d,
    Z.of_nat (length (filter (λ n, nt_Status n = status) (rows (lf_notifs d))))).
End NotificationRepo.

(** ** service/notification.go *)
Module NotificationService.
Import NotificationRepo.

Definition notifRetryMaxAttempts : Z := 5.
Definition notifRetryBackoffCap : Z := 60 * JobService.minute.
Definition notifRetrySweepLimit : Z := 1000.

Definition Notifier : Type := N → string → string → string → res unit.

Record NotificationSvc := mkNotificationSvc {
  ns_ownerRepo : bool;
  ns_notifiers : gmap string Notifier
}.

Section service.
Variable formatDate : Z → string.
Variable s : NotificationSvc.

(** [notifier.Send], recorded in the outbox. *)
Definition Send (channel : string) (notifier : Notifier) (recipient subject body : string) : M LifeDB (res unit) :=
  k ← fresh;
  let r := notifier k recipient subject body in
  d ← get_db;
  _ ← put_db (mkLifeDB (lf_iss d) (lf_notifs d) (lf_outbox d ++ [mkDelivery channel recipient subject body r]));
  mret r.

Definition resolveRecipient (ownerID : string) : M LifeDB string :=
  if negb (ns_ownerRepo s) || bool_decide (ownerID = "") then mret ownerID else
  r ← on_db (OwnerRepository_Get ownerID);
  mret match r with
       | Err _ => ownerID
       | Ok owner => if bool_decide (owner_Email owner = "") then ownerID else owner_Email owner
       end.

Definition sendNotification (n : NotificationEvent) : M LifeDB (res unit) :=
  match ns_notifiers s !! nt_Channel n with
  | None =>
      t ← now;
      _ ← UpdateStatus (nt_ID n) NotificationStatusSent t;
      mret (Ok tt)
  | Some notifier =>
      r ← Send (nt_Channel n) notifier (nt_Recipient n) (nt_Type n) (nt_Message n);
      match r with
      | Err e =>
          _ ← UpdateStatus (nt_ID n) NotificationStatusFailed Ari.zero_time;
          mret (Err (ErrWrap ("failed to send via " +:+ nt_Channel n) e))
      | Ok _ =>
          t ← now;
          _ ← UpdateStatus (nt_ID n) NotificationStatusSent t;
          mret (Ok tt)
      end
  end.

(** The row of a new notification and its first delivery. *)
Definition notify (ctx type channel message : string) (cert : ManagedCertificate) : M LifeDB (res unit) :=
  id ← generateID "notif";
  recipient ← resolveRecipient (cert_OwnerID cert);
  t ← now;
  let notif := mkNotification id type (Some (cert_ID cert)) channel recipient message None
                 NotificationStatusPending None 0 None None t in
  c ← Create notif;
  match c with
  | Err e => mret (Err (ErrWrap ctx e))
  | Ok _ => sendNotification notif
  end.

(** [%d] and [fmt.Sprintf("[threshold:%d]", threshold)]. *)
Definition threshold_tag (threshold : Z) : string := "[threshold:" +:+ pretty threshold +:+ "]".

Definition newline : string := String (byte_chr 10) "".

Definition threshold_body (cert : ManagedCertificate) (daysUntilExpiry threshold : Z) : string :=
  if threshold <=? 0 then
    "[EXPIRED] The certificate for " +:+ cert_CommonName cert +:+ " has expired (" +:+
    formatDate (cert_ExpiresAt cert) +:+ ")." +:+ newline +:+ newline +:+ "Immediate action required." +:+
    newline +:+ newline +:+ threshold_tag threshold
  else
    "The certificate for " +:+ cert_CommonName cert +:+ " will expire in " +:+ pretty daysUntilExpiry +:+
    " days (" +:+ formatDate (cert_ExpiresAt cert) +:+ ")." +:+ newline +:+ newline +:+
    "Please schedule renewal." +:+ newline +:+ newline +:+ threshold_tag threshold.

Definition SendThresholdAlertOnChannel (cert : ManagedCertificate) (daysUntilExpiry threshold : Z)
    (channel : string) : M LifeDB (res unit) :=
  if negb (IsValidNotificationChannel channel)
  then mret (Err (ErrMsg ("invalid notification channel " +:+ channel +:+ " for threshold " +:+ pretty threshold))) else
  notify "failed to create notification" NotificationTypeExpirationWarning channel
    (threshold_body cert daysUntilExpiry threshold) cert.

Definition SendThresholdAlert (cert : ManagedCertificate) (daysUntilExpiry threshold : Z) : M LifeDB (res unit) :=
  SendThresholdAlertOnChannel cert daysUntilExpiry threshold NotificationChannelWebhook.
Definition SendExpirationWarning (cert : ManagedCertificate) (daysUntilExpiry : Z) : M LifeDB (res unit) :=
  SendThresholdAlert cert daysUntilExpiry daysUntilExpiry.

Definition threshold_filter (certID : string) (threshold : Z) (channel : string) : NotificationFilter :=
  mkNotificationFilter certID NotificationTypeExpirationWarning "" channel
    ("%" +:+ threshold_tag threshold +:+ "%") 0 1.

Definition HasThresholdNotificationOnChannel (certID : string) (threshold : Z) (channel : string)
    : M LifeDB (res bool) :=
  r ← List (threshold_filter certID threshold channel);
  mret match r with
       | Err e => Err (ErrWrap "failed to check existing notifications" e)
       | Ok existing => Ok (negb (bool_decide (existing = [])))
       end.
Definition HasThresholdNotification (certID : string) (threshold : Z) : M LifeDB (res bool) :=
  HasThresholdNotificationOnChannel certID threshold NotificationChannelWebhook.

(** [err] is the cause of a failure. *)
Definition SendRenewalNotification (cert : ManagedCertificate) (err : option error) : M LifeDB (res unit) :=
  match err with
  | None =>
      notify "failed to create notification" NotificationTypeRenewalSuccess NotificationChannelWebhook
        ("The certificate for " +:+ cert_CommonName cert +:+ " has been successfully renewed." +:+ newline +:+
         newline +:+ "New expiry: " +:+ formatDate (cert_ExpiresAt cert)) cert
  | Some e =>
      notify "failed to create notification" NotificationTypeRenewalFailure NotificationChannelWebhook
        ("The certificate for " +:+ cert_CommonName cert +:+ " failed to renew." +:+ newline +:+ newline +:+
         "Error: " +:+ Error e +:+ newline +:+ newline +:+ "Please investigate.") cert
  end.

Definition SendDeploymentNotification (cert : ManagedCertificate) (target : DeploymentTarget)
    (err : option error) : M LifeDB (res unit) :=
  match err with
  | None =>
      notify "failed to create notification" NotificationTypeDeploymentSuccess NotificationChannelWebhook
        ("The certificate for " +:+ cert_CommonName cert +:+ " has been successfully deployed to " +:+
         target_Name target +:+ ".") cert
  | Some e =>
      notify "failed to create notification" NotificationTypeDeploymentFailure NotificationChannelWebhook
        ("The certificate for " +:+ cert_CommonName cert +:+ " failed to deploy to " +:+ target_Name target +:+
         "." +:+ newline +:+ newline +:+ "Error: " +:+ Error e +:+ newline +:+ newline +:+
         "Please investigate.") cert
  end.

Definition SendRevocationNotification (cert : ManagedCertificate) (reason : string) : M LifeDB (res unit) :=
  notify "failed to create revocation notification" NotificationTypeRevocation NotificationChannelWebhook
    ("[REVOKED] The certificate for " +:+ cert_CommonName cert +:+ " has been revoked." +:+ newline +:+ newline +:+
     "Reason: " +:+ reason +:+ newline +:+ newline +:+ "This certificate is no longer valid.") cert.

Definition page_filter (status : string) (page perPage : Z) : NotificationFilter :=
  mkNotificationFilter "" "" status "" "" page perPage.

(** The loop of [ProcessPendingNotifications]: the number of failures. *)
Fixpoint send_all (l : list NotificationEvent) (failedCount : Z) : M LifeDB Z :=
  match l with
  | [] => mret failedCount
  | n :: l' =>
      r ← sendNotification n;
      send_all l' match r with Err _ => failedCount + 1 | Ok _ => failedCount end
  end.

Definition ProcessPendingNotifications : M LifeDB (res unit) :=
  r ← List (page_filter NotificationStatusPending 0 1000);
  match r with
  | Err e => mret (Err (ErrWrap "failed to list pending notifications" e))
  | Ok pending =>
      failedCount ← send_all pending 0;
      if 0 <? failedCount
      then mret (Err (ErrMsg ("failed to send " +:+ pretty failedCount +:+ " out of " +:+
                              pretty (length pending) +:+ " notifications")))
      else mret (Ok tt)
  end.

Definition GetNotificationHistory (certID : string) : M LifeDB (res (list NotificationEvent)) :=
  r ← List (mkNotificationFilter certID "" "" "" "" 0 1000);
  mret match r with Err e => Err (ErrWrap "failed to list notifications" e) | Ok l => Ok l end.

Definition list_page (ctx status : string) (page perPage : Z) : M LifeDB (res (list NotificationEvent * Z)) :=
  let page := if page <? 1 then 1 else page in
  let perPage := if perPage <? 1 then 50 else perPage in
  r ← List (page_filter status page perPage);
  mret match r with Err e => Err (ErrWrap ctx e) | Ok l => Ok (l, Z.of_nat (length l)) end.

Definition ListNotifications : Z → Z → M LifeDB (res (list NotificationEvent * Z)) :=
  list_page "failed to list notifications" "".
Definition ListNotificationsByStatus : string → Z → Z → M LifeDB (res (list NotificationEvent * Z)) :=
  list_page "failed to list notifications by status".

Definition GetNotification (id : string) : M LifeDB (res NotificationEvent) :=
  r ← List (page_filter "" 0 1);
  mret match r with
       | Err e => Err (ErrWrap "failed to get notification" e)
       | Ok l => match head (filter (λ n, nt_ID n = id) l) with
                 | Some n => Ok n
                 | None => Err (ErrMsg "notification not found")
                 end
       end.

Definition MarkAsRead (id : string) : M LifeDB (res unit) :=
  t ← now; UpdateStatus id NotificationStatusRead t.

(** [min(2^retry_count minutes, 1h)]. *)
Definition backoff (retryCount : Z) : Z :=
  let wait := wrap64 (wrap64 (Z.shiftl 1 retryCount) * JobService.minute) in
  if notifRetryBackoffCap <? wait then notifRetryBackoffCap else wait.

(** One row of the retry sweep; errors of the bookkeeping are logged. *)
Definition retry_notification (row : NotificationEvent) : M LifeDB unit :=
  match ns_notifiers s !! nt_Channel row with
  | None => t ← now; _ ← UpdateStatus (nt_ID row) NotificationStatusSent t; mret tt
  | Some notifier =>
      r ← Send (nt_Channel row) notifier (nt_Recipient row) (nt_Type row) (nt_Message row);
      match r with
      | Ok _ => t ← now; _ ← UpdateStatus (nt_ID row) NotificationStatusSent t; mret tt
      | Err sendErr =>
          if notifRetryMaxAttempts - 1 <=? nt_RetryCount row
          then _ ← MarkAsDead (nt_ID row) (Error sendErr); mret tt
          else
            t ← now;
            _ ← RecordFailedAttempt (nt_ID row) (Error sendErr) (t + backoff (nt_RetryCount row));
            mret tt
      end
  end.

Definition RetryFailedNotifications : M LifeDB (res unit) :=
  t ← now;
  r ← ListRetryEligible t notifRetryMaxAttempts notifRetrySweepLimit;
  match r with
  | Err e => mret (Err (ErrWrap "failed to list retry-eligible notifications" e))
  | Ok rows => _ ← for_each rows retry_notification; mret (Ok tt)
  end.

Definition RequeueNotification (id : string) : M LifeDB (res unit) :=
  r ← Requeue id;
  mret match r with Err e => Err (ErrWrap "failed to requeue notification" e) | Ok _ => Ok tt end.
End service.
End NotificationService.
