(* ===== verification/NotifyFacts.v ===== *)
(** * Facts about notifications (Notify.v)

    What the search for an earlier alert finds, that the tag at the end of an alert tells its
    threshold, that no row is ever armed for the retry sweep, and the ladder the sweep would
    climb with a row that is. *)

From Stdlib Require Import ZArith Lia Ascii String.
From stdpp Require Import prelude gmap strings list sorting pretty.
From S2P Require Import Prelude AuditTrail Store Transactions Jobs GoBytes AcmeWire CertStore Notify.
Import NotificationRepo NotificationService.

(** ** The retry sweep *)
Definition unarmed (d : LifeDB) : Prop := map_Forall (λ _ n, nt_NextRetryAt n = None) (lf_notifs d).

Lemma hoare_on_iss {A} (P : LifeDB → Prop) (m : M IssuanceDB A) :
  (∀ d i, P d → P (set_iss (λ _, i) d)) → hoare P (on_iss m) (λ _, P).
Proof. intros HP w Hw. unfold on_iss. destruct (m _) as [a w']. cbn. by apply HP. Qed.

Lemma hoare_resolveRecipient (P : LifeDB → Prop) s ownerID :
  (∀ d i, P d → P (set_iss (λ _, i) d)) → hoare P (resolveRecipient s ownerID) (λ _, P).
Proof.
  intros HP. unfold resolveRecipient. case_match; [by apply hoare_ret|].
  apply hoare_bind with (λ _, P); [by apply hoare_on_iss|]. intros r. by apply hoare_ret.
Qed.

Lemma hoare_Send (P : LifeDB → Prop) channel notifier recipient subject body :
  (∀ d l, P d → P (mkLifeDB (lf_iss d) (lf_notifs d) l)) →
  hoare P (Send channel notifier recipient subject body) (λ _, P).
Proof. intros HP w Hw. unfold Send. mrun. by apply HP. Qed.

Lemma unarmed_update op id f :
  (∀ n, nt_NextRetryAt n = None → nt_NextRetryAt (f n) = None) →
  hoare unarmed (update_row op id f) (λ _, unarmed).
Proof.
  intros Hf. apply hoare_exec; [|done|]; intros d Hd; destruct (lf_notifs d !! id) eqn:E; cbn; try done.
  all: apply map_Forall_insert_2; [by apply Hf, (Hd _ _ E)|done].
Qed.

Lemma unarmed_create n : hoare unarmed (Create n) (λ _, unarmed).
Proof.
  apply hoare_exec; [|done|]; intros d Hd; case_match; cbn; try done; by apply map_Forall_insert_2.
Qed.

Ltac unarmed_walk :=
  repeat first
    [ hkeep | done | by apply unarmed_update | by apply hoare_Send | by apply hoare_resolveRecipient
    | apply unarmed_create ].

Lemma unarmed_sendNotification s n : hoare unarmed (sendNotification s n) (λ _, unarmed).
Proof. unfold sendNotification, UpdateStatus. unarmed_walk. Qed.

Lemma unarmed_notify s ctx type channel message cert :
  hoare unarmed (notify s ctx type channel message cert) (λ _, unarmed).
Proof. unfold notify. unarmed_walk. apply unarmed_sendNotification. Qed.

Lemma unarmed_List f : hoare unarmed (NotificationRepo.List f) (λ _, unarmed).
Proof. unfold NotificationRepo.List. unarmed_walk. Qed.

Lemma unarmed_send_all s l n : hoare unarmed (send_all s l n) (λ _, unarmed).
Proof.
  revert n. induction l as [|x l IH]; intros n; cbn; [by apply hoare_ret|].
  apply hoare_bind with (λ _, unarmed); [apply unarmed_sendNotification|]. intros r. apply IH.
Qed.

(** No unarmed row is eligible. *)
Lemma unarmed_none_eligible d now max :
  unarmed d → filter (λ n, eligible now max n = true) (rows (lf_notifs d)) = [].
Proof.
  intros H. apply filter_none, Forall_forall. intros n [k Hk]%elem_of_rows.
  unfold eligible. rewrite (H _ _ Hk). by destruct (bool_decide _).
Qed.

Lemma sweep_idle s w :
  unarmed (w_db w) → w_db (snd (RetryFailedNotifications s w)) = w_db w.
Proof.
  intros Hw. enough (hoare (λ d, d = w_db w) (RetryFailedNotifications s) (λ _ d, d = w_db w)) as H
    by by apply H.
  unfold RetryFailedNotifications. hkeep; [by hkeep|].
  apply hoare_bind with (λ r d, d = w_db w ∧ ∀ l, r = Ok l → l = []).
  - unfold ListRetryEligible. apply hoare_query; intros d ->; split; try done.
    intros l [= <-]. rewrite unarmed_none_eligible by done. apply take_nil.
  - intros [l|e]; [|apply hoare_ret; by intros d [-> _]].
    intros w' [Hd Hl]. rewrite (Hl l eq_refl). done.
Qed.

(** The operations of the service, as the rest of the program calls them. *)
Inductive notif_call :=
| CallThresholdAlert (cert : ManagedCertificate) (days threshold : Z) (channel : string)
| CallHasThreshold (certID : string) (threshold : Z) (channel : string)
| CallRenewal (cert : ManagedCertificate) (err : option error)
| CallDeployment (cert : ManagedCertificate) (target : DeploymentTarget) (err : option error)
| CallRevocation (cert : ManagedCertificate) (reason : string)
| CallProcessPending
| CallRetryFailed
| CallRequeue (id : string)
| CallMarkAsRead (id : string)
| CallListByStatus (status : string) (page perPage : Z)
| CallGet (id : string)
| CallHistory (certID : string).

Definition run_notif_call (formatDate : Z → string) (s : NotificationSvc) (c : notif_call) : M LifeDB unit :=
  match c with
  | CallThresholdAlert cert days t ch => _ ← SendThresholdAlertOnChannel formatDate s cert days t ch; mret tt
  | CallHasThreshold c t ch => _ ← HasThresholdNotificationOnChannel c t ch; mret tt
  | CallRenewal cert err => _ ← SendRenewalNotification formatDate s cert err; mret tt
  | CallDeployment cert target err => _ ← SendDeploymentNotification s cert target err; mret tt
  | CallRevocation cert reason => _ ← SendRevocationNotification s cert reason; mret tt
  | CallProcessPending => _ ← ProcessPendingNotifications s; mret tt
  | CallRetryFailed => _ ← RetryFailedNotifications s; mret tt
  | CallRequeue id => _ ← RequeueNotification id; mret tt
  | CallMarkAsRead id => _ ← MarkAsRead id; mret tt
  | CallListByStatus st p pp => _ ← ListNotificationsByStatus st p pp; mret tt
  | CallGet id => _ ← GetNotification id; mret tt
  | CallHistory c => _ ← GetNotificationHistory c; mret tt
  end.

Lemma unarmed_call formatDate s c : hoare unarmed (run_notif_call formatDate s c) (λ _, unarmed).
Proof.
  destruct c; cbn [run_notif_call]; hkeep; try by apply hoare_ret.
  - unfold SendThresholdAlertOnChannel. hkeep; [by hkeep|apply unarmed_notify].
  - unfold HasThresholdNotificationOnChannel. hkeep; [apply unarmed_List|by apply hoare_ret].
  - unfold SendRenewalNotification. case_match; apply unarmed_notify.
  - unfold SendDeploymentNotification. case_match; apply unarmed_notify.
  - apply unarmed_notify.
  - unfold ProcessPendingNotifications. hkeep; [apply unarmed_List|]. hkeep; [|by hkeep].
    hkeep; [apply unarmed_send_all|]. by case_match; hkeep.
  - intros w Hw. unfold unarmed. by rewrite sweep_idle.
  - unfold RequeueNotification, Requeue. unarmed_walk.
  - unfold MarkAsRead, UpdateStatus. unarmed_walk.
  - unfold ListNotificationsByStatus, list_page. cbv zeta. hkeep; [apply unarmed_List|by hkeep].
  - unfold GetNotification. hkeep; [apply unarmed_List|by hkeep].
  - unfold GetNotificationHistory. hkeep; [apply unarmed_List|by hkeep].
Qed.

(** The retry sweep never retries anything.  Starting from a table in which no row carries a
    retry time (a fresh one, say), no sequence of the service's operations ever sets one, since
    a failed first delivery records the status "failed" and nothing else; so the sweep that
    follows, however long after, selects no row: it sends nothing and changes nothing, and a
    failed notification stays failed until an operator requeues it. *)
Theorem failed_notifications_never_retried formatDate s calls w :
  unarmed (w_db w) →
  let w' := snd (for_each calls (run_notif_call formatDate s) w) in
  unarmed (w_db w') ∧ w_db (snd (RetryFailedNotifications s w')) = w_db w'.
Proof.
  intros Hw w'. assert (unarmed (w_db w')) as H; [|split; [done|by apply sweep_idle]].
  subst w'. revert w Hw. induction calls as [|c calls IH]; intros w Hw; cbn [for_each]; [done|].
  unfold mbind, M_bind. pose proof (unarmed_call formatDate s c w Hw) as Hc.
  destruct (run_notif_call formatDate s c w) as [[] w']. by apply IH.
Qed.

(** ** Searching for an earlier alert *)

(** A pattern with no wild card between two percent signs looks for a substring. *)
Definition plain (c : ascii) : Prop := c ≠ "%"%char ∧ c ≠ "_"%char ∧ c ≠ "\"%char.

Lemma like_plain_cons c p x s : plain c → like (c :: p) (x :: s) = Ascii.eqb c x && like p s.
Proof.
  intros (H1 & H2 & H3). destruct c as [b0 b1 b2 b3 b4 b5 b6 b7].
  destruct b0, b1, b2, b3, b4, b5, b6, b7; try reflexivity; exfalso; eauto.
Qed.

Lemma like_plain_nil c p : plain c → like (c :: p) [] = false.
Proof.
  intros (H1 & H2 & H3). destruct c as [b0 b1 b2 b3 b4 b5 b6 b7].
  destruct b0, b1, b2, b3, b4, b5, b6, b7; try reflexivity; try (exfalso; by auto).
Qed.

Lemma like_any p s : like ("%"%char :: p) s = true ↔ ∃ s1 s2, s = s1 ++ s2 ∧ like p s2 = true.
Proof.
  induction s as [|x s IH].
  - cbn. rewrite orb_false_r. split; [by exists [], []|]. intros ([] & s2 & ? & ?); by simplify_eq/=.
  - change (like ("%"%char :: p) (x :: s)) with (like p (x :: s) || like ("%"%char :: p) s).
    rewrite orb_true_iff, IH. split.
    + intros [H|(s1 & s2 & -> & H)]; [by exists [], (x :: s)|by exists (x :: s1), s2].
    + intros ([|y s1] & s2 & E & H); simplify_eq/=; [by left|right; by exists s1, s2].
Qed.

Lemma like_prefix t s : Forall plain t → like (t ++ ["%"%char]) s = true ↔ ∃ s2, s = t ++ s2.
Proof.
  intros Ht. revert s. induction Ht as [|c t Hc Ht IH]; intros s; cbn [app].
  - split; [by exists s|]. intros _. apply like_any. exists s, []. by rewrite app_nil_r.
  - destruct s as [|x s].
    + rewrite like_plain_nil by done. split; [done|]. by intros [s2 ?].
    + rewrite like_plain_cons, andb_true_iff, Ascii.eqb_eq, IH by done. split.
      * intros [-> [s2 ->]]. by exists s2.
      * intros [s2 ?]. simplify_eq/=. eauto.
Qed.

Definition contains (t s : list ascii) : Prop := ∃ s1 s2, s = s1 ++ t ++ s2.

Lemma like_substring t s :
  Forall plain t → like ("%"%char :: t ++ ["%"%char]) s = true ↔ contains t s.
Proof.
  intros Ht. rewrite like_any. unfold contains. split.
  - intros (s1 & s2 & -> & H). apply like_prefix in H as [s3 ->]; [|done]. by exists s1, s3.
  - intros (s1 & s2 & ->). exists s1, (t ++ s2). split; [done|]. apply like_prefix; eauto.
Qed.

(** ** The tag of an alert *)
Notation chars := list_ascii_of_string.

Lemma chars_app s t : chars (s +:+ t) = chars s ++ chars t.
Proof. induction s as [|c s IH]; [done|]. rewrite string_cons_app. cbn. by rewrite IH. Qed.

Lemma chars_inj s t : chars s = chars t → s = t.
Proof. intros H. by rewrite <-(string_of_list_ascii_of_string s), H, string_of_list_ascii_of_string. Qed.

Definition num_char (c : ascii) : bool := is_digit c || Ascii.eqb c "-"%char.

Lemma all_chars_forallb p s : all_chars p s = forallb p (chars s).
Proof. induction s as [|c s IH]; cbn; [done|]. by rewrite IH. Qed.

Lemma pretty_N_num n : forallb num_char (chars (pretty (N.pos n))) = true.
Proof.
  assert (all_chars is_digit (pretty (N.pos n)) = true) as H.
  { unfold pretty, pretty_N. case_decide; [done|]. by apply pretty_N_go_digits. }
  rewrite all_chars_forallb, forallb_forall in H. apply forallb_forall. intros c Hc.
  unfold num_char. by rewrite H.
Qed.

Lemma pretty_Z_num (z : Z) : forallb num_char (chars (pretty z)) = true.
Proof.
  destruct z as [|n|n]; [done|apply pretty_N_num|].
  change (pretty (Z.neg n)) with ("-" +:+ pretty (N.pos n)). rewrite chars_app, forallb_app, pretty_N_num. done.
Qed.

Lemma num_char_plain c : num_char c = true → plain c ∧ c ≠ "["%char.
Proof.
  unfold num_char, plain. intros H. destruct_and?; split_and!; intros ->; by vm_compute in H.
Qed.

Lemma tag_chars t :
  chars (threshold_tag t) = "["%char :: (chars "threshold:" ++ chars (pretty t) ++ ["]"%char]).
Proof. unfold threshold_tag. by rewrite !chars_app. Qed.

Lemma tag_plain t : Forall plain (chars (threshold_tag t)).
Proof.
  rewrite tag_chars. apply Forall_cons; split; [done|]. rewrite !Forall_app. split_and!.
  - by repeat constructor.
  - pose proof (pretty_Z_num t) as H. rewrite forallb_forall in H. apply Forall_forall.
    intros c Hc%list_elem_of_In. by apply num_char_plain, H.
  - by repeat constructor.
Qed.

(** What follows the last occurrence of a character. *)
Lemma last_sep (c : ascii) p1 p2 u1 u2 :
  c ∉ u1 → c ∉ u2 → p1 ++ c :: u1 = p2 ++ c :: u2 → u1 = u2.
Proof.
  intros H1 H2. revert p2. induction p1 as [|x p1 IH]; intros [|y p2] E; simplify_eq/=; try done.
  - destruct H1. set_solver.
  - destruct H2. set_solver.
  - by apply (IH p2).
Qed.

Definition tagged (t : Z) (msg : string) : Prop := ∃ p, msg = p +:+ threshold_tag t.

Lemma tagged_unique t t' msg : tagged t msg → tagged t' msg → t = t'.
Proof.
  assert (∀ t : Z, "["%char ∉ chars "threshold:" ++ chars (pretty t) ++ ["]"%char]) as Hn.
  { intros u Hu. rewrite !elem_of_app in Hu. destruct Hu as [Hu|[Hu|Hu]]; [by vm_compute in Hu; set_solver| |set_solver].
    pose proof (pretty_Z_num u) as H. rewrite forallb_forall in H. apply list_elem_of_In, H, num_char_plain in Hu.
    by destruct Hu. }
  intros [p ->] [p' E]. apply (f_equal chars) in E. rewrite !chars_app, !tag_chars in E.
  apply last_sep in E; [|done|done]. apply app_inv_head, app_inv_tail, chars_inj in E. by apply (inj pretty).
Qed.

Lemma body_tagged formatDate cert days t : tagged t (threshold_body formatDate cert days t).
Proof.
  unfold threshold_body, tagged. case_match; eexists; rewrite <-!string_app_assoc; reflexivity.
Qed.

(** The rows the search is after: alerts of the certificate on the channel that mention the tag. *)
Definition mentions (certID channel : string) (t : Z) (n : NotificationEvent) : Prop :=
  nt_CertificateID n = Some certID ∧ nt_Type n = NotificationTypeExpirationWarning ∧
  nt_Channel n = channel ∧ contains (chars (threshold_tag t)) (chars (nt_Message n)).

Lemma tagged_contains t n : tagged t (nt_Message n) → contains (chars (threshold_tag t)) (chars (nt_Message n)).
Proof. intros [p ->]. rewrite chars_app. exists (chars p), []. by rewrite app_nil_r. Qed.

Lemma threshold_filter_matches certID channel t n :
  certID ≠ "" → channel ≠ "" →
  matches (threshold_filter certID t channel) n = true ↔ mentions certID channel t n.
Proof.
  intros H1 H2. unfold matches, threshold_filter, mentions, LIKE. cbn.
  rewrite !(bool_decide_eq_false_2 (certID = "")), !(bool_decide_eq_false_2 (channel = "")) by done.
  rewrite !(bool_decide_eq_false_2 (NotificationTypeExpirationWarning = "")) by done.
  rewrite (bool_decide_eq_true_2 ("" = "")) by done.
  rewrite (bool_decide_eq_false_2 ("%" +:+ _ = "")) by (rewrite string_cons_app; discriminate).
  rewrite chars_app, chars_app. change (chars "%") with ["%"%char]. cbn [app orb].
  rewrite !andb_true_iff, !bool_decide_eq_true, like_substring by apply tag_plain. naive_solver.
Qed.

(** The first page with one row. *)
Lemma List_first f w :
  env_faults (w_env w) = [] → nf_Page f = 0 → nf_PerPage f = 1 →
  NotificationRepo.List f w =
    (Ok (take 1 (merge_sort sent_order (filter (λ n, matches f n = true) (rows (lf_notifs (w_db w)))))), w).
Proof.
  intros Hf H1 H2. unfold NotificationRepo.List. rewrite H1, H2. cbn -[merge_sort take drop].
  erewrite bind_run by (by apply query_run). cbn beta iota.
  erewrite bind_run by (by apply query_run). cbn beta iota. by rewrite drop_0.
Qed.

(** The search for an earlier alert is exact: with a certificate and a channel named, and no
    failing statement, it answers yes precisely when the table holds an alert for that
    certificate and channel whose message contains the threshold's tag, whatever the delivery
    status of that row is, and it changes nothing. *)
Theorem alert_search_exact certID channel t w :
  certID ≠ "" → channel ≠ "" → env_faults (w_env w) = [] →
  ∃ b, HasThresholdNotificationOnChannel certID t channel w = (Ok b, w) ∧
    (b = true ↔ ∃ k n, lf_notifs (w_db w) !! k = Some n ∧ mentions certID channel t n).
Proof.
  intros H1 H2 Hf. unfold HasThresholdNotificationOnChannel.
  eexists. split; [by erewrite bind_run by (by apply List_first)|]. cbn -[merge_sort take].
    rewrite negb_true_iff, bool_decide_eq_false. set (l := filter _ _).
    assert (take 1 (merge_sort sent_order l) ≠ [] ↔ l ≠ []) as ->.
    { pose proof (merge_sort_Permutation sent_order l) as Hp. destruct l as [|x l]; [done|].
      destruct (merge_sort _ _); [by apply Permutation_nil_cons in Hp|done]. }
    split.
    + destruct l as [|n l'] eqn:E; [done|]. intros _. assert (n ∈ l) as Hn by (rewrite E; left).
      apply list_elem_of_filter in Hn as [Hm [k Hk]%elem_of_rows]. exists k, n. split; [done|].
      by apply threshold_filter_matches.
    + intros (k & n & Hk & Hm) E. assert (n ∈ l) as Hn; [|rewrite E in Hn; set_solver].
      apply list_elem_of_filter. split; [by apply threshold_filter_matches|].
      apply elem_of_rows. eauto.
Qed.

(** ** The ladder *)
Definition failing (notifier : Notifier) : Prop := ∀ k r su b, ∃ e, notifier k r su b = Err e.

(** The row after one failed attempt at time [t]. *)
Definition after_failure (t : Z) (msg : string) (n : NotificationEvent) : NotificationEvent :=
  if nt_RetryCount n =? 4 then with_retry NotificationStatusDead 4 None (Some msg) n
  else with_retry (nt_Status n) (nt_RetryCount n + 1) (Some (t + 2 ^ nt_RetryCount n * JobService.minute)) (Some msg) n.

Lemma backoff_small c : 0 ≤ c ≤ 3 → backoff c = 2 ^ c * JobService.minute.
Proof. intros H. assert (c = 0 ∨ c = 1 ∨ c = 2 ∨ c = 3) as Hc by lia. by destruct_or! Hc; subst. Qed.

Lemma Send_run channel notifier recipient subject body w :
  ∃ k w', Send channel notifier recipient subject body w = (notifier k recipient subject body, w') ∧
    lf_notifs (w_db w') = lf_notifs (w_db w) ∧ env_faults (w_env w') = env_faults (w_env w) ∧
    lf_outbox (w_db w') =
      lf_outbox (w_db w) ++ [mkDelivery channel recipient subject body (notifier k recipient subject body)].
Proof. eexists _, _. unfold Send. mrun. by split_and!. Qed.

Lemma retry_step s notifier w n :
  env_faults (w_env w) = [] → ns_notifiers s !! nt_Channel n = Some notifier → failing notifier →
  lf_notifs (w_db w) !! nt_ID n = Some n → 0 ≤ nt_RetryCount n ≤ 4 →
  ∃ t msg del w', retry_notification s n w = (tt, w') ∧
    lf_notifs (w_db w') = <[nt_ID n := after_failure t msg n]> (lf_notifs (w_db w)) ∧
    lf_outbox (w_db w') = lf_outbox (w_db w) ++ [del] ∧ env_faults (w_env w') = [].
Proof.
  intros Hf Hc Hn Hrow Hr. unfold retry_notification. rewrite Hc.
  destruct (Send_run (nt_Channel n) notifier (nt_Recipient n) (nt_Type n) (nt_Message n) w)
    as (k & w1 & E1 & E2 & E3 & E4).
  destruct (Hn k (nt_Recipient n) (nt_Type n) (nt_Message n)) as [e He]. rewrite He in E1, E4.
  rewrite (bind_run _ _ _ _ _ E1). cbn beta iota. rewrite <-E2 in Hrow. rewrite <-E3 in Hf.
  unfold after_failure. change (notifRetryMaxAttempts - 1) with 4.
  destruct (Z.eqb_spec (nt_RetryCount n) 4) as [E|E]; (destruct (Z.leb_spec 4 (nt_RetryCount n)); try lia).
  - erewrite bind_run by (by apply exec_run). exists 0, (Error e). cbn. rewrite Hrow. cbn.
    eexists _, _. split; [reflexivity|]. cbn. rewrite E2, E4, E. by split_and!.
  - destruct (now_run w1) as (t & w2 & F1 & F2 & F3). rewrite (bind_run _ _ _ _ _ F1).
    erewrite bind_run by (apply exec_run; by rewrite F3). exists t, (Error e). rewrite F2. cbn. rewrite Hrow. cbn.
    eexists _, _. split; [reflexivity|]. cbn. rewrite backoff_small, E2, E4 by lia.
    split_and!; try reflexivity. by rewrite F3.
Qed.

(** The sweep comes back to the row [k] times, reading it anew each time. *)
Fixpoint retries (s : NotificationSvc) (id : string) (k : nat) : M LifeDB unit :=
  match k with
  | O => mret tt
  | S k' =>
      d ← get_db;
      match lf_notifs d !! id with
      | None => mret tt
      | Some row => _ ← retry_notification s row; retries s id k'
      end
  end.

(** An armed notification whose channel keeps failing climbs the documented ladder: each of
    the first four failed retries keeps it "failed", counts the attempt and arms the next one
    2^count minutes after the failure, and the fifth marks it dead and disarms it; the notifier
    has then been called exactly once per retry. *)
Theorem retry_ladder s notifier id n w k :
  env_faults (w_env w) = [] → ns_notifiers s !! nt_Channel n = Some notifier → failing notifier →
  lf_notifs (w_db w) !! id = Some n → nt_ID n = id → nt_Status n = NotificationStatusFailed →
  0 ≤ nt_RetryCount n → nt_RetryCount n + Z.of_nat k ≤ 5 → (0 < k)%nat →
  let w' := snd (retries s id k w) in
  ∃ n', lf_notifs (w_db w') !! id = Some n' ∧
    length (lf_outbox (w_db w')) = (length (lf_outbox (w_db w)) + k)%nat ∧
    (if nt_RetryCount n + Z.of_nat k =? 5
     then nt_Status n' = NotificationStatusDead ∧ nt_RetryCount n' = 4 ∧ nt_NextRetryAt n' = None
     else nt_Status n' = NotificationStatusFailed ∧ nt_RetryCount n' = nt_RetryCount n + Z.of_nat k ∧
          ∃ t, nt_NextRetryAt n' = Some (t + 2 ^ (nt_RetryCount n + Z.of_nat k - 1) * JobService.minute)).
Proof.
  intros Hf Hc Hn Hrow Hid Hst Hr Hk Hpos. revert n w Hf Hc Hrow Hid Hst Hr Hk.
  induction k as [|k IH]; [lia|]. intros n w Hf Hc Hrow Hid Hst Hr Hk. subst id.
  destruct (retry_step s notifier w n Hf Hc Hn Hrow ltac:(lia)) as (t & msg & del & w1 & E1 & E2 & E3 & E4).
  assert (retries s (nt_ID n) (S k) w = retries s (nt_ID n) k w1) as ->.
  { cbn. erewrite bind_run by reflexivity. rewrite Hrow. by rewrite (bind_run _ _ _ _ _ E1). }
  destruct k as [|k].
  - exists (after_failure t msg n). cbn. rewrite E2, E3, length_app. cbn. split; [by rewrite lookup_insert_eq|].
    split; [lia|]. unfold after_failure. change (Z.of_nat 1) with 1.
    destruct (Z.eqb_spec (nt_RetryCount n) 4), (Z.eqb_spec (nt_RetryCount n + 1) 5); try lia; cbn; [done|].
    split_and!; try done. exists t. by replace (nt_RetryCount n + 1 - 1) with (nt_RetryCount n) by lia.
  - assert (nt_RetryCount n =? 4 = false) as E by lia.
    assert (after_failure t msg n = with_retry (nt_Status n) (nt_RetryCount n + 1)
      (Some (t + 2 ^ nt_RetryCount n * JobService.minute)) (Some msg) n) as Ha by (unfold after_failure; by rewrite E).
    rewrite Ha in E2.
    destruct (IH ltac:(lia) (with_retry (nt_Status n) (nt_RetryCount n + 1)
      (Some (t + 2 ^ nt_RetryCount n * JobService.minute)) (Some msg) n) w1) as (n' & H1 & H2 & H3); try done;
      cbn [with_retry nt_RetryCount nt_ID]; try lia.
    + rewrite E2. by rewrite lookup_insert_eq.
    + exists n'. split; [done|]. split; [rewrite H2, E3, length_app; cbn; lia|]. cbn in H3.
      by replace (nt_RetryCount n + Z.of_nat (S (S k))) with (nt_RetryCount n + 1 + Z.of_nat (S k)) by lia.
Qed.

(** ** Concrete runs *)
Definition demo_row : NotificationEvent :=
  mkNotification "notif-1" NotificationTypeExpirationWarning (Some "mc-1") NotificationChannelWebhook "ops@example.com"
    ("expires soon " +:+ threshold_tag 30) None NotificationStatusFailed None 0 None None 100.
Definition demo_life (l : list NotificationEvent) : LifeDB :=
  mkLifeDB (mkIssuanceDB empty_DB ∅ ∅ ∅ ∅ [] ∅ ∅ [] ∅ ∅ ∅ ∅ ∅ []) (list_to_map ((λ n, (nt_ID n, n)) <$> l)) [].
Definition demo_down : Notifier := λ _ _ _ _, Err (ErrMsg "webhook down").
Definition demo_svc : NotificationSvc := mkNotificationSvc false {[ NotificationChannelWebhook := demo_down ]}.
Definition demo_world (d : LifeDB) : World LifeDB := mkWorld d (mkEnv 1000 [1%N; 2%N; 3%N] [] 0).

Example retry_ladder_witness :
  ∃ n', lf_notifs (w_db (snd (retries demo_svc "notif-1" 5 (demo_world (demo_life [demo_row]))))) !! "notif-1" = Some n' ∧
    nt_Status n' = NotificationStatusDead.
Proof.
  pose proof (retry_ladder demo_svc demo_down "notif-1" demo_row (demo_world (demo_life [demo_row])) 5) as H.
  destruct H as (n' & H1 & _ & H2).
  1,2,4,5,6: by vm_compute.
  - intros k r su b. by eexists.
  - by vm_compute.
  - by vm_compute.
  - lia.
  - exists n'. split; [exact H1|]. change (0 + Z.of_nat 5 =? 5) with true in H2. apply H2.
Defined.

Example alert_search_exact_witness :
  ∃ b, HasThresholdNotificationOnChannel "mc-1" 30 NotificationChannelWebhook (demo_world (demo_life [demo_row]))
         = (Ok b, demo_world (demo_life [demo_row])).
Proof.
  destruct (alert_search_exact "mc-1" NotificationChannelWebhook 30 (demo_world (demo_life [demo_row])))
    as (b & H & _); [done|done|done|by exists b].
Defined.

Example failed_notifications_never_retried_witness :
  let w' := snd (for_each [CallProcessPending; CallRetryFailed] (run_notif_call (λ _, "2026-01-01") demo_svc)
                   (demo_world (demo_life [demo_row]))) in
  w_db (snd (RetryFailedNotifications demo_svc w')) = w_db w'.
Proof.
  intros w'. refine (proj2 (failed_notifications_never_retried (λ _, "2026-01-01") demo_svc
    [CallProcessPending; CallRetryFailed] (demo_world (demo_life [demo_row])) _)).
  apply map_Forall_insert_2; [done|apply map_Forall_empty].
Defined.
