(* ===== verification/Lifecycle.v ===== *)
(** * The certificate life cycle (src/internal/domain/certificate.go, profile.go,
      repository/postgres/certificate.go, target.go, renewal_policy.go, service/renewal.go,
      deployment.go, crypto_validation.go, agent.go)

    [Module Policy] holds the alert policy of domain/certificate.go, [Module CsrCheck] the
    key rules of a profile, [Module RenewalService] the expiry scan and the renewal of a
    certificate in both key-generation modes, [Module DeploymentService] the deployment of
    one, [Module AgentCsr] the CSR an agent submits and the certificate it picks up.

    A loaded certificate comes with its [TargetIDs].  [x509], [rsa] and [pem] are the
    parameter [X509]; an issuer is an [IssuerConnector].  [time.Until(t).Hours() / 24] is the
    exact quotient (within the 31 days of the scan the float conversion to [int] agrees), and
    [AddDate(0, 0, 31)] is 31 days of 24 hours, as in UTC. *)

From Stdlib Require Import ZArith Lia Ascii String.
From stdpp Require Import prelude gmap strings list sorting pretty.
From S2P Require Import Prelude AuditTrail Store Transactions Jobs Approval GoBytes KeyCrypto AcmeWire CertStore Agents Notify.

(** ** domain/certificate.go: the alert policy *)
Module Policy.
Definition AlertSeverityInformational : string := "informational".
Definition AlertSeverityWarning : string := "warning".
Definition AlertSeverityCritical : string := "critical".

Definition DefaultAlertThresholds : list Z := [30; 14; 7; 0].

Definition EffectiveAlertThresholds (p : RenewalPolicy) : list Z :=
  match rp_AlertThresholdsDays p with [] => DefaultAlertThresholds | l => l end.

Definition DefaultAlertChannels : gmap string (list string) :=
  {[ AlertSeverityInformational := [NotificationChannelWebhook];
     AlertSeverityWarning := [NotificationChannelWebhook];
     AlertSeverityCritical := [NotificationChannelWebhook] ]}.

Definition DefaultAlertSeverityMap : gmap Z string :=
  {[ 30 := AlertSeverityInformational; 14 := AlertSeverityWarning; 7 := AlertSeverityWarning;
     0 := AlertSeverityCritical ]}.

Definition EffectiveAlertChannels (p : option RenewalPolicy) : gmap string (list string) :=
  match p with
  | None => DefaultAlertChannels
  | Some p => if bool_decide (rp_AlertChannels p = ∅) then DefaultAlertChannels else rp_AlertChannels p
  end.

Definition EffectiveAlertSeverity (p : option RenewalPolicy) (threshold : Z) : string :=
  match p ≫= (λ p, rp_AlertSeverityMap p !! threshold) with
  | Some tier => tier
  | None => default AlertSeverityInformational (DefaultAlertSeverityMap !! threshold)
  end.

Definition IsValidAlertSeverityTier (tier : string) : bool :=
  bool_decide (tier ∈ [AlertSeverityInformational; AlertSeverityWarning; AlertSeverityCritical]).

(** domain/profile.go *)
Definition IsShortLived (p : CertificateProfile) : bool :=
  pf_AllowShortLived p && (0 <? pf_MaxTTLSeconds p) && (pf_MaxTTLSeconds p <? 3600).
Definition KeyAlgorithmRSA : string := "RSA".
Definition KeyAlgorithmECDSA : string := "ECDSA".
Definition KeyAlgorithmEd25519 : string := "Ed25519".
End Policy.

(** ** Keys and requests *)
Inductive PublicKey :=
| RSAPublicKey (bitLen : Z)
| ECDSAPublicKey (bitSize : Z)
| Ed25519PublicKey
| OtherPublicKey (type : string).

Record CertificateRequest := mkCSR { csr_CheckSignature : res unit; csr_PublicKey : PublicKey }.

Class X509 := mkX509 {
  pem_Decode : string → option string;                     (* the bytes of the first block *)
  pem_EncodeToMemory : string → string → string;           (* type, bytes *)
  ParseCertificateRequest : string → res CertificateRequest;
  rsa_GenerateKey : N → res string;                        (* the PKCS #1 form of the key *)
  CreateCertificateRequest : N → string → list string → list string → string → res string
}.

(** ** service/crypto_validation.go *)
Module CsrCheck.
Import Policy.
Section check.
Context `{X : X509}.

Record CSRValidationResult := mkCSRResult { kv_KeyAlgorithm : string; kv_KeySize : Z }.

Definition extractCSRKeyInfo (csrPEM : string) : res CSRValidationResult :=
  match pem_Decode csrPEM with
  | None => Err (ErrMsg "failed to decode CSR PEM")
  | Some bytes =>
      match ParseCertificateRequest bytes with
      | Err e => Err (ErrWrap "failed to parse CSR" e)
      | Ok csr =>
          match csr_CheckSignature csr with
          | Err e => Err (ErrWrap "CSR signature verification failed" e)
          | Ok _ =>
              match csr_PublicKey csr with
              | RSAPublicKey n => Ok (mkCSRResult KeyAlgorithmRSA n)
              | ECDSAPublicKey n => Ok (mkCSRResult KeyAlgorithmECDSA n)
              | Ed25519PublicKey => Ok (mkCSRResult KeyAlgorithmEd25519 256)
              | OtherPublicKey t => Err (ErrMsg ("unsupported key type in CSR: " +:+ t))
              end
          end
      end
  end.

Definition rule_allows (r : CSRValidationResult) (rule : string * Z) : bool :=
  bool_decide (rule.1 = kv_KeyAlgorithm r) && (rule.2 <=? kv_KeySize r).

(** The message ends in the rules' Go syntax, which is left out. *)
Definition ValidateCSRAgainstProfile (csrPEM : string) (profile : option CertificateProfile)
    : res CSRValidationResult :=
  match profile with
  | None => extractCSRKeyInfo csrPEM
  | Some p =>
      match extractCSRKeyInfo csrPEM with
      | Err e => Err e
      | Ok r =>
          if bool_decide (pf_AllowedKeyAlgorithms p = []) || existsb (rule_allows r) (pf_AllowedKeyAlgorithms p)
          then Ok r
          else Err (ErrMsg ("CSR key (" +:+ kv_KeyAlgorithm r +:+ " " +:+ pretty (kv_KeySize r) +:+
                            "-bit) does not match any allowed algorithm in profile " +:+ pf_Name p))
      end
  end.
End check.
End CsrCheck.

(** ** Repositories *)
Module LifeRepo.
(** [ORDER BY target_id ASC], in byte order. *)
Definition str_le (a b : string) : Prop := String.leb a b = true.
#[global] Instance str_le_dec : RelDecision str_le.
Proof. intros a b. unfold str_le. apply _. Defined.

Definition target_ids (certID : string) (d : IssuanceDB) : list string :=
  merge_sort str_le (filter (λ m : string * string, m.1 = certID) (db_mappings (is_store d))).*2.

Definition getTargetIDs (certID : string) : M LifeDB (res (list string)) :=
  sql_query "failed to query target mappings" (λ d, target_ids certID (lf_iss d)).

(** [Get]: the row, then its target ids. *)
Definition CertGet (id : string) : M LifeDB (res (ManagedCertificate * list string)) :=
  r ← on_db (CertificateRepository_Get id);
  match r with
  | Err e => mret (Err e)
  | Ok c =>
      t ← getTargetIDs (cert_ID c);
      mret match t with Err e => Err e | Ok ids => Ok (c, ids) end
  end.

Definition GetExpiringCertificates (before : Z) : M LifeDB (res (list (ManagedCertificate * list string))) :=
  r ← sql_query "failed to query expiring certificates" (λ d,
        merge_sort (asc cert_ExpiresAt)
          (filter (λ c, bool_decide (cert_ExpiresAt c < before) &&
                        negb (bool_decide (cert_Status c = CertificateStatusArchived)) = true)
             (rows (is_certs (lf_iss d)))));
  match r with
  | Err e => mret (Err e)
  | Ok [] => mret (Ok [])
  | Ok certs =>
      t ← sql_query "failed to query target mappings" (λ d, (λ c, (c, target_ids (cert_ID c) (lf_iss d))) <$> certs);
      mret t
  end.

Definition CertUpdate (c : ManagedCertificate) : M LifeDB (res unit) := on_iss (CertRepo.Update c).

(** The callers give the version an id. *)
Definition CreateVersion (v : CertificateVersion) : M LifeDB (res unit) :=
  on_iss (sql_exec "failed to create certificate version" (λ d,
    if CertRepo.version_insert_ok d v then (Ok tt, set_versions (<[cv_ID v := v]>) d)
    else (Err (ErrWrap "failed to create certificate version" (ErrMsg "constraint violation")), d))).

Definition ListVersions (certID : string) : M LifeDB (res (list CertificateVersion)) :=
  sql_query "failed to query certificate versions" (λ d,
    merge_sort (desc cv_CreatedAt) (filter (λ v, cv_CertificateID v = certID) (rows (is_versions (lf_iss d))))).

(** renewal_policy.go; a stored policy is what [scanRenewalPolicy] makes of its row. *)
Definition PolicyGet (id : string) : M LifeDB (res RenewalPolicy) :=
  r ← sql_query "failed to query renewal policy" (λ d, is_policies (lf_iss d) !! id);
  mret match r with
       | Err e => Err e
       | Ok None => Err (ErrWrap "renewal policy not found" repo_ErrNotFound)
       | Ok (Some p) => Ok p
       end.

(** target.go; the SELECT lists have no retired_at. *)
Definition scanTarget (t : DeploymentTarget) : DeploymentTarget :=
  mkTarget (target_ID t) (target_Name t) (target_AgentID t) None None (target_CreatedAt t).

Definition TargetGet (id : string) : M LifeDB (res DeploymentTarget) :=
  r ← sql_query "failed to query target" (λ d, db_targets (is_store (lf_iss d)) !! id);
  mret match r with
       | Err e => Err e
       | Ok None => Err (ErrWrap "target not found" repo_ErrNotFound)
       | Ok (Some t) => Ok (scanTarget t)
       end.

Definition mapped_targets (certID : string) (d : DB) : list DeploymentTarget :=
  merge_sort (desc target_CreatedAt)
    (omap (λ m : string * string, if bool_decide (m.1 = certID) then db_targets d !! m.2 else None) (db_mappings d)).

Definition TargetListByCertificate (certID : string) : M LifeDB (res (list DeploymentTarget)) :=
  sql_query "failed to query targets for certificate" (λ d,
    scanTarget <$> mapped_targets certID (is_store (lf_iss d))).
End LifeRepo.

(** ** service/renewal.go *)
Module RenewalService.
Import Policy CsrCheck LifeRepo JobRepo NotificationService.

Definition day : Z := 24 * 60 * JobService.minute.

(** [time.Duration] saturates. *)
Definition sat64 (z : Z) : Z := Z.max (- 2 ^ 63) (Z.min (2 ^ 63 - 1) z).

Record RenewalSvc := mkRenewalSvc {
  rn_profileRepo : bool;
  rn_targetRepo : bool;
  rn_tx : bool;
  rn_keygenMode : string;
  rn_registry : IssuerRegistry;
  rn_notif : NotificationSvc
}.

Definition NewRenewalService (profileRepo : bool) (notif : NotificationSvc) (registry : IssuerRegistry)
    (keygenMode : string) : RenewalSvc :=
  mkRenewalSvc profileRepo false false (if bool_decide (keygenMode = "") then "agent" else keygenMode) registry notif.

(** A certificate after issuance. *)
Definition renewed (notAfter now : Z) (c : ManagedCertificate) : ManagedCertificate :=
  mkCert (cert_ID c) (cert_Name c) (cert_CommonName c) (cert_SANs c) (cert_OwnerID c) (cert_TeamID c)
    (cert_IssuerID c) (cert_RenewalPolicyID c) (cert_CertificateProfileID c) CertificateStatusActive notAfter
    (cert_Source c) (Some now) (cert_RevokedAt c) (cert_RevocationReason c) (cert_CreatedAt c).

Definition computeCertFingerprint `{X509} (certPEM : string) : string :=
  match pem_Decode certPEM with
  | None => ""
  | Some bytes => hex_EncodeToString (Sum256 bytes)
  end.

Definition version_of `{X509} (id certID csrPEM keyAlgorithm : string) (keySize : Z) (r : IssuanceResult) (t : Z)
    : CertificateVersion :=
  mkVersion id certID (ir_Serial r) (ir_NotBefore r) (ir_NotAfter r) (computeCertFingerprint (ir_CertPEM r))
    (ir_CertPEM r +:+ newline +:+ ir_ChainPEM r) csrPEM keyAlgorithm keySize t.

Section service.
Context `{X : X509}.
Variable ToLower : string → string.
(** [Time.Format("2006-01-02")] and [Time.MarshalJSON]. *)
Variable formatDate jsonTime : Z → string.
Variable uuid_New : N → string.
Variable s : RenewalSvc.

(** An audit event of the scheduler; a failure is logged. *)
Definition record (action certID : string) (det : details) : M LifeDB unit :=
  _ ← RecordEvent ToLower "system" ActorTypeSystem action "certificate" certID det; mret tt.

(** *** Alerts *)
Definition alert_on (cert : ManagedCertificate) (daysUntil threshold : Z) (tier ch : string) : M LifeDB unit :=
  let facts := [("threshold_days", GInt threshold); ("days_until_expiry", GInt daysUntil); ("severity_tier", GStr tier)] in
  if negb (IsValidNotificationChannel ch)
  then record "expiration_alert_skipped_invalid_channel" (cert_ID cert) (facts ++ [("invalid_channel", GStr ch)]) else
  alreadySent ← HasThresholdNotificationOnChannel (cert_ID cert) threshold ch;
  match alreadySent with
  | Err _ | Ok true => mret tt
  | Ok false =>
      _ ← SendThresholdAlertOnChannel formatDate (rn_notif s) cert daysUntil threshold ch;
      record "expiration_alert_sent" (cert_ID cert) (facts ++ [("channel", GStr ch)])
  end.

Definition tier_of (policy : option RenewalPolicy) (threshold : Z) : string :=
  let tier := EffectiveAlertSeverity policy threshold in
  if IsValidAlertSeverityTier tier then tier else AlertSeverityInformational.

Definition alert_threshold (cert : ManagedCertificate) (daysUntil : Z) (policy : option RenewalPolicy) (threshold : Z)
    : M LifeDB unit :=
  if threshold <? daysUntil then mret tt else
  let tier := tier_of policy threshold in
  match default [] (EffectiveAlertChannels policy !! tier) with
  | [] => record "expiration_alert_skipped_no_channels" (cert_ID cert)
            [("threshold_days", GInt threshold); ("days_until_expiry", GInt daysUntil); ("severity_tier", GStr tier)]
  | channels => for_each channels (alert_on cert daysUntil threshold tier)
  end.

Definition sendThresholdAlerts (cert : ManagedCertificate) (daysUntil : Z) (thresholds : list Z)
    (policy : option RenewalPolicy) : M LifeDB unit :=
  for_each thresholds (alert_threshold cert daysUntil policy).

(** The certificate in memory takes the new status even if the UPDATE fails. *)
Definition updateCertExpiryStatus (cert : ManagedCertificate) (until : Z) : M LifeDB ManagedCertificate :=
  let newStatus := if until <=? 0 then CertificateStatusExpired else CertificateStatusExpiring in
  if bool_decide (cert_Status cert = newStatus) then mret cert else
  if bool_decide (cert_Status cert ∈ [CertificateStatusRenewalInProgress; CertificateStatusArchived;
                                      CertificateStatusRevoked]) then mret cert else
  let cert := cert_with_status newStatus cert in
  _ ← CertUpdate cert;
  mret cert.

(** *** The scan *)
Definition skipped (status : string) : bool :=
  bool_decide (status ∈ [CertificateStatusRenewalInProgress; CertificateStatusArchived; CertificateStatusRevoked;
                         CertificateStatusFailed; CertificateStatusExpired]).

Definition policyCache : Type := gmap string RenewalPolicy.

(** The policy of the certificate, if any, and the cache. *)
Definition lookup_policy (cache : policyCache) (id : string) : M LifeDB (option RenewalPolicy * policyCache) :=
  if bool_decide (id = "") then mret (None, cache) else
  match cache !! id with
  | Some p => mret (Some p, cache)
  | None =>
      r ← PolicyGet id;
      mret match r with Err _ => (None, cache) | Ok p => (Some p, <[id := p]> cache) end
  end.

(** The CA's advice: [None] to wait, else whether it gave any. *)
Definition ari_check (connector : IssuerConnector) (certID : string) : M LifeDB (option bool) :=
  v ← on_iss (CertRepo.GetLatestVersion certID);
  match v with
  | Err _ => mret (Some false)
  | Ok version =>
      if bool_decide (cv_PEMChain version = "") then mret (Some false) else
      r ← call (λ k, ic_GetRenewalInfo connector k (cv_PEMChain version));
      match r with
      | Err _ | Ok None => mret (Some false)
      | Ok (Some (suggestedStart, _)) =>
          t ← now;
          mret (if t <? suggestedStart then None else Some true)
      end
  end.

Definition active_renewal (j : Job) : bool :=
  bool_decide (job_Type j = JobTypeRenewal) &&
  (bool_decide (job_Status j = JobStatusPending) || bool_decide (job_Status j = JobStatusRunning)).

Definition create_renewal_job (cert : ManagedCertificate) (until : Z) (ariChecked : bool) : M LifeDB unit :=
  id ← generateID "job";
  t1 ← now;
  t2 ← now;
  c ← on_db (JobRepository_Create (mkJob id JobTypeRenewal (cert_ID cert) None None JobStatusPending 0 3 None t1
        None None t2 "" None None None));
  match c with
  | Err _ => mret tt
  | Ok _ =>
      _ ← CertUpdate (cert_with_status CertificateStatusRenewalInProgress cert);
      record "renewal_job_created" (cert_ID cert)
        ([("days_until_expiry", GFloat until day); ("job_id", GStr id)] ++
         (if ariChecked then [("renewal_trigger", GStr "ari")] else []))
  end.

Definition renew_if_due (cert : ManagedCertificate) (until : Z) : M LifeDB unit :=
  match Registry_Get (rn_registry s) (cert_IssuerID cert) with
  | None => mret tt
  | Some connector =>
      a ← ari_check connector (cert_ID cert);
      match a with
      | None => mret tt
      | Some ariChecked =>
          existing ← on_db (JobRepository_ListByCertificate (cert_ID cert));
          if match existing with Ok jobs => existsb active_renewal jobs | Err _ => false end then mret tt
          else create_renewal_job cert until ariChecked
      end
  end.

Definition scan_cert (cache : policyCache) (cert : ManagedCertificate) : M LifeDB policyCache :=
  if skipped (cert_Status cert) then mret cache else
  t ← now;
  let until := sat64 (cert_ExpiresAt cert - t) in
  '(policy, cache) ← lookup_policy cache (cert_RenewalPolicyID cert);
  let thresholds := match policy with Some p => EffectiveAlertThresholds p | None => DefaultAlertThresholds end in
  cert ← updateCertExpiryStatus cert until;
  _ ← sendThresholdAlerts cert (Z.quot until day) thresholds policy;
  _ ← renew_if_due cert until;
  mret cache.

Fixpoint scan_all (cache : policyCache) (certs : list (ManagedCertificate * list string)) : M LifeDB unit :=
  match certs with
  | [] => mret tt
  | c :: certs' => cache ← scan_cert cache c.1; scan_all cache certs'
  end.

Definition CheckExpiringCertificates : M LifeDB (res unit) :=
  t ← now;
  r ← GetExpiringCertificates (t + 31 * day);
  match r with
  | Err e => mret (Err (ErrWrap "failed to fetch expiring certificates" e))
  | Ok expiring => _ ← scan_all ∅ expiring; mret (Ok tt)
  end.

(** *** Renewal *)
Definition failJob (job : Job) (errMsg : string) : M LifeDB unit :=
  _ ← on_db (JobRepository_UpdateStatus (job_ID job) JobStatusFailed errMsg); mret tt.

(** The target and, if known, its agent. *)
Definition resolve_target (tid : string) : M LifeDB (string * string) :=
  if rn_targetRepo s then
    r ← TargetGet tid;
    mret (tid, match r with Ok t => target_AgentID t | Err _ => "" end)
  else mret (tid, "").

Fixpoint resolve_targets (tids : list string) : M LifeDB (list (string * string)) :=
  match tids with
  | [] => mret []
  | tid :: tids' => t ← resolve_target tid; l ← resolve_targets tids'; mret (t :: l)
  end.

Definition opt_string (x : string) : option string := if bool_decide (x = "") then None else Some x.

Definition create_deployment_job (certID : string) (maxAttempts : Z) (t : string * string) : M LifeDB unit :=
  id ← generateID "job";
  t1 ← now;
  t2 ← now;
  _ ← on_db (JobRepository_Create (mkJob id JobTypeDeployment certID (Some t.1) (opt_string t.2) JobStatusPending 0
        maxAttempts None t1 None None t2 "" None None None));
  mret tt.

Definition createDeploymentJobs (cert : ManagedCertificate) (targetIDs : list string) : M LifeDB unit :=
  match targetIDs with
  | _ :: _ =>
      targets ← resolve_targets targetIDs;
      for_each targets (create_deployment_job (cert_ID cert) 3)
  | [] =>
      if rn_targetRepo s then
        r ← TargetListByCertificate (cert_ID cert);
        match r with
        | Err _ => mret tt
        | Ok l => for_each ((λ t, (target_ID t, target_AgentID t)) <$> l) (create_deployment_job (cert_ID cert) 3)
        end
      else mret tt
  end.

Definition processRenewalAgentKeygen (job : Job) (cert : ManagedCertificate) : M LifeDB (res unit) :=
  u ← on_db (JobRepository_UpdateStatus (job_ID job) JobStatusAwaitingCSR "");
  match u with
  | Err e => mret (Err (ErrWrap "failed to set job to AwaitingCSR" e))
  | Ok _ =>
      _ ← CertUpdate (cert_with_status CertificateStatusRenewalInProgress cert);
      _ ← record "renewal_awaiting_csr" (job_CertificateID job)
            [("job_id", GStr (job_ID job)); ("keygen_mode", GStr "agent")];
      mret (Ok tt)
  end.

(** The profile of a certificate; a failed lookup counts as none. *)
Definition profile_of (cert : ManagedCertificate) : M LifeDB (option CertificateProfile) :=
  if negb (bool_decide (cert_CertificateProfileID cert = "")) && rn_profileRepo s then
    r ← on_db (ProfileRepo.ProfileRepository_Get (cert_CertificateProfileID cert));
    mret match r with Ok p => Some p | Err _ => None end
  else mret None.

Definition RenewCertificate (connector : IssuerConnector) (cert : ManagedCertificate) (csrPEM : string)
    (profile : option CertificateProfile) : M LifeDB (res IssuanceResult) :=
  call (λ k, ic_RenewCertificate connector k (cert_CommonName cert) (cert_SANs cert) csrPEM
    (default [] (pf_AllowedEKUs <$> profile)) (default 0 (pf_MaxTTLSeconds <$> profile))
    (default false (pf_MustStaple <$> profile))).

(** The issuer refused: the job fails, the owner is told. *)
Definition renewal_refused (ctx : string) (job : Job) (cert : ManagedCertificate) (e : error) : M LifeDB (res unit) :=
  _ ← failJob job (ctx +:+ ": " +:+ Error e);
  _ ← SendRenewalNotification formatDate (rn_notif s) cert (Some e);
  _ ← record "renewal_job_failed" (job_CertificateID job) [("job_id", GStr (job_ID job)); ("error", GStr (Error e))];
  mret (Err (ErrWrap ctx e)).

Definition completed_details (job : Job) (r : IssuanceResult) (mode : string) : details :=
  [("job_id", GStr (job_ID job)); ("serial", GStr (ir_Serial r)); ("not_after", GStr (jsonTime (ir_NotAfter r)));
   ("keygen_mode", GStr mode)].

(** Version, certificate and audit row: in one transaction when a transactor is wired. *)
Definition store_renewal (job : Job) (cert : ManagedCertificate) (version : CertificateVersion) (r : IssuanceResult)
    : M LifeDB (res unit) :=
  if rn_tx s then
    w ← on_iss (WithinTx (
          v ← CertRepo.CreateVersionWithTx uuid_New version;
          match v with
          | Err e => mret (Err (ErrWrap "failed to create certificate version" e))
          | Ok _ =>
              u ← CertRepo.UpdateWithTx cert;
              match u with
              | Err e => mret (Err (ErrWrap "failed to update certificate" e))
              | Ok _ =>
                  a ← RecordEvent ToLower "system" ActorTypeSystem "renewal_job_completed" "certificate"
                        (job_CertificateID job) (completed_details job r "server");
                  mret match a with Err e => Err (ErrWrap "failed to record audit event" e) | Ok _ => Ok tt end
              end
          end));
    match w with
    | Err e => _ ← failJob job (Error e); mret (Err e)
    | Ok _ => mret (Ok tt)
    end
  else
    v ← CreateVersion version;
    match v with
    | Err e =>
        _ ← failJob job ("version creation failed: " +:+ Error e);
        mret (Err (ErrWrap "failed to create certificate version" e))
    | Ok _ =>
        u ← CertUpdate cert;
        match u with
        | Err e =>
            _ ← failJob job ("cert update failed: " +:+ Error e);
            mret (Err (ErrWrap "failed to update certificate" e))
        | Ok _ =>
            _ ← record "renewal_job_completed" (job_CertificateID job) (completed_details job r "server");
            mret (Ok tt)
        end
    end.

(** The end of both modes: the job, the deployments, the owner. *)
Definition finish_renewal (job : Job) (cert : ManagedCertificate) (targetIDs : list string) : M LifeDB (res unit) :=
  u ← on_db (JobRepository_UpdateStatus (job_ID job) JobStatusCompleted "");
  match u with
  | Err e => mret (Err (ErrWrap "failed to update job status" e))
  | Ok _ =>
      _ ← createDeploymentJobs cert targetIDs;
      _ ← SendRenewalNotification formatDate (rn_notif s) cert None;
      mret (Ok tt)
  end.

Definition is_email (san : string) : bool := Text.Contains san "@".

Definition processRenewalServerKeygen (job : Job) (cert : ManagedCertificate) (targetIDs : list string)
    (connector : IssuerConnector) : M LifeDB (res unit) :=
  k ← fresh;
  match rsa_GenerateKey k with
  | Err e =>
      _ ← failJob job ("key generation failed: " +:+ Error e);
      mret (Err (ErrWrap "failed to generate private key" e))
  | Ok privKey =>
      k ← fresh;
      match CreateCertificateRequest k (cert_CommonName cert) (filter (λ x, is_email x = false) (cert_SANs cert))
              (filter (λ x, is_email x = true) (cert_SANs cert)) privKey with
      | Err e =>
          _ ← failJob job ("CSR generation failed: " +:+ Error e);
          mret (Err (ErrWrap "failed to generate CSR" e))
      | Ok csrDER =>
          let csrPEM := pem_EncodeToMemory "CERTIFICATE REQUEST" csrDER in
          let privKeyPEM := pem_EncodeToMemory "RSA PRIVATE KEY" privKey in
          profile ← profile_of cert;
          r ← RenewCertificate connector cert csrPEM profile;
          match r with
          | Err e => renewal_refused "issuer renewal failed" job cert e
          | Ok result =>
              vid ← generateID "certver";
              t1 ← now;
              let version := version_of vid (job_CertificateID job) privKeyPEM KeyAlgorithmRSA 2048 result t1 in
              t2 ← now;
              let cert := renewed (ir_NotAfter result) t2 cert in
              st ← store_renewal job cert version result;
              match st with
              | Err e => mret (Err e)
              | Ok _ => finish_renewal job cert targetIDs
              end
          end
      end
  end.

Definition ProcessRenewalJob (job : Job) : M LifeDB (res unit) :=
  u ← on_db (JobRepository_UpdateStatus (job_ID job) JobStatusRunning "");
  match u with
  | Err e => mret (Err (ErrWrap "failed to update job status" e))
  | Ok _ =>
      c ← CertGet (job_CertificateID job);
      match c with
      | Err e =>
          _ ← failJob job ("certificate fetch failed: " +:+ Error e);
          mret (Err (ErrWrap "failed to fetch certificate" e))
      | Ok (cert, targetIDs) =>
          if bool_decide (cert_IssuerID cert = "")
          then
            _ ← failJob job "certificate has no issuer assigned";
            mret (Err (ErrMsg "certificate has no issuer assigned"))
          else
            match Registry_Get (rn_registry s) (cert_IssuerID cert) with
            | None =>
                let msg := "issuer connector not found for " +:+ cert_IssuerID cert in
                _ ← failJob job msg; mret (Err (ErrMsg msg))
            | Some connector =>
                if bool_decide (rn_keygenMode s = "agent") then processRenewalAgentKeygen job cert
                else processRenewalServerKeygen job cert targetIDs connector
            end
      end
  end.

Definition CompleteAgentCSRRenewal (job : Job) (cert : ManagedCertificate) (targetIDs : list string) (csrPEM : string)
    : M LifeDB (res unit) :=
  match Registry_Get (rn_registry s) (cert_IssuerID cert) with
  | None =>
      let msg := "issuer connector not found for " +:+ cert_IssuerID cert in
      _ ← failJob job msg; mret (Err (ErrMsg msg))
  | Some connector =>
      profile ← profile_of cert;
      match ValidateCSRAgainstProfile csrPEM profile with
      | Err e =>
          _ ← failJob job ("CSR validation failed: " +:+ Error e);
          mret (Err (ErrWrap "CSR validation failed" e))
      | Ok csrInfo =>
          u ← on_db (JobRepository_UpdateStatus (job_ID job) JobStatusRunning "");
          match u with
          | Err e => mret (Err (ErrWrap "failed to update job status" e))
          | Ok _ =>
              r ← RenewCertificate connector cert csrPEM profile;
              match r with
              | Err e => renewal_refused "issuer signing failed" job cert e
              | Ok result =>
                  vid ← generateID "certver";
                  t1 ← now;
                  v ← CreateVersion (version_of vid (cert_ID cert) csrPEM (kv_KeyAlgorithm csrInfo) (kv_KeySize csrInfo)
                        result t1);
                  match v with
                  | Err e =>
                      _ ← failJob job ("version creation failed: " +:+ Error e);
                      mret (Err (ErrWrap "failed to create certificate version" e))
                  | Ok _ =>
                      t2 ← now;
                      let cert := renewed (ir_NotAfter result) t2 cert in
                      w ← CertUpdate cert;
                      match w with
                      | Err e =>
                          _ ← failJob job ("cert update failed: " +:+ Error e);
                          mret (Err (ErrWrap "failed to update certificate" e))
                      | Ok _ =>
                          f ← finish_renewal job cert targetIDs;
                          match f with
                          | Err e => mret (Err e)
                          | Ok _ =>
                              _ ← record "renewal_job_completed" (cert_ID cert) (completed_details job result "agent");
                              mret (Ok tt)
                          end
                      end
                  end
              end
          end
      end
  end.

Definition GetAwaitingCSRJobs (certID : string) : M LifeDB (res (list Job)) :=
  r ← on_db (JobRepository_ListByCertificate certID);
  mret match r with Err e => Err e | Ok jobs => Ok (filter (λ j, job_Status j = JobStatusAwaitingCSR) jobs) end.

(** The parameter [maxRetries] is not used. *)
Definition retry_failed_job (job : Job) : M LifeDB unit :=
  if negb (bool_decide (job_Type job = JobTypeRenewal)) || (job_MaxAttempts job <=? job_Attempts job) then mret tt
  else _ ← on_db (JobRepository_UpdateStatus (job_ID job) JobStatusPending ""); mret tt.

Definition RetryFailedJobs : M LifeDB (res unit) :=
  r ← on_db (JobRepository_ListByStatus JobStatusFailed);
  match r with
  | Err e => mret (Err (ErrWrap "failed to fetch failed jobs" e))
  | Ok jobs => _ ← for_each jobs retry_failed_job; mret (Ok tt)
  end.

(** *** Short-lived certificates *)
Definition expire_short_lived (now : Z) (cert : ManagedCertificate) : M LifeDB unit :=
  if negb (bool_decide (cert_Status cert ∈ [CertificateStatusActive; CertificateStatusExpiring])) ||
     (now <? cert_ExpiresAt cert) || bool_decide (cert_CertificateProfileID cert = "") then mret tt else
  p ← on_db (ProfileRepo.ProfileRepository_Get (cert_CertificateProfileID cert));
  match p with
  | Err _ => mret tt
  | Ok profile =>
      if negb (IsShortLived profile) then mret tt else
      u ← CertUpdate (cert_with_status CertificateStatusExpired cert);
      match u with
      | Err _ => mret tt
      | Ok _ => record "short_lived_cert_expired" (cert_ID cert)
                  [("profile_id", GStr (cert_CertificateProfileID cert));
                   ("expired_at", GStr (jsonTime (cert_ExpiresAt cert)))]
      end
  end.

Definition ExpireShortLivedCertificates : M LifeDB (res unit) :=
  if negb (rn_profileRepo s) then mret (Ok tt) else
  t ← now;
  r ← GetExpiringCertificates t;
  match r with
  | Err e => mret (Err (ErrWrap "failed to fetch expired certificates" e))
  | Ok expiring => _ ← for_each expiring.*1 (expire_short_lived t); mret (Ok tt)
  end.
End service.
End RenewalService.

(** ** service/deployment.go *)
Module DeploymentService.
Import LifeRepo JobRepo NotificationService.

Section service.
Variable ToLower : string → string.
Variable s : NotificationSvc.

Definition record (action certID : string) (det : details) : M LifeDB unit :=
  _ ← RecordEvent ToLower "system" ActorTypeSystem action "certificate" certID det; mret tt.

(** The ids of the jobs that could be created. *)
Fixpoint create_jobs (certID : string) (targets : list DeploymentTarget) : M LifeDB (list string) :=
  match targets with
  | [] => mret []
  | t :: targets' =>
      id ← generateID "job";
      t1 ← now;
      t2 ← now;
      c ← on_db (JobRepository_Create (mkJob id JobTypeDeployment certID (RenewalService.opt_string (target_ID t))
            (RenewalService.opt_string (target_AgentID t)) JobStatusPending 0 0 None t1 None None t2 "" None None None));
      l ← create_jobs certID targets';
      mret match c with Err _ => l | Ok _ => id :: l end
  end.

Definition CreateDeploymentJobs (certID : string) : M LifeDB (res (list string)) :=
  r ← TargetListByCertificate certID;
  match r with
  | Err e => mret (Err (ErrWrap "failed to list targets" e))
  | Ok [] => mret (Err (ErrMsg ("no targets found for certificate " +:+ certID)))
  | Ok targets =>
      jobIDs ← create_jobs certID targets;
      match jobIDs with
      | [] => mret (Err (ErrMsg "failed to create any deployment jobs"))
      | _ =>
          _ ← record "deployment_jobs_created" certID
                [("target_count", GInt (Z.of_nat (length targets))); ("job_count", GInt (Z.of_nat (length jobIDs)))];
          mret (Ok jobIDs)
      end
  end.

Definition fail (job : Job) (msg : string) : M LifeDB unit :=
  _ ← on_db (JobRepository_UpdateStatus (job_ID job) JobStatusFailed msg); mret tt.

(** The agent cannot take the job: fail it, tell the owner, leave a trace. *)
Definition refuse (job : Job) (cert : ManagedCertificate) (target : DeploymentTarget) (msg reason : string)
    (det : details) (e : error) : M LifeDB (res unit) :=
  _ ← fail job msg;
  _ ← SendDeploymentNotification s cert target (Some (ErrMsg reason));
  _ ← record "deployment_job_failed" (job_CertificateID job)
        ([("job_id", GStr (job_ID job)); ("reason", GStr reason)] ++ det);
  mret (Err e).

Definition ProcessDeploymentJob (job : Job) : M LifeDB (res unit) :=
  u ← on_db (JobRepository_UpdateStatus (job_ID job) JobStatusRunning "");
  match u with
  | Err e => mret (Err (ErrWrap "failed to update job status" e))
  | Ok _ =>
  c ← CertGet (job_CertificateID job);
  match c with
  | Err e => _ ← fail job ("certificate fetch failed: " +:+ Error e); mret (Err (ErrWrap "failed to fetch certificate" e))
  | Ok (cert, _) =>
  let targetID := default "" (job_TargetID job) in
  if bool_decide (targetID = "")
  then _ ← fail job "target_id not found in job"; mret (Err (ErrMsg "target_id not found in job")) else
  t ← TargetGet targetID;
  match t with
  | Err e => _ ← fail job ("target fetch failed: " +:+ Error e); mret (Err (ErrWrap "failed to fetch target" e))
  | Ok target =>
  let agentID := target_AgentID target in
  a ← on_db (AgentRepository_Get agentID);
  match a with
  | Err e => _ ← fail job ("agent fetch failed: " +:+ Error e); mret (Err (ErrWrap "failed to fetch agent" e))
  | Ok agent =>
  if IsRetired agent
  then refuse job cert target "assigned agent is retired" "agent retired"
         [("target_id", GStr targetID); ("agent_id", GStr agentID)] (ErrMsg ("agent " +:+ agentID +:+ " is retired"))
  else
    now_ ← (match agent_LastHeartbeatAt agent with Some _ => t ← now; mret (Some t) | None => mret None end);
    if match agent_LastHeartbeatAt agent, now_ with
       | Some hb, Some t => 5 * JobService.minute <? RenewalService.sat64 (t - hb)
       | _, _ => false
       end
    then refuse job cert target "agent is offline" "agent offline" [("target_id", GStr targetID)]
           (ErrMsg ("agent " +:+ agentID +:+ " is offline"))
    else
      _ ← record "deployment_job_dispatched" (job_CertificateID job)
            [("job_id", GStr (job_ID job)); ("target_id", GStr targetID); ("agent_id", GStr agentID)];
      mret (Ok tt)
  end end end end.

(** The first deployment job of the target in the listing, newest first, decides. *)
Definition ValidateDeployment (certID targetID : string) : M LifeDB (res bool) :=
  r ← on_db (JobRepository_ListByCertificate certID);
  mret match r with
       | Err e => Err (ErrWrap "failed to list jobs" e)
       | Ok jobs =>
           match head (filter (λ j, job_Type j = JobTypeDeployment ∧ job_TargetID j = Some targetID) jobs) with
           | None => Err (ErrMsg ("no deployment job found for target " +:+ targetID))
           | Some job =>
               if bool_decide (job_Status job = JobStatusCompleted) then Ok true
               else if bool_decide (job_Status job = JobStatusFailed)
               then Err (ErrMsg match job_LastError job with
                                | Some e => "deployment failed: " +:+ e
                                | None => "deployment failed"
                                end)
               else Err (ErrMsg "deployment in progress")
           end
       end.

(** [MarkDeploymentComplete] and [MarkDeploymentFailed] differ in the status, the notification
    and the audit event. *)
Definition mark (jobID status errMsg action : string) (cause : option error) (extra : details) : M LifeDB (res unit) :=
  j ← on_db (JobRepository_Get jobID);
  match j with
  | Err e => mret (Err (ErrWrap "failed to fetch job" e))
  | Ok job =>
  u ← on_db (JobRepository_UpdateStatus jobID status errMsg);
  match u with
  | Err e => mret (Err (ErrWrap "failed to update job status" e))
  | Ok _ =>
  c ← CertGet (job_CertificateID job);
  match c with
  | Err _ => mret (Ok tt)
  | Ok (cert, _) =>
  let targetID := default "" (job_TargetID job) in
  let finish := _ ← record action (job_CertificateID job)
                      ([("job_id", GStr jobID); ("target_id", GStr targetID)] ++ extra); mret (Ok tt) in
  if bool_decide (targetID = "") then finish else
  t ← TargetGet targetID;
  match t with
  | Err _ => mret (Ok tt)
  | Ok target => _ ← SendDeploymentNotification s cert target cause; finish
  end
  end end end.

Definition MarkDeploymentComplete (jobID : string) : M LifeDB (res unit) :=
  mark jobID JobStatusCompleted "" "deployment_job_completed" None [].
Definition MarkDeploymentFailed (jobID errMsg : string) : M LifeDB (res unit) :=
  mark jobID JobStatusFailed errMsg "deployment_job_failed" (Some (ErrMsg errMsg)) [("error", GStr errMsg)].
End service.
End DeploymentService.

(** ** service/agent.go: the CSR of an agent, and its pick-up *)
Module AgentCsr.
Import CsrCheck LifeRepo RenewalService.

Section service.
Context `{X : X509}.
Variable ToLower : string → string.
Variable formatDate jsonTime : Z → string.
(** The renewal service, when wired; the profile repository and the registry of the agent
    service itself. *)
Variable renewalService : option RenewalSvc.
Variable profileRepo : bool.
Variable registry : IssuerRegistry.

Definition record_csr (agent : Agent) (certID : string) (extra : details) : M LifeDB unit :=
  _ ← RecordEvent ToLower (agent_ID agent) ActorTypeAgent "csr_submitted" "certificate" certID
        (("agent_hostname", GStr (agent_Hostname agent)) :: extra);
  mret tt.

Definition agent_profile (cert : ManagedCertificate) : M LifeDB (option CertificateProfile) :=
  if negb (bool_decide (cert_CertificateProfileID cert = "")) && profileRepo then
    r ← on_db (ProfileRepo.ProfileRepository_Get (cert_CertificateProfileID cert));
    mret match r with Ok p => Some p | Err _ => None end
  else mret None.

(** No job is waiting: sign with the issuer of the certificate. *)
Definition sign_adhoc (certID : string) (cert : ManagedCertificate) (csrPEM : string) (connector : IssuerConnector)
    : M LifeDB (res unit) :=
  profile ← agent_profile cert;
  match ValidateCSRAgainstProfile csrPEM profile with
  | Err e => mret (Err (ErrWrap "CSR validation failed" e))
  | Ok csrInfo =>
      r ← call (λ k, ic_IssueCertificate connector k (cert_CommonName cert) (cert_SANs cert) csrPEM
            (default [] (pf_AllowedEKUs <$> profile)) (default 0 (pf_MaxTTLSeconds <$> profile))
            (default false (pf_MustStaple <$> profile)));
      match r with
      | Err e => mret (Err (ErrWrap "issuer signing failed" e))
      | Ok result =>
          vid ← generateID "certver";
          t1 ← now;
          v ← CreateVersion (version_of vid certID csrPEM (kv_KeyAlgorithm csrInfo) (kv_KeySize csrInfo) result t1);
          match v with
          | Err e => mret (Err (ErrWrap "failed to store certificate version" e))
          | Ok _ =>
              t2 ← now;
              _ ← CertUpdate (renewed (ir_NotAfter result) t2 cert);
              mret (Ok tt)
          end
      end
  end.

Definition awaiting_job (certID : string) : M LifeDB (option (RenewalSvc * Job)) :=
  match renewalService with
  | None => mret None
  | Some rs =>
      r ← GetAwaitingCSRJobs certID;
      mret match r with Ok (j :: _) => Some (rs, j) | _ => None end
  end.

Definition SubmitCSR (agentID certID csrPEM : string) : M LifeDB (res unit) :=
  a ← on_db (AgentRepository_Get agentID);
  match a with
  | Err e => mret (Err (ErrWrap "failed to fetch agent" e))
  | Ok agent =>
  if bool_decide (csrPEM = "") then mret (Err (ErrMsg "invalid CSR: empty")) else
  if bool_decide (certID = "") then _ ← record_csr agent certID []; mret (Ok tt) else
  c ← CertGet certID;
  match c with
  | Err e => mret (Err (ErrWrap "failed to fetch certificate" e))
  | Ok (cert, targetIDs) =>
  aw ← awaiting_job certID;
  match aw with
  | Some (rs, job) =>
      r ← CompleteAgentCSRRenewal ToLower formatDate jsonTime rs job cert targetIDs csrPEM;
      match r with
      | Err e => mret (Err (ErrWrap "failed to complete agent CSR renewal" e))
      | Ok _ =>
          _ ← record_csr agent certID [("keygen_mode", GStr "agent"); ("job_id", GStr (job_ID job))];
          mret (Ok tt)
      end
  | None =>
      r ← (match Registry_Get registry (cert_IssuerID cert) with
           | None => mret (Ok tt)
           | Some connector => sign_adhoc certID cert csrPEM connector
           end);
      match r with
      | Err e => mret (Err e)
      | Ok _ => _ ← record_csr agent certID []; mret (Ok tt)
      end
  end end end.

Definition CSRSubmit (agentID csrPEM : string) : M LifeDB (res string) :=
  r ← SubmitCSR agentID "" csrPEM;
  mret match r with Err e => Err e | Ok _ => Ok "csr_accepted" end.
Definition CSRSubmitForCert (agentID certID csrPEM : string) : M LifeDB (res string) :=
  r ← SubmitCSR agentID certID csrPEM;
  mret match r with Err e => Err e | Ok _ => Ok "csr_signed" end.

(** The loop that looks for the newest version. *)
Definition newer (best v : CertificateVersion) : CertificateVersion :=
  if cv_CreatedAt best <? cv_CreatedAt v then v else best.

Definition GetCertificateForAgent (agentID certID : string) : M LifeDB (res string) :=
  a ← on_db (AgentRepository_Get agentID);
  match a with
  | Err e => mret (Err (ErrWrap "failed to fetch agent" e))
  | Ok _ =>
  r ← ListVersions certID;
  match r with
  | Err e => mret (Err (ErrWrap "failed to fetch certificate versions" e))
  | Ok [] => mret (Err (ErrMsg "no certificate versions found"))
  | Ok (v :: l) =>
      let latest := foldl newer v (v :: l) in
      _ ← RecordEvent ToLower agentID ActorTypeAgent "certificate_retrieved" "certificate" certID
            [("version", GStr (cv_SerialNumber latest))];
      mret (Ok (cv_PEMChain latest))
  end end.
Definition CertificatePickup : string → string → M LifeDB (res string) := GetCertificateForAgent.
End service.
End AgentCsr.
