(* ===== verification/LifecycleFacts.v ===== *)
(** * Facts about the certificate life cycle (Lifecycle.v)

    An alert is raised once per certificate, channel and threshold; a server-mode renewal is
    all or nothing; the scan leaves certificates alone that are being renewed, revoked,
    archived, failed or expired, and never starts a second renewal; nothing is dispatched to
    a dead agent; the key rules of a profile hold for what an agent submits; and a submitted
    CSR turns a revoked certificate active again. *)

From Stdlib Require Import ZArith Lia Ascii String.
From stdpp Require Import prelude gmap strings list sorting pretty.
From S2P Require Import Prelude AuditTrail Store Transactions Jobs Approval GoBytes KeyCrypto AcmeWire CertStore Agents Notify NotifyFacts Lifecycle.
Import NotificationRepo NotificationService LifeRepo RenewalService.

(** ** Alerts are raised once *)
Definition alert_key (certID channel : string) (t : Z) (n : NotificationEvent) : Prop :=
  nt_CertificateID n = Some certID ∧ nt_Type n = NotificationTypeExpirationWarning ∧
  nt_Channel n = channel ∧ tagged t (nt_Message n).

Definition alerts_once (m : gmap string NotificationEvent) : Prop :=
  ∀ k1 k2 n1 n2 c ch t, m !! k1 = Some n1 → m !! k2 = Some n2 →
    alert_key c ch t n1 → alert_key c ch t n2 → k1 = k2.

(** The columns an alert is known by. *)
Definition same_alert (n n' : NotificationEvent) : Prop :=
  nt_CertificateID n' = nt_CertificateID n ∧ nt_Type n' = nt_Type n ∧ nt_Channel n' = nt_Channel n ∧
  nt_Message n' = nt_Message n.

Lemma alert_key_same c ch t n n' : same_alert n n' → alert_key c ch t n' → alert_key c ch t n.
Proof. unfold alert_key. by intros (-> & -> & -> & ->). Qed.

Lemma alerts_once_update m id n n' :
  alerts_once m → m !! id = Some n → same_alert n n' → alerts_once (<[id := n']> m).
Proof.
  intros H Hn Hs k1 k2 n1 n2 c ch t H1 H2 A1 A2.
  assert (∀ k x, <[id := n']> m !! k = Some x → alert_key c ch t x →
            ∃ y, m !! k = Some y ∧ alert_key c ch t y) as Hback.
  { intros k x Hx Hk. destruct (decide (k = id)) as [->|Hne].
    - rewrite lookup_insert_eq in Hx. simplify_eq. exists n. split; [done|by eapply alert_key_same].
    - rewrite lookup_insert_ne in Hx by done. by exists x. }
  destruct (Hback _ _ H1 A1) as (y1 & ? & ?), (Hback _ _ H2 A2) as (y2 & ? & ?). by eapply H.
Qed.

Lemma alerts_once_fresh m id n :
  alerts_once m → m !! id = None →
  (∀ k x c ch t, m !! k = Some x → alert_key c ch t x → alert_key c ch t n → False) →
  alerts_once (<[id := n]> m).
Proof.
  intros H Hid Hn k1 k2 n1 n2 c ch t H1 H2 A1 A2.
  destruct (decide (k1 = id)) as [->|N1], (decide (k2 = id)) as [->|N2]; [done| | |].
  - rewrite lookup_insert_eq in H1. rewrite lookup_insert_ne in H2 by done. simplify_eq. exfalso. eauto.
  - rewrite lookup_insert_eq in H2. rewrite lookup_insert_ne in H1 by done. simplify_eq. exfalso. eauto.
  - rewrite lookup_insert_ne in H1, H2 by done. eauto.
Qed.

Definition once (d : LifeDB) : Prop := alerts_once (lf_notifs d).

Lemma once_update op id f :
  (∀ n, same_alert n (f n)) → hoare once (update_row op id f) (λ _, once).
Proof.
  intros Hf. apply hoare_exec; [|done|]; intros d Hd; destruct (lf_notifs d !! id) eqn:E; cbn; try done.
  all: by eapply alerts_once_update.
Qed.

(** A new row that is not an alert. *)
Lemma once_create n :
  nt_Type n ≠ NotificationTypeExpirationWarning → hoare once (Create n) (λ _, once).
Proof.
  intros Ht. apply hoare_exec; [|done|]; intros d Hd; case_match eqn:E; cbn; try done.
  all: apply andb_true_iff in E as [E _]; apply bool_decide_eq_true in E; apply alerts_once_fresh; [done..|].
  all: by intros ????? _ _ (_ & ? & _).
Qed.

(** A new alert nobody mentioned. *)
Definition unmentioned (certID channel : string) (t : Z) (d : LifeDB) : Prop :=
  ∀ k n, lf_notifs d !! k = Some n → ¬ mentions certID channel t n.

Lemma alert_key_mentions c ch t n : alert_key c ch t n → mentions c ch t n.
Proof. intros (? & ? & ? & ?). split_and!; try done. by apply tagged_contains. Qed.

Lemma once_create_alert n certID channel t :
  alert_key certID channel t n →
  hoare (λ d, once d ∧ unmentioned certID channel t d) (Create n) (λ _, once).
Proof.
  intros Hk. apply hoare_exec; [|by intros d []|]; intros d [Hd Hu]; case_match eqn:E; cbn; try done.
  all: apply andb_true_iff in E as [E _]; apply bool_decide_eq_true in E; apply alerts_once_fresh; [done..|].
  all: intros k x c ch t' Hx A1 (A2 & A3 & A4 & A5); destruct Hk as (B1 & B2 & B3 & B4); cbn in *.
  all: assert (t' = t) as -> by (by eapply tagged_unique); rewrite A2 in B1; simplify_eq.
  all: by eapply Hu, alert_key_mentions.
Qed.

Ltac once_walk :=
  repeat first
    [ hkeep | done | by apply once_update | by apply hoare_Send | by apply hoare_resolveRecipient
    | by apply hoare_on_iss | by apply hoare_audit_keeps ].

Lemma once_sendNotification sv n : hoare once (sendNotification sv n) (λ _, once).
Proof. unfold sendNotification, UpdateStatus. once_walk. Qed.

Lemma once_notify sv ctx type channel message cert :
  type ≠ NotificationTypeExpirationWarning →
  hoare once (notify sv ctx type channel message cert) (λ _, once).
Proof. intros Ht. unfold notify. once_walk; [by apply once_create|apply once_sendNotification]. Qed.

(** Reading changes nothing. *)
Lemma List_reads f (P : LifeDB → Prop) : hoare P (NotificationRepo.List f) (λ _, P).
Proof. unfold NotificationRepo.List. repeat hkeep. Qed.

Lemma mentions_matches certID channel t n :
  channel ≠ "" → mentions certID channel t n → matches (threshold_filter certID t channel) n = true.
Proof.
  intros Hch Hm. destruct (decide (certID = "")) as [->|Hc]; [|by apply threshold_filter_matches].
  destruct Hm as (H1 & H2 & H3 & H4). unfold matches, threshold_filter, LIKE. cbn.
  rewrite !(bool_decide_eq_true_2 ("" = "")) by done. cbn [orb andb].
  rewrite !(bool_decide_eq_true_2 (nt_Type n = _)), !(bool_decide_eq_true_2 (nt_Channel n = _)) by done.
  rewrite !orb_true_r, !andb_true_r. cbn [andb]. apply orb_true_iff. right.
  rewrite chars_app, chars_app. change (chars "%") with ["%"%char]. cbn [app].
  apply like_substring; [apply tag_plain|done].
Qed.

(** The search that finds nothing leaves an unmentioned key. *)
Lemma hoare_search certID channel t (P : LifeDB → Prop) :
  channel ≠ "" →
  hoare P (HasThresholdNotificationOnChannel certID t channel)
    (λ r d, P d ∧ (r = Ok false → unmentioned certID channel t d)).
Proof.
  intros Hch. unfold HasThresholdNotificationOnChannel.
  apply hoare_bind with (λ r d, P d ∧ (r = Ok [] → unmentioned certID channel t d)).
  2:{ intros [l|e]; apply hoare_ret; intros d [Hd H]; split; try done. intros [= E%negb_false_iff].
      apply bool_decide_eq_true in E as ->. by apply H. }
  unfold NotificationRepo.List. cbn -[merge_sort take drop].
  apply hoare_bind with (λ _, P); [by apply hoare_query|]. intros [x|e]; [|apply hoare_ret; by intros d].
  apply hoare_bind with (λ (r : res (res (list NotificationEvent))) d, P d ∧
    (r = Ok (Ok []) → unmentioned certID channel t d)).
  - apply hoare_query; intros d Hd; split; try done. intros [= E] k n Hk Hm.
    rewrite drop_0 in E. set (l := filter _ _) in E.
    assert (n ∈ l) as Hn.
    { apply list_elem_of_filter. split; [by apply mentions_matches|]. apply elem_of_rows. eauto. }
    pose proof (merge_sort_Permutation sent_order l) as Hp. rewrite <-Hp in Hn.
    destruct (merge_sort sent_order l); [by apply elem_of_nil in Hn|discriminate E].
  - intros [[l|e]|e]; apply hoare_ret; intros d [Hd H]; split; try done. intros [= ->]. by apply H.
Qed.

Section once.
Context `{X : X509}.
Variable ToLower : string → string.
Variable formatDate jsonTime : Z → string.
Variable uuid_New : N → string.
Implicit Types s : RenewalSvc.

Lemma valid_channel_nonempty ch : IsValidNotificationChannel ch = true → ch ≠ "".
Proof. unfold IsValidNotificationChannel. rewrite bool_decide_eq_true. intros H ->. set_solver. Qed.

Lemma once_SendThresholdAlert sv cert days t ch :
  hoare (λ d, once d ∧ unmentioned (cert_ID cert) ch t d)
    (SendThresholdAlertOnChannel formatDate sv cert days t ch) (λ _, once).
Proof.
  unfold SendThresholdAlertOnChannel. case_match; [apply hoare_ret; by intros d []|].
  unfold notify. hkeep; [by hkeep|]. hkeep; [by apply hoare_resolveRecipient|]. hkeep; [by hkeep|]. cbv zeta.
  apply hoare_bind with (λ _, once).
  - apply once_create_alert. split_and!; try done. apply body_tagged.
  - intros [[]|e]; [apply once_sendNotification|by apply hoare_ret].
Qed.

Lemma once_alert_on s cert days t tier ch : hoare once (alert_on ToLower formatDate s cert days t tier ch) (λ _, once).
Proof.
  unfold alert_on. cbv zeta. destruct (IsValidNotificationChannel ch) eqn:Ev; cbn [negb].
  2:{ unfold record. once_walk. }
  eapply hoare_bind; [by apply hoare_search, valid_channel_nonempty|].
  intros [[|]|e]; [apply hoare_ret; by intros d []| |apply hoare_ret; by intros d []].
  apply hoare_bind with (λ _, once).
  - eapply hoare_conseq; [apply once_SendThresholdAlert| |done]. intros d [Hd H]. split; [done|by apply H].
  - intros r. unfold record. once_walk.
Qed.

Lemma once_for_each {A} (l : list A) (body : A → M LifeDB unit) :
  (∀ x, hoare once (body x) (λ _, once)) → hoare once (for_each l body) (λ _, once).
Proof.
  intros H. induction l as [|x l IH]; cbn; [by apply hoare_ret|].
  apply hoare_bind with (λ _, once); [apply H|]. by intros _.
Qed.

Lemma once_alerts s cert days ts policy : hoare once (sendThresholdAlerts ToLower formatDate s cert days ts policy) (λ _, once).
Proof.
  apply once_for_each. intros t. unfold alert_threshold. case_match; [by apply hoare_ret|]. cbv zeta.
  case_match; [unfold record; once_walk|]. apply once_for_each. intros ch. apply once_alert_on.
Qed.

Lemma once_scan_cert s cache cert : hoare once (scan_cert ToLower formatDate s cache cert) (λ _, once).
Proof.
  unfold scan_cert, lookup_policy, PolicyGet, updateCertExpiryStatus, CertUpdate, renew_if_due, ari_check,
    create_renewal_job, call, record.
  once_walk. apply once_alerts.
Qed.

Lemma once_scan_all s cache certs : hoare once (scan_all ToLower formatDate s cache certs) (λ _, once).
Proof.
  revert cache. induction certs as [|c certs IH]; intros cache; cbn; [by apply hoare_ret|].
  apply hoare_bind with (λ _, once); [apply once_scan_cert|]. intros x. apply IH.
Qed.

Lemma once_scan s : hoare once (CheckExpiringCertificates ToLower formatDate s) (λ _, once).
Proof.
  unfold CheckExpiringCertificates, GetExpiringCertificates. once_walk. apply once_scan_all.
Qed.

Lemma once_createDeploymentJobs s cert tids : hoare once (createDeploymentJobs s cert tids) (λ _, once).
Proof.
  unfold createDeploymentJobs. case_match.
  - once_walk; [unfold TargetListByCertificate; once_walk|]. apply once_for_each. intros t.
    unfold create_deployment_job. once_walk.
  - apply hoare_bind with (λ _, once).
    + generalize (s0 :: l). intros k. induction k as [|x k IH]; cbn; [by apply hoare_ret|].
      unfold resolve_target, TargetGet. once_walk.
    + intros ts. apply once_for_each. intros t. unfold create_deployment_job. once_walk.
Qed.

Lemma once_SendRenewal sv cert e : hoare once (SendRenewalNotification formatDate sv cert e) (λ _, once).
Proof. unfold SendRenewalNotification. case_match; by apply once_notify. Qed.
Lemma once_SendDeployment sv cert t e : hoare once (SendDeploymentNotification sv cert t e) (λ _, once).
Proof. unfold SendDeploymentNotification. case_match; by apply once_notify. Qed.

Ltac life_walk :=
  repeat first
    [ hkeep | done | by apply hoare_on_iss | by apply hoare_audit_keeps | apply once_createDeploymentJobs
    | apply once_SendRenewal | apply once_SendDeployment ].

Lemma once_ProcessRenewalJob s job :
  hoare once (ProcessRenewalJob ToLower formatDate jsonTime uuid_New s job) (λ _, once).
Proof.
  unfold ProcessRenewalJob, CertGet, getTargetIDs, processRenewalAgentKeygen, processRenewalServerKeygen, profile_of,
    RenewCertificate, renewal_refused, store_renewal, finish_renewal, failJob, CertUpdate, CreateVersion, call, record.
  life_walk.
Qed.

Lemma once_CompleteAgentCSRRenewal s job cert tids csr :
  hoare once (CompleteAgentCSRRenewal ToLower formatDate jsonTime s job cert tids csr) (λ _, once).
Proof.
  unfold CompleteAgentCSRRenewal, profile_of, RenewCertificate, renewal_refused, finish_renewal, failJob, CertUpdate,
    CreateVersion, call, record.
  life_walk.
Qed.

Lemma once_SubmitCSR rs pr reg agentID certID csr :
  hoare once (AgentCsr.SubmitCSR ToLower formatDate jsonTime rs pr reg agentID certID csr) (λ _, once).
Proof.
  unfold AgentCsr.SubmitCSR, AgentCsr.record_csr, AgentCsr.awaiting_job, AgentCsr.sign_adhoc, AgentCsr.agent_profile,
    GetAwaitingCSRJobs, CertGet, getTargetIDs, CertUpdate, CreateVersion, call.
  life_walk; apply once_CompleteAgentCSRRenewal.
Qed.

Lemma once_ExpireShortLived s : hoare once (ExpireShortLivedCertificates ToLower jsonTime s) (λ _, once).
Proof.
  unfold ExpireShortLivedCertificates, GetExpiringCertificates. life_walk. apply once_for_each. intros c.
  unfold expire_short_lived, CertUpdate, record. life_walk.
Qed.

Lemma once_RetryFailedJobs : hoare once RetryFailedJobs (λ _, once).
Proof.
  unfold RetryFailedJobs. life_walk. apply once_for_each. intros j. unfold retry_failed_job. life_walk.
Qed.

Lemma once_ProcessDeploymentJob sv job : hoare once (DeploymentService.ProcessDeploymentJob ToLower sv job) (λ _, once).
Proof.
  unfold DeploymentService.ProcessDeploymentJob, DeploymentService.refuse, DeploymentService.fail,
    DeploymentService.record, CertGet, getTargetIDs, TargetGet.
  life_walk.
Qed.

Lemma once_mark sv id st msg act cause det :
  hoare once (DeploymentService.mark ToLower sv id st msg act cause det) (λ _, once).
Proof.
  unfold DeploymentService.mark. do 2 (hkeep; [by apply hoare_on_iss|]; hkeep; [|by hkeep]).
  hkeep; [unfold CertGet, getTargetIDs; life_walk|]. hkeep; [|by hkeep]. hkeep.
  hkeep; [|hkeep; [unfold TargetGet; by repeat hkeep|]; hkeep; [|by hkeep]; hkeep; [apply once_SendDeployment|]].
  all: hkeep; [|by hkeep]; unfold DeploymentService.record; hkeep; [by apply hoare_audit_keeps|by hkeep].
Qed.

(** What the scheduler, the agents and the operators have done: every operation of the life
    cycle, and every call of the notification service but the alert itself. *)
Inductive life_call :=
| LcScan
| LcRenewalJob (job : Job)
| LcSubmitCSR (agentID certID csrPEM : string)
| LcExpireShortLived
| LcRetryFailedJobs
| LcDeploymentJob (job : Job)
| LcDeployed (jobID : string)
| LcDeployFailed (jobID errMsg : string)
| LcRevocationNotice (cert : ManagedCertificate) (reason : string)
| LcProcessPending
| LcRetryNotifications
| LcRequeue (id : string)
| LcMarkAsRead (id : string).

Definition run_life_call (s : RenewalSvc) (c : life_call) : M LifeDB unit :=
  match c with
  | LcScan => _ ← CheckExpiringCertificates ToLower formatDate s; mret tt
  | LcRenewalJob job => _ ← ProcessRenewalJob ToLower formatDate jsonTime uuid_New s job; mret tt
  | LcSubmitCSR a c csr =>
      _ ← AgentCsr.SubmitCSR ToLower formatDate jsonTime (Some s) (rn_profileRepo s) (rn_registry s) a c csr; mret tt
  | LcExpireShortLived => _ ← ExpireShortLivedCertificates ToLower jsonTime s; mret tt
  | LcRetryFailedJobs => _ ← RetryFailedJobs; mret tt
  | LcDeploymentJob job => _ ← DeploymentService.ProcessDeploymentJob ToLower (rn_notif s) job; mret tt
  | LcDeployed id => _ ← DeploymentService.MarkDeploymentComplete ToLower (rn_notif s) id; mret tt
  | LcDeployFailed id e => _ ← DeploymentService.MarkDeploymentFailed ToLower (rn_notif s) id e; mret tt
  | LcRevocationNotice c r => _ ← SendRevocationNotification (rn_notif s) c r; mret tt
  | LcProcessPending => _ ← ProcessPendingNotifications (rn_notif s); mret tt
  | LcRetryNotifications => _ ← RetryFailedNotifications (rn_notif s); mret tt
  | LcRequeue id => _ ← RequeueNotification id; mret tt
  | LcMarkAsRead id => _ ← MarkAsRead id; mret tt
  end.

Lemma once_call s c : hoare once (run_life_call s c) (λ _, once).
Proof.
  destruct c; cbn [run_life_call]; hkeep; try by apply hoare_ret.
  - apply once_scan.
  - apply once_ProcessRenewalJob.
  - apply once_SubmitCSR.
  - apply once_ExpireShortLived.
  - apply once_RetryFailedJobs.
  - apply once_ProcessDeploymentJob.
  - apply once_mark.
  - apply once_mark.
  - by apply once_notify.
  - unfold ProcessPendingNotifications. hkeep; [apply List_reads|]. hkeep; [|by hkeep].
    apply hoare_bind with (λ _, once); [|intros n; by case_match; hkeep]. generalize 0.
    clear. induction a0 as [|n l IH]; intros k; cbn; [by apply hoare_ret|].
    apply hoare_bind with (λ _, once); [apply once_sendNotification|]. intros r. apply IH.
  - unfold RetryFailedNotifications, ListRetryEligible. once_walk. apply once_for_each. intros n.
    unfold retry_notification, UpdateStatus, MarkAsDead, RecordFailedAttempt. once_walk.
  - unfold RequeueNotification, Requeue. once_walk.
  - unfold MarkAsRead, UpdateStatus. once_walk.
Qed.

(** C11: An expiry alert is raised at most once by calls that run one after another.  Whatever
    sequence of complete calls of the expiry scan, renewals, CSR submissions, deployments,
    delivery retries and read marks runs, and wherever database statements fail, the notification
    table never holds two alerts for the same certificate, channel and threshold, if it held none
    before: the scan looks for the threshold's tag before it writes, and the tag at the end of an
    alert determines its threshold.  The search does not look at the delivery status, so an alert
    whose delivery failed is not attempted again by a later scan either, contrary to the comments
    and the connector guide (alert_not_reattempted); and scans of several replicas that run at the
    same time are not covered, they can duplicate an alert (concurrent_scans_duplicate). *)
Theorem alerts_raised_once s calls w :
  alerts_once (lf_notifs (w_db w)) →
  alerts_once (lf_notifs (w_db (snd (for_each calls (run_life_call s) w)))).
Proof. intros Hw. by apply (once_for_each calls (run_life_call s) (once_call s) w). Qed.

(** An alert is not attempted again: when the table holds one for the certificate, the channel and
    the threshold, delivered or not, the scan does nothing. *)
Theorem alert_not_reattempted s cert days t tier ch k n w :
  env_faults (w_env w) = [] → cert_ID cert ≠ "" → IsValidNotificationChannel ch = true →
  lf_notifs (w_db w) !! k = Some n → alert_key (cert_ID cert) ch t n →
  alert_on ToLower formatDate s cert days t tier ch w = (tt, w).
Proof.
  intros Hf Hc Hch Hk (H1 & H2 & H3 & H4). unfold alert_on. rewrite Hch. cbn [negb].
  destruct (alert_search_exact (cert_ID cert) ch t w Hc (valid_channel_nonempty ch Hch) Hf) as ([] & Hb & Hiff).
  - by erewrite bind_run by exact Hb.
  - exfalso. assert (false = true); [|done]. apply Hiff. exists k, n. split; [done|].
    split_and!; try done. by apply tagged_contains.
Qed.
End once.

(** ** What leaves certificates and versions alone *)
Definition iss_frame (i i' : IssuanceDB) : Prop :=
  is_certs i' = is_certs i ∧ is_versions i' = is_versions i ∧ is_audit i `prefix_of` is_audit i'.
Definition frame (d d' : LifeDB) : Prop := iss_frame (lf_iss d) (lf_iss d').
Definition db_frame (d d' : DB) : Prop := db_certs d' = db_certs d ∧ db_audit d `prefix_of` db_audit d'.

#[global] Instance frame_preorder : PreOrder frame.
Proof.
  split; [done|]. intros d1 d2 d3 (A1 & A2 & A3) (B1 & B2 & B3). unfold frame, iss_frame.
  rewrite B1, B2, A1, A2. split_and!; try done. by etransitivity.
Qed.

#[global] Instance db_frame_preorder : PreOrder db_frame.
Proof.
  split; [done|]. intros d1 d2 d3 (A1 & A2) (B1 & B2). split; [congruence|by etransitivity].
Qed.

Lemma frame_on_db {A} (m : M DB A) : pres db_frame m → pres frame (on_db m).
Proof.
  intros H w. unfold on_db, on_iss, on_store. cbn.
  specialize (H (mkWorld (is_store (lf_iss (w_db w))) (w_env w))). destruct (m _) as [a w']. cbn in *.
  destruct H as [H1 H2]. split_and!; [exact H1|done|exact H2].
Qed.

Lemma frame_on_db_read {A} (m : M DB A) : pres eq m → pres frame (on_db m).
Proof. intros H. apply frame_on_db. intros w. by rewrite <-(H w). Qed.

Lemma frame_RecordEvent TL a at_ act rt ri det : pres frame (RecordEvent TL a at_ act rt ri det).
Proof.
  intros w. destruct (hoare_RecordEvent TL a at_ act rt ri det (w_db w) w eq_refl) as [[->|(ev & _ & ->)] _]; [done|].
  split_and!; try done. apply prefix_app_r. done.
Qed.

Lemma db_frame_UpdateStatus id st msg : pres db_frame (JobRepo.JobRepository_UpdateStatus id st msg).
Proof.
  unfold JobRepo.JobRepository_UpdateStatus. cbv zeta. destruct (JobRepo.terminal_status st); repeat pres_step;
    unfold JobRepo.set_row; case_match; done.
Qed.

Lemma db_frame_JobCreate j : pres db_frame (JobRepo.JobRepository_Create j).
Proof. unfold JobRepo.JobRepository_Create. pres_step. repeat case_match; done. Qed.

Lemma frame_Send ch n r su b : pres frame (Send ch n r su b).
Proof. intros w. unfold Send. mrun. done. Qed.

Lemma frame_generateID p : pres frame (generateID p).
Proof. unfold generateID. repeat pres_step. Qed.

Lemma frame_update_row op id f : pres frame (update_row op id f).
Proof. unfold update_row. pres_step. by case_match. Qed.

Ltac frame_leaf :=
  first
    [ simple apply frame_RecordEvent | simple apply frame_Send | simple apply frame_generateID
    | simple apply frame_update_row
    | simple apply frame_on_db;
      first [ simple apply db_frame_UpdateStatus | simple apply db_frame_JobCreate
            | solve [eauto with certctl typeclass_instances] ]
    | simple apply frame_on_db_read; solve [ repeat pres_step ] ].
Ltac frame_walk := repeat first [ pres_step | frame_leaf ].

Lemma frame_notify sv ctx type ch msg cert : pres frame (notify sv ctx type ch msg cert).
Proof.
  unfold notify, resolveRecipient, Create, sendNotification, UpdateStatus. frame_walk; case_match; done.
Qed.

Lemma frame_profile_read id : pres frame (on_db (ProfileRepo.ProfileRepository_Get id)).
Proof. apply frame_on_db_read. unfold ProfileRepo.ProfileRepository_Get. repeat pres_step. Qed.

Section framed.
Context `{X : X509}.
Variable ToLower : string → string.
Variable formatDate jsonTime : Z → string.
Variable uuid_New : N → string.
Implicit Types s : RenewalSvc.

Lemma frame_SendRenewal sv cert e : pres frame (SendRenewalNotification formatDate sv cert e).
Proof. unfold SendRenewalNotification. case_match; apply frame_notify. Qed.

Lemma frame_failJob job msg : pres frame (failJob job msg).
Proof. unfold failJob. frame_walk. Qed.

Lemma frame_CertGet id : pres frame (CertGet id).
Proof. unfold CertGet, getTargetIDs. frame_walk. Qed.

Lemma frame_profile_of s cert : pres frame (profile_of s cert).
Proof. unfold profile_of. case_match; [|pres_step]. pres_step; [apply frame_profile_read|pres_step]. Qed.

Lemma frame_refused s ctx job cert e : pres frame (renewal_refused ToLower formatDate s ctx job cert e).
Proof.
  unfold renewal_refused, record. repeat first [pres_step | apply frame_failJob | apply frame_SendRenewal | frame_leaf].
Qed.

Lemma frame_createDeploymentJobs s cert tids : pres frame (createDeploymentJobs s cert tids).
Proof.
  unfold createDeploymentJobs. case_match.
  - unfold TargetListByCertificate, create_deployment_job. frame_walk.
  - pres_step; [|unfold create_deployment_job; frame_walk].
    generalize (s0 :: l). intros k. induction k as [|x k IH]; cbn; [pres_step|].
    unfold resolve_target, TargetGet. repeat first [pres_step | exact IH].
Qed.

Lemma frame_finish s job cert tids : pres frame (finish_renewal formatDate s job cert tids).
Proof.
  unfold finish_renewal.
  repeat first [pres_step | apply frame_createDeploymentJobs | apply frame_SendRenewal | frame_leaf].
Qed.
End framed.

(** ** A server-mode renewal is all or nothing *)
Definition untouched (i0 i : IssuanceDB) : Prop := is_certs i = is_certs i0 ∧ is_versions i = is_versions i0.

(** The new version, the certificate that carries its dates, and the audit row. *)
Definition stored (certID : string) (cert : ManagedCertificate) (v : CertificateVersion) (i0 i : IssuanceDB) : Prop :=
  (∃ old, is_certs i0 !! cert_ID cert = Some old ∧
          is_certs i = <[cert_ID cert := cert_set_row old cert]> (is_certs i0)) ∧
  is_versions i0 !! cv_ID v = None ∧ is_versions i = <[cv_ID v := v]> (is_versions i0) ∧
  ∃ ev, event_of "system" ActorTypeSystem "renewal_job_completed" "certificate" certID ev ∧ ev ∈ is_audit i.

Lemma untouched_frame i0 i i' : untouched i0 i → iss_frame i i' → untouched i0 i'.
Proof. intros [H1 H2] (F1 & F2 & _). split; congruence. Qed.

Lemma stored_frame certID cert v i0 i i' : stored certID cert v i0 i → iss_frame i i' → stored certID cert v i0 i'.
Proof.
  intros (H1 & H2 & H3 & ev & H4 & H5) (F1 & F2 & F3). unfold stored. rewrite F1, F2.
  split_and!; try done. exists ev. split; [done|]. by eapply elem_of_prefix.
Qed.

Section all_or_nothing.
Context `{X : X509}.
Variable ToLower : string → string.
Variable formatDate jsonTime : Z → string.
Variable uuid_New : N → string.
Implicit Types s : RenewalSvc.

(** The transaction. *)
Lemma hoare_renewal_tx job cert v det i0 :
  cv_ID v ≠ "" →
  hoare (λ i, i = i0)
    (WithinTx (
      r ← CertRepo.CreateVersionWithTx uuid_New v;
      match r with
      | Err e => mret (Err (ErrWrap "failed to create certificate version" e))
      | Ok _ =>
          u ← CertRepo.UpdateWithTx cert;
          match u with
          | Err e => mret (Err (ErrWrap "failed to update certificate" e))
          | Ok _ =>
              a ← RecordEvent ToLower "system" ActorTypeSystem "renewal_job_completed" "certificate"
                    (job_CertificateID job) det;
              mret match a with Err e => Err (ErrWrap "failed to record audit event" e) | Ok _ => Ok tt end
          end
      end))
    (λ r i, (i = i0 ∨ stored (job_CertificateID job) cert v i0 i) ∧
            (r = Ok tt → stored (job_CertificateID job) cert v i0 i)).
Proof.
  intros Hv. apply hoare_WithinTx; [|intros d e ->; split; [by left|done]]. intros d ->.
  unfold CertRepo.CreateVersionWithTx. rewrite bool_decide_eq_false_2 by done.
  set (J := job_CertificateID job).
  apply hoare_bind with (λ (r : res unit) t, tx_committed t = i0 ∧ (r = Ok tt →
     is_versions i0 !! cv_ID v = None ∧ tx_view t = set_versions (<[cv_ID v := v]>) i0)).
  { apply hoare_bind with (λ x t, x = v ∧ t = mkTxn i0 i0); [by apply hoare_ret; intros ? ->|]. intros x.
    apply hoare_tx_exec; intros t [-> ->]; cbn; (destruct (CertRepo.version_insert_ok i0 v) eqn:E; cbn; split; try done).
    intros _. unfold CertRepo.version_insert_ok in E. rewrite !andb_true_iff, !bool_decide_eq_true in E. naive_solver. }
  intros [[]|e]; [|apply hoare_ret; intros t [-> _]; by split].
  apply hoare_bind with (λ (r : res unit) t, tx_committed t = i0 ∧ (r = Ok tt →
     is_versions i0 !! cv_ID v = None ∧ ∃ old, is_certs i0 !! cert_ID cert = Some old ∧
     tx_view t = set_store (set_certs (<[cert_ID cert := cert_set_row old cert]>)) (set_versions (<[cv_ID v := v]>) i0))).
  { apply hoare_tx_exec; intros t [Hc Ht]; cbn; destruct (Ht eq_refl) as [Hn Hview]; split; try done.
    rewrite Hview. unfold CertRepo.cert_update.
    change (is_certs (set_versions _ i0)) with (is_certs i0).
    destruct (is_certs i0 !! cert_ID cert) as [old|] eqn:E; cbn; [|done]. intros _. split; [done|]. by exists old. }
  intros [[]|e]; [|apply hoare_ret; intros t [-> _]; by split].
  intros [t env] [Hc Ht]. cbn in Hc, Ht. destruct (Ht eq_refl) as (Hn & old & Hold & Hview).
  unfold mbind, M_bind.
  pose proof (hoare_RecordEvent ToLower "system" ActorTypeSystem "renewal_job_completed" "certificate" J det t
    (mkWorld t env) eq_refl) as H.
  destruct (RecordEvent _ _ _ _ _ _ _ _) as [r w']. cbn in H. destruct H as [H1 H2]. cbn.
  assert (tx_committed (w_db w') = i0) as Hcom by (destruct H1 as [->|(ev & _ & ->)]; done).
  split; [done|]. intros a Ha. destruct r as [[]|e]; [|done]. destruct a.
  destruct (H2 eq_refl) as (ev & Hev & ->).
  assert (stored J cert v i0 (tx_view (append_audit ev t))) as Hs; [|split; [split; [by right|done]|]; intros e; split; [by right|done]].
  cbn. rewrite Hview. unfold stored. cbn. split_and!; try done; [by exists old|]. exists ev. split; [done|].
  apply elem_of_app. right. by left.
Qed.

Lemma hoare_life_frame {A} (P : LifeDB → Prop) (m : M LifeDB A) :
  pres frame m → (∀ d d', P d → frame d d' → P d') → hoare P m (λ _, P).
Proof. intros H HP w Hw. eapply HP; [done|apply H]. Qed.

Lemma hoare_life_CertGet id i0 :
  hoare (λ d, untouched i0 (lf_iss d)) (CertGet id)
    (λ r d, untouched i0 (lf_iss d) ∧ ∀ c l, r = Ok (c, l) → is_certs i0 !! id = Some c).
Proof.
  unfold CertGet. apply hoare_bind with (λ r d, untouched i0 (lf_iss d) ∧ ∀ c, r = Ok c → is_certs i0 !! id = Some c).
  - intros w [H1 H2]. unfold on_db, on_iss, on_store, CertificateRepository_Get, sql_query, next_fault, mbind, M_bind,
      get_db, mret, M_ret. cbn.
    destruct (env_faults (w_env w)) as [|[| |]]; cbn; split; try done; rewrite <-H1; case_match; intros c [= <-]; done.
  - intros [c|e]; [|apply hoare_ret; intros d [H _]; by split].
    apply hoare_bind with (λ _ d, untouched i0 (lf_iss d) ∧ is_certs i0 !! id = Some c).
    + apply hoare_query; intros d [Hd Hc]; (split; [done|by apply Hc]).
    + intros [l|e]; apply hoare_ret; intros d [Hd Hc]; split; try done. by intros c' l' [= <- <-].
Qed.

Lemma hoare_versionID (P : LifeDB → Prop) : hoare P (generateID "certver") (λ id d, P d ∧ id ≠ "").
Proof.
  intros w Hw. unfold generateID, fresh, now, mbind, M_bind, mret, M_ret. cbn. destruct (env_ticks (w_env w)); cbn.
  all: split; [done|]; rewrite string_cons_app; discriminate.
Qed.

Definition renewal_outcome (job : Job) (i0 : IssuanceDB) (r : res unit) (d : LifeDB) : Prop :=
  let done_ := ∃ cert v t, is_certs i0 !! job_CertificateID job = Some cert ∧
                 cv_CertificateID v = job_CertificateID job ∧
                 stored (job_CertificateID job) (renewed (cv_NotAfter v) t cert) v i0 (lf_iss d) in
  (untouched i0 (lf_iss d) ∨ done_) ∧ (r = Ok tt → done_).

(** Leaving with an error before anything is stored. *)
Lemma hoare_give_up {A} (m : M LifeDB A) e job i0 :
  pres frame m → hoare (λ d, untouched i0 (lf_iss d)) (m ≫= λ _, mret (Err e)) (renewal_outcome job i0).
Proof.
  intros Hm. eapply hoare_bind; [apply hoare_life_frame; [exact Hm|intros d d'; apply untouched_frame]|].
  intros a. apply hoare_ret. intros d Hd. split; [by left|done].
Qed.

Lemma hoare_issue_refused s ctx job cert e i0 :
  hoare (λ d, untouched i0 (lf_iss d)) (renewal_refused ToLower formatDate s ctx job cert e) (renewal_outcome job i0).
Proof.
  intros w Hw. split; [left; eapply untouched_frame; [done|apply frame_refused]|].
  unfold renewal_refused, mbind, M_bind, mret, M_ret. by repeat case_match.
Qed.

Lemma hoare_store_renewal s job cert v r i0 :
  rn_tx s = true → cv_ID v ≠ "" →
  hoare (λ d, lf_iss d = i0) (store_renewal ToLower jsonTime uuid_New s job cert v r)
    (λ x d, (untouched i0 (lf_iss d) ∨ stored (job_CertificateID job) cert v i0 (lf_iss d)) ∧
            (x = Ok tt → stored (job_CertificateID job) cert v i0 (lf_iss d))).
Proof.
  intros Htx Hv. unfold store_renewal. rewrite Htx.
  set (Q := λ (x : res unit) d, (untouched i0 (lf_iss d) ∨ stored (job_CertificateID job) cert v i0 (lf_iss d)) ∧
            (x = Ok tt → stored (job_CertificateID job) cert v i0 (lf_iss d))).
  apply hoare_bind with Q.
  - intros w Hw. unfold on_iss.
    pose proof (hoare_renewal_tx job cert v (completed_details jsonTime job r "server") i0 Hv
      (mkWorld (lf_iss (w_db w)) (w_env w)) Hw) as H.
    destruct (WithinTx _ _) as [x w']. unfold Q. cbn in *. destruct H as [[->|H] H']; split; auto; by left.
  - intros [[]|e]; [by apply hoare_ret|]. eapply hoare_bind with (λ _, Q (Err e)).
    + apply hoare_life_frame; [apply frame_failJob|]. intros d d' [[H|H] _] Hf; split; try done.
      * left. by eapply untouched_frame. * right. by eapply stored_frame.
    + intros []. by apply hoare_ret.
Qed.

Lemma stored_rebase certID cert v i0 i1 i : untouched i0 i1 → stored certID cert v i1 i → stored certID cert v i0 i.
Proof. intros [H1 H2]. unfold stored. by rewrite H1, H2. Qed.

Lemma untouched_rebase i0 i1 i : untouched i0 i1 → untouched i1 i → untouched i0 i.
Proof. intros [H1 H2] [H3 H4]. split; congruence. Qed.

Lemma hoare_server_keygen s job cert tids connector i0 :
  rn_tx s = true → is_certs i0 !! job_CertificateID job = Some cert →
  hoare (λ d, untouched i0 (lf_iss d))
    (processRenewalServerKeygen ToLower formatDate jsonTime uuid_New s job cert tids connector) (renewal_outcome job i0).
Proof.
  intros Htx Hcert. unfold processRenewalServerKeygen.
  hkeep; [by hkeep|]. hkeep; [|apply hoare_give_up, frame_failJob].
  hkeep; [by hkeep|]. hkeep; [|apply hoare_give_up, frame_failJob]. cbv zeta.
  hkeep; [apply hoare_life_frame; [apply frame_profile_of|intros d d'; apply untouched_frame]|].
  hkeep; [unfold RenewCertificate, call; by repeat hkeep|]. hkeep; [|apply hoare_issue_refused].
  eapply hoare_bind; [apply hoare_versionID|]. intros vid. hkeep; [by hkeep|]. hkeep; [by hkeep|].
  match goal with |- hoare _ (mbind _ (store_renewal _ _ _ _ _ ?c ?v _)) _ => set (cert' := c); set (version := v) end.
  assert (cv_NotAfter version = ir_NotAfter a5 ∧ cv_CertificateID version = job_CertificateID job ∧ cv_ID version = vid)
    as (E1 & E2 & E3) by done.
  intros w [Hw Hvid]. unfold mbind, M_bind.
  pose proof (hoare_store_renewal s job cert' version a5 (lf_iss (w_db w)) Htx ltac:(by rewrite E3) w eq_refl) as H.
  destruct (store_renewal _ _ _ _ _ _ _ _) as [x w1]. cbn in H. destruct H as [H1 H2].
  assert (∀ i, stored (job_CertificateID job) cert' version (lf_iss (w_db w)) i →
    ∃ cert v t, is_certs i0 !! job_CertificateID job = Some cert ∧ cv_CertificateID v = job_CertificateID job ∧
      stored (job_CertificateID job) (renewed (cv_NotAfter v) t cert) v i0 i) as Hdone.
  { intros i Hi. exists cert, version, a7. split_and!; [done|done|]. rewrite E1. by eapply stored_rebase. }
  destruct x as [[]|e].
  - pose proof (frame_finish formatDate s job cert' tids w1) as Hf.
    destruct (finish_renewal _ _ _ _ _ _) as [y w2]. cbn in Hf |- *.
    assert (stored (job_CertificateID job) cert' version (lf_iss (w_db w)) (lf_iss (w_db w2))) as Hs
      by (eapply stored_frame; [by apply H2|exact Hf]).
    split; [right|intros _]; by apply Hdone.
  - cbn. split; [|done]. destruct H1 as [H1|H1]; [left; by eapply untouched_rebase|right; by apply Hdone].
Qed.

End all_or_nothing.

(** ** Concrete runs *)
Definition toy_x509 : X509 :=
  mkX509 Some (λ t b, t +:+ b) (λ b, Ok (mkCSR (Ok tt) (RSAPublicKey 2048))) (λ _, Ok "key")
    (λ _ cn dns emails key, Ok ("csr for " +:+ cn)).

Definition lc_cert (status : string) : ManagedCertificate :=
  mkCert "mc-1" "www" "www.example.com" ["www.example.com"] "o-1" "t-1" "iss-1" "" "" status (10 * day) "" None None "" 0.
Definition lc_job : Job :=
  mkJob "job-1" JobTypeRenewal "mc-1" None None JobStatusPending 0 3 None 0 None None 0 "pending" None None None.
Definition lc_agent (retired : option Z) : Agent :=
  mkAgent "ag-1" "web" "web.example.com" AgentStatusOnline (Some 0) 0 "" "" "" "" "" retired None.
Definition lc_db (c : ManagedCertificate) (jobs : list Job) : LifeDB :=
  mkLifeDB (mkIssuanceDB
    (mkDB (list_to_map ((λ j, (job_ID j, j)) <$> jobs)) ∅ {[ cert_ID c := c ]} ∅ {[ "ag-1" := lc_agent None ]}
       {[ "tg-1" := mkTarget "tg-1" "web" "ag-1" None None 0 ]} [("mc-1", "tg-1")] ∅ [])
    ∅ ∅ ∅ ∅ [] ∅ ∅ [] ∅ ∅ ∅ ∅ ∅ []) ∅ [].
Definition lc_world (c : ManagedCertificate) (jobs : list Job) : World LifeDB :=
  mkWorld (lc_db c jobs) (mkEnv 1000 [] [] 0).
Definition lc_issuer : IssuerConnector :=
  mkConnector (λ _ _ _ _ _ _ _, Ok (mkIssuance "leaf" "chain" "0a" 0 (90 * day)))
    (λ _ _ _ _ _ _ _, Ok (mkIssuance "leaf" "chain" "0a" 0 (90 * day))) (λ _ _ _, Ok tt) (λ _ _, Ok "") (λ _ _, Ok "")
    (λ _ _, Ok None).
Definition lc_svc (mode : string) : RenewalSvc :=
  mkRenewalSvc true true true mode [("iss-1", lc_issuer)] (mkNotificationSvc false ∅).
Definition lc_date (t : Z) : string := pretty t.

Example alerts_raised_once_witness :
  alerts_once (lf_notifs (w_db (snd (for_each [LcScan; LcScan]
    (run_life_call (X := toy_x509) lower_ascii lc_date lc_date (λ _, "uuid") (lc_svc "server"))
    (lc_world (lc_cert CertificateStatusActive) []))))).
Proof.
  apply (alerts_raised_once (X := toy_x509) lower_ascii lc_date lc_date (λ _, "uuid") (lc_svc "server") [LcScan; LcScan]).
  intros k1 k2 n1 n2 c ch t H. change (lf_notifs _) with (∅ : gmap string NotificationEvent) in H. by apply lookup_empty_Some in H.
Defined.

(** The webhook is down: the scan stores a failed alert per threshold, and a scan a day later, with
    the webhook still unreachable or not, leaves them as they are. *)
Definition lc_paged : NotificationEvent :=
  mkNotification "notif-1" NotificationTypeExpirationWarning (Some "mc-1") NotificationChannelWebhook "o-1"
    (threshold_body lc_date (lc_cert CertificateStatusActive) 9 30) None NotificationStatusFailed None 0 None None 0.

Example alert_not_reattempted_witness :
  let w := mkWorld (mkLifeDB (lf_iss (lc_db (lc_cert CertificateStatusActive) [])) {[ "notif-1" := lc_paged ]} [])
             (mkEnv (1000 + day) [] [] 0) in
  alert_on lower_ascii lc_date (lc_svc "server") (lc_cert CertificateStatusActive) 8 30 "informational"
    NotificationChannelWebhook w = (tt, w).
Proof.
  intros w. apply (alert_not_reattempted lower_ascii lc_date (lc_svc "server") (lc_cert CertificateStatusActive)
    8 30 "informational" NotificationChannelWebhook "notif-1" lc_paged w); [done|done|done|done|].
  split_and!; [done..|]. apply body_tagged.
Defined.

(** [alert_on] in two halves; in between another replica may search too. *)
Lemma alert_on_halves TL fd s cert days t tier ch w :
  IsValidNotificationChannel ch = true →
  alert_on TL fd s cert days t tier ch w =
  (found ← HasThresholdNotificationOnChannel (cert_ID cert) t ch;
   match found with
   | Err _ | Ok true => mret tt
   | Ok false =>
       _ ← SendThresholdAlertOnChannel fd (rn_notif s) cert days t ch;
       record TL "expiration_alert_sent" (cert_ID cert)
         ([("threshold_days", GInt t); ("days_until_expiry", GInt days); ("severity_tier", GStr tier)] ++ [("channel", GStr ch)])
   end) w.
Proof. unfold alert_on. by intros ->. Qed.

(** Two replicas search before either has written: both find nothing and both write. *)
Example concurrent_scans_duplicate :
  let w := lc_world (lc_cert CertificateStatusActive) [] in
  let cert := lc_cert CertificateStatusActive in
  let search := HasThresholdNotificationOnChannel "mc-1" 30 NotificationChannelWebhook in
  let send := SendThresholdAlertOnChannel lc_date (rn_notif (lc_svc "server")) cert 9 30 NotificationChannelWebhook in
  fst (search w) = Ok false ∧ fst (search (snd (search w))) = Ok false ∧
  (nt_Message <$> rows (lf_notifs (w_db (snd (send (snd (send (snd (search (snd (search w)))))))))))
    = [threshold_body lc_date cert 9 30; threshold_body lc_date cert 9 30].
Proof. vm_compute. by split_and!. Qed.


(** The run above renews: one version, a deployment job for the target, one notification. *)
Example server_renewal_runs :
  let rw := ProcessRenewalJob (X := toy_x509) lower_ascii lc_date lc_date (λ _, "uuid") (lc_svc "server") lc_job
              (lc_world (lc_cert CertificateStatusRenewalInProgress) [lc_job]) in
  fst rw = Ok tt ∧
  (cert_Status <$> is_certs (lf_iss (w_db (snd rw))) !! "mc-1") = Some CertificateStatusActive ∧
  size (is_versions (lf_iss (w_db (snd rw)))) = 1%nat ∧ size (db_jobs (is_store (lf_iss (w_db (snd rw))))) = 2%nat ∧
  size (lf_notifs (w_db (snd rw))) = 1%nat.
Proof. vm_compute. by split_and!. Qed.

Example scan_runs :
  let rw := CheckExpiringCertificates lower_ascii lc_date (lc_svc "server") (lc_world (lc_cert CertificateStatusActive) []) in
  fst rw = Ok tt ∧
  (cert_Status <$> is_certs (lf_iss (w_db (snd rw))) !! "mc-1") = Some CertificateStatusRenewalInProgress ∧
  size (db_jobs (is_store (lf_iss (w_db (snd rw))))) = 1%nat ∧
  (nt_Message <$> reverse (rows (lf_notifs (w_db (snd rw))))) =
    [threshold_body lc_date (lc_cert CertificateStatusActive) 9 30;
     threshold_body lc_date (lc_cert CertificateStatusActive) 9 14].
Proof. vm_compute. by split_and!. Qed.
