(* ===== verification/LifecycleScan.v ===== *)
(** * What the expiry scan leaves alone (Lifecycle.v)

    A certificate that is being renewed, revoked, archived, failed or expired when the scan
    loads it is not touched by any number of scans: no alert, no job, no change of status. *)

From Stdlib Require Import ZArith Lia Ascii String.
From stdpp Require Import prelude gmap strings list sorting pretty.
From S2P Require Import Prelude AuditTrail Store Transactions Jobs Approval GoBytes KeyCrypto AcmeWire CertStore Agents Notify NotifyFacts Lifecycle LifecycleFacts.
Import NotificationRepo NotificationService LifeRepo RenewalService.

Notation certs_of d := (is_certs (lf_iss d)).
Notation jobs_of d := (db_jobs (is_store (lf_iss d))).

(** ** Sparing a certificate *)
Definition keyed_certs (d : LifeDB) : Prop := map_Forall (λ k c, cert_ID c = k) (certs_of d).

(** The row of the certificate, its jobs and its notifications are those of [d0]. *)
Definition spared (id : string) (d0 d : LifeDB) : Prop :=
  certs_of d !! id = certs_of d0 !! id ∧
  (∀ k j, job_CertificateID j = id → jobs_of d !! k = Some j ↔ jobs_of d0 !! k = Some j) ∧
  (∀ k n, nt_CertificateID n = Some id → lf_notifs d !! k = Some n ↔ lf_notifs d0 !! k = Some n).

Definition sparing (id : string) (d0 d : LifeDB) : Prop := keyed_certs d ∧ spared id d0 d.

Lemma insert_other {A} (of_id : A → Prop) (m m0 : gmap string A) k x :
  (∀ j y, of_id y → m !! j = Some y ↔ m0 !! j = Some y) → ¬ of_id x → (∀ y, m !! k = Some y → ¬ of_id y) →
  ∀ j y, of_id y → <[k := x]> m !! j = Some y ↔ m0 !! j = Some y.
Proof.
  intros Hm Hx Hk j y Hy. destruct (decide (j = k)) as [->|Hne].
  - rewrite lookup_insert_eq. split; [intros [= ->]; done|]. intros H. apply Hm in H; [|done]. by destruct (Hk y H).
  - rewrite lookup_insert_ne by done. by apply Hm.
Qed.

Section sparing.
Context (id : string) (d0 : LifeDB).
Local Notation P := (sparing id d0).

Lemma sparing_audit d ev : P d → P (append_audit ev d).
Proof. done. Qed.

Lemma sparing_outbox d l : P d → P (mkLifeDB (lf_iss d) (lf_notifs d) l).
Proof. done. Qed.

(** Statements about other certificates. *)
Lemma sparing_CertUpdate c : cert_ID c ≠ id → hoare P (CertUpdate c) (λ _, P).
Proof.
  intros Hc. enough (∀ d, P d → P (set_iss (λ _, (CertRepo.cert_update c (lf_iss d)).2) d)) as H.
  { intros w Hw. unfold CertUpdate, on_iss, CertRepo.Update.
    destruct (sql_exec_cases "failed to update certificate" (CertRepo.cert_update c)
      (mkWorld (lf_iss (w_db w)) (w_env w))) as [E|E];
      destruct (sql_exec _ _ _) as [r w']; cbn in E |- *; rewrite E; [by destruct (w_db w)|by apply H]. }
  intros d [Hk (H1 & H2 & H3)]. unfold CertRepo.cert_update.
  destruct (certs_of d !! cert_ID c) as [old|] eqn:E; cbn; [|by destruct d]. split; [by apply map_Forall_insert_2|].
  split_and!; try done. cbn. unfold is_certs at 1. cbn. by rewrite lookup_insert_ne.
Qed.

Lemma sparing_JobCreate j : job_CertificateID j ≠ id → hoare P (on_db (JobRepo.JobRepository_Create j)) (λ _, P).
Proof.
  intros Hj w Hw. unfold on_db, on_iss, on_store. cbn.
  match goal with |- context [JobRepo.JobRepository_Create j ?x] => set (w1 := x) end.
  assert (∀ d', w_db (snd (JobRepo.JobRepository_Create j w1)) = d' →
    P (set_iss (λ _, set_store (λ _, d') (lf_iss (w_db w))) (w_db w))) as H.
  { intros d' <-. unfold JobRepo.JobRepository_Create.
    assert (∀ d, is_store (lf_iss (w_db w)) = d → P (set_iss (λ _, set_store (λ _, d) (lf_iss (w_db w))) (w_db w))) as Hid.
    { intros d <-. by destruct (w_db w) as [[]]. }
    match goal with |- context [sql_exec ?op ?f w1] => destruct (sql_exec_cases op f w1) as [E|E]; rewrite E end;
      [by apply Hid|]. unfold w1. cbn.
    destruct (jobs_of (w_db w) !! job_ID j) eqn:En; cbn; [by apply Hid|]. destruct (JobRepo.job_fk_ok _ j); cbn; [|by apply Hid].
    destruct Hw as [Hk (H1 & H2 & H3)]. split; [done|]. split_and!; try done. cbn.
    apply insert_other with (of_id := λ x, job_CertificateID x = id); [exact H2|done|]. intros y Hy. cbn in En. congruence. }
  destruct (JobRepo.JobRepository_Create j w1) as [r w']. by apply H.
Qed.

Lemma sparing_on_db_read {A} (m : M DB A) : pres eq m → hoare P (on_db m) (λ _, P).
Proof.
  intros H w Hw. unfold on_db, on_iss, on_store. cbn. specialize (H (mkWorld (is_store (lf_iss (w_db w))) (w_env w))).
  destruct (m _) as [a w']. cbn in *. rewrite <-H. by destruct (w_db w) as [[]].
Qed.

Lemma sparing_on_iss_read {A} (m : M IssuanceDB A) : pres eq m → hoare P (on_iss m) (λ _, P).
Proof.
  intros H w Hw. unfold on_iss. specialize (H (mkWorld (lf_iss (w_db w)) (w_env w))).
  destruct (m _) as [a w']. cbn in *. rewrite <-H. by destruct (w_db w).
Qed.

(** A notification about another certificate: its row is made and updated. *)
Lemma sparing_update op nid f (row : LifeDB → Prop) :
  (∀ d, row d ↔ ∃ n, lf_notifs d !! nid = Some n ∧ nt_CertificateID n ≠ Some id) →
  (∀ n, nt_CertificateID (f n) = nt_CertificateID n) →
  hoare (λ d, P d ∧ row d) (update_row op nid f) (λ _ d, P d ∧ row d).
Proof.
  intros Hrow Hf.
  assert (∀ d, P d ∧ row d →
    let d' := match lf_notifs d !! nid with None => d | Some n => set_notifs (<[nid := f n]>) d end in P d' ∧ row d') as H.
  { intros d [[Hk (H1 & H2 & H3)] Hr]. apply Hrow in Hr as (n & Hn & Hne). rewrite Hn. cbn. split.
    - split; [done|]. split_and!; try done. cbn.
      apply insert_other with (of_id := λ n, nt_CertificateID n = Some id); [exact H3|by rewrite Hf|].
      intros y Hy. by simplify_eq.
    - apply Hrow. exists (f n). cbn. rewrite lookup_insert_eq, Hf. done. }
  apply hoare_exec; [|done|]; intros d Hd; specialize (H d Hd); by destruct (lf_notifs d !! nid).
Qed.

Lemma sparing_sendNotification sv n :
  hoare (λ d, P d ∧ ∃ row, lf_notifs d !! nt_ID n = Some row ∧ nt_CertificateID row ≠ Some id)
    (sendNotification sv n) (λ _, P).
Proof.
  assert (∀ st t, hoare (λ d, P d ∧ ∃ row, lf_notifs d !! nt_ID n = Some row ∧ nt_CertificateID row ≠ Some id)
    (UpdateStatus (nt_ID n) st t) (λ _, P)) as Hu.
  { intros st t. eapply hoare_post; [by apply sparing_update|]. by intros ? d []. }
  unfold sendNotification. hkeep.
  - hkeep; [by apply hoare_Send|]. hkeep; [hkeep; [by hkeep|]|]; (eapply hoare_bind; [apply Hu|]; intros; by hkeep).
  - hkeep; [by hkeep|]. eapply hoare_bind; [apply Hu|]. intros. by hkeep.
Qed.

Lemma sparing_notify sv ctx type ch msg cert :
  cert_ID cert ≠ id → hoare P (notify sv ctx type ch msg cert) (λ _, P).
Proof.
  intros Hc. unfold notify. hkeep; [by hkeep|].
  hkeep. { unfold resolveRecipient. hkeep; [by hkeep|]. hkeep; [|by hkeep]. apply sparing_on_db_read.
    unfold OwnerRepository_Get. repeat pres_step. }
  hkeep; [by hkeep|]. cbv zeta. set (n := mkNotification _ _ _ _ _ _ _ _ _ _ _ _ _).
  apply hoare_bind with (λ r d, P d ∧ (r = Ok tt → ∃ row, lf_notifs d !! nt_ID n = Some row ∧
    nt_CertificateID row ≠ Some id)).
  - assert (∀ d, P d → insert_ok d n = true → let d' := set_notifs (<[nt_ID n := inserted n]>) d in
      P d' ∧ ∃ row, lf_notifs d' !! nt_ID n = Some row ∧ nt_CertificateID row ≠ Some id) as H.
    { intros d [Hk (H1 & H2 & H3)] Hi. unfold insert_ok in Hi. apply andb_true_iff in Hi as [Hi _].
      apply bool_decide_eq_true in Hi. split.
      - split; [done|]. split_and!; try done. cbn.
        apply insert_other with (of_id := λ n, nt_CertificateID n = Some id); [exact H3|cbn; congruence|].
        intros y Hy. cbn in Hi, Hy. congruence.
      - exists (inserted n). cbn. rewrite lookup_insert_eq. split; [done|]. congruence. }
    apply hoare_exec; [| by intros d Hd|]; intros d Hd; specialize (H d Hd); destruct (insert_ok d n); cbn; try done.
    all: destruct (H eq_refl); by split.
  - intros [[]|e]; [|apply hoare_ret; by intros d []].
    eapply hoare_conseq; [apply sparing_sendNotification| |done]. intros d [Hd Hr]. split; [done|by apply Hr].
Qed.

Section scan.
Variable ToLower : string → string.
Variable formatDate : Z → string.
Variable s : RenewalSvc.

Ltac spare_walk :=
  repeat first
    [ hkeep | done | by apply hoare_audit_keeps
    | by apply sparing_CertUpdate | by apply sparing_JobCreate
    | apply sparing_on_db_read; unfold JobRepo.JobRepository_ListByCertificate; by repeat pres_step
    | apply sparing_on_iss_read; unfold CertRepo.GetLatestVersion; by repeat pres_step ].

Lemma sparing_for_each {A} (l : list A) (body : A → M LifeDB unit) :
  (∀ x, hoare P (body x) (λ _, P)) → hoare P (for_each l body) (λ _, P).
Proof.
  intros H. induction l as [|x l IH]; cbn; [by apply hoare_ret|].
  apply hoare_bind with (λ _, P); [apply H|]. by intros _.
Qed.

Lemma sparing_alerts cert days ts policy :
  cert_ID cert ≠ id → hoare P (sendThresholdAlerts ToLower formatDate s cert days ts policy) (λ _, P).
Proof.
  intros Hc. apply sparing_for_each. intros t. unfold alert_threshold. hkeep; [by hkeep|]. cbv zeta.
  case_match; [unfold record; spare_walk|]. apply sparing_for_each. intros ch. unfold alert_on. cbv zeta.
  case_match; [unfold record; spare_walk|].
  hkeep. { unfold HasThresholdNotificationOnChannel. hkeep; [apply List_reads|by hkeep]. }
  hkeep; [|by hkeep]. hkeep; [by hkeep|].
  hkeep; [|unfold record; spare_walk]. unfold SendThresholdAlertOnChannel. hkeep; [by hkeep|by apply sparing_notify].
Qed.

Lemma sparing_scan_other cache cert :
  cert_ID cert ≠ id → hoare P (scan_cert ToLower formatDate s cache cert) (λ _, P).
Proof.
  intros Hc. unfold scan_cert, lookup_policy, PolicyGet. hkeep; [by hkeep|]. hkeep; [by hkeep|]. cbv zeta.
  hkeep; [by repeat hkeep|]. hkeep.
  apply hoare_bind with (λ c d, P d ∧ cert_ID c = cert_ID cert).
  { unfold updateCertExpiryStatus. cbv zeta. set (ns := if _ <=? 0 then _ else _).
    do 2 (case_match; [apply hoare_ret; by intros|]).
    apply hoare_bind with (λ _, P); [by apply sparing_CertUpdate|]. intros. apply hoare_ret. by intros. }
  intros c'. intros w [Hw Hid]. revert w Hw.
  change (hoare P (_ ← sendThresholdAlerts ToLower formatDate s c' (Z.quot (sat64 (cert_ExpiresAt cert - a)) day)
    match o with Some p1 => Policy.EffectiveAlertThresholds p1 | None => Policy.DefaultAlertThresholds end o;
    _ ← renew_if_due ToLower s c' (sat64 (cert_ExpiresAt cert - a)); mret p) (λ _, P)).
  rewrite <-Hid in Hc. hkeep; [by apply sparing_alerts|]. hkeep; [|by hkeep].
  unfold renew_if_due, ari_check, create_renewal_job, call, record. spare_walk.
Qed.

Lemma sparing_scan_all cache certs :
  Forall (λ c : ManagedCertificate * list string, cert_ID c.1 = id → skipped (cert_Status c.1) = true) certs →
  hoare P (scan_all ToLower formatDate s cache certs) (λ _, P).
Proof.
  intros H. revert cache. induction H as [|c certs Hc _ IH]; intros cache; cbn; [by apply hoare_ret|].
  apply hoare_bind with (λ _, P); [|intros x; apply IH].
  destruct (decide (cert_ID c.1 = id)) as [E|E]; [|by apply sparing_scan_other]. unfold scan_cert. rewrite Hc by done. by hkeep.
Qed.
End scan.
End sparing.

(** Any number of scans, one after the other. *)
Definition scans (ToLower : string → string) (formatDate : Z → string) (s : RenewalSvc) (n : nat) : M LifeDB unit :=
  for_each (seq 0 n) (λ _, _ ← CheckExpiringCertificates ToLower formatDate s; mret tt).

Lemma sparing_scan ToLower formatDate s id c d0 :
  certs_of d0 !! id = Some c → skipped (cert_Status c) = true →
  hoare (sparing id d0) (CheckExpiringCertificates ToLower formatDate s) (λ _, sparing id d0).
Proof.
  intros Hc Hs. unfold CheckExpiringCertificates. hkeep; [by hkeep|].
  set (pick := λ c : ManagedCertificate * list string, cert_ID c.1 = id → skipped (cert_Status c.1) = true).
  apply hoare_bind with (λ r d, sparing id d0 d ∧ ∀ l, r = Ok l → Forall pick l).
  - unfold GetExpiringCertificates.
    apply hoare_bind with (λ r d, sparing id d0 d ∧ ∀ l, r = Ok l →
      Forall (λ c, cert_ID c = id → skipped (cert_Status c) = true) l).
    + apply hoare_query; intros d Hd; split; try done. intros l [= <-]. apply Forall_forall. intros x Hx Hxid.
      rewrite merge_sort_Permutation in Hx. apply list_elem_of_filter in Hx as [_ [k Hk]%elem_of_rows].
      destruct Hd as [Hkey (H1 & _)]. pose proof (Hkey _ _ Hk) as Hkx. cbn in Hkx. subst k. rewrite Hxid in Hk.
      rewrite Hk, Hc in H1. by simplify_eq.
    + intros [[|x l]|e]; [apply hoare_ret; intros d []; split; [done|]; by intros ? [= <-]| |apply hoare_ret; by intros d []].
      apply hoare_bind with (λ r d, sparing id d0 d ∧ ∀ l, r = Ok l → Forall pick l); [|intros r; apply hoare_ret; done].
      apply hoare_query; intros d [Hd Hl]; split; try done. intros ? [= <-].
      change (Forall pick ((λ c, (c, target_ids (cert_ID c) (lf_iss d))) <$> (x :: l))).
      apply Forall_fmap. eapply Forall_impl; [by apply Hl|]. done.
  - intros [l|e]; [|apply hoare_ret; by intros d []].
    intros w [Hd Hl]. revert w Hd. change (hoare (sparing id d0) (_ ← scan_all ToLower formatDate s ∅ l; mret (Ok tt))
      (λ _, sparing id d0)). hkeep; [by apply sparing_scan_all, Hl|by hkeep].
Qed.

(** A certificate that is being renewed (or revoked, archived, failed or expired) is out of
    reach of the expiry scan: however many scans run, wherever statements fail, its row, its
    jobs and its notifications stay exactly as they are.  A renewal that failed for good
    leaves the status "RenewalInProgress", which nothing resets, so from then on the
    certificate expires without an alert and without another attempt. *)
Theorem scan_never_revisits ToLower formatDate s n id c w :
  keyed_certs (w_db w) → certs_of (w_db w) !! id = Some c → skipped (cert_Status c) = true →
  spared id (w_db w) (w_db (snd (scans ToLower formatDate s n w))).
Proof.
  intros Hk Hc Hs. set (d0 := w_db w). change (certs_of d0 !! id = Some c) in Hc.
  enough (hoare (sparing id d0) (scans ToLower formatDate s n) (λ _, sparing id d0)) as H.
  { destruct (H w) as [_ H']; [|exact H']. split; [done|]. split_and!; done. }
  apply sparing_for_each. intros _. hkeep; [by eapply sparing_scan|by hkeep].
Qed.

Example scan_never_revisits_witness :
  spared "mc-1" (lc_db (lc_cert CertificateStatusRenewalInProgress) [])
    (w_db (snd (scans lower_ascii lc_date (lc_svc "server") 3 (lc_world (lc_cert CertificateStatusRenewalInProgress) [])))).
Proof.
  apply (scan_never_revisits lower_ascii lc_date (lc_svc "server") 3 "mc-1" (lc_cert CertificateStatusRenewalInProgress)
    (lc_world (lc_cert CertificateStatusRenewalInProgress) [])).
  - apply map_Forall_singleton. done.
  - apply lookup_singleton_eq.
  - done.
Defined.
