(* ===== verification/LifecycleCsr.v ===== *)
(** * CSRs and dispatch (Lifecycle.v)

    With the judgement [ehoare] of EnvLogic.v: nothing is dispatched to an agent that is
    retired or silent, the key rules of a profile hold for every version an agent's CSR
    produces, and a CSR makes a certificate of any status active. *)

From Stdlib Require Import ZArith Lia Ascii String.
From stdpp Require Import prelude gmap strings list sorting pretty.
From S2P Require Import Prelude AuditTrail Store Transactions EnvLogic Jobs Approval GoBytes KeyCrypto AcmeWire CertStore Agents Notify NotifyFacts Lifecycle LifecycleFacts.
Import NotificationRepo NotificationService CsrCheck LifeRepo RenewalService.

(** ** Time passes *)
Lemma elapsed_on_iss {A} (m : M IssuanceDB A) : wpres elapsed m → wpres elapsed (on_iss m).
Proof.
  intros H w. unfold on_iss. specialize (H (mkWorld (lf_iss (w_db w)) (w_env w))). by destruct (m _).
Qed.

Lemma elapsed_on_db {A} (m : M DB A) : wpres elapsed m → wpres elapsed (on_db m).
Proof.
  intros H. apply elapsed_on_iss. intros w. unfold on_store.
  specialize (H (mkWorld (is_store (w_db w)) (w_env w))). by destruct (m _).
Qed.

Lemma elapsed_Send ch n r su b : wpres elapsed (Send ch n r su b).
Proof. intros w. unfold Send, elapsed. mrun. split_and!; cbn; [lia|lia|done]. Qed.

Ltac etime :=
  repeat first
    [ simple apply elapsed_exec | wstep | simple apply elapsed_RecordEvent | simple apply elapsed_Send
    | simple apply elapsed_on_db | simple apply elapsed_on_iss | simple apply elapsed_for_each; intros ? ].

Lemma elapsed_notify sv ctx type ch msg cert : wpres elapsed (notify sv ctx type ch msg cert).
Proof.
  unfold notify, resolveRecipient, OwnerRepository_Get, Create, sendNotification, UpdateStatus, update_row, generateID. etime.
Qed.

Lemma elapsed_CertGet id : wpres elapsed (CertGet id).
Proof. unfold CertGet, CertificateRepository_Get, getTargetIDs. etime. Qed.

Lemma elapsed_JobStatus id st msg : wpres elapsed (on_db (JobRepo.JobRepository_UpdateStatus id st msg)).
Proof. apply elapsed_on_db. unfold JobRepo.JobRepository_UpdateStatus. etime. Qed.

(** ** Nothing is dispatched to a dead agent *)

(** The agent of the job's target is retired, or has been silent for five minutes at [c]. *)
Definition dead_agent (c : Z) (job : Job) (d : LifeDB) : Prop :=
  ∃ tid target agent, job_TargetID job = Some tid ∧ db_targets (is_store (lf_iss d)) !! tid = Some target ∧
    db_agents (is_store (lf_iss d)) !! target_AgentID target = Some agent ∧
    (IsRetired agent = true ∨
     ∃ hb, agent_LastHeartbeatAt agent = Some hb ∧ 5 * JobService.minute < c - hb).

Definition dispatched (job : Job) (ev : AuditEvent) : Prop :=
  ae_Action ev = "deployment_job_dispatched" ∧ ae_ResourceID ev = job_CertificateID job.

(** Agents, targets and dispatch events stay as they are. *)
Definition no_dispatch (job : Job) (d d' : LifeDB) : Prop :=
  db_targets (is_store (lf_iss d')) = db_targets (is_store (lf_iss d)) ∧
  db_agents (is_store (lf_iss d')) = db_agents (is_store (lf_iss d)) ∧
  ∃ new, is_audit (lf_iss d') = is_audit (lf_iss d) ++ new ∧ Forall (λ ev, ¬ dispatched job ev) new.

#[global] Instance no_dispatch_preorder job : PreOrder (no_dispatch job).
Proof.
  split.
  - intros d. split_and!; try done. exists []. by rewrite app_nil_r.
  - intros d1 d2 d3 (A1 & A2 & n1 & A3 & A4) (B1 & B2 & n2 & B3 & B4). split_and!; [congruence..|].
    exists (n1 ++ n2). rewrite B3, A3, <-app_assoc. split; [done|]. by apply Forall_app.
Qed.

Lemma nd_same job d d' :
  db_targets (is_store (lf_iss d')) = db_targets (is_store (lf_iss d)) →
  db_agents (is_store (lf_iss d')) = db_agents (is_store (lf_iss d)) →
  is_audit (lf_iss d') = is_audit (lf_iss d) → no_dispatch job d d'.
Proof. intros H1 H2 H3. split_and!; try done. exists []. rewrite H3. by rewrite app_nil_r. Qed.

Lemma nd_RecordEvent job TL a at_ act rt ri det :
  act ≠ "deployment_job_dispatched" → pres (no_dispatch job) (RecordEvent TL a at_ act rt ri det).
Proof.
  intros Hact w. destruct (hoare_RecordEvent TL a at_ act rt ri det (w_db w) w eq_refl) as [[->|(ev & Hev & ->)] _]; [done|].
  split_and!; try done. exists [ev]. split; [done|]. apply Forall_singleton. intros [H _]. destruct Hev as (_ & _ & Ha & _).
  congruence.
Qed.

Lemma nd_on_db {A} job (m : M DB A) :
  pres (λ d d', db_targets d' = db_targets d ∧ db_agents d' = db_agents d ∧ db_audit d' = db_audit d) m →
  pres (no_dispatch job) (on_db m).
Proof.
  intros H w. unfold on_db, on_iss, on_store. cbn. specialize (H (mkWorld (is_store (lf_iss (w_db w))) (w_env w))).
  destruct (m _) as [a w']. cbn in *. destruct H as (H1 & H2 & H3). by apply nd_same.
Qed.

Definition dispatch_frame (d d' : DB) : Prop :=
  db_targets d' = db_targets d ∧ db_agents d' = db_agents d ∧ db_audit d' = db_audit d.
#[global] Instance dispatch_frame_preorder : PreOrder dispatch_frame.
Proof. split; [done|]. intros d1 d2 d3 (A1 & A2 & A3) (B1 & B2 & B3). split_and!; congruence. Qed.

Lemma nd_JobStatus job id st msg : pres (no_dispatch job) (on_db (JobRepo.JobRepository_UpdateStatus id st msg)).
Proof.
  apply nd_on_db. change (pres dispatch_frame (JobRepo.JobRepository_UpdateStatus id st msg)).
  unfold JobRepo.JobRepository_UpdateStatus. cbv zeta. destruct (JobRepo.terminal_status st); repeat pres_step;
    unfold JobRepo.set_row; case_match; done.
Qed.

Lemma nd_read {A} job (m : M DB A) : pres eq m → pres (no_dispatch job) (on_db m).
Proof. intros H. apply nd_on_db. intros w. by rewrite <-(H w). Qed.

Lemma nd_notify job sv ctx type ch msg cert : pres (no_dispatch job) (notify sv ctx type ch msg cert).
Proof.
  unfold notify, resolveRecipient, Create, sendNotification, UpdateStatus, update_row, generateID.
  repeat first [pres_step | apply nd_read; unfold OwnerRepository_Get; by repeat pres_step | intros w; unfold Send; mrun; by apply nd_same];
    case_match; by apply nd_same.
Qed.

Lemma nd_CertGet job id : pres (no_dispatch job) (CertGet id).
Proof.
  unfold CertGet, getTargetIDs. repeat first [pres_step | apply nd_read; unfold CertificateRepository_Get; by repeat pres_step].
Qed.

Section dispatch.
Variable ToLower : string → string.
Variable sv : NotificationSvc.
Import DeploymentService.

Lemma nd_fail job msg : pres (no_dispatch job) (fail job msg).
Proof. unfold fail. pres_step; [apply nd_JobStatus|pres_step]. Qed.

Lemma elapsed_fail job msg : wpres elapsed (fail job msg).
Proof. unfold fail. wstep; [apply elapsed_JobStatus|wstep]. Qed.

Lemma nd_refuse job cert target msg reason det e :
  pres (no_dispatch job) (refuse ToLower sv job cert target msg reason det e).
Proof.
  unfold refuse, record, SendDeploymentNotification.
  repeat first [pres_step | apply nd_fail | apply nd_notify | by apply nd_RecordEvent].
Qed.

Lemma elapsed_refuse job cert target msg reason det e :
  wpres elapsed (refuse ToLower sv job cert target msg reason det e).
Proof.
  unfold refuse, record, SendDeploymentNotification.
  repeat first [apply elapsed_fail | apply elapsed_notify | apply elapsed_RecordEvent | wstep].
Qed.

Lemma ehoare_pres {A} E `{!EnvStable E} (R : relation LifeDB) `{!PreOrder R} d0 (m : M LifeDB A) :
  pres R m → wpres elapsed m → ehoare E (R d0) m (λ _, R d0).
Proof. intros H Hm. apply ehoare_of; [done| |done]. intros w Hw. etransitivity; [exact Hw|apply H]. Qed.

(** Leaving with an error. *)
Lemma ehoare_leave {A} E `{!EnvStable E} job d0 (m : M LifeDB A) (e : error) :
  pres (no_dispatch job) m → wpres elapsed m →
  ehoare E (no_dispatch job d0) (m ≫= λ _, mret (Err e)) (λ (r : res unit) d, no_dispatch job d0 d ∧ r ≠ Ok tt).
Proof.
  intros H1 H2. eapply ehoare_bind; [by apply ehoare_pres; [done|apply _|..]|]. intros a. by apply ehoare_ret.
Qed.

Lemma ehoare_refuse E `{!EnvStable E} job d0 cert target msg reason det e :
  ehoare E (no_dispatch job d0) (refuse ToLower sv job cert target msg reason det e)
    (λ r d, no_dispatch job d0 d ∧ r ≠ Ok tt).
Proof.
  intros w HE Hw. destruct (ehoare_pres E (no_dispatch job) d0 _ (nd_refuse job cert target msg reason det e)
    (elapsed_refuse _ _ _ _ _ _ _) w HE Hw) as [H1 H2]. split_and!; [done|done|].
  unfold refuse, mbind, M_bind, mret, M_ret. by repeat case_match.
Qed.

Lemma ehoare_TargetGet E `{!EnvStable E} job d0 tid target :
  db_targets (is_store (lf_iss d0)) !! tid = Some target →
  ehoare E (no_dispatch job d0) (TargetGet tid)
    (λ r d, no_dispatch job d0 d ∧ ∀ t, r = Ok t → t = scanTarget target).
Proof.
  intros Ht. apply ehoare_of; [done| |unfold TargetGet; etime]. unfold TargetGet.
  apply hoare_bind with (λ r d, no_dispatch job d0 d ∧ ∀ o, r = Ok o → o = Some target).
  - apply hoare_query; intros d Hd; split; try done. intros o [= <-]. destruct Hd as (-> & _). done.
  - intros [o|e]; apply hoare_ret; intros d [Hd H]; split; try done. rewrite (H o eq_refl). by intros t [= <-].
Qed.

Lemma ehoare_AgentGet E `{!EnvStable E} job d0 id agent :
  db_agents (is_store (lf_iss d0)) !! id = Some agent →
  ehoare E (no_dispatch job d0) (on_db (AgentRepository_Get id))
    (λ r d, no_dispatch job d0 d ∧ ∀ a, r = Ok a → a = agent).
Proof.
  intros Ha. apply ehoare_of; [done| |unfold AgentRepository_Get; etime]. intros w Hw. split.
  - etransitivity; [exact Hw|]. apply nd_read. unfold AgentRepository_Get. repeat pres_step.
  - destruct Hw as (_ & H & _). unfold on_db, on_iss, on_store, AgentRepository_Get, sql_query, next_fault, mbind, M_bind,
      get_db, mret, M_ret. cbn. intros a. destruct (env_faults (w_env w)) as [|[| |]]; cbn; try done; rewrite H, Ha; by intros [= <-].
Qed.

(** A deployment is never dispatched to a dead agent.  If the agent of the job's target is
    retired, or was last heard of more than five minutes before processing starts, then
    wherever statements fail the processor returns an error and writes no dispatch event. *)
Theorem dead_agent_gets_nothing job w :
  dead_agent (clock w) job (w_db w) →
  let rw := ProcessDeploymentJob ToLower sv job w in
  fst rw ≠ Ok tt ∧ no_dispatch job (w_db w) (w_db (snd rw)).
Proof.
  intros (tid & target & agent & Hj & Ht & Ha & Hdead). set (d0 := w_db w) in *. set (c := clock w) in *.
  enough (ehoare (after c) (no_dispatch job d0) (ProcessDeploymentJob ToLower sv job)
    (λ r d, no_dispatch job d0 d ∧ r ≠ Ok tt)) as H.
  { destruct (H w) as [_ [H1 H2]]; [unfold after, c, clock; lia|unfold d0; reflexivity|]. by split. }
  unfold ProcessDeploymentJob.
  eapply ehoare_bind; [apply ehoare_pres; [apply _|apply _|apply nd_JobStatus|apply elapsed_JobStatus]|].
  intros [[]|e]; [|by apply ehoare_ret].
  eapply ehoare_bind; [apply ehoare_pres; [apply _|apply _|apply nd_CertGet|apply elapsed_CertGet]|].
  intros [[cert tids]|e]; [|apply ehoare_leave; [apply _|apply nd_fail|apply elapsed_fail]].
  rewrite Hj. cbn [default]. case_match; [apply ehoare_leave; [apply _|apply nd_fail|apply elapsed_fail]|].
  eapply ehoare_bind; [by apply ehoare_TargetGet; [apply _|]|].
  intros [t|e]; [|eapply ehoare_conseq; [apply ehoare_leave; [apply _|apply nd_fail|apply elapsed_fail]|by intros d []|done]].
  apply (ehoare_pre _ (λ d, no_dispatch job d0 d ∧ t = scanTarget target)); [intros d [? HH]; split; [done|by apply HH]|].
  apply ehoare_pure. intros ->. cbn [target_AgentID scanTarget].
  eapply ehoare_bind; [by apply ehoare_AgentGet; [apply _|]|].
  intros [a|e]; [|eapply ehoare_conseq; [apply ehoare_leave; [apply _|apply nd_fail|apply elapsed_fail]|by intros d []|done]].
  apply (ehoare_pre _ (λ d, no_dispatch job d0 d ∧ a = agent)); [intros d [? HH]; split; [done|by apply HH]|].
  apply ehoare_pure. intros ->.
  destruct (IsRetired agent) eqn:Er; [apply ehoare_refuse, _|].
  destruct Hdead as [Hd|(hb & Hhb & Hold)]; [congruence|]. rewrite Hhb.
  apply ehoare_bind with (λ o d, no_dispatch job d0 d ∧ ∃ t, o = Some t ∧ c ≤ t).
  { eapply ehoare_bind; [apply ehoare_now|]. intros t. apply ehoare_ret. intros d []. split; [done|]. by exists t. }
  intros o. apply ehoare_pure. intros (t & -> & Hct).
  assert (5 * JobService.minute <? sat64 (t - hb) = true) as ->; [|apply ehoare_refuse, _].
  apply Z.ltb_lt. unfold sat64, JobService.minute in *. lia.
Qed.
End dispatch.

Example dead_agent_gets_nothing_witness :
  let j := mkJob "job-2" JobTypeDeployment "mc-1" (Some "tg-1") (Some "ag-1") JobStatusPending 0 3 None 0 None None 0
             "pending" None None None in
  let w := mkWorld (lc_db (lc_cert CertificateStatusActive) [j]) (mkEnv (6 * JobService.minute) [] [] 0) in
  fst (DeploymentService.ProcessDeploymentJob lower_ascii (mkNotificationSvc false ∅) j w) ≠ Ok tt.
Proof.
  intros j w. apply (dead_agent_gets_nothing lower_ascii (mkNotificationSvc false ∅) j w).
  exists "tg-1", (mkTarget "tg-1" "web" "ag-1" None None 0), (lc_agent None).
  split_and!; [done|apply lookup_singleton_eq|apply lookup_singleton_eq|]. right. exists 0. by split.
Defined.

(** ** What a CSR brings about *)
Definition steady (d d' : LifeDB) : Prop :=
  is_certs (lf_iss d') = is_certs (lf_iss d) ∧ is_versions (lf_iss d') = is_versions (lf_iss d) ∧
  db_profiles (is_store (lf_iss d')) = db_profiles (is_store (lf_iss d)).
#[global] Instance steady_preorder : PreOrder steady.
Proof. split; [done|]. intros d1 d2 d3 (A1 & A2 & A3) (B1 & B2 & B3). split_and!; congruence. Qed.

Lemma steady_read {A} (m : M DB A) : pres eq m → pres steady (on_db m).
Proof.
  intros H w. unfold on_db, on_iss, on_store. cbn. specialize (H (mkWorld (is_store (lf_iss (w_db w))) (w_env w))).
  destruct (m _) as [a w']. cbn in *. by rewrite <-H.
Qed.

Definition steady_db (d d' : DB) : Prop := db_certs d' = db_certs d ∧ db_profiles d' = db_profiles d.
#[global] Instance steady_db_preorder : PreOrder steady_db.
Proof. split; [done|]. intros d1 d2 d3 (A1 & A2) (B1 & B2). split; congruence. Qed.

Lemma steady_on_db {A} (m : M DB A) : pres steady_db m → pres steady (on_db m).
Proof.
  intros H w. unfold on_db, on_iss, on_store. cbn. specialize (H (mkWorld (is_store (lf_iss (w_db w))) (w_env w))).
  destruct (m _) as [a w']. destruct H as [H1 H2]. by split_and!.
Qed.

Lemma steady_JobStatus id st msg : pres steady (on_db (JobRepo.JobRepository_UpdateStatus id st msg)).
Proof.
  apply steady_on_db. unfold JobRepo.JobRepository_UpdateStatus. cbv zeta.
  destruct (JobRepo.terminal_status st); repeat pres_step; unfold JobRepo.set_row; case_match; done.
Qed.

Lemma steady_JobCreate j : pres steady (on_db (JobRepo.JobRepository_Create j)).
Proof. apply steady_on_db. unfold JobRepo.JobRepository_Create. pres_step. repeat case_match; done. Qed.

Lemma steady_RecordEvent TL a at_ act rt ri det : pres steady (RecordEvent TL a at_ act rt ri det).
Proof.
  intros w. by destruct (hoare_RecordEvent TL a at_ act rt ri det (w_db w) w eq_refl) as [[->|(ev & _ & ->)] _].
Qed.

Lemma steady_notify sv ctx type ch msg cert : pres steady (notify sv ctx type ch msg cert).
Proof.
  unfold notify, resolveRecipient, Create, sendNotification, UpdateStatus, update_row, generateID.
  repeat first [pres_step | apply steady_read; unfold OwnerRepository_Get; by repeat pres_step
               | intros w; unfold Send; mrun; done]; case_match; done.
Qed.

Section csr.
Context `{X : X509}.
Variable ToLower : string → string.
Variable formatDate jsonTime : Z → string.
Variable rs : option RenewalSvc.
Variable registry : IssuerRegistry.
Hypothesis Hrs : ∀ s, rs = Some s → rn_profileRepo s = true.

Lemma steady_createDeploymentJobs s cert tids : pres steady (createDeploymentJobs s cert tids).
Proof.
  unfold createDeploymentJobs. case_match.
  - unfold TargetListByCertificate, create_deployment_job, generateID. repeat first [pres_step | apply steady_JobCreate].
  - pres_step; [|unfold create_deployment_job, generateID; repeat first [pres_step | apply steady_JobCreate]].
    generalize (s0 :: l). intros k. induction k as [|x k IH]; cbn; [pres_step|].
    unfold resolve_target, TargetGet. repeat first [pres_step | exact IH].
Qed.

Lemma elapsed_createDeploymentJobs s cert tids : wpres elapsed (createDeploymentJobs s cert tids).
Proof.
  unfold createDeploymentJobs. case_match.
  - unfold TargetListByCertificate, create_deployment_job, JobRepo.JobRepository_Create, generateID. etime.
  - wstep; [|unfold create_deployment_job, JobRepo.JobRepository_Create, generateID; etime].
    generalize (s0 :: l). intros k. induction k as [|x k IH]; cbn; [wstep|].
    unfold resolve_target, TargetGet. repeat first [exact IH | wstep].
Qed.

Lemma steady_finish s job cert tids : pres steady (finish_renewal formatDate s job cert tids).
Proof.
  unfold finish_renewal, SendRenewalNotification.
  repeat first [pres_step | apply steady_JobStatus | apply steady_createDeploymentJobs | apply steady_notify].
Qed.
Lemma elapsed_finish s job cert tids : wpres elapsed (finish_renewal formatDate s job cert tids).
Proof.
  unfold finish_renewal, SendRenewalNotification.
  repeat first [apply elapsed_JobStatus | apply elapsed_createDeploymentJobs | apply elapsed_notify | wstep].
Qed.

(** The profile the lookups find when no statement fails. *)
Definition profile_in (d : LifeDB) (c : ManagedCertificate) : option CertificateProfile :=
  if bool_decide (cert_CertificateProfileID c = "") then None
  else ProfileRepo.scanProfile <$> db_profiles (is_store (lf_iss d)) !! cert_CertificateProfileID c.

Lemma ehoare_profile d0 c :
  ehoare no_faults (steady d0) (AgentCsr.agent_profile true c) (λ r d, steady d0 d ∧ r = profile_in d0 c).
Proof.
  intros w HE (H1 & H2 & H3). unfold AgentCsr.agent_profile, profile_in. rewrite andb_true_r.
  destruct (bool_decide (cert_CertificateProfileID c = "")); cbn [negb]; [by split|].
  unfold no_faults in HE. unfold on_db, on_iss, on_store, ProfileRepo.ProfileRepository_Get, sql_query, next_fault, mbind, M_bind,
    get_db, mret, M_ret. cbn. rewrite HE. cbn. rewrite H3. split; [done|]. split; [by destruct (w_db w) as [[]]|].
  by destruct (db_profiles _ !! _).
Qed.

Lemma profile_of_agent s c : rn_profileRepo s = true → profile_of s c = AgentCsr.agent_profile true c.
Proof. intros H. unfold profile_of, AgentCsr.agent_profile. by rewrite H. Qed.

(** New versions belong to the certificate, carry the CSR and the key that was checked; and
    success with an issuer leaves the certificate active. *)
Definition versions_checked (certID csrPEM : string) (prof : option CertificateProfile) (d0 d : LifeDB) : Prop :=
  ∀ k v, is_versions (lf_iss d) !! k = Some v → is_versions (lf_iss d0) !! k = Some v ∨
    cv_CertificateID v = certID ∧ cv_CSRPEM v = csrPEM ∧
    ValidateCSRAgainstProfile csrPEM prof = Ok (mkCSRResult (cv_KeyAlgorithm v) (cv_KeySize v)).

Definition made_active (certID : string) (c : ManagedCertificate) (d : LifeDB) : Prop :=
  ∃ c', is_certs (lf_iss d) !! certID = Some c' ∧ cert_Status c' = CertificateStatusActive ∧
        cert_RevokedAt c' = cert_RevokedAt c.

Lemma versions_checked_refl certID csr prof d0 d : steady d0 d → versions_checked certID csr prof d0 d.
Proof. intros (_ & H & _) k v. rewrite H. auto. Qed.

Lemma versions_checked_steady certID csr prof d0 d d' :
  versions_checked certID csr prof d0 d → is_versions (lf_iss d') = is_versions (lf_iss d) →
  versions_checked certID csr prof d0 d'.
Proof. intros H E k v. rewrite E. apply H. Qed.

Section outcome.
Variables (certID csrPEM : string) (c : ManagedCertificate) (d0 : LifeDB).
Hypothesis Hc : is_certs (lf_iss d0) !! certID = Some c.
Hypothesis Hid : cert_ID c = certID.

Notation prof := (profile_in d0 c).
Notation checked := (versions_checked certID csrPEM prof d0).

(** The postcondition of a submission. *)
Definition outcome (r : res unit) (d : LifeDB) : Prop := checked d ∧ (r = Ok tt → made_active certID c d).

Lemma outcome_err e d : steady d0 d → outcome (Err e) d.
Proof. intros H. split; [by apply versions_checked_refl|done]. Qed.

Lemma outcome_frame {A} (m : M LifeDB A) r :
  pres steady m → wpres elapsed m → ehoare no_faults (outcome r) m (λ _, outcome r).
Proof.
  intros H1 H2. apply ehoare_of; [apply _| |done]. intros w [Hv Ha]. destruct (H1 w) as (E1 & E2 & _). split.
  - by eapply versions_checked_steady.
  - intros Hr. unfold made_active. rewrite E1. by apply Ha.
Qed.

Lemma ehoare_store_version vid info result t :
  ValidateCSRAgainstProfile csrPEM prof = Ok info →
  ehoare no_faults (steady d0)
    (CreateVersion (version_of vid certID csrPEM (kv_KeyAlgorithm info) (kv_KeySize info) result t))
    (λ _ d, is_certs (lf_iss d) = is_certs (lf_iss d0) ∧ checked d).
Proof.
  intros Hi w HE (H1 & H2 & _). unfold no_faults in HE. unfold CreateVersion, on_iss. rewrite exec_run by done. cbn.
  split; [done|]. case_match; cbn; [|split; [done|]; intros k v; rewrite <-H2; auto]. split; [exact H1|].
  intros k v Hk. cbn in Hk. destruct (decide (k = vid)) as [->|Hne].
  - rewrite lookup_insert_eq in Hk. simplify_eq. right. cbn. split_and!; try done. by destruct info.
  - rewrite lookup_insert_ne, H2 in Hk by done. by left.
Qed.

Lemma ehoare_activate notAfter t :
  ehoare no_faults (λ d, is_certs (lf_iss d) = is_certs (lf_iss d0) ∧ checked d)
    (CertUpdate (renewed notAfter t c)) (λ _, outcome (Ok tt)).
Proof.
  intros w HE [H1 H2]. unfold no_faults in HE. unfold CertUpdate, on_iss, CertRepo.Update. rewrite exec_run by done. cbn.
  split; [done|]. unfold CertRepo.cert_update. cbn. rewrite H1, Hid, Hc. cbn. split; [exact H2|]. intros _.
  exists (cert_set_row c (renewed notAfter t c)). cbn. unfold is_certs. cbn. rewrite lookup_insert_eq. done.
Qed.

Ltac efree := apply ehoare_pres; [apply _|apply _|..].

Lemma ehoare_adhoc connector :
  ehoare no_faults (steady d0) (AgentCsr.sign_adhoc true certID c csrPEM connector) outcome.
Proof.
  unfold AgentCsr.sign_adhoc. eapply ehoare_bind; [apply ehoare_profile|]. intros profile. apply ehoare_pure. intros ->.
  destruct (ValidateCSRAgainstProfile csrPEM prof) as [info|e] eqn:Ev; [|apply ehoare_ret; intros d; apply outcome_err].
  eapply ehoare_bind; [efree; unfold call; [repeat pres_step|etime]|].
  intros [result|e]; [|apply ehoare_ret; intros d; apply outcome_err].
  eapply ehoare_bind; [efree; unfold generateID; [repeat pres_step|etime]|]. intros vid.
  eapply ehoare_bind; [efree; [repeat pres_step|etime]|]. intros t1.
  eapply ehoare_bind; [by apply ehoare_store_version|].
  intros [[]|e]; [|apply ehoare_ret; intros d [_ Hd]; by split].
  eapply ehoare_bind.
  { apply ehoare_of; [apply _|apply hoare_now; intros d t Hd; exact Hd|etime]. }
  intros t2. cbn. eapply ehoare_bind; [apply ehoare_activate|]. intros ?. by apply ehoare_ret.
Qed.

Lemma ehoare_complete s job tids :
  rn_profileRepo s = true →
  ehoare no_faults (steady d0) (CompleteAgentCSRRenewal ToLower formatDate jsonTime s job c tids csrPEM) outcome.
Proof.
  intros Hp. unfold CompleteAgentCSRRenewal. rewrite (profile_of_agent s c Hp).
  assert (∀ msg, pres steady (failJob job msg) ∧ wpres elapsed (failJob job msg)) as Hfail.
  { intros msg. unfold failJob. split; [pres_step; [apply steady_JobStatus|pres_step]|wstep; [apply elapsed_JobStatus|wstep]]. }
  assert (∀ msg e, ehoare no_faults (steady d0) (_ ← failJob job msg; mret (Err e)) outcome) as Hgive.
  { intros msg e. eapply ehoare_bind; [efree; apply Hfail|]. intros ?. apply ehoare_ret. intros d. apply outcome_err. }
  assert (∀ msg e, ehoare no_faults checked (_ ← failJob job msg; mret (Err e)) outcome) as Hgive'.
  { intros msg e. eapply ehoare_bind with (Q := λ _, checked); [|intros ?; apply ehoare_ret; by intros d Hd; split].
    apply ehoare_of; [apply _| |apply Hfail]. intros w Hw. destruct (proj1 (Hfail msg) w) as (_ & E & _).
    by eapply versions_checked_steady. }
  case_match; [|apply Hgive].
  eapply ehoare_bind; [apply ehoare_profile|]. intros profile. apply ehoare_pure. intros ->.
  destruct (ValidateCSRAgainstProfile csrPEM prof) as [info|e] eqn:Ev; [|apply Hgive].
  eapply ehoare_bind; [efree; [apply steady_JobStatus|apply elapsed_JobStatus]|].
  intros [[]|e]; [|apply ehoare_ret; intros d; apply outcome_err].
  eapply ehoare_bind; [efree; unfold RenewCertificate, call; [repeat pres_step|etime]|].
  intros [result|e].
  2:{ unfold renewal_refused, SendRenewalNotification, record.
      eapply ehoare_bind; [efree; apply Hfail|]. intros ?.
      eapply ehoare_bind; [efree; [apply steady_notify|apply elapsed_notify]|]. intros ?.
      eapply ehoare_bind.
      { efree; [repeat first [pres_step | apply steady_RecordEvent]|etime]. }
      intros ?. apply ehoare_ret. intros d. apply outcome_err. }
  eapply ehoare_bind; [efree; unfold generateID; [repeat pres_step|etime]|]. intros vid.
  eapply ehoare_bind; [efree; [repeat pres_step|etime]|]. intros t1. rewrite Hid.
  eapply ehoare_bind; [by apply ehoare_store_version|].
  intros [[]|e]; [|eapply ehoare_pre; [|apply Hgive']; by intros d []].
  eapply ehoare_bind.
  { apply ehoare_of; [apply _|apply hoare_now; intros d t Hd; exact Hd|etime]. }
  intros t2. cbn. eapply ehoare_bind; [apply ehoare_activate|].
  intros [[]|e]; [|eapply ehoare_pre; [|apply Hgive']; by intros d []].
  eapply ehoare_bind; [apply outcome_frame; [apply steady_finish|apply elapsed_finish]|].
  intros [[]|e]; [|apply ehoare_ret; by intros d [Hd _]; split].
  unfold record. eapply ehoare_bind.
  { apply outcome_frame; [repeat first [pres_step | apply steady_RecordEvent]|etime]. }
  intros ?. by apply ehoare_ret.
Qed.

Lemma ehoare_load :
  ehoare no_faults (steady d0) (CertGet certID) (λ r d, steady d0 d ∧ ∃ tids, r = Ok (c, tids)).
Proof.
  intros w HE Hd. pose proof Hd as (H1 & _ & _). unfold no_faults in HE.
  unfold CertGet, getTargetIDs, on_db, on_iss, on_store, CertificateRepository_Get, sql_query, next_fault, mbind, M_bind, get_db,
    mret, M_ret. cbn. rewrite HE. cbn. unfold is_certs in H1. rewrite H1. unfold is_certs in Hc. rewrite Hc. cbn. rewrite HE. cbn.
  split; [done|]. split; [|eauto]. destruct (w_db w) as [[]]; exact Hd.
Qed.

Lemma ehoare_SubmitCSR agentID :
  csrPEM ≠ "" → certID ≠ "" → is_Some (Registry_Get registry (cert_IssuerID c)) →
  ehoare no_faults (steady d0)
    (AgentCsr.SubmitCSR ToLower formatDate jsonTime rs true registry agentID certID csrPEM) outcome.
Proof.
  intros Hcsr Hne [connector Hreg]. unfold AgentCsr.SubmitCSR.
  eapply ehoare_bind; [efree; [apply steady_read; unfold AgentRepository_Get; repeat pres_step|unfold AgentRepository_Get; etime]|].
  intros [agent|e]; [|apply ehoare_ret; intros d; apply outcome_err].
  rewrite !bool_decide_eq_false_2 by done.
  eapply ehoare_bind; [apply ehoare_load|]. intros r. apply ehoare_pure. intros [tids ->].
  assert (∀ extra, ehoare no_faults (outcome (Ok tt)) (_ ← AgentCsr.record_csr ToLower agent certID extra; mret (Ok tt)) outcome) as Hrec.
  { intros extra. unfold AgentCsr.record_csr.
    eapply ehoare_bind with (Q := λ _, outcome (Ok tt)); [|intros ?; by apply ehoare_ret].
    apply outcome_frame; [repeat first [pres_step | apply steady_RecordEvent]|etime]. }
  eapply ehoare_bind with (Q := λ aw d, steady d0 d ∧ ∀ s j, aw = Some (s, j) → rs = Some s).
  { unfold AgentCsr.awaiting_job. destruct rs as [s|]; [|apply ehoare_ret; by intros].
    eapply ehoare_bind.
    - efree; unfold GetAwaitingCSRJobs;
        [pres_step; [apply steady_read; unfold JobRepo.JobRepository_ListByCertificate; pres_step|pres_step]
        |unfold JobRepo.JobRepository_ListByCertificate; etime].
    - intros r. apply ehoare_ret. intros d Hd. split; [done|]. intros s' j Hj. repeat case_match; by simplify_eq. }
  intros [[s job]|].
  - apply (ehoare_pre _ (λ d, steady d0 d ∧ rs = Some s)); [intros d [? H]; split; [done|by eapply H]|].
    apply ehoare_pure. intros Hs. eapply ehoare_bind; [by apply ehoare_complete, Hrs|].
    intros [[]|e]; [apply Hrec|apply ehoare_ret; by intros d [Hd _]; split].
  - rewrite Hreg. apply (ehoare_pre _ (steady d0)); [by intros d []|]. eapply ehoare_bind; [apply ehoare_adhoc|].
    intros [[]|e]; [apply Hrec|apply ehoare_ret; by intros d [Hd _]; split].
Qed.
End outcome.
End csr.


(** A CSR brings any certificate back.  When no statement fails, a CSR that any registered
    agent submits successfully leaves the certificate active whatever its status was, revoked
    and archived included; the revocation time stays in the row of the now active certificate. *)
Theorem csr_revives_any_status `{X : X509} ToLower formatDate jsonTime rs registry agentID certID csrPEM c w :
  (∀ s, rs = Some s → rn_profileRepo s = true) → env_faults (w_env w) = [] →
  csrPEM ≠ "" → certID ≠ "" → is_certs (lf_iss (w_db w)) !! certID = Some c → cert_ID c = certID →
  is_Some (Registry_Get registry (cert_IssuerID c)) →
  let rw := AgentCsr.SubmitCSR ToLower formatDate jsonTime rs true registry agentID certID csrPEM w in
  fst rw = Ok tt → made_active certID c (w_db (snd rw)).
Proof.
  intros Hrs Hf Hcsr Hne Hc Hid Hreg rw Hok.
  destruct (ehoare_SubmitCSR ToLower formatDate jsonTime rs registry Hrs certID csrPEM c (w_db w) Hc Hid agentID Hcsr Hne Hreg
    w Hf (PreOrder_Reflexive _)) as [_ [_ Ha]]. by apply Ha.
Qed.

(** ** Concrete runs *)
Definition lc_profile : CertificateProfile :=
  mkProfile "cp-1" "web" "" [("ECDSA", 256); ("RSA", 2048)] 0 [] [] "" false false [] "" false true 0 0.
Definition lc_cert_p (status : string) : ManagedCertificate :=
  mkCert "mc-1" "www" "www.example.com" ["www.example.com"] "o-1" "t-1" "iss-1" "" "cp-1" status (10 * day) "" None
    (Some 5) "keyCompromise" 0.
Definition lc_db_p (c : ManagedCertificate) : LifeDB :=
  set_iss (set_store (set_profiles (λ _, {[ "cp-1" := lc_profile ]}))) (lc_db c []).
Definition lc_submit (c : ManagedCertificate) : res unit * World LifeDB :=
  AgentCsr.SubmitCSR (X := toy_x509) lower_ascii lc_date lc_date (Some (lc_svc "agent")) true [("iss-1", lc_issuer)]
    "ag-1" "mc-1" "a csr" (mkWorld (lc_db_p c) (mkEnv 1000 [] [] 0)).

Example csr_revives_any_status_witness :
  cert_Status (lc_cert_p CertificateStatusRevoked) = CertificateStatusRevoked ∧
  made_active "mc-1" (lc_cert_p CertificateStatusRevoked) (w_db (snd (lc_submit (lc_cert_p CertificateStatusRevoked)))).
Proof.
  split; [done|]. unfold lc_submit.
  apply (csr_revives_any_status (X := toy_x509) lower_ascii lc_date lc_date (Some (lc_svc "agent")) [("iss-1", lc_issuer)]
    "ag-1" "mc-1" "a csr"); [by intros s [= <-]|done..| |done|by eexists|by vm_compute].
  apply lookup_singleton_eq.
Defined.

