(* ===== verification/NetAddrFacts.v ===== *)
(** * Printing and parsing of addresses agree

    [ParseIP] of a printed address is its 16-byte form ([ParseIP_String]), and [SplitHostPort]
    undoes [JoinHostPort] on it ([Split_Join_IP]).  The IPv6 part follows the text: a run of
    hex groups separated by colons ([hexes]), with one "::" where the longest run of zeros was. *)

From Stdlib Require Import ZArith Lia Ascii String.
From stdpp Require Import prelude strings list pretty.
From S2P Require Import Prelude GoBytes NetAddr.

Local Open Scope Z_scope.

(** An address as the resolver, the parser and [Mask] make them: 4 or 16 bytes. *)
Definition ip_wf (ip : IP) : Prop :=
  (length ip = 4%nat ∨ length ip = 16%nat) ∧ Forall (λ z, 0 ≤ z < 256) ip.

(** ** Hex groups *)
Lemma hexval_digit d : 0 ≤ d < 16 → hexval (hex_digit d) = Some d.
Proof.
  intros H. assert (Forall (λ d, hexval (hex_digit d) = Some d) (seqZ 0 16)) as HF
    by (vm_compute; repeat constructor).
  rewrite Forall_forall in HF. apply HF, elem_of_seqZ. lia.
Qed.

(** What ends a hex number: the end of the input or a character that is no hex digit. *)
Definition hex_stop (s : string) : Prop :=
  match s with EmptyString => True | String c _ => hexval c = None end.

Lemma scan_hex_stop off acc s : hex_stop s → scan_hex off acc s = Some (off, acc, s).
Proof. destruct s as [|c s]; cbn; [done|]. by intros ->. Qed.

Lemma scan_hex_digit off acc d s :
  0 ≤ d < 16 → 0 ≤ acc → acc * 16 + d < 65536 → (off < 4)%nat →
  scan_hex off acc (String (hex_digit d) s) = scan_hex (S off) (acc * 16 + d) s.
Proof.
  intros Hd Ha Hv Ho. cbn [scan_hex]. rewrite hexval_digit by done. cbv zeta.
  rewrite (proj2 (Nat.ltb_ge 3 off)) by lia. rewrite (proj2 (Z.ltb_ge 65535 _)) by lia. done.
Qed.

Lemma app_nil_l_string s : "" +:+ s = s.
Proof. done. Qed.

Lemma app_nil_r_string (s : string) : s +:+ "" = s.
Proof. induction s as [|c s IH]; [done|]. by rewrite string_cons_app, IH. Qed.

Lemma hex_digit_hex d : 0 ≤ d < 16 → hexval (hex_digit d) ≠ None.
Proof. intros H. by rewrite hexval_digit. Qed.

(** A group prints as one to four digits that scan back to it. *)
Lemma scan_appendHex g s :
  0 ≤ g < 65536 → hex_stop s →
  ∃ n, scan_hex 0 0 (appendHex g +:+ s) = Some (S n, g, s).
Proof.
  intros Hg Hs. unfold appendHex.
  pose proof (Z.div_mod g 16). pose proof (Z.mod_pos_bound g 16).
  pose proof (Z.div_mod g 256). pose proof (Z.div_mod g 4096).
  assert (g / 256 = g / 16 / 16) as E1 by (rewrite Z.div_div by lia; done).
  assert (g / 4096 = g / 16 / 16 / 16) as E2 by (rewrite !Z.div_div by lia; done).
  pose proof (Z.div_mod (g / 16) 16). pose proof (Z.mod_pos_bound (g / 16) 16).
  pose proof (Z.div_mod (g / 16 / 16) 16). pose proof (Z.mod_pos_bound (g / 16 / 16) 16).
  destruct (4096 <=? g) eqn:?; [rewrite (proj2 (Z.leb_le 256 g)), (proj2 (Z.leb_le 16 g)) by lia|
    destruct (256 <=? g) eqn:?; [rewrite (proj2 (Z.leb_le 16 g)) by lia|
      destruct (16 <=? g) eqn:?]];
    rewrite ?app_nil_l_string, ?string_app_assoc, !string_cons_app, ?app_nil_l_string, ?E1, ?E2; eexists;
    (repeat rewrite scan_hex_digit by lia); rewrite scan_hex_stop by done;
    match goal with |- Some (_, ?v, _) = _ => replace v with g by lia end; done.
Qed.

Definition hex_or_colon (c : ascii) : bool := bool_decide (hexval c ≠ None) || Ascii.eqb c ":".

Lemma all_chars_appendHex (p : ascii → bool) g :
  (∀ d, 0 ≤ d < 16 → p (hex_digit d) = true) → 0 ≤ g < 65536 → all_chars p (appendHex g) = true.
Proof.
  intros Hp Hg. unfold appendHex. rewrite !all_chars_app.
  pose proof (Z.mod_pos_bound g 16). pose proof (Z.mod_pos_bound (g / 16) 16).
  pose proof (Z.mod_pos_bound (g / 256) 16).
  assert (0 ≤ g / 4096 < 16) by (split; [apply Z.div_pos|apply Z.div_lt_upper_bound]; lia).
  repeat case_match; cbn; rewrite !Hp by lia; done.
Qed.

(** The first character of a group is a hex digit. *)
Lemma appendHex_cons g :
  0 ≤ g < 65536 → ∃ c s, appendHex g = String c s ∧ hexval c ≠ None ∧
    all_chars (λ c, bool_decide (hexval c ≠ None)) s = true.
Proof.
  intros Hg. pose proof (all_chars_appendHex (λ c, bool_decide (hexval c ≠ None)) g) as H.
  destruct (appendHex g) as [|c s] eqn:E.
  - destruct (scan_appendHex g "" Hg I) as [n Hn]. by rewrite E in Hn.
  - cbn in H. apply andb_true_iff in H as [H1%bool_decide_eq_true H2]; [eauto|..]; [|done].
    intros d Hd. by apply bool_decide_eq_true, hex_digit_hex.
Qed.

(** Groups separated by colons. *)
Fixpoint hexes (gs : list Z) : string :=
  match gs with
  | [] => ""
  | [g] => appendHex g
  | g :: gs' => appendHex g +:+ ":" +:+ hexes gs'
  end.

Definition flat (gs : list Z) : list Z := gs ≫= (λ g, [g / 256; g mod 256]).

Notation group_ok := (λ g, 0 ≤ g < 65536).

Lemma length_flat gs : length (flat gs) = (2 * length gs)%nat.
Proof. unfold flat. induction gs as [|g gs IH]; cbn -[Nat.mul]; [done|]. rewrite IH. lia. Qed.

Lemma flat_cons g gs : flat (g :: gs) = [g / 256; g mod 256] ++ flat gs.
Proof. done. Qed.

Lemma hexes_cons g g' gs : hexes (g :: g' :: gs) = appendHex g +:+ ":" +:+ hexes (g' :: gs).
Proof. done. Qed.

(** A text of groups begins with a hex digit. *)
Lemma hexes_head g gs : group_ok g → ∃ c s, hexes (g :: gs) = String c s ∧ hexval c ≠ None.
Proof.
  intros Hg. destruct (appendHex_cons g Hg) as (c & s & E & Hc & _). destruct gs as [|g' gs].
  - cbn. eauto.
  - rewrite hexes_cons, E, string_cons_app. eauto.
Qed.

Lemma hex_not_char (c d : ascii) : hexval c ≠ None → hexval d = None → Ascii.eqb c d = false.
Proof. intros H H'. apply Ascii.eqb_neq. by intros ->. Qed.

(** One round of the loop on a group followed by a colon and another group. *)
Lemma v6_loop_colon f ip e g c s :
  group_ok g → hexval c ≠ None →
  v6_loop (S f) ip e (appendHex g +:+ ":" +:+ String c s) =
  v6_loop f (ip ++ [g / 256; g mod 256]) e (String c s).
Proof.
  intros Hg Hc. cbn [v6_loop].
  destruct (scan_appendHex g (":" +:+ String c s) Hg) as [n ->]; [done|].
  rewrite string_cons_app, app_nil_l_string. cbn -[v6_loop].
  by rewrite (hex_not_char c ":").
Qed.

Lemma v6_loop_end f ip e g :
  group_ok g → v6_loop (S f) ip e (appendHex g) = Some (ip ++ [g / 256; g mod 256], e, "").
Proof.
  intros Hg. cbn [v6_loop]. destruct (scan_appendHex g "" Hg I) as [n Hn].
  rewrite app_nil_r_string in Hn. by rewrite Hn.
Qed.

(** One round on a group followed by "::" and another group, or the end. *)
Lemma v6_loop_ellipsis f ip g s :
  group_ok g →
  v6_loop (S f) ip None (appendHex g +:+ "::" +:+ s) =
  let ip' := ip ++ [g / 256; g mod 256] in
  if bool_decide (s = "") then Some (ip', Some (length ip'), "") else v6_loop f ip' (Some (length ip')) s.
Proof.
  intros Hg. cbn [v6_loop]. destruct (scan_appendHex g ("::" +:+ s) Hg) as [n ->]; [done|].
  by rewrite !string_cons_app, app_nil_l_string.
Qed.

(** The loop reads a text of groups. *)
Lemma v6_loop_hexes gs f ip e :
  gs ≠ [] → Forall group_ok gs → (length gs ≤ f)%nat →
  v6_loop f ip e (hexes gs) = Some (ip ++ flat gs, e, "").
Proof.
  revert f ip. induction gs as [|g gs IH]; intros f ip Hne HF Hf; [done|].
  apply Forall_cons in HF as [Hg HF]. destruct f as [|f]; [cbn in Hf; lia|].
  destruct gs as [|g' gs].
  - cbn [hexes]. by rewrite v6_loop_end.
  - rewrite hexes_cons. apply Forall_cons in HF as Hg'. destruct Hg' as [Hg' _].
    destruct (hexes_head g' gs Hg') as (c & s & E & Hc). rewrite E, v6_loop_colon, <-E by done.
    rewrite IH; [|done..|cbn in *; lia]. by rewrite flat_cons, <-app_assoc.
Qed.

(** ... and a text of groups around one "::". *)
Lemma v6_loop_around gs gs' f ip :
  gs ≠ [] → Forall group_ok gs → Forall group_ok gs' → (length gs + length gs' ≤ f)%nat →
  v6_loop f ip None (hexes gs +:+ "::" +:+ hexes gs') =
  Some (ip ++ flat gs ++ flat gs', Some (length ip + 2 * length gs)%nat, "").
Proof.
  revert f ip. induction gs as [|g gs IH]; intros f ip Hne HF HF' Hf; [done|].
  apply Forall_cons in HF as [Hg HF]. destruct f as [|f]; [cbn in Hf; lia|].
  destruct gs as [|g' gs].
  - cbn [hexes]. rewrite v6_loop_ellipsis by done. cbv zeta. rewrite length_app.
    destruct gs' as [|h gs']; [by rewrite bool_decide_eq_true_2|].
    apply Forall_cons in HF' as Hh. destruct Hh as [Hh _].
    destruct (hexes_head h gs' Hh) as (c & s & E & _). rewrite bool_decide_eq_false_2 by (by rewrite E).
    rewrite v6_loop_hexes; [|done..|cbn in *; lia]. by rewrite <-app_assoc.
  - rewrite hexes_cons, !string_app_assoc. apply Forall_cons in HF as Hg'. destruct Hg' as [Hg' _].
    destruct (hexes_head g' gs Hg') as (c & s & E & Hc).
    rewrite E, (string_cons_app c s), v6_loop_colon, <-(string_cons_app c s), <-E by done.
    rewrite IH; [|done..|cbn in *; lia]. rewrite !flat_cons, <-!app_assoc, length_app.
    replace (length ip + length [(g / 256)%Z; (g mod 256)%Z] + 2 * length (g' :: gs))%nat
      with (length ip + 2 * length (g :: g' :: gs))%nat by (cbn; lia). done.
Qed.

(** ** The run of zeros *)
Lemma leading_zeros_spec gs :
  gs = replicate (leading_zeros gs) 0 ++ drop (leading_zeros gs) gs ∧ (leading_zeros gs ≤ length gs)%nat.
Proof.
  induction gs as [|g gs [IH1 IH2]]; [done|]. cbn. destruct (Z.eqb_spec g 0) as [->|]; cbn; [|split; [done|lia]].
  split; [by rewrite <-IH1|lia].
Qed.

Definition run_ok (gs : list Z) (r : nat * nat) : Prop :=
  r = (255, 255)%nat ∨
  (fst r + 2 ≤ snd r ≤ length gs)%nat ∧
  gs = take (fst r) gs ++ replicate (snd r - fst r) 0 ++ drop (snd r) gs.

Lemma zero_run_ok gs : run_ok gs (zero_run gs).
Proof.
  unfold zero_run. assert (run_ok gs (255, 255)%nat) as H by (by left).
  revert H. generalize (255, 255)%nat. induction (seq 0 8) as [|i l IH]; intros r Hr; [done|].
  cbn [foldl]. apply IH. destruct r as [zs ze]. cbv zeta.
  destruct (leading_zeros_spec (drop i gs)) as [E Hle]. rewrite length_drop in Hle.
  set (n := leading_zeros (drop i gs)) in *. replace (i + n - i)%nat with n by lia.
  destruct (Nat.leb 2 n) eqn:E2; [|done]. destruct (Nat.ltb _ _); [|done]. cbn [andb].
  apply Nat.leb_le in E2. right. cbn [fst snd]. split; [lia|].
  replace (i + n - i)%nat with n by lia. rewrite <-drop_drop, <-E. by rewrite take_drop.
Qed.

(** ** The text of an IPv6 address *)
Lemma emit_plain gs : length gs = 8%nat → v6_emit 8 0 255 255 gs = hexes gs.
Proof.
  intros H. do 8 (destruct gs as [|? gs]; [done|]). destruct gs; [|done].
  cbn. rewrite ?app_nil_l_string, ?app_nil_r_string. done.
Qed.

Lemma emit_run gs zs ze :
  length gs = 8%nat → (zs < ze ≤ 8)%nat →
  v6_emit 8 0 zs ze gs = hexes (take zs gs) +:+ "::" +:+ hexes (drop ze gs).
Proof.
  intros H Hz. do 8 (destruct gs as [|? gs]; [done|]). destruct gs; [|done].
  assert (zs ∈ seq 0 8) as Hs by (apply elem_of_seq; lia).
  assert (ze ∈ seq 1 8) as He by (apply elem_of_seq; lia). cbn in Hs, He.
  repeat (apply elem_of_cons in Hs as [->|Hs]); try (by apply elem_of_nil in Hs);
    repeat (apply elem_of_cons in He as [->|He]); try (by apply elem_of_nil in He); try lia;
    cbn; rewrite ?app_nil_l_string, ?app_nil_r_string, ?string_app_assoc; done.
Qed.

(** ** Groups and bytes *)
Lemma groups_flat l :
  (∃ n, length l = 2 * n)%nat → Forall (λ z, 0 ≤ z < 256) l →
  flat (groups l) = l ∧ Forall group_ok (groups l).
Proof.
  intros [n Hn]. revert l Hn. induction n as [|n IH]; intros l Hn HF.
  - destruct l; [by split|done].
  - destruct l as [|a [|b l]]; [cbn in Hn; lia..|]. rewrite !Forall_cons in HF. destruct HF as (Ha & Hb & HF).
    destruct (IH l) as [E G]; [cbn in Hn; lia|done|]. cbn [groups]. rewrite flat_cons, E. split.
    + replace (256 * a + b) with (b + a * 256) by lia.
      rewrite Z.div_add, Z.mod_add, Z.div_small, Z.mod_small by lia. cbn. by rewrite Z.add_0_l.
    + constructor; [lia|done].
Qed.

Lemma length_groups l : length l = 16%nat → length (groups l) = 8%nat.
Proof. intros H. do 16 (destruct l as [|? l]; [done|]). by destruct l. Qed.

Lemma flat_app gs gs' : flat (gs ++ gs') = flat gs ++ flat gs'.
Proof. apply bind_app. Qed.

Lemma flat_zeros n : flat (replicate n 0) = replicate (2 * n) 0.
Proof.
  induction n as [|n IH]; [done|]. replace (2 * S n)%nat with (S (S (2 * n))) by lia.
  cbn [replicate]. by rewrite flat_cons, IH.
Qed.

(** ** IPv6 round trip *)
Lemma no_leading_colons g gs t : group_ok g → HasPrefix (hexes (g :: gs) +:+ t) "::" = false.
Proof.
  intros Hg. destruct (hexes_head g gs Hg) as (c & s & -> & Hc). rewrite string_cons_app.
  unfold HasPrefix. cbn [String.prefix]. destruct (ascii_dec ":" c) as [<-|]; [by destruct Hc|done].
Qed.

Lemma v6_roundtrip l :
  length l = 16%nat → Forall (λ z, 0 ≤ z < 256) l → parseIPv6 (v6_String l) = Some l.
Proof.
  intros Hl HF. destruct (groups_flat l) as [Hfl Hgs]; [by exists 8%nat|done|].
  pose proof (length_groups l Hl) as H8. unfold v6_String. set (gs := groups l) in *. clearbody gs.
  pose proof (zero_run_ok gs) as Hr. destruct (zero_run gs) as [zs ze].
  destruct Hr as [[= -> ->]|[Hz E]]; cbn [fst snd] in *.
  - rewrite emit_plain by done. unfold parseIPv6. destruct gs as [|g gs]; [done|].
    rewrite <-(app_nil_r_string (hexes _)), no_leading_colons, app_nil_r_string by (by inversion Hgs).
    rewrite v6_loop_hexes by (done || lia). cbn [app]. rewrite Hfl. unfold v6_finish. by rewrite Hl.
  - rewrite emit_run by lia. rewrite H8 in Hz.
    assert (Forall group_ok (take zs gs)) as Hb by (by apply Forall_take).
    assert (Forall group_ok (drop ze gs)) as Ha by (by apply Forall_drop).
    assert (length (take zs gs) = zs) as Lb by (rewrite length_take; lia).
    assert (length (drop ze gs) = (8 - ze)%nat) as La by (rewrite length_drop; lia).
    revert E Hb Ha Lb La. generalize (take zs gs) as b, (drop ze gs) as a. intros b a E Hb Ha Lb La.
    apply (f_equal flat) in E. rewrite Hfl, !flat_app, flat_zeros in E.
    assert (Hfin : ∀ x, length x = (16 - 2 * (ze - zs))%nat → v6_finish (Some (x, Some (2 * zs)%nat, "")) =
              Some (take (2 * zs) x ++ replicate (2 * (ze - zs)) 0 ++ drop (2 * zs) x)).
    { intros x Hx. unfold v6_finish. rewrite (proj2 (Nat.ltb_lt _ 16)) by lia.
      by replace (16 - length x)%nat with (2 * (ze - zs))%nat by lia. }
    unfold parseIPv6. destruct b as [|g b].
    + cbn in Lb. subst zs. cbn [hexes]. rewrite app_nil_l_string.
      rewrite !string_cons_app, app_nil_l_string. replace (HasPrefix _ _) with true by (by destruct (hexes a)).
      destruct a as [|h a].
      * rewrite bool_decide_eq_true_2 by done. f_equal. rewrite E. cbn in La. by replace ze with 8%nat by lia.
      * destruct (hexes_head h a) as (c & s & Es & _); [by inversion Ha|].
        rewrite bool_decide_eq_false_2 by (by rewrite Es). rewrite v6_loop_hexes by (done || lia). cbn [app].
        rewrite Hfin by (rewrite length_flat, La; lia). by rewrite E.
    + rewrite no_leading_colons by (by inversion Hb). rewrite v6_loop_around by (done || lia).
      cbn [app]. replace (length (@nil Z) + 2 * length (g :: b))%nat with (2 * zs)%nat by (rewrite Lb; done).
      rewrite Hfin by (rewrite length_app, !length_flat, Lb, La; lia).
      rewrite E. f_equal. rewrite take_app_length', drop_app_length' by (rewrite length_flat; lia). done.
Qed.

(** The text has only hex digits and colons, and a colon. *)
Lemma hexes_chars gs : Forall group_ok gs → all_chars hex_or_colon (hexes gs) = true.
Proof.
  assert (Hp : ∀ g, group_ok g → all_chars hex_or_colon (appendHex g) = true).
  { intros g. apply all_chars_appendHex. intros d Hd. unfold hex_or_colon.
    by rewrite bool_decide_eq_true_2 by (by apply hex_digit_hex). }
  induction 1 as [|g gs Hg HF IH]; [done|]. destruct gs as [|g' gs]; [by apply Hp|].
  by rewrite hexes_cons, !all_chars_app, IH, Hp.
Qed.

Lemma addr_kind_v6 s t :
  all_chars hex_or_colon s = true → addr_kind (s +:+ ":" +:+ t) = Some ":"%char.
Proof.
  induction s as [|c s IH]; intros H; [done|]. cbn in H. apply andb_true_iff in H as [Hc H].
  rewrite string_cons_app. cbn. unfold hex_or_colon in Hc.
  destruct (Ascii.eqb_spec c ":") as [->|]; [done|]. rewrite orb_false_r, bool_decide_eq_true in Hc.
  by rewrite !(hex_not_char c) by done; cbn; apply IH.
Qed.

Lemma v6_chars l :
  length l = 16%nat → Forall (λ z, 0 ≤ z < 256) l →
  ∃ s t, v6_String l = s +:+ ":" +:+ t ∧ all_chars hex_or_colon s = true ∧ all_chars hex_or_colon t = true.
Proof.
  intros Hl HF. destruct (groups_flat l) as [_ Hgs]; [by exists 8%nat|done|].
  pose proof (length_groups l Hl) as H8. unfold v6_String. set (gs := groups l) in *. clearbody gs.
  pose proof (zero_run_ok gs) as Hr. destruct (zero_run gs) as [zs ze].
  destruct Hr as [[= -> ->]|[Hz _]]; cbn [fst snd] in *.
  - rewrite emit_plain by done. destruct gs as [|g [|g' gs]]; [done..|]. rewrite hexes_cons.
    apply Forall_cons in Hgs as [Hg Hgs]. exists (appendHex g), (hexes (g' :: gs)).
    split_and!; [done| |by apply hexes_chars]. by apply (hexes_chars [g]), Forall_singleton.
  - rewrite emit_run by lia. exists (hexes (take zs gs)), (":" +:+ hexes (drop ze gs)).
    split_and!; [done|by apply hexes_chars, Forall_take|]. rewrite all_chars_app, hexes_chars by (by apply Forall_drop). done.
Qed.

Lemma hex_no_percent s : all_chars hex_or_colon s = true → has_zone s = false.
Proof.
  intros H. unfold has_zone. rewrite (all_chars_impl hex_or_colon); [done| |done].
  intros c. unfold hex_or_colon, not_char. destruct (Ascii.eqb_spec c "%") as [->|]; done.
Qed.

Lemma ParseAddr_v6 l :
  length l = 16%nat → Forall (λ z, 0 ≤ z < 256) l → ParseAddr (v6_String l) = Some l.
Proof.
  intros Hl HF. pose proof (v6_roundtrip l Hl HF) as H.
  destruct (v6_chars l Hl HF) as (s & t & E & Hs & Ht). unfold ParseAddr. rewrite E in *.
  rewrite addr_kind_v6 by done. cbn. by rewrite hex_no_percent by (by rewrite !all_chars_app, Hs, Ht).
Qed.

(** ** IPv4 round trip *)
Lemma digit_val d : 0 ≤ d < 10 → byte_val (hex_digit d) = 48 + d ∧ is_digit (hex_digit d) = true.
Proof.
  intros H. assert (Forall (λ d, byte_val (hex_digit d) = 48 + d ∧ is_digit (hex_digit d) = true) (seqZ 0 10)) as HF
    by (vm_compute; repeat constructor).
  rewrite Forall_forall in HF. apply HF, elem_of_seqZ. lia.
Qed.

Lemma ipv4_digit first dot val digs fields d s :
  0 ≤ d < 10 → (digs = 1%nat → val ≠ 0) → val * 10 + d < 256 →
  ipv4_fields first dot val digs fields (String (hex_digit d) s) =
  ipv4_fields false false (val * 10 + d) (S digs) fields s.
Proof.
  intros Hd Hz Hv. cbn [ipv4_fields]. destruct (digit_val d Hd) as [-> ->].
  replace (Nat.eqb digs 1 && (val =? 0)) with false
    by (symmetry; apply andb_false_iff; rewrite Nat.eqb_neq, Z.eqb_neq; destruct (decide (digs = 1%nat)); tauto).
  cbv zeta. replace (48 + d - 48) with d by lia. by rewrite (proj2 (Z.ltb_ge 255 _)) by lia.
Qed.

Lemma ipv4_octet a first dot fields s :
  0 ≤ a < 256 →
  ∃ n, ipv4_fields first dot 0 0 fields (appendDecimal a +:+ s) = ipv4_fields false false a n fields s.
Proof.
  intros Ha. unfold appendDecimal. pose proof (Z.div_mod a 10). pose proof (Z.mod_pos_bound a 10).
  assert (a / 100 = a / 10 / 10) as E by (by rewrite Z.div_div by lia).
  pose proof (Z.div_mod (a / 10) 10). pose proof (Z.mod_pos_bound (a / 10) 10).
  destruct (100 <=? a) eqn:?; [rewrite (proj2 (Z.leb_le 10 a)) by lia|destruct (10 <=? a) eqn:?];
    rewrite ?app_nil_l_string, ?string_app_assoc, !string_cons_app, ?app_nil_l_string, ?E; eexists;
    (repeat rewrite ipv4_digit by lia);
    match goal with |- ipv4_fields _ _ ?v _ _ _ = _ => replace v with a by lia end; done.
Qed.

Lemma octet_digits a : 0 ≤ a < 256 → all_chars is_digit (appendDecimal a) = true.
Proof.
  intros Ha. unfold appendDecimal. rewrite !all_chars_app.
  pose proof (Z.mod_pos_bound a 10). pose proof (Z.mod_pos_bound (a / 10) 10).
  assert (0 ≤ a / 100 < 10) by (split; [apply Z.div_pos|apply Z.div_lt_upper_bound]; lia).
  repeat case_match; cbn; rewrite !(λ d H, proj2 (digit_val d H)) by lia; done.
Qed.

Lemma addr_kind_v4 s t : all_chars is_digit s = true → addr_kind (s +:+ "." +:+ t) = Some "."%char.
Proof.
  induction s as [|c s IH]; intros H; [done|]. cbn in H. apply andb_true_iff in H as [Hc H].
  rewrite string_cons_app. cbn. rewrite IH by done.
  assert (∀ d, is_digit d = false → Ascii.eqb c d = false) as Hn
    by (intros d Hd; apply Ascii.eqb_neq; by intros ->; rewrite Hc in Hd).
  by rewrite !Hn.
Qed.

Lemma ipv4_dot val digs fields c s :
  (length fields < 3)%nat →
  ipv4_fields false false val digs fields ("." +:+ String c s) = ipv4_fields false true 0 0 (fields ++ [val]) (String c s).
Proof.
  intros H. rewrite string_cons_app, app_nil_l_string. cbn [ipv4_fields].
  change (is_digit ".") with false. cbn [Ascii.eqb orb]. rewrite bool_decide_eq_false_2 by done.
  by rewrite (proj2 (Nat.eqb_neq _ 3)) by lia.
Qed.

Lemma octet_cons a s : ∃ c t, appendDecimal a +:+ s = String c t.
Proof. unfold appendDecimal. repeat case_match; rewrite ?string_app_assoc, ?string_cons_app; eauto. Qed.

(** An octet between dots. *)
Lemma ipv4_next first dot fields a b s :
  0 ≤ a < 256 → (length fields < 3)%nat →
  ipv4_fields first dot 0 0 fields (appendDecimal a +:+ "." +:+ appendDecimal b +:+ s) =
  ipv4_fields false true 0 0 (fields ++ [a]) (appendDecimal b +:+ s).
Proof.
  intros Ha Hl. destruct (ipv4_octet a first dot fields ("." +:+ appendDecimal b +:+ s) Ha) as [n ->].
  destruct (octet_cons b s) as (c & t & E). by rewrite E, ipv4_dot.
Qed.

Lemma ParseAddr_v4 a b c d :
  Forall (λ z, 0 ≤ z < 256) [a; b; c; d] → ParseAddr (v4_String [a; b; c; d]) = Some [a; b; c; d].
Proof.
  rewrite !Forall_cons. intros (Ha & Hb & Hc & Hd & _). unfold ParseAddr. cbn [v4_String].
  rewrite addr_kind_v4 by (by apply octet_digits). unfold parseIPv4Fields.
  rewrite !ipv4_next by (done || (cbn; lia)).
  rewrite <-(app_nil_r_string (appendDecimal d)), !ipv4_next by (done || (cbn; lia)).
  cbn [app]. by destruct (ipv4_octet d false true [a; b; c] "" Hd) as [n ->].
Qed.

(** ** A printed address parses back *)
Lemma To4_shape ip p4 :
  ip_wf ip → To4 ip = Some p4 →
  ∃ a b c d, p4 = [a; b; c; d] ∧ Forall (λ z, 0 ≤ z < 256) p4 ∧ To16 ip = Some (v4InV6Prefix ++ p4).
Proof.
  intros [Hl HF]. unfold To4, To16. destruct (Nat.eqb_spec (length ip) 4) as [E|E].
  - intros [= <-]. do 4 (destruct ip as [|? ip]; [done|]). destruct ip; [|done]. eauto 8.
  - destruct Hl as [Hl|Hl]; [done|]. rewrite Hl. cbn [Nat.eqb andb]. case_bool_decide as Hp; [|done]. intros [= <-].
    assert (length (drop 12 ip) = 4%nat) as H4 by (rewrite length_drop; lia).
    assert (ip = v4InV6Prefix ++ drop 12 ip) as <- by (rewrite <-Hp; by rewrite take_drop).
    apply (Forall_drop _ 12) in HF. revert HF H4. generalize (drop 12 ip). intros l HF H4.
    do 4 (destruct l as [|? l]; [done|]). destruct l; [|done]. eauto 8.
Qed.

Lemma ParseIP_String ip : ip_wf ip → ParseIP (IP_String ip) = To16 ip.
Proof.
  intros Hw. pose proof Hw as [Hl HF]. unfold IP_String, ParseIP.
  rewrite (proj2 (Nat.eqb_neq (length ip) 0)) by (destruct Hl; lia).
  destruct (To4 ip) as [p4|] eqn:E4.
  - destruct (To4_shape ip p4 Hw E4) as (a & b & c & d & -> & H4 & ->).
    by rewrite ParseAddr_v4.
  - unfold To4 in E4. destruct Hl as [Hl|Hl]; rewrite Hl in *; [done|]. cbn [Nat.eqb]. by rewrite ParseAddr_v6.
Qed.

(** ** Host and port *)
Lemma last_colon_none s : all_chars (not_char ":") s = true → last_colon s = None.
Proof.
  induction s as [|c s IH]; [done|]. cbn. unfold not_char at 1. intros H.
  apply andb_true_iff in H as [Hc%negb_true_iff H]. by rewrite IH, Hc.
Qed.

Lemma last_colon_app s port :
  all_chars (not_char ":") port = true → last_colon (s +:+ ":" +:+ port) = Some (s, port).
Proof.
  intros H. induction s as [|c s IH].
  - rewrite app_nil_l_string, string_cons_app, app_nil_l_string. cbn. by rewrite last_colon_none.
  - rewrite string_cons_app. cbn [last_colon]. by rewrite IH.
Qed.

Lemma last_colon_port s a b : last_colon s = Some (a, b) → all_chars (not_char ":") b = true ∧ s = a +:+ ":" +:+ b.
Proof.
  revert a b. induction s as [|c s IH]; intros a b; [done|]. cbn.
  destruct (last_colon s) as [[a' b']|] eqn:E.
  - intros [= <- <-]. destruct (IH _ _ eq_refl) as [H ->]. by rewrite string_cons_app.
  - destruct (Ascii.eqb_spec c ":") as [->|]; [|done]. intros [= <- <-]. split; [|done].
    clear IH. induction s as [|c s IH]; [done|]. cbn in *. destruct (last_colon s) as [[??]|]; [done|].
    unfold not_char at 1. destruct (Ascii.eqb c ":"); [done|]. by apply IH.
Qed.

Lemma cut_app sep s t : all_chars (not_char sep) s = true → cut sep (s +:+ String sep t) = Some (s, t).
Proof.
  induction s as [|c s IH]; cbn [all_chars]; intros H.
  - rewrite app_nil_l_string. cbn. by rewrite Ascii.eqb_refl.
  - apply andb_true_iff in H as [Hc%negb_true_iff H]. rewrite string_cons_app. cbn [cut]. by rewrite Hc, IH.
Qed.

(** What [SplitHostPort] returns as a port is free of colons and brackets. *)
Definition plain_port (s : string) : bool := all_chars (not_char ":") s && no_brackets s.

Lemma SplitHostPort_port addr host port : SplitHostPort addr = Some (host, port) → plain_port port = true.
Proof.
  unfold SplitHostPort, plain_port, no_brackets. destruct (last_colon addr) as [[before p]|] eqn:E; [|done].
  destruct (last_colon_port _ _ _ E) as [Hp Hs]. destruct addr as [|c rest]; [done|].
  destruct (Ascii.eqb c "[").
  - destruct (cut "]" rest) as [[h after]|] eqn:Ec; [|done]. case_bool_decide as Ha; [|done]. cbn [negb].
    destruct (all_chars (not_char "[") rest && all_chars (not_char "]") after) eqn:Eb; [|done].
    intros [= _ <-]. apply andb_true_iff in Eb as [H1 H2]. rewrite Hp.
    assert (∃ x, rest = x +:+ String "]" after) as [x ->].
    { clear -Ec. revert h Ec. induction rest as [|d rest IH]; intros h; [done|]. cbn.
      destruct (Ascii.eqb_spec d "]") as [->|]; [intros [= _ <-]; by exists ""|].
      destruct (cut "]" rest) as [[a b]|] eqn:E; [|done]. intros [= _ <-].
      destruct (IH a eq_refl) as [x ->]. by exists (String d x). }
    subst after. rewrite all_chars_app in H1, H2. apply andb_true_iff in H1 as [_ H1]. cbn in H1, H2.
    rewrite all_chars_app in H1. apply andb_true_iff in H1 as [_ H1]. by rewrite H1, H2.
  - destruct (negb _); [done|].
    destruct (all_chars (not_char "[") (String c rest) && all_chars (not_char "]") (String c rest)) eqn:Eb; [|done].
    intros [= _ <-]. rewrite Hs, !all_chars_app, !andb_true_iff in Eb. by destruct Eb as [(_ & _ & ->) (_ & _ & ->)]; rewrite Hp.
Qed.

(** Characters a printed address is made of. *)
Definition addr_char (c : ascii) : bool := hex_or_colon c || Ascii.eqb c ".".

Lemma addr_char_not c d : addr_char d = false → addr_char c = true → not_char d c = true.
Proof. intros Hd Hc. unfold not_char. apply negb_true_iff, Ascii.eqb_neq. intros ->. by rewrite Hc in Hd. Qed.

Lemma Split_Join host port :
  all_chars addr_char host = true → host ≠ "" → plain_port port = true →
  SplitHostPort (JoinHostPort host port) = Some (host, port).
Proof.
  intros Hh Hne Hp. unfold plain_port, no_brackets in Hp. rewrite !andb_true_iff in Hp. destruct Hp as [Hp [Hb1 Hb2]].
  assert (Hnot : ∀ d, addr_char d = false → all_chars (not_char d) host = true)
    by (intros d Hd; eapply all_chars_impl; [|exact Hh]; intros c; by apply addr_char_not).
  unfold JoinHostPort, SplitHostPort. destruct (all_chars (not_char ":") host) eqn:Hc.
  - rewrite last_colon_app by done. destruct host as [|c host]; [done|].
    rewrite string_cons_app at 1. pose proof (Hnot "["%char eq_refl) as Hb. cbn in Hb. unfold not_char in Hb at 1.
    apply andb_true_iff in Hb as [Hb%negb_true_iff _]. rewrite Hb, Hc. cbn [negb].
    unfold no_brackets. by rewrite !all_chars_app, !Hnot, Hb1, Hb2.
  - assert (last_colon ("[" +:+ host +:+ "]:" +:+ port) = Some ("[" +:+ host +:+ "]", port)) as ->.
    { rewrite <-(last_colon_app ("[" +:+ host +:+ "]") port) by done. by rewrite !string_app_assoc. }
    change ("[" +:+ host +:+ "]:" +:+ port) with (String "[" (host +:+ String "]" (":" +:+ port))).
    cbn [Ascii.eqb Bool.eqb]. rewrite cut_app by (by apply Hnot). rewrite bool_decide_eq_true_2 by done. cbn [negb].
    rewrite all_chars_app, (Hnot "["%char) by done. cbn. rewrite !all_chars_app, Hb1, Hb2. done.
Qed.

Lemma IP_String_chars ip : ip_wf ip → all_chars addr_char (IP_String ip) = true ∧ IP_String ip ≠ "".
Proof.
  intros Hw. pose proof Hw as [Hl HF]. unfold IP_String.
  rewrite (proj2 (Nat.eqb_neq (length ip) 0)) by (destruct Hl; lia). destruct (To4 ip) as [p4|] eqn:E4.
  - destruct (To4_shape ip p4 Hw E4) as (a & b & c & d & -> & H4 & _). cbn [v4_String].
    rewrite !Forall_cons in H4. destruct H4 as (Ha & Hb & Hc & Hd & _). split.
    + assert (Ho : ∀ x, 0 ≤ x < 256 → all_chars addr_char (appendDecimal x) = true).
      { intros x Hx. eapply all_chars_impl; [|by apply octet_digits]. intros e He. unfold addr_char, hex_or_colon, hexval.
        unfold is_digit in He. by rewrite He, bool_decide_eq_true_2. }
      by rewrite !all_chars_app, !Ho.
    + by destruct (octet_cons a ("." +:+ appendDecimal b +:+ "." +:+ appendDecimal c +:+ "." +:+ appendDecimal d)) as (? & ? & ->).
  - unfold To4 in E4. destruct Hl as [Hl|Hl]; rewrite Hl in *; [done|]. cbn [Nat.eqb].
    destruct (v6_chars ip Hl HF) as (s & t & -> & Hs & Ht). split; [|by destruct s].
    eapply (all_chars_impl hex_or_colon); [intros c; unfold addr_char; by intros ->|]. by rewrite !all_chars_app, Hs, Ht.
Qed.

(** A joined address and port: both come back, and the host parses to the address. *)
Lemma Split_Join_IP ip port :
  ip_wf ip → plain_port port = true →
  SplitHostPort (JoinHostPort (IP_String ip) port) = Some (IP_String ip, port) ∧ ParseIP (IP_String ip) = To16 ip.
Proof.
  intros Hw Hp. destruct (IP_String_chars ip Hw) as [Hc Hne].
  split; [by apply Split_Join|by apply ParseIP_String].
Qed.
