(* ===== verification/Egress.v ===== *)
(** * Outbound requests: the reserved-address guards

    [Module Ssrf] is src/internal/validation/ssrf.go: the reserved ranges, the check of a
    configured URL's host and the dial function installed on the HTTP clients.  [Module
    Challenge] is the dialling part of the HTTP-01 and TLS-ALPN-01 validators of
    src/internal/api/acme/validators.go, [Module Scan] the address expansion of the network
    scanner, src/internal/service/network_scan.go.

    The resolver is an argument, indexed by the number of lookups made before: the same name
    may get another answer each time.  A dial returns the peers it may connect to. *)

From Stdlib Require Import ZArith Lia Ascii String.
From stdpp Require Import prelude strings list pretty.
From S2P Require Import Prelude GoBytes AcmeWire NetAddr.

Local Open Scope Z_scope.

Module Ssrf.
(** [rfc1918Nets]. *)
Definition rfc1918Nets : list IPNet :=
  omap (λ cidr, snd <$> ParseCIDR cidr) ["10.0.0.0/8"; "172.16.0.0/12"; "192.168.0.0/16"].

(** [_, n, err := net.ParseCIDR(cidr); err == nil && n.Contains(ip)]. *)
Definition in_cidr (cidr : string) (ip : IP) : bool :=
  match ParseCIDR cidr with Some (_, n) => Contains n ip | None => false end.

(** [block] is the switch [SetBlockRFC1918Outbound] sets at boot. *)
Definition IsReservedIP (block : bool) (ip : IP) : bool :=
  if IsLoopback ip then true
  else if in_cidr "169.254.0.0/16" ip then true
  else if in_cidr "224.0.0.0/4" ip then true
  else if bool_decide (IP_String ip = "255.255.255.255") then true
  else block && existsb (λ n, Contains n ip) rfc1918Nets.

(** The empty slice is nil. *)
Definition isReservedIPForDial (block : bool) (ip : IP) : bool :=
  if Nat.eqb (length ip) 0 then true
  else if IsReservedIP block ip then true
  else if IsUnspecified ip then true
  else if in_cidr "fe80::/10" ip then true
  else in_cidr "ff00::/8" ip.

Section dial.
Context (block : bool) (resolver : nat → string → res (list IP)).

(** [net.Dialer.DialContext] on a TCP address, as documented: an IP literal is the peer, an
    empty host the local system, a name is looked up and its addresses are tried in turn. *)
Definition DialContext (addr : string) (n : nat) : res (list IP) * nat :=
  match SplitHostPort addr with
  | None => (Err (ErrMsg "dial: invalid address"), n)
  | Some (host, _) =>
      if bool_decide (host = "") then (Ok [IPv4 127 0 0 1], n)
      else match ParseIP host with
           | Some ip => (Ok [ip], n)
           | None => (resolver n host, S n)
           end
  end.

(** [SafeHTTPDialContext(timeout)]: the function it returns. *)
Definition SafeHTTPDialContext (addr : string) (n : nat) : res (list IP) * nat :=
  match SplitHostPort addr with
  | None => (Err (ErrMsg "invalid dial address"), n)
  | Some (host, port) =>
      match ParseIP host with
      | Some ip =>
          if isReservedIPForDial block ip then (Err (ErrMsg "refusing to dial reserved address"), n)
          else DialContext addr n
      | None =>
          match resolver n host with
          | Err e => (Err (ErrWrap "resolve" e), S n)
          | Ok ips =>
              match ips with
              | [] => (Err (ErrMsg "no addresses found"), S n)
              | ip0 :: _ =>
                  if existsb (isReservedIPForDial block) ips
                  then (Err (ErrMsg "refusing to dial: resolves to reserved address"), S n)
                  else DialContext (JoinHostPort (IP_String ip0) port) (S n)
              end
          end
      end
  end.

(** [ValidateSafeURL] on a URL that parsed: its scheme in lower case and its host.  A failed
    lookup is tolerated. *)
Definition ValidateSafeURL_host (scheme host : string) (n : nat) : res unit * nat :=
  if negb (bool_decide (scheme = "http") || bool_decide (scheme = "https")) then
    (Err (ErrMsg "url scheme is not allowed; only http and https are permitted"), n)
  else if bool_decide (host = "") then (Err (ErrMsg "url must include a host"), n)
  else match ParseIP host with
       | Some ip =>
           if isReservedIPForDial block ip
           then (Err (ErrMsg "url host resolves to a reserved address and cannot be used"), n)
           else (Ok tt, n)
       | None =>
           match resolver n host with
           | Err _ => (Ok tt, S n)
           | Ok ips =>
               if existsb (isReservedIPForDial block) ips
               then (Err (ErrMsg "url host resolves to a reserved address and cannot be used"), S n)
               else (Ok tt, S n)
           end
       end.
End dial.
End Ssrf.
Import Ssrf.

Module Challenge.
Section dial.
Context (block : bool) (resolver : nat → string → res (list IP)).

(** The check both validators make before they dial; the errors wrap the sentinels. *)
Definition check_host (host : string) (n : nat) : res unit * nat :=
  match resolver n host with
  | Err _ | Ok [] => (Err Problems.ErrChallengeConnection, S n)
  | Ok ips =>
      if existsb (isReservedIPForDial block) ips then (Err Problems.ErrChallengeReservedIP, S n) else (Ok tt, S n)
  end.

(** The [DialContext] of [NewHTTP01Validator]'s transport. *)
Definition http01_DialContext (addr : string) (n : nat) : res (list IP) * nat :=
  match SplitHostPort addr with
  | None => (Err (ErrMsg "invalid address"), n)
  | Some (host, _) =>
      match check_host host n with
      | (Err e, n') => (Err e, n')
      | (Ok _, n') => DialContext resolver addr n'
      end
  end.

(** The connection [TLSALPN01Validator.Validate] opens. *)
Definition tlsalpn01_dial (domain : string) (n : nat) : res (list IP) * nat :=
  match check_host domain n with
  | (Err e, n') => (Err e, n')
  | (Ok _, n') => DialContext resolver (JoinHostPort domain "443") n'
  end.
End dial.
End Challenge.

Module Scan.
(** [incrementIP]: add one, the carry running left; an all-ones address wraps to zero. *)
Fixpoint increment_bytes (ip : IP) : IP * bool :=
  match ip with
  | [] => ([], true)
  | b :: rest =>
      let '(rest', carry) := increment_bytes rest in
      if carry then let b' := (b + 1) mod 256 in (b' :: rest', b' =? 0) else (b :: rest', false)
  end.
Definition incrementIP (ip : IP) : IP := fst (increment_bytes ip).

(** The loop of [expandCIDR]; [None] when [fuel] runs out. *)
Fixpoint expand_loop (fuel : nat) (block : bool) (ipNet : IPNet) (ip : IP) : option (list string) :=
  match fuel with
  | O => None
  | S f =>
      if Contains ipNet ip then
        rest ← expand_loop f block ipNet (incrementIP ip);
        Some (if IsReservedIP block ip then rest else IP_String ip :: rest)
      else Some []
  end.

(** [ips[1 : len(ips)-1]] for more than two. *)
Definition trim_ends (ips : list string) : list string :=
  if Nat.ltb 2 (length ips) then take (length ips - 2) (drop 1 ips) else ips.

(** [IPMask.Size]: the number of leading ones of a mask. *)
Fixpoint mask_ones (m : list Z) : nat :=
  match m with
  | [] => O
  | b :: m' => if b =? 255 then (8 + mask_ones m')%nat else length (filter (λ k, Z.testbit b k = true) (seqZ 0 8))
  end.

Definition expandCIDR (block : bool) (cidr : string) : option (list string) :=
  match ParseCIDR cidr with
  | None =>
      match ParseIP cidr with
      | Some singleIP => Some (if IsReservedIP block singleIP then [] else [IP_String singleIP])
      | None => Some []
      end
  | Some (ip, ipNet) =>
      let ones := mask_ones (net_Mask ipNet) in
      let bits := (8 * length (net_Mask ipNet))%nat in
      let hostBits := (bits - ones)%nat in
      if Nat.ltb 12 hostBits then Some []
      else trim_ends <$> expand_loop 4097 block ipNet (default [] (Mask ip (net_Mask ipNet)))
  end.

(** [expandEndpoints]: [fmt.Sprintf("%s:%d", ip, port)] for every address and port. *)
Definition endpoint (ip : string) (port : Z) : string := ip +:+ ":" +:+ pretty port.

Definition expandEndpoints (block : bool) (cidrs : list string) (ports : list Z) : list string :=
  cidrs ≫= (λ cidr, default [] (expandCIDR block cidr) ≫= (λ ip, endpoint ip <$> ports)).
End Scan.
