(* ===== verification/EgressScan.v ===== *)
(** * The scanner's address expansion

    An address as a number: masks are divisions, [incrementIP] adds one, and the loop of
    [expandCIDR] ends after the block's addresses, each visited once, in order. *)

From Stdlib Require Import ZArith Lia Ascii String.
From stdpp Require Import prelude strings list pretty.
From S2P Require Import Prelude GoBytes AcmeWire NetAddr NetAddrFacts Egress EgressFacts.
Import Ssrf Scan.

Local Open Scope Z_scope.

Notation byte_ok := (λ z, 0 ≤ z < 256).

(** ** Addresses as numbers *)
Fixpoint num (l : IP) : Z :=
  match l with
  | [] => 0
  | b :: l' => b * 256 ^ Z.of_nat (length l') + num l'
  end.

(** The [w] bytes of a number. *)
Fixpoint bytes (w : nat) (n : Z) : IP :=
  match w with
  | O => []
  | S w' => (n / 256 ^ Z.of_nat w') mod 256 :: bytes w' n
  end.

Lemma pow256_pos w : 0 < 256 ^ Z.of_nat w.
Proof. apply Z.pow_pos_nonneg; lia. Qed.

Lemma pow256_S w : 256 ^ Z.of_nat (S w) = 256 * 256 ^ Z.of_nat w.
Proof. rewrite Nat2Z.inj_succ, Z.pow_succ_r by lia. done. Qed.

Lemma num_range l : Forall byte_ok l → 0 ≤ num l < 256 ^ Z.of_nat (length l).
Proof.
  induction 1 as [|b l Hb _ IH]; [done|]. cbn [num length]. rewrite pow256_S.
  pose proof (pow256_pos (length l)). nia.
Qed.

Lemma length_bytes w n : length (bytes w n) = w.
Proof. induction w as [|w IH]; cbn; [done|by rewrite IH]. Qed.

Lemma bytes_ok w n : Forall byte_ok (bytes w n).
Proof. induction w as [|w IH]; constructor; [apply Z.mod_pos_bound; lia|done]. Qed.

(** The bytes of a number do not see what is above them. *)
Lemma bytes_high w a n : bytes w (a * 256 ^ Z.of_nat w + n) = bytes w n.
Proof.
  revert a. induction w as [|w IH]; intros a; [done|]. cbn [bytes]. rewrite pow256_S.
  pose proof (pow256_pos w). replace (a * (256 * 256 ^ Z.of_nat w) + n) with (n + (a * 256) * 256 ^ Z.of_nat w) by lia.
  rewrite Z.div_add, Z.mod_add by lia. f_equal. replace (n + a * 256 * 256 ^ Z.of_nat w) with ((a * 256) * 256 ^ Z.of_nat w + n) by lia.
  apply IH.
Qed.

Lemma bytes_num l : Forall byte_ok l → bytes (length l) (num l) = l.
Proof.
  induction 1 as [|b l Hb HF IH]; [done|]. cbn [num length bytes]. rewrite bytes_high, IH.
  pose proof (num_range l HF). rewrite Z.add_comm, Z.div_add, Z.div_small, Z.add_0_l, Z.mod_small by lia. done.
Qed.

Lemma num_bytes w n : num (bytes w n) = n mod 256 ^ Z.of_nat w.
Proof.
  induction w as [|w IH]; [cbn; by rewrite Z.mod_1_r|]. cbn [bytes num]. rewrite length_bytes, IH, pow256_S.
  pose proof (pow256_pos w). rewrite (Z.mul_comm 256), Z.rem_mul_r by lia. lia.
Qed.

Lemma num_inj l l' : length l = length l' → Forall byte_ok l → Forall byte_ok l' → num l = num l' → l = l'.
Proof. intros Hl H H' E. by rewrite <-(bytes_num l), <-(bytes_num l'), Hl, E. Qed.

(** ** Adding one *)
Lemma increment_spec l :
  Forall byte_ok l →
  let '(l', carry) := increment_bytes l in
  length l' = length l ∧ Forall byte_ok l' ∧
  num l + 1 = num l' + (if carry then 256 ^ Z.of_nat (length l) else 0).
Proof.
  induction 1 as [|b l Hb HF IH]; [done|]. cbn [increment_bytes].
  destruct (increment_bytes l) as [l' carry]. destruct IH as (Hl & HF' & Hn). destruct carry; cbn [num length].
  - rewrite Hl, pow256_S. destruct (Z.eqb_spec ((b + 1) mod 256) 0) as [E|E].
    + assert (b = 255) as -> by (destruct (decide (b = 255)); [done|rewrite Z.mod_small in E by lia; lia]).
      split_and!; [done|constructor; [by vm_compute|done]|]. change ((255 + 1) mod 256) with 0. lia.
    + assert (b ≠ 255) by (intros ->; done). rewrite Z.mod_small in * by lia.
      split_and!; [done|constructor; [lia|done]|]. lia.
  - rewrite Hl. split_and!; [done|by constructor|]. lia.
Qed.

Lemma incrementIP_bytes w n : incrementIP (bytes w n) = bytes w (n + 1).
Proof.
  pose proof (increment_spec (bytes w n) (bytes_ok w n)) as H. unfold incrementIP.
  destruct (increment_bytes (bytes w n)) as [l' carry]. destruct H as (Hl & HF & Hn). cbn [fst].
  rewrite length_bytes in *. apply num_inj; [by rewrite length_bytes, Hl|done|apply bytes_ok|].
  pose proof (num_range l' HF) as Hr. rewrite Hl in Hr. rewrite num_bytes in *. pose proof (pow256_pos w).
  rewrite <-Z.add_mod_idemp_l, Hn by lia. destruct carry.
  - replace (num l' + 256 ^ Z.of_nat w) with (num l' + 1 * 256 ^ Z.of_nat w) by lia. by rewrite Z.mod_add, Z.mod_small by lia.
  - by rewrite Z.add_0_r, Z.mod_small by lia.
Qed.

(** ** Masks *)
Lemma land_byte b k :
  0 ≤ b < 256 → (k < 8)%nat → Z.land b (255 - 255 / 2 ^ Z.of_nat k) = b / 2 ^ (8 - Z.of_nat k) * 2 ^ (8 - Z.of_nat k).
Proof.
  intros Hb Hk.
  assert (Forall (λ k, Forall (λ b, Z.land b (255 - 255 / 2 ^ Z.of_nat k) = b / 2 ^ (8 - Z.of_nat k) * 2 ^ (8 - Z.of_nat k))
    (seqZ 0 256)) (seq 0 8)) as HF by (apply (bool_decide_unpack _); by vm_compute).
  rewrite Forall_forall in HF. specialize (HF k). rewrite Forall_forall in HF.
  apply HF; [apply elem_of_seq; lia|apply elem_of_seqZ; lia].
Qed.

Lemma land_255 b : 0 ≤ b < 256 → Z.land b 255 = b.
Proof. intros H. change 255 with (Z.ones 8). rewrite Z.land_ones by lia. by apply Z.mod_small. Qed.

Lemma mask_zero l w : length l = w → num (zip_with Z.land l (CIDRMask 0 w)) = 0 ∧ length (zip_with Z.land l (CIDRMask 0 w)) = w.
Proof.
  revert l. induction w as [|w IH]; intros l Hl; [by destruct l|]. destruct l as [|b l]; [done|].
  destruct (IH l) as [E1 E2]; [by injection Hl|]. cbn. rewrite E1, E2. change (255 - 255 / 2 ^ 0) with 0. by rewrite Z.land_0_r.
Qed.

(** Masking is rounding down to a multiple of the block size. *)
Lemma num_mask l w ones :
  length l = w → Forall byte_ok l → (ones ≤ 8 * w)%nat →
  let h := Z.of_nat (8 * w - ones) in
  num (zip_with Z.land l (CIDRMask ones w)) = num l / 2 ^ h * 2 ^ h ∧
  length (zip_with Z.land l (CIDRMask ones w)) = w ∧ Forall byte_ok (zip_with Z.land l (CIDRMask ones w)).
Proof.
  revert l ones. induction w as [|w IH]; intros l ones Hl HF Ho h.
  { destruct l; [|done]. subst h. replace ones with O by lia. by split_and!. }
  destruct l as [|b l]; [done|]. injection Hl as Hl. apply Forall_cons in HF as [Hb HF].
  cbn [CIDRMask]. destruct (Nat.leb 8 ones) eqn:E8.
  - apply Nat.leb_le in E8. destruct (IH l (ones - 8)%nat) as (I1 & I2 & I3); [done..|lia|].
    cbn [zip_with num length]. rewrite land_255, I1, I2, Hl by done.
    replace (8 * w - (ones - 8))%nat with (8 * S w - ones)%nat in * by lia. fold h in I1 |- *.
    split_and!; [|done|by constructor]. set (p := 2 ^ h) in *. assert (0 < p) by (apply Z.pow_pos_nonneg; lia).
    assert (256 ^ Z.of_nat w = 2 ^ (8 * Z.of_nat w - h) * p) as ->.
    { unfold p. rewrite <-Z.pow_add_r by lia.
      replace (8 * Z.of_nat w - h + h) with (8 * Z.of_nat w) by lia. by rewrite Z.pow_mul_r by lia. }
    rewrite Z.mul_assoc, Z.div_add_l by lia. lia.
  - apply Nat.leb_gt in E8. destruct (mask_zero l w Hl) as [M1 M2].
    cbn [zip_with num length]. rewrite M1, M2, Hl, land_byte by (done || lia).
    split_and!; [|done|].
    + assert (2 ^ h = 2 ^ (8 - Z.of_nat ones) * 256 ^ Z.of_nat w) as ->.
      { change 256 with (2 ^ 8). rewrite <-Z.pow_mul_r, <-Z.pow_add_r by lia. f_equal. lia. }
      set (q := 2 ^ (8 - Z.of_nat ones)). assert (0 < q) by (apply Z.pow_pos_nonneg; lia).
      pose proof (num_range l HF) as Hr. rewrite Hl in Hr. pose proof (pow256_pos w).
      rewrite (Z.mul_comm q (256 ^ _)), <-Z.div_div by lia.
      rewrite (Z.add_comm (b * _)), Z.div_add, (Z.div_small (num l)) by lia. rewrite Z.add_0_l. lia.
    + constructor.
      * assert (0 < 2 ^ (8 - Z.of_nat ones)) by (apply Z.pow_pos_nonneg; lia).
        pose proof (Z.mul_div_le b (2 ^ (8 - Z.of_nat ones))). pose proof (Z.div_pos b (2 ^ (8 - Z.of_nat ones))). nia.
      * clear -HF Hl. revert w Hl. induction HF as [|b l Hb HF IH]; intros [|w] Hl; try done.
        cbn. change (255 - 255 / 2 ^ 0) with 0. rewrite Z.land_0_r. constructor; [lia|]. apply IH. by injection Hl.
Qed.

(** Two addresses agree under a mask when they lie in the same block. *)
Lemma masked_eq l l' w ones :
  length l = w → length l' = w → Forall byte_ok l → Forall byte_ok l' → (ones ≤ 8 * w)%nat →
  zip_with Z.land l (CIDRMask ones w) = zip_with Z.land l' (CIDRMask ones w) ↔
  num l / 2 ^ Z.of_nat (8 * w - ones) = num l' / 2 ^ Z.of_nat (8 * w - ones).
Proof.
  intros Hl Hl' HF HF' Ho. destruct (num_mask l w ones Hl HF Ho) as (E1 & E2 & E3).
  destruct (num_mask l' w ones Hl' HF' Ho) as (E1' & E2' & E3'). cbv zeta in *.
  assert (0 < 2 ^ Z.of_nat (8 * w - ones)) by (apply Z.pow_pos_nonneg; lia). split.
  - intros E. rewrite E, E1' in E1. nia.
  - intros E. apply num_inj; [by rewrite E2, E2'|done..|]. rewrite E1, E1'. by rewrite E.
Qed.

Lemma length_CIDRMask ones w : length (CIDRMask ones w) = w.
Proof. revert ones. induction w as [|w IH]; intros ones; [done|]. cbn. case_match; cbn; by rewrite IH. Qed.

(** A mask that leaves at most twelve host bits of a 16-byte address keeps its first 12 bytes. *)
Lemma wide_mask ones :
  (116 ≤ ones ≤ 128)%nat → ∃ m4, CIDRMask ones 16 = replicate 12 255 ++ m4 ∧ length m4 = 4%nat.
Proof.
  intros H. assert (ones ∈ seq 116 13) as Hin by (apply elem_of_seq; lia). cbn in Hin.
  repeat (apply elem_of_cons in Hin as [->|Hin]); try (by apply elem_of_nil in Hin); vm_compute; eexists [_; _; _; _]; done.
Qed.

Lemma land_all l : Forall byte_ok l → zip_with Z.land l (replicate (length l) 255) = l.
Proof. induction 1 as [|b l Hb HF IH]; [done|]. cbn. by rewrite land_255, IH. Qed.

Lemma zip_wide l m4 :
  length l = 16%nat → Forall byte_ok l →
  zip_with Z.land l (replicate 12 255 ++ m4) = take 12 l ++ zip_with Z.land (drop 12 l) m4.
Proof.
  intros Hl HF. rewrite <-(take_drop 12 l) at 1. rewrite zip_with_app by (rewrite length_take, length_replicate; lia).
  f_equal. rewrite <-(land_all (take 12 l)) at 2 by (by apply Forall_take).
  by replace (length (take 12 l)) with 12%nat by (rewrite length_take; lia).
Qed.

(** [Contains] is having the same bits under the mask, [To4] or not. *)
Lemma Contains_masked w ones base ip :
  w = 4%nat ∨ w = 16%nat → length base = w → length ip = w → Forall byte_ok base → Forall byte_ok ip →
  (8 * w - 12 ≤ ones ≤ 8 * w)%nat →
  Contains (mkIPNet base (CIDRMask ones w)) ip =
  bool_decide (zip_with Z.land base (CIDRMask ones w) = zip_with Z.land ip (CIDRMask ones w)).
Proof.
  intros Hw Hb Hi HFb HFi Ho. unfold Contains, networkNumberAndMask. cbn [net_IP net_Mask]. rewrite length_CIDRMask.
  destruct Hw as [->| ->].
  - unfold To4. rewrite Hb, Hi. cbn [Nat.eqb default]. unfold id. rewrite Hb. cbn. by rewrite Hi, Hb.
  - destruct (wide_mask ones) as (m4 & Em & H4); [lia|]. rewrite Em, !zip_wide by done.
    assert (Hne : ∀ x y : list Z, take 12 base ≠ take 12 ip → bool_decide (take 12 base ++ x = take 12 ip ++ y) = false).
    { intros x y Hn. apply bool_decide_eq_false. intros [E _]%app_inj_1; [done|]. rewrite !length_take. lia. }
    assert (length (drop 12 base) = 4%nat) as Lb by (rewrite length_drop; lia).
    assert (length (drop 12 ip) = 4%nat) as Li by (rewrite length_drop; lia).
    unfold To4. rewrite Hb, Hi. cbn [Nat.eqb andb].
    case_bool_decide as Eb; case_bool_decide as Ei; cbn [default]; unfold id;
      rewrite ?Lb, ?Hb; cbn [Nat.eqb orb negb]; rewrite ?Lb, ?Li, ?Hb, ?Hi; cbn [Nat.eqb andb].
    + rewrite drop_app_length'; [|done]. apply bool_decide_ext. rewrite Eb, Ei. split; [by intros ->|by intros ?%(inj _)].
    + symmetry. apply Hne. by rewrite Eb.
    + symmetry. apply Hne. by rewrite Ei.
    + by rewrite !zip_wide.
Qed.

Lemma Contains_block w ones base ip :
  w = 4%nat ∨ w = 16%nat → length base = w → length ip = w → Forall byte_ok base → Forall byte_ok ip →
  (8 * w - 12 ≤ ones ≤ 8 * w)%nat →
  Contains (mkIPNet base (CIDRMask ones w)) ip =
  bool_decide (num base / 2 ^ Z.of_nat (8 * w - ones) = num ip / 2 ^ Z.of_nat (8 * w - ones)).
Proof.
  intros Hw Hb Hi HFb HFi Ho. rewrite Contains_masked by done. apply bool_decide_ext. apply masked_eq; (done || lia).
Qed.

(** ** The loop *)
Definition block_addresses (w : nat) (base : Z) (h : nat) : list IP := (λ i, bytes w (base + i)) <$> seqZ 0 (2 ^ Z.of_nat h).

Definition scanned (block : bool) (ips : list IP) : list string :=
  IP_String <$> filter (λ ip, IsReservedIP block ip = false) ips.

Section loop.
Context (w ones : nat) (base : Z) (block : bool).
Context (Hw : w = 4%nat ∨ w = 16%nat) (Ho : (8 * w - 12 ≤ ones ≤ 8 * w)%nat).
Let h := (8 * w - ones)%nat.
Context (Hb : 0 ≤ base < 256 ^ Z.of_nat w) (Ha : base mod 2 ^ Z.of_nat h = 0).

Notation ipNet := (mkIPNet (bytes w base) (CIDRMask ones w)).

Lemma size_divides : ∃ k, 256 ^ Z.of_nat w = k * 2 ^ Z.of_nat h ∧ 1 < k.
Proof.
  exists (2 ^ Z.of_nat ones). split.
  - rewrite <-Z.pow_add_r by lia. change 256 with (2 ^ 8). rewrite <-Z.pow_mul_r by lia. f_equal. unfold h. lia.
  - apply Z.pow_gt_1; lia.
Qed.

Lemma contains_offset i :
  0 ≤ i ≤ 2 ^ Z.of_nat h → Contains ipNet (bytes w (base + i)) = bool_decide (i < 2 ^ Z.of_nat h).
Proof.
  intros Hi. rewrite Contains_block by (done || apply length_bytes || apply bytes_ok). fold h.
  rewrite !num_bytes, (Z.mod_small base) by done. set (p := 2 ^ Z.of_nat h) in *.
  assert (0 < p) by (apply Z.pow_pos_nonneg; lia). destruct size_divides as (k & Ek & Hk). fold p in Ek.
  apply bool_decide_ext. pose proof (Z.div_mod base p) as Hd. rewrite Ha in Hd. set (q := base / p) in *.
  assert (base = q * p) as Eb by lia. assert (0 ≤ q < k) by nia.
  destruct (decide (i < p)) as [Hlt|Hge].
  - split; [done|intros _]. rewrite Z.mod_small by nia. rewrite Eb, Z.div_add_l, (Z.div_small i) by lia. lia.
  - split; [|lia]. replace i with p by lia. intros E. exfalso.
    destruct (decide (q + 1 < k)).
    + rewrite Z.mod_small in E by nia. rewrite Eb in E. replace (q * p + p) with ((q + 1) * p) in E by lia.
      rewrite Z.div_mul in E by lia. lia.
    + rewrite Eb in E. replace (q * p + p) with (k * p) in E by nia. rewrite Ek, Z.mod_same in E by nia.
      rewrite Z.div_0_l in E by lia. nia.
Qed.

Lemma expand_loop_spec fuel n i :
  0 ≤ i → i + Z.of_nat n = 2 ^ Z.of_nat h → (n < fuel)%nat →
  expand_loop fuel block ipNet (bytes w (base + i)) =
  Some (scanned block ((λ i, bytes w (base + i)) <$> seqZ i (Z.of_nat n))).
Proof.
  revert n i. induction fuel as [|f IH]; intros n i Hi Hn Hf; [lia|]. cbn [expand_loop].
  rewrite contains_offset by lia. destruct n as [|n].
  - rewrite bool_decide_eq_false_2 by lia. done.
  - rewrite bool_decide_eq_true_2 by lia. rewrite incrementIP_bytes, <-Z.add_assoc, (IH n) by lia. cbn.
    rewrite (seqZ_cons i) by lia. replace (Z.pred (Z.of_nat (S n))) with (Z.of_nat n) by lia.
    unfold scanned. rewrite fmap_cons, filter_cons. replace (Z.succ i) with (i + 1) by lia.
    destruct (IsReservedIP block (bytes w (base + i))); [by rewrite decide_False by done|by rewrite decide_True by done].
Qed.

Lemma expand_loop_block fuel :
  (Z.to_nat (2 ^ Z.of_nat h) < fuel)%nat →
  expand_loop fuel block ipNet (bytes w base) = Some (scanned block (block_addresses w base h)).
Proof.
  intros Hf. assert (0 < 2 ^ Z.of_nat h) by (apply Z.pow_pos_nonneg; lia).
  pose proof (expand_loop_spec fuel (Z.to_nat (2 ^ Z.of_nat h)) 0) as H'. rewrite Z.add_0_r, Z2Nat.id in H' by lia.
  apply H'; lia.
Qed.
End loop.

(** ** What the parser returns *)
Lemma ipv4_fields_wf first dot val digs fields s l :
  byte_ok val → Forall byte_ok fields → (length fields ≤ 3)%nat →
  ipv4_fields first dot val digs fields s = Some l → length l = 4%nat ∧ Forall byte_ok l.
Proof.
  revert first dot val digs fields. induction s as [|c s IH]; intros first dot val digs fields Hv HF Hl; cbn [ipv4_fields].
  - destruct (Nat.ltb_spec (length fields) 3); [done|]. intros [= <-]. rewrite length_app. cbn.
    split; [lia|]. by apply Forall_app_2; [|apply Forall_singleton].
  - destruct (is_digit c) eqn:Hd.
    + destruct (_ && _); [done|]. destruct (255 <? _) eqn:E; [done|]. apply IH; [|done..].
      unfold is_digit in Hd. lia.
    + destruct (Ascii.eqb c "."); [|done]. destruct (_ || _); [done|].
      destruct (Nat.eqb_spec (length fields) 3); [done|]. apply IH; [lia| |rewrite length_app; cbn; lia].
      by apply Forall_app_2; [|apply Forall_singleton].
Qed.

Lemma parseIPv4Fields_wf s l : parseIPv4Fields s = Some l → length l = 4%nat ∧ Forall byte_ok l.
Proof. apply ipv4_fields_wf; [lia|constructor|cbn; lia]. Qed.

Lemma scan_hex_range off acc s n v r : 0 ≤ acc < 65536 → scan_hex off acc s = Some (n, v, r) → 0 ≤ v < 65536.
Proof.
  revert off acc. induction s as [|c s IH]; intros off acc Ha; cbn [scan_hex]; [by intros [= _ <- _]|].
  destruct (hexval c) as [d|] eqn:Hd; [|by intros [= _ <- _]]. destruct (Nat.ltb 3 off); [done|].
  destruct (65535 <? _) eqn:E; [done|]. apply IH. split; [|lia].
  assert (0 ≤ d) by (unfold hexval in Hd; repeat case_match; simplify_eq; lia). lia.
Qed.

Lemma v6_loop_wf f ip e s ip' e' s' :
  (length ip + 2 * f ≤ 16)%nat → Forall byte_ok ip → (∀ k, e = Some k → k ≤ length ip)%nat →
  v6_loop f ip e s = Some (ip', e', s') →
  (length ip' ≤ 16)%nat ∧ Forall byte_ok ip' ∧ (∀ k, e' = Some k → k ≤ length ip')%nat.
Proof.
  revert ip e s. induction f as [|f IH]; intros ip e s Hl HF He; cbn [v6_loop].
  { intros [= <- <- _]. split_and!; [lia|done..]. }
  destruct (scan_hex 0 0 s) as [[[off acc] rest]|] eqn:Es; [|done]. apply scan_hex_range in Es; [|lia].
  destruct (Nat.eqb off 0); [done|]. cbv zeta.
  set (ip1 := ip ++ [acc / 256; acc mod 256]).
  assert (length ip1 = (length ip + 2)%nat) as L1 by (unfold ip1; by rewrite length_app).
  assert (Forall byte_ok ip1) as F1.
  { apply Forall_app_2; [done|]. repeat constructor; try (apply Z.mod_pos_bound; lia);
      [apply Z.div_pos|apply Z.div_lt_upper_bound]; lia. }
  destruct rest as [|c rest'].
  { intros [= <- <- _]. split_and!; [lia|done|]. intros k Hk%He. lia. }
  destruct (Ascii.eqb c ".").
  { destruct (_ && _); [done|]. destruct (Nat.ltb_spec 16 (length ip + 4)); [done|].
    destruct (parseIPv4Fields s) as [fs|] eqn:Ef; [|done]. apply parseIPv4Fields_wf in Ef as [L4 F4].
    intros [= <- <- _]. rewrite length_app, L4. split_and!; [lia|by apply Forall_app_2|]. intros k Hk%He. lia. }
  destruct (negb _); [done|]. destruct rest' as [|c' s1]; [done|]. destruct (Ascii.eqb c' ":").
  - destruct e; [done|]. case_bool_decide.
    + intros [= <- <- _]. split_and!; [lia|done|]. intros k [= <-]. lia.
    + apply IH; [lia|done|]. intros k [= <-]. lia.
  - apply IH; [lia|done|]. intros k Hk%He. lia.
Qed.

Lemma ParseAddr_wf s l : ParseAddr s = Some l → ip_wf l.
Proof.
  assert (Hfin : ∀ r, (∀ ip e s', r = Some (ip, e, s') → (length ip ≤ 16)%nat ∧ Forall byte_ok ip ∧ (∀ k, e = Some k → k ≤ length ip)%nat) →
            v6_finish r = Some l → length l = 16%nat ∧ Forall byte_ok l).
  { intros [[[ip e] [|]]|] H; [|done..]. destruct (H _ _ _ eq_refl) as (Hl & HF & He). unfold v6_finish.
    destruct (Nat.ltb_spec (length ip) 16); destruct e as [k|]; try done; intros [= <-].
    - specialize (He k eq_refl). rewrite !length_app, length_take, length_replicate, length_drop. split; [lia|].
      apply Forall_app_2; [by apply Forall_take|]. apply Forall_app_2; [apply Forall_replicate; lia|by apply Forall_drop].
    - split; [lia|done]. }
  unfold ParseAddr, ip_wf. destruct (addr_kind s) as [c|]; [|done]. destruct (Ascii.eqb c ".").
  { intros H%parseIPv4Fields_wf. tauto. }
  destruct (Ascii.eqb c ":"); [|done]. destruct (has_zone s); [done|]. unfold parseIPv6.
  destruct (HasPrefix s "::"); [case_bool_decide|].
  - intros [= <-]. split; [by right|]. by apply Forall_replicate.
  - intros [H1 H2]%Hfin; [split; [by right|done]|]. intros ip e s' Hr. eapply v6_loop_wf in Hr; [done|cbn; lia|constructor|].
    intros k [= <-]. cbn. lia.
  - intros [H1 H2]%Hfin; [split; [by right|done]|]. intros ip e s' Hr. by eapply v6_loop_wf in Hr; [|cbn; lia|constructor|].
Qed.

Lemma partial_byte k :
  (k < 8)%nat → (255 - 255 / 2 ^ Z.of_nat k =? 255) = false ∧
  length (filter (λ j, Z.testbit (255 - 255 / 2 ^ Z.of_nat k) j = true) (seqZ 0 8)) = k.
Proof.
  intros Hk. assert (k ∈ seq 0 8) as Hin by (apply elem_of_seq; lia). cbn in Hin.
  repeat (apply elem_of_cons in Hin as [->|Hin]); try (by apply elem_of_nil in Hin); by vm_compute.
Qed.

Lemma mask_ones_CIDRMask n w : (n ≤ 8 * w)%nat → mask_ones (CIDRMask n w) = n.
Proof.
  revert n. induction w as [|w IH]; intros n Hn; cbn [CIDRMask mask_ones]; [lia|].
  destruct (Nat.leb_spec 8 n); cbn [mask_ones].
  - rewrite IH by lia. change (255 =? 255) with true. cbn [Nat.add]. lia.
  - by destruct (partial_byte n) as [-> ->].
Qed.

Lemma dtoi_nonneg n s r : 0 ≤ n → dtoi n s = Some r → 0 ≤ r.
Proof.
  revert n. induction s as [|c s IH]; intros n Hn; cbn; [by intros [= <-]|].
  destruct (is_digit c) eqn:Hd; [|done]. destruct (_ <=? _); [done|]. apply IH. unfold is_digit in Hd. lia.
Qed.

(** The network of a parsed block: its mask, and its base rounded down. *)
Lemma ParseCIDR_spec cidr ip ipNet :
  ParseCIDR cidr = Some (ip, ipNet) →
  ∃ a n, let w := length a in
    ip_wf a ∧ (n ≤ 8 * w)%nat ∧ To16 a = Some ip ∧
    ipNet = mkIPNet (zip_with Z.land a (CIDRMask n w)) (CIDRMask n w) ∧
    Mask ip (CIDRMask n w) = Some (zip_with Z.land a (CIDRMask n w)).
Proof.
  unfold ParseCIDR. destruct (cut "/" cidr) as [[addr mask]|]; [|done].
  destruct (ParseAddr addr) as [a|] eqn:Ea; [|done]. apply ParseAddr_wf in Ea as Hwf.
  case_bool_decide; [done|]. destruct (dtoi 0 mask) as [n|] eqn:En; [|done]. apply dtoi_nonneg in En; [|lia].
  destruct (Z.ltb_spec (8 * Z.of_nat (length a)) n); [done|]. intros [= <- <-]. exists a, (Z.to_nat n).
  destruct Hwf as [[Hl|Hl] HF]; rewrite Hl in *.
  - destruct a as [|x1 [|x2 [|x3 [|x4 [|]]]]]; try done.
    assert (Mask (v4InV6Prefix ++ [x1; x2; x3; x4]) (CIDRMask (Z.to_nat n) 4) =
            Some (zip_with Z.land [x1; x2; x3; x4] (CIDRMask (Z.to_nat n) 4))) as EM.
    { unfold Mask. rewrite length_CIDRMask. cbn [Nat.eqb andb]. rewrite length_CIDRMask.
      change (take 12 (v4InV6Prefix ++ [x1; x2; x3; x4])) with v4InV6Prefix. by rewrite bool_decide_eq_true_2. }
    cbn [To16 length Nat.eqb default]. unfold id. rewrite EM. split_and!; [by split; [left|]|lia|done..].
  - assert (To16 a = Some a) as E16 by (unfold To16; by rewrite Hl).
    assert (Mask a (CIDRMask (Z.to_nat n) 16) = Some (zip_with Z.land a (CIDRMask (Z.to_nat n) 16))) as EM.
    { unfold Mask. cbv zeta. do 3 (rewrite ?length_CIDRMask, ?Hl; cbn [Nat.eqb andb]). done. }
    rewrite E16. cbn [default]. unfold id. rewrite EM. split_and!; [by split; [right|]|lia|done..].
Qed.



(** The ends are cut from what the filter leaves, whatever they are: the last usable address of
    a block that runs into the broadcast address, and the first and last of an IPv6 block. *)
Example expand_cuts_usable :
  expandCIDR false "255.255.255.248/29" =
    Some ["255.255.255.249"; "255.255.255.250"; "255.255.255.251"; "255.255.255.252"; "255.255.255.253"] ∧
  expandCIDR false "fd00::/126" = Some ["fd00::1"; "fd00::2"].
Proof. by vm_compute. Qed.

(** ** Endpoints *)
Lemma pretty_pos_digits p : all_chars is_digit (pretty (N.pos p)) = true.
Proof. unfold pretty, pretty_N. case_decide; [done|]. by apply pretty_N_go_digits. Qed.

Lemma pretty_port port : 0 ≤ port → all_chars is_digit (pretty port) = true.
Proof. destruct port as [|p|p]; [done| |done]. intros _. apply pretty_pos_digits. Qed.

Lemma digit_plain s : all_chars is_digit s = true → plain_port s = true.
Proof.
  intros H. unfold plain_port, no_brackets.
  by rewrite !(all_chars_impl is_digit _ s) by (done || (intros c Hc; unfold not_char; apply negb_true_iff, Ascii.eqb_neq; by intros ->)).
Qed.

(** The endpoints of an IPv6 block cannot be dialled.  An endpoint is the printed address, a
    colon and the port; for an IPv6 address that text is not a host and port, so every dial of
    it fails, while the endpoint of an IPv4 address splits into the two. *)
Theorem ipv6_endpoints_undialable ip port :
  ip_wf ip → 0 ≤ port →
  SplitHostPort (endpoint (IP_String ip) port) =
  (if bool_decide (To4 ip = None) then None else Some (IP_String ip, pretty port)).
Proof.
  intros Hw Hport. destruct (IP_String_chars ip Hw) as [Hc Hne]. unfold endpoint.
  pose proof (digit_plain _ (pretty_port port Hport)) as Hpl. case_bool_decide as H4.
  - pose proof Hw as [[Hl|Hl] HF]; [unfold To4 in H4; by rewrite Hl in H4|]. revert Hc Hne. unfold IP_String.
    rewrite Hl, H4. cbn [Nat.eqb]. destruct (v6_chars ip Hl HF) as (s & t & -> & Hs & _). intros Hc Hne. unfold SplitHostPort.
    unfold plain_port in Hpl. apply andb_true_iff in Hpl as [Hp _]. rewrite last_colon_app by done.
    destruct ((s +:+ ":" +:+ t) +:+ ":" +:+ pretty port) as [|c rest] eqn:E; [done|].
    assert (Ascii.eqb c "[" = false) as ->.
    { apply Ascii.eqb_neq. intros ->. destruct s as [|c s]; [done|]. rewrite !string_cons_app in E. injection E as -> _. done. }
    rewrite !all_chars_app. cbn. by rewrite andb_false_r.
  - assert (all_chars (not_char ":") (IP_String ip) = true) as Hnc.
    { destruct (To4 ip) as [p4|] eqn:E4; [|done]. destruct (To4_shape ip p4 Hw E4) as (a & b & c & d & -> & HF & _).
      unfold IP_String. rewrite E4. pose proof Hw as [Hl _].
      rewrite (proj2 (Nat.eqb_neq (length ip) 0)) by (destruct Hl; lia). cbn [v4_String].
      rewrite !Forall_cons in HF. destruct HF as (Ha & Hb & Hcc & Hd & _).
      assert (Ho : ∀ x, 0 ≤ x < 256 → all_chars (not_char ":") (appendDecimal x) = true).
      { intros x Hx. apply octet_digits, digit_plain in Hx. unfold plain_port in Hx. by apply andb_true_iff in Hx as [-> _]. }
      by rewrite !all_chars_app, !Ho. }
    pose proof (Split_Join (IP_String ip) (pretty port) Hc Hne Hpl) as H. unfold JoinHostPort in H. by rewrite Hnc in H.
Qed.

Example ipv6_endpoints_undialable_witness :
  expandEndpoints false ["fd00::1/128"] [443] = ["fd00::1:443"] ∧ SplitHostPort "fd00::1:443" = None.
Proof.
  split; [by vm_compute|].
  apply (ipv6_endpoints_undialable (253 :: replicate 14 0 ++ [1]) 443); [|lia].
  split; [by right|]. apply (bool_decide_unpack _). by vm_compute.
Defined.

(** ** The reserved ranges in numbers *)
Definition reserved_v4 (block : bool) (a b c d : Z) : Prop :=
  a = 127 ∨ (a = 169 ∧ b = 254) ∨ 224 ≤ a ≤ 239 ∨
  (a = 255 ∧ b = 255 ∧ c = 255 ∧ d = 255) ∨ (a = 0 ∧ b = 0 ∧ c = 0 ∧ d = 0) ∨
  block = true ∧ (a = 10 ∨ (a = 172 ∧ 16 ≤ b ≤ 31) ∨ (a = 192 ∧ b = 168)).

(** Under a mask of [k] bits the byte [n] of a network stands for a range. *)
Lemma land_range k n b :
  0 ≤ b < 256 → (k < 8)%nat → n mod 2 ^ (8 - Z.of_nat k) = 0 →
  n = Z.land b (255 - 255 / 2 ^ Z.of_nat k) ↔ n ≤ b < n + 2 ^ (8 - Z.of_nat k).
Proof.
  intros Hb Hk Hn. rewrite land_byte by done. set (p := 2 ^ (8 - Z.of_nat k)) in *.
  assert (0 < p) by (apply Z.pow_pos_nonneg; lia).
  pose proof (Z.div_mod b p) as Hd. pose proof (Z.mod_pos_bound b p) as Hm.
  pose proof (Z.div_mod n p) as Hdn. rewrite Hn in Hdn. split; [lia|]. intros Hr.
  assert (b / p = n / p) as ->; [|lia]. symmetry. apply Z.div_unique with (b - n); lia.
Qed.

Lemma reserved_v4_exact block a b c d :
  Forall byte_ok [a; b; c; d] → isReservedIPForDial block [a; b; c; d] = true ↔ reserved_v4 block a b c d.
Proof.
  intros HF. pose proof HF as HF'. rewrite !Forall_cons in HF'. destruct HF' as (Ha & Hb & Hc & Hd & _).
  assert (IP_String [a; b; c; d] = "255.255.255.255" ↔ a = 255 ∧ b = 255 ∧ c = 255 ∧ d = 255) as Hs.
  { split; [|by intros (-> & -> & -> & ->)]. intros E. assert (ip_wf [a; b; c; d]) as Hw by (by split; [left|]).
    apply ParseIP_String in Hw. rewrite E in Hw. cbn in Hw. by injection Hw as <- <- <- <-. }
  assert (Hc16 : in_cidr "169.254.0.0/16" [a; b; c; d] =
            bool_decide ([169; 254; 0; 0] = [Z.land a 255; Z.land b 255; Z.land c 0; Z.land d 0])) by done.
  assert (Hmc : in_cidr "224.0.0.0/4" [a; b; c; d] =
            bool_decide ([224; 0; 0; 0] = [Z.land a 240; Z.land b 0; Z.land c 0; Z.land d 0])) by done.
  assert (Hpr : existsb (λ n, Contains n [a; b; c; d]) rfc1918Nets =
            bool_decide ([10; 0; 0; 0] = [Z.land a 255; Z.land b 0; Z.land c 0; Z.land d 0]) ||
            (bool_decide ([172; 16; 0; 0] = [Z.land a 255; Z.land b 240; Z.land c 0; Z.land d 0]) ||
             (bool_decide ([192; 168; 0; 0] = [Z.land a 255; Z.land b 255; Z.land c 0; Z.land d 0]) || false))) by done.
  assert (Hu : IsUnspecified [a; b; c; d] = bool_decide ([a; b; c; d] = [0; 0; 0; 0])).
  { unfold IsUnspecified, Equal. cbn [length IPv4zero IPv4 IPv6unspecified app v4InV6Prefix replicate Nat.eqb andb take drop].
    rewrite (bool_decide_eq_true_2 (v4InV6Prefix = _)) by done. rewrite (bool_decide_eq_false_2 (_ :: _ :: _ :: _ :: _ :: _ = _)) by done. by rewrite orb_false_r. }
  pose proof (land_range 4 224 a Ha ltac:(lia) eq_refl) as R1. pose proof (land_range 4 16 b Hb ltac:(lia) eq_refl) as R2.
  change (255 - 255 / 2 ^ Z.of_nat 4) with 240 in *. change (2 ^ (8 - Z.of_nat 4)) with 16 in *.
  unfold isReservedIPForDial, IsReservedIP. rewrite Hc16, Hmc, Hpr, Hu, !Z.land_0_r, !land_255 by done.
  change (in_cidr "fe80::/10" [a; b; c; d]) with false. change (in_cidr "ff00::/8" [a; b; c; d]) with false.
  change (IsLoopback [a; b; c; d]) with (a =? 127). cbn [length Nat.eqb]. unfold reserved_v4.
  assert (L2 : ∀ x y : Z, [169; 254; 0; 0] = [x; y; 0; 0] ↔ x = 169 ∧ y = 254) by (intros; split; [by intros [= <- <-]|by intros [-> ->]]).
  assert (L3 : ∀ x, [224; 0; 0; 0] = [x; 0; 0; 0] ↔ 224 = x) by (intros; split; [by intros [= <-]|by intros <-]).
  assert (L4 : ∀ x, [10; 0; 0; 0] = [x; 0; 0; 0] ↔ x = 10) by (intros; split; [by intros [= <-]|by intros ->]).
  assert (L5 : ∀ x y, [172; 16; 0; 0] = [x; y; 0; 0] ↔ x = 172 ∧ 16 = y) by (intros; split; [by intros [= <- <-]|by intros [-> <-]]).
  assert (L6 : ∀ x y, [192; 168; 0; 0] = [x; y; 0; 0] ↔ x = 192 ∧ y = 168) by (intros; split; [by intros [= <- <-]|by intros [-> ->]]).
  assert (L7 : [a; b; c; d] = [0; 0; 0; 0] ↔ a = 0 ∧ b = 0 ∧ c = 0 ∧ d = 0) by (split; [by intros [= -> -> -> ->]|by intros (-> & -> & -> & ->)]).
  rewrite (bool_decide_ext _ _ (L2 a b)), (bool_decide_ext _ _ (L3 (Z.land a 240))), (bool_decide_ext _ _ (L4 a)),
    (bool_decide_ext _ _ (L5 a (Z.land b 240))), (bool_decide_ext _ _ (L6 a b)), (bool_decide_ext _ _ L7), (bool_decide_ext _ _ Hs).
  assert (Hif : ∀ x y : bool, (if x then true else y) = x || y) by done.
  rewrite !Hif, !orb_true_iff, andb_true_iff, !orb_true_iff, !bool_decide_eq_true, Z.eqb_eq, R1, R2.
  assert (224 ≤ a < 224 + 16 ↔ 224 ≤ a ≤ 239) as -> by lia. assert (16 ≤ b < 16 + 16 ↔ 16 ≤ b ≤ 31) as -> by lia.
  assert (false = true ↔ False) as -> by (split; done). tauto.
Qed.

Definition reserved_v6 (ip : IP) : Prop :=
  ip = IPv6loopback ∨ ip = IPv6unspecified ∨
  (ip !! 0%nat = Some 254 ∧ ∃ b, ip !! 1%nat = Some b ∧ 128 ≤ b ≤ 191) ∨ ip !! 0%nat = Some 255.

(** A block of IPv6 addresses given by its first two bytes. *)
Lemma Contains_v6 n0 n1 m0 m1 ip x0 x1 l :
  To4 ip = None → ip = x0 :: x1 :: l → length l = 14%nat →
  Contains (mkIPNet (n0 :: n1 :: replicate 14 0) (m0 :: m1 :: replicate 14 0)) ip =
  bool_decide (To4 (n0 :: n1 :: replicate 14 0) = None) &&
  bool_decide (Z.land n0 m0 = Z.land x0 m0 ∧ Z.land n1 m1 = Z.land x1 m1).
Proof.
  intros H4 -> Hl. unfold Contains, networkNumberAndMask. cbn [net_IP net_Mask]. rewrite H4. cbn [default]. unfold id.
  assert (Hz : ∀ k l : list Z, length k = 14%nat → zip_with Z.land k (replicate 14 0) = replicate 14 0).
  { intros k _ Hk. do 14 (destruct k as [|? k]; [done|]). destruct k; [|done]. cbn. by rewrite !Z.land_0_r. }
  case_bool_decide as En.
  - rewrite En. cbn [default]. change (length (n0 :: n1 :: replicate 14 0)) with 16%nat.
    change (length (m0 :: m1 :: replicate 14 0)) with 16%nat. cbn [Nat.eqb orb negb].
    change (length (n0 :: n1 :: replicate 14 0)) with 16%nat. cbn [length]. rewrite Hl. cbn [Nat.eqb andb].
    apply bool_decide_ext. cbn [zip_with]. rewrite (Hz l l Hl), (Hz (replicate 14 0) l) by done.
    split; [by intros [= -> ->]|by intros [-> ->]].
  - exfalso. apply En. unfold To4. change (length (n0 :: n1 :: replicate 14 0)) with 16%nat. cbn [Nat.eqb andb].
    rewrite bool_decide_eq_false_2; [done|]. intros Hp. by vm_compute in Hp.
Qed.

Lemma reserved_v6_exact block ip :
  length ip = 16%nat → Forall byte_ok ip → To4 ip = None →
  isReservedIPForDial block ip = true ↔ reserved_v6 ip.
Proof.
  intros Hl HF H4.
  assert (Hv4 : ∀ n, length (default (net_IP n) (To4 (net_IP n))) = 4%nat → length (net_Mask n) = 4%nat → Contains n ip = false).
  { intros n Hn Hm. unfold Contains, networkNumberAndMask. rewrite Hn, Hm. cbn [Nat.eqb orb negb]. rewrite H4.
    change (default ip None) with ip. by rewrite Hl, Hn. }
  assert (IP_String ip ≠ "255.255.255.255") as Hs.
  { intros E. assert (ip_wf ip) as Hw by (by split; [right|]). apply ParseIP_String in Hw. rewrite E in Hw. unfold To16 in Hw.
    rewrite Hl in Hw. vm_compute in Hw. injection Hw as <-. by vm_compute in H4. }
  destruct ip as [|x0 [|x1 l]] eqn:Eip; [done..|]. rewrite <-Eip in *.
  assert (length l = 14%nat) as Hl' by (subst ip; by injection Hl). 
  assert (byte_ok x0 ∧ byte_ok x1) as [H0 H1] by (subst ip; rewrite !Forall_cons in HF; tauto).
  assert (in_cidr "fe80::/10" ip = bool_decide (254 = x0 ∧ 128 ≤ x1 < 128 + 64)) as E1.
  { change (in_cidr "fe80::/10" ip) with (Contains (mkIPNet (254 :: 128 :: replicate 14 0) (255 :: 192 :: replicate 14 0)) ip).
    rewrite (Contains_v6 _ _ _ _ ip x0 x1 l) by done. cbn [andb]. apply bool_decide_ext.
    change (Z.land 254 255) with 254. change (Z.land 128 192) with 128. rewrite land_255 by done.
    by rewrite <-(land_range 2 128 x1 H1 ltac:(lia) eq_refl). }
  assert (in_cidr "ff00::/8" ip = bool_decide (255 = x0)) as E2.
  { change (in_cidr "ff00::/8" ip) with (Contains (mkIPNet (255 :: 0 :: replicate 14 0) (255 :: 0 :: replicate 14 0)) ip).
    rewrite (Contains_v6 _ _ _ _ ip x0 x1 l) by done. cbn [andb]. apply bool_decide_ext.
    change (Z.land 255 255) with 255. rewrite land_255, !Z.land_0_r by done. tauto. }
  assert (IsUnspecified ip = bool_decide (ip = IPv6unspecified)) as E3.
  { unfold IsUnspecified, Equal. rewrite Hl. cbn [length IPv4zero IPv4 IPv6unspecified app v4InV6Prefix replicate Nat.eqb].
    rewrite bool_decide_eq_false_2; [done|]. intros E. by rewrite E in H4. }
  assert (IsLoopback ip = bool_decide (ip = IPv6loopback)) as E4 by (unfold IsLoopback, Equal; by rewrite H4, Hl).
  unfold isReservedIPForDial, IsReservedIP. rewrite E1, E2, E3, E4, Hl.
  assert (in_cidr "169.254.0.0/16" ip = false) as -> by (apply (Hv4 (mkIPNet [169; 254; 0; 0] [255; 255; 0; 0])); done).
  assert (in_cidr "224.0.0.0/4" ip = false) as -> by (apply (Hv4 (mkIPNet [224; 0; 0; 0] [240; 0; 0; 0])); done).
  assert (existsb (λ n, Contains n ip) rfc1918Nets = false) as ->.
  { change (Contains (mkIPNet [10; 0; 0; 0] [255; 0; 0; 0]) ip || (Contains (mkIPNet [172; 16; 0; 0] [255; 240; 0; 0]) ip ||
      (Contains (mkIPNet [192; 168; 0; 0] [255; 255; 0; 0]) ip || false)) = false). by rewrite !Hv4. }
  rewrite (bool_decide_eq_false_2 (IP_String ip = _)), andb_false_r by done. cbn [Nat.eqb].
  assert (Hif : ∀ x y : bool, (if x then true else y) = x || y) by done.
  rewrite !Hif, !orb_true_iff, !bool_decide_eq_true. unfold reserved_v6. rewrite Eip. cbn [lookup list_lookup].
  assert (false = true ↔ False) as -> by (split; done). split.
  - intros [[?|?]|[?|[[<- Hr]|<-]]]; [by left|done|by right; left|right; right; left|by right; right; right].
    split; [done|]. exists x1. split; [done|lia].
  - intros [?|[?|[[[= ->] (b & [= ->] & Hr)]|[= ->]]]]; [by left; left|by right; left|right; right; left; split; [done|lia]|by right; right; right].
Qed.

(** The guard refuses exactly the reserved ranges.  An IPv4 address, in either form, is
    refused when it is loopback, link-local, multicast, broadcast, unspecified or, with the
    switch on, private; any other IPv6 address when it is loopback, unspecified, link-local or
    multicast.  With the switch off the private ranges pass. *)
Theorem reserved_exact block ip :
  ip_wf ip →
  isReservedIPForDial block ip = true ↔
  match To4 ip with
  | Some [a; b; c; d] => reserved_v4 block a b c d
  | _ => reserved_v6 ip
  end.
Proof.
  intros Hw. destruct (To4 ip) as [p4|] eqn:E4.
  - destruct (To4_shape ip p4 Hw E4) as (a & b & c & d & -> & HF & E16). rewrite <-(reserved_v4_exact block) by done.
    pose proof Hw as [[Hl|Hl] _].
    + unfold To4 in E4. rewrite Hl in E4. by injection E4 as ->.
    + unfold To16 in E16. rewrite Hl in E16.
      assert (ip = v4InV6Prefix ++ [a; b; c; d]) as -> by (by apply (inj Some)). by rewrite reserved_mapped.
  - destruct Hw as [[Hl|Hl] HF]; [unfold To4 in E4; by rewrite Hl in E4|]. by apply reserved_v6_exact.
Qed.

Example reserved_exact_witness :
  isReservedIPForDial false (IPv4 10 96 0 1) ≠ true ∧ isReservedIPForDial true (IPv4 10 96 0 1) = true.
Proof.
  assert (ip_wf (IPv4 10 96 0 1)) as Hw by (split; [by right|apply (bool_decide_unpack _); by vm_compute]).
  split.
  - rewrite (reserved_exact false (IPv4 10 96 0 1) Hw). cbn. unfold reserved_v4. naive_solver lia.
  - apply (reserved_exact true (IPv4 10 96 0 1) Hw). cbn. unfold reserved_v4. naive_solver lia.
Defined.
