(* ===== verification/Validation.v ===== *)
(** * Input validation (src/internal/validation)

    [Module Regexp] is the part of Go's regular expressions the patterns use, as syntax, with
    its meaning and an executable matcher; [Module Runes] the UTF-8 decoding of a [range] loop
    and [strings.Builder.WriteRune].  [Module Command] is command.go, [Module Names] has the
    name checks of command.go, [Module Headers] headers.go and [Module
    Unicode] unicode.go with its caller in the local issuer. *)

From Stdlib Require Import ZArith Lia Ascii String.
From stdpp Require Import prelude strings list.
From S2P Require Import Prelude GoBytes.

Local Open Scope Z_scope.

(** ** Regular expressions *)
Module Regexp.
Inductive re :=
  | Void
  | Eps
  | Class (p : ascii → bool)
  | Cat (r1 r2 : re)
  | Alt (r1 r2 : re)
  | Star (r : re).

Definition Opt (r : re) : re := Alt r Eps.
Definition Plus (r : re) : re := Cat r (Star r).
Definition Char (c : ascii) : re := Class (Ascii.eqb c).
Fixpoint Times (n : nat) (r : re) : re := match n with O => Eps | S n => Cat r (Times n r) end.
Fixpoint Upto (n : nat) (r : re) : re := match n with O => Eps | S n => Opt (Cat r (Upto n r)) end.
(** [r{n,m}], which Go's parser expands this way. *)
Definition Repeat (r : re) (n m : nat) : re := Cat (Times n r) (Upto (m - n) r).

(** The strings an expression matches from end to end. *)
Inductive matches : re → string → Prop :=
  | m_eps : matches Eps ""
  | m_class p c : p c = true → matches (Class p) (String c "")
  | m_cat r1 r2 s1 s2 : matches r1 s1 → matches r2 s2 → matches (Cat r1 r2) (s1 +:+ s2)
  | m_alt1 r1 r2 s : matches r1 s → matches (Alt r1 r2) s
  | m_alt2 r1 r2 s : matches r2 s → matches (Alt r1 r2) s
  | m_star0 r : matches (Star r) ""
  | m_star1 r s1 s2 : matches r s1 → matches (Star r) s2 → matches (Star r) (s1 +:+ s2).

Fixpoint nullable (r : re) : bool :=
  match r with
  | Void | Class _ => false
  | Eps | Star _ => true
  | Cat r1 r2 => nullable r1 && nullable r2
  | Alt r1 r2 => nullable r1 || nullable r2
  end.

(** [Cat] and [Alt] without their trivial cases. *)
Definition cat (r1 r2 : re) : re := match r1 with Void => Void | Eps => r2 | _ => Cat r1 r2 end.
Definition alt (r1 r2 : re) : re := match r1, r2 with Void, _ => r2 | _, Void => r1 | _, _ => Alt r1 r2 end.

(** What remains to be matched after a character. *)
Fixpoint deriv (c : ascii) (r : re) : re :=
  match r with
  | Void | Eps => Void
  | Class p => if p c then Eps else Void
  | Cat r1 r2 => if nullable r1 then alt (cat (deriv c r1) r2) (deriv c r2) else cat (deriv c r1) r2
  | Alt r1 r2 => alt (deriv c r1) (deriv c r2)
  | Star r => cat (deriv c r) (Star r)
  end.

(** [MatchString] for a pattern between [^] and [$]. *)
Fixpoint MatchString (r : re) (s : string) : bool :=
  match s with
  | EmptyString => nullable r
  | String c s' => MatchString (deriv c r) s'
  end.

Definition range (lo hi c : ascii) : bool := (byte_val lo <=? byte_val c) && (byte_val c <=? byte_val hi).
Definition lower (c : ascii) : bool := range "a" "z" c.
Definition upper (c : ascii) : bool := range "A" "Z" c.
Definition alnum (c : ascii) : bool := lower c || upper c || range "0" "9" c.
End Regexp.
Import Regexp.

(** ** Runes *)
Module Runes.
Definition RuneError : Z := 65533.

(** A continuation byte in a range. *)
Definition cont (lo hi b : Z) : bool := (lo <=? b) && (b <=? hi).

(** [utf8.DecodeRune] on a non-empty slice: the rune and the bytes after it.  An invalid
    sequence is [RuneError] of width one. *)
Definition DecodeRune (b0 : Z) (l : list Z) : Z * list Z :=
  if b0 <? 128 then (b0, l)
  else if (194 <=? b0) && (b0 <=? 223) then
    match l with
    | b1 :: l' => if cont 128 191 b1 then ((b0 - 192) * 64 + (b1 - 128), l') else (RuneError, l)
    | [] => (RuneError, l)
    end
  else if (224 <=? b0) && (b0 <=? 239) then
    match l with
    | b1 :: b2 :: l' =>
        if cont (if b0 =? 224 then 160 else 128) (if b0 =? 237 then 159 else 191) b1 && cont 128 191 b2
        then ((b0 - 224) * 4096 + (b1 - 128) * 64 + (b2 - 128), l') else (RuneError, l)
    | _ => (RuneError, l)
    end
  else if (240 <=? b0) && (b0 <=? 244) then
    match l with
    | b1 :: b2 :: b3 :: l' =>
        if cont (if b0 =? 240 then 144 else 128) (if b0 =? 244 then 143 else 191) b1 &&
           cont 128 191 b2 && cont 128 191 b3
        then ((b0 - 240) * 262144 + (b1 - 128) * 4096 + (b2 - 128) * 64 + (b3 - 128), l')
        else (RuneError, l)
    | _ => (RuneError, l)
    end
  else (RuneError, l).

(** The runes a [range] loop visits; [fuel] is the number of bytes. *)
Fixpoint decode (fuel : nat) (l : list Z) : list Z :=
  match fuel, l with
  | S f, b0 :: l' => let '(r, rest) := DecodeRune b0 l' in r :: decode f rest
  | _, _ => []
  end.
Definition runes (s : string) : list Z := decode (len s) (bytes_of s).

(** [utf8.AppendRune]: a surrogate or a value out of range is written as [RuneError]. *)
Definition AppendRune (r : Z) : list Z :=
  let r := if (r <? 0) || (1114111 <? r) || ((55296 <=? r) && (r <=? 57343)) then RuneError else r in
  if r <? 128 then [r]
  else if r <? 2048 then [192 + r / 64; 128 + r mod 64]
  else if r <? 65536 then [224 + r / 4096; 128 + (r / 64) mod 64; 128 + r mod 64]
  else [240 + r / 262144; 128 + (r / 4096) mod 64; 128 + (r / 64) mod 64; 128 + r mod 64].

Definition of_runes (l : list Z) : string := of_bytes (l ≫= AppendRune).
End Runes.
Import Runes.

(** ** Commands *)
Module Command.
Definition dquote : ascii := ascii_of_nat 34.

Definition dangerousChars : list ascii :=
  [";"; "|"; "&"; "$"; "`"; "("; ")"; "{"; "}"; "<"; ">"; "\"; dquote; "'"; "010"; "013"; "000"]%char.

Definition has_char (c : ascii) (s : string) : bool := negb (all_chars (not_char c) s).

Definition ValidateShellCommand (cmd : string) : res unit :=
  if bool_decide (cmd = "") then Err (ErrMsg "command cannot be empty")
  else if Nat.ltb 1024 (len cmd) then Err (ErrMsg "command exceeds maximum length (1024 characters)")
  else if existsb (λ c, has_char c cmd) dangerousChars
       then Err (ErrMsg "command contains shell metacharacter (potential injection)")
  else Ok tt.

(** The length of the white-space rune at the front, 0 when there is none. *)
Definition space_width (l : list Z) : nat :=
  match list_find is_Some (flip strip_prefix l <$> space_encodings) with
  | Some (_, Some l') => length l - length l'
  | _ => 0
  end.

(** [strings.Fields]: the words between runs of white space; [word] is the one being read. *)
Fixpoint fields (fuel : nat) (word l : list Z) : list (list Z) :=
  match fuel with
  | O => if bool_decide (word = []) then [] else [word]
  | S f =>
      match l with
      | [] => if bool_decide (word = []) then [] else [word]
      | b :: l' =>
          match space_width l with
          | O => fields f (word ++ [b]) l'
          | w => (if bool_decide (word = []) then id else cons word) (fields f [] (drop w l))
          end
      end
  end.
Definition Fields (s : string) : list string := of_bytes <$> fields (len s) [] (bytes_of s).

Definition SplitShellCommand (cmd : string) : res (list string) :=
  match ValidateShellCommand cmd with
  | Err e => Err e
  | Ok _ =>
      let argv := Fields cmd in
      if bool_decide (argv = []) then Err (ErrMsg "command is whitespace-only after split") else Ok argv
  end.

(** [strings.ReplaceAll(s, c, by)] for a one-byte [c]. *)
Fixpoint replace_char (c : ascii) (by_ : string) (s : string) : string :=
  match s with
  | EmptyString => ""
  | String d s' => (if Ascii.eqb d c then by_ else String d "") +:+ replace_char c by_ s'
  end.

(** A quote between two quoted runs: closing quote, quote in double quotes, opening quote. *)
Definition quote_escape : string := "'" +:+ String dquote ("'" +:+ String dquote "'").
Definition SanitizeForShell (s : string) : string := "'" +:+ replace_char "'" quote_escape s +:+ "'".
End Command.
Import Command.

(** ** Names *)
Module Names.
(** [[a-zA-Z0-9](-?[a-zA-Z0-9])*]. *)
Definition label_re : re := Cat (Class alnum) (Star (Cat (Opt (Char "-")) (Class alnum))).
Definition domainRegex : re :=
  Cat (Opt (Cat (Char "*") (Char "."))) (Cat (Star (Cat label_re (Char "."))) label_re).

(** [strings.Contains(s, "..")]. *)
Fixpoint double_dot (s : string) : bool :=
  match s with
  | String c s' => HasPrefix s ".." || double_dot s'
  | EmptyString => false
  end.

(** [strings.HasSuffix(s, "-")]. *)
Fixpoint ends_hyphen (s : string) : bool :=
  match s with
  | EmptyString => false
  | String c EmptyString => Ascii.eqb c "-"
  | String _ s' => ends_hyphen s'
  end.

(** One round of the loop over the labels. *)
Definition check_label (label : string) : res unit :=
  if bool_decide (label = "*") then Ok tt
  else if HasPrefix label "-" || ends_hyphen label
  then Err (ErrMsg "domain label cannot start or end with hyphen")
  else if Nat.ltb 63 (len label) then Err (ErrMsg "domain label exceeds maximum length (63 characters)")
  else Ok tt.

Fixpoint check_labels (labels : list string) : res unit :=
  match labels with
  | [] => Ok tt
  | label :: rest => match check_label label with Ok _ => check_labels rest | Err e => Err e end
  end.

Definition ValidateDomainName (domain : string) : res unit :=
  if bool_decide (domain = "") then Err (ErrMsg "domain cannot be empty")
  else if Nat.ltb 253 (len domain) then Err (ErrMsg "domain exceeds maximum length (253 characters)")
  else if negb (MatchString domainRegex domain) then Err (ErrMsg "domain is invalid (must match RFC 1123 format)")
  else if double_dot domain then Err (ErrMsg "domain contains consecutive dots")
  else check_labels (Split "." domain).

Definition token_char (c : ascii) : bool := alnum c || Ascii.eqb c "_" || Ascii.eqb c "-".

Definition ValidateACMEToken (token : string) : res unit :=
  if bool_decide (token = "") then Err (ErrMsg "ACME token cannot be empty")
  else if Nat.ltb 512 (len token) then Err (ErrMsg "ACME token exceeds maximum length (512 characters)")
  else if negb (MatchString (Plus (Class token_char)) token)
  then Err (ErrMsg "ACME token contains invalid characters (must be base64url-safe)")
  else Ok tt.

End Names.

(** ** Header and body values *)
Module Headers.
Definition ValidateHeaderValue (field value : string) : res unit :=
  let field := if bool_decide (field = "") then "header" else field in
  if existsb (λ c, has_char c value) ["013"; "010"; "000"]%char
  then Err (ErrMsg (field +:+ " contains disallowed control character (CR, LF, or NUL)")) else Ok tt.

Definition isBidiOrZeroWidth (r : Z) : bool :=
  (8234 <=? r) && (r <=? 8238) || (8294 <=? r) && (r <=? 8297) || (8203 <=? r) && (r <=? 8205) ||
  (8288 <=? r) && (r <=? 8291) || (r =? 65279) || (r =? 6158).

(** [unicode.IsControl]: category Cc. *)
Definition unicode_IsControl (r : Z) : bool := (r <? 32) || (127 <=? r) && (r <=? 159).

(** The [switch] of the loop: what is written for a rune. *)
Definition sanitize_rune (r : Z) : option Z :=
  if r =? 0 then None
  else if (r =? 13) || (r =? 10) then Some 32
  else if r =? 9 then Some r
  else if r <? 32 then None
  else if (127 <=? r) && (r <=? 159) then None
  else if r =? 65533 then None
  else if isBidiOrZeroWidth r then None
  else if unicode_IsControl r then None
  else Some r.

Definition SanitizeEmailBodyValue (value : string) : string :=
  if bool_decide (value = "") then value else of_runes (omap sanitize_rune (runes value)).
End Headers.

(** ** Certificate names *)
Module Unicode.
Definition isRTLOverride (r : Z) : bool := (8234 <=? r) && (r <=? 8238) || (8294 <=? r) && (r <=? 8297).
Definition isZeroWidth (r : Z) : bool := (8203 <=? r) && (r <=? 8205) || (r =? 8288) || (r =? 65279).
Definition isControl (r : Z) : bool := (r <? 32) || (127 <=? r) && (r <=? 159).

(** The Unicode tables are arguments. *)
Section tables.
Context (IsLetter IsDigit IsMark : Z → bool).

Definition validateLabelSingleScript (label : string) : res unit :=
  if bool_decide (label = "") then Ok tt
  else if negb (existsb (λ r, r <? 128) (runes label)) then Ok tt
  else if existsb (λ r, negb (r <? 128) && (IsLetter r || IsDigit r || IsMark r)) (runes label)
  then Err (ErrMsg "label mixes ASCII with non-ASCII script character")
  else Ok tt.

(** The first pass. *)
Fixpoint forbidden_rune (l : list Z) : res unit :=
  match l with
  | [] => Ok tt
  | r :: l' =>
      if isRTLOverride r then Err (ErrMsg "contains bidirectional override character")
      else if isZeroWidth r then Err (ErrMsg "contains zero-width character")
      else if isControl r then Err (ErrMsg "contains control character")
      else forbidden_rune l'
  end.

Fixpoint all_ok {A} (check : A → res unit) (l : list A) : res unit :=
  match l with
  | [] => Ok tt
  | x :: l' => match check x with Ok _ => all_ok check l' | Err e => Err e end
  end.

Definition ValidateUnicodeSafe (name : string) : res unit :=
  if bool_decide (name = "") then Ok tt
  else match forbidden_rune (runes name) with
       | Err e => Err e
       | Ok _ => all_ok validateLabelSingleScript (Split "." name)
       end.

(** [validateCSRUnicode] of the local issuer, on the names of a CSR. *)
Definition validateCSRUnicode (commonName : string) (dnsNames emails additionalSANs : list string) : res unit :=
  match ValidateUnicodeSafe commonName with
  | Err e => Err (ErrWrap "CSR Subject.CommonName rejected" e)
  | Ok _ =>
      match all_ok ValidateUnicodeSafe dnsNames with
      | Err e => Err (ErrWrap "CSR DNSNames entry rejected" e)
      | Ok _ =>
          match all_ok ValidateUnicodeSafe emails with
          | Err e => Err (ErrWrap "CSR EmailAddresses entry rejected" e)
          | Ok _ =>
              match all_ok ValidateUnicodeSafe additionalSANs with
              | Err e => Err (ErrWrap "request SANs entry rejected" e)
              | Ok _ => Ok tt
              end
          end
      end
  end.
End tables.
End Unicode.
