(* ===== verification/ValidationFacts.v ===== *)
(** * What the validators accept

    The matcher decides its expressions' meaning ([MatchString_correct]); the domain check
    accepts exactly the names made of letter-digit-hyphen labels with no two hyphens in a row;
    a quoted string reads back as itself in a POSIX shell; the body sanitizer works rune by
    rune. *)

From Stdlib Require Import ZArith Lia Ascii String.
From stdpp Require Import prelude strings list.
From S2P Require Import Prelude GoBytes Validation.
Import Regexp Runes Command Names Headers.

Local Open Scope Z_scope.

(** ** The meaning of an expression *)
Lemma app_empty_r (s : string) : s +:+ "" = s.
Proof. induction s as [|c s IH]; [done|]. by rewrite string_cons_app, IH. Qed.

Lemma matches_void s : matches Void s ↔ False.
Proof. split; [|done]. inversion 1. Qed.

Lemma matches_eps s : matches Eps s ↔ s = "".
Proof. split; [by inversion 1|intros ->; constructor]. Qed.

Lemma matches_class p s : matches (Class p) s ↔ ∃ c, s = String c "" ∧ p c = true.
Proof. split; [inversion 1; subst; eauto|intros (c & -> & H); by constructor]. Qed.

Lemma matches_cat r1 r2 s : matches (Cat r1 r2) s ↔ ∃ s1 s2, s = s1 +:+ s2 ∧ matches r1 s1 ∧ matches r2 s2.
Proof. split; [inversion 1; subst; eauto 6|intros (s1 & s2 & -> & H1 & H2); by constructor]. Qed.

Lemma matches_alt r1 r2 s : matches (Alt r1 r2) s ↔ matches r1 s ∨ matches r2 s.
Proof. split; [inversion 1; subst; auto|intros [H|H]; by constructor]. Qed.

Definition concats (l : list string) : string := foldr String.append "" l.

Lemma matches_star r s : matches (Star r) s ↔ ∃ l, s = concats l ∧ Forall (matches r) l.
Proof.
  split.
  - intros H. remember (Star r) as r' eqn:E. induction H; simplify_eq; [by exists []|].
    destruct IHmatches2 as (l & -> & HF); [done|]. exists (s1 :: l). split; [done|by constructor].
  - intros (l & -> & HF). induction HF; cbn; by constructor.
Qed.

Lemma matches_opt r s : matches (Opt r) s ↔ matches r s ∨ s = "".
Proof. unfold Opt. by rewrite matches_alt, matches_eps. Qed.

Lemma matches_char c s : matches (Char c) s ↔ s = String c "".
Proof.
  unfold Char. rewrite matches_class. split.
  - intros (d & -> & E%Ascii.eqb_eq). by subst.
  - intros ->. exists c. by rewrite Ascii.eqb_refl.
Qed.

(** ** The matcher *)
Lemma cat_matches r1 r2 s : matches (cat r1 r2) s ↔ matches (Cat r1 r2) s.
Proof.
  rewrite matches_cat. destruct r1; cbn; try by rewrite matches_cat.
  - rewrite matches_void. split; [done|]. by intros (s1 & s2 & _ & H%matches_void & _).
  - split; [intros H; exists "", s; split_and!; [done|constructor|done]|].
    by intros (s1 & s2 & -> & ->%matches_eps & H).
Qed.

Lemma alt_matches r1 r2 s : matches (alt r1 r2) s ↔ matches (Alt r1 r2) s.
Proof.
  assert (Hv : ∀ P, matches Void s ∨ P ↔ P) by (intros P; rewrite matches_void; tauto).
  assert (Hv' : ∀ P, P ∨ matches Void s ↔ P) by (intros P; rewrite matches_void; tauto).
  rewrite matches_alt. destruct r1, r2; cbn; rewrite ?Hv, ?Hv', ?matches_alt; tauto.
Qed.

Lemma nullable_correct r : nullable r = true ↔ matches r "".
Proof.
  induction r as [| |p|r1 IH1 r2 IH2|r1 IH1 r2 IH2|r IH]; cbn.
  - by rewrite matches_void.
  - split; [constructor|done].
  - rewrite matches_class. split; [done|]. by intros (c & [=] & _).
  - rewrite matches_cat, andb_true_iff, IH1, IH2. split; [intros [H1 H2]; by exists "", ""|].
    intros ([|] & [|] & E & H1 & H2); rewrite ?string_cons_app in E; done.
  - by rewrite matches_alt, orb_true_iff, IH1, IH2.
  - split; [constructor|done].
Qed.

Lemma matches_cat_cons c r1 r2 s :
  matches (Cat r1 r2) (String c s) ↔
  (∃ s1 s2, s = s1 +:+ s2 ∧ matches r1 (String c s1) ∧ matches r2 s2) ∨ (matches r1 "" ∧ matches r2 (String c s)).
Proof.
  rewrite matches_cat. split.
  - intros ([|d s1] & s2 & E & H1 & H2).
    + right. change ("" +:+ s2) with s2 in E. by subst.
    + rewrite string_cons_app in E. injection E as <- ->. left. eauto.
  - intros [(s1 & s2 & -> & H1 & H2)|[H1 H2]]; [exists (String c s1), s2|exists "", (String c s)]; by rewrite ?string_cons_app.
Qed.

Lemma deriv_correct c r s : matches (deriv c r) s ↔ matches r (String c s).
Proof.
  revert s. induction r as [| |p|r1 IH1 r2 IH2|r1 IH1 r2 IH2|r IH]; intros s; cbn.
  - by rewrite !matches_void.
  - by rewrite matches_void, matches_eps.
  - rewrite matches_class. destruct (p c) eqn:E.
    + rewrite matches_eps. split; [intros ->; eauto|]. by intros (d & [= <- ->] & _).
    + rewrite matches_void. split; [done|]. intros (d & [= <- ->] & H). by rewrite H in E.
  - rewrite matches_cat_cons. pose proof (nullable_correct r1) as Hn. destruct (nullable r1).
    + rewrite alt_matches, matches_alt, cat_matches, matches_cat, IH2. setoid_rewrite IH1. tauto.
    + rewrite cat_matches, matches_cat. setoid_rewrite IH1. split; [by left|]. intros [H|[H _]]; [done|].
      by apply Hn in H.
  - by rewrite alt_matches, !matches_alt, IH1, IH2.
  - rewrite cat_matches, matches_cat. setoid_rewrite IH. split.
    + intros (s1 & s2 & -> & H1 & H2). change (String c (s1 +:+ s2)) with (String c s1 +:+ s2). by constructor.
    + intros (l & E & HF)%matches_star. induction HF as [|w l Hw HF IHl]; [done|]. cbn in E.
      destruct w as [|d w]; [by apply IHl|]. rewrite string_cons_app in E. injection E as -> ->.
      exists w, (concats l). split_and!; [done..|]. apply matches_star. eauto.
Qed.

Lemma MatchString_correct r s : MatchString r s = true ↔ matches r s.
Proof.
  revert r. induction s as [|c s IH]; intros r; cbn; [apply nullable_correct|]. by rewrite IH, deriv_correct.
Qed.

(** ** Labels *)
Definition ldh (c : ascii) : bool := alnum c || Ascii.eqb c "-".

Fixpoint double_hyphen (s : string) : bool :=
  match s with
  | String c s' => HasPrefix s "--" || double_hyphen s'
  | EmptyString => false
  end.

(** A label as the check takes it: letters, digits and hyphens, none of them at an end and no
    two in a row. *)
Definition label_ok (l : string) : bool :=
  negb (bool_decide (l = "")) && all_chars ldh l && negb (HasPrefix l "-") && negb (ends_hyphen l) &&
  negb (double_hyphen l).

(** What may follow a letter or digit in a label. *)
Fixpoint label_tail (s : string) : bool :=
  match s with
  | EmptyString => true
  | String c s' =>
      if alnum c then label_tail s'
      else Ascii.eqb c "-" && match s' with EmptyString => false | String c' s'' => alnum c' && label_tail s'' end
  end.

Lemma alnum_not_hyphen c : alnum c = true → Ascii.eqb c "-" = false.
Proof. intros H. apply Ascii.eqb_neq. by intros ->. Qed.

Lemma alnum_ldh c : alnum c = true → ldh c = true.
Proof. unfold ldh. by intros ->. Qed.

Lemma alnum_not_dot c : alnum c = true → Ascii.eqb c "." = false.
Proof. intros H. apply Ascii.eqb_neq. by intros ->. Qed.

Lemma prefix_char d c s : HasPrefix (String c s) (String d "") = Ascii.eqb c d.
Proof.
  unfold HasPrefix. cbn [String.prefix]. destruct (ascii_dec d c) as [->|H].
  - rewrite Ascii.eqb_refl. by destruct s.
  - symmetry. apply Ascii.eqb_neq. by intros ->.
Qed.

Lemma prefix_two d c s : HasPrefix (String c s) (String d (String d "")) = Ascii.eqb c d && HasPrefix s (String d "").
Proof.
  unfold HasPrefix. cbn [String.prefix]. destruct (ascii_dec d c) as [->|H].
  - by rewrite Ascii.eqb_refl.
  - by rewrite (proj2 (Ascii.eqb_neq c d)) by (by intros ->).
Qed.

Lemma ends_hyphen_cons c s : Ascii.eqb c "-" = false → ends_hyphen (String c s) = ends_hyphen s.
Proof. intros H. by destruct s. Qed.

Lemma label_tail_spec s :
  label_tail s = all_chars ldh s && negb (ends_hyphen s) && negb (double_hyphen s).
Proof.
  assert (Step : ∀ c s, alnum c = true → all_chars ldh (String c s) && negb (ends_hyphen (String c s)) && negb (double_hyphen (String c s)) =
                  all_chars ldh s && negb (ends_hyphen s) && negb (double_hyphen s)).
  { intros c t Hc. pose proof (alnum_not_hyphen c Hc) as Hh. rewrite ends_hyphen_cons by done. cbn [all_chars double_hyphen].
    by rewrite prefix_two, Hh, (alnum_ldh c Hc). }
  remember (String.length s) as n eqn:Hn. revert s Hn. induction (lt_wf n) as [n _ IH]. intros [|c s] ->; [done|].
  cbn [label_tail]. destruct (alnum c) eqn:Hc.
  - rewrite Step by done. eapply IH; [|done]. cbn. lia.
  - destruct (Ascii.eqb_spec c "-") as [->|Hne]; cbn [andb].
    + destruct s as [|c' s]; [done|]. destruct (alnum c') eqn:Hc'; cbn [andb].
      * rewrite (IH (String.length s)) by (done || (cbn; lia)). rewrite <-(Step c' s Hc').
        cbn [all_chars double_hyphen]. rewrite !prefix_two, prefix_char, (alnum_not_hyphen c' Hc'). cbn [andb orb].
        change (ends_hyphen (String "-" (String c' s))) with (ends_hyphen (String c' s)). done.
      * cbn [all_chars double_hyphen]. rewrite prefix_two, prefix_char. unfold ldh. rewrite Hc'. cbn [orb andb].
        destruct (Ascii.eqb c' "-"); cbn; by rewrite ?andb_false_r.
    + cbn [all_chars]. assert (ldh c = false) as -> by (unfold ldh; by rewrite Hc, (proj2 (Ascii.eqb_neq c "-"))). done.
Qed.

Lemma label_steps s : matches (Star (Cat (Opt (Char "-")) (Class alnum))) s ↔ label_tail s = true.
Proof.
  rewrite matches_star. split.
  - intros (l & -> & HF). induction HF as [|w l Hw HF IH]; [done|].
    apply matches_cat in Hw as (s1 & s2 & -> & H1 & (c & -> & Hc)%matches_class).
    cbn [concats foldr]. fold (concats l).
    apply matches_opt in H1 as [->%matches_char| ->].
    + change (label_tail (String "-" (String c (concats l))) = true). cbn [label_tail]. by rewrite Hc.
    + change (label_tail (String c (concats l)) = true). cbn [label_tail]. by rewrite Hc.
  - remember (String.length s) as n eqn:Hn. revert s Hn. induction (lt_wf n) as [n _ IH]. intros [|c s] -> H; [by exists []|].
    cbn [label_tail] in H. destruct (alnum c) eqn:Hc.
    + destruct (IH (String.length s)) with (s := s) as (l & -> & HF); [cbn; lia|done..|].
      exists (String c "" :: l). split; [done|]. constructor; [|done].
      apply matches_cat. exists "", (String c ""). split_and!; [done|by apply matches_opt; right|apply matches_class; eauto].
    + apply andb_true_iff in H as [->%Ascii.eqb_eq H]. destruct s as [|c' s]; [done|]. apply andb_true_iff in H as [Hc' H].
      destruct (IH (String.length s)) with (s := s) as (l & -> & HF); [cbn; lia|done..|].
      exists (String "-" (String c' "") :: l). split; [done|]. constructor; [|done].
      apply matches_cat. exists "-", (String c' ""). split_and!; [done|apply matches_opt; left; by apply matches_char|apply matches_class; eauto].
Qed.

Lemma matches_label s : matches label_re s ↔ label_ok s = true.
Proof.
  unfold label_re. rewrite matches_cat. unfold label_ok. split.
  - intros (s1 & s2 & -> & (c & -> & Hc)%matches_class & H%label_steps). rewrite string_cons_app.
    change ("" +:+ s2) with s2. rewrite label_tail_spec, !andb_true_iff in H. destruct H as [[H1 H2] H3].
    cbn [all_chars double_hyphen]. rewrite (alnum_ldh c Hc), prefix_char, prefix_two, (alnum_not_hyphen c Hc), ends_hyphen_cons by (by apply alnum_not_hyphen).
    rewrite bool_decide_eq_false_2, H1, H2 by done. cbn [andb orb negb]. by rewrite H3.
  - rewrite !andb_true_iff, !negb_true_iff. intros [[[[Hne H1] H2] H3] H4]. destruct s as [|c s]; [done|].
    rewrite prefix_char in H2. cbn [all_chars] in H1. apply andb_true_iff in H1 as [Hc H1]. unfold ldh in Hc. rewrite H2, orb_false_r in Hc.
    exists (String c ""), s. split_and!; [done|apply matches_class; eauto|]. apply label_steps.
    rewrite label_tail_spec, H1. rewrite ends_hyphen_cons in H3 by done. cbn [double_hyphen] in H4. apply orb_false_iff in H4 as [_ H4].
    by rewrite H3, H4.
Qed.

(** ** Domain names *)
Fixpoint join_dots (labels : list string) : string :=
  match labels with
  | [] => ""
  | [l] => l
  | l :: rest => l +:+ String "." (join_dots rest)
  end.

Definition star_dot (wild : bool) : string := if wild then "*." else "".

Lemma matches_domain d :
  matches domainRegex d ↔
  ∃ wild labels, labels ≠ [] ∧ d = star_dot wild +:+ join_dots labels ∧ Forall (λ l, label_ok l = true) labels.
Proof.
  unfold domainRegex. rewrite matches_cat. split.
  - intros (s1 & s2 & -> & Hw & (s3 & s4 & -> & (ws & -> & HF)%matches_star & Hl%matches_label)%matches_cat).
    assert (∃ wild, s1 = star_dot wild) as [wild ->].
    { apply matches_opt in Hw as [(a & b & -> & ->%matches_char & ->%matches_char)%matches_cat| ->]; [by exists true|by exists false]. }
    exists wild. assert (∃ labels, labels ≠ [] ∧ concats ws +:+ s4 = join_dots labels ∧ Forall (λ l, label_ok l = true) labels) as (labels & H1 & H2 & H3).
    { induction HF as [|w ws Hw' HF IH]; [exists [s4]; split_and!; [done..|by apply Forall_singleton]|].
      destruct IH as (labels & Hne & E & HF'). apply matches_cat in Hw' as (l & dot & -> & Hll%matches_label & ->%matches_char).
      exists (l :: labels). split_and!; [done| |by constructor]. cbn [concats foldr]. fold (concats ws). rewrite !string_app_assoc, E.
      by destruct labels. }
    exists labels. by rewrite H2.
  - intros (wild & labels & Hne & -> & HF). exists (star_dot wild), (join_dots labels). split_and!; [done| |].
    + apply matches_opt. destruct wild; [left|by right]. apply matches_cat. exists "*", ".". by rewrite !matches_char.
    + apply matches_cat. induction HF as [|l labels Hl HF IH]; [done|]. destruct labels as [|l' labels].
      * exists "", l. split_and!; [done|constructor|by apply matches_label].
      * destruct IH as (s1 & s2 & E & (ws & -> & HF')%matches_star & H2); [done|].
        exists (concats ((l +:+ ".") :: ws)), s2. split_and!; [|apply matches_star; eexists; split; [done|constructor; [|done]]|done].
        -- change (join_dots (l :: l' :: labels)) with (l +:+ String "." (join_dots (l' :: labels))). rewrite E.
           change (concats ((l +:+ ".") :: ws)) with ((l +:+ ".") +:+ concats ws). by rewrite !string_app_assoc.
        -- apply matches_cat. exists l, ".". split_and!; [done|by apply matches_label|by apply matches_char].
Qed.

(** No label contains a dot, so splitting at the dots finds the labels. *)
Lemma label_no_dot l : label_ok l = true → all_chars (not_char ".") l = true.
Proof.
  unfold label_ok. rewrite !andb_true_iff. intros [[[[_ H] _] _] _]. eapply all_chars_impl; [|exact H].
  intros c Hc. unfold not_char. apply negb_true_iff, Ascii.eqb_neq. by intros ->.
Qed.

Lemma Split_join_dots labels :
  labels ≠ [] → Forall (λ l, label_ok l = true) labels → Split "." (join_dots labels) = labels.
Proof.
  intros Hne HF. induction HF as [|l labels Hl HF IH]; [done|]. destruct labels as [|l' labels].
  - apply Split_last. by apply label_no_dot.
  - change (join_dots (l :: l' :: labels)) with (l +:+ String "." (join_dots (l' :: labels))).
    rewrite Split_app by (by apply label_no_dot). by rewrite IH.
Qed.

Lemma double_dot_app s t : all_chars (not_char ".") s = true → double_dot (s +:+ t) = double_dot t.
Proof.
  induction s as [|c s IH]; [done|]. cbn [all_chars]. intros [Hc%negb_true_iff H]%andb_true_iff.
  rewrite string_cons_app. cbn [double_dot]. by rewrite prefix_two, Hc, IH.
Qed.

Lemma label_head l : label_ok l = true → ∃ c s, l = String c s ∧ Ascii.eqb c "." = false.
Proof.
  intros H. pose proof (label_no_dot l H) as Hd. destruct l as [|c l]; [done|]. exists c, l. split; [done|].
  cbn in Hd. apply andb_true_iff in Hd as [Hd _]. by apply negb_true_iff in Hd.
Qed.

Lemma join_dots_head labels : labels ≠ [] → Forall (λ l, label_ok l = true) labels → HasPrefix (join_dots labels) "." = false.
Proof.
  intros Hne HF. destruct HF as [|l labels Hl HF]; [done|]. destruct (label_head l Hl) as (c & s & -> & Hc).
  destruct labels; cbn [join_dots]; rewrite ?string_cons_app, prefix_char; done.
Qed.

Lemma no_double_dot wild labels :
  labels ≠ [] → Forall (λ l, label_ok l = true) labels → double_dot (star_dot wild +:+ join_dots labels) = false.
Proof.
  intros Hne HF. assert (double_dot (join_dots labels) = false) as H.
  { induction HF as [|l labels Hl HF IH]; [done|]. destruct labels as [|l' labels].
    - cbn [join_dots]. rewrite <-(app_empty_r l). by rewrite double_dot_app by (by apply label_no_dot).
    - change (join_dots (l :: l' :: labels)) with (l +:+ String "." (join_dots (l' :: labels))).
      rewrite double_dot_app by (by apply label_no_dot). cbn [double_dot]. rewrite prefix_two, join_dots_head, IH by done. by rewrite andb_false_r. }
  destruct wild; [|done]. cbn [star_dot]. rewrite !string_cons_app. change ("" +:+ join_dots labels) with (join_dots labels).
  cbn [double_dot]. rewrite !prefix_two, H, join_dots_head by done. by rewrite andb_false_r.
Qed.

Lemma check_label_ok l : label_ok l = true → check_label l = Ok tt ↔ (len l ≤ 63)%nat.
Proof.
  intros H. unfold check_label. rewrite bool_decide_eq_false_2 by (by intros ->).
  unfold label_ok in H. rewrite !andb_true_iff, !negb_true_iff in H. destruct H as [[[_ ->] ->] _]. cbn [orb].
  destruct (Nat.ltb_spec 63 (len l)); split; (done || lia).
Qed.

Lemma check_labels_ok labels :
  Forall (λ l, label_ok l = true) labels → check_labels labels = Ok tt ↔ Forall (λ l, len l ≤ 63)%nat labels.
Proof.
  induction 1 as [|l labels Hl HF IH]; cbn; [by rewrite Forall_nil|]. rewrite Forall_cons, <-(check_label_ok l Hl), <-IH.
  destruct (check_label l) as [[]|e]; [tauto|]. split; [done|]. by intros [? _].
Qed.

(** C28: The domain check accepts exactly these names: at most 253 bytes, an optional leading
    wildcard, then labels separated by single dots, each of 1 to 63 letters, digits and
    hyphens that neither begins nor ends with a hyphen and has no two hyphens in a row.  The
    last condition is not RFC 1123's: it refuses every internationalised name, whose labels
    begin with "xn--". *)
Theorem domain_names_exact d :
  ValidateDomainName d = Ok tt ↔
  (len d ≤ 253)%nat ∧ ∃ wild labels, labels ≠ [] ∧ d = star_dot wild +:+ join_dots labels ∧
    Forall (λ l, label_ok l = true ∧ (len l ≤ 63)%nat) labels.
Proof.
  assert (Hcl : ∀ wild labels, labels ≠ [] → Forall (λ l, label_ok l = true) labels →
            check_labels (Split "." (star_dot wild +:+ join_dots labels)) = Ok tt ↔ Forall (λ l, len l ≤ 63)%nat labels).
  { intros wild labels Hne HF. rewrite <-check_labels_ok by done. destruct wild; cbn [star_dot].
    - change ("*." +:+ join_dots labels) with ("*" +:+ String "." (join_dots labels)). rewrite Split_app by done.
      rewrite Split_join_dots by done. done.
    - change ("" +:+ join_dots labels) with (join_dots labels). by rewrite Split_join_dots. }
  assert (Hne' : ∀ wild labels, labels ≠ [] → Forall (λ l, label_ok l = true) labels → star_dot wild +:+ join_dots labels ≠ "").
  { intros [] labels Hne HF; [done|]. destruct HF as [|l labels Hl HF]; [done|]. destruct (label_head l Hl) as (c & s & -> & _).
    by destruct labels. }
  unfold ValidateDomainName. split.
  - case_bool_decide; [done|]. destruct (Nat.ltb_spec 253 (len d)); [done|].
    destruct (MatchString domainRegex d) eqn:Em; [|done]. cbn [negb].
    apply MatchString_correct, matches_domain in Em as (wild & labels & Hne & -> & HF). rewrite no_double_dot by done.
    intros Hc%Hcl; [|done..]. split; [lia|]. exists wild, labels. split_and!; [done..|by apply Forall_and].
  - intros (Hlen & wild & labels & Hne & -> & [HF H63]%Forall_and). rewrite bool_decide_eq_false_2 by (by apply Hne').
    rewrite (proj2 (Nat.ltb_ge 253 _)) by lia.
    rewrite (proj2 (MatchString_correct _ _)) by (apply matches_domain; eauto 10). cbn [negb]. rewrite no_double_dot by done. by apply Hcl.
Qed.

(** An internationalised name in its ASCII form is refused. *)
Example punycode_refused :
  ValidateDomainName "xn--bcher-kva.example" = Err (ErrMsg "domain is invalid (must match RFC 1123 format)").
Proof. by vm_compute. Qed.

(** ** Commands *)
Definition clean (b : Z) : Prop := byte_chr b ∉ dangerousChars.

Lemma fields_sub P fuel word l :
  Forall P word → Forall P l → Forall (λ w, w ≠ [] ∧ Forall P w) (fields fuel word l).
Proof.
  revert word l. induction fuel as [|f IH]; intros word l Hw Hl; cbn [fields].
  - case_bool_decide; [constructor|by repeat constructor].
  - destruct l as [|b l']; [case_bool_decide; [constructor|by repeat constructor]|].
    apply Forall_cons in Hl as Hb. destruct Hb as [Hb Hl']. destruct (space_width (b :: l')) as [|w] eqn:E.
    + apply IH; [by apply Forall_app_2; [|apply Forall_singleton]|done].
    + assert (Forall (λ w, w ≠ [] ∧ Forall P w) (fields f [] (drop (S w) (b :: l')))) as H by (by apply IH; [|apply Forall_drop]).
      case_bool_decide; [done|]. by constructor.
Qed.

Lemma validated_clean cmd : ValidateShellCommand cmd = Ok tt → Forall clean (bytes_of cmd).
Proof.
  unfold ValidateShellCommand. case_bool_decide; [done|]. destruct (Nat.ltb _ _); [done|].
  destruct (existsb _ _) eqn:E; [done|]. intros _. unfold bytes_of. apply Forall_fmap, Forall_forall. intros c Hc Hd.
  cbn in Hd. rewrite byte_chr_val in Hd. apply not_true_iff_false in E. apply E, existsb_exists.
  exists c. split; [by apply list_elem_of_In|]. unfold has_char. apply negb_true_iff. clear -Hc.
  induction cmd as [|d cmd IH]; [by apply elem_of_nil in Hc|]. cbn in *. apply elem_of_cons in Hc as [->|Hc].
  - unfold not_char. by rewrite Ascii.eqb_refl.
  - rewrite IH by done. apply andb_false_r.
Qed.

(** The argument vector handed to [exec] is not empty, has no empty argument, and no argument
    contains a character a shell would act on. *)
Theorem split_command_clean cmd argv :
  SplitShellCommand cmd = Ok argv →
  argv ≠ [] ∧ Forall (λ arg, ∃ w, w ≠ [] ∧ arg = of_bytes w ∧ Forall clean w) argv.
Proof.
  unfold SplitShellCommand. destruct (ValidateShellCommand cmd) as [[]|e] eqn:E; [|done].
  cbv zeta. case_bool_decide; [done|]. intros [= <-]. split; [done|]. unfold Fields. apply Forall_fmap.
  eapply Forall_impl; [apply (fields_sub clean); [constructor|by apply validated_clean]|].
  intros w [Hne Hw]. exists w. auto.
Qed.

(** The words a POSIX shell reads: quotes are removed, blanks separate, and [None] stands for
    anything that is more than words (operators, expansions, patterns, comments). *)
Inductive quoting := Plain | Single | Double.

Definition special : list ascii :=
  dangerousChars ++ ["*"; "?"; "["; "]"; "~"; "#"; "!"; "%"; "="]%char.

Definition put (word : option string) (c : ascii) : option string := Some (default "" word +:+ String c "").

Fixpoint shell_lex (q : quoting) (word : option string) (s : string) : option (list string) :=
  match s with
  | EmptyString => match q with Plain => Some (option_list word) | _ => None end
  | String c s' =>
      match q with
      | Plain =>
          if Ascii.eqb c " " || Ascii.eqb c "009" then app (option_list word) <$> shell_lex Plain None s'
          else if Ascii.eqb c "'" then shell_lex Single (Some (default "" word)) s'
          else if Ascii.eqb c dquote then shell_lex Double (Some (default "" word)) s'
          else if bool_decide (c ∈ special) then None
          else shell_lex Plain (put word c) s'
      | Single => if Ascii.eqb c "'" then shell_lex Plain word s' else shell_lex Single (put word c) s'
      | Double =>
          if Ascii.eqb c dquote then shell_lex Plain word s'
          else if bool_decide (c ∈ ["$"; "`"; "\"]%char) then None
          else shell_lex Double (put word c) s'
      end
  end.
Definition shell_words : string → option (list string) := shell_lex Plain None.

Fixpoint command_line (args : list string) : string :=
  match args with
  | [] => ""
  | [a] => SanitizeForShell a
  | a :: rest => SanitizeForShell a +:+ String " " (command_line rest)
  end.

(** Inside single quotes the escaped text is read back character by character. *)
Lemma lex_quoted s w rest :
  shell_lex Single (Some w) (replace_char "'" quote_escape s +:+ String "'" rest) = shell_lex Plain (Some (w +:+ s)) rest.
Proof.
  revert w. induction s as [|c s IH]; intros w.
  - rewrite app_empty_r. done.
  - cbn [replace_char]. rewrite string_app_assoc. destruct (Ascii.eqb_spec c "'") as [->|Hc].
    + transitivity (shell_lex Single (Some (w +:+ "'")) (replace_char "'" quote_escape s +:+ String "'" rest)); [done|].
      by rewrite IH, string_app_assoc.
    + rewrite string_cons_app. change ("" +:+ ?x) with x. cbn [shell_lex]. rewrite (proj2 (Ascii.eqb_neq c "'")) by done.
      unfold put. cbn [default]. unfold id. by rewrite IH, string_app_assoc.
Qed.

Lemma lex_argument s rest : shell_lex Plain None (SanitizeForShell s +:+ rest) = shell_lex Plain (Some s) rest.
Proof. unfold SanitizeForShell. rewrite !string_app_assoc. apply (lex_quoted s "" rest). Qed.

(** Quoting is undone by the shell: a command line of quoted arguments is read as exactly those
    arguments, whatever bytes they contain. *)
Theorem shell_quote_roundtrip args : shell_words (command_line args) = Some args.
Proof.
  unfold shell_words. induction args as [|a args IH]; [done|]. destruct args as [|b args].
  - cbn [command_line]. by rewrite <-(app_empty_r (SanitizeForShell a)), lex_argument.
  - change (command_line (a :: b :: args)) with (SanitizeForShell a +:+ String " " (command_line (b :: args))).
    rewrite lex_argument. cbn [shell_lex]. cbn [Ascii.eqb orb Bool.eqb]. by rewrite IH.
Qed.
