(* ===== verification/Bootstrap.v ===== *)
(** * The first administrator (src/internal/auth/bootstrap, cmd/server/main.go)

    [Module Strategy] is bootstrap.go: the one-shot token strategy.  Its mutex makes two
    critical sections, before and after the probe; each is one function, and [Validate] runs
    them around the probe.  [Module Service] is service.go with the api_keys table and the key
    store the middleware reads, [Module OidcHook] the first-admin hook main.go installs on the
    OIDC service.  [Module Race] interleaves callers of one process step by step: between the
    two sections of a call any other call may run. *)

From Stdlib Require Import ZArith Lia Ascii String.
From stdpp Require Import prelude gmap strings list.
From S2P Require Import Prelude AuditTrail Store Rbac GoBytes KeyCrypto Identity Session AuthGate Validation.
Import AuthRepo KeyStore Regexp Cookies.

Module Strategy.
Definition ErrBootstrapDisabled : error := ErrSentinel "bootstrap: endpoint disabled".
Definition ErrInvalidToken : error := ErrSentinel "bootstrap: invalid token".
Definition ErrInvalidActorName : error := ErrSentinel "bootstrap: invalid actor name".

(** The probe is the callback's presence here; its answer is an argument of what follows. *)
Record EnvTokenStrategy := mkStrategy {
  st_token : string;
  st_probe : bool;
  st_consumed : bool;
  st_tokenLength : nat
}.

Definition NewEnvTokenStrategy (token : string) (probe : bool) : EnvTokenStrategy :=
  mkStrategy token probe (bool_decide (token = "")) (len token).

Definition set_consumed (s : EnvTokenStrategy) : EnvTokenStrategy :=
  mkStrategy (st_token s) (st_probe s) true (st_tokenLength s).

(** How a critical section ends: with a result, or by dropping the lock for the probe. *)
Inductive outcome := Finished (r : res unit) | Probing.

(** [Validate] up to the probe. *)
Definition first_section (token : string) (s : EnvTokenStrategy) : outcome * EnvTokenStrategy :=
  if st_consumed s then (Finished (Err ErrBootstrapDisabled), s)
  else if Nat.eqb (st_tokenLength s) 0 || Nat.eqb (len token) 0 then (Finished (Err ErrInvalidToken), s)
  else if negb (ConstantTimeCompare (st_token s) token) then (Finished (Err ErrInvalidToken), s)
  else if st_probe s then (Probing, s)
  else (Finished (Ok tt), set_consumed s).

(** [Validate] on the probe's answer, before the lock is taken again; [None] goes on. *)
Definition probe_answer (r : res bool) : option (res unit) :=
  match r with
  | Err e => Some (Err e)
  | Ok true => Some (Err ErrBootstrapDisabled)
  | Ok false => None
  end.

(** [Validate] after the probe. *)
Definition second_section (s : EnvTokenStrategy) : res unit * EnvTokenStrategy :=
  if st_consumed s then (Err ErrBootstrapDisabled, s) else (Ok tt, set_consumed s).
End Strategy.
Import Strategy.

(** ** The process: its strategy and key store, and the database *)
Record APIKey := mkAPIKey {
  ak_ID : string;
  ak_Name : string;
  ak_KeyHash : string;
  ak_TenantID : string;
  ak_Admin : bool;
  ak_CreatedBy : string;
  ak_CreatedAt : Z;
  ak_ExpiresAt : option Z
}.

Record BootDB := mkBoot {
  bt_strategy : EnvTokenStrategy;
  bt_entries : list entry;
  bt_auth : AuthDB;
  bt_keys : list APIKey
}.

Definition set_strategy (s : EnvTokenStrategy) (d : BootDB) : BootDB := mkBoot s (bt_entries d) (bt_auth d) (bt_keys d).
Definition set_entries (f : list entry → list entry) (d : BootDB) : BootDB :=
  mkBoot (bt_strategy d) (f (bt_entries d)) (bt_auth d) (bt_keys d).
Definition set_bauth (a : AuthDB) (d : BootDB) : BootDB := mkBoot (bt_strategy d) (bt_entries d) a (bt_keys d).
Definition set_bkeys (f : list APIKey → list APIKey) (d : BootDB) : BootDB :=
  mkBoot (bt_strategy d) (bt_entries d) (bt_auth d) (f (bt_keys d)).

#[global, program] Instance HasAudit_BootDB : HasAudit BootDB :=
  {| audit_log d := au_audit (bt_auth d);
     append_audit ev d := set_bauth (append_audit ev (bt_auth d)) d |}.
Next Obligation. done. Qed.

Definition on_auth {A} (m : M AuthDB A) : M BootDB A := λ w,
  let '(a, w') := m (mkWorld (bt_auth (w_db w)) (w_env w)) in
  (a, mkWorld (set_bauth (w_db w') (w_db w)) (w_env w')).

(** A critical section runs at once. *)
Definition locked {A} (f : EnvTokenStrategy → A * EnvTokenStrategy) : M BootDB A := λ w,
  let '(a, s) := f (bt_strategy (w_db w)) in (a, mkWorld (set_strategy s (w_db w)) (w_env w)).

Module Service.
(** [APIKeyRepository]. *)
Section repo.
Variable uuid_NewString : N → string.

Definition APIKey_Create (k : APIKey) : M BootDB (APIKey * res unit) :=
  id ← (if bool_decide (ak_ID k = "") then n ← fresh; mret ("ak-" +:+ uuid_NewString n) else mret (ak_ID k));
  let tenant := if bool_decide (ak_TenantID k = "") then DefaultTenantID else ak_TenantID k in
  let row := mkAPIKey id (ak_Name k) (ak_KeyHash k) tenant (ak_Admin k) (ak_CreatedBy k) (ak_CreatedAt k) (ak_ExpiresAt k) in
  r ← sql_exec "apiKey.create" (λ d,
        if existsb (λ x, bool_decide (ak_ID x = id) || bool_decide (ak_Name x = ak_Name k) ||
                         bool_decide (ak_KeyHash x = ak_KeyHash k)) (bt_keys d)
        then (Err ErrAuthDuplicateName, d)
        else (Ok tt, set_bkeys (λ l, l ++ [row]) d));
  mret (row, r).
End repo.

(** [actorNameRe]: [^[a-z0-9][a-z0-9_-]{2,63}$]. *)
Definition name_start (c : ascii) : bool := lower c || range "0" "9" c.
Definition name_char (c : ascii) : bool := name_start c || Ascii.eqb c "_" || Ascii.eqb c "-".
Definition actorNameRe : re := Cat (Class name_start) (Repeat (Class name_char) 2 63).

(** The probe main.go wires: does any actor hold r-admin? *)
Definition probe : M BootDB (res bool) := on_auth (ActorRoleRepository_AdminExists DefaultTenantID).

(** [EnvTokenStrategy.Available]. *)
Definition Available : M BootDB (res bool) :=
  consumed ← locked (λ s, (st_consumed s, s));
  if consumed : bool then mret (Ok false) else
  probed ← locked (λ s, (st_probe s, s));
  if probed : bool then
    e ← probe;
    mret match e with Err e => Err e | Ok exists_ => Ok (negb exists_) end
  else mret (Ok true).

(** [EnvTokenStrategy.Validate]. *)
Definition Validate (token : string) : M BootDB (res unit) :=
  o ← locked (first_section token);
  match o with
  | Finished r => mret r
  | Probing =>
      a ← probe;
      match probe_answer a with
      | Some r => mret r
      | None => locked second_section
      end
  end.

Record MintResult := mkMint { mr_APIKey : APIKey; mr_KeyValue : string }.

Section service.
Context `{E : Entropy}.
Variables (ToLower : string → string) (uuid_NewString : N → string).
(** Whether an audit recorder and the runtime key store are wired. *)
Variables (audit keyStore : bool).

Definition generateAPIKey : M BootDB (res string) :=
  b ← readRand 32;
  mret match b with Ok b => Ok (hex_EncodeToString b) | Err e => Err e end.

Definition consume_audit (action resourceID : string) (d : details) : M BootDB unit :=
  if audit then
    _ ← RecordEventWithCategory ToLower "bootstrap-token" ActorTypeSystem action EventCategoryAuth "api_key" resourceID d;
    mret tt
  else mret tt.

Definition failed_audit (resourceID actorName stage : string) (e : error) : M BootDB unit :=
  consume_audit "bootstrap.consume_failed" resourceID
    [("actor_name", GStr actorName); ("stage", GStr stage); ("error", GStr (Error e))].

Definition admin_grant (actorName : string) : ActorRole :=
  mkActorRole "" actorName ActorTypeAPIKey RoleIDAdmin 0 None "bootstrap" DefaultTenantID "" None.

(** What follows a consumed token. *)
Definition mint (actorName : string) : M BootDB (res MintResult) :=
  k ← generateAPIKey;
  match k with
  | Err e => mret (Err (ErrWrap "bootstrap: random key generation" e))
  | Ok keyValue =>
      let keyHash := HashAPIKey keyValue in
      t ← now;
      c ← APIKey_Create uuid_NewString (mkAPIKey "" actorName keyHash DefaultTenantID true "bootstrap" t None);
      let '(apiKey, r) := c in
      match r with
      | Err e =>
          _ ← failed_audit (ak_ID apiKey) actorName "persist_key" e;
          mret (Err (ErrWrap "bootstrap: persist key" e))
      | Ok _ =>
          g ← on_auth (ActorRoleRepository_Grant uuid_NewString (admin_grant actorName));
          match snd g with
          | Err e =>
              _ ← failed_audit (ak_ID apiKey) actorName "grant_role" e;
              mret (Err (ErrWrap "bootstrap: grant admin role" e))
          | Ok _ =>
              d ← get_db;
              _ ← put_db (if keyStore then set_entries (AddHashed actorName keyHash true) d else d);
              _ ← consume_audit "bootstrap.consume" (ak_ID apiKey)
                    [("actor_name", GStr actorName); ("role_id", GStr RoleIDAdmin)];
              mret (Ok (mkMint apiKey keyValue))
          end
      end
  end.

Definition ValidateAndMint (token actorName : string) : M BootDB (res MintResult) :=
  if negb (MatchString actorNameRe actorName) then mret (Err ErrInvalidActorName) else
  v ← Validate token;
  match v with
  | Err e => mret (Err e)
  | Ok _ => mint actorName
  end.

(** [BootstrapHandler.Mint] after the body is decoded and the name trimmed: the status. *)
Definition mint_status (r : res MintResult) : Z :=
  match r with
  | Ok _ => 201
  | Err e => if errors_Is e ErrBootstrapDisabled then 410
             else if errors_Is e ErrInvalidToken then 401
             else if errors_Is e ErrInvalidActorName then 400
             else 500
  end.
End service.

(** The boot loader: persisted keys join those of the environment. *)
Definition load_keys (persisted : list APIKey) (entries : list entry) : list entry :=
  foldl (λ es pk, AddHashed (ak_Name pk) (ak_KeyHash pk) (ak_Admin pk) es) entries persisted.

(** A restart: the strategy is made anew from the environment, the tables stay. *)
Definition restart (token : string) (named : list NamedAPIKey) (d : BootDB) : BootDB :=
  mkBoot (NewEnvTokenStrategy token true) (load_keys (bt_keys d) (NewKeyStore named)) (bt_auth d) (bt_keys d).
End Service.
Import Service.

Module OidcHook.
Record HookConfig := mkHook { hk_groups : list string; hk_providerID : string }.

Section hook.
Variables (ToLower : string → string) (uuid_NewString : N → string) (cfg : HookConfig).

(** The checks that come before the probe and after it. *)
Definition right_provider (providerID : string) : bool :=
  bool_decide (hk_providerID cfg = "") || bool_decide (providerID = hk_providerID cfg).
Definition group_matched (groups : list string) : bool :=
  existsb (λ g, bool_decide (g ∈ hk_groups cfg)) groups.

Definition oidc_grant (userID : string) : ActorRole :=
  mkActorRole "" userID ActorTypeUser RoleIDAdmin 0 None "oidc-bootstrap" DefaultTenantID "" None.

Definition grant_admin (providerID userID : string) : M AuthDB (res bool) :=
  g ← ActorRoleRepository_Grant uuid_NewString (oidc_grant userID);
  match snd g with
  | Err e => mret (Err (ErrWrap "grant r-admin" e))
  | Ok _ =>
      _ ← RecordEventWithCategory ToLower userID ActorTypeUser "bootstrap.oidc_first_admin" EventCategoryAuth
            "users" userID [("user_id", GStr userID); ("provider_id", GStr providerID); ("trigger", GStr "oidc_group_match")];
      mret (Ok true)
  end.

Definition AdminBootstrapHook (providerID : string) (groups : list string) (userID : string) : M AuthDB (res bool) :=
  if negb (right_provider providerID) then mret (Ok false) else
  a ← ActorRoleRepository_AdminExists DefaultTenantID;
  match a with
  | Err e => mret (Err (ErrWrap "admin existence probe" e))
  | Ok true => mret (Ok false)
  | Ok false => if negb (group_matched groups) then mret (Ok false) else grant_admin providerID userID
  end.
End hook.
End OidcHook.
Import OidcHook.

(** ** Interleaved callers of one process *)
Module Race.
(** Where a call of [Validate] stands. *)
Inductive phase :=
  | Arrived (token : string)
  | AtProbe
  | Probed
  | Done (r : res unit).

Definition system : Type := EnvTokenStrategy * list phase.

Inductive call_step : system → system → Prop :=
  | step_arrive s calls token : call_step (s, calls) (s, calls ++ [Arrived token])
  | step_first s s' calls i token r :
      calls !! i = Some (Arrived token) → first_section token s = (Finished r, s') →
      call_step (s, calls) (s', <[i := Done r]> calls)
  | step_drop s s' calls i token :
      calls !! i = Some (Arrived token) → first_section token s = (Probing, s') →
      call_step (s, calls) (s', <[i := AtProbe]> calls)
  | step_probe s calls i answer :
      calls !! i = Some AtProbe →
      call_step (s, calls) (s, <[i := match probe_answer answer with Some r => Done r | None => Probed end]> calls)
  | step_second s s' calls i r :
      calls !! i = Some Probed → second_section s = (r, s') →
      call_step (s, calls) (s', <[i := Done r]> calls).
End Race.
