(* ===== verification/BootstrapFacts.v ===== *)
(** * The first administrator, once

    In one process at most one call ever passes the token gate, in every interleaving; a minted
    key is stored, authenticates and closes the gate behind it.  Across processes the gate does
    not hold: the flag lives in memory, and the probe and the grant are separate statements. *)

From Stdlib Require Import ZArith Lia Ascii String.
From stdpp Require Import prelude gmap strings list.
From S2P Require Import Prelude AuditTrail Store Transactions Rbac GoBytes KeyCrypto Identity Session AuthGate Validation Bootstrap.
Import AuthRepo KeyStore Regexp Cookies Strategy Service OidcHook Race.

(** ** One winner *)
Definition won (p : phase) : bool := match p with Done (Ok _) => true | _ => false end.
Definition wins (calls : list phase) : nat := length (filter (λ p, won p = true) calls).

Lemma wins_app l l' : wins (l ++ l') = (wins l + wins l')%nat.
Proof. unfold wins. by rewrite filter_app, length_app. Qed.

Lemma wins_insert calls i p q :
  calls !! i = Some p → won p = false → wins (<[i := q]> calls) = (wins calls + (if won q then 1 else 0))%nat.
Proof.
  intros Hi Hp. rewrite <-(take_drop_middle calls i p Hi) at 2. apply lookup_lt_Some in Hi as Hl.
  rewrite insert_take_drop by done. rewrite !wins_app. unfold wins. rewrite !filter_cons, Hp.
  destruct (won q); rewrite ?decide_True, ?decide_False by done; cbn; lia.
Qed.

Definition gate_inv (st : system) : Prop := (wins (snd st) ≤ if st_consumed (fst st) then 1 else 0)%nat.

Lemma first_section_cases token s o s' :
  first_section token s = (o, s') →
  (s' = s ∧ ∀ r, o = Finished r → is_Ok r = false) ∨
  (o = Finished (Ok tt) ∧ s' = set_consumed s ∧ st_consumed s = false).
Proof.
  unfold first_section. destruct (st_consumed s); [intros [= <- <-]; left; split; [done|by intros r [= <-]]|].
  destruct (_ || _); [intros [= <- <-]; left; split; [done|by intros r [= <-]]|].
  destruct (negb _); [intros [= <- <-]; left; split; [done|by intros r [= <-]]|].
  destruct (st_probe s); intros [= <- <-]; [by left|by right].
Qed.

Lemma won_done r : won (Done r) = is_Ok r.
Proof. by destruct r. Qed.

Lemma gate_step st st' : call_step st st' → gate_inv st → gate_inv st'.
Proof.
  unfold gate_inv. intros H Hi. destruct H as [s calls token|s s' calls i token r Hc Hs|s s' calls i token Hc Hs|
    s calls i answer Hc|s s' calls i r Hc Hs]; cbn [fst snd] in *.
  - rewrite wins_app. change (wins [Arrived token]) with 0%nat. lia.
  - rewrite (wins_insert _ _ (Arrived token)), won_done by done.
    destruct (first_section_cases _ _ _ _ Hs) as [[-> Hr]|([= ->] & -> & Hn)].
    + rewrite (Hr r eq_refl). lia.
    + rewrite Hn in Hi. cbn. lia.
  - rewrite (wins_insert _ _ (Arrived token)) by done. cbn.
    destruct (first_section_cases _ _ _ _ Hs) as [[-> _]|[? _]]; [lia|done].
  - rewrite (wins_insert _ _ AtProbe) by done.
    assert (won (match probe_answer answer with Some r => Done r | None => Probed end) = false) as ->; [|lia].
    by destruct answer as [[]|].
  - rewrite (wins_insert _ _ Probed), won_done by done. unfold second_section in Hs.
    destruct (st_consumed s) eqn:E; injection Hs as <- <-; cbn; rewrite ?E; lia.
Qed.

Lemma reach_inv (I : system → Prop) st st' :
  (∀ a b, call_step a b → I a → I b) → rtc call_step st st' → I st → I st'.
Proof. intros Hs. induction 1 as [|x y z Hxy _ IH]; [done|]. intros Hx. eapply IH, Hs; done. Qed.

(** A consumed gate lets nobody through. *)
Lemma consumed_step st st' :
  call_step st st' → st_consumed (fst st) = true ∧ wins (snd st) = 0%nat → st_consumed (fst st') = true ∧ wins (snd st') = 0%nat.
Proof.
  intros H [Hc H0]. destruct H as [s calls token|s s' calls i token r Hi Hs|s s' calls i token Hi Hs|
    s calls i answer Hi|s s' calls i r Hi Hs]; cbn [fst snd] in *.
  - rewrite wins_app, H0. done.
  - unfold first_section in Hs. rewrite Hc in Hs. injection Hs as <- <-. split; [done|]. by erewrite wins_insert, H0.
  - unfold first_section in Hs. by rewrite Hc in Hs.
  - split; [done|]. erewrite wins_insert, H0 by done. by destruct answer as [[]|].
  - unfold second_section in Hs. rewrite Hc in Hs. injection Hs as <- <-. split; [done|]. by erewrite wins_insert, H0.
Qed.

(** C14: The bootstrap token admits one caller.  Over any interleaving of the calls of a process,
    the probe's answers being anything, at most one call of [Validate] succeeds, and none when
    no token is configured. *)
Theorem bootstrap_one_winner token probe s calls :
  rtc call_step (NewEnvTokenStrategy token probe, []) (s, calls) →
  (wins calls ≤ 1)%nat ∧ (token = "" → wins calls = 0%nat).
Proof.
  intros H. split.
  - assert (gate_inv (s, calls)) as Hi by (apply (reach_inv gate_inv _ _ gate_step H); unfold gate_inv; cbn; lia).
    unfold gate_inv in Hi. cbn [fst snd] in Hi. destruct (st_consumed s); lia.
  - intros ->. by apply (reach_inv _ _ _ consumed_step H).
Qed.

(** Two calls with the right token, both past the probe before either takes the lock again. *)
Example bootstrap_one_winner_witness :
  ∃ s calls, rtc call_step (NewEnvTokenStrategy "tok" true, []) (s, calls) ∧ wins calls = 1%nat ∧
    (wins calls ≤ 1)%nat ∧ ("tok" = "" → wins calls = 0%nat).
Proof.
  exists (set_consumed (NewEnvTokenStrategy "tok" true)), [Done (Ok tt); Done (Err ErrBootstrapDisabled)].
  assert (rtc call_step (NewEnvTokenStrategy "tok" true, [])
    (set_consumed (NewEnvTokenStrategy "tok" true), [Done (Ok tt); Done (Err ErrBootstrapDisabled)])) as H.
  { eapply rtc_l; [eapply (step_arrive _ [] "tok")|]. eapply rtc_l; [eapply (step_arrive _ _ "tok")|].
    eapply rtc_l; [by eapply (step_drop _ _ _ 0 "tok")|]. eapply rtc_l; [by eapply (step_drop _ _ _ 1 "tok")|].
    eapply rtc_l; [by eapply (step_probe _ _ 0 (Ok false))|]. eapply rtc_l; [by eapply (step_probe _ _ 1 (Ok false))|].
    eapply rtc_l; [by eapply (step_second _ _ _ 0)|]. eapply rtc_l; [by eapply (step_second _ _ _ 1)|]. done. }
  split; [done|]. split; [done|]. apply (bootstrap_one_winner _ _ _ _ H).
Defined.

(** ** Minting *)
Lemma lookup_added name hash admin es :
  LookupByHash (AddHashed name hash admin es) hash = Some (mkNamedAPIKey name "" admin).
Proof.
  unfold ConstantTimeCompare. induction es as [|e es IH]; cbn; unfold ConstantTimeCompare.
  - by rewrite bool_decide_eq_true_2.
  - case_bool_decide as E; cbn; unfold ConstantTimeCompare; [by rewrite bool_decide_eq_true_2|].
    rewrite bool_decide_eq_false_2 by congruence. exact IH.
Qed.

(** What the audit writes of the service leave alone. *)
Definition same_gate (d d' : BootDB) : Prop :=
  bt_strategy d' = bt_strategy d ∧ bt_entries d' = bt_entries d ∧ bt_keys d' = bt_keys d ∧
  au_actor_roles (bt_auth d') = au_actor_roles (bt_auth d).

#[global] Instance same_gate_preorder : PreOrder same_gate.
Proof. split; [done|]. unfold same_gate. intros x y z (?&?&?&?) (?&?&?&?). split_and!; congruence. Qed.

Lemma same_gate_audit ToLower audit action rid details : pres same_gate (consume_audit ToLower audit action rid details).
Proof.
  unfold consume_audit. destruct audit; [|apply (pres_ret _)].
  pres_step; [|apply (pres_ret _)]. apply (pres_RecordEventWithCategory _ same_gate). done.
Qed.

Lemma hoare_on_auth {A} P (m : M AuthDB A) (Q : A → BootDB → Prop) :
  (∀ d, hoare (λ a, P (set_bauth a d)) m (λ x a, Q x (set_bauth a d))) → hoare P (on_auth m) Q.
Proof.
  intros H w HP. unfold on_auth. specialize (H (w_db w) (mkWorld (bt_auth (w_db w)) (w_env w))). cbn in H.
  destruct (m _) as [x w'] eqn:E. cbn in *. apply H. by destruct (w_db w).
Qed.

Lemma hoare_locked {A} P (f : EnvTokenStrategy → A * EnvTokenStrategy) (Q : A → BootDB → Prop) :
  (∀ d, P d → Q (f (bt_strategy d)).1 (set_strategy (f (bt_strategy d)).2 d)) → hoare P (locked f) Q.
Proof. intros H w HP. unfold locked. specialize (H _ HP). by destruct (f (bt_strategy (w_db w))). Qed.

Section mint.
Context `{E : Entropy} (ToLower : string → string) (uuid : N → string) (audit keyStore : bool).

(** The row of a key, and an r-admin row of an actor. *)
Definition key_row (name hash : string) (k : APIKey) (d : BootDB) : Prop :=
  k ∈ bt_keys d ∧ ak_Name k = name ∧ ak_KeyHash k = hash ∧ ak_Admin k = true.
Definition admin_row (name : string) (d : BootDB) : Prop :=
  ∃ row, row ∈ au_actor_roles (bt_auth d) ∧ acr_ActorID row = name ∧ acr_RoleID row = RoleIDAdmin ∧
         acr_TenantID row = DefaultTenantID.

Definition minted (s : EnvTokenStrategy) (name : string) (r : res MintResult) (d : BootDB) : Prop :=
  ∀ m, r = Ok m →
    bt_strategy d = s ∧ key_row name (HashAPIKey (mr_KeyValue m)) (mr_APIKey m) d ∧ admin_row name d ∧
    (keyStore = true → LookupByHash (bt_entries d) (HashAPIKey (mr_KeyValue m)) = Some (mkNamedAPIKey name "" true)).

Lemma hoare_Create s name hash t :
  hoare (λ d, bt_strategy d = s)
    (APIKey_Create uuid (mkAPIKey "" name hash DefaultTenantID true "bootstrap" t None))
    (λ c d, bt_strategy d = s ∧ (is_Ok c.2 = true → key_row name hash c.1 d)).
Proof.
  unfold APIKey_Create. cbn [ak_ID ak_Name ak_KeyHash ak_TenantID ak_Admin ak_CreatedBy ak_CreatedAt ak_ExpiresAt].
  eapply hoare_bind with (λ _ d, bt_strategy d = s).
  { rewrite bool_decide_eq_true_2 by done. eapply hoare_bind; [by apply (hoare_fresh _ (λ _ d, bt_strategy d = s))|].
    intros n. by apply hoare_ret. }
  intros id. cbv zeta. rewrite (bool_decide_eq_false_2 (DefaultTenantID = "")) by done.
  set (row := mkAPIKey id name hash DefaultTenantID true "bootstrap" t None).
  eapply hoare_bind with (λ r d, bt_strategy d = s ∧ (is_Ok r = true → key_row name hash row d)).
  - apply hoare_exec; intros d Hd; try (by split); [|by case_match].
    case_match; [by split|]. split; [done|]. intros _. unfold key_row. cbn. split_and!; [set_solver|done..].
  - intros r. by apply hoare_ret.
Qed.

Lemma hoare_Grant d0 name :
  hoare (λ d, d = d0) (on_auth (ActorRoleRepository_Grant uuid (admin_grant name)))
    (λ g d, bt_strategy d = bt_strategy d0 ∧ bt_keys d = bt_keys d0 ∧ bt_entries d = bt_entries d0 ∧
            (is_Ok g.2 = true → admin_row name d)).
Proof.
  apply hoare_on_auth. intros d1. unfold ActorRoleRepository_Grant.
  eapply hoare_bind with (λ _ a, set_bauth a d1 = d0).
  { unfold fresh_id, admin_grant. cbn [acr_ID]. rewrite bool_decide_eq_true_2 by done.
    eapply hoare_bind; [by apply (hoare_fresh _ (λ _ a, set_bauth a d1 = d0))|]. intros n. by apply hoare_ret. }
  intros id. eapply hoare_bind with (λ _ a, set_bauth a d1 = d0); [by apply hoare_now|]. intros t. cbv zeta.
  set (row := grant_row (admin_grant name) id t).
  eapply hoare_bind with (λ r a, bt_strategy (set_bauth a d1) = bt_strategy d0 ∧ bt_keys (set_bauth a d1) = bt_keys d0 ∧
    bt_entries (set_bauth a d1) = bt_entries d0 ∧ (is_Ok r = true → admin_row name (set_bauth a d1))).
  - apply hoare_exec; intros a <-; [|done|repeat case_match; done].
    destruct (negb _); [done|]. destruct (existsb _ _) eqn:Ex; split_and!; try done; intros _.
    + apply existsb_exists in Ex as (x & Hin & Hx). exists x. unfold grant_conflict in Hx. rewrite andb_true_iff, bool_decide_eq_true in Hx.
      destruct Hx as [(E1 & _ & E2 & _ & E3) _]. cbn in *. split_and!; [by apply list_elem_of_In|done..].
    + exists row. cbn. split_and!; [set_solver|done..].
  - intros r. by apply hoare_ret.
Qed.

Lemma hoare_mint s name : hoare (λ d, bt_strategy d = s) (mint ToLower uuid audit keyStore name) (minted s name).
Proof.
  assert (Hfail : ∀ P id stage e e', hoare P (_ ← failed_audit ToLower audit id name stage e; mret (Err e')) (minted s name)).
  { intros P id stage e e'. eapply hoare_bind with (λ _ _, True); [done|]. intros []. apply hoare_ret. intros d _ m [=]. }
  unfold mint. eapply hoare_bind with (λ _ d, bt_strategy d = s).
  { unfold generateAPIKey, readRand. eapply hoare_bind with (λ _ d, bt_strategy d = s).
    - eapply hoare_bind; [by apply (hoare_fresh _ (λ _ d, bt_strategy d = s))|]. intros n. by apply hoare_ret.
    - intros b. by apply hoare_ret. }
  intros [key|e]; [|apply hoare_ret; by intros d _ m [=]]. cbv zeta.
  eapply hoare_bind with (λ _ d, bt_strategy d = s); [by apply hoare_now|]. intros t.
  eapply hoare_bind; [apply hoare_Create|]. intros [k r]. cbn [fst snd]. destruct r as [[]|e]; [|apply Hfail].
  intros w [Hs Hk]. specialize (Hk eq_refl). revert w Hs Hk.
  assert (∀ d0, bt_strategy d0 = s → key_row name (HashAPIKey key) k d0 →
    hoare (λ d, d = d0) (g ← on_auth (ActorRoleRepository_Grant uuid (admin_grant name));
      match g.2 with
      | Ok _ => d ← get_db; _ ← put_db (if keyStore then set_entries (AddHashed name (HashAPIKey key) true) d else d);
                _ ← consume_audit ToLower audit "bootstrap.consume" (ak_ID k) [("actor_name", GStr name); ("role_id", GStr RoleIDAdmin)];
                mret (Ok (mkMint k key))
      | Err e => _ ← failed_audit ToLower audit (ak_ID k) name "grant_role" e; mret (Err (ErrWrap "bootstrap: grant admin role" e))
      end) (minted s name)) as H; [|intros w Hs Hk; by apply (H (w_db w))].
  intros d0 Hs Hk. eapply hoare_bind; [apply hoare_Grant|]. intros [row r]. cbn [snd]. destruct r as [[]|e]; [|apply Hfail].
  intros w (H1 & H2 & H3 & H4). unfold mbind, M_bind, get_db, put_db.
  set (d1 := if keyStore then _ else _).
  pose proof (same_gate_audit ToLower audit "bootstrap.consume" (ak_ID k) [("actor_name", GStr name); ("role_id", GStr RoleIDAdmin)]
    (mkWorld d1 (w_env w))) as Hg. cbn in Hg |- *.
  destruct (consume_audit _ _ _ _ _ _) as [[] w2]. cbn in Hg |- *. intros m [= <-]. cbn.
  destruct Hg as (G1 & G2 & G3 & G4). destruct Hk as (K1 & K2).
  assert (bt_strategy d1 = s ∧ bt_keys d1 = bt_keys d0 ∧ bt_auth d1 = bt_auth (w_db w)) as (D1 & D2 & D3)
    by (subst d1; destruct keyStore; cbn; split_and!; congruence).
  split_and!; [congruence|unfold key_row; rewrite G3, D2; by split| |].
  - unfold admin_row. rewrite G4, D3. by apply H4.
  - intros Hks. rewrite G2. subst d1. rewrite Hks. apply lookup_added.
Qed.
End mint.

(** ** The gate *)
Lemma first_section_open token s o s' :
  first_section token s = (o, s') →
  (∃ e, o = Finished (Err e) ∧ s' = s) ∨
  (st_consumed s = false ∧ token = st_token s ∧ token ≠ "" ∧ (o = Finished (Ok tt) ∧ s' = set_consumed s ∨ o = Probing ∧ s' = s)).
Proof.
  unfold first_section, ConstantTimeCompare. destruct (st_consumed s) eqn:Ec; [intros [= <- <-]; left; eauto|].
  destruct (Nat.eqb (st_tokenLength s) 0 || Nat.eqb (len token) 0) eqn:El; [intros [= <- <-]; left; eauto|].
  case_bool_decide as Et; cbn [negb]; [|intros [= <- <-]; left; eauto].
  intros H. right. apply orb_false_iff in El as [_ El]. split_and!; [done|done|by intros ->|].
  destruct (st_probe s); injection H as <- <-; auto.
Qed.

Lemma hoare_Validate token d0 :
  hoare (λ d, d = d0) (Validate token)
    (λ r d, is_Ok r = true → st_consumed (bt_strategy d0) = false ∧ token = st_token (bt_strategy d0) ∧ token ≠ "" ∧
                             bt_strategy d = set_consumed (bt_strategy d0)).
Proof.
  unfold Validate. eapply hoare_bind with (λ o d, ∃ s', first_section token (bt_strategy d0) = (o, s') ∧ bt_strategy d = s').
  { apply hoare_locked. intros d ->. destruct (first_section token (bt_strategy d0)) as [o s']. by exists s'. }
  intros o w (s' & Hs & Hw). apply first_section_open in Hs as [(e & -> & ->)|(Hc & Ht & Hne & [[-> ->]|[-> ->]])]; [done|done|].
  revert w Hw. change (hoare (λ d, bt_strategy d = bt_strategy d0) (a ← probe; match probe_answer a with Some r => mret r | None => locked second_section end)
    (λ r d, is_Ok r = true → st_consumed (bt_strategy d0) = false ∧ token = st_token (bt_strategy d0) ∧ token ≠ "" ∧
            bt_strategy d = set_consumed (bt_strategy d0))).
  eapply hoare_bind with (λ _ d, bt_strategy d = bt_strategy d0).
  { apply hoare_on_auth. intros d. by intros w Hw. }
  intros a. destruct (probe_answer a) as [r|] eqn:Ea.
  - apply hoare_ret. intros d _. destruct a as [[]|]; by simplify_eq/=.
  - apply hoare_locked. intros d ->. unfold second_section. by rewrite Hc.
Qed.

Lemma closed_Validate token w :
  st_consumed (bt_strategy (w_db w)) = true → fst (Validate token w) = Err ErrBootstrapDisabled.
Proof.
  intros Hc. unfold Validate, locked, mbind, M_bind, first_section. rewrite Hc. done.
Qed.

(** A minted admin key works and is the last one.  A successful call presented the
    configured token to an open gate; its key's hash is stored under the requested name as an
    admin key, the name holds the admin role, the middleware's key store resolves the returned
    key to that name, and every later call in the process is refused, whatever its token. *)
Theorem bootstrap_mint_sound `{E : Entropy} ToLower uuid audit keyStore token name m w w' :
  ValidateAndMint ToLower uuid audit keyStore token name w = (Ok m, w') →
  st_consumed (bt_strategy (w_db w)) = false ∧ token = st_token (bt_strategy (w_db w)) ∧ token ≠ "" ∧
  key_row name (HashAPIKey (mr_KeyValue m)) (mr_APIKey m) (w_db w') ∧ admin_row name (w_db w') ∧
  (keyStore = true → LookupByHash (bt_entries (w_db w')) (HashAPIKey (mr_KeyValue m)) = Some (mkNamedAPIKey name "" true)) ∧
  ∀ token2 name2 w2, bt_strategy (w_db w2) = bt_strategy (w_db w') →
    is_Ok (fst (ValidateAndMint ToLower uuid audit keyStore token2 name2 w2)) = false.
Proof.
  unfold ValidateAndMint at 1. destruct (MatchString actorNameRe name); [|done]. cbn [negb]. unfold mbind, M_bind.
  pose proof (hoare_Validate token (w_db w) w eq_refl) as Hv. destruct (Validate token w) as [[[]|e] w1]; [|done]. cbn in Hv.
  destruct (Hv eq_refl) as (Hc & Ht & Hne & Hs). intros Hm.
  pose proof (hoare_mint ToLower uuid audit keyStore (bt_strategy (w_db w1)) name w1 eq_refl) as H. rewrite Hm in H.
  destruct (H m eq_refl) as (H1 & H2 & H3 & H4). cbn [snd] in *. split_and!; [done..|]. intros token2 name2 w2 Hw2.
  unfold ValidateAndMint. destruct (negb _); [done|]. unfold mbind, M_bind.
  pose proof (closed_Validate token2 w2) as Hcl. rewrite Hw2, H1, Hs in Hcl. specialize (Hcl eq_refl).
  destruct (Validate token2 w2) as [v w3]. cbn in Hcl. by subst v.
Qed.

(** ** Runs *)
Definition boot_auth : AuthDB := mkAuthDB {[ RoleIDAdmin := mkRole RoleIDAdmin DefaultTenantID "admin" "" 0 0 ]} [] [] [] [].
Definition boot_db : BootDB := mkBoot (NewEnvTokenStrategy "tok" true) [] boot_auth [].
Definition boot_uuid (n : N) : string := pretty.pretty n.
Definition boot_call (token name : string) : M BootDB (res MintResult) :=
  ValidateAndMint (E := toy_entropy) id boot_uuid true true token name.

Example bootstrap_mint_sound_witness :
  ∃ m w', boot_call "tok" "root-admin" (mkWorld boot_db (mkEnv 0 [] [] 0)) = (Ok m, w') ∧
    LookupByHash (bt_entries (w_db w')) (HashAPIKey (mr_KeyValue m)) = Some (mkNamedAPIKey "root-admin" "" true).
Proof.
  destruct (boot_call "tok" "root-admin" (mkWorld boot_db (mkEnv 0 [] [] 0))) as [[m|e] w'] eqn:Ec; [|by vm_compute in Ec].
  exists m, w'. split; [done|].
  by apply (bootstrap_mint_sound (E := toy_entropy) id boot_uuid true true "tok" "root-admin" m _ w' Ec).
Defined.

(** The statement faults after which the key is stored and the role grant fails. *)
Definition grant_fails : list fault := [FOk; FOk; FFail].

(** The gate is only as durable as the process.  A call whose key is stored but whose role
    grant fails leaves the process closed; after a restart the same token mints a second admin
    key, and the first one, whose plaintext nobody was given, is loaded into the key store. *)
Theorem bootstrap_reopens_after_restart :
  let '(r1, w1) := boot_call "tok" "first-admin" (mkWorld boot_db (mkEnv 0 [] grant_fails 0)) in
  let '(r2, w2) := boot_call "tok" "other-admin" w1 in
  let '(r3, w3) := boot_call "tok" "other-admin" (mkWorld (restart "tok" [] (w_db w1)) (w_env w1)) in
  is_Ok r1 = false ∧ r2 = Err ErrBootstrapDisabled ∧ is_Ok r3 = true ∧
  ak_Name <$> bt_keys (w_db w3) = ["first-admin"; "other-admin"] ∧
  en_name <$> bt_entries (w_db w3) = ["first-admin"; "other-admin"].
Proof. vm_compute. split_and!; done. Qed.

(** ** Two first logins *)
Definition hook_cfg : HookConfig := mkHook ["certctl-admins"] "".
Definition hook (user : string) : M AuthDB (res bool) :=
  AdminBootstrapHook id boot_uuid hook_cfg "op-1" ["certctl-admins"] user.

(** The OIDC hook's probe and grant are separate statements.  When a first login has seen
    that no administrator exists, another may run to its end before the first one grants: both
    users hold r-admin.  Run one after the other, only the first does. *)
Theorem oidc_two_first_admins :
  let w0 := mkWorld boot_auth (mkEnv 0 [] [] 0) in
  let admins (d : AuthDB) := acr_ActorID <$> au_actor_roles d in
  let '(p, w1) := ActorRoleRepository_AdminExists DefaultTenantID w0 in
  let '(bob, w2) := hook "bob" w1 in
  let '(alice, w3) := grant_admin id boot_uuid "op-1" "alice" w2 in
  let '(bob', w2') := hook "bob" w0 in
  let '(alice', w3') := hook "alice" w2' in
  p = Ok false ∧ bob = Ok true ∧ alice = Ok true ∧ admins (w_db w3) = ["bob"; "alice"] ∧
  bob' = Ok true ∧ alice' = Ok false ∧ admins (w_db w3') = ["bob"].
Proof. vm_compute. split_and!; done. Qed.
