(* ===== verification/HealthCheck.v ===== *)
(** * Endpoint health monitoring (src/internal/domain/health_check.go,
      repository/postgres/health_check.go, service/health_check.go, api/handler/health_check.go)

    [HealthDB] has the two tables of migration 000011 with their keys, foreign keys and INTEGER
    columns, and the audit log.  The TLS probe is a parameter: what it answered for each check of
    one run.  [Module ProbePool] is the fan-out of [RunHealthChecks] goroutine by goroutine;
    [Module HealthService] runs on what the pool collects.  A run that never comes back is
    [None]. *)

From Stdlib Require Import ZArith Lia Ascii String.
From stdpp Require Import prelude gmap strings list sorting.
From S2P Require Import Prelude AuditTrail Store Transactions.

(** ** domain/health_check.go *)
Definition HealthStatusHealthy : string := "healthy".
Definition HealthStatusDegraded : string := "degraded".
Definition HealthStatusDown : string := "down".
Definition HealthStatusCertMismatch : string := "cert_mismatch".
Definition HealthStatusUnknown : string := "unknown".

Definition IsValidHealthStatus (s : string) : bool :=
  bool_decide (s ∈ [HealthStatusHealthy; HealthStatusDegraded; HealthStatusDown; HealthStatusCertMismatch;
                    HealthStatusUnknown]).

Record EndpointHealthCheck := mkHealthCheck {
  hc_ID : string;
  hc_Endpoint : string;
  hc_CertificateID : option string;
  hc_NetworkScanTargetID : option string;
  hc_ExpectedFingerprint : string;
  hc_ObservedFingerprint : string;
  hc_Status : string;
  hc_ConsecutiveFailures : Z;
  hc_ResponseTimeMs : Z;
  hc_TLSVersion : string;
  hc_CipherSuite : string;
  hc_CertSubject : string;
  hc_CertIssuer : string;
  hc_CertExpiry : option Z;
  hc_LastCheckedAt : option Z;
  hc_LastSuccessAt : option Z;
  hc_LastFailureAt : option Z;
  hc_LastTransitionAt : option Z;
  hc_FailureReason : string;
  hc_DegradedThreshold : Z;
  hc_DownThreshold : Z;
  hc_CheckIntervalSecs : Z;
  hc_Enabled : bool;
  hc_Acknowledged : bool;
  hc_AcknowledgedBy : string;
  hc_AcknowledgedAt : option Z;
  hc_CreatedAt : Z;
  hc_UpdatedAt : Z
}.

Definition TransitionStatus (h : EndpointHealthCheck) (probeSuccess : bool) (observedFingerprint : string)
    : string * bool :=
  let newStatus :=
    if probeSuccess then
      if negb (bool_decide (hc_ExpectedFingerprint h = "")) &&
         negb (bool_decide (observedFingerprint = hc_ExpectedFingerprint h))
      then HealthStatusCertMismatch else HealthStatusHealthy
    else
      let failures := wrap64 (hc_ConsecutiveFailures h + 1) in
      if hc_DownThreshold h <=? failures then HealthStatusDown
      else if hc_DegradedThreshold h <=? failures then HealthStatusDegraded
      else if bool_decide (hc_Status h = HealthStatusUnknown) || bool_decide (hc_Status h = HealthStatusHealthy)
      then HealthStatusHealthy else hc_Status h in
  (newStatus, negb (bool_decide (newStatus = hc_Status h))).

Record HealthHistoryEntry := mkHistory {
  hh_ID : string;
  hh_HealthCheckID : string;
  hh_Status : string;
  hh_ResponseTimeMs : Z;
  hh_Fingerprint : string;
  hh_FailureReason : string;
  hh_CheckedAt : Z
}.

Record HealthCheckSummary := mkSummary {
  hsm_Healthy : Z; hsm_Degraded : Z; hsm_Down : Z; hsm_CertMismatch : Z; hsm_Unknown : Z; hsm_Total : Z }.

(** ** tlsprobe.ProbeResult *)
Record ProbeResult := mkProbe {
  pr_Success : bool;
  pr_Fingerprint : string;
  pr_TLSVersion : string;
  pr_CipherSuite : string;
  pr_Subject : string;
  pr_Issuer : string;
  pr_NotAfter : Z;
  pr_ResponseTimeMs : Z;
  pr_Error : string
}.
Definition zeroProbe : ProbeResult := mkProbe false "" "" "" "" "" 0 0 "".

(** ** The tables *)
Record HealthDB := mkHealthDB {
  hd_checks : gmap string EndpointHealthCheck;
  hd_history : gmap string HealthHistoryEntry;
  hd_certs : gset string;
  hd_scanTargets : gset string;
  hd_audit : list AuditEvent
}.

Definition set_checks (f : gmap string EndpointHealthCheck → gmap string EndpointHealthCheck) (d : HealthDB)
    : HealthDB := mkHealthDB (f (hd_checks d)) (hd_history d) (hd_certs d) (hd_scanTargets d) (hd_audit d).
Definition set_history (f : gmap string HealthHistoryEntry → gmap string HealthHistoryEntry) (d : HealthDB)
    : HealthDB := mkHealthDB (hd_checks d) (f (hd_history d)) (hd_certs d) (hd_scanTargets d) (hd_audit d).

#[global, program] Instance HasAudit_HealthDB : HasAudit HealthDB :=
  {| audit_log := hd_audit;
     append_audit := λ ev d, mkHealthDB (hd_checks d) (hd_history d) (hd_certs d) (hd_scanTargets d)
                               (hd_audit d ++ [ev]) |}.
Next Obligation. done. Qed.

(** ** repository/postgres/health_check.go *)
Module HealthCheckRepo.
(** An INTEGER column takes 32-bit values. *)
Definition int4 (z : Z) : bool := (- 2 ^ 31 <=? z) && (z <? 2 ^ 31).

Definition refers (k : option string) (s : gset string) : bool :=
  match k with None => true | Some x => bool_decide (x ∈ s) end.

(** The columns' types and the foreign keys. *)
Definition row_ok (d : HealthDB) (c : EndpointHealthCheck) : bool :=
  refers (hc_CertificateID c) (hd_certs d) && refers (hc_NetworkScanTargetID c) (hd_scanTargets d) &&
  int4 (hc_ConsecutiveFailures c) && int4 (hc_ResponseTimeMs c) && int4 (hc_DegradedThreshold c) &&
  int4 (hc_DownThreshold c) && int4 (hc_CheckIntervalSecs c).

Definition Create (c : EndpointHealthCheck) : M HealthDB (res unit) :=
  sql_exec "create health check" (λ d,
    if bool_decide (hd_checks d !! hc_ID c = None) && row_ok d c
    then (Ok tt, set_checks (<[hc_ID c := c]>) d)
    else (Err (ErrWrap "create health check" (ErrMsg "constraint violation")), d)).

(** Every column but created_at. *)
Definition overwrite_row (old c : EndpointHealthCheck) : EndpointHealthCheck :=
  mkHealthCheck (hc_ID old) (hc_Endpoint c) (hc_CertificateID c) (hc_NetworkScanTargetID c)
    (hc_ExpectedFingerprint c) (hc_ObservedFingerprint c) (hc_Status c) (hc_ConsecutiveFailures c)
    (hc_ResponseTimeMs c) (hc_TLSVersion c) (hc_CipherSuite c) (hc_CertSubject c) (hc_CertIssuer c)
    (hc_CertExpiry c) (hc_LastCheckedAt c) (hc_LastSuccessAt c) (hc_LastFailureAt c) (hc_LastTransitionAt c)
    (hc_FailureReason c) (hc_DegradedThreshold c) (hc_DownThreshold c) (hc_CheckIntervalSecs c)
    (hc_Enabled c) (hc_Acknowledged c) (hc_AcknowledgedBy c) (hc_AcknowledgedAt c) (hc_CreatedAt old)
    (hc_UpdatedAt c).

Definition stamped (t : Z) (c : EndpointHealthCheck) : EndpointHealthCheck :=
  mkHealthCheck (hc_ID c) (hc_Endpoint c) (hc_CertificateID c) (hc_NetworkScanTargetID c)
    (hc_ExpectedFingerprint c) (hc_ObservedFingerprint c) (hc_Status c) (hc_ConsecutiveFailures c)
    (hc_ResponseTimeMs c) (hc_TLSVersion c) (hc_CipherSuite c) (hc_CertSubject c) (hc_CertIssuer c)
    (hc_CertExpiry c) (hc_LastCheckedAt c) (hc_LastSuccessAt c) (hc_LastFailureAt c) (hc_LastTransitionAt c)
    (hc_FailureReason c) (hc_DegradedThreshold c) (hc_DownThreshold c) (hc_CheckIntervalSecs c)
    (hc_Enabled c) (hc_Acknowledged c) (hc_AcknowledgedBy c) (hc_AcknowledgedAt c) (hc_CreatedAt c) t.

(** An UPDATE that matches no row is no error.  The caller's check carries the new time. *)
Definition Update (c : EndpointHealthCheck) : M HealthDB (res EndpointHealthCheck) :=
  t ← now;
  sql_exec "update health check" (λ d,
    match hd_checks d !! hc_ID c with
    | None => (Ok (stamped t c), d)
    | Some old =>
        if row_ok d c then (Ok (stamped t c), set_checks (<[hc_ID c := overwrite_row old (stamped t c)]>) d)
        else (Err (ErrWrap "update health check" (ErrMsg "constraint violation")), d)
    end).

Definition Get (id : string) : M HealthDB (res EndpointHealthCheck) :=
  r ← sql_query "get health check" (λ d, hd_checks d !! id);
  mret match r with
       | Err e => Err e
       | Ok None => Err (ErrWrap "health check not found" repo_ErrNotFound)
       | Ok (Some c) => Ok c
       end.

(** The history rows of a check go with it. *)
Definition Delete (id : string) : M HealthDB (res unit) :=
  sql_exec "delete health check" (λ d,
    (Ok tt, match hd_checks d !! id with
            | None => d
            | Some _ => set_history (filter (λ kv, hh_HealthCheckID kv.2 ≠ id)) (set_checks (delete id) d)
            end)).

Record HealthCheckFilter := mkHealthFilter {
  hf_Status : string;
  hf_CertificateID : string;
  hf_NetworkScanTargetID : string;
  hf_Enabled : option bool;
  hf_Page : Z;
  hf_PerPage : Z
}.

Definition matches (f : HealthCheckFilter) (c : EndpointHealthCheck) : bool :=
  (bool_decide (hf_Status f = "") || bool_decide (hc_Status c = hf_Status f)) &&
  (bool_decide (hf_CertificateID f = "") || bool_decide (hc_CertificateID c = Some (hf_CertificateID f))) &&
  (bool_decide (hf_NetworkScanTargetID f = "") ||
   bool_decide (hc_NetworkScanTargetID c = Some (hf_NetworkScanTargetID f))) &&
  match hf_Enabled f with None => true | Some b => Bool.eqb (hc_Enabled c) b end.

Definition List (f : option HealthCheckFilter) : M HealthDB (res (list EndpointHealthCheck * Z)) :=
  let matching := λ d, filter (λ c, match f with None => true | Some f => matches f c end = true)
                         (rows (hd_checks d)) in
  total ← sql_query "count health checks" (λ d, Z.of_nat (length (matching d)));
  match total with
  | Err e => mret (Err e)
  | Ok total =>
      let page := match f with Some f => if 0 <? hf_Page f then hf_Page f else 1 | None => 1 end in
      let perPage := match f with Some f => if 0 <? hf_PerPage f then hf_PerPage f else 50 | None => 50 end in
      let offset := wrap64 (wrap64 (page - 1) * perPage) in
      r ← sql_query "list health checks" (λ d,
            if offset <? 0 then Err (ErrWrap "list health checks" (ErrMsg "OFFSET must not be negative"))
            else Ok (take (Z.to_nat perPage) (drop (Z.to_nat offset)
                       (merge_sort (desc hc_CreatedAt) (matching d)))));
      mret match r with Err e | Ok (Err e) => Err e | Ok (Ok l) => Ok (l, total) end
  end.

(** [last_checked_at IS NULL OR last_checked_at + interval < NOW()]. *)
Definition due (t : Z) (c : EndpointHealthCheck) : bool :=
  hc_Enabled c &&
  match hc_LastCheckedAt c with
  | None => true
  | Some l => l + hc_CheckIntervalSecs c * 10 ^ 9 <? t
  end.

(** [ORDER BY last_checked_at ASC NULLS FIRST]. *)
Definition checked_order (a b : EndpointHealthCheck) : Prop :=
  match hc_LastCheckedAt a, hc_LastCheckedAt b with
  | Some x, Some y => x ≤ y
  | Some _, None => False
  | None, _ => True
  end.
#[global] Instance checked_order_dec : RelDecision checked_order.
Proof. intros a b. unfold checked_order. destruct (hc_LastCheckedAt a), (hc_LastCheckedAt b); apply _. Defined.
#[global] Instance checked_order_total : Total checked_order.
Proof. intros a b. unfold checked_order. destruct (hc_LastCheckedAt a), (hc_LastCheckedAt b); auto; lia. Qed.

Definition ListDueForCheck : M HealthDB (res (list EndpointHealthCheck)) :=
  t ← now;
  sql_query "list due health checks" (λ d,
    merge_sort checked_order (filter (λ c, due t c = true) (rows (hd_checks d)))).

(** [QueryRow] of the checks of an endpoint: nothing makes the endpoint unique, and the first
    row comes in no particular order. *)
Definition GetByEndpoint (endpoint : string) : M HealthDB (res EndpointHealthCheck) :=
  r ← sql_query "get health check by endpoint" (λ d,
        head (filter (λ c, hc_Endpoint c = endpoint) (rows (hd_checks d))));
  mret match r with
       | Err e => Err e
       | Ok None => Err (ErrWrap "health check not found for endpoint" repo_ErrNotFound)
       | Ok (Some c) => Ok c
       end.

Definition RecordHistory (e : HealthHistoryEntry) : M HealthDB (res unit) :=
  sql_exec "record health check history" (λ d,
    if bool_decide (hd_history d !! hh_ID e = None) && bool_decide (is_Some (hd_checks d !! hh_HealthCheckID e)) &&
       int4 (hh_ResponseTimeMs e)
    then (Ok tt, set_history (<[hh_ID e := e]>) d)
    else (Err (ErrWrap "record health check history" (ErrMsg "constraint violation")), d)).

Definition GetHistory (healthCheckID : string) (limit : Z) : M HealthDB (res (list HealthHistoryEntry)) :=
  let limit := if limit <=? 0 then 100 else limit in
  sql_query "get health check history" (λ d,
    take (Z.to_nat limit) (merge_sort (desc hh_CheckedAt)
      (filter (λ e, hh_HealthCheckID e = healthCheckID) (rows (hd_history d))))).

Definition PurgeHistory (olderThan : Z) : M HealthDB (res Z) :=
  sql_exec "purge health check history" (λ d,
    let old := filter (λ kv : string * HealthHistoryEntry, hh_CheckedAt kv.2 < olderThan) (hd_history d) in
    (Ok (Z.of_nat (size old)), set_history (filter (λ kv, ¬ hh_CheckedAt kv.2 < olderThan)) d)).

(** [SELECT status, COUNT( * ) ... GROUP BY status], in some order. *)
Definition by_status (d : HealthDB) : list (string * Z) :=
  let statuses := map hc_Status (rows (hd_checks d)) in
  map (λ s, (s, Z.of_nat (length (filter (λ x, x = s) statuses)))) (remove_dups statuses).

(** The body of the loop over the groups. *)
Definition count_group (s : HealthCheckSummary) (g : string * Z) : HealthCheckSummary :=
  let '(status, count) := g in
  let '(mkSummary h dg dn cm u total) := s in
  let total := wrap64 (total + count) in
  if bool_decide (status = HealthStatusHealthy) then mkSummary count dg dn cm u total
  else if bool_decide (status = HealthStatusDegraded) then mkSummary h count dn cm u total
  else if bool_decide (status = HealthStatusDown) then mkSummary h dg count cm u total
  else if bool_decide (status = HealthStatusCertMismatch) then mkSummary h dg dn count u total
  else if bool_decide (status = HealthStatusUnknown) then mkSummary h dg dn cm count total
  else mkSummary h dg dn cm u total.

Definition GetSummary : M HealthDB (res HealthCheckSummary) :=
  sql_query "get health check summary" (λ d, foldl count_group (mkSummary 0 0 0 0 0 0) (by_status d)).
End HealthCheckRepo.

(** ** The probes of a run

    One goroutine per check: it takes a slot of the semaphore, probes, stores the result under
    the check's id and gives the slot back. *)
Module ProbePool.
Inductive probe_stage := Waiting | Probing | Finished.
#[global] Instance probe_stage_eq_dec : EqDecision probe_stage.
Proof. solve_decision. Defined.

Record pool := mkPool {
  pl_stages : list probe_stage;
  pl_results : gmap string ProbeResult
}.

Section pool.
Variable ProbeTLS : EndpointHealthCheck → ProbeResult.
Variable maxConcurrent : Z.
Variable checks : list EndpointHealthCheck.

Definition started : pool := mkPool (replicate (length checks) Waiting) ∅.

Definition in_flight (p : pool) : Z := Z.of_nat (length (filter (λ s, s = Probing) (pl_stages p))).

(** A send on the semaphore goes through while its buffer has room: with no buffer there is no
    receiver, since only a goroutine that holds a slot ever receives. *)
Inductive pool_step : relation pool :=
| step_acquire p i :
    pl_stages p !! i = Some Waiting → in_flight p < maxConcurrent →
    pool_step p (mkPool (<[i := Probing]> (pl_stages p)) (pl_results p))
| step_store p i c :
    pl_stages p !! i = Some Probing → checks !! i = Some c →
    pool_step p (mkPool (<[i := Finished]> (pl_stages p)) (<[hc_ID c := ProbeTLS c]> (pl_results p))).

(** [wg.Wait()] returns. *)
Definition all_finished (p : pool) : Prop := Forall (λ s, s = Finished) (pl_stages p).

(** What the loop after [wg.Wait()] reads. *)
Definition collected : gmap string ProbeResult :=
  list_to_map (map (λ c, (hc_ID c, ProbeTLS c)) checks).

(** The whole fan-out: [None] when it does not come back ([make(chan struct{}, n)] panics for a
    negative [n]). *)
Definition probe_all : option (gmap string ProbeResult) :=
  if maxConcurrent <=? 0 then None else Some collected.
End pool.
End ProbePool.

(** ** service/health_check.go *)
Module HealthService.
Import HealthCheckRepo ProbePool.

Record HealthCheckService := mkHealthService {
  hs_audit : bool;
  hs_maxConcurrent : Z;
  hs_historyRetention : Z
}.

(** The fields of a check a successful probe sets. *)
Definition probed_up (r : ProbeResult) (checkedAt successAt : Z) (c : EndpointHealthCheck) : EndpointHealthCheck :=
  mkHealthCheck (hc_ID c) (hc_Endpoint c) (hc_CertificateID c) (hc_NetworkScanTargetID c)
    (hc_ExpectedFingerprint c) (pr_Fingerprint r) (hc_Status c) 0 (pr_ResponseTimeMs r) (pr_TLSVersion r)
    (pr_CipherSuite r) (pr_Subject r) (pr_Issuer r) (Some (pr_NotAfter r)) (Some checkedAt) (Some successAt)
    (hc_LastFailureAt c) (hc_LastTransitionAt c) "" (hc_DegradedThreshold c) (hc_DownThreshold c)
    (hc_CheckIntervalSecs c) (hc_Enabled c) (hc_Acknowledged c) (hc_AcknowledgedBy c) (hc_AcknowledgedAt c)
    (hc_CreatedAt c) (hc_UpdatedAt c).

(** The fields of a check a failed probe sets. *)
Definition probed_down (r : ProbeResult) (checkedAt failureAt : Z) (c : EndpointHealthCheck) : EndpointHealthCheck :=
  mkHealthCheck (hc_ID c) (hc_Endpoint c) (hc_CertificateID c) (hc_NetworkScanTargetID c)
    (hc_ExpectedFingerprint c) (hc_ObservedFingerprint c) (hc_Status c) (wrap64 (hc_ConsecutiveFailures c + 1))
    (pr_ResponseTimeMs r) (hc_TLSVersion c) (hc_CipherSuite c) (hc_CertSubject c) (hc_CertIssuer c)
    (hc_CertExpiry c) (Some checkedAt) (hc_LastSuccessAt c) (Some failureAt) (hc_LastTransitionAt c) (pr_Error r)
    (hc_DegradedThreshold c) (hc_DownThreshold c) (hc_CheckIntervalSecs c) (hc_Enabled c) (hc_Acknowledged c)
    (hc_AcknowledgedBy c) (hc_AcknowledgedAt c) (hc_CreatedAt c) (hc_UpdatedAt c).

Definition moved (newStatus : string) (t : Z) (c : EndpointHealthCheck) : EndpointHealthCheck :=
  mkHealthCheck (hc_ID c) (hc_Endpoint c) (hc_CertificateID c) (hc_NetworkScanTargetID c)
    (hc_ExpectedFingerprint c) (hc_ObservedFingerprint c) newStatus (hc_ConsecutiveFailures c)
    (hc_ResponseTimeMs c) (hc_TLSVersion c) (hc_CipherSuite c) (hc_CertSubject c) (hc_CertIssuer c)
    (hc_CertExpiry c) (hc_LastCheckedAt c) (hc_LastSuccessAt c) (hc_LastFailureAt c) (Some t)
    (hc_FailureReason c) (hc_DegradedThreshold c) (hc_DownThreshold c) (hc_CheckIntervalSecs c)
    (hc_Enabled c) false (hc_AcknowledgedBy c) (hc_AcknowledgedAt c) (hc_CreatedAt c) (hc_UpdatedAt c).

Definition acked (actor : string) (t : Z) (c : EndpointHealthCheck) : EndpointHealthCheck :=
  mkHealthCheck (hc_ID c) (hc_Endpoint c) (hc_CertificateID c) (hc_NetworkScanTargetID c)
    (hc_ExpectedFingerprint c) (hc_ObservedFingerprint c) (hc_Status c) (hc_ConsecutiveFailures c)
    (hc_ResponseTimeMs c) (hc_TLSVersion c) (hc_CipherSuite c) (hc_CertSubject c) (hc_CertIssuer c)
    (hc_CertExpiry c) (hc_LastCheckedAt c) (hc_LastSuccessAt c) (hc_LastFailureAt c) (hc_LastTransitionAt c)
    (hc_FailureReason c) (hc_DegradedThreshold c) (hc_DownThreshold c) (hc_CheckIntervalSecs c)
    (hc_Enabled c) true actor (Some t) (hc_CreatedAt c) (hc_UpdatedAt c).

Section service.
Variable ToLower : string → string.
Variable s : HealthCheckService.

(** [if s.auditService != nil { _ = s.auditService.RecordEvent(...) }] *)
Definition audit_event (actor actorType action id : string) (det : details) : M HealthDB unit :=
  if hs_audit s
  then _ ← RecordEvent ToLower actor actorType action "health_check" id det; mret tt
  else mret tt.

(** One round of the loop over the checks, up to the UPDATE: the check as it will be written. *)
Definition apply_probe (c : EndpointHealthCheck) (r : ProbeResult) : M HealthDB EndpointHealthCheck :=
  t1 ← now;
  t2 ← now;
  let c' := if pr_Success r then probed_up r t1 t2 c else probed_down r t1 t2 c in
  let '(newStatus, transitioned) := TransitionStatus c' (pr_Success r) (pr_Fingerprint r) in
  if transitioned then
    t3 ← now;
    let c'' := moved newStatus t3 c' in
    _ ← audit_event "system" ActorTypeSystem "health_check_status_transition" (hc_ID c)
          [("endpoint", GStr (hc_Endpoint c)); ("old_status", GStr (hc_Status c)); ("new_status", GStr newStatus)];
    mret c''
  else mret c'.

Definition history_entry (c : EndpointHealthCheck) (t : Z) : HealthHistoryEntry :=
  mkHistory "" (hc_ID c) (hc_Status c) (hc_ResponseTimeMs c) (hc_ObservedFingerprint c) (hc_FailureReason c) t.

Definition process_check (results : gmap string ProbeResult) (c : EndpointHealthCheck) : M HealthDB unit :=
  c' ← apply_probe c (default zeroProbe (results !! hc_ID c));
  u ← Update c';
  match u with
  | Err _ => mret tt
  | Ok _ => t ← now; _ ← RecordHistory (history_entry c' t); mret tt
  end.

Definition PurgeOldHistory : M HealthDB (res unit) :=
  t ← now;
  r ← PurgeHistory (t - hs_historyRetention s);
  mret match r with Err e => Err e | Ok _ => Ok tt end.

(** After the probes. *)
Definition finish_run (checks : list EndpointHealthCheck) (results : gmap string ProbeResult)
    : M HealthDB (res unit) :=
  _ ← for_each checks (process_check results);
  _ ← PurgeOldHistory;
  mret (Ok tt).

Definition RunHealthChecks (ProbeTLS : EndpointHealthCheck → ProbeResult) : M HealthDB (option (res unit)) :=
  r ← ListDueForCheck;
  match r with
  | Err e => mret (Some (Err (ErrWrap "failed to list endpoints due for check" e)))
  | Ok [] => mret (Some (Ok tt))
  | Ok checks =>
      match probe_all ProbeTLS (hs_maxConcurrent s) checks with
      | None => mret None
      | Some results => x ← finish_run checks results; mret (Some x)
      end
  end.

Definition created (id : string) (t1 t2 : Z) (c : EndpointHealthCheck) : EndpointHealthCheck :=
  mkHealthCheck id (hc_Endpoint c) (hc_CertificateID c) (hc_NetworkScanTargetID c)
    (hc_ExpectedFingerprint c) (hc_ObservedFingerprint c) (hc_Status c) (hc_ConsecutiveFailures c)
    (hc_ResponseTimeMs c) (hc_TLSVersion c) (hc_CipherSuite c) (hc_CertSubject c) (hc_CertIssuer c)
    (hc_CertExpiry c) (hc_LastCheckedAt c) (hc_LastSuccessAt c) (hc_LastFailureAt c) (hc_LastTransitionAt c)
    (hc_FailureReason c) (hc_DegradedThreshold c) (hc_DownThreshold c) (hc_CheckIntervalSecs c)
    (hc_Enabled c) (hc_Acknowledged c) (hc_AcknowledgedBy c) (hc_AcknowledgedAt c) t1 t2.

(** The caller keeps the check with its id and times. *)
Definition Create (c : EndpointHealthCheck) : M HealthDB (res EndpointHealthCheck) :=
  id ← (if bool_decide (hc_ID c = "") then generateID "hc" else mret (hc_ID c));
  t1 ← now;
  t2 ← now;
  let c' := created id t1 t2 c in
  r ← HealthCheckRepo.Create c';
  match r with
  | Err e => mret (Err (ErrWrap "failed to create health check" e))
  | Ok _ =>
      _ ← audit_event "system" ActorTypeSystem "health_check_created" id [("endpoint", GStr (hc_Endpoint c))];
      mret (Ok c')
  end.

Definition Get (id : string) : M HealthDB (res EndpointHealthCheck) := HealthCheckRepo.Get id.

Definition Update (c : EndpointHealthCheck) : M HealthDB (res EndpointHealthCheck) :=
  t ← now;
  r ← HealthCheckRepo.Update (stamped t c);
  match r with
  | Err e => mret (Err (ErrWrap "failed to update health check" e))
  | Ok c' =>
      _ ← audit_event "system" ActorTypeSystem "health_check_updated" (hc_ID c) [("endpoint", GStr (hc_Endpoint c))];
      mret (Ok c')
  end.

Definition Delete (id : string) : M HealthDB (res unit) :=
  r ← HealthCheckRepo.Delete id;
  match r with
  | Err e => mret (Err (ErrWrap "failed to delete health check" e))
  | Ok _ => _ ← audit_event "system" ActorTypeSystem "health_check_deleted" id []; mret (Ok tt)
  end.

Definition List (f : option HealthCheckFilter) : M HealthDB (res (list EndpointHealthCheck * Z)) :=
  HealthCheckRepo.List (Some (default (mkHealthFilter "" "" "" None 0 0) f)).

Definition GetHistory (id : string) (limit : Z) : M HealthDB (res (list HealthHistoryEntry)) :=
  let limit := if limit <=? 0 then 100 else limit in
  let limit := if 1000 <? limit then 1000 else limit in
  HealthCheckRepo.GetHistory id limit.

Definition AcknowledgeIncident (id actor : string) : M HealthDB (res unit) :=
  r ← HealthCheckRepo.Get id;
  match r with
  | Err e => mret (Err (ErrWrap "failed to get health check" e))
  | Ok c =>
      t ← now;
      u ← HealthCheckRepo.Update (acked actor t c);
      match u with
      | Err e => mret (Err (ErrWrap "failed to update health check" e))
      | Ok _ =>
          _ ← audit_event actor ActorTypeUser "health_check_acknowledged" id [("endpoint", GStr (hc_Endpoint c))];
          mret (Ok tt)
      end
  end.
End service.
End HealthService.

(** ** api/handler/health_check.go

    The body of a request is what [json.Decode] made of it, or its error; a handler answers with
    the status code of its response.  The service is nil when monitoring is disabled. *)
Module HealthHandler.
Import HealthCheckRepo.

Inductive reply :=
| RError (code : Z) (msg : string)
| RCheck (code : Z) (c : EndpointHealthCheck)
| RNoContent
| RHistory (l : list HealthHistoryEntry)
| RChecks (l : list EndpointHealthCheck) (total page perPage : Z)
| RSummary (sm : HealthCheckSummary).

Definition disabled : reply := RError 503 "health check service is disabled".

Section handlers.
Variable ToLower : string → string.
Variable Atoi : string → option Z.
Variable svc : option HealthService.HealthCheckService.

Definition parseIntDefault (v : string) (defaultVal : Z) : Z :=
  if bool_decide (v = "") then defaultVal
  else match Atoi v with None => defaultVal | Some n => if n <? 1 then defaultVal else n end.

(** The query parameters of the request. *)
Definition ListHealthChecks (method : string) (query : string → string) : M HealthDB reply :=
  if negb (bool_decide (method = "GET")) then mret (RError 405 "Method not allowed")
  else
    let page := parseIntDefault (query "page") 1 in
    let perPage := parseIntDefault (query "per_page") 50 in
    let perPage := if 500 <? perPage then 50 else perPage in
    match svc with
    | None => mret (RChecks [] 0 page perPage)
    | Some _ =>
        let enabled := query "enabled" in
        let enabledFilter := if bool_decide (enabled = "") then None else Some (bool_decide (enabled = "true")) in
        r ← HealthService.List (Some (mkHealthFilter (query "status") (query "certificate_id")
              (query "network_scan_target_id") enabledFilter page perPage));
        mret match r with
             | Err e => RError 500 ("failed to list health checks: " +:+ Error e)
             | Ok (l, total) => RChecks l total page perPage
             end
    end.

Definition GetHealthCheck (method id : string) : M HealthDB reply :=
  if negb (bool_decide (method = "GET")) then mret (RError 405 "Method not allowed")
  else match svc with
  | None => mret disabled
  | Some _ =>
      if bool_decide (id = "") then mret (RError 400 "health check ID is required")
      else
        r ← HealthService.Get id;
        mret match r with
             | Err e => RError 404 ("health check not found: " +:+ Error e)
             | Ok c => RCheck 200 c
             end
  end.

(** The defaults of a new check. *)
Definition defaulted (c : EndpointHealthCheck) : EndpointHealthCheck :=
  mkHealthCheck (hc_ID c) (hc_Endpoint c) (hc_CertificateID c) (hc_NetworkScanTargetID c)
    (hc_ExpectedFingerprint c) (hc_ObservedFingerprint c)
    (if bool_decide (hc_Status c = "") then HealthStatusUnknown else hc_Status c) (hc_ConsecutiveFailures c)
    (hc_ResponseTimeMs c) (hc_TLSVersion c) (hc_CipherSuite c) (hc_CertSubject c) (hc_CertIssuer c)
    (hc_CertExpiry c) (hc_LastCheckedAt c) (hc_LastSuccessAt c) (hc_LastFailureAt c) (hc_LastTransitionAt c)
    (hc_FailureReason c)
    (if hc_DegradedThreshold c <=? 0 then 2 else hc_DegradedThreshold c)
    (if hc_DownThreshold c <=? 0 then 5 else hc_DownThreshold c)
    (if hc_CheckIntervalSecs c <=? 0 then 300 else hc_CheckIntervalSecs c)
    (hc_Enabled c) (hc_Acknowledged c) (hc_AcknowledgedBy c) (hc_AcknowledgedAt c) (hc_CreatedAt c)
    (hc_UpdatedAt c).

Definition CreateHealthCheck (method : string) (body : res EndpointHealthCheck) : M HealthDB reply :=
  if negb (bool_decide (method = "POST")) then mret (RError 405 "Method not allowed")
  else match svc with
  | None => mret disabled
  | Some s =>
      match body with
      | Err e => mret (RError 400 ("invalid request body: " +:+ Error e))
      | Ok check =>
          if bool_decide (hc_Endpoint check = "") then mret (RError 400 "endpoint is required")
          else
            r ← HealthService.Create ToLower s (defaulted check);
            mret match r with
                 | Err e => RError 500 ("failed to create health check: " +:+ Error e)
                 | Ok c => RCheck 201 c
                 end
      end
  end.

Definition merged (existing updates : EndpointHealthCheck) : EndpointHealthCheck :=
  mkHealthCheck (hc_ID existing)
    (if bool_decide (hc_Endpoint updates = "") then hc_Endpoint existing else hc_Endpoint updates)
    (hc_CertificateID existing) (hc_NetworkScanTargetID existing)
    (if bool_decide (hc_ExpectedFingerprint updates = "") then hc_ExpectedFingerprint existing
     else hc_ExpectedFingerprint updates)
    (hc_ObservedFingerprint existing) (hc_Status existing) (hc_ConsecutiveFailures existing)
    (hc_ResponseTimeMs existing) (hc_TLSVersion existing) (hc_CipherSuite existing) (hc_CertSubject existing)
    (hc_CertIssuer existing) (hc_CertExpiry existing) (hc_LastCheckedAt existing) (hc_LastSuccessAt existing)
    (hc_LastFailureAt existing) (hc_LastTransitionAt existing) (hc_FailureReason existing)
    (if 0 <? hc_DegradedThreshold updates then hc_DegradedThreshold updates else hc_DegradedThreshold existing)
    (if 0 <? hc_DownThreshold updates then hc_DownThreshold updates else hc_DownThreshold existing)
    (if 0 <? hc_CheckIntervalSecs updates then hc_CheckIntervalSecs updates else hc_CheckIntervalSecs existing)
    (hc_Enabled updates) (hc_Acknowledged existing) (hc_AcknowledgedBy existing) (hc_AcknowledgedAt existing)
    (hc_CreatedAt existing) (hc_UpdatedAt existing).

Definition UpdateHealthCheck (method id : string) (body : res EndpointHealthCheck) : M HealthDB reply :=
  if negb (bool_decide (method = "PUT")) then mret (RError 405 "Method not allowed")
  else match svc with
  | None => mret disabled
  | Some s =>
      if bool_decide (id = "") then mret (RError 400 "health check ID is required")
      else
        g ← HealthService.Get id;
        match g with
        | Err e => mret (RError 404 ("health check not found: " +:+ Error e))
        | Ok existing =>
            match body with
            | Err e => mret (RError 400 ("invalid request body: " +:+ Error e))
            | Ok updates =>
                let existing := merged existing updates in
                r ← HealthService.Update ToLower s existing;
                mret match r with
                     | Err e => RError 500 ("failed to update health check: " +:+ Error e)
                     | Ok c => RCheck 200 c
                     end
            end
        end
  end.

Definition DeleteHealthCheck (method id : string) : M HealthDB reply :=
  if negb (bool_decide (method = "DELETE")) then mret (RError 405 "Method not allowed")
  else match svc with
  | None => mret disabled
  | Some s =>
      if bool_decide (id = "") then mret (RError 400 "health check ID is required")
      else
        r ← HealthService.Delete ToLower s id;
        mret match r with
             | Err e => RError 500 ("failed to delete health check: " +:+ Error e)
             | Ok _ => RNoContent
             end
  end.

Definition GetHealthCheckHistory (method id limitStr : string) : M HealthDB reply :=
  if negb (bool_decide (method = "GET")) then mret (RError 405 "Method not allowed")
  else match svc with
  | None => mret (RHistory [])
  | Some _ =>
      if bool_decide (id = "") then mret (RError 400 "health check ID is required")
      else
        let limit := if bool_decide (limitStr = "") then 100
                     else match Atoi limitStr with Some l => if 0 <? l then l else 100 | None => 100 end in
        let limit := if 1000 <? limit then 1000 else limit in
        r ← HealthService.GetHistory id limit;
        mret match r with
             | Err e => RError 500 ("failed to get health check history: " +:+ Error e)
             | Ok l => RHistory l
             end
  end.

(** The body's [actor]. *)
Definition AcknowledgeHealthCheck (method id : string) (body : res string) : M HealthDB reply :=
  if negb (bool_decide (method = "POST")) then mret (RError 405 "Method not allowed")
  else match svc with
  | None => mret disabled
  | Some s =>
      if bool_decide (id = "") then mret (RError 400 "health check ID is required")
      else match body with
      | Err e => mret (RError 400 ("invalid request body: " +:+ Error e))
      | Ok actor =>
          let actor := if bool_decide (actor = "") then "unknown"%string else actor in
          r ← HealthService.AcknowledgeIncident ToLower s id actor;
          mret match r with
               | Err e => RError 500 ("failed to acknowledge health check: " +:+ Error e)
               | Ok _ => RNoContent
               end
      end
  end.

Definition GetHealthCheckSummary (method : string) : M HealthDB reply :=
  if negb (bool_decide (method = "GET")) then mret (RError 405 "Method not allowed")
  else match svc with
  | None => mret (RSummary (mkSummary 0 0 0 0 0 0))
  | Some _ =>
      r ← GetSummary;
      mret match r with
           | Err e => RError 500 ("failed to get health check summary: " +:+ Error e)
           | Ok sm => RSummary sm
           end
  end.
End handlers.
End HealthHandler.
