(* ===== verification/HealthFacts.v ===== *)
(** * Facts about endpoint health monitoring (HealthCheck.v)

    The fan-out of probes ends with every result in place, whatever the schedule, and hangs with
    an empty semaphore; the history table never holds more than one row; what a run leaves in
    every row, which trips the thresholds one failure early; and that a run writes back the row
    it loaded, over any edit made in between. *)

From Stdlib Require Import ZArith Lia Ascii String.
From stdpp Require Import prelude gmap strings list sorting.
From S2P Require Import Prelude AuditTrail Store Transactions EnvLogic HealthCheck.
Import HealthCheckRepo ProbePool HealthService HealthHandler.

(** ** The probes *)
Definition weight (st : probe_stage) : nat := match st with Waiting => 2 | Probing => 1 | Finished => 0 end.
Definition remaining (p : pool) : nat := sum_list (map weight (pl_stages p)).

Lemma sum_insert (l : list probe_stage) i x y :
  l !! i = Some x → (sum_list (map weight (<[i := y]> l)) + weight x = sum_list (map weight l) + weight y)%nat.
Proof.
  revert i. induction l as [|z l IH]; intros [|i] H; simplify_eq/=; [lia|].
  specialize (IH _ H). lia.
Qed.

Lemma in_flight_insert (l : list probe_stage) i x y :
  l !! i = Some x →
  (length (filter (λ s, s = Probing) (<[i := y]> l)) + (if decide (x = Probing) then 1 else 0) =
   length (filter (λ s, s = Probing) l) + (if decide (y = Probing) then 1 else 0))%nat.
Proof.
  revert i. induction l as [|z l IH]; intros [|i] H; simplify_eq/=.
  - rewrite !filter_cons. repeat case_decide; cbn; lia.
  - specialize (IH _ H). rewrite !filter_cons. destruct (decide (z = Probing)); cbn; lia.
Qed.

Section pool_facts.
Variable ProbeTLS : EndpointHealthCheck → ProbeResult.
Variable maxConcurrent : Z.
Variable checks : list EndpointHealthCheck.
Notation step := (pool_step ProbeTLS maxConcurrent checks).

(** Each step is one of finitely many. *)
Lemma pool_step_remaining p p' : step p p' → (remaining p' < remaining p)%nat.
Proof.
  unfold remaining. destruct 1 as [p i Hi _|p i c Hi _]; cbn [pl_stages].
  - pose proof (sum_insert _ _ _ Probing Hi). cbn in *. lia.
  - pose proof (sum_insert _ _ _ Finished Hi). cbn in *. lia.
Qed.

(** The results so far are those of the goroutines that are done. *)
Record pool_inv (p : pool) : Prop := {
  pi_length : length (pl_stages p) = length checks;
  pi_flight : in_flight p ≤ Z.max 0 maxConcurrent;
  pi_done i c : pl_stages p !! i = Some Finished → checks !! i = Some c →
    pl_results p !! hc_ID c = Some (ProbeTLS c);
  pi_results id r : pl_results p !! id = Some r → ∃ i c, checks !! i = Some c ∧ hc_ID c = id ∧ r = ProbeTLS c
}.

Lemma pool_inv_started : pool_inv (started checks).
Proof.
  split; cbn.
  - apply length_replicate.
  - unfold in_flight, started. cbn. rewrite filter_none; [cbn; lia|].
    apply Forall_replicate. done.
  - intros i c Hi%lookup_replicate. by destruct Hi.
  - done.
Qed.

Lemma pool_inv_step p p' : NoDup (map hc_ID checks) → pool_inv p → step p p' → pool_inv p'.
Proof.
  intros Hnd [Hl Hf Hd Hr] Hs. destruct Hs as [p i Hi Hroom|p i c Hi Hc]; split; cbn; try by rewrite length_insert.
  - pose proof (in_flight_insert _ _ _ Probing Hi) as H. unfold in_flight in *. simpl in *. lia.
  - intros j c Hj Hc. destruct (decide (i = j)) as [->|Hne].
    + rewrite list_lookup_insert_eq in Hj by (by eapply lookup_lt_Some). done.
    + rewrite list_lookup_insert_ne in Hj by done. eauto.
  - done.
  - pose proof (in_flight_insert _ _ _ Finished Hi) as H. unfold in_flight in *. simpl in *. lia.
  - intros j c' Hj Hc'. destruct (decide (hc_ID c = hc_ID c')) as [He|Hne].
    + assert (i = j) as ->.
      { apply (NoDup_lookup (map hc_ID checks) i j (hc_ID c) Hnd); rewrite list_lookup_fmap.
        - by rewrite Hc.
        - rewrite Hc'. cbn. by f_equal. }
      rewrite Hc in Hc'. injection Hc' as ->. by rewrite lookup_insert_eq.
    + rewrite lookup_insert_ne by done. destruct (decide (i = j)) as [->|Hij]; [congruence|].
      rewrite list_lookup_insert_ne in Hj by done. eauto.
  - intros id r [[<- <-]|[Hne H]]%lookup_insert_Some; [by exists i, c|eauto].
Qed.

Lemma pool_inv_reach p : NoDup (map hc_ID checks) → rtc step (started checks) p → pool_inv p.
Proof.
  intros Hnd H. enough (∀ q, pool_inv q → rtc step q p → pool_inv p) as HH by (eapply HH; [apply pool_inv_started|done]).
  clear H. intros q Hq H. induction H; [done|]. apply IHrtc. by eapply pool_inv_step.
Qed.

(** A pool with room to probe moves until every goroutine is done. *)
Lemma pool_progress p : 0 < maxConcurrent → pool_inv p → all_finished p ∨ ∃ p', step p p'.
Proof.
  intros Hmax [Hl _ _ _]. destruct (decide (Forall (λ s, s = Finished) (pl_stages p))) as [|Hn]; [by left|right].
  destruct (decide (Exists (λ s, s = Probing) (pl_stages p))) as [Hp|Hp].
  - apply Exists_exists in Hp as (s & Hin & ->). apply list_elem_of_lookup in Hin as [i Hi].
    destruct (lookup_lt_is_Some_2 checks i) as [c Hc]; [rewrite <-Hl; by eapply lookup_lt_Some|].
    eexists. by eapply (step_store _ _ _ p i c).
  - assert (in_flight p = 0) as H0.
    { unfold in_flight. rewrite filter_none; [done|]. apply Forall_forall. intros s Hs ->.
      apply Hp, Exists_exists. eauto. }
    apply not_Forall_Exists in Hn; [|apply _]. apply Exists_exists in Hn as (s & Hin & Hs).
    apply list_elem_of_lookup in Hin as [i Hi]. destruct s; [| |by destruct Hs].
    + eexists. apply (step_acquire _ _ _ p i); [done|lia].
    + exfalso. apply Hp, Exists_exists. exists Probing. split; [by eapply list_elem_of_lookup_2|done].
Qed.

Lemma pool_collected p :
  NoDup (map hc_ID checks) → pool_inv p → all_finished p → pl_results p = collected ProbeTLS checks.
Proof.
  intros Hnd [Hl _ Hd Hr] Hall. apply map_eq. intros id. unfold collected.
  destruct (pl_results p !! id) as [r|] eqn:E.
  - destruct (Hr _ _ E) as (i & c & Hc & <- & ->). symmetry. apply elem_of_list_to_map.
    + by rewrite <-list_fmap_compose.
    + apply list_elem_of_fmap. exists c. split; [done|by eapply list_elem_of_lookup_2].
  - symmetry. apply not_elem_of_list_to_map. rewrite <-list_fmap_compose.
    intros (c & -> & Hin)%list_elem_of_fmap. apply list_elem_of_lookup in Hin as [i Hi]. cbn in E.
    destruct (lookup_lt_is_Some_2 (pl_stages p) i) as [st Hst]; [rewrite Hl; by eapply lookup_lt_Some|].
    rewrite (Forall_lookup_1 _ _ _ _ Hall Hst) in Hst. by rewrite (Hd _ _ Hst Hi) in E.
Qed.

(** An empty semaphore lets nobody in. *)
Lemma pool_stuck p' : maxConcurrent ≤ 0 → ¬ step (started checks) p'.
Proof.
  intros Hmax Hs. inversion Hs as [p i Hi Hroom|p i c Hi Hc]; subst.
  - unfold in_flight in Hroom. lia.
  - apply lookup_replicate in Hi as [H _]. done.
Qed.
End pool_facts.

(** C34: The fan-out of [RunHealthChecks] as [probe_all] has it.  Every schedule of the probing
    goroutines is finite, keeps within the semaphore's size, and stops only when [wg.Wait()]
    returns, with exactly the results [probe_all] collects; with an empty semaphore no goroutine
    ever moves, so the run hangs as soon as a check is due. *)
Theorem probe_pool_refines ProbeTLS maxConcurrent checks (Hids : NoDup (map hc_ID checks)) p
    (Hreach : rtc (pool_step ProbeTLS maxConcurrent checks) (started checks) p) :
  in_flight p ≤ Z.max 0 maxConcurrent ∧
  (∀ p', pool_step ProbeTLS maxConcurrent checks p p' → (remaining p' < remaining p)%nat) ∧
  ((¬ ∃ p', pool_step ProbeTLS maxConcurrent checks p p') →
   match probe_all ProbeTLS maxConcurrent checks with
   | Some results => all_finished p ∧ pl_results p = results
   | None => p = started checks ∧ (checks ≠ [] → ¬ all_finished p)
   end).
Proof.
  pose proof (pool_inv_reach _ _ _ _ Hids Hreach) as Hinv. split_and!.
  - apply Hinv.
  - intros p' Hs. by eapply pool_step_remaining.
  - intros Hstop. unfold probe_all. destruct (Z.leb_spec maxConcurrent 0) as [Hz|Hz].
    + assert (p = started checks) as ->.
      { inversion Hreach; [done|]. by exfalso; eapply pool_stuck. }
      split; [done|]. intros Hne Hall. destruct checks; [done|]. by inversion Hall.
    + destruct (pool_progress ProbeTLS maxConcurrent checks p Hz Hinv) as [Hall|]; [|done].
      split; [done|]. by eapply pool_collected.
Qed.

(** ** What every call keeps

    A row's endpoint is set and its thresholds and interval are positive; a history row has the
    empty id. *)
Definition sane (c : EndpointHealthCheck) : Prop :=
  hc_Endpoint c ≠ "" ∧ 0 < hc_DegradedThreshold c ∧ 0 < hc_DownThreshold c ∧ 0 < hc_CheckIntervalSecs c.

Definition lone_history (d : HealthDB) : Prop := ∀ k e, hd_history d !! k = Some e → k = "".

Definition health_inv (d : HealthDB) : Prop := map_Forall (λ _ c, sane c) (hd_checks d) ∧ lone_history d.

Lemma sane_defaulted id t1 t2 c : hc_Endpoint c ≠ "" → sane (created id t1 t2 (defaulted c)).
Proof. intros H. split_and!; cbn; [done|..]; case_match; lia. Qed.

Lemma sane_merged c u : sane c → sane (merged c u).
Proof.
  intros (H1 & H2 & H3 & H4). split_and!; cbn; repeat case_match; try done; try lia.
  by case_bool_decide.
Qed.

Lemma lone_history_size d : lone_history d → (size (hd_history d) ≤ 1)%nat.
Proof.
  intros H. rewrite <-size_dom. transitivity (size ({[""]} : gset string)); [|by rewrite size_singleton].
  apply subseteq_size. intros k [e He]%elem_of_dom. rewrite (H _ _ He). by apply elem_of_singleton.
Qed.

Lemma health_inv_row d c id : health_inv d → sane c → health_inv (set_checks (<[id := c]>) d).
Proof. intros [H1 H2] Hc. split; [by apply map_Forall_insert_2|done]. Qed.

Section kept.
Variable ToLower : string → string.
Variable Atoi : string → option Z.
Variable s : HealthCheckService.

Lemma kept_for_each {D A} (P : D → Prop) (l : list A) (body : A → M D unit) :
  (∀ x, x ∈ l → hoare P (body x) (λ _, P)) → hoare P (for_each l body) (λ _, P).
Proof.
  induction l as [|x l IH]; intros H; cbn; [by apply hoare_ret|].
  apply hoare_bind with (λ _, P); [apply H; by left|]. intros _. apply IH. intros y Hy. apply H. by right.
Qed.

Lemma kept_Get id : hoare health_inv (HealthCheckRepo.Get id) (λ r d, health_inv d ∧ ∀ c, r = Ok c → sane c).
Proof.
  apply hoare_bind with (λ r d, health_inv d ∧ ∀ c, r = Ok (Some c) → sane c).
  - apply hoare_query; [|done]. intros d Hd. split; [done|]. intros c [= H]. by eapply (proj1 Hd).
  - intros r. apply hoare_ret. intros d [Hd Hr]. split; [done|]. intros c. destruct r as [[x|]|]; try done.
    intros [= ->]. auto.
Qed.

Lemma kept_Update c : sane c → hoare health_inv (HealthCheckRepo.Update c) (λ _, health_inv).
Proof.
  intros Hc. unfold HealthCheckRepo.Update. hkeep; [by hkeep|].
  apply hoare_exec; [|done|]; intros d Hd; destruct (hd_checks d !! hc_ID c); try done; case_match; try done.
  all: by apply health_inv_row.
Qed.

Lemma checks_kept_audit actor aty act id det : hoare health_inv (audit_event ToLower s actor aty act id det) (λ _, health_inv).
Proof.
  unfold audit_event. case_match; [|by apply hoare_ret].
  apply hoare_bind with (λ _, health_inv); [by apply hoare_audit_keeps|]. intros. by apply hoare_ret.
Qed.

Lemma kept_Create c : hc_Endpoint c ≠ "" → hoare health_inv (HealthService.Create ToLower s (defaulted c)) (λ _, health_inv).
Proof.
  intros Hc. unfold HealthService.Create.
  apply hoare_bind with (λ _, health_inv); [case_match; [by apply hoare_generateID|by apply hoare_ret]|]. intros id.
  hkeep; [by hkeep|]. hkeep; [by hkeep|]. cbv zeta. hkeep.
  - apply hoare_exec; [|done|]; intros d Hd; case_match; try done; apply health_inv_row; try done; by apply sane_defaulted.
  - hkeep; [|by hkeep]. hkeep; [apply checks_kept_audit|by hkeep].
Qed.

Lemma kept_apply c r : sane c → hoare health_inv (apply_probe ToLower s c r) (λ c' d, health_inv d ∧ sane c').
Proof.
  intros Hc. unfold apply_probe. hkeep; [by hkeep|]. hkeep; [by hkeep|]. cbv zeta.
  set (c' := if pr_Success r then _ else _).
  assert (sane c') as Hc' by (unfold c'; by case_match).
  destruct (TransitionStatus _ _ _) as [st tr]. destruct tr; [|by apply hoare_ret].
  hkeep; [by hkeep|]. hkeep; [apply checks_kept_audit|]. apply hoare_ret. intros d Hd. done.
Qed.

Lemma kept_history c t : hoare health_inv (RecordHistory (history_entry c t)) (λ _, health_inv).
Proof.
  apply hoare_exec; [|done|]; intros d [H1 H2]; case_match; try done; (split; [done|]).
  all: unfold lone_history; cbn; intros k e [[<- _]|[_ Hk]]%lookup_insert_Some; [done|by eapply H2].
Qed.

Lemma kept_process results c : sane c → hoare health_inv (process_check ToLower s results c) (λ _, health_inv).
Proof.
  intros Hc. unfold process_check. eapply hoare_bind; [by apply kept_apply|]. intros c'. cbn.
  apply hoare_bind with (λ _, health_inv); [apply hoare_given; apply kept_Update|].
  intros [x|e]; [|by hkeep]. hkeep; [by hkeep|]. hkeep; [apply kept_history|by hkeep].
Qed.

Lemma kept_filtered (P : string * HealthHistoryEntry → Prop) `{∀ x, Decision (P x)} d :
  lone_history d → lone_history (set_history (filter P) d).
Proof. intros Hl k e [He _]%map_lookup_filter_Some. by eapply Hl. Qed.

Lemma kept_purge : hoare health_inv (PurgeOldHistory s) (λ _, health_inv).
Proof.
  unfold PurgeOldHistory, PurgeHistory. hkeep; [by hkeep|]. hkeep; [|by hkeep].
  apply hoare_exec; [|done|]; intros d [H1 H2]; (split; [done|by apply kept_filtered]).
Qed.

Lemma kept_run ProbeTLS : hoare health_inv (RunHealthChecks ToLower s ProbeTLS) (λ _, health_inv).
Proof.
  unfold RunHealthChecks, ListDueForCheck.
  apply hoare_bind with (λ r d, health_inv d ∧ ∀ l c, r = Ok l → c ∈ l → sane c).
  - hkeep; [by hkeep|]. apply hoare_query; intros d Hd; split; try done.
    intros l c [= <-]. rewrite (merge_sort_Permutation checked_order), list_elem_of_filter, elem_of_rows.
    intros (_ & k & Hk). by eapply (proj1 Hd).
  - intros r. apply hoare_given. intros Hr.
    destruct r as [[|c l]|e]; [by apply hoare_ret| |by apply hoare_ret].
    destruct (probe_all _ _ _) as [results|]; [|by apply hoare_ret].
    hkeep; [|by hkeep]. unfold finish_run. hkeep.
    + apply kept_for_each. intros x Hx. eapply kept_process, Hr; done.
    + hkeep; [apply kept_purge|by hkeep].
Qed.

(** The routes of the handler, and the scheduler's run. *)
Inductive health_call :=
| CallList (method : string) (query : string → string)
| CallGet (method id : string)
| CallCreate (method : string) (body : res EndpointHealthCheck)
| CallUpdate (method id : string) (body : res EndpointHealthCheck)
| CallDelete (method id : string)
| CallHistory (method id limit : string)
| CallAcknowledge (method id : string) (body : res string)
| CallSummary (method : string)
| CallRun (ProbeTLS : EndpointHealthCheck → ProbeResult).

Definition run_health_call (c : health_call) : M HealthDB unit :=
  match c with
  | CallList m q => _ ← ListHealthChecks Atoi (Some s) m q; mret tt
  | CallGet m id => _ ← GetHealthCheck (Some s) m id; mret tt
  | CallCreate m b => _ ← CreateHealthCheck ToLower (Some s) m b; mret tt
  | CallUpdate m id b => _ ← UpdateHealthCheck ToLower (Some s) m id b; mret tt
  | CallDelete m id => _ ← DeleteHealthCheck ToLower (Some s) m id; mret tt
  | CallHistory m id l => _ ← GetHealthCheckHistory Atoi (Some s) m id l; mret tt
  | CallAcknowledge m id b => _ ← AcknowledgeHealthCheck ToLower (Some s) m id b; mret tt
  | CallSummary m => _ ← GetHealthCheckSummary (Some s) m; mret tt
  | CallRun p => _ ← RunHealthChecks ToLower s p; mret tt
  end.

Lemma kept_edit m id b : hoare health_inv (UpdateHealthCheck ToLower (Some s) m id b) (λ _, health_inv).
Proof.
  unfold UpdateHealthCheck, HealthService.Get, HealthService.Update. cbv iota. do 2 (hkeep; [by hkeep|]).
  eapply hoare_bind; [apply kept_Get|]. intros r. cbn. apply hoare_given. intros Hr. hkeep; [|by hkeep]. hkeep; [|by hkeep].
  cbv zeta. hkeep; [|by hkeep]. hkeep; [by hkeep|]. hkeep; [by apply kept_Update, sane_merged, Hr|].
  hkeep; [|by hkeep]. hkeep; [apply checks_kept_audit|by hkeep].
Qed.

Lemma kept_ack m id b : hoare health_inv (AcknowledgeHealthCheck ToLower (Some s) m id b) (λ _, health_inv).
Proof.
  unfold AcknowledgeHealthCheck, AcknowledgeIncident. cbv iota. do 2 (hkeep; [by hkeep|]). hkeep; [|by hkeep].
  cbv zeta. hkeep; [|by hkeep]. eapply hoare_bind; [apply kept_Get|]. intros r. cbn. apply hoare_given. intros Hr.
  hkeep; [|by hkeep]. hkeep; [by hkeep|]. hkeep; [apply kept_Update; exact (Hr _ eq_refl)|].
  hkeep; [|by hkeep]. hkeep; [apply checks_kept_audit|by hkeep].
Qed.

Lemma kept_delete m id : hoare health_inv (DeleteHealthCheck ToLower (Some s) m id) (λ _, health_inv).
Proof.
  unfold DeleteHealthCheck, HealthService.Delete, HealthCheckRepo.Delete. cbv iota. do 2 (hkeep; [by hkeep|]).
  hkeep; [|by hkeep]. hkeep; [|hkeep; [|by hkeep]; hkeep; [apply checks_kept_audit|by hkeep]].
  apply hoare_exec; [|done|]; intros d [H1 H2]; cbn; (case_match; [|done]); (split; [|by apply (kept_filtered _ (set_checks _ _))]).
  all: by apply map_Forall_delete.
Qed.

Lemma kept_call c : hoare health_inv (run_health_call c) (λ _, health_inv).
Proof.
  destruct c; cbn [run_health_call]; (hkeep; [|by hkeep]).
  - unfold ListHealthChecks, HealthService.List, HealthCheckRepo.List. repeat hkeep.
  - unfold GetHealthCheck, HealthService.Get, HealthCheckRepo.Get. repeat hkeep.
  - unfold CreateHealthCheck. cbv iota. hkeep; [by hkeep|]. hkeep; [|by hkeep]. hkeep; [by hkeep|].
    hkeep; [|by hkeep]. apply kept_Create. by eapply bool_decide_eq_false_1.
  - apply kept_edit.
  - apply kept_delete.
  - unfold GetHealthCheckHistory, HealthService.GetHistory, HealthCheckRepo.GetHistory. repeat hkeep.
  - apply kept_ack.
  - unfold GetHealthCheckSummary, GetSummary. repeat hkeep.
  - apply kept_run.
Qed.
End kept.

(** C27: Whatever requests the handlers serve and however often the scheduler runs, under any
    failures of the database: every stored check has an endpoint, positive thresholds and a
    positive interval; and the table of probe history holds at most one row, because every entry
    is inserted under the empty id. *)
Theorem health_monitor_invariant ToLower Atoi s (calls : list health_call) w
    (Hrows : map_Forall (λ _ c, sane c) (hd_checks (w_db w))) (Hhist : hd_history (w_db w) = ∅) :
  let d := w_db (snd (for_each calls (run_health_call ToLower Atoi s) w)) in
  map_Forall (λ _ c, sane c) (hd_checks d) ∧ (size (hd_history d) ≤ 1)%nat.
Proof.
  intros d. assert (health_inv d) as [H1 H2]; [|split; [done|by apply lone_history_size]].
  refine (kept_for_each health_inv calls _ _ w _); [intros c _; apply kept_call|].
  split; [done|]. intros k e. by rewrite Hhist.
Qed.

(** ** What a run leaves in a row *)
Definition tripped (degraded down failures : Z) (previous : string) : string :=
  if down <=? failures then HealthStatusDown
  else if degraded <=? failures then HealthStatusDegraded
  else if bool_decide (previous = HealthStatusUnknown) || bool_decide (previous = HealthStatusHealthy)
  then HealthStatusHealthy else previous.

Record after_probe (c : EndpointHealthCheck) (r : ProbeResult) (c' : EndpointHealthCheck) : Prop := {
  ap_failures : hc_ConsecutiveFailures c' = if pr_Success r then 0 else hc_ConsecutiveFailures c + 1;
  ap_status : hc_Status c' =
    if pr_Success r then
      if bool_decide (hc_ExpectedFingerprint c = "" ∨ pr_Fingerprint r = hc_ExpectedFingerprint c)
      then HealthStatusHealthy else HealthStatusCertMismatch
    else tripped (hc_DegradedThreshold c) (hc_DownThreshold c) (hc_ConsecutiveFailures c' + 1) (hc_Status c);
  ap_ack : hc_Acknowledged c' = hc_Acknowledged c && bool_decide (hc_Status c' = hc_Status c);
  ap_reason : hc_FailureReason c' = if pr_Success r then "" else pr_Error r;
  ap_time : hc_ResponseTimeMs c' = pr_ResponseTimeMs r;
  ap_kept : hc_ID c' = hc_ID c ∧ hc_Endpoint c' = hc_Endpoint c ∧ hc_Enabled c' = hc_Enabled c ∧
    hc_CertificateID c' = hc_CertificateID c ∧ hc_NetworkScanTargetID c' = hc_NetworkScanTargetID c ∧
    hc_ExpectedFingerprint c' = hc_ExpectedFingerprint c ∧
    hc_DegradedThreshold c' = hc_DegradedThreshold c ∧ hc_DownThreshold c' = hc_DownThreshold c ∧
    hc_CheckIntervalSecs c' = hc_CheckIntervalSecs c
}.

(** The row as the loop has it before the UPDATE. *)
Definition written (c : EndpointHealthCheck) (r : ProbeResult) (t1 t2 t3 : Z) : EndpointHealthCheck :=
  let c' := if pr_Success r then probed_up r t1 t2 c else probed_down r t1 t2 c in
  let '(st, tr) := TransitionStatus c' (pr_Success r) (pr_Fingerprint r) in
  if tr then moved st t3 c' else c'.

(** A transition changes the status and drops the acknowledgement, and no transition neither. *)
Lemma moved_or_not st t c x :
  x = (if negb (bool_decide (st = hc_Status c)) then moved st t c else c) →
  hc_Status x = st ∧ hc_Acknowledged x = hc_Acknowledged c && bool_decide (st = hc_Status c) ∧
  moved st t x = moved st t c.
Proof. intros ->. case_bool_decide as E; cbn; rewrite ?andb_true_r, ?andb_false_r; by split_and!. Qed.

Lemma written_after c r t1 t2 t3 :
  0 ≤ hc_ConsecutiveFailures c < 2 ^ 31 - 1 → after_probe c r (written c r t1 t2 t3).
Proof.
  intros Hf. unfold written.
  set (c1 := if pr_Success r then probed_up r t1 t2 c else probed_down r t1 t2 c).
  destruct (TransitionStatus _ _ _) as [st tr] eqn:Et. injection Et as Est <-. rewrite Est.
  edestruct (moved_or_not st t3 c1) as (H1 & H2 & H3); [reflexivity|].
  set (x := if negb (bool_decide (st = hc_Status c1)) then _ else _) in *. clearbody x.
  assert (hc_Status c1 = hc_Status c ∧ hc_Acknowledged c1 = hc_Acknowledged c) as [E1 E2]
    by (unfold c1; by destruct (pr_Success r)).
  injection H3 as ?????????????????????????.
  assert (hc_ConsecutiveFailures x = if pr_Success r then 0 else hc_ConsecutiveFailures c + 1) as E3.
  { unfold c1 in *. destruct (pr_Success r); cbn in *; [done|]. rewrite <-(wrap64_small (_ + 1)); [done|lia]. }
  split; [done| |by rewrite H1, H2, E1, E2|..]; unfold c1 in *; destruct (pr_Success r) eqn:Es; try done; try by split_and!.
  - rewrite H1, <-Est. cbn. repeat case_bool_decide; cbn; naive_solver.
  - rewrite H1, E3, <-Est. unfold tripped. cbn.
    rewrite (wrap64_small (_ + 1)) by (rewrite wrap64_small; lia). by rewrite wrap64_small by lia.
Qed.

(** Each check in its row, with values the columns take. *)
Definition rows_ok (d : HealthDB) : Prop :=
  map_Forall (λ id c, hc_ID c = id ∧ row_ok d c = true ∧ 0 ≤ hc_ConsecutiveFailures c < 2 ^ 31 - 1) (hd_checks d).

Lemma keyed_NoDup d : rows_ok d → NoDup (map hc_ID (rows (hd_checks d))).
Proof.
  intros Hk. unfold rows.
  replace (map hc_ID (map_to_list (hd_checks d)).*2) with (map_to_list (hd_checks d)).*1;
    [apply NoDup_fst_map_to_list|].
  rewrite <-list_fmap_compose. apply list_fmap_ext. intros i [k c] H%list_elem_of_lookup_2.
  apply elem_of_map_to_list in H. cbn. symmetry. by apply Hk.
Qed.

Lemma row_ok_after d d' c r c' :
  row_ok d c = true → hd_certs d' = hd_certs d → hd_scanTargets d' = hd_scanTargets d →
  0 ≤ hc_ConsecutiveFailures c < 2 ^ 31 - 1 → int4 (pr_ResponseTimeMs r) = true → after_probe c r c' →
  row_ok d' c' = true.
Proof.
  unfold row_ok. intros Hok Hc Ht Hf Hr [Hf' _ _ _ Ht' (_ & _ & _ & -> & -> & _ & -> & -> & ->)].
  rewrite Hc, Ht, Ht', Hr. rewrite !andb_true_iff in *. destruct Hok as ((((((? & ?) & _) & _) & ?) & ?) & ?).
  split_and!; try done. rewrite Hf'. unfold int4. destruct (pr_Success r); lia.
Qed.

(** The tables of checks and what they refer to. *)
Definition same_checks (d d' : HealthDB) : Prop :=
  hd_checks d' = hd_checks d ∧ hd_certs d' = hd_certs d ∧ hd_scanTargets d' = hd_scanTargets d.
#[global] Instance same_checks_preorder : PreOrder same_checks.
Proof. split; [by intros d|]. intros d1 d2 d3 (? & ? & ?) (? & ? & ?). split_and!; congruence. Qed.

Section run.
Variable ToLower : string → string.
Variable s : HealthCheckService.
Variable ProbeTLS : EndpointHealthCheck → ProbeResult.
Variable d0 : HealthDB.
Hypothesis Hrows : rows_ok d0.
Hypothesis Hprobe : ∀ c, int4 (pr_ResponseTimeMs (ProbeTLS c)) = true.

(** The checks in [done] have been written, the others are as they were. *)
Definition progress (done : list string) (d : HealthDB) : Prop :=
  hd_certs d = hd_certs d0 ∧ hd_scanTargets d = hd_scanTargets d0 ∧
  ∀ id c, hd_checks d0 !! id = Some c →
    ∃ c', hd_checks d !! id = Some c' ∧ if decide (id ∈ done) then after_probe c (ProbeTLS c) c' else c' = c.

Lemma progress_same done d d' : same_checks d d' → progress done d → progress done d'.
Proof. intros (H1 & H2 & H3) (? & ? & ?). unfold progress. rewrite H1, H2, H3. done. Qed.

Lemma ehoare_same {A} done (m : M HealthDB A) :
  pres same_checks m → wpres elapsed m → ehoare no_faults (progress done) m (λ _, progress done).
Proof.
  intros Hp Ht. apply ehoare_of; [apply _| |done]. intros w Hw. eapply progress_same; [apply Hp|done].
Qed.

Lemma same_audit actor aty act id det : pres same_checks (audit_event ToLower s actor aty act id det).
Proof.
  unfold audit_event, RecordEvent, RecordEventWithCategory, AuditRepository_Create, generateID.
  solve_pres; repeat case_match; done.
Qed.

Lemma elapsed_audit actor aty act id det : wpres elapsed (audit_event ToLower s actor aty act id det).
Proof. unfold audit_event. case_match; [wstep; [apply elapsed_RecordEvent|wstep]|wstep]. Qed.

Lemma run_apply done c : 0 ≤ hc_ConsecutiveFailures c < 2 ^ 31 - 1 →
  ehoare no_faults (progress done) (apply_probe ToLower s c (ProbeTLS c))
    (λ c' d, progress done d ∧ after_probe c (ProbeTLS c) c').
Proof.
  intros Hf. unfold apply_probe.
  eapply ehoare_bind; [apply (ehoare_time _ (progress done))|]. intros t1.
  eapply ehoare_bind; [apply (ehoare_time _ (progress done))|]. intros t2. cbv zeta.
  pose proof (λ t3, written_after c (ProbeTLS c) t1 t2 t3 Hf) as Hw. unfold written in Hw.
  destruct (TransitionStatus _ _ _) as [st tr]. destruct tr; [|apply ehoare_ret; intros d Hd; split; [done|apply (Hw 0)]].
  eapply ehoare_bind; [apply (ehoare_time _ (progress done))|]. intros t3.
  eapply ehoare_bind; [apply (ehoare_same done); [apply same_audit|apply elapsed_audit]|]. intros ?.
  apply ehoare_ret. intros d Hd. split; [done|apply Hw].
Qed.

Lemma run_update done c c' : c ∈ rows (hd_checks d0) → after_probe c (ProbeTLS c) c' → hc_ID c ∉ done →
  ehoare no_faults (progress done) (HealthCheckRepo.Update c')
    (λ r d, progress (hc_ID c :: done) d).
Proof.
  intros [k Hk]%elem_of_rows Ha Hnew. destruct (Hrows _ _ Hk) as (<- & Hok & Hf).
  pose proof Ha as [Hf' Hst Hack Hre Hti (Hid & Hke)].
  unfold HealthCheckRepo.Update. eapply ehoare_bind; [apply (ehoare_time _ (progress done))|]. intros t.
  apply ehoare_exec. intros d (Hc & Ht & Hd). rewrite Hid.
  destruct (Hd _ _ Hk) as (x & -> & Hx). rewrite decide_False in Hx by done. subst x.
  rewrite (row_ok_after d0 d c (ProbeTLS c) c') by done. cbn. split_and!; [done|done|].
  intros id y Hy. cbn. destruct (decide (id = hc_ID c)) as [->|Hne].
  - rewrite lookup_insert_eq. eexists. split; [done|]. rewrite decide_True by (by left).
    assert (y = c) as -> by congruence. by split.
  - rewrite lookup_insert_ne by done. destruct (Hd _ _ Hy) as (y' & E & Hy'). exists y'. split; [done|].
    destruct (decide (id ∈ hc_ID c :: done)) as [[?|Hin]%elem_of_cons|Hn]; [done| |].
    + by rewrite decide_True in Hy'.
    + rewrite decide_False in Hy'; [done|]. intros ?. apply Hn. by right.
Qed.

Lemma run_process done results c :
  c ∈ rows (hd_checks d0) → results !! hc_ID c = Some (ProbeTLS c) → hc_ID c ∉ done →
  ehoare no_faults (progress done) (process_check ToLower s results c) (λ _, progress (hc_ID c :: done)).
Proof.
  intros Hin Hres Hnew. unfold process_check. rewrite Hres. cbn [default].
  assert (0 ≤ hc_ConsecutiveFailures c < 2 ^ 31 - 1) as Hf by (apply elem_of_rows in Hin as [k Hk]; by apply (Hrows _ _ Hk)).
  eapply ehoare_bind; [by apply run_apply|]. intros c'. cbn. apply ehoare_pure. intros Ha.
  eapply ehoare_bind; [by apply run_update|]. intros [x|e]; [|by apply ehoare_ret].
  eapply ehoare_bind; [apply (ehoare_time _ (progress (hc_ID c :: done)))|]. intros t.
  apply ehoare_same; unfold RecordHistory.
  - pres_step; [pres_step; case_match; done|pres_step].
  - wstep; [apply elapsed_exec|wstep].
Qed.

Lemma run_loop done l :
  (∀ c, c ∈ l → c ∈ rows (hd_checks d0)) → NoDup (map hc_ID l) → (∀ c, c ∈ l → hc_ID c ∉ done) →
  ∀ results, (∀ c, c ∈ l → results !! hc_ID c = Some (ProbeTLS c)) →
  ehoare no_faults (progress done) (for_each l (process_check ToLower s results))
    (λ _, progress (reverse (map hc_ID l) ++ done)).
Proof.
  revert done. induction l as [|c l IH]; intros done Hin Hnd Hnew results Hres; cbn [for_each map]; [by apply ehoare_ret|].
  apply NoDup_cons in Hnd as [Hc Hnd].
  eapply ehoare_bind; [apply run_process; [apply Hin|apply Hres|apply Hnew]; by left|]. intros u.
  rewrite reverse_cons, <-app_assoc. apply IH; try done.
  - intros x Hx. apply Hin. by right.
  - intros x Hx [E|H]%elem_of_cons; [|eapply Hnew; [by right|done]].
    apply Hc. rewrite <-E. apply list_elem_of_fmap. eauto.
  - intros x Hx. apply Hres. by right.
Qed.

Lemma run_finish l :
  (∀ c, c ∈ l → c ∈ rows (hd_checks d0)) → NoDup (map hc_ID l) →
  ehoare no_faults (λ d, d = d0) (finish_run ToLower s l (collected ProbeTLS l))
    (λ r d, r = Ok tt ∧ progress (reverse (map hc_ID l)) d).
Proof.
  intros Hin Hnd. unfold finish_run. eapply ehoare_bind.
  - eapply (ehoare_pre _ (progress [])); [intros d ->|apply run_loop; try done].
    + split_and!; try done. intros id c Hc. by exists c.
    + intros c _. apply not_elem_of_nil.
    + intros c Hc. apply elem_of_list_to_map; [by rewrite <-list_fmap_compose|].
      apply list_elem_of_fmap. eauto.
  - intros u. rewrite app_nil_r. eapply ehoare_bind; [|intros u2; apply ehoare_ret; intros d Hd; split; [done|exact Hd]].
    apply ehoare_same; unfold PurgeOldHistory, PurgeHistory.
    + by repeat pres_step.
    + wstep; [wstep|]. wstep; [apply elapsed_exec|wstep].
Qed.
End run.

Definition due_checks (t : Z) (d : HealthDB) : list EndpointHealthCheck :=
  merge_sort checked_order (filter (λ c, due t c = true) (rows (hd_checks d))).

(** The run reads exactly the checks that are due, each once. *)
Lemma due_checks_spec t d : rows_ok d →
  (∀ c, c ∈ due_checks t d → c ∈ rows (hd_checks d)) ∧ NoDup (map hc_ID (due_checks t d)) ∧
  (∀ c id, hd_checks d !! id = Some c → id ∈ map hc_ID (due_checks t d) ↔ due t c = true).
Proof.
  intros Hrows. assert (∀ c, c ∈ due_checks t d ↔ due t c = true ∧ c ∈ rows (hd_checks d)) as Hl.
  { intros c. unfold due_checks. by rewrite (merge_sort_Permutation checked_order), list_elem_of_filter. }
  split_and!.
  - intros c Hc. by apply Hl.
  - unfold due_checks. rewrite (merge_sort_Permutation checked_order).
    eapply NoDup_map_sublist; [by apply keyed_NoDup|apply sublist_filter].
  - intros c id Hc. rewrite list_elem_of_fmap. destruct (Hrows _ _ Hc) as (<- & _). split.
    + intros (x & E & [Hd [k Hk]%elem_of_rows]%Hl). destruct (Hrows _ _ Hk) as (<- & _). congruence.
    + intros Hd. exists c. split; [done|]. apply Hl. split; [done|]. apply elem_of_rows. eauto.
Qed.

(** C26: One run of the monitor with no failing statement and a semaphore with room returns, and
    leaves in every row what its probe says: a check that was due counts its failures, keeps its
    configuration, and moves to the status its thresholds give for ONE MORE failure than the row
    counts; every other check is untouched. *)
Theorem run_health_checks_rows ToLower s ProbeTLS w
    (Hquiet : env_faults (w_env w) = []) (Hmax : 0 < hs_maxConcurrent s) (Hrows : rows_ok (w_db w))
    (Hprobe : ∀ c, int4 (pr_ResponseTimeMs (ProbeTLS c)) = true) :
  let '(r, w') := RunHealthChecks ToLower s ProbeTLS w in
  r = Some (Ok tt) ∧
  ∀ id c, hd_checks (w_db w) !! id = Some c →
    ∃ c', hd_checks (w_db w') !! id = Some c' ∧
      if due (fst (now w)) c then after_probe c (ProbeTLS c) c' else c' = c.
Proof.
  unfold RunHealthChecks. destruct (now_run w) as (t & w1 & Ht & Hw1 & Hf1). rewrite Ht. cbn [fst].
  destruct (due_checks_spec t (w_db w) Hrows) as (Hin & Hnd & Hdue).
  rewrite (bind_run ListDueForCheck _ w w1 (Ok (due_checks t (w_db w)))).
  2: { unfold ListDueForCheck. erewrite bind_run by exact Ht. rewrite query_run by congruence. by rewrite Hw1. }
  destruct (due_checks t (w_db w)) as [|x l] eqn:El.
  - split; [done|]. intros id c Hc. rewrite Hw1. exists c. split; [done|].
    destruct (due t c) eqn:Ed; [|done]. apply (Hdue c id Hc) in Ed. by apply elem_of_nil in Ed.
  - unfold probe_all. rewrite (proj2 (Z.leb_gt _ _)) by done.
    destruct (run_finish ToLower s ProbeTLS (w_db w) Hrows Hprobe (x :: l) Hin Hnd w1) as (_ & Hr & _ & _ & Hd);
      [by unfold no_faults; congruence|done|].
    rewrite (bind_run _ _ w1 _ _ (surjective_pairing _)), Hr. split; [done|]. intros id c Hc.
    destruct (Hd id c Hc) as (c' & Hc' & H). exists c'. split; [done|].
    specialize (Hdue c id Hc). rewrite <-elem_of_reverse in Hdue. case_decide as E.
    + by rewrite (proj1 Hdue E).
    + destruct (due t c); [|done]. by destruct E; apply Hdue.
Qed.

(** ** The thresholds trip early *)
Fixpoint rounds (ToLower : string → string) (s : HealthCheckService) (rs : list ProbeResult) (c : EndpointHealthCheck)
    : M HealthDB EndpointHealthCheck :=
  match rs with
  | [] => mret c
  | r :: rs' => c' ← apply_probe ToLower s c r; rounds ToLower s rs' c'
  end.

Lemma apply_written ToLower s c r w : ∃ t1 t2 t3, fst (apply_probe ToLower s c r w) = written c r t1 t2 t3.
Proof.
  unfold apply_probe. destruct (now_run w) as (t1 & w1 & E1 & _). destruct (now_run w1) as (t2 & w2 & E2 & _).
  destruct (now_run w2) as (t3 & w3 & E3 & _). exists t1, t2, t3.
  rewrite (bind_run _ _ _ _ _ E1), (bind_run _ _ _ _ _ E2). cbv zeta. unfold written.
  destruct (TransitionStatus _ _ _) as [st tr]. destruct tr; [|done].
  rewrite (bind_run _ _ _ _ _ E3). by rewrite (bind_run _ _ w3 _ _ (surjective_pairing _)).
Qed.

Lemma rounds_down ToLower s rs c n prev w :
  (∀ r, r ∈ rs → pr_Success r = false) → 0 ≤ n → n + Z.of_nat (length rs) < 2 ^ 31 - 1 →
  hc_ConsecutiveFailures c = n →
  hc_Status c = (if n =? 0 then prev else tripped (hc_DegradedThreshold c) (hc_DownThreshold c) (n + 1) prev) →
  let c' := fst (rounds ToLower s rs c w) in
  let k := n + Z.of_nat (length rs) in
  hc_ConsecutiveFailures c' = k ∧
  hc_Status c' = (if k =? 0 then prev else tripped (hc_DegradedThreshold c) (hc_DownThreshold c) (k + 1) prev).
Proof.
  revert c n w. induction rs as [|r rs IH]; intros c n w Hr Hn Hlen Hf Hs; cbn -[Z.of_nat] in *.
  { by rewrite Z.add_0_r. }
  destruct (apply_written ToLower s c r w) as (t1 & t2 & t3 & E).
  rewrite (bind_run _ _ w _ _ (surjective_pairing _)), E.
  destruct (written_after c r t1 t2 t3 ltac:(lia)) as [Hf' Hs' _ _ _ Hk]. set (c1 := written c r t1 t2 t3) in *.
  rewrite (Hr r ltac:(by left)) in *. destruct Hk as (_ & _ & _ & _ & _ & _ & Hdeg & Hdown & _).
  destruct (IH c1 (n + 1) (snd (apply_probe ToLower s c r w))) as [H1 H2]; try lia.
  - intros x Hx. apply Hr. by right.
  - rewrite Hs', Hf', Hf, Hs, Hdeg, Hdown. rewrite (proj2 (Z.eqb_neq (n + 1) 0)) by lia.
    unfold tripped. repeat case_match; try done; first [lia|congruence].
  - rewrite H1, H2, Hdeg, Hdown. replace (n + 1 + Z.of_nat (length rs)) with (n + Z.of_nat (S (length rs))) by lia. done.
Qed.

(** A healthy or new endpoint that fails [k] probes in a row is degraded, and down, when its
    threshold is at most [k + 1]: one failure before the row's own count reaches it.  With the
    default of two failures the first failed probe degrades the endpoint. *)
Theorem thresholds_trip_early ToLower s c rs w
    (Hnew : hc_ConsecutiveFailures c = 0) (Hst : hc_Status c = HealthStatusHealthy ∨ hc_Status c = HealthStatusUnknown)
    (Hdown : ∀ r, r ∈ rs → pr_Success r = false) (Hlen : 0 < Z.of_nat (length rs) < 2 ^ 31 - 1) :
  let c' := fst (rounds ToLower s rs c w) in
  let k := Z.of_nat (length rs) in
  hc_ConsecutiveFailures c' = k ∧
  hc_Status c' = (if hc_DownThreshold c <=? k + 1 then HealthStatusDown
                  else if hc_DegradedThreshold c <=? k + 1 then HealthStatusDegraded else HealthStatusHealthy).
Proof.
  destruct (rounds_down ToLower s rs c 0 (hc_Status c) w) as [H1 H2]; try done; [lia|].
  cbv zeta in *. rewrite Z.add_0_l in H1, H2. split; [done|]. rewrite H2.
  rewrite (proj2 (Z.eqb_neq _ _)) by lia. unfold tripped. by destruct Hst as [-> | ->].
Qed.

(** ** Edits during a probe are lost *)
Lemma same_apply ToLower s c r : pres same_checks (apply_probe ToLower s c r).
Proof.
  unfold apply_probe. do 2 (pres_step; [pres_step|]). cbv zeta. destruct (TransitionStatus _ _ _) as [st tr].
  destruct tr; [|pres_step]. pres_step; [pres_step|]. pres_step; [apply same_audit|pres_step].
Qed.

Lemma elapsed_apply ToLower s c r : wpres elapsed (apply_probe ToLower s c r).
Proof.
  unfold apply_probe. do 2 (wstep; [wstep|]). cbv zeta. destruct (TransitionStatus _ _ _) as [st tr].
  destruct tr; [|wstep]. wstep; [wstep|]. wstep; [apply elapsed_audit|wstep].
Qed.

(** The row a statement of the loop leaves, whatever was there. *)
Lemma update_overwrites c cur :
  ehoare no_faults (λ d, hd_checks d !! hc_ID c = Some cur ∧ row_ok d c = true) (HealthCheckRepo.Update c)
    (λ _ d, ∃ t, hd_checks d !! hc_ID c = Some (overwrite_row cur (stamped t c))).
Proof.
  unfold HealthCheckRepo.Update. eapply ehoare_bind; [apply (ehoare_time _ (λ d, hd_checks d !! hc_ID c = Some cur ∧ row_ok d c = true))|].
  intros t. apply ehoare_exec. intros d [-> ->]. exists t. cbn. by rewrite lookup_insert_eq.
Qed.

(** The loop writes back the whole check it loaded before the probes.  Whatever the row has
    become in the meantime (disabled, acknowledged, other thresholds, another expected
    fingerprint), it is overwritten with the loaded configuration; only its creation time
    survives. *)
Theorem probe_overwrites_edits ToLower s results c r cur w
    (Hquiet : env_faults (w_env w) = []) (Hres : results !! hc_ID c = Some r)
    (Hcur : hd_checks (w_db w) !! hc_ID c = Some cur) (Hkey : hc_ID cur = hc_ID c) (Hok : row_ok (w_db w) c = true)
    (Hf : 0 ≤ hc_ConsecutiveFailures c < 2 ^ 31 - 1) (Hr : int4 (pr_ResponseTimeMs r) = true) :
  ∃ c', hd_checks (w_db (snd (process_check ToLower s results c w))) !! hc_ID c = Some c' ∧
    after_probe c r c' ∧ hc_CreatedAt c' = hc_CreatedAt cur.
Proof.
  unfold process_check. rewrite Hres. change (default zeroProbe (Some r)) with r. rewrite (bind_run _ _ w _ _ (surjective_pairing _)).
  destruct (apply_written ToLower s c r w) as (t1 & t2 & t3 & E). pose proof (written_after c r t1 t2 t3 Hf) as Ha.
  rewrite <-E in Ha. pose proof (same_apply ToLower s c r w) as (Hs & Hc & Ht).
  pose proof (proj2 (proj2 (elapsed_apply ToLower s c r w)) Hquiet) as Hq.
  destruct (apply_probe ToLower s c r w) as [c' w1]. cbn [fst snd] in *.
  assert (hc_ID c' = hc_ID c) as Hid by apply Ha.
  destruct (update_overwrites c' cur w1) as (Hq2 & t & Hrow); [done| |].
  { rewrite Hs, Hid. split; [done|]. by eapply (row_ok_after (w_db w)). }
  rewrite (bind_run _ _ w1 _ _ (surjective_pairing _)). rewrite Hid in Hrow.
  assert (∀ w2 : World HealthDB, hd_checks (w_db w2) !! hc_ID c = Some (overwrite_row cur (stamped t c')) →
    ∃ x, hd_checks (w_db w2) !! hc_ID c = Some x ∧ after_probe c r x ∧ hc_CreatedAt x = hc_CreatedAt cur) as Hend.
  { intros w2 H. eexists. split; [exact H|]. split; [|done]. destruct Ha as [? ? ? ? ? [? ?]]. by split. }
  destruct (fst (HealthCheckRepo.Update c' w1)) as [x|e]; [|by apply Hend].
  apply Hend. set (m := now ≫= _).
  assert (pres same_checks m) as Hm.
  { unfold m, RecordHistory. do 2 (pres_step; [pres_step; try case_match; done|]). pres_step. }
  by rewrite (proj1 (Hm _)).
Qed.

(** ** The summary *)
Definition count_of (st : string) (l : list string) : nat := length (filter (λ x, x = st) l).

Definition category (st : string) (sm : HealthCheckSummary) : Z :=
  if bool_decide (st = HealthStatusHealthy) then hsm_Healthy sm
  else if bool_decide (st = HealthStatusDegraded) then hsm_Degraded sm
  else if bool_decide (st = HealthStatusDown) then hsm_Down sm
  else if bool_decide (st = HealthStatusCertMismatch) then hsm_CertMismatch sm
  else hsm_Unknown sm.

Lemma category_group st sm k n :
  IsValidHealthStatus st = true →
  category st (count_group sm (k, n)) = if bool_decide (k = st) then n else category st sm.
Proof.
  intros Hv%bool_decide_eq_true_1. destruct sm as [h dg dn cm u total]. unfold count_group.
  repeat (apply elem_of_cons in Hv as [->|Hv]); [..|by apply elem_of_nil in Hv].
  all: repeat case_bool_decide; subst; done.
Qed.

Lemma category_fold st l sm :
  IsValidHealthStatus st = true → NoDup l.*1 →
  category st (foldl count_group sm l) =
    match list_find (λ g : string * Z, g.1 = st) l with Some (_, g) => g.2 | None => category st sm end.
Proof.
  intros Hv. revert sm. induction l as [|[k n] l IH]; intros sm Hnd; [done|].
  cbn [foldl list_find fmap list_fmap fst] in *. apply NoDup_cons in Hnd as [Hk Hnd]. rewrite IH, category_group by done. case_bool_decide as E.
  - subst k. rewrite decide_True by done. rewrite (proj2 (list_find_None _ _)); [done|].
    apply Forall_forall. intros g Hg <-. apply Hk. by apply list_elem_of_fmap_2.
  - rewrite decide_False by done. by destruct (list_find _ l) as [[? ?]|].
Qed.

Lemma total_fold l sm :
  (∀ g, g ∈ l → 0 ≤ g.2) → 0 ≤ hsm_Total sm → hsm_Total sm + foldr Z.add 0 l.*2 < 2 ^ 63 →
  hsm_Total (foldl count_group sm l) = hsm_Total sm + foldr Z.add 0 l.*2.
Proof.
  revert sm. induction l as [|[k n] l IH]; intros sm Hp Hs Hb; cbn [foldl foldr fmap list_fmap snd] in *; [lia|].
  assert (0 ≤ n) as Hn by (apply (Hp (k, n)); by left).
  assert (0 ≤ foldr Z.add 0 l.*2) as Hr.
  { clear -Hp. induction l as [|g l IH]; cbn; [done|]. specialize (Hp g) as Hg.
    assert (0 ≤ g.2) by (apply Hp; right; by left).
    assert (0 ≤ foldr Z.add 0 l.*2); [|lia]. apply IH. intros x Hx. apply Hp. set_solver. }
  assert (hsm_Total (count_group sm (k, n)) = hsm_Total sm + n) as E.
  { rewrite <-(wrap64_small (hsm_Total sm + n)) by lia. destruct sm. cbn. by repeat case_match. }
  rewrite IH; rewrite ?E; try lia. intros g Hg. apply Hp. by right.
Qed.

(** Counting by the values that occur counts everything. *)
Lemma counts_add_up (ks l : list string) :
  NoDup ks → (∀ x, x ∈ l → x ∈ ks) → foldr Z.add 0 (map (λ k, Z.of_nat (count_of k l)) ks) = Z.of_nat (length l).
Proof.
  intros Hnd. induction l as [|x l IH]; intros Hin.
  { clear. induction ks; cbn in *; [done|lia]. }
  assert (x ∈ ks) as Hx by (apply Hin; by left).
  assert (∀ y, y ∈ l → y ∈ ks) as Hl by (intros y Hy; apply Hin; by right). specialize (IH Hl). clear Hin Hl.
  cbn [length]. rewrite Nat2Z.inj_succ, <-IH. clear IH.
  induction ks as [|k ks IH]; [by apply elem_of_nil in Hx|]. apply NoDup_cons in Hnd as [Hk Hnd]. cbn [map foldr].
  unfold count_of at 1. rewrite filter_cons. destruct (decide (x = k)) as [->|Hne].
  - cbn [length]. fold (count_of k l). rewrite (map_ext_in _ (λ k, Z.of_nat (count_of k l)) ks); [lia|].
    intros y Hy. unfold count_of. rewrite filter_cons, decide_False; [done|]. intros ->. by apply Hk, list_elem_of_In.
  - fold (count_of k l). apply elem_of_cons in Hx as [|Hx]; [done|]. rewrite IH by done. lia.
Qed.

(** The summary counts every stored check once in its total and under its status when that is
    one of the five; a status outside them, which the API stores as it is given, is counted in the
    total alone. *)
Theorem health_summary_counts w sm (Hsize : Z.of_nat (size (hd_checks (w_db w))) < 2 ^ 63)
    (Hsum : fst (GetSummary w) = Ok sm) :
  hsm_Total sm = Z.of_nat (size (hd_checks (w_db w))) ∧
  ∀ st, IsValidHealthStatus st = true →
    category st sm = Z.of_nat (count_of st (map hc_Status (rows (hd_checks (w_db w))))).
Proof.
  assert (sm = foldl count_group (mkSummary 0 0 0 0 0 0) (by_status (w_db w))) as ->.
  { revert Hsum. unfold GetSummary. mrun. destruct (env_faults (w_env w)) as [|[| |]]; cbn; by intros [= <-]. }
  set (l := map hc_Status (rows (hd_checks (w_db w)))).
  assert (length l = size (hd_checks (w_db w))) as Hlen.
  { unfold l, rows. by rewrite length_map, length_fmap, length_map_to_list. }
  assert ((by_status (w_db w)).*2 = map (λ k, Z.of_nat (count_of k l)) (remove_dups l)) as E2.
  { unfold by_status. by rewrite <-list_fmap_compose. }
  assert ((by_status (w_db w)).*1 = remove_dups l) as E1.
  { unfold by_status. rewrite <-list_fmap_compose. apply list_fmap_id. }
  assert (foldr Z.add 0 (by_status (w_db w)).*2 = Z.of_nat (length l)) as Hadd.
  { rewrite E2. apply counts_add_up; [apply NoDup_remove_dups|]. intros x. by rewrite elem_of_remove_dups. }
  split.
  - rewrite total_fold; cbn [hsm_Total]; rewrite ?Hadd, ?Hlen; try lia.
    intros g (k & -> & _)%list_elem_of_fmap. cbn. lia.
  - intros st Hv. rewrite category_fold by (done || rewrite E1; apply NoDup_remove_dups).
    destruct (list_find _ _) as [[i g]|] eqn:Ef.
    + apply list_find_Some in Ef as (Hg & Hst & _). apply list_elem_of_lookup_2, list_elem_of_fmap in Hg as (k & -> & _).
      cbn in *. by subst.
    + apply list_find_None in Ef. replace (count_of st l) with 0%nat.
      { unfold category. by repeat case_bool_decide. }
      symmetry. unfold count_of. rewrite filter_none; [done|]. apply Forall_forall. intros x Hx ->.
      rewrite <-elem_of_remove_dups, <-E1 in Hx. apply list_elem_of_fmap in Hx as (g & -> & Hg).
      rewrite Forall_forall in Ef. by apply (Ef g Hg).
Qed.

(** ** Witnesses *)
Definition sample_check : EndpointHealthCheck :=
  mkHealthCheck "hc-1" "db.example:443" None None "" "" HealthStatusHealthy 0 0 "" "" "" "" None None None None None
    "" 2 5 300 true false "" None 0 0.
Definition sample_outage (c : EndpointHealthCheck) : ProbeResult := mkProbe false "" "" "" "" "" 0 12 "connection refused".
Definition sample_service : HealthCheckService := mkHealthService true 20 (30 * 24 * 3600 * 10 ^ 9).
Definition sample_health : World HealthDB :=
  mkWorld (mkHealthDB {["hc-1" := sample_check]} ∅ ∅ ∅ []) (mkEnv 1000 [] [] 0).

Lemma sample_rows_ok : rows_ok (w_db sample_health).
Proof. apply map_Forall_singleton. by vm_compute. Qed.

(** One due check: the run hangs with no slot to probe in. *)
Lemma probe_pool_refines_witness :
  probe_all sample_outage 0 [sample_check] = None ∧ ¬ all_finished (started [sample_check]).
Proof.
  split; [reflexivity|].
  destruct (probe_pool_refines sample_outage 0 [sample_check] ltac:(apply NoDup_singleton) (started [sample_check])
    ltac:(apply rtc_refl)) as (_ & _ & H).
  destruct H as [_ H]; [|by apply H]. intros [p' Hp]. by eapply pool_stuck in Hp.
Defined.

(** A check is created and probed twice: one row of history. *)
Lemma health_monitor_invariant_witness :
  let w := mkWorld (mkHealthDB ∅ ∅ ∅ ∅ []) (mkEnv 1000 [] [] 0) in
  let calls := [CallCreate "POST" (Ok sample_check); CallRun sample_outage;
                CallUpdate "PUT" "hc-1" (Ok sample_check); CallRun sample_outage] in
  let d := w_db (snd (for_each calls (run_health_call id (λ _, None) sample_service) w)) in
  map_Forall (λ _ c, sane c) (hd_checks d) ∧ (size (hd_history d) ≤ 1)%nat.
Proof. apply health_monitor_invariant; [apply map_Forall_empty|reflexivity]. Defined.

(** The first failed probe of a check that tolerates one. *)
Lemma run_health_checks_rows_witness :
  ∃ c', hd_checks (w_db (snd (RunHealthChecks id sample_service sample_outage sample_health))) !! "hc-1" = Some c' ∧
    hc_ConsecutiveFailures c' = 1 ∧ hc_Status c' = HealthStatusDegraded.
Proof.
  pose proof (run_health_checks_rows id sample_service sample_outage sample_health eq_refl ltac:(done)
    sample_rows_ok ltac:(done)) as H.
  destruct (RunHealthChecks _ _ _ _) as [r w']. destruct H as [_ H].
  destruct (H "hc-1" sample_check ltac:(reflexivity)) as (c' & Hc & Ha). exists c'. split; [exact Hc|].
  cbn in Ha. destruct Ha as [Hf Hs _ _ _ _]. cbn in Hf. rewrite Hf in Hs. by split.
Defined.

Lemma thresholds_trip_early_witness :
  hc_Status (fst (rounds id sample_service [sample_outage sample_check] sample_check sample_health)) = HealthStatusDegraded ∧
  hc_Status (fst (rounds id sample_service (replicate 4 (sample_outage sample_check)) sample_check sample_health)) = HealthStatusDown.
Proof.
  split; (edestruct (thresholds_trip_early id sample_service sample_check) as [_ H];
    [reflexivity|by left| | |rewrite H; reflexivity]); cbn; try lia;
    intros r Hr; repeat (apply elem_of_cons in Hr as [->|Hr]; [done|]); by apply elem_of_nil in Hr.
Defined.

(** A check disabled while its probe is under way is enabled again. *)
Lemma probe_overwrites_edits_witness :
  let off := merged sample_check (mkHealthCheck "" "" None None "" "" "" 0 0 "" "" "" "" None None None None None "" 0 0 0
                                    false false "" None 0 0) in
  let w := mkWorld (mkHealthDB {["hc-1" := off]} ∅ ∅ ∅ []) (mkEnv 1000 [] [] 0) in
  hc_Enabled off = false ∧
  ∃ c', hd_checks (w_db (snd (process_check id sample_service {["hc-1" := sample_outage sample_check]} sample_check w)))
          !! "hc-1" = Some c' ∧ hc_Enabled c' = true.
Proof.
  intros off w. split; [reflexivity|].
  destruct (probe_overwrites_edits id sample_service {["hc-1" := sample_outage sample_check]} sample_check
    (sample_outage sample_check) off w) as (c' & Hc & Ha & _); try reflexivity; [by cbn|].
  exists c'. split; [exact Hc|]. destruct Ha as [_ _ _ _ _ (_ & _ & H & _)]. by rewrite H.
Defined.

Lemma health_summary_counts_witness :
  let sm := mkSummary 1 0 0 0 0 1 in
  fst (GetSummary sample_health) = Ok sm ∧ hsm_Total sm = 1.
Proof.
  intros sm. assert (fst (GetSummary sample_health) = Ok sm) as H by (by vm_compute). split; [exact H|].
  destruct (health_summary_counts sample_health sm) as [Ht _]; [by vm_compute|exact H|]. exact Ht.
Defined.
