(* ===== verification/OidcStore.v ===== *)
(** * Users, identity providers and group mappings (src/internal/auth/user/domain,
      auth/oidc/domain, auth/oidc/groupclaim, repository/postgres/user.go and oidc.go)

    The claims of a token, the rows of the three tables with the checks of their domain types,
    and every statement of their repositories.  [OidcDB] puts the tables next to those of
    Identity.v, whose [id_users] and [id_providers] are the ids other tables refer to, and keeps
    the provider cache of the OIDC service. *)

From Stdlib Require Import ZArith Lia Ascii String.
From stdpp Require Import prelude gmap strings list sorting.
From S2P Require Import Prelude AuditTrail Store Rbac GoBytes KeyCrypto Identity AcmeWire.
Import Text.

(** ** auth/oidc/groupclaim/resolver.go *)
Module GroupClaim.
Definition ErrPathEmpty : error := ErrSentinel "groupclaim: path is empty".
Definition ErrSegmentMissing : error := ErrSentinel "groupclaim: path segment missing".
Definition ErrSegmentNotObject : error := ErrSentinel "groupclaim: intermediate segment is not an object".
Definition ErrInvalidValueType : error := ErrSentinel "groupclaim: resolved value is not coercible to []string".

(** What a claim decodes to. *)
Inductive claim :=
| CNull
| CBool (b : bool)
| CNumber (z : Z)
| CString (s : string)
| CStrings (l : list string)
| CArray (l : list claim)
| CObject (fields : list (string * claim)).

Definition isURLShapePath (path : string) : bool := HasPrefix path "http://" || HasPrefix path "https://".

Definition field (key : string) (fields : list (string * claim)) : option claim :=
  snd <$> (snd <$> list_find (λ kv : string * claim, kv.1 = key) fields).

(** The walk through nested objects. *)
Fixpoint walk (cur : claim) (segments : list string) : res claim :=
  match segments with
  | [] => Ok cur
  | seg :: rest =>
      match cur with
      | CObject fields =>
          match field seg fields with
          | None => Err (ErrWrapPre ErrSegmentMissing seg)
          | Some next => walk next rest
          end
      | _ => Err (ErrWrapPre ErrSegmentNotObject seg)
      end
  end.

Fixpoint all_strings (l : list claim) : option (list string) :=
  match l with
  | [] => Some []
  | CString s :: l' => cons s <$> all_strings l'
  | _ => None
  end.

Definition coerceStringArray (v : claim) : res (list string) :=
  match v with
  | CStrings l => Ok l
  | CArray l => match all_strings l with Some ss => Ok ss | None => Err (ErrWrapPre ErrInvalidValueType "element") end
  | CString s => Ok [s]
  | _ => Err (ErrWrapPre ErrInvalidValueType "value")
  end.

Definition Resolve (claims : claim) (path : string) : res (list string) :=
  if bool_decide (path = "") then Err ErrPathEmpty
  else
    match walk claims (if isURLShapePath path then [path] else Split "." path) with
    | Err e => Err e
    | Ok v => coerceStringArray v
    end.
End GroupClaim.

(** ** auth/user/domain/types.go *)
Record User := mkUser {
  us_ID : string;
  us_TenantID : string;
  us_Email : string;
  us_DisplayName : string;
  us_OIDCSubject : string;
  us_OIDCProviderID : string;
  us_PasswordHash : string;
  us_LastLoginAt : Z;
  us_WebAuthnCredentials : option string;
  us_CreatedAt : Z;
  us_UpdatedAt : Z;
  us_DeactivatedAt : option Z
}.

Module UserDomain.
Definition ErrUserInvalidID : error := ErrSentinel "user: id must start with 'u-'".
Definition ErrUserEmptyEmail : error := ErrSentinel "user: email is required".
Definition ErrUserInvalidEmail : error := ErrSentinel "user: email format is invalid".
Definition ErrUserEmptyOIDCSubject : error := ErrSentinel "user: oidc_subject is required".
Definition ErrUserInvalidProviderID : error := ErrSentinel "user: oidc_provider_id must start with 'op-'".

(** Exactly one at sign, something on both sides, and a dot after it. *)
Definition isPlausibleEmail (s : string) : bool :=
  bool_decide (s = TrimSpace s) &&
  match Split "@" s with
  | [local; domain] => negb (is_blank local) && negb (is_blank domain) && Contains domain "."
  | _ => false
  end.

(** The check fills in the defaults of the row. *)
Definition User_Validate (u : User) : res User :=
  if negb (HasPrefix (us_ID u) "u-") then Err ErrUserInvalidID
  else if is_blank (us_Email u) then Err ErrUserEmptyEmail
  else if negb (isPlausibleEmail (us_Email u)) then Err ErrUserInvalidEmail
  else
    let hasOIDC := negb (is_blank (us_OIDCSubject u)) || negb (is_blank (us_OIDCProviderID u)) in
    if hasOIDC && is_blank (us_OIDCSubject u) then Err ErrUserEmptyOIDCSubject
    else if hasOIDC && negb (HasPrefix (us_OIDCProviderID u) "op-") then Err ErrUserInvalidProviderID
    else Ok (mkUser (us_ID u) (if is_blank (us_TenantID u) then DefaultTenantID else us_TenantID u) (us_Email u)
               (us_DisplayName u) (us_OIDCSubject u) (us_OIDCProviderID u) (us_PasswordHash u) (us_LastLoginAt u)
               (Some (default "[]" (us_WebAuthnCredentials u))) (us_CreatedAt u) (us_UpdatedAt u)
               (us_DeactivatedAt u)).
End UserDomain.

(** ** auth/oidc/domain/types.go *)
Record OIDCProvider := mkProvider {
  op_ID : string;
  op_TenantID : string;
  op_Name : string;
  op_IssuerURL : string;
  op_ClientID : string;
  op_ClientSecretEncrypted : string;
  op_RedirectURI : string;
  op_GroupsClaimPath : string;
  op_GroupsClaimFormat : string;
  op_FetchUserinfo : bool;
  op_Scopes : list string;
  op_AllowedEmailDomains : list string;
  op_IATWindowSeconds : Z;
  op_JWKSCacheTTLSeconds : Z;
  op_Enabled : bool;
  op_CreatedAt : Z;
  op_UpdatedAt : Z
}.

Record GroupRoleMapping := mkMapping {
  gm_ID : string;
  gm_ProviderID : string;
  gm_GroupName : string;
  gm_RoleID : string;
  gm_TenantID : string;
  gm_CreatedAt : Z
}.

Module OidcDomain.
Definition GroupsClaimFormatStringArray : string := "string-array".
Definition GroupsClaimFormatJSONPath : string := "json-path".
Definition DefaultGroupsClaimPath : string := "groups".
Definition DefaultIATWindowSeconds : Z := 300.
Definition MaxIATWindowSeconds : Z := 600.
Definition DefaultJWKSCacheTTLSeconds : Z := 3600.
Definition MinJWKSCacheTTLSeconds : Z := 60.

Definition ErrOIDCInvalidID : error := ErrSentinel "oidc: id must start with 'op-'".
Definition ErrOIDCEmptyName : error := ErrSentinel "oidc: name is required".
Definition ErrOIDCIssuerNotHTTPS : error := ErrSentinel "oidc: issuer_url must be https://".
Definition ErrOIDCEmptyClientID : error := ErrSentinel "oidc: client_id is required".
Definition ErrOIDCEmptyClientSecret : error := ErrSentinel "oidc: client_secret_encrypted is required".
Definition ErrOIDCRedirectNotHTTPS : error := ErrSentinel "oidc: redirect_uri must be https://".
Definition ErrOIDCInvalidGroupsClaimFormat : error :=
  ErrSentinel "oidc: groups_claim_format must be 'string-array' or 'json-path'".
Definition ErrOIDCMissingOpenIDScope : error :=
  ErrSentinel "oidc: scopes must include 'openid' (RFC 6749 + OIDC core require it)".
Definition ErrOIDCInvalidIATWindow : error := ErrSentinel "oidc: iat_window_seconds must be > 0 and <= 600".
Definition ErrOIDCInvalidJWKSCacheTTL : error := ErrSentinel "oidc: jwks_cache_ttl_seconds must be >= 60".
Definition ErrGroupRoleMappingInvalidID : error := ErrSentinel "oidc: group-role mapping id must start with 'grm-'".
Definition ErrGroupRoleMappingInvalidProvID : error :=
  ErrSentinel "oidc: group-role mapping provider_id must start with 'op-'".
Definition ErrGroupRoleMappingEmptyGroupName : error := ErrSentinel "oidc: group-role mapping group_name is required".
Definition ErrGroupRoleMappingInvalidRoleID : error :=
  ErrSentinel "oidc: group-role mapping role_id must start with 'r-'".

Section validate.
(** [url.Parse] and [validation.ValidateSafeURL]: the error, if any. *)
Variables (ParseURL ValidateSafeURL : string → option error).

Definition format_ok (format : string) : bool :=
  bool_decide (format ∈ [GroupsClaimFormatStringArray; GroupsClaimFormatJSONPath]).

Definition zero_default (v d : Z) : Z := if v =? 0 then d else v.

(** The row with its defaults. *)
Definition provider_defaults (p : OIDCProvider) : OIDCProvider :=
  mkProvider (op_ID p) (if is_blank (op_TenantID p) then DefaultTenantID else op_TenantID p) (op_Name p)
    (op_IssuerURL p) (op_ClientID p) (op_ClientSecretEncrypted p) (op_RedirectURI p)
    (if bool_decide (op_GroupsClaimPath p = "") then DefaultGroupsClaimPath else op_GroupsClaimPath p)
    (if bool_decide (op_GroupsClaimFormat p = "") then GroupsClaimFormatStringArray else op_GroupsClaimFormat p)
    (op_FetchUserinfo p)
    (match op_Scopes p with [] => ["openid"; "profile"; "email"] | l => l end)
    (op_AllowedEmailDomains p) (zero_default (op_IATWindowSeconds p) DefaultIATWindowSeconds)
    (zero_default (op_JWKSCacheTTLSeconds p) DefaultJWKSCacheTTLSeconds) (op_Enabled p) (op_CreatedAt p)
    (op_UpdatedAt p).

Definition OIDCProvider_Validate (p : OIDCProvider) : res OIDCProvider :=
  if negb (HasPrefix (op_ID p) "op-") then Err ErrOIDCInvalidID
  else if is_blank (op_Name p) then Err ErrOIDCEmptyName
  else if negb (HasPrefix (op_IssuerURL p) "https://") then Err ErrOIDCIssuerNotHTTPS
  else match ParseURL (op_IssuerURL p) with
  | Some e => Err (ErrWrap "oidc: issuer_url is not a valid URL" e)
  | None =>
  match ValidateSafeURL (op_IssuerURL p) with
  | Some e => Err (ErrWrap "oidc: issuer_url failed SSRF policy" e)
  | None =>
  if is_blank (op_ClientID p) then Err ErrOIDCEmptyClientID
  else if bool_decide (op_ClientSecretEncrypted p = "") then Err ErrOIDCEmptyClientSecret
  else if negb (HasPrefix (op_RedirectURI p) "https://") then Err ErrOIDCRedirectNotHTTPS
  else match ParseURL (op_RedirectURI p) with
  | Some e => Err (ErrWrap "oidc: redirect_uri is not a valid URL" e)
  | None =>
  let p := provider_defaults p in
  if negb (format_ok (op_GroupsClaimFormat p)) then Err ErrOIDCInvalidGroupsClaimFormat
  else if negb (bool_decide ("openid" ∈ op_Scopes p)) then Err ErrOIDCMissingOpenIDScope
  else if (op_IATWindowSeconds p <=? 0) || (MaxIATWindowSeconds <? op_IATWindowSeconds p)
  then Err ErrOIDCInvalidIATWindow
  else if op_JWKSCacheTTLSeconds p <? MinJWKSCacheTTLSeconds then Err ErrOIDCInvalidJWKSCacheTTL
  else Ok p
  end end end.

Definition GroupRoleMapping_Validate (m : GroupRoleMapping) : res GroupRoleMapping :=
  if negb (HasPrefix (gm_ID m) "grm-") then Err ErrGroupRoleMappingInvalidID
  else if negb (HasPrefix (gm_ProviderID m) "op-") then Err ErrGroupRoleMappingInvalidProvID
  else if is_blank (gm_GroupName m) then Err ErrGroupRoleMappingEmptyGroupName
  else if negb (HasPrefix (gm_RoleID m) "r-") then Err ErrGroupRoleMappingInvalidRoleID
  else Ok (mkMapping (gm_ID m) (gm_ProviderID m) (gm_GroupName m) (gm_RoleID m)
             (if is_blank (gm_TenantID m) then DefaultTenantID else gm_TenantID m) (gm_CreatedAt m)).
End validate.
End OidcDomain.

(** ** The OIDC client libraries (go-oidc, x/oauth2)

    Their answers come from the network: each takes the number the call draws. *)
Record Extra := mkExtra { ex_AZP : string; ex_ATHash : string; ex_Nonce : string }.
Record Profile := mkProfileClaims { pf_Email : string; pf_Name : string; pf_PreferredUsername : string }.

(** [*oidc.IDToken]; the three readings of its claims may fail. *)
Record IDToken := mkIDToken {
  it_Issuer : string;
  it_Audience : list string;
  it_Subject : string;
  it_Expiry : Z;
  it_IssuedAt : Z;
  it_extra : res Extra;
  it_profile : res Profile;
  it_raw : res GroupClaim.claim
}.

Record Token := mkToken { tk_AccessToken : string; tk_IDToken : option string }.

(** [*oidc.Provider] with what [Claims] reads of the discovery document. *)
Record Discovery := mkDiscovery {
  ds_handle : N;
  ds_advertised : res (list string * bool);
  ds_UserInfoEndpoint : string
}.

Record OauthConfig := mkOauth {
  oc_ClientID : string; oc_ClientSecret : string; oc_Provider : Discovery; oc_RedirectURL : string; oc_Scopes : list string }.

Class IdP := mkIdP {
  NewProvider : N → string → res Discovery;
  Verify : N → Discovery → string → list string → string → res IDToken;     (* client, algorithms, token *)
  Exchange : N → OauthConfig → string → string → res Token;                 (* code, verifier *)
  UserInfo : N → Discovery → Token → res (res GroupClaim.claim);
  AuthCodeURL : OauthConfig → string → string → string → string;            (* state, verifier, nonce *)
  GenerateVerifier : N → string
}.

(** [providerEntry] of auth/oidc/service.go; the verifier is the provider's, for the client id
    and the algorithms. *)
Record providerEntry := mkEntry {
  pe_cfgRow : OIDCProvider;
  pe_provider : Discovery;
  pe_oauthConfig : OauthConfig;
  pe_allowedAlgs : list string;
  pe_issParamSupported : bool;
  pe_lastRefreshAt : option Z;
  pe_refreshCount : Z;
  pe_lastError : string;
  pe_rejectedJWSCount : Z
}.

(** ** The tables *)
Record OidcDB := mkOidcDB {
  od_id : IdentityDB;
  od_users : gmap string User;
  od_providers : gmap string OIDCProvider;
  od_mappings : gmap string GroupRoleMapping;
  od_cache : gmap string providerEntry
}.

Definition set_id (f : IdentityDB → IdentityDB) (d : OidcDB) : OidcDB :=
  mkOidcDB (f (od_id d)) (od_users d) (od_providers d) (od_mappings d) (od_cache d).
Definition set_userRows (f : gmap string User → gmap string User) (d : OidcDB) : OidcDB :=
  mkOidcDB (od_id d) (f (od_users d)) (od_providers d) (od_mappings d) (od_cache d).
Definition set_providerRows (f : gmap string OIDCProvider → gmap string OIDCProvider) (d : OidcDB) : OidcDB :=
  mkOidcDB (od_id d) (od_users d) (f (od_providers d)) (od_mappings d) (od_cache d).
Definition set_mappings (f : gmap string GroupRoleMapping → gmap string GroupRoleMapping) (d : OidcDB) : OidcDB :=
  mkOidcDB (od_id d) (od_users d) (od_providers d) (f (od_mappings d)) (od_cache d).
Definition set_cache (f : gmap string providerEntry → gmap string providerEntry) (d : OidcDB) : OidcDB :=
  mkOidcDB (od_id d) (od_users d) (od_providers d) (od_mappings d) (f (od_cache d)).

(** The ids other tables refer to. *)
Definition id_set_users (f : gset string → gset string) (d : IdentityDB) : IdentityDB :=
  mkIdentityDB (id_auth d) (id_sessions d) (id_keys d) (id_prelogin d) (id_providers d) (f (id_users d))
    (id_breakglass d).
Definition id_set_providers (f : gset string → gset string) (d : IdentityDB) : IdentityDB :=
  mkIdentityDB (id_auth d) (id_sessions d) (id_keys d) (id_prelogin d) (f (id_providers d)) (id_users d)
    (id_breakglass d).

#[global, program] Instance HasAudit_OidcDB : HasAudit OidcDB :=
  {| audit_log := λ d, audit_log (od_id d); append_audit := λ ev, set_id (append_audit ev) |}.
Next Obligation. done. Qed.

Definition on_id {A} (m : M IdentityDB A) : M OidcDB A := λ w,
  let '(a, w') := m (mkWorld (od_id (w_db w)) (w_env w)) in
  (a, mkWorld (set_id (λ _, w_db w') (w_db w)) (w_env w')).

(** ** repository/postgres/user.go *)
Module UserRepo.
Definition ErrUserNotFound : error := ErrSentinel "user: not found".
Definition ErrUserDuplicateOIDCSubject : error :=
  ErrSentinel "user: a user with this provider+subject already exists".

(** A row found by a query of at most one row. *)
Definition one_row (op : string) (f : OidcDB → option User) : M OidcDB (res User) :=
  r ← sql_query op f;
  mret match r with Err e => Err e | Ok None => Err ErrUserNotFound | Ok (Some u) => Ok u end.

Definition Get (id : string) : M OidcDB (res User) := one_row "users get" (λ d, od_users d !! id).

(** [NULLIF(x, '')] columns: an empty value is NULL and equals nothing. *)
Definition of_subject (providerID subject : string) (u : User) : bool :=
  negb (bool_decide (us_OIDCProviderID u = "")) && negb (bool_decide (us_OIDCSubject u = "")) &&
  bool_decide (us_OIDCProviderID u = providerID) && bool_decide (us_OIDCSubject u = subject).

Definition GetByOIDCSubject (providerID subject : string) : M OidcDB (res User) :=
  one_row "users get_by_oidc_subject" (λ d,
    head (filter (λ u, of_subject providerID subject u = true) (rows (od_users d)))).

Definition of_email (tenantID email : string) (u : User) : bool :=
  bool_decide (us_TenantID u = tenantID) && bool_decide (us_Email u = email).

Definition GetByEmail (tenantID email : string) : M OidcDB (res User) :=
  one_row "users get_by_email" (λ d, head (filter (λ u, of_email tenantID email u = true) (rows (od_users d)))).

(** The two unique constraints, against the rows of other users. *)
Definition collides (u x : User) : bool :=
  of_subject (us_OIDCProviderID u) (us_OIDCSubject u) x || of_email (us_TenantID u) (us_Email u) x.

Definition new_row (t : Z) (u : User) : User :=
  mkUser (us_ID u) (us_TenantID u) (us_Email u) (us_DisplayName u) (us_OIDCSubject u) (us_OIDCProviderID u)
    (us_PasswordHash u) (us_LastLoginAt u) (us_WebAuthnCredentials u) t t (us_DeactivatedAt u).

Definition Create (u : User) : M OidcDB (res unit) :=
  t ← now;
  sql_exec "users create" (λ d,
    if bool_decide (is_Some (od_users d !! us_ID u)) || existsb (collides u) (rows (od_users d))
    then (Err ErrUserDuplicateOIDCSubject, d)
    else if negb (bool_decide (us_OIDCProviderID u = "")) && bool_decide (od_providers d !! us_OIDCProviderID u = None)
    then (Err (ErrWrap "users create" (ErrMsg "foreign key constraint")), d)
    else (Ok tt, set_id (id_set_users (λ s, {[us_ID u]} ∪ s)) (set_userRows (<[us_ID u := new_row t u]>) d))).

(** The mutable columns. *)
Definition written_row (t : Z) (old u : User) : User :=
  mkUser (us_ID old) (us_TenantID old) (us_Email u) (us_DisplayName u) (us_OIDCSubject old) (us_OIDCProviderID old)
    (us_PasswordHash u) (us_LastLoginAt u) (us_WebAuthnCredentials u) (us_CreatedAt old) t (us_DeactivatedAt u).

Definition Update (u : User) : M OidcDB (res unit) :=
  t ← now;
  sql_exec "users update" (λ d,
    match od_users d !! us_ID u with
    | None => (Err ErrUserNotFound, d)
    | Some old =>
        if existsb (λ x, negb (bool_decide (us_ID x = us_ID u)) && of_email (us_TenantID old) (us_Email u) x)
             (rows (od_users d))
        then (Err (ErrWrap "users update" (ErrMsg "duplicate key")), d)
        else (Ok tt, set_userRows (<[us_ID u := written_row t old u]>) d)
    end).

Definition ListAll (tenantID : string) : M OidcDB (res (list User)) :=
  sql_query "users list_all" (λ d,
    merge_sort (asc us_CreatedAt) (filter (λ u, us_TenantID u = tenantID) (rows (od_users d)))).

Definition ListDeactivatedBefore (threshold : Z) : M OidcDB (res (list User)) :=
  sql_query "users list_deactivated_before" (λ d,
    merge_sort (asc (λ u, default 0 (us_DeactivatedAt u)))
      (filter (λ u, match us_DeactivatedAt u with Some t => t <? threshold | None => false end = true)
         (rows (od_users d)))).
End UserRepo.

(** ** repository/postgres/oidc.go *)
Module ProviderRepo.
Definition ErrOIDCProviderNotFound : error := ErrSentinel "oidc: provider not found".
Definition ErrOIDCProviderDuplicateName : error := ErrSentinel "oidc: provider with this name already exists in tenant".
Definition ErrOIDCProviderInUse : error :=
  ErrSentinel "oidc: provider has authenticated users; revoke all sessions before delete".

Definition found (r : res (option OIDCProvider)) : res OIDCProvider :=
  match r with Err e => Err e | Ok None => Err ErrOIDCProviderNotFound | Ok (Some p) => Ok p end.

Definition List (tenantID : string) : M OidcDB (res (list OIDCProvider)) :=
  sql_query "oidc_providers list" (λ d,
    merge_sort (asc op_CreatedAt) (filter (λ p, op_TenantID p = tenantID) (rows (od_providers d)))).

Definition Get (id : string) : M OidcDB (res OIDCProvider) :=
  r ← sql_query "oidc_providers get" (λ d, od_providers d !! id); mret (found r).

Definition GetByName (tenantID name : string) : M OidcDB (res OIDCProvider) :=
  r ← sql_query "oidc_providers get_by_name" (λ d,
        head (filter (λ p, op_TenantID p = tenantID ∧ op_Name p = name) (rows (od_providers d))));
  mret (found r).

(** The CHECK constraints. *)
Definition provider_checks (p : OIDCProvider) : bool :=
  OidcDomain.format_ok (op_GroupsClaimFormat p) && (0 <? op_IATWindowSeconds p) && (op_IATWindowSeconds p <=? 600) &&
  (60 <=? op_JWKSCacheTTLSeconds p).

Definition same_name (tenantID name id : string) (x : OIDCProvider) : bool :=
  bool_decide (op_TenantID x = tenantID) && bool_decide (op_Name x = name) && negb (bool_decide (op_ID x = id)).

Definition timed (created updated : Z) (p : OIDCProvider) : OIDCProvider :=
  mkProvider (op_ID p) (op_TenantID p) (op_Name p) (op_IssuerURL p) (op_ClientID p) (op_ClientSecretEncrypted p)
    (op_RedirectURI p) (op_GroupsClaimPath p) (op_GroupsClaimFormat p) (op_FetchUserinfo p) (op_Scopes p)
    (op_AllowedEmailDomains p) (op_IATWindowSeconds p) (op_JWKSCacheTTLSeconds p) (op_Enabled p) created updated.

Definition Create (p : OIDCProvider) : M OidcDB (res unit) :=
  t ← now;
  sql_exec "oidc_providers create" (λ d,
    if bool_decide (is_Some (od_providers d !! op_ID p)) ||
       existsb (same_name (op_TenantID p) (op_Name p) (op_ID p)) (rows (od_providers d))
    then (Err ErrOIDCProviderDuplicateName, d)
    else if negb (provider_checks p)
    then (Err (ErrWrap "oidc_providers create" (ErrMsg "check constraint")), d)
    else (Ok tt, set_id (id_set_providers (λ s, {[op_ID p]} ∪ s)) (set_providerRows (<[op_ID p := timed t t p]>) d))).

(** Every column but the id, the tenant and created_at. *)
Definition provider_row (t : Z) (old p : OIDCProvider) : OIDCProvider :=
  mkProvider (op_ID old) (op_TenantID old) (op_Name p) (op_IssuerURL p) (op_ClientID p) (op_ClientSecretEncrypted p)
    (op_RedirectURI p) (op_GroupsClaimPath p) (op_GroupsClaimFormat p) (op_FetchUserinfo p) (op_Scopes p)
    (op_AllowedEmailDomains p) (op_IATWindowSeconds p) (op_JWKSCacheTTLSeconds p) (op_Enabled p) (op_CreatedAt old) t.

Definition Update (p : OIDCProvider) : M OidcDB (res unit) :=
  t ← now;
  sql_exec "oidc_providers update" (λ d,
    match od_providers d !! op_ID p with
    | None => (Err ErrOIDCProviderNotFound, d)
    | Some old =>
        if existsb (same_name (op_TenantID old) (op_Name p) (op_ID p)) (rows (od_providers d))
        then (Err ErrOIDCProviderDuplicateName, d)
        else if negb (provider_checks p)
        then (Err (ErrWrap "oidc_providers update" (ErrMsg "check constraint")), d)
        else (Ok tt, set_providerRows (<[op_ID p := provider_row t old p]>) d)
    end).

(** Users keep their provider; mappings and pre-login rows go with it. *)
Definition Delete (id : string) : M OidcDB (res unit) :=
  sql_exec "oidc_providers delete" (λ d,
    match od_providers d !! id with
    | None => (Err ErrOIDCProviderNotFound, d)
    | Some _ =>
        if existsb (λ u, bool_decide (us_OIDCProviderID u = id)) (rows (od_users d))
        then (Err ErrOIDCProviderInUse, d)
        else (Ok tt,
              set_mappings (filter (λ kv, gm_ProviderID kv.2 ≠ id))
                (set_id (λ i, set_prelogin (filter (λ kv, plr_OIDCProviderID kv.2 ≠ id))
                                (id_set_providers (λ s, s ∖ {[id]}) i))
                   (set_providerRows (delete id) d)))
    end).
End ProviderRepo.

Module MappingRepo.
Definition ErrGroupRoleMappingNotFound : error := ErrSentinel "oidc: group-role mapping not found".
Definition ErrGroupRoleMappingDuplicate : error := ErrSentinel "oidc: group-role mapping already exists".

Definition by_group (a b : GroupRoleMapping) : Prop := String.le (gm_GroupName a) (gm_GroupName b).
#[global] Instance by_group_dec : RelDecision by_group.
Proof. intros a b. unfold by_group. apply _. Defined.

Definition ListByProvider (providerID : string) : M OidcDB (res (list GroupRoleMapping)) :=
  sql_query "group_role_mappings list_by_provider" (λ d,
    merge_sort by_group (filter (λ m, gm_ProviderID m = providerID) (rows (od_mappings d)))).

Definition Get (id : string) : M OidcDB (res GroupRoleMapping) :=
  r ← sql_query "group_role_mappings get" (λ d, od_mappings d !! id);
  mret match r with Err e => Err e | Ok None => Err ErrGroupRoleMappingNotFound | Ok (Some m) => Ok m end.

Definition same_mapping (m x : GroupRoleMapping) : bool :=
  bool_decide (gm_ProviderID x = gm_ProviderID m) && bool_decide (gm_GroupName x = gm_GroupName m) &&
  bool_decide (gm_RoleID x = gm_RoleID m).

Definition Add (m : GroupRoleMapping) : M OidcDB (res unit) :=
  t ← now;
  sql_exec "group_role_mappings add" (λ d,
    if bool_decide (is_Some (od_mappings d !! gm_ID m)) || existsb (same_mapping m) (rows (od_mappings d))
    then (Err ErrGroupRoleMappingDuplicate, d)
    else if bool_decide (od_providers d !! gm_ProviderID m = None) ||
            bool_decide (au_roles (id_auth (od_id d)) !! gm_RoleID m = None)
    then (Err (ErrWrap "group_role_mappings add" (ErrMsg "foreign key constraint")), d)
    else (Ok tt, set_mappings (<[gm_ID m := mkMapping (gm_ID m) (gm_ProviderID m) (gm_GroupName m) (gm_RoleID m)
                                              (gm_TenantID m) t]>) d)).

Definition Remove (id : string) : M OidcDB (res unit) :=
  sql_exec "group_role_mappings remove" (λ d,
    match od_mappings d !! id with
    | None => (Err ErrGroupRoleMappingNotFound, d)
    | Some _ => (Ok tt, set_mappings (delete id) d)
    end).

(** The roles of the groups, each once. *)
Definition mapped (providerID : string) (groups : list string) (d : OidcDB) : list string :=
  remove_dups (map gm_RoleID (filter (λ m, gm_ProviderID m = providerID ∧ gm_GroupName m ∈ groups)
                                (rows (od_mappings d)))).

Definition Map (providerID : string) (groupNames : list string) : M OidcDB (res (list string)) :=
  match groupNames with
  | [] => mret (Ok [])
  | _ => sql_query "group_role_mappings map" (mapped providerID groupNames)
  end.
End MappingRepo.
