(* ===== verification/Oidc.v ===== *)
(** * OIDC login, local login, and their administration (src/internal/auth/oidc/service.go,
      service/local_auth.go, api/handler/auth_session_oidc_crud.go, auth_users.go, auth_local.go)

    [Module OidcService] is the authorization-code flow from [HandleAuthRequest] to the session
    [HandleCallback] mints, over the pre-login store and the session service of Session.v.  The
    OIDC and OAuth libraries are the class [IdP]; what depends on them and not on this program is
    an argument: the case mappings of [strings], SHA-384 and SHA-512.  [Module LocalAuth] is the
    password login, with bcrypt as a class, [Module Admin] the handlers that change providers,
    mappings and users, from the decoded request to the status of the reply. *)

From Stdlib Require Import ZArith Lia Ascii String.
From stdpp Require Import prelude gmap strings list sorting.
From S2P Require Import Prelude AuditTrail Store Rbac GoBytes KeyCrypto Identity AcmeWire Session OidcStore.
Import Text Cookies.

Module OidcService.
Definition ErrStateMismatch : error := ErrSentinel "oidc: state parameter mismatch (replay or forgery)".
Definition ErrNonceMismatch : error := ErrSentinel "oidc: nonce mismatch".
Definition ErrIssuerMismatch : error := ErrSentinel "oidc: issuer mismatch".
Definition ErrIssParamMissing : error :=
  ErrSentinel "oidc: provider advertises iss-parameter support but callback omitted it".
Definition ErrIssParamMismatch : error := ErrSentinel "oidc: callback iss parameter does not match provider issuer URL".
Definition ErrPreLoginUAMismatch : error := ErrSentinel "oidc: pre-login row User-Agent does not match callback request".
Definition ErrPreLoginIPMismatch : error := ErrSentinel "oidc: pre-login row client IP does not match callback request".
Definition ErrPreLoginUAMissing : error :=
  ErrSentinel "oidc: pre-login row has User-Agent binding but callback omitted User-Agent header".
Definition ErrPreLoginIPMissing : error :=
  ErrSentinel "oidc: pre-login row has client-IP binding but callback request had no resolvable client IP".
Definition ErrAudienceMismatch : error := ErrSentinel "oidc: audience mismatch".
Definition ErrAZPRequired : error := ErrSentinel "oidc: multi-aud ID token missing required azp claim".
Definition ErrAZPMismatch : error := ErrSentinel "oidc: azp claim does not match client_id".
Definition ErrATHashMismatch : error := ErrSentinel "oidc: at_hash claim does not match access token".
Definition ErrATHashRequired : error := ErrSentinel "oidc: access_token present but ID token has no at_hash claim".
Definition ErrTokenExpired : error := ErrSentinel "oidc: ID token expired".
Definition ErrIATInFuture : error := ErrSentinel "oidc: ID token iat is in the future".
Definition ErrIATTooOld : error := ErrSentinel "oidc: ID token iat older than configured window".
Definition ErrAlgRejected : error := ErrSentinel "oidc: ID token signed with disallowed algorithm".
Definition ErrIdPDowngradeAdvertised : error := ErrSentinel
  "oidc: IdP advertises no acceptable signing algorithms (intersection of advertised vs DefaultAllowedAlgs is empty)".
Definition ErrJWKSUnreachable : error := ErrSentinel
  "oidc: JWKS endpoint unreachable; in-flight login fails, existing sessions untouched".
Definition ErrGroupsMissing : error := ErrSentinel "oidc: configured groups claim missing or malformed".
Definition ErrEmailDomainNotAllowed : error := ErrSentinel "oidc: email domain not in allowlist".
Definition ErrEmailMissingButRequired : error := ErrSentinel "oidc: provider requires email but token has none".
Definition ErrProviderDisabled : error := ErrSentinel "oidc: provider is disabled".
Definition ErrUserDeactivated : error := ErrSentinel "oidc: user account is deactivated".
Definition ErrGroupsUnmapped : error := ErrSentinel "oidc: groups did not match any configured mapping".

Definition DefaultAllowedAlgs : list string := ["RS256"; "RS512"; "ES256"; "ES384"; "EdDSA"].
Definition disallowedAlgs : list string := ["HS256"; "HS384"; "HS512"; "none"].

(** ** Helpers *)
Definition dq : ascii := ascii_of_nat 34.
Definition alg_key : string := String dq ("alg" +:+ String dq "").

(** [strings.TrimLeft(s, " \t\r\n")]. *)
Fixpoint trim_json (s : string) : string :=
  match s with
  | String c s' => if existsb (Z.eqb (byte_val c)) [32; 9; 13; 10] then trim_json s' else s
  | EmptyString => EmptyString
  end.

(** The value of the first "alg" in a JWS header; [None] where the reader gives up. *)
Definition header_alg (hdr : string) : option string :=
  match before_first alg_key hdr with
  | None => None
  | Some p =>
      let rest := trim_json (drop_bytes (len p + 5) hdr) in
      if negb (HasPrefix rest ":") then None
      else
        let rest := trim_json (drop_bytes 1 rest) in
        if negb (HasPrefix rest (String dq "")) then None
        else before_first (String dq "") (drop_bytes 1 rest)
  end.

Definition isDisallowedAlg (rawJWT : string) : bool * string :=
  match Split "." rawJWT with
  | [header; _; _] =>
      match b64_DecodeString header with
      | None => (true, "")
      | Some hdr =>
          match header_alg hdr with
          | None => (true, "")
          | Some alg => (bool_decide (alg ∈ disallowedAlgs), alg)
          end
      end
  | _ => (true, "")
  end.

Definition isJWKSFetchError (e : error) : bool :=
  let msg := Error e in
  Contains msg "fetching keys" || Contains msg "jwks_uri" || Contains msg "key set" || Contains msg "decode keys".

Definition isKidMismatchError (e : error) : bool :=
  let msg := Error e in
  (Contains msg "kid" && Contains msg "not found") || (Contains msg "signing key" && Contains msg "not found") ||
  Contains msg "no matching key" || (Contains msg "key with id" && Contains msg "not found").

Definition appendIfMissing (ss : list string) (v : string) : list string :=
  if bool_decide (v ∈ ss) then ss else ss ++ [v].

Definition display_name (name fallback email : string) : string :=
  let n := if bool_decide (name = "") then fallback else name in
  if bool_decide (n = "") then email else n.

Record OidcSvc := mkOidcSvc {
  ov_encryptionKey : string;
  ov_requireUA : bool;
  ov_requireIP : bool;
  ov_tenantID : string;
  ov_sessions : SessionService.Service;
  ov_hook : option (string → list string → string → M AuthDB (res bool))
}.

Record CallbackResult := mkCallback {
  cb_User : User; cb_RoleIDs : list string; cb_CookieValue : string; cb_CSRFToken : string }.

Record JWKSStatusSnapshot := mkSnapshot {
  js_LastRefreshAt : option Z; js_RefreshCount : Z; js_LastError : string; js_RejectedJWSCount : Z;
  js_IssParamSupported : bool }.

Section service.
Context `{E : Entropy, C : Ciphers, P : IdP}.
Variable ToLower : string → string.
Variable EqualFold : string → string → bool.
Variables Sum384 Sum512 : string → string.
Variable s : OidcSvc.

(** A call of a library that goes over the network. *)
Definition remote {A} (f : N → A) : M OidcDB A := n ← fresh; mret (f n).

Definition randomB64URL (n : nat) : M OidcDB (res string) :=
  r ← readRand n;
  mret match r with Err e => Err e | Ok b => Ok (b64_EncodeToString b) end.

Definition atHashMatches (rawIDToken accessToken claimAtHash : string) : bool :=
  let alg := snd (isDisallowedAlg rawIDToken) in
  let sum := if bool_decide (alg ∈ ["RS256"; "ES256"]) then Some (Sum256 accessToken)
             else if bool_decide (alg = "ES384") then Some (Sum384 accessToken)
             else if bool_decide (alg ∈ ["RS512"; "EdDSA"]) then Some (Sum512 accessToken)
             else None in
  match sum with
  | None => false
  | Some sum => ConstantTimeCompare (b64_EncodeToString (str_take (len sum / 2) sum)) claimAtHash
  end.

Definition decryptClientSecret (blob key : string) : res string :=
  if bool_decide (key = "") then Ok blob else DecryptIfKeySet blob key.

Definition extractEmailDomain (email : string) : res string :=
  let email := TrimSpace email in
  if bool_decide (email = "") then Err (ErrMsg "empty email")
  else match after_last "@" email with
  | None => Err (ErrMsg "invalid email shape")
  | Some domain =>
      if bool_decide (domain = "") || bool_decide (len email = S (len domain)) then Err (ErrMsg "invalid email shape")
      else Ok (ToLower domain)
  end.

(** ** The provider cache *)
Definition acceptable (advertised : list string) : bool :=
  existsb (λ a, bool_decide (a ∈ DefaultAllowedAlgs)) advertised.

Definition new_entry (cfg : OIDCProvider) (p : Discovery) (secret : string) (iss : bool) : providerEntry :=
  mkEntry cfg p (mkOauth (op_ClientID cfg) secret p (op_RedirectURI cfg) (op_Scopes cfg)) DefaultAllowedAlgs iss
    None 0 "" 0.

Definition load_provider (providerID : string) : M OidcDB (res providerEntry) :=
  r ← ProviderRepo.Get providerID;
  match r with
  | Err e => mret (Err e)
  | Ok cfg =>
  p ← remote (λ n, NewProvider n (op_IssuerURL cfg));
  match p with
  | Err e => mret (Err (ErrWrap ("oidc: discovery fetch failed for " +:+ providerID) e))
  | Ok disc =>
  match ds_advertised disc with
  | Err e => mret (Err (ErrWrap "oidc: discovery claims" e))
  | Ok (algs, iss) =>
  if negb (bool_decide (algs = [])) && negb (acceptable algs)
  then mret (Err (ErrWrapPre ErrIdPDowngradeAdvertised "advertised"))
  else match decryptClientSecret (op_ClientSecretEncrypted cfg) (ov_encryptionKey s) with
  | Err e => mret (Err (ErrWrap "oidc: client_secret decrypt" e))
  | Ok secret => mret (Ok (new_entry cfg disc secret iss))
  end end end end.

Definition upd_cache (f : gmap string providerEntry → gmap string providerEntry) : M OidcDB unit :=
  d ← get_db; put_db (set_cache f d).

Definition getOrLoad (providerID : string) : M OidcDB (res providerEntry) :=
  d ← get_db;
  match od_cache d !! providerID with
  | Some entry => mret (Ok entry)
  | None =>
      r ← load_provider providerID;
      match r with
      | Err e => mret (Err e)
      | Ok entry => _ ← upd_cache (<[providerID := entry]>); mret (Ok entry)
      end
  end.

(** The counters of a refreshed entry. *)
Definition refreshed (t : Z) (e : providerEntry) : providerEntry :=
  mkEntry (pe_cfgRow e) (pe_provider e) (pe_oauthConfig e) (pe_allowedAlgs e) (pe_issParamSupported e)
    (Some t) (wrap64 (pe_refreshCount e + 1)) "" (pe_rejectedJWSCount e).

Definition RefreshKeys (providerID : string) : M OidcDB (res unit) :=
  _ ← upd_cache (delete providerID);
  r ← getOrLoad providerID;
  match r with
  | Err e => mret (Err e)
  | Ok _ =>
      t ← now;
      _ ← upd_cache (alter (refreshed t) providerID);
      mret (Ok tt)
  end.

Definition JWKSStatus (providerID : string) : M OidcDB (res JWKSStatusSnapshot) :=
  r ← getOrLoad providerID;
  mret match r with
       | Err e => Err e
       | Ok e => Ok (mkSnapshot (pe_lastRefreshAt e) (pe_refreshCount e) (pe_lastError e) (pe_rejectedJWSCount e)
                       (pe_issParamSupported e))
       end.

(** ** Starting a login: the authorization URL, the pre-login cookie and the row's id *)
Definition HandleAuthRequest (providerID clientIP userAgent : string) : M OidcDB (res (string * string * string)) :=
  r ← getOrLoad providerID;
  match r with
  | Err e => mret (Err e)
  | Ok entry =>
  if negb (op_Enabled (pe_cfgRow entry)) then mret (Err ErrProviderDisabled)
  else
  st ← randomB64URL 32;
  match st with
  | Err e => mret (Err (ErrWrap "oidc: state generate" e))
  | Ok state =>
  nn ← randomB64URL 32;
  match nn with
  | Err e => mret (Err (ErrWrap "oidc: nonce generate" e))
  | Ok nonce =>
  verifier ← remote GenerateVerifier;
  c ← on_id (PreLogin.CreatePreLogin (ov_tenantID s) (ov_encryptionKey s) providerID state nonce verifier clientIP userAgent);
  match c with
  | Err e => mret (Err (ErrWrap "oidc: pre-login store" e))
  | Ok (cookie, id) => mret (Ok (AuthCodeURL (pe_oauthConfig entry) state verifier nonce, cookie, id))
  end end end end.

(** ** Completing a login *)

(** Step 1.5: the row's User-Agent and address against those of the request. *)
Definition check_binding (h : PreLogin.Handshake) (ip userAgent : string) : option error :=
  if ov_requireUA s && negb (bool_decide (PreLogin.hs_userAgent h = "")) && bool_decide (userAgent = "")
  then Some ErrPreLoginUAMissing
  else if ov_requireUA s && negb (bool_decide (PreLogin.hs_userAgent h = "")) &&
          negb (ConstantTimeCompare userAgent (PreLogin.hs_userAgent h))
  then Some ErrPreLoginUAMismatch
  else if ov_requireIP s && negb (bool_decide (PreLogin.hs_clientIP h = "")) && bool_decide (ip = "")
  then Some ErrPreLoginIPMissing
  else if ov_requireIP s && negb (bool_decide (PreLogin.hs_clientIP h = "")) &&
          negb (ConstantTimeCompare ip (PreLogin.hs_clientIP h))
  then Some ErrPreLoginIPMismatch
  else None.

(** Step 2.5: the iss parameter of RFC 9207. *)
Definition check_iss_param (entry : providerEntry) (callbackIss : string) : option error :=
  if pe_issParamSupported entry then
    if bool_decide (callbackIss = "") then Some ErrIssParamMissing
    else if negb (ConstantTimeCompare callbackIss (op_IssuerURL (pe_cfgRow entry))) then Some ErrIssParamMismatch
    else None
  else None.

Definition verify_with (entry : providerEntry) (rawIDToken : string) : M OidcDB (res IDToken) :=
  remote (λ n, Verify n (pe_provider entry) (op_ClientID (pe_cfgRow entry)) (pe_allowedAlgs entry) rawIDToken).

(** Step 4: one retry with fresh keys when the key id is not known. *)
Definition verify_token (providerID : string) (entry : providerEntry) (rawIDToken : string) : M OidcDB (res IDToken) :=
  v ← verify_with entry rawIDToken;
  match v with
  | Ok t => mret (Ok t)
  | Err e =>
      r ← (if isKidMismatchError e then
             rr ← RefreshKeys providerID;
             match rr with
             | Err _ => mret (Err e)
             | Ok _ =>
                 g ← getOrLoad providerID;
                 match g with
                 | Err _ => mret (Err e)
                 | Ok entry2 => verify_with entry2 rawIDToken
                 end
             end
           else mret (Err e));
      mret match r with
           | Ok t => Ok t
           | Err e => if isJWKSFetchError e then Err ErrJWKSUnreachable
                      else Err (ErrWrap "oidc: id_token verify failed" e)
           end
  end.

Definition skew : Z := 60 * 10 ^ 9.

(** Steps 5 and 6: the algorithm and the claims. *)
Definition check_claims (t : Z) (cfg : OIDCProvider) (token : Token) (rawIDToken storedNonce : string) (idToken : IDToken)
    : option error :=
  if fst (isDisallowedAlg rawIDToken) then Some ErrAlgRejected
  else if negb (bool_decide (it_Issuer idToken = op_IssuerURL cfg)) then Some ErrIssuerMismatch
  else if negb (bool_decide (op_ClientID cfg ∈ it_Audience idToken)) then Some ErrAudienceMismatch
  else match it_extra idToken with
  | Err e => Some (ErrWrap "oidc: id_token claims unmarshal" e)
  | Ok extra =>
  if Nat.ltb 1 (length (it_Audience idToken)) && bool_decide (ex_AZP extra = "") then Some ErrAZPRequired
  else if negb (bool_decide (ex_AZP extra = "")) && negb (bool_decide (ex_AZP extra = op_ClientID cfg))
  then Some ErrAZPMismatch
  else if negb (bool_decide (tk_AccessToken token = "")) && bool_decide (ex_ATHash extra = "")
  then Some ErrATHashRequired
  else if negb (bool_decide (tk_AccessToken token = "")) &&
          negb (atHashMatches rawIDToken (tk_AccessToken token) (ex_ATHash extra))
  then Some ErrATHashMismatch
  else if it_Expiry idToken + skew <? t then Some ErrTokenExpired
  else if t + skew <? it_IssuedAt idToken then Some ErrIATInFuture
  else if it_IssuedAt idToken + op_IATWindowSeconds cfg * 10 ^ 9 <? t then Some ErrIATTooOld
  else if negb (ConstantTimeCompare (ex_Nonce extra) storedNonce) then Some ErrNonceMismatch
  else None
  end.

(** Step 7.5: the allowed email domains. *)
Definition check_email (cfg : OIDCProvider) (email : string) : option error :=
  match op_AllowedEmailDomains cfg with
  | [] => None
  | domains =>
      match extractEmailDomain email with
      | Err _ => Some ErrEmailMissingButRequired
      | Ok d => if existsb (λ a, EqualFold (TrimSpace a) d) domains then None else Some ErrEmailDomainNotAllowed
      end
  end.

Definition fetchUserinfoGroups (entry : providerEntry) (token : Token) (path : string) : M OidcDB (res (list string)) :=
  if bool_decide (ds_UserInfoEndpoint (pe_provider entry) = "")
  then mret (Err (ErrMsg "oidc: userinfo fallback configured but provider has no userinfo endpoint"))
  else
    u ← remote (λ n, UserInfo n (pe_provider entry) token);
    mret match u with
         | Err e => Err (ErrWrap "oidc: userinfo fetch" e)
         | Ok (Err e) => Err (ErrWrap "oidc: userinfo claims" e)
         | Ok (Ok raw) => GroupClaim.Resolve raw path
         end.

(** Step 8: the groups of the token, or those of the userinfo endpoint. *)
Definition resolve_groups (entry : providerEntry) (token : Token) (raw : GroupClaim.claim) : M OidcDB (res (list string)) :=
  let path := op_GroupsClaimPath (pe_cfgRow entry) in
  match GroupClaim.Resolve raw path with
  | Ok (g :: gs) => mret (Ok (g :: gs))
  | _ =>
      if op_FetchUserinfo (pe_cfgRow entry) then
        g2 ← fetchUserinfoGroups entry token path;
        mret match g2 with Ok (g :: gs) => Ok (g :: gs) | _ => Err ErrGroupsMissing end
      else mret (Err ErrGroupsMissing)
  end.

Definition logged_in (email name : string) (t : Z) (u : User) : User :=
  mkUser (us_ID u) (us_TenantID u) email name (us_OIDCSubject u) (us_OIDCProviderID u) (us_PasswordHash u) t
    (us_WebAuthnCredentials u) (us_CreatedAt u) (us_UpdatedAt u) (us_DeactivatedAt u).

(** Step 10. *)
Definition upsertUser (provider : OIDCProvider) (subject email displayName fallbackName : string) : M OidcDB (res User) :=
  let displayName := display_name displayName fallbackName email in
  g ← UserRepo.GetByOIDCSubject (op_ID provider) subject;
  match g with
  | Ok existing =>
      if negb (bool_decide (us_DeactivatedAt existing = None)) then mret (Err ErrUserDeactivated)
      else
        t ← now;
        let u := logged_in email displayName t existing in
        r ← UserRepo.Update u;
        mret match r with Err e => Err e | Ok _ => Ok u end
  | Err e =>
      if negb (errors_Is e UserRepo.ErrUserNotFound) then mret (Err e)
      else
        i ← randomB64URL 16;
        match i with
        | Err e => mret (Err (ErrWrap "oidc: user id generate" e))
        | Ok id =>
        t ← now;
        match UserDomain.User_Validate (mkUser ("u-" +:+ id) (op_TenantID provider) email displayName subject (op_ID provider)
                                "" t (Some "[]") 0 0 None) with
        | Err e => mret (Err (ErrWrap "oidc: new user validate" e))
        | Ok u =>
            r ← UserRepo.Create u;
            mret match r with Err e => Err e | Ok _ => Ok u end
        end end
  end.

(** The sessionMinterAdapter of cmd/server/wire.go: the role ids are not used. *)
Definition MintForUser (user : User) (roleIDs : list string) (ip userAgent : string) : M OidcDB (res (string * string)) :=
  r ← on_id (SessionService.Create (ov_sessions s) (us_ID user) ActorTypeUser ip userAgent);
  mret match r with
       | Err e => Err e
       | Ok c => Ok (SessionService.cr_CookieValue c, SessionService.cr_CSRFToken c)
       end.

(** Step 11: the first-admin hook. *)
Definition run_hook (providerID : string) (groups roleIDs : list string) (userID : string) : M OidcDB (res (list string)) :=
  match ov_hook s with
  | None => mret (Ok roleIDs)
  | Some hook =>
      g ← on_id (zoom_auth (hook providerID groups userID));
      mret match g with
           | Err e => Err (ErrWrap "oidc: admin bootstrap" e)
           | Ok true => Ok (appendIfMissing roleIDs "r-admin")
           | Ok false => Ok roleIDs
           end
  end.

(** Steps 9 to 13: from the groups to the session. *)
Definition finish_login (providerID : string) (cfg : OIDCProvider) (idToken : IDToken) (profile : Profile)
    (groups : list string) (ip userAgent : string) : M OidcDB (res CallbackResult) :=
  m ← MappingRepo.Map providerID groups;
  match m with
  | Err e => mret (Err (ErrWrap "oidc: group-role mapping lookup" e))
  | Ok roleIDs =>
  u ← upsertUser cfg (it_Subject idToken) (pf_Email profile) (pf_Name profile) (pf_PreferredUsername profile);
  match u with
  | Err e => mret (Err (ErrWrap "oidc: upsert user" e))
  | Ok user =>
  h ← run_hook providerID groups roleIDs (us_ID user);
  match h with
  | Err e => mret (Err e)
  | Ok [] => mret (Err ErrGroupsUnmapped)
  | Ok roleIDs =>
  c ← MintForUser user roleIDs ip userAgent;
  mret match c with
       | Err e => Err (ErrWrap "oidc: session mint" e)
       | Ok (cookie, csrf) => Ok (mkCallback user roleIDs cookie csrf)
       end
  end end end.

(** Steps 3 to 13, with the provider at hand. *)
Definition exchange_code (h : PreLogin.Handshake) (entry : providerEntry) (code ip userAgent : string)
    : M OidcDB (res CallbackResult) :=
  x ← remote (λ n, Exchange n (pe_oauthConfig entry) code (PreLogin.hs_verifier h));
  match x with
  | Err e => mret (Err (ErrWrap "oidc: code exchange failed" e))
  | Ok token =>
  let rawIDToken := default "" (tk_IDToken token) in
  if bool_decide (rawIDToken = "") then mret (Err (ErrMsg "oidc: token response missing id_token"))
  else
  v ← verify_token (PreLogin.hs_providerID h) entry rawIDToken;
  match v with
  | Err e => mret (Err e)
  | Ok idToken =>
  t ← now;
  match check_claims t (pe_cfgRow entry) token rawIDToken (PreLogin.hs_nonce h) idToken with
  | Some e => mret (Err e)
  | None =>
  match it_profile idToken with
  | Err e => mret (Err (ErrWrap "oidc: profile claims unmarshal" e))
  | Ok profile =>
  match it_raw idToken with
  | Err e => mret (Err (ErrWrap "oidc: raw claims unmarshal" e))
  | Ok raw =>
  match check_email (pe_cfgRow entry) (pf_Email profile) with
  | Some e => mret (Err e)
  | None =>
  g ← resolve_groups entry token raw;
  match g with
  | Err e => mret (Err e)
  | Ok groups => finish_login (PreLogin.hs_providerID h) (pe_cfgRow entry) idToken profile groups ip userAgent
  end end end end end end end.

Definition HandleCallback (preLoginCookie code callbackState callbackIss ip userAgent : string)
    : M OidcDB (res CallbackResult) :=
  l ← on_id (PreLogin.LookupAndConsume (ov_encryptionKey s) preLoginCookie);
  match l with
  | Err _ => mret (Err PreLogin.ErrPreLoginNotFound)
  | Ok h =>
  match check_binding h ip userAgent with
  | Some e => mret (Err e)
  | None =>
  if negb (ConstantTimeCompare callbackState (PreLogin.hs_state h)) then mret (Err ErrStateMismatch)
  else
  g ← getOrLoad (PreLogin.hs_providerID h);
  match g with
  | Err e => mret (Err e)
  | Ok entry =>
  match check_iss_param entry callbackIss with
  | Some e => mret (Err e)
  | None => exchange_code h entry code ip userAgent
  end end end end.
End service.
End OidcService.

(** ** service/local_auth.go *)

(** bcrypt, with its random salt. *)
Class Bcrypt := mkBcrypt {
  GenerateFromPassword : N → string → res string;
  CompareHashAndPassword : string → string → bool
}.
(** What its documentation promises: a hash accepts the password it was made from. *)
Class BcryptOk (B : Bcrypt) : Prop :=
  bcrypt_accepts n p h : GenerateFromPassword n p = Ok h → CompareHashAndPassword h p = true.

Module LocalAuth.
Definition ErrInvalidCredentials_local : error := ErrSentinel "invalid email or password".
Definition ErrPasswordTooShort : error := ErrSentinel "password must be at least 8 characters".

Section local.
Context `{B : Bcrypt}.

Definition seen (t : Z) (u : User) : User :=
  mkUser (us_ID u) (us_TenantID u) (us_Email u) (us_DisplayName u) (us_OIDCSubject u) (us_OIDCProviderID u)
    (us_PasswordHash u) t (us_WebAuthnCredentials u) (us_CreatedAt u) (us_UpdatedAt u) (us_DeactivatedAt u).

Definition with_hash (h : string) (u : User) : User :=
  mkUser (us_ID u) (us_TenantID u) (us_Email u) (us_DisplayName u) (us_OIDCSubject u) (us_OIDCProviderID u) h
    (us_LastLoginAt u) (us_WebAuthnCredentials u) (us_CreatedAt u) (us_UpdatedAt u) (us_DeactivatedAt u).

(** [Authenticate] after the row has been read. *)
Definition check_password (password : string) (u : User) : M OidcDB (res User) :=
  if negb (bool_decide (us_DeactivatedAt u = None)) then mret (Err ErrInvalidCredentials_local)
  else if negb (CompareHashAndPassword (us_PasswordHash u) password) then mret (Err ErrInvalidCredentials_local)
  else
    t ← now;
    let u := seen t u in
    _ ← UserRepo.Update u;
    mret (Ok u).

Definition Authenticate_local (tenantID email password : string) : M OidcDB (res User) :=
  let email := TrimSpace email in
  if bool_decide (email = "") || bool_decide (password = "") then mret (Err ErrInvalidCredentials_local)
  else
    r ← UserRepo.GetByEmail tenantID email;
    match r with
    | Err e =>
        if errors_Is e UserRepo.ErrUserNotFound then mret (Err ErrInvalidCredentials_local)
        else mret (Err (ErrWrap "auth db error" e))
    | Ok u => check_password password u
    end.

Definition local_user (h : string) (u : User) : User :=
  mkUser (us_ID u) (us_TenantID u) (us_Email u) (us_DisplayName u) "" "" h (us_LastLoginAt u)
    (us_WebAuthnCredentials u) (us_CreatedAt u) (us_UpdatedAt u) (us_DeactivatedAt u).

Definition CreateUser (u : User) (password : string) : M OidcDB (res unit) :=
  if Nat.ltb (len password) 8 then mret (Err ErrPasswordTooShort)
  else
    h ← OidcService.remote (λ n, GenerateFromPassword n password);
    match h with
    | Err e => mret (Err (ErrWrap "failed to hash password" e))
    | Ok hash =>
    match UserDomain.User_Validate (local_user hash u) with
    | Err e => mret (Err e)
    | Ok u =>
        r ← UserRepo.Create u;
        mret match r with Err e => Err (ErrWrap "create user" e) | Ok _ => Ok tt end
    end end.

Definition UpdatePassword (userID newPassword : string) : M OidcDB (res unit) :=
  if Nat.ltb (len newPassword) 8 then mret (Err ErrPasswordTooShort)
  else
    g ← UserRepo.Get userID;
    match g with
    | Err e => mret (Err (ErrWrap "get user" e))
    | Ok u =>
    h ← OidcService.remote (λ n, GenerateFromPassword n newPassword);
    match h with
    | Err e => mret (Err (ErrWrap "hash password" e))
    | Ok hash =>
        r ← UserRepo.Update (with_hash hash u);
        mret match r with Err e => Err (ErrWrap "update user" e) | Ok _ => Ok tt end
    end end.
End local.
End LocalAuth.

(** ** The administration handlers

    A handler takes the caller the authentication middleware put in the context, and the decoded
    body; it answers with the status code. *)
Module Admin.
Record Actor := mkActor { ac_ID : string; ac_Type : string }.

(** [oidcProviderRequest]. *)
Record ProviderRequest := mkProviderRequest {
  rq_Name : string;
  rq_IssuerURL : string;
  rq_ClientID : string;
  rq_ClientSecret : string;
  rq_RedirectURI : string;
  rq_GroupsClaimPath : string;
  rq_GroupsClaimFormat : string;
  rq_FetchUserinfo : bool;
  rq_Scopes : list string;
  rq_AllowedEmailDomains : list string;
  rq_IATWindowSeconds : Z;
  rq_JWKSCacheTTLSeconds : Z
}.

Record MappingRequest := mkMappingRequest { mq_ProviderID : string; mq_GroupName : string; mq_RoleID : string }.

Definition defaultIfBlank (v d : string) : string := if is_blank v then d else v.

Section admin.
Context `{E : Entropy, C : Ciphers, P : IdP, B : Bcrypt}.
Variable ToLower : string → string.
Variables ParseURL ValidateSafeURL : string → option error.
Variable uuid_NewString : N → string.
Variable s : OidcService.OidcSvc.
Variable tenantID : string.

(** [recordAudit] of auth_session_oidc.go; its error is only logged. *)
Definition recordAudit (resourceType action : string) (a : Actor) (resourceID : string) (det : details) : M OidcDB unit :=
  _ ← RecordEventWithCategory ToLower (ac_ID a) (ac_Type a) action EventCategoryAuth resourceType resourceID det;
  mret tt.

(** [randomB64URLForHandler]: the clock when there is no entropy. *)
Definition randomB64URLForHandler (n : nat) : M OidcDB string :=
  r ← readRand n;
  match r with
  | Ok b => mret (b64_EncodeToString b)
  | Err _ =>
      t ← now;
      mret (b64_EncodeToString (of_bytes (map (λ i, Z.shiftr t (8 * Z.of_nat i) mod 256) (seq 0 n))))
  end.

Definition encryptClientSecret (plaintext : string) : M OidcDB (res string) :=
  if bool_decide (OidcService.ov_encryptionKey s = "") then mret (Ok plaintext)
  else
    r ← EncryptIfKeySet plaintext (OidcService.ov_encryptionKey s);
    mret match r with Err e => Err e | Ok (blob, _) => Ok blob end.

(** The row [CreateProvider] builds; the fields it does not name are zero. *)
Definition provider_of (id secret : string) (req : ProviderRequest) : OIDCProvider :=
  mkProvider id tenantID (rq_Name req) (rq_IssuerURL req) (rq_ClientID req) secret (rq_RedirectURI req)
    (defaultIfBlank (rq_GroupsClaimPath req) OidcDomain.DefaultGroupsClaimPath)
    (defaultIfBlank (rq_GroupsClaimFormat req) OidcDomain.GroupsClaimFormatStringArray)
    (rq_FetchUserinfo req) (rq_Scopes req) (rq_AllowedEmailDomains req)
    (OidcDomain.zero_default (rq_IATWindowSeconds req) OidcDomain.DefaultIATWindowSeconds)
    (OidcDomain.zero_default (rq_JWKSCacheTTLSeconds req) OidcDomain.DefaultJWKSCacheTTLSeconds) false 0 0.

Definition CreateProvider (caller : option Actor) (body : option ProviderRequest) : M OidcDB Z :=
  match caller with
  | None => mret 401
  | Some a =>
  match body with
  | None => mret 400
  | Some req =>
  if is_blank (rq_ClientSecret req) then mret 400
  else
  e ← encryptClientSecret (rq_ClientSecret req);
  match e with
  | Err _ => mret 500
  | Ok encrypted =>
  id ← randomB64URLForHandler 16;
  match OidcDomain.OIDCProvider_Validate ParseURL ValidateSafeURL (provider_of ("op-" +:+ id) encrypted req) with
  | Err _ => mret 400
  | Ok prov =>
  r ← ProviderRepo.Create prov;
  match r with
  | Err e => mret (if errors_Is e ProviderRepo.ErrOIDCProviderDuplicateName then 409 else 500)
  | Ok _ =>
      _ ← recordAudit "session" "auth.oidc_provider_created" a (op_ID prov)
            [("provider_id", GStr (op_ID prov)); ("name", GStr (op_Name prov)); ("issuer_url", GStr (op_IssuerURL prov))];
      mret 201
  end end end end end.

Definition edited (secret : string) (p : OIDCProvider) (req : ProviderRequest) : OIDCProvider :=
  mkProvider (op_ID p) (op_TenantID p) (rq_Name req) (rq_IssuerURL req) (rq_ClientID req) secret (rq_RedirectURI req)
    (defaultIfBlank (rq_GroupsClaimPath req) (op_GroupsClaimPath p))
    (defaultIfBlank (rq_GroupsClaimFormat req) (op_GroupsClaimFormat p)) (rq_FetchUserinfo req) (rq_Scopes req)
    (rq_AllowedEmailDomains req) (OidcDomain.zero_default (rq_IATWindowSeconds req) (op_IATWindowSeconds p))
    (OidcDomain.zero_default (rq_JWKSCacheTTLSeconds req) (op_JWKSCacheTTLSeconds p)) (op_Enabled p) (op_CreatedAt p)
    (op_UpdatedAt p).

Definition UpdateProvider (caller : option Actor) (id : string) (body : option ProviderRequest) : M OidcDB Z :=
  match caller with
  | None => mret 401
  | Some a =>
  if bool_decide (id = "") then mret 400
  else
  g ← ProviderRepo.Get id;
  match g with
  | Err e => mret (if errors_Is e ProviderRepo.ErrOIDCProviderNotFound then 404 else 500)
  | Ok existing =>
  match body with
  | None => mret 400
  | Some req =>
  e ← (if is_blank (rq_ClientSecret req) then mret (Ok (op_ClientSecretEncrypted existing))
       else encryptClientSecret (rq_ClientSecret req));
  match e with
  | Err _ => mret 500
  | Ok secret =>
  match OidcDomain.OIDCProvider_Validate ParseURL ValidateSafeURL (edited secret existing req) with
  | Err _ => mret 400
  | Ok prov =>
  r ← ProviderRepo.Update prov;
  match r with
  | Err _ => mret 500
  | Ok _ =>
      _ ← recordAudit "session" "auth.oidc_provider_updated" a (op_ID prov)
            [("provider_id", GStr (op_ID prov)); ("name", GStr (op_Name prov))];
      mret 200
  end end end end end end.

Definition DeleteProvider (caller : option Actor) (id : string) : M OidcDB Z :=
  match caller with
  | None => mret 401
  | Some a =>
  if bool_decide (id = "") then mret 400
  else
  r ← ProviderRepo.Delete id;
  match r with
  | Err e => mret (if errors_Is e ProviderRepo.ErrOIDCProviderNotFound then 404
                   else if errors_Is e ProviderRepo.ErrOIDCProviderInUse then 409 else 500)
  | Ok _ => _ ← recordAudit "session" "auth.oidc_provider_deleted" a id [("provider_id", GStr id)]; mret 204
  end end.

Definition RefreshProvider (caller : option Actor) (id : string) : M OidcDB Z :=
  match caller with
  | None => mret 401
  | Some a =>
  if bool_decide (id = "") then mret 400
  else
  r ← OidcService.RefreshKeys s id;
  match r with
  | Err e => mret (if errors_Is e ProviderRepo.ErrOIDCProviderNotFound then 404 else 400)
  | Ok _ => _ ← recordAudit "session" "auth.oidc_provider_refreshed" a id [("provider_id", GStr id)]; mret 200
  end end.

Definition AddGroupMapping (caller : option Actor) (body : option MappingRequest) : M OidcDB Z :=
  match caller with
  | None => mret 401
  | Some a =>
  match body with
  | None => mret 400
  | Some req =>
  id ← randomB64URLForHandler 16;
  match OidcDomain.GroupRoleMapping_Validate
          (mkMapping ("grm-" +:+ id) (mq_ProviderID req) (mq_GroupName req) (mq_RoleID req) tenantID 0) with
  | Err _ => mret 400
  | Ok m =>
  r ← MappingRepo.Add m;
  match r with
  | Err e => mret (if errors_Is e MappingRepo.ErrGroupRoleMappingDuplicate then 409 else 500)
  | Ok _ =>
      _ ← recordAudit "session" "auth.group_mapping_added" a (gm_ID m)
            [("mapping_id", GStr (gm_ID m)); ("provider_id", GStr (gm_ProviderID m));
             ("group_name", GStr (gm_GroupName m)); ("role_id", GStr (gm_RoleID m))];
      mret 201
  end end end end.

Definition RemoveGroupMapping (caller : option Actor) (id : string) : M OidcDB Z :=
  match caller with
  | None => mret 401
  | Some a =>
  if bool_decide (id = "") then mret 400
  else
  r ← MappingRepo.Remove id;
  match r with
  | Err e => mret (if errors_Is e MappingRepo.ErrGroupRoleMappingNotFound then 404 else 500)
  | Ok _ => _ ← recordAudit "session" "auth.group_mapping_removed" a id [("mapping_id", GStr id)]; mret 204
  end end.

(** *** auth_users.go *)
Definition set_deactivated (t : option Z) (u : User) : User :=
  mkUser (us_ID u) (us_TenantID u) (us_Email u) (us_DisplayName u) (us_OIDCSubject u) (us_OIDCProviderID u)
    (us_PasswordHash u) (us_LastLoginAt u) (us_WebAuthnCredentials u) (us_CreatedAt u) (us_UpdatedAt u) t.

Definition load_user_status (e : error) : Z := if errors_Is e UserRepo.ErrUserNotFound then 404 else 500.

Definition Deactivate (caller : option Actor) (id : string) : M OidcDB Z :=
  match caller with
  | None => mret 401
  | Some a =>
  if bool_decide (id = "") then mret 400
  else if bool_decide (ac_Type a = ActorTypeUser) && bool_decide (ac_ID a = id) then
    _ ← recordAudit "user" "auth.user_deactivate_self_rejected" a id
          [("user_id", GStr id); ("reason", GStr "self_deactivate_blocked")];
    mret 409
  else
  g ← UserRepo.Get id;
  match g with
  | Err e => mret (load_user_status e)
  | Ok u =>
  if negb (bool_decide (us_DeactivatedAt u = None)) then mret 204
  else
  t ← now;
  r ← UserRepo.Update (set_deactivated (Some t) u);
  match r with
  | Err _ => mret 500
  | Ok _ =>
      v ← on_id (SessionService.RevokeAllForActor ToLower (OidcService.ov_sessions s) (us_ID u) ActorTypeUser);
      _ ← recordAudit "user" "auth.user_deactivated" a (us_ID u)
            [("user_id", GStr (us_ID u)); ("oidc_provider_id", GStr (us_OIDCProviderID u));
             ("session_revoke_status", GStr (match v with Ok _ => "ok" | Err _ => "failed" end))];
      mret 204
  end end end.

Definition Reactivate (caller : option Actor) (id : string) : M OidcDB Z :=
  match caller with
  | None => mret 401
  | Some a =>
  if bool_decide (id = "") then mret 400
  else
  g ← UserRepo.Get id;
  match g with
  | Err e => mret (load_user_status e)
  | Ok u =>
  if bool_decide (us_DeactivatedAt u = None) then mret 204
  else
  r ← UserRepo.Update (set_deactivated None u);
  match r with
  | Err _ => mret 500
  | Ok _ =>
      _ ← recordAudit "user" "auth.user_reactivated" a (us_ID u)
            [("user_id", GStr (us_ID u)); ("oidc_provider_id", GStr (us_OIDCProviderID u))];
      mret 204
  end end end.

(** *** auth_local.go *)
Definition Login (body : option (string * string)) (xForwardedFor remoteAddr userAgent : string) : M OidcDB (Z * option (string * string)) :=
  match body with
  | None => mret (400, None)
  | Some (email, password) =>
  r ← LocalAuth.Authenticate_local "t-default" email password;
  match r with
  | Err e =>
      if errors_Is e LocalAuth.ErrInvalidCredentials_local then
        _ ← recordAudit "user" "auth.local_login_failed" (mkActor email "User") "" [("reason", GStr "invalid_credentials")];
        mret (401, None)
      else mret (500, None)
  | Ok u =>
      let clientIP := if bool_decide (xForwardedFor = "") then remoteAddr else xForwardedFor in
      c ← on_id (SessionService.Create (OidcService.ov_sessions s) (us_ID u) ActorTypeUser clientIP userAgent);
      match c with
      | Err _ => mret (500, None)
      | Ok c =>
          _ ← recordAudit "user" "auth.local_login_success" (mkActor (us_ID u) "User") (us_ID u) [];
          mret (200, Some (SessionService.cr_CookieValue c, SessionService.cr_CSRFToken c))
      end
  end end.

Definition CreateUser (caller : option Actor) (body : option (string * string * string)) : M OidcDB Z :=
  match caller with
  | None => mret 401
  | Some a =>
  match body with
  | None => mret 400
  | Some (email, name, password) =>
  n ← fresh;
  let id := "u-" +:+ str_take 8 (uuid_NewString n) in
  r ← LocalAuth.CreateUser (mkUser id "t-default" email name "" "" "" zero_time None 0 0 None) password;
  match r with
  | Err e => mret (if errors_Is e LocalAuth.ErrPasswordTooShort then 400 else 500)
  | Ok _ => _ ← recordAudit "user" "auth.user_created" a id []; mret 201
  end end end.

Definition UpdatePassword (caller : option Actor) (id : string) (body : option string) : M OidcDB Z :=
  match caller with
  | None => mret 401
  | Some a =>
  if bool_decide (id = "") then mret 400
  else match body with
  | None => mret 400
  | Some password =>
  r ← LocalAuth.UpdatePassword id password;
  match r with
  | Err _ => mret 500
  | Ok _ => _ ← recordAudit "user" "auth.user_password_updated" a id []; mret 204
  end end end.
End admin.
End Admin.
