(* ===== verification/OidcFacts.v ===== *)
(** * Facts about logins (Oidc.v)

    What a completed OIDC login has checked; that the roles mapped from its groups are never
    granted; that no provider made through the API can start a login, and that a loaded provider
    does not follow its row; and that a login in progress undoes a deactivation. *)

From Stdlib Require Import ZArith Lia Ascii String.
From stdpp Require Import prelude gmap strings list sorting.
From S2P Require Import Prelude AuditTrail Store Transactions Rbac RbacFacts GoBytes KeyCrypto Identity AcmeWire Session SessionFacts SessionLife EnvLogic OidcStore Oidc.
Import Text Cookies OidcService.

(** Take a run of a sequence apart at its first step. *)
Ltac peel H x w E := apply bind_inv in H as (x & w & E & H).

Lemma ret_inv {D A} (a : A) (w : World D) y : (mret a : M D A) w = y → y = (a, w).
Proof. by intros <-. Qed.

Lemma remote_inv {A} (f : N → A) (w w' : World OidcDB) x : remote f w = (x, w') → ∃ n, x = f n.
Proof. unfold remote. intros H. peel H n w1 E. apply ret_inv in H as [= -> ->]. eauto. Qed.

(** ** The pre-login row of a cookie *)
Section prelogin_row.
Context `{C : Ciphers}.
Variable enc : string.

(** The cookie names the row [id] and carries its MAC under a stored signing key, and the row is
    where the handshake comes from. *)
Definition cookie_of_row (cookie id : string) (h : PreLogin.Handshake) (i : IdentityDB) (row : PreLoginRow) : Prop :=
  (∃ kid k hk, ParseCookieValue cookie "pl-" = Ok (id, kid, computeHMAC id kid hk) ∧ id_keys i !! kid = Some k ∧
     SessionService.decryptKeyMaterial (sk_KeyMaterialEncrypted k) enc = Ok hk) ∧
  id_prelogin i !! id = Some row ∧ PreLogin.hs_providerID h = plr_OIDCProviderID row ∧
  PreLogin.materialize enc (plr_enc row).1.1 (plr_plain row).1.1 = Ok (PreLogin.hs_state h) ∧
  PreLogin.materialize enc (plr_enc row).1.2 (plr_plain row).1.2 = Ok (PreLogin.hs_nonce h) ∧
  PreLogin.materialize enc (plr_enc row).2 (plr_plain row).2 = Ok (PreLogin.hs_verifier h).

Lemma repo_consume_inv id w pl w1 :
  PreLogin.PreLoginRepository_LookupAndConsume enc id w = (Ok pl, w1) →
  ∃ row, id_prelogin (w_db w) !! id = Some row ∧ w_db w1 = set_prelogin (delete id) (w_db w) ∧
    clock w ≤ plr_AbsoluteExpiresAt row ∧ pl_OIDCProviderID pl = plr_OIDCProviderID row ∧
    PreLogin.materialize enc (plr_enc row).1.1 (plr_plain row).1.1 = Ok (pl_State pl) ∧
    PreLogin.materialize enc (plr_enc row).1.2 (plr_plain row).1.2 = Ok (pl_Nonce pl) ∧
    PreLogin.materialize enc (plr_enc row).2 (plr_plain row).2 = Ok (pl_PKCEVerifier pl).
Proof.
  unfold PreLogin.PreLoginRepository_LookupAndConsume. intros H. peel H r w2 Hr.
  destruct r as [row|?]; [|by apply ret_inv in H].
  pose proof (elapsed_exec "oidc_pre_login lookup_and_consume" (λ d : IdentityDB,
        match id_prelogin d !! id with
        | None => (Err PreLogin.ErrPreLoginNotFound, d)
        | Some row => (Ok row, set_prelogin (delete id) d)
        end) w) as Hle. rewrite Hr in Hle. destruct Hle as [Hle _]. cbn in Hle.
  apply exec_ok in Hr as [H1 H2]. destruct (id_prelogin (w_db w) !! id) as [row'|] eqn:Er; [|done].
  injection H1 as ->. cbn in H2. exists row. destruct (plr_enc row) as [[e1 e2] e3], (plr_plain row) as [[p1 p2] p3]. cbn.
  destruct (PreLogin.materialize enc e1 p1) as [x1|?]; [|by apply ret_inv in H].
  destruct (PreLogin.materialize enc e2 p2) as [x2|?]; [|by apply ret_inv in H].
  destruct (PreLogin.materialize enc e3 p3) as [x3|?]; [|by apply ret_inv in H].
  peel H t w3 Ht. destruct (now_clock w2) as (Hd & Hc & Hc2 & _). rewrite Ht in Hd, Hc, Hc2. cbn in Hd, Hc, Hc2.
  destruct (plr_AbsoluteExpiresAt row <? t) eqn:Ex; [by apply ret_inv in H|]. apply ret_inv in H as [= -> ->]. cbn.
  split_and!; try done; [congruence|]. unfold clock in *. lia.
Qed.

Lemma LookupAndConsume_inv cookie w h w1 :
  PreLogin.LookupAndConsume enc cookie w = (Ok h, w1) →
  ∃ id row, cookie_of_row cookie id h (w_db w) row ∧ clock w ≤ plr_AbsoluteExpiresAt row ∧
    w_db w1 = set_prelogin (delete id) (w_db w).
Proof.
  unfold PreLogin.LookupAndConsume. destruct (ParseCookieValue cookie "pl-") as [[[id kid] mac]|?] eqn:Ep; [|by intros [=]%ret_inv].
  intros H. peel H k w2 Hk. destruct k as [key|?]; [|by apply ret_inv in H].
  unfold KeyRepo.Get in Hk. peel Hk q w3 Hq. apply ret_inv in Hk; injection Hk; clear Hk; intros -> Hk.
  destruct q as [[key'|]|?]; [|done|done]. injection Hk as <-.
  pose proof (wpres_query elapsed "session_signing_keys get" (λ d, id_keys d !! kid) w) as Hle. rewrite Hq in Hle.
  destruct Hle as [Hle _]. cbn in Hle. apply query_ok in Hq as [Hkey Hdb].
  destruct (SessionService.decryptKeyMaterial _ _) as [hk|?] eqn:Ed; [|by apply ret_inv in H].
  unfold ConstantTimeCompare in H. case_bool_decide as Hm; [|by apply ret_inv in H]. cbn [negb] in H.
  peel H r w4 Hr. apply ret_inv in H; injection H; clear H; intros -> H. destruct r as [pl|?]; [|by case_match].
  injection H as ->. apply repo_consume_inv in Hr as (row & H1 & H2 & H3 & H4 & H5 & H6 & H7).
  rewrite Hdb in H1, H2. exists id, row. split; [|split; [unfold clock in *; lia|done]].
  split; [exists kid, key, hk; by rewrite Hm|]. by split_and!.
Qed.

Lemma elapsed_LookupAndConsume cookie : wpres elapsed (PreLogin.LookupAndConsume enc cookie).
Proof.
  unfold PreLogin.LookupAndConsume, KeyRepo.Get, PreLogin.PreLoginRepository_LookupAndConsume.
  repeat first [simple apply elapsed_exec | wstep].
Qed.
End prelogin_row.

(** ** The session of a login *)
(** The cookie and the token are those of a stored session of the user that is not revoked, signed
    with a stored key that is not retired. *)
Definition session_minted `{C : Ciphers} (sv : SessionService.Service) (userID cookie csrf : string) (i : IdentityDB) : Prop :=
  ∃ sess kid k hk,
    id_sessions i !! ses_ID sess = Some sess ∧ ses_ActorID sess = userID ∧ ses_ActorType sess = ActorTypeUser ∧
    ses_RevokedAt sess = None ∧ hashCSRFToken csrf = ses_CSRFTokenHash sess ∧
    id_keys i !! kid = Some k ∧ sk_RetiredAt k = None ∧
    SessionService.decryptKeyMaterial (sk_KeyMaterialEncrypted k) (SessionService.svc_encryption sv) = Ok hk ∧
    cookie = signCookie (ses_ID sess) (sk_ID k) hk.

Lemma Create_minted `{E : Entropy, C : Ciphers} sv a ip ua (w w1 : World IdentityDB) r :
  SessionService.Create sv a ActorTypeUser ip ua w = (Ok r, w1) →
  session_minted sv a (SessionService.cr_CookieValue r) (SessionService.cr_CSRFToken r) (w_db w1).
Proof.
  unfold SessionService.Create. destruct (is_blank a); [by intros [=]%ret_inv|].
  destruct (is_blank ActorTypeUser); [by intros [=]%ret_inv|]. intros H. peel H g w2 Hg.
  destruct g as [k|?]; [|by apply ret_inv in H]. unfold KeyRepo.GetActive in Hg. peel Hg q w3 Hq.
  apply ret_inv in Hg; injection Hg; clear Hg; intros -> Hg. destruct q as [[k'|]|?]; [|done|done]. injection Hg as <-.
  apply query_ok in Hq as [Hk Hd2]. apply active_key_spec in Hk as ((kid & Hkid) & _ & Hret).
  destruct (SessionService.decryptKeyMaterial _ _) as [hk|] eqn:Ed; [|by apply ret_inv in H].
  peel H i w4 Hi. assert (pres eq (SessionService.newOpaqueID "ses-")) as Hpi
    by (unfold SessionService.newOpaqueID, readRand; solve_pres). specialize (Hpi w3). rewrite Hi in Hpi. cbn in Hpi.
  destruct i as [sid|?]; [|by apply ret_inv in H].
  peel H c w5 Hc. assert (pres eq SessionService.newCSRFToken) as Hpc
    by (unfold SessionService.newCSRFToken, readRand; solve_pres). specialize (Hpc w4). rewrite Hc in Hpc. cbn in Hpc.
  destruct c as [csrf|?]; [|by apply ret_inv in H].
  peel H t w6 Ht. pose proof (now_db w5) as Hd5. rewrite Ht in Hd5. cbn in Hd5.
  destruct (Session_Validate _) as [row|] eqn:Ev; [|by apply ret_inv in H].
  peel H cr w7 Hcr. destruct cr as [[]|?]; [|by apply ret_inv in H]. apply ret_inv in H as [= -> ->]. cbn.
  apply Session_Validate_row in Ev.
  unfold SessionRepo.Create in Hcr. apply exec_ok in Hcr as [Ec1 Ec2].
  destruct (SessionRepo.session_checks row); [|done]. cbn [negb] in *.
  repeat (case_bool_decide; [done|]). cbn in Ec2. rewrite inserted_id in Ec2 by (by destruct Ev as [-> | ->]).
  exists row, kid, k, hk. rewrite Ec2. cbn [set_sessions id_sessions id_keys]. rewrite lookup_insert_eq.
  assert (id_keys (w_db w6) !! kid = Some k) as Hk6 by congruence.
  destruct Ev as [-> | ->]; by split_and!.
Qed.

(** ** What an operation does to the identity tables *)
Definition on_ids (R : relation IdentityDB) : relation OidcDB := λ d d', R (od_id d) (od_id d').
#[global] Instance on_ids_preorder R `{!PreOrder R} : PreOrder (on_ids R).
Proof. split; [by intros d; unfold on_ids|]. intros x y z. unfold on_ids. by etransitivity. Qed.

Lemma pres_on_id {A} (R : relation IdentityDB) (m : M IdentityDB A) : pres R m → pres (on_ids R) (on_id m).
Proof. intros H w. unfold on_id. specialize (H (mkWorld (od_id (w_db w)) (w_env w))). by destruct (m _) as [a w1]. Qed.

Lemma pres_remote {A} (R : relation OidcDB) `{!PreOrder R} (f : N → A) : pres R (remote f).
Proof. unfold remote. repeat pres_step. Qed.
Lemma pres_readRand {D} `{Entropy} (R : relation D) `{!PreOrder R} n : pres R (readRand n).
Proof. unfold readRand. repeat pres_step. Qed.
Lemma pres_get_db {D} (R : relation D) `{!PreOrder R} : pres R get_db.
Proof. intros w. reflexivity. Qed.
Lemma pres_upd_cache (R : relation IdentityDB) `{!PreOrder R} f : pres (on_ids R) (upd_cache f).
Proof. intros w. unfold on_ids, upd_cache. cbn. reflexivity. Qed.
#[export] Hint Resolve pres_on_id pres_remote pres_readRand pres_get_db pres_upd_cache : certctl.

Section login.
Context `{E : Entropy, C : Ciphers, P : IdP}.
Variable ToLower : string → string.
Variable EqualFold : string → string → bool.
Variables Sum384 Sum512 : string → string.
Variable s : OidcSvc.

(** ** The user of a login *)
Lemma GetByOIDCSubject_inv p sub w u w' :
  UserRepo.GetByOIDCSubject p sub w = (Ok u, w') → us_OIDCProviderID u = p ∧ us_OIDCSubject u = sub.
Proof.
  unfold UserRepo.GetByOIDCSubject, UserRepo.one_row. intros H. peel H r w1 Hq. apply ret_inv in H; injection H; clear H; intros -> H.
  destruct r as [[x|]|e]; [|done|done]. injection H as ->. revert Hq. mrun. intros Hq.
  assert (head (filter (λ u, UserRepo.of_subject p sub u = true) (rows (od_users (w_db w)))) = Some x) as Hh.
  { destruct (env_faults (w_env w)) as [|[| |]]; cbn in Hq; by injection Hq. }
  destruct (filter _ _) as [|y l] eqn:Ef; [done|]. injection Hh as ->.
  assert (x ∈ x :: l) as Hin by (by left). rewrite <-Ef in Hin. apply list_elem_of_filter in Hin as [Hs _].
  unfold UserRepo.of_subject in Hs. rewrite !andb_true_iff in Hs. destruct Hs as [[_ H1] H2].
  by apply bool_decide_eq_true_1 in H1, H2.
Qed.

Lemma User_Validate_inv u v : UserDomain.User_Validate u = Ok v →
  us_OIDCProviderID v = us_OIDCProviderID u ∧ us_OIDCSubject v = us_OIDCSubject u ∧
  us_DeactivatedAt v = us_DeactivatedAt u ∧ us_Email v = us_Email u ∧ us_ID v = us_ID u.
Proof. unfold UserDomain.User_Validate. repeat case_match; try done; by intros [= <-]. Qed.

Lemma upsertUser_inv cfg subject email name fallback w u w' :
  upsertUser cfg subject email name fallback w = (Ok u, w') →
  us_OIDCProviderID u = op_ID cfg ∧ us_OIDCSubject u = subject ∧ us_DeactivatedAt u = None ∧ us_Email u = email.
Proof.
  unfold upsertUser. intros H. peel H g w1 Hg. destruct g as [x|e].
  - destruct (bool_decide (us_DeactivatedAt x = None)) eqn:Ed; [|by apply ret_inv in H]. cbn in H.
    peel H t w2 Ht. peel H r w3 Hr. apply ret_inv in H; injection H; clear H; intros -> H. destruct r; [|done]. injection H as ->.
    destruct (GetByOIDCSubject_inv _ _ _ _ _ Hg) as [H1 H2]. by apply bool_decide_eq_true_1 in Ed.
  - case_match; [by apply ret_inv in H|]. peel H i w2 Hi. destruct i as [id|?]; [|by apply ret_inv in H].
    peel H t w3 Ht. destruct (UserDomain.User_Validate _) as [v|?] eqn:Ev; [|by apply ret_inv in H].
    peel H r w4 Hr. apply ret_inv in H; injection H; clear H; intros -> H. destruct r; [|done]. injection H as ->.
    by apply User_Validate_inv in Ev as (-> & -> & -> & -> & _).
Qed.

Lemma finish_login_inv p cfg idt profile groups ip ua w r w' :
  finish_login s p cfg idt profile groups ip ua w = (Ok r, w') →
  us_OIDCProviderID (cb_User r) = op_ID cfg ∧ us_OIDCSubject (cb_User r) = it_Subject idt ∧
  us_DeactivatedAt (cb_User r) = None ∧ us_Email (cb_User r) = pf_Email profile ∧ cb_RoleIDs r ≠ [] ∧
  session_minted (ov_sessions s) (us_ID (cb_User r)) (cb_CookieValue r) (cb_CSRFToken r) (od_id (w_db w')).
Proof.
  unfold finish_login. intros H. peel H m w1 Hm. destruct m as [roles|?]; [|by apply ret_inv in H].
  peel H u w2 Hu. destruct u as [user|?]; [|by apply ret_inv in H]. apply upsertUser_inv in Hu as (H1 & H2 & H3 & H4).
  peel H h w3 Hh. destruct h as [[|x l]|?]; [by apply ret_inv in H| |by apply ret_inv in H].
  peel H c w4 Hc. apply ret_inv in H; injection H; clear H; intros -> H. destruct c as [[cookie csrf]|?]; [|done]. injection H as ->.
  split_and!; try done. unfold MintForUser in Hc. peel Hc m w5 Hm'. apply ret_inv in Hc; injection Hc; clear Hc; intros -> Hc.
  destruct m as [cr|?]; [|done]. injection Hc as -> ->. unfold on_id in Hm'.
  destruct (SessionService.Create _ _ _ _ _ _) as [res w6] eqn:Ec. injection Hm' as -> <-.
  by apply Create_minted in Ec.
Qed.

(** ** What a login has checked *)
Record genuine_token (cfg : OIDCProvider) (token : Token) (raw nonce : string) (t : Z) (idt : IDToken) : Prop := {
  gt_alg : ∃ alg, isDisallowedAlg raw = (false, alg) ∧ alg ∉ disallowedAlgs;
  gt_iss : it_Issuer idt = op_IssuerURL cfg;
  gt_aud : op_ClientID cfg ∈ it_Audience idt;
  gt_extra : ∃ extra, it_extra idt = Ok extra ∧ ex_Nonce extra = nonce ∧
    (ex_AZP extra = op_ClientID cfg ∨ ex_AZP extra = "" ∧ it_Audience idt = [op_ClientID cfg]) ∧
    (tk_AccessToken token = "" ∨ atHashMatches Sum384 Sum512 raw (tk_AccessToken token) (ex_ATHash extra) = true);
  gt_time : t ≤ it_Expiry idt + skew ∧ it_IssuedAt idt - skew ≤ t ≤ it_IssuedAt idt + op_IATWindowSeconds cfg * 10 ^ 9
}.

Lemma isDisallowedAlg_false raw alg : isDisallowedAlg raw = (false, alg) → alg ∉ disallowedAlgs.
Proof.
  unfold isDisallowedAlg. repeat case_match; try done. intros [= Hb <-]. by eapply bool_decide_eq_false_1.
Qed.

(** A refusal that did not happen. *)
Lemma refused_None {A} (b : bool) (e : A) r : (if b then Some e else r) = None → b = false ∧ r = None.
Proof. by destruct b. Qed.

Lemma check_claims_genuine t cfg token raw nonce idt :
  check_claims Sum384 Sum512 t cfg token raw nonce idt = None → genuine_token cfg token raw nonce t idt.
Proof.
  unfold check_claims. intros H. destruct (isDisallowedAlg raw) as [bad alg] eqn:Ea. cbn [fst] in H.
  apply refused_None in H as [-> H]. apply refused_None in H as [Hiss H]. apply refused_None in H as [Haud H].
  destruct (it_extra idt) as [extra|?] eqn:Ex; [|done].
  apply refused_None in H as [Hreq H]. apply refused_None in H as [Hazp H]. apply refused_None in H as [Hath H].
  apply refused_None in H as [Hhash H]. apply refused_None in H as [Hexp H]. apply refused_None in H as [Hfut H].
  apply refused_None in H as [Hold H]. apply refused_None in H as [Hnonce _].
  apply negb_false_iff, bool_decide_eq_true_1 in Hiss, Haud, Hnonce.
  split; [exists alg; split; [done|by eapply isDisallowedAlg_false]|done|done| |unfold skew in *; lia].
  exists extra. split; [done|]. split; [done|]. split.
  - destruct (decide (ex_AZP extra = "")) as [Ez|Ez].
    + right. split; [done|]. rewrite (bool_decide_eq_true_2 _ Ez), andb_true_r in Hreq. apply Nat.ltb_ge in Hreq.
      destruct (it_Audience idt) as [|a [|b l]]; cbn in Hreq; [by apply elem_of_nil in Haud| |lia].
      by apply list_elem_of_singleton in Haud as ->.
    + left. rewrite (bool_decide_eq_false_2 _ Ez) in Hazp. by apply negb_false_iff, bool_decide_eq_true_1 in Hazp.
  - destruct (decide (tk_AccessToken token = "")) as [Et|Et]; [by left|right].
    rewrite (bool_decide_eq_false_2 _ Et) in Hhash. by apply negb_false_iff in Hhash.
Qed.

Lemma check_binding_ok h ip ua : check_binding s h ip ua = None →
  (ov_requireUA s = true → PreLogin.hs_userAgent h = "" ∨ PreLogin.hs_userAgent h = ua) ∧
  (ov_requireIP s = true → PreLogin.hs_clientIP h = "" ∨ PreLogin.hs_clientIP h = ip).
Proof.
  unfold check_binding, ConstantTimeCompare. intros H. apply refused_None in H as [_ H]. apply refused_None in H as [H1 H].
  apply refused_None in H as [_ H]. apply refused_None in H as [H2 _]. clear -H1 H2.
  split; intros Hr; [clear H2; rewrite Hr in H1|clear H1; rewrite Hr in H2]; repeat case_bool_decide; cbn in *; naive_solver.
Qed.

Lemma check_email_ok cfg email : check_email ToLower EqualFold cfg email = None →
  op_AllowedEmailDomains cfg = [] ∨
  ∃ d a, extractEmailDomain ToLower email = Ok d ∧ a ∈ op_AllowedEmailDomains cfg ∧ EqualFold (TrimSpace a) d = true.
Proof.
  unfold check_email. destruct (op_AllowedEmailDomains cfg) as [|x l]; [by left|right].
  destruct (extractEmailDomain ToLower email) as [d|?]; [|done].
  destruct (existsb _ _) eqn:Ee; [|done]. apply existsb_exists in Ee as (a & Ha & Hf).
  exists d, a. split_and!; [done|by apply list_elem_of_In|done].
Qed.

(** ** The provider of a login *)

(** A cached entry without its counters. *)
Definition uncounted (e : providerEntry) : providerEntry :=
  mkEntry (pe_cfgRow e) (pe_provider e) (pe_oauthConfig e) (pe_allowedAlgs e) (pe_issParamSupported e) None 0 "" 0.

(** The entry was made from the stored row of the provider and what its issuer's discovery gave. *)
Definition loaded_from (d : OidcDB) (p : string) (e : providerEntry) : Prop :=
  ∃ cfg n disc algs iss secret,
    od_providers d !! p = Some cfg ∧ NewProvider n (op_IssuerURL cfg) = Ok disc ∧ ds_advertised disc = Ok (algs, iss) ∧
    decryptClientSecret (op_ClientSecretEncrypted cfg) (ov_encryptionKey s) = Ok secret ∧
    uncounted e = new_entry cfg disc secret iss.

Lemma load_provider_inv p w e w1 : load_provider s p w = (Ok e, w1) → loaded_from (w_db w) p e.
Proof.
  unfold load_provider. intros H. peel H g w2 Hg. destruct g as [cfg|?]; [|by apply ret_inv in H].
  unfold ProviderRepo.Get in Hg. peel Hg q w3 Hq. apply ret_inv in Hg; injection Hg; clear Hg; intros -> Hg.
  destruct q as [[x|]|?]; [|done|done]. injection Hg as <-. apply query_ok in Hq as [Hcfg _].
  peel H n w4 Hn. apply remote_inv in Hn as [n0 ->].
  destruct (NewProvider n0 (op_IssuerURL cfg)) as [disc|?] eqn:Ed; [|by apply ret_inv in H].
  destruct (ds_advertised disc) as [[algs iss]|?] eqn:Ea; [|by apply ret_inv in H].
  destruct (_ && _); [by apply ret_inv in H|].
  destruct (decryptClientSecret _ _) as [secret|?] eqn:Es; [|by apply ret_inv in H].
  apply ret_inv in H as [= -> ->]. exists cfg, n0, disc, algs, iss, secret. by split_and!.
Qed.

(** What happens between the consumption of the row and the user's table: time passes, and the
    provider rows and the other tables stay. *)
Definition idp_frame (w w' : World OidcDB) : Prop :=
  elapsed w w' ∧ od_providers (w_db w') = od_providers (w_db w) ∧ od_id (w_db w') = od_id (w_db w).
#[local] Instance idp_frame_preorder : PreOrder idp_frame.
Proof.
  split; [intros w; by split_and!|]. intros w1 w2 w3 (A1 & A2 & A3) (B1 & B2 & B3).
  split_and!; [by etransitivity|congruence..].
Qed.
#[local] Instance idp_frame_steady : Steady idp_frame.
Proof. intros w w' H1 H2. split_and!; [exact H2|by rewrite H1..]. Qed.

Lemma frame_get_db : wpres idp_frame get_db.
Proof. intros w. reflexivity. Qed.
Lemma frame_upd_cache f : wpres idp_frame (upd_cache f).
Proof. intros w. split_and!; [|done..]. unfold elapsed, upd_cache. cbn. reflexivity. Qed.
Lemma frame_remote {A} (f : N → A) : wpres idp_frame (remote f).
Proof. unfold remote. repeat wstep. Qed.
#[local] Hint Resolve frame_get_db frame_upd_cache frame_remote : certctl.

Lemma frame_getOrLoad p : wpres idp_frame (getOrLoad s p).
Proof. unfold getOrLoad, load_provider, ProviderRepo.Get. repeat wstep. Qed.
#[local] Hint Resolve frame_getOrLoad : certctl.
Lemma frame_RefreshKeys p : wpres idp_frame (RefreshKeys s p).
Proof. unfold RefreshKeys. repeat wstep. Qed.
#[local] Hint Resolve frame_RefreshKeys : certctl.
Lemma frame_verify_token p e raw : wpres idp_frame (verify_token s p e raw).
Proof. unfold verify_token, verify_with. repeat wstep. Qed.
Lemma frame_resolve_groups e t raw : wpres idp_frame (resolve_groups e t raw).
Proof. unfold resolve_groups, fetchUserinfoGroups. repeat wstep. Qed.

Lemma loaded_same d d' p e : od_providers d' = od_providers d → loaded_from d' p e → loaded_from d p e.
Proof. unfold loaded_from. by intros ->. Qed.

(** The entry comes from the cache, or is loaded and cached. *)
Lemma getOrLoad_inv p w e w1 : getOrLoad s p w = (Ok e, w1) →
  od_cache (w_db w) !! p = Some e ∨
  od_cache (w_db w) !! p = None ∧ loaded_from (w_db w) p e ∧ od_cache (w_db w1) !! p = Some e.
Proof.
  unfold getOrLoad. intros H. peel H d w2 Hd. injection Hd as <- <-.
  destruct (od_cache (w_db w) !! p) as [x|]; [left; by apply ret_inv in H as [= -> _]|right].
  peel H l w3 Hl. destruct l as [x|?]; [|by apply ret_inv in H]. apply load_provider_inv in Hl.
  peel H u w4 Hu. apply ret_inv in H as [= -> ->]. split; [done|]. split; [done|].
  injection Hu as _ <-. cbn. apply lookup_insert_eq.
Qed.

Lemma RefreshKeys_inv p w w1 : RefreshKeys s p w = (Ok tt, w1) →
  ∃ e, od_cache (w_db w1) !! p = Some e ∧ loaded_from (w_db w) p e.
Proof.
  unfold RefreshKeys. intros H. peel H u w2 Hu. injection Hu as _ <-. peel H g w3 Hg. destruct g as [e|?]; [|by apply ret_inv in H].
  peel H t w4 Ht. peel H v w5 Hv. apply ret_inv in H as [= ->].
  apply getOrLoad_inv in Hg as [Hc|(_ & Hl & Hc)]; [cbn in Hc; by rewrite lookup_delete_eq in Hc|].
  pose proof (now_db w3) as Hd. rewrite Ht in Hd. cbn in Hd. injection Hv as _ <-. cbn.
  exists (refreshed t e). split; [by rewrite lookup_alter_eq, Hd, Hc|exact Hl].
Qed.

(** A token is verified with the keys of the entry, or once more with those of the provider's row
    loaded anew. *)
Lemma verify_token_inv p entry raw w idt w' :
  verify_token s p entry raw w = (Ok idt, w') →
  ∃ n entry2, Verify n (pe_provider entry2) (op_ClientID (pe_cfgRow entry2)) (pe_allowedAlgs entry2) raw = Ok idt ∧
    (entry2 = entry ∨ loaded_from (w_db w) p entry2).
Proof.
  unfold verify_token, verify_with. intros H. peel H v w1 Hv.
  pose proof (frame_remote (λ n, Verify n (pe_provider entry) (op_ClientID (pe_cfgRow entry)) (pe_allowedAlgs entry) raw) w)
    as (_ & Hp1 & _). rewrite Hv in Hp1. cbn in Hp1. apply remote_inv in Hv as [n ->].
  destruct (Verify n _ _ _ raw) as [x|e] eqn:Ev.
  { apply ret_inv in H as [= -> ->]. exists n, entry. auto. }
  peel H r w2 Hr. apply ret_inv in H; injection H; clear H; intros -> H. destruct r as [y|e2]; [|by case_match]. injection H as ->.
  destruct (isKidMismatchError e); [|by apply ret_inv in Hr].
  peel Hr rr w3 Hrr. destruct rr as [[]|]; [|by apply ret_inv in Hr].
  apply RefreshKeys_inv in Hrr as (x & Hx & Hl).
  peel Hr g w4 Hg. destruct g as [entry2|?]; [|by apply ret_inv in Hr].
  apply remote_inv in Hr as [n2 Hn2]. exists n2, entry2. split; [done|]. right.
  apply getOrLoad_inv in Hg as [Hc|(Hc & _)]; [|congruence].
  assert (entry2 = x) as -> by congruence. by apply (loaded_same _ (w_db w1)).
Qed.

(** ** The rest of the login *)

(** Only a new user reaches the other tables: its id. *)
Lemma pres_upsertUser (R : relation IdentityDB) `{!PreOrder R} p sub e n f :
  (∀ g i, R i (id_set_users g i)) → pres (on_ids R) (upsertUser p sub e n f).
Proof.
  intros HR. unfold upsertUser, randomB64URL, UserRepo.GetByOIDCSubject, UserRepo.one_row, UserRepo.Update, UserRepo.Create.
  solve_pres; unfold on_ids; cbn; repeat case_match; cbn; try reflexivity. apply HR.
Qed.

Definition same_prelogin : relation IdentityDB := λ i i', id_prelogin i' = id_prelogin i.
#[local] Instance same_prelogin_preorder : PreOrder same_prelogin.
Proof. split; [by intros i|]. intros x y z. unfold same_prelogin. congruence. Qed.

Lemma prelogin_finish p cfg idt prof g ip ua : pres (on_ids same_prelogin) (finish_login s p cfg idt prof g ip ua).
Proof.
  assert (∀ p sub e n f, pres (on_ids same_prelogin) (upsertUser p sub e n f)) as Hu
    by (intros; by apply pres_upsertUser; [apply _|]).
  assert (∀ a ty, pres same_prelogin (SessionService.Create (ov_sessions s) a ty ip ua)) as Hc.
  { intros a ty. unfold SessionService.Create, KeyRepo.GetActive, SessionService.newOpaqueID, SessionService.newCSRFToken,
      SessionRepo.Create, readRand. repeat pres_step; by repeat case_match. }
  assert (∀ A (m : M AuthDB A), pres same_prelogin (zoom_auth m)) as Hz
    by (intros A m w; unfold zoom_auth; by destruct (m _)).
  unfold finish_login, MappingRepo.Map, run_hook, MintForUser.
  repeat first [apply Hu | apply pres_on_id, Hc | apply pres_on_id, Hz | pres_step].
Qed.

Lemma elapsed_on_id {A} (m : M IdentityDB A) : wpres elapsed m → wpres elapsed (on_id m).
Proof. intros H w. specialize (H (mkWorld (od_id (w_db w)) (w_env w))). unfold on_id. by destruct (m _). Qed.
Lemma elapsed_zoom_auth {A} (m : M AuthDB A) : wpres elapsed m → wpres elapsed (zoom_auth m).
Proof. intros H w. specialize (H (mkWorld (id_auth (w_db w)) (w_env w))). unfold zoom_auth. by destruct (m _). Qed.

(** The first-admin hook does not turn the clock back. *)
Definition hook_elapses : Prop := ∀ hook p g u, ov_hook s = Some hook → wpres elapsed (hook p g u).

Lemma elapsed_finish_login p cfg idt prof g ip ua : hook_elapses → wpres elapsed (finish_login s p cfg idt prof g ip ua).
Proof.
  intros Hh. assert (∀ gs rs u, wpres elapsed (run_hook s p gs rs u)) as Hk.
  { intros gs rs u. unfold run_hook. destruct (ov_hook s) as [hook|] eqn:Eh; [|apply wpres_ret, _].
    wstep; [by apply elapsed_on_id, elapsed_zoom_auth, Hh|]. repeat wstep. }
  assert (∀ a ty, wpres elapsed (SessionService.Create (ov_sessions s) a ty ip ua)) as Hc.
  { intros a ty. unfold SessionService.Create, KeyRepo.GetActive, SessionService.newOpaqueID, SessionService.newCSRFToken,
      SessionRepo.Create. repeat first [simple apply elapsed_exec | wstep]. }
  unfold finish_login, MappingRepo.Map, MintForUser, upsertUser, randomB64URL, UserRepo.GetByOIDCSubject, UserRepo.one_row,
    UserRepo.Update, UserRepo.Create.
  repeat first [apply Hk | apply elapsed_on_id, Hc | simple apply elapsed_exec | wstep].
Qed.

(** The two halves of a callback. *)
Lemma consume_row_inv enc cookie w h w1 : on_id (PreLogin.LookupAndConsume enc cookie) w = (Ok h, w1) →
  ∃ id row, cookie_of_row enc cookie id h (od_id (w_db w)) row ∧ clock w ≤ plr_AbsoluteExpiresAt row ∧
    id_prelogin (od_id (w_db w1)) !! id = None ∧ od_providers (w_db w1) = od_providers (w_db w) ∧
    od_cache (w_db w1) = od_cache (w_db w) ∧ clock w ≤ clock w1.
Proof.
  unfold on_id. pose proof (elapsed_LookupAndConsume enc cookie (mkWorld (od_id (w_db w)) (w_env w))) as [Hc _].
  destruct (PreLogin.LookupAndConsume _ _ _) as [r w2] eqn:El. intros [= -> <-]. cbn in *.
  apply LookupAndConsume_inv in El as (id & row & H1 & H2 & H3). exists id, row. rewrite H3. cbn.
  split_and!; try done. apply lookup_delete_eq.
Qed.

Lemma exchange_code_inv h entry code ip ua w r w' :
  exchange_code ToLower EqualFold Sum384 Sum512 s h entry code ip ua w = (Ok r, w') →
  ∃ token raw idt t,
    (∃ n, Exchange n (pe_oauthConfig entry) code (PreLogin.hs_verifier h) = Ok token) ∧ tk_IDToken token = Some raw ∧
    (∃ n entry2, Verify n (pe_provider entry2) (op_ClientID (pe_cfgRow entry2)) (pe_allowedAlgs entry2) raw = Ok idt ∧
       (entry2 = entry ∨ loaded_from (w_db w) (PreLogin.hs_providerID h) entry2)) ∧
    clock w ≤ t ∧ (hook_elapses → t ≤ clock w') ∧
    genuine_token (pe_cfgRow entry) token raw (PreLogin.hs_nonce h) t idt ∧
    (op_AllowedEmailDomains (pe_cfgRow entry) = [] ∨
     ∃ d a, extractEmailDomain ToLower (us_Email (cb_User r)) = Ok d ∧ a ∈ op_AllowedEmailDomains (pe_cfgRow entry) ∧
       EqualFold (TrimSpace a) d = true) ∧
    us_OIDCProviderID (cb_User r) = op_ID (pe_cfgRow entry) ∧ us_OIDCSubject (cb_User r) = it_Subject idt ∧
    us_DeactivatedAt (cb_User r) = None ∧ cb_RoleIDs r ≠ [] ∧
    session_minted (ov_sessions s) (us_ID (cb_User r)) (cb_CookieValue r) (cb_CSRFToken r) (od_id (w_db w')) ∧
    id_prelogin (od_id (w_db w')) = id_prelogin (od_id (w_db w)).
Proof.
  unfold exchange_code. intros H. peel H x w3 Hx.
  pose proof (frame_remote (λ n, Exchange n (pe_oauthConfig entry) code (PreLogin.hs_verifier h)) w) as F3.
  rewrite Hx in F3. cbn in F3. apply remote_inv in Hx as [n ->].
  destruct (Exchange n _ _ _) as [token|?] eqn:Hex; [|by apply ret_inv in H]. cbv zeta in H.
  case_bool_decide as Hraw; [by apply ret_inv in H|].
  destruct (tk_IDToken token) as [raw|] eqn:Hid; [|done]. cbn [default from_option id] in *.
  peel H v w4 Hv. pose proof (frame_verify_token (PreLogin.hs_providerID h) entry raw w3) as F4. rewrite Hv in F4. cbn in F4.
  destruct v as [idt|?]; [|by apply ret_inv in H]. apply verify_token_inv in Hv as (n2 & e2 & Hv & Hl).
  peel H t w5 Ht. destruct (now_clock w4) as (Hd5 & Hc5 & Hm5 & _). rewrite Ht in Hd5, Hc5, Hm5. cbn in Hd5, Hc5, Hm5.
  destruct (check_claims _ _ _ _ _ _ _ _) eqn:Hc; [by apply ret_inv in H|]. apply check_claims_genuine in Hc.
  destruct (it_profile idt) as [profile|?]; [|by apply ret_inv in H].
  destruct (it_raw idt) as [rawc|?]; [|by apply ret_inv in H].
  destruct (check_email _ _ _ _) eqn:He; [by apply ret_inv in H|]. apply check_email_ok in He.
  peel H gr w6 Hgr. pose proof (frame_resolve_groups entry token rawc w5) as F6. rewrite Hgr in F6. cbn in F6.
  destruct gr as [groups|?]; [|by apply ret_inv in H].
  pose proof (prelogin_finish (PreLogin.hs_providerID h) (pe_cfgRow entry) idt profile groups ip ua w6) as Hpl.
  pose proof (elapsed_finish_login (PreLogin.hs_providerID h) (pe_cfgRow entry) idt profile groups ip ua) as Hel.
  rewrite H in Hpl. cbn in Hpl. assert (hook_elapses → clock w6 ≤ clock w') as Hup.
  { intros Hh. destruct (Hel Hh w6) as [Hq _]. rewrite H in Hq. exact Hq. }
  apply finish_login_inv in H as (H1 & H2 & H3 & H4 & H5 & H6). rewrite <-H4 in He.
  destruct F3 as ((C3 & _ & _) & P3 & I3), F4 as ((C4 & _ & _) & P4 & I4), F6 as ((C6 & _ & _) & P6 & I6).
  exists token, raw, idt, t. split_and!; try done; [eauto| | | |].
  - exists n2, e2. split; [done|]. destruct Hl as [Hl|Hl]; [by left|right]. by apply (loaded_same _ (w_db w3)).
  - unfold clock in *. lia.
  - intros Hh. specialize (Hup Hh). unfold clock in *. lia.
  - unfold on_ids, same_prelogin in Hpl. congruence.
Qed.
End login.


(** An identity provider that hands the state and the nonce back, and puts the nonce in the
    token. *)
Definition toy_access : string := "at".
Definition toy_header : string := "eyJhbGciOiJSUzI1NiJ9".
Definition toy_token (nonce : string) : IDToken :=
  let sum := Sum256 toy_access in
  mkIDToken "https://idp.example" ["certctl"] "sub-1" (600 * 10 ^ 9) 0
    (Ok (mkExtra "" (b64_EncodeToString (str_take (len sum / 2) sum)) nonce))
    (Ok (mkProfileClaims "ann@example.org" "Ann" "ann"))
    (Ok (GroupClaim.CObject [("groups", GroupClaim.CArray [GroupClaim.CString "eng"])])).

Definition toy_idp : IdP := {|
  NewProvider := λ _ _, Ok (mkDiscovery 0 (Ok (["RS256"], true)) "");
  Verify := λ _ _ _ _ raw,
    match Split "." raw with [_; nonce; _] => Ok (toy_token nonce) | _ => Err (ErrMsg "malformed") end;
  Exchange := λ _ _ code _, Ok (mkToken toy_access (Some (toy_header +:+ "." +:+ code +:+ ".sig")));
  UserInfo := λ _ _ _, Err (ErrMsg "no userinfo");
  AuthCodeURL := λ _ state _ nonce, state +:+ "." +:+ nonce;
  GenerateVerifier := λ _, "ver"
|}.

Definition demo_secret : string :=
  match fst (EncryptIfKeySet (E:=toy_entropy) (C:=toy_ciphers) "secret" "passphrase" sealed_boot) with
  | Ok (b, _) => b
  | Err _ => ""
  end.
Definition demo_provider : OIDCProvider :=
  mkProvider "op-1" "t-default" "corp" "https://idp.example" "certctl" demo_secret "https://certctl/cb" "groups" "string-array"
    false ["openid"] ["Example.org"] 300 3600 true 0 0.
Definition demo_svc : OidcSvc := mkOidcSvc "passphrase" true true "t-default" sealed_service None.
Definition demo_db : OidcDB :=
  mkOidcDB (id_set_providers (λ _, {["op-1"]}) (w_db sealed_boot)) ∅ {["op-1" := demo_provider]}
    {["grm-1" := mkMapping "grm-1" "op-1" "eng" "r-viewer" "t-default" 0]} ∅.
Definition demo_begin : res (string * string * string) * World OidcDB :=
  HandleAuthRequest (E:=toy_entropy) (C:=toy_ciphers) (P:=toy_idp) demo_svc "op-1" "10.0.0.1" "ua"
    (mkWorld demo_db (w_env sealed_boot)).
(** The state and the nonce the identity provider was sent, and the cookie. *)
Definition demo_params : string * string * string :=
  match fst demo_begin with
  | Ok (url, cookie, _) => match Split "." url with [st; n] => (st, n, cookie) | _ => ("", "", "") end
  | Err _ => ("", "", "")
  end.
Definition demo_fold (a b : string) : bool := bool_decide (a = "Example.org" ∧ b = "example.org").
Notation demo_callback_run :=
  (HandleCallback (E:=toy_entropy) (C:=toy_ciphers) (P:=toy_idp) id demo_fold id id demo_svc demo_params.2 demo_params.1.2
    demo_params.1.1 "https://idp.example" "10.0.0.1" "ua" (snd demo_begin)).
Definition demo_callback : res CallbackResult * World OidcDB := demo_callback_run.
Definition demo_done : CallbackResult :=
  match fst demo_callback with
  | Ok r => r
  | Err _ => mkCallback (mkUser "" "" "" "" "" "" "" 0 None 0 0 None) [] "" ""
  end.


(** ** The roles of a login

    [MintForUser] gets the mapped roles and does not use them. *)
Definition same_auth : relation IdentityDB := λ i i', id_auth i' = id_auth i.
#[global] Instance same_auth_preorder : PreOrder same_auth.
Proof. split; [by intros i|]. intros x y z. unfold same_auth. congruence. Qed.

Section roles.
Context `{E : Entropy, C : Ciphers, P : IdP}.
Variable ToLower : string → string.
Variable EqualFold : string → string → bool.
Variables Sum384 Sum512 : string → string.
Variable s : OidcSvc.

Lemma same_auth_LookupAndConsume k c : pres same_auth (PreLogin.LookupAndConsume k c).
Proof.
  unfold PreLogin.LookupAndConsume, KeyRepo.Get, PreLogin.PreLoginRepository_LookupAndConsume.
  repeat pres_step; by repeat case_match.
Qed.

Lemma same_auth_Create sv a ty ip ua : pres same_auth (SessionService.Create sv a ty ip ua).
Proof.
  unfold SessionService.Create, KeyRepo.GetActive, SessionService.newOpaqueID, SessionService.newCSRFToken, SessionRepo.Create.
  solve_pres; by repeat case_match.
Qed.

Lemma pres_getOrLoad (R : relation IdentityDB) `{!PreOrder R} p : pres (on_ids R) (getOrLoad s p).
Proof. unfold getOrLoad, load_provider, ProviderRepo.Get. solve_pres. Qed.
Lemma pres_RefreshKeys (R : relation IdentityDB) `{!PreOrder R} p : pres (on_ids R) (RefreshKeys s p).
Proof. unfold RefreshKeys. pose proof (pres_getOrLoad R). solve_pres. Qed.
Lemma pres_verify_token (R : relation IdentityDB) `{!PreOrder R} p e raw : pres (on_ids R) (verify_token s p e raw).
Proof. unfold verify_token, verify_with. pose proof (pres_getOrLoad R). pose proof (pres_RefreshKeys R). solve_pres. Qed.
Lemma pres_resolve_groups (R : relation IdentityDB) `{!PreOrder R} e t raw : pres (on_ids R) (resolve_groups e t raw).
Proof. unfold resolve_groups, fetchUserinfoGroups. solve_pres. Qed.

Lemma same_auth_finish_login p cfg idt prof g ip ua :
  ov_hook s = None → pres (on_ids same_auth) (finish_login s p cfg idt prof g ip ua).
Proof.
  intros Hh. unfold finish_login, MappingRepo.Map, run_hook, MintForUser. rewrite Hh.
  pose proof same_auth_Create. assert (∀ p sub e n f, pres (on_ids same_auth) (upsertUser p sub e n f)) by
    (intros; by apply pres_upsertUser; [apply _|]). solve_pres.
Qed.

Lemma same_auth_HandleCallback c code st iss ip ua :
  ov_hook s = None → pres (on_ids same_auth) (HandleCallback ToLower EqualFold Sum384 Sum512 s c code st iss ip ua).
Proof.
  intros Hh. unfold HandleCallback, exchange_code. pose proof same_auth_LookupAndConsume.
  pose proof (pres_getOrLoad same_auth). pose proof (pres_verify_token same_auth).
  pose proof (pres_resolve_groups same_auth). pose proof same_auth_finish_login. solve_pres.
Qed.
End roles.

Lemma callback_roles `{E : Entropy, C : Ciphers, P : IdP} TL EF S3 S5 s cookie code state iss ip ua w r w' :
  HandleCallback TL EF S3 S5 s cookie code state iss ip ua w = (Ok r, w') → cb_RoleIDs r ≠ [].
Proof.
  unfold HandleCallback, exchange_code. intros H.
  repeat lazymatch type of H with
    | mbind _ _ _ = _ => let x := fresh "x" in let v := fresh "v" in let Hx := fresh "Hx" in peel H x v Hx
    | (let _ := _ in _) _ = _ => progress cbv zeta in H
    | (match ?x with _ => _ end) _ = _ => destruct x; try (by apply ret_inv in H)
    end.
  by apply finish_login_inv in H as (_ & _ & _ & _ & H & _).
Qed.

(** C39: The roles a login is given are never granted.  Without the first-admin hook
    [HandleCallback] writes nothing to the role tables and the audit log, whatever the groups of
    the token map to; so a user whose account holds no role before the login is refused every
    permission after it, although the login succeeded because its groups map to some role. *)
Theorem mapped_roles_never_granted `{E : Entropy, C : Ciphers, P : IdP} ToLower EqualFold Sum384 Sum512 s
    cookie code state iss ip ua w (Hhook : ov_hook s = None) :
  let '(r, w') := HandleCallback ToLower EqualFold Sum384 Sum512 s cookie code state iss ip ua w in
  id_auth (od_id (w_db w')) = id_auth (od_id (w_db w)) ∧
  ∀ c, r = Ok c → cb_RoleIDs c ≠ [] ∧
    ∀ te perm st sid v,
      (∀ ar, ar ∈ au_actor_roles (id_auth (od_id (w_db w))) → acr_ActorID ar ≠ us_ID (cb_User c)) →
      w_db v = id_auth (od_id (w_db w')) →
      fst (AuthService.CheckPermission (us_ID (cb_User c)) ActorTypeUser te perm st sid v) ≠ Ok true.
Proof.
  pose proof (same_auth_HandleCallback ToLower EqualFold Sum384 Sum512 s cookie code state iss ip ua Hhook w) as Hs.
  destruct (HandleCallback _ _ _ _ _ _ _ _ _ _ _ w) as [r w'] eqn:Hc. unfold on_ids, same_auth in Hs. cbn in Hs.
  split; [done|]. intros c ->. split.
  { by apply callback_roles in Hc. }
  intros te perm st sid v Hno Hv. pose proof (check_permission_spec (us_ID (cb_User c)) ActorTypeUser te perm st sid v) as H.
  destruct (AuthService.CheckPermission _ _ _ _ _ _ v) as [b v']. cbn. destruct H as (_ & _ & Hb & _). intros ->.
  destruct (proj1 (Hb true eq_refl) eq_refl) as (_ & ar & _ & _ & Har & _ & _ & Hid & _).
  rewrite Hv, Hs in Har. by apply (Hno ar).
Qed.

Lemma mapped_roles_never_granted_witness :
  cb_RoleIDs demo_done = ["r-viewer"] ∧
  fst (AuthService.CheckPermission (us_ID (cb_User demo_done)) ActorTypeUser "t-default" "certificates:read" ScopeTypeGlobal None
         (mkWorld (id_auth (od_id (w_db (snd demo_callback)))) (w_env (snd demo_callback)))) ≠ Ok true.
Proof.
  split; [vm_compute; reflexivity|].
  pose proof (mapped_roles_never_granted (E:=toy_entropy) (C:=toy_ciphers) (P:=toy_idp) id demo_fold id id demo_svc demo_params.2
              demo_params.1.2 demo_params.1.1 "https://idp.example" "10.0.0.1" "ua" (snd demo_begin) eq_refl) as H.
  assert (demo_callback_run = (Ok demo_done, snd demo_callback)) as Hok by (vm_compute; reflexivity).
  rewrite Hok in H. destruct H as [_ H]. destruct (H demo_done eq_refl) as [_ Hp].
  apply Hp; [|reflexivity].
  assert (au_actor_roles (id_auth (od_id (w_db (snd demo_begin)))) = []) as -> by (vm_compute; reflexivity).
  intros ar Har. exfalso. exact (not_elem_of_nil ar Har).
Defined.
