(* ===== verification/OidcApiFacts.v ===== *)
(** * Facts about the administration of logins (Oidc.v)

    No provider made through the API can start a login; a provider that was loaded does not
    follow its row; a password login in progress undoes a deactivation; and a password that was
    set is accepted. *)

From Stdlib Require Import ZArith Lia Ascii String.
From stdpp Require Import prelude gmap strings list sorting.
From S2P Require Import Prelude AuditTrail Store Transactions EnvLogic Rbac GoBytes KeyCrypto Identity AcmeWire Session SessionLife OidcStore Oidc OidcFacts.
Import Text Cookies OidcService.

(** ** Every call of the login surface *)
Inductive oidc_call :=
  | CCreateProvider (a : option Admin.Actor) (b : option Admin.ProviderRequest)
  | CUpdateProvider (a : option Admin.Actor) (id : string) (b : option Admin.ProviderRequest)
  | CDeleteProvider (a : option Admin.Actor) (id : string)
  | CRefreshProvider (a : option Admin.Actor) (id : string)
  | CJWKSStatus (id : string)
  | CAddGroupMapping (a : option Admin.Actor) (b : option Admin.MappingRequest)
  | CRemoveGroupMapping (a : option Admin.Actor) (id : string)
  | CDeactivate (a : option Admin.Actor) (id : string)
  | CReactivate (a : option Admin.Actor) (id : string)
  | CCreateUser (a : option Admin.Actor) (b : option (string * string * string))
  | CUpdatePassword (a : option Admin.Actor) (id : string) (b : option string)
  | CLogin (b : option (string * string)) (xff remote ua : string)
  | CAuthRequest (id ip ua : string)
  | CCallback (cookie code state iss ip ua : string).

Section calls.
Context `{E : Entropy, C : Ciphers, P : IdP, B : Bcrypt}.
Variable ToLower : string → string.
Variable EqualFold : string → string → bool.
Variables Sum384 Sum512 : string → string.
Variables ParseURL ValidateSafeURL : string → option error.
Variable uuid : N → string.
Variable s : OidcSvc.
Variable tenantID : string.

Definition run_oidc_call (c : oidc_call) : M OidcDB unit :=
  match c with
  | CCreateProvider a b => _ ← Admin.CreateProvider ToLower ParseURL ValidateSafeURL s tenantID a b; mret tt
  | CUpdateProvider a id b => _ ← Admin.UpdateProvider ToLower ParseURL ValidateSafeURL s a id b; mret tt
  | CDeleteProvider a id => _ ← Admin.DeleteProvider ToLower a id; mret tt
  | CRefreshProvider a id => _ ← Admin.RefreshProvider ToLower s a id; mret tt
  | CJWKSStatus id => _ ← JWKSStatus s id; mret tt
  | CAddGroupMapping a b => _ ← Admin.AddGroupMapping ToLower tenantID a b; mret tt
  | CRemoveGroupMapping a id => _ ← Admin.RemoveGroupMapping ToLower a id; mret tt
  | CDeactivate a id => _ ← Admin.Deactivate ToLower s a id; mret tt
  | CReactivate a id => _ ← Admin.Reactivate ToLower a id; mret tt
  | CCreateUser a b => _ ← Admin.CreateUser ToLower uuid a b; mret tt
  | CUpdatePassword a id b => _ ← Admin.UpdatePassword ToLower a id b; mret tt
  | CLogin b xff remote ua => _ ← Admin.Login ToLower s b xff remote ua; mret tt
  | CAuthRequest id ip ua => _ ← HandleAuthRequest s id ip ua; mret tt
  | CCallback cookie code state iss ip ua =>
      _ ← HandleCallback ToLower EqualFold Sum384 Sum512 s cookie code state iss ip ua; mret tt
  end.

Definition run_oidc_calls (cs : list oidc_call) : M OidcDB unit := for_each cs run_oidc_call.

(** ** No provider is enabled *)
Definition disabled (d : OidcDB) : Prop :=
  map_Forall (λ _ p, op_Enabled p = false) (od_providers d) ∧
  map_Forall (λ _ e, op_Enabled (pe_cfgRow e) = false) (od_cache d) ∧
  id_prelogin (od_id d) = ∅.

(** What else an operation writes does not matter. *)
Definition keeps_off : relation OidcDB := λ d d', disabled d → disabled d'.
#[local] Instance keeps_off_preorder : PreOrder keeps_off.
Proof. split; [by intros d H|]. intros x y z H1 H2 H. auto. Qed.

Lemma off_on_id {A} (m : M IdentityDB A) :
  pres (λ i i', id_prelogin i = ∅ → id_prelogin i' = ∅) m → pres keeps_off (on_id m).
Proof.
  intros H w (H1 & H2 & H3). unfold on_id. specialize (H (mkWorld (od_id (w_db w)) (w_env w))).
  destruct (m _) as [a w1]. by split_and!; cbn in *; auto.
Qed.

Lemma off_audit a at_ act cat rt ri det :
  pres keeps_off (RecordEventWithCategory (D:=OidcDB) ToLower a at_ act cat rt ri det).
Proof. apply (pres_RecordEventWithCategory ToLower keeps_off). intros d ev (H1 & H2 & H3). by split_and!. Qed.
Lemma off_recordAudit rt act a ri det : pres keeps_off (Admin.recordAudit ToLower rt act a ri det).
Proof. unfold Admin.recordAudit. pose proof off_audit. solve_pres. Qed.

Lemma off_users_update u : pres keeps_off (UserRepo.Update u).
Proof. unfold UserRepo.Update. solve_pres. intros Hd. by repeat case_match. Qed.
Lemma off_users_create u : pres keeps_off (UserRepo.Create u).
Proof. unfold UserRepo.Create. solve_pres. intros Hd. by repeat case_match. Qed.

Lemma off_providers_create p : op_Enabled p = false → pres keeps_off (ProviderRepo.Create p).
Proof.
  intros Hp. unfold ProviderRepo.Create. solve_pres. intros (H1 & H2 & H3). repeat case_match; try done.
  split_and!; [|done|done]. by apply map_Forall_insert_2.
Qed.
Lemma off_providers_update p : op_Enabled p = false → pres keeps_off (ProviderRepo.Update p).
Proof.
  intros Hp. unfold ProviderRepo.Update. solve_pres. intros (H1 & H2 & H3). repeat case_match; try done.
  split_and!; [|done|done]. by apply map_Forall_insert_2.
Qed.
Lemma off_providers_delete id : pres keeps_off (ProviderRepo.Delete id).
Proof.
  unfold ProviderRepo.Delete. solve_pres. intros (H1 & H2 & H3). repeat case_match; try done.
  split_and!; cbn; [by apply map_Forall_delete|done|]. rewrite H3. apply map_filter_empty.
Qed.
Lemma off_mappings_add m : pres keeps_off (MappingRepo.Add m).
Proof. unfold MappingRepo.Add. solve_pres. intros Hd. by repeat case_match. Qed.
Lemma off_mappings_remove id : pres keeps_off (MappingRepo.Remove id).
Proof. unfold MappingRepo.Remove. solve_pres. intros Hd. by repeat case_match. Qed.

(** A row that is read, and an entry that is loaded, is disabled. *)
Lemma provider_get_off id :
  hoare disabled (ProviderRepo.Get id) (λ r d, disabled d ∧ ∀ p, r = Ok p → op_Enabled p = false).
Proof.
  unfold ProviderRepo.Get. eapply hoare_bind.
  - apply (hoare_query _ _ _ (λ r d, disabled d ∧ ∀ p, r = Ok (Some p) → op_Enabled p = false)); [|done].
    intros d Hd. split; [done|]. intros p [= Hp]. destruct Hd as (H & _). exact (H _ _ Hp).
  - intros r. apply hoare_ret. intros d [Hd H]. split; [done|]. intros p. destruct r as [[x|]|e]; cbn; [|done|done].
    intros [= ->]. by apply H.
Qed.

Lemma load_provider_off id :
  hoare disabled (load_provider s id) (λ r d, disabled d ∧ ∀ e, r = Ok e → op_Enabled (pe_cfgRow e) = false).
Proof.
  unfold load_provider. eapply hoare_bind; [apply provider_get_off|]. intros [cfg|e]; apply hoare_given; intros Hcfg;
    [|by apply hoare_ret].
  specialize (Hcfg cfg eq_refl). apply hoare_bind with (λ _, disabled); [apply (pres_remote keeps_off)|].
  intros p. repeat case_match; apply hoare_ret; intros d Hd; split; try done. by intros x [= <-].
Qed.

Lemma getOrLoad_off id :
  hoare disabled (getOrLoad s id) (λ r d, disabled d ∧ ∀ e, r = Ok e → op_Enabled (pe_cfgRow e) = false).
Proof.
  unfold getOrLoad. intros w Hw. mrun. destruct (od_cache (w_db w) !! id) as [e|] eqn:Ee.
  - split; [done|]. intros x [= <-]. destruct Hw as (_ & H & _). exact (H _ _ Ee).
  - pose proof (load_provider_off id w Hw) as H. destruct (load_provider s id w) as [[e|e] w1]; cbn in *.
    + destruct H as [(H1 & H2 & H3) H]. split; [|by intros x [= <-]; apply H].
      split_and!; cbn; [done|apply map_Forall_insert_2; auto|done].
    + by destruct H.
Qed.

Lemma off_getOrLoad id : pres keeps_off (getOrLoad s id).
Proof. intros w Hw. apply (getOrLoad_off id w Hw). Qed.
Lemma off_upd_cache f :
  (∀ m, map_Forall (λ _ e, op_Enabled (pe_cfgRow e) = false) m → map_Forall (λ _ e, op_Enabled (pe_cfgRow e) = false) (f m)) →
  pres keeps_off (upd_cache f).
Proof. intros Hf w (H1 & H2 & H3). split_and!; cbn; [done|by apply Hf|done]. Qed.
Lemma off_RefreshKeys id : pres keeps_off (RefreshKeys s id).
Proof.
  unfold RefreshKeys. pose proof off_getOrLoad. solve_pres; apply off_upd_cache; intros m Hm.
  - by apply map_Forall_delete.
  - intros k e. rewrite lookup_alter_Some. intros [(-> & x & Hx & ->)|[_ He]]; [exact (Hm _ _ Hx)|exact (Hm _ _ He)].
Qed.

(** A disabled provider starts no login, so no cookie completes one. *)
Lemma auth_request_off id ip ua :
  hoare disabled (HandleAuthRequest s id ip ua) (λ r d, disabled d ∧ is_Ok r = false).
Proof.
  unfold HandleAuthRequest. eapply hoare_bind; [apply getOrLoad_off|]. intros [e|x]; apply hoare_given; intros He;
    [|by apply hoare_ret]. rewrite (He e eq_refl). by apply hoare_ret.
Qed.

Lemma repo_consume_off k c :
  hoare (λ i, id_prelogin i = ∅) (PreLogin.PreLoginRepository_LookupAndConsume k c)
    (λ r i, id_prelogin i = ∅ ∧ is_Ok r = false).
Proof.
  unfold PreLogin.PreLoginRepository_LookupAndConsume.
  apply hoare_bind with (λ r i, id_prelogin i = ∅ ∧ is_Ok r = false).
  - apply hoare_exec; intros i Hi; rewrite ?Hi, ?lookup_empty; done.
  - intros [row|e]; apply hoare_given; intros H; [done|]. by apply hoare_ret.
Qed.

Lemma consume_off k c :
  hoare (λ i, id_prelogin i = ∅) (PreLogin.LookupAndConsume k c) (λ r i, id_prelogin i = ∅ ∧ is_Ok r = false).
Proof.
  unfold PreLogin.LookupAndConsume, KeyRepo.Get. repeat first [eapply hoare_bind; [apply repo_consume_off|] | hkeep].
  intros [x|e]; apply hoare_given; intros H; [done|].
  apply hoare_ret. intros i Hi. by repeat case_match.
Qed.

Lemma callback_off c code st iss ip ua :
  hoare disabled (HandleCallback ToLower EqualFold Sum384 Sum512 s c code st iss ip ua) (λ r d, disabled d ∧ is_Ok r = false).
Proof.
  unfold HandleCallback. apply hoare_bind with (λ r d, disabled d ∧ is_Ok r = false).
  - intros w (H1 & H2 & H3). unfold on_id. pose proof (consume_off (ov_encryptionKey s) c (mkWorld (od_id (w_db w)) (w_env w)) H3) as H.
    by destruct (PreLogin.LookupAndConsume _ _ _) as [r w1]; destruct H.
  - intros [h|e]; apply hoare_given; intros H; [done|]. by apply hoare_ret.
Qed.

(** ** The other calls *)
Lemma off_randomB64 n : pres keeps_off (Admin.randomB64URLForHandler n).
Proof. unfold Admin.randomB64URLForHandler. solve_pres. Qed.
Lemma off_encrypt p : pres keeps_off (Admin.encryptClientSecret s p).
Proof. unfold Admin.encryptClientSecret, EncryptIfKeySet, Encrypt. solve_pres. Qed.
Lemma Validate_enabled p q :
  OidcDomain.OIDCProvider_Validate ParseURL ValidateSafeURL p = Ok q → op_Enabled q = op_Enabled p.
Proof. unfold OidcDomain.OIDCProvider_Validate. cbv zeta. repeat case_match; try done; by intros [= <-]. Qed.

Lemma off_CreateProvider a b :
  pres keeps_off (Admin.CreateProvider ToLower ParseURL ValidateSafeURL s tenantID a b).
Proof.
  unfold Admin.CreateProvider. pose proof off_encrypt. pose proof off_randomB64. pose proof off_recordAudit.
  repeat first [pres_step | simple apply off_providers_create | solve [eauto with certctl typeclass_instances]].
  by erewrite Validate_enabled by eassumption.
Qed.

Lemma off_UpdateProvider a id b : pres keeps_off (Admin.UpdateProvider ToLower ParseURL ValidateSafeURL s a id b).
Proof.
  unfold Admin.UpdateProvider. pose proof off_encrypt. pose proof off_recordAudit.
  destruct a as [a|]; [|apply pres_ret, _]. case_bool_decide; [apply pres_ret, _|].
  match goal with |- pres _ ?m => change (hoare disabled m (λ _, disabled)) end.
  eapply hoare_bind; [apply provider_get_off|]. intros [p|e]; apply hoare_given; intros Hp; [|by apply hoare_ret].
  specialize (Hp p eq_refl). match goal with |- hoare _ ?m _ => change (pres keeps_off m) end.
  repeat first [pres_step | simple apply off_providers_update | solve [eauto with certctl typeclass_instances]].
  all: by erewrite Validate_enabled by eassumption.
Qed.

Definition same_prelogin : relation IdentityDB := λ i i', id_prelogin i' = id_prelogin i.
#[local] Instance same_prelogin_preorder : PreOrder same_prelogin.
Proof. split; [by intros i|]. intros x y z. unfold same_prelogin. congruence. Qed.

Lemma off_same_prelogin {A} (m : M IdentityDB A) : pres same_prelogin m → pres keeps_off (on_id m).
Proof. intros H. apply off_on_id. intros w Hw. by rewrite (H w). Qed.

Lemma same_prelogin_Create sv a ty ip ua : pres same_prelogin (SessionService.Create sv a ty ip ua).
Proof.
  unfold SessionService.Create, KeyRepo.GetActive, SessionService.newOpaqueID, SessionService.newCSRFToken, SessionRepo.Create.
  solve_pres; by repeat case_match.
Qed.

Lemma same_prelogin_RevokeAll sv a ty : pres same_prelogin (SessionService.RevokeAllForActor ToLower sv a ty).
Proof.
  unfold SessionService.RevokeAllForActor, SessionRepo.RevokeAllForActor, SessionService.recordAudit.
  solve_pres; try done. all: by apply (pres_RecordEventWithCategory ToLower same_prelogin).
Qed.

Lemma off_session sv a ty ip ua : pres keeps_off (on_id (SessionService.Create sv a ty ip ua)).
Proof. apply off_same_prelogin, same_prelogin_Create. Qed.
Lemma off_revoke sv a ty : pres keeps_off (on_id (SessionService.RevokeAllForActor ToLower sv a ty)).
Proof. apply off_same_prelogin, same_prelogin_RevokeAll. Qed.

Ltac off := repeat first [ pres_step | simple apply off_recordAudit | simple apply off_users_update
  | simple apply off_users_create | simple apply off_providers_delete | simple apply off_mappings_add
  | simple apply off_mappings_remove | simple apply off_RefreshKeys | simple apply off_getOrLoad
  | simple apply off_session | simple apply off_revoke | simple apply off_randomB64
  | simple apply off_CreateProvider | simple apply off_UpdateProvider
  | solve [eauto with certctl typeclass_instances] ].

Lemma off_call c : pres keeps_off (run_oidc_call c).
Proof.
  destruct c; cbn [run_oidc_call].
  13: { apply pres_bind; [apply _| |intros; apply pres_ret, _]. intros w Hw. apply (auth_request_off _ _ _ w Hw). }
  13: { apply pres_bind; [apply _| |intros; apply pres_ret, _]. intros w Hw. apply (callback_off _ _ _ _ _ _ w Hw). }
  all: unfold Admin.DeleteProvider, Admin.RefreshProvider, JWKSStatus, Admin.AddGroupMapping,
    Admin.RemoveGroupMapping, Admin.Deactivate, Admin.Reactivate, Admin.CreateUser, LocalAuth.CreateUser,
    Admin.UpdatePassword, LocalAuth.UpdatePassword, Admin.Login, LocalAuth.Authenticate_local, LocalAuth.check_password,
    UserRepo.Get, UserRepo.GetByEmail, UserRepo.one_row; off.
Qed.

Lemma off_calls cs : pres keeps_off (run_oidc_calls cs).
Proof. unfold run_oidc_calls. repeat pres_step. apply off_call. Qed.
End calls.

(** C40: No provider made through the API can be used.  [CreateProvider] stores the row disabled
    and no call sets the flag, so from a deployment with no provider, after any calls of the
    provider, mapping, user and login handlers, every provider row is disabled, no
    [HandleAuthRequest] starts a login and no [HandleCallback] completes one. *)
Theorem api_providers_never_enabled `{E : Entropy, C : Ciphers, P : IdP, B : Bcrypt} TL EF S3 S5 PU VS uuid s tenant cs w
    (Hp : od_providers (w_db w) = ∅) (Hc : od_cache (w_db w) = ∅) (Hl : id_prelogin (od_id (w_db w)) = ∅) :
  let w' := snd (run_oidc_calls TL EF S3 S5 PU VS uuid s tenant cs w) in
  (∀ id p, od_providers (w_db w') !! id = Some p → op_Enabled p = false) ∧
  (∀ id ip ua, is_Ok (fst (HandleAuthRequest s id ip ua w')) = false) ∧
  (∀ cookie code state iss ip ua, is_Ok (fst (HandleCallback TL EF S3 S5 s cookie code state iss ip ua w')) = false).
Proof.
  intros w'. assert (disabled (w_db w')) as Hd.
  { apply (off_calls TL EF S3 S5 PU VS uuid s tenant cs w). split_and!; [rewrite Hp|rewrite Hc|done]; apply map_Forall_empty. }
  split_and!.
  - intros id p. by apply Hd.
  - intros id ip ua. by apply (auth_request_off s id ip ua w' Hd).
  - intros. by apply (callback_off TL EF S3 S5 s cookie code state iss ip ua w' Hd).
Qed.

(** bcrypt that keeps the password. *)
Definition toy_bcrypt : Bcrypt := {|
  GenerateFromPassword := λ _ p, Ok ("$" +:+ p);
  CompareHashAndPassword := λ h p, bool_decide (h = "$" +:+ p)
|}.
#[global] Instance toy_bcrypt_ok : BcryptOk toy_bcrypt.
Proof. intros n p h [= <-]. by apply bool_decide_eq_true_2. Qed.

Definition demo_admin : option Admin.Actor := Some (Admin.mkActor "u-admin" "User").
Definition demo_request : Admin.ProviderRequest :=
  Admin.mkProviderRequest "corp" "https://idp.example" "certctl" "secret" "https://certctl/cb" "" "" false ["openid"] [] 0 0.
Definition empty_oidc : OidcDB := mkOidcDB (w_db sealed_boot) ∅ ∅ ∅ ∅.
Definition demo_created : World OidcDB :=
  snd (run_oidc_calls (E:=toy_entropy) (C:=toy_ciphers) (P:=toy_idp) (B:=toy_bcrypt) id demo_fold id id (λ _, None) (λ _, None)
         (λ _, "uuid") demo_svc "t-default" [CCreateProvider demo_admin (Some demo_request)] (mkWorld empty_oidc (w_env sealed_boot))).

Lemma api_providers_never_enabled_witness :
  map op_Name (rows (od_providers (w_db demo_created))) = ["corp"] ∧
  is_Ok (fst (HandleAuthRequest (E:=toy_entropy) (C:=toy_ciphers) (P:=toy_idp) demo_svc
                (match map op_ID (rows (od_providers (w_db demo_created))) with [i] => i | _ => "" end) "10.0.0.1" "ua"
                demo_created)) = false.
Proof.
  split; [vm_compute; reflexivity|].
  apply (api_providers_never_enabled (E:=toy_entropy) (C:=toy_ciphers) (P:=toy_idp) (B:=toy_bcrypt) id demo_fold id id
           (λ _, None) (λ _, None) (λ _, "uuid") demo_svc "t-default" [CCreateProvider demo_admin (Some demo_request)]
           (mkWorld empty_oidc (w_env sealed_boot))); reflexivity.
Defined.

(** ** A loaded provider does not follow its row *)
Definition edits_provider (c : oidc_call) : bool :=
  match c with CCreateProvider _ _ | CUpdateProvider _ _ _ | CDeleteProvider _ _ => true | _ => false end.

Definition same_cache : relation OidcDB := λ d d', od_cache d' = od_cache d.
#[local] Instance same_cache_preorder : PreOrder same_cache.
Proof. split; [by intros d|]. intros x y z. unfold same_cache. congruence. Qed.

(** Creating, changing and deleting providers leaves the service's cache as it was: a login
    started afterwards uses the entry that was loaded before, whether the row has been changed,
    disabled or deleted since. *)
Theorem provider_edits_not_seen `{E : Entropy, C : Ciphers, P : IdP, B : Bcrypt} TL EF S3 S5 PU VS uuid s tenant cs p e w
    (Hcs : Forall (λ c, edits_provider c = true) cs) (He : od_cache (w_db w) !! p = Some e) :
  let w' := snd (run_oidc_calls TL EF S3 S5 PU VS uuid s tenant cs w) in getOrLoad s p w' = (Ok e, w').
Proof.
  intros w'. assert (od_cache (w_db w') = od_cache (w_db w)) as Hw.
  { unfold w'. clear w' He. revert w. induction Hcs as [|c cs Hc _ IH]; intros w; [done|]. unfold run_oidc_calls in *. cbn.
    unfold mbind, M_bind. destruct (run_oidc_call _ _ _ _ _ _ _ _ _ c w) as [u w1] eqn:Ec.
    rewrite IH. replace w1 with (snd (run_oidc_call TL EF S3 S5 PU VS uuid s tenant c w)) by (by rewrite Ec). clear Ec.
    revert w. match goal with |- ∀ w, od_cache (w_db (?m w).2) = _ => change (pres same_cache m) end.
    assert (∀ rt act a ri det, pres same_cache (Admin.recordAudit TL rt act a ri det)).
    { intros. unfold Admin.recordAudit. refine (pres_bind _ _ _ _ _); [|intros; apply pres_ret, _].
      by apply (pres_RecordEventWithCategory TL same_cache). }
    destruct c; try done; cbn [run_oidc_call].
    all: unfold Admin.CreateProvider, Admin.UpdateProvider, Admin.DeleteProvider, Admin.encryptClientSecret, EncryptIfKeySet,
      Encrypt, Admin.randomB64URLForHandler, ProviderRepo.Create, ProviderRepo.Update, ProviderRepo.Delete, ProviderRepo.Get;
      solve_pres; by repeat case_match. }
  unfold getOrLoad. mrun. by rewrite Hw, He.
Qed.

Definition demo_edit : Admin.ProviderRequest :=
  Admin.mkProviderRequest "corp" "https://idp.example" "other-client" "" "https://certctl/cb" "" "" false ["openid"] [] 0 0.
Definition demo_edited : World OidcDB :=
  snd (run_oidc_calls (E:=toy_entropy) (C:=toy_ciphers) (P:=toy_idp) (B:=toy_bcrypt) id demo_fold id id (λ _, None) (λ _, None)
         (λ _, "uuid") demo_svc "t-default" [CUpdateProvider demo_admin "op-1" (Some demo_edit)] (snd demo_begin)).

Lemma provider_edits_not_seen_witness :
  op_ClientID <$> od_providers (w_db demo_edited) !! "op-1" = Some "other-client" ∧
  ∃ e, op_ClientID (pe_cfgRow e) = "certctl" ∧
    getOrLoad (P:=toy_idp) (C:=toy_ciphers) demo_svc "op-1" demo_edited = (Ok e, demo_edited).
Proof.
  split; [vm_compute; reflexivity|].
  destruct (od_cache (w_db (snd demo_begin)) !! "op-1") as [e|] eqn:Ee; [|vm_compute in Ee; discriminate Ee].
  exists e. split.
  - assert ((λ e, op_ClientID (pe_cfgRow e)) <$> od_cache (w_db (snd demo_begin)) !! "op-1" = Some "certctl") as H
      by (vm_compute; reflexivity). rewrite Ee in H. by injection H.
  - apply (provider_edits_not_seen (E:=toy_entropy) (C:=toy_ciphers) (P:=toy_idp) (B:=toy_bcrypt) id demo_fold id id
             (λ _, None) (λ _, None) (λ _, "uuid") demo_svc "t-default" [CUpdateProvider demo_admin "op-1" (Some demo_edit)]
             "op-1" e (snd demo_begin)); [by repeat constructor|exact Ee].
Defined.

(** ** Password logins *)

(** Emails are unique in a tenant. *)
Definition sole_email (d : OidcDB) (row : User) : Prop :=
  ∀ id x, od_users d !! id = Some x → us_TenantID x = us_TenantID row → us_Email x = us_Email row → id = us_ID row.
Definition keyed_users (d : OidcDB) : Prop := map_Forall (λ id u, us_ID u = id) (od_users d).

Lemma of_email_true t e u : UserRepo.of_email t e u = true ↔ us_TenantID u = t ∧ us_Email u = e.
Proof. unfold UserRepo.of_email. by rewrite andb_true_iff, !bool_decide_eq_true. Qed.

(** With no failure, updating a user under its own email writes the row. *)
Lemma users_update_run u old w :
  no_faults (w_env w) → keyed_users (w_db w) → od_users (w_db w) !! us_ID u = Some old → us_Email u = us_Email old →
  sole_email (w_db w) old →
  let '(r, w') := UserRepo.Update u w in
  r = Ok tt ∧ no_faults (w_env w') ∧ ∃ t, w_db w' = set_userRows (<[us_ID u := UserRepo.written_row t old u]>) (w_db w).
Proof.
  intros Hf Hk Ho He Hs. unfold UserRepo.Update, mbind, M_bind.
  destruct (now_clock w) as (Hd & Ht & Hc & Hfw). destruct (now w) as [t w1]. cbn in *. unfold no_faults in *.
  rewrite exec_run by congruence. rewrite Hd, Ho. destruct (existsb _ _) eqn:Ee.
  { apply existsb_exists in Ee as (x & Hx & Hb). apply list_elem_of_In, elem_of_rows in Hx as [k Hx].
    apply andb_true_iff in Hb as [Hb Hm]. apply negb_true_iff, bool_decide_eq_false_1 in Hb.
    apply of_email_true in Hm as [H1 H2]. rewrite He in H2. pose proof (Hs _ _ Hx H1 H2) as Hi.
    destruct Hb. rewrite (Hk _ _ Hx), Hi. exact (Hk _ _ Ho). }
  cbn. split_and!; [done|congruence|]. by exists t.
Qed.

(** A password login in progress undoes a deactivation.  The row that [Authenticate] read is
    written back whole after the password has been compared; if the user was deactivated in
    between, the login succeeds and the user is active again. *)
Theorem login_undoes_deactivation `{B : Bcrypt} password u row w
    (Hf : no_faults (w_env w)) (Hk : keyed_users (w_db w)) (Hrow : od_users (w_db w) !! us_ID u = Some row)
    (Hread : us_DeactivatedAt u = None) (Hpw : CompareHashAndPassword (us_PasswordHash u) password = true)
    (Hemail : us_Email u = us_Email row) (Hsole : sole_email (w_db w) row) :
  let '(r, w') := LocalAuth.check_password password u w in
  is_Ok r = true ∧ ∃ row', od_users (w_db w') !! us_ID u = Some row' ∧ us_DeactivatedAt row' = None.
Proof.
  unfold LocalAuth.check_password. rewrite bool_decide_eq_true_2 by done. cbn. rewrite Hpw. cbn.
  unfold mbind, M_bind. destruct (now_clock w) as (Hd & Ht & Hc & Hfw). destruct (now w) as [t w1]. cbn in *.
  pose proof (users_update_run (LocalAuth.seen t u) row w1) as H. rewrite Hd in H. unfold no_faults in *.
  specialize (H ltac:(congruence) Hk Hrow Hemail Hsole). destruct (UserRepo.Update _ w1) as [r w2].
  destruct H as (-> & _ & t2 & Hw). split; [done|]. cbn. rewrite Hw. cbn. rewrite lookup_insert_eq. eauto.
Qed.

Definition demo_user : User := mkUser "u-1" "t-default" "ann@example.org" "Ann" "" "" "$password" 0 (Some "[]") 0 0 None.
Definition demo_users : World OidcDB := mkWorld (mkOidcDB (w_db sealed_boot) {["u-1" := demo_user]} ∅ ∅ ∅) (w_env sealed_boot).
Definition demo_deactivated : World OidcDB := snd (Admin.Deactivate id demo_svc demo_admin "u-1" demo_users).

Lemma singleton_sole i a p m c row : us_ID row = "u-1" → sole_email (mkOidcDB i {["u-1" := a]} p m c) row.
Proof. intros Hr k x Hx _ _. cbn in Hx. apply lookup_singleton_Some in Hx as [<- _]. by symmetry. Qed.

Lemma login_undoes_deactivation_witness :
  us_DeactivatedAt <$> od_users (w_db demo_deactivated) !! "u-1" = Some (Some 0) ∧
  ∃ row', od_users (w_db (snd (LocalAuth.check_password (B:=toy_bcrypt) "password" demo_user demo_deactivated))) !! "u-1"
          = Some row' ∧ us_DeactivatedAt row' = None.
Proof.
  split; [vm_compute; reflexivity|].
  destruct (od_users (w_db demo_deactivated) !! "u-1") as [row|] eqn:Er; [|vm_compute in Er; discriminate Er].
  pose proof (login_undoes_deactivation (B:=toy_bcrypt) "password" demo_user row demo_deactivated) as H.
  destruct (LocalAuth.check_password "password" demo_user demo_deactivated) as [r w']. apply H.
  - vm_compute. reflexivity.
  - unfold keyed_users. vm_compute in Er. injection Er as Er. assert (od_users (w_db demo_deactivated) = {["u-1" := row]}) as ->
      by (subst row; vm_compute; reflexivity). rewrite map_Forall_singleton. by subst row.
  - exact Er.
  - reflexivity.
  - reflexivity.
  - vm_compute in Er. injection Er as <-. reflexivity.
  - assert (us_ID row = "u-1") as Hi by (vm_compute in Er; injection Er as <-; reflexivity).
    intros k x Hx _ _. vm_compute in Er. injection Er as Er.
    assert (od_users (w_db demo_deactivated) = {["u-1" := row]}) as Hs by (subst row; vm_compute; reflexivity).
    rewrite Hs in Hx. apply lookup_singleton_Some in Hx as [<- _]. by symmetry.
Defined.

(** The row an email finds, where it is the only one. *)
Lemma email_found d row id :
  keyed_users d → od_users d !! id = Some row → sole_email d row →
  head (filter (λ u, UserRepo.of_email (us_TenantID row) (us_Email row) u = true) (rows (od_users d))) = Some row.
Proof.
  intros Hk Hr Hs. assert (us_ID row = id) as Hid by exact (Hk _ _ Hr).
  assert (row ∈ filter (λ u, UserRepo.of_email (us_TenantID row) (us_Email row) u = true) (rows (od_users d))) as Hin.
  { apply list_elem_of_filter. split; [by apply of_email_true|]. apply elem_of_rows. eauto. }
  destruct (filter _ _) as [|x l] eqn:Ef; [by apply elem_of_nil in Hin|]. cbn. f_equal.
  assert (x ∈ x :: l) as Hx by (by left). rewrite <-Ef in Hx. apply list_elem_of_filter in Hx as [Hm Hx].
  apply elem_of_rows in Hx as [k Hx]. apply of_email_true in Hm as [H1 H2].
  rewrite (Hs _ _ Hx H1 H2), Hid in Hx. congruence.
Qed.

Lemma UpdatePassword_inv `{B : Bcrypt} id password row w w1 :
  LocalAuth.UpdatePassword id password w = (Ok tt, w1) → no_faults (w_env w) → keyed_users (w_db w) →
  od_users (w_db w) !! id = Some row → sole_email (w_db w) row →
  (8 <= len password)%nat ∧ ∃ n hash t, GenerateFromPassword n password = Ok hash ∧
    w_db w1 = set_userRows (<[id := UserRepo.written_row t row (LocalAuth.with_hash hash row)]>) (w_db w).
Proof.
  intros Hset Hf Hk Hrow Hsole. assert (us_ID row = id) as Hid by exact (Hk _ _ Hrow). unfold LocalAuth.UpdatePassword in Hset.
  destruct (Nat.ltb (len password) 8) eqn:El; [by apply ret_inv in Hset|]. apply Nat.ltb_ge in El. split; [done|].
  unfold UserRepo.Get, UserRepo.one_row in Hset. peel Hset g w3 Hg. peel Hg q w4 Hq. rewrite query_run in Hq by exact Hf.
  injection Hq as <- <-. rewrite Hrow in Hg. apply ret_inv in Hg. injection Hg as -> ->.
  peel Hset h w5 Hh. unfold remote in Hh. peel Hh n w6 Hn. apply ret_inv in Hh. injection Hh; clear Hh; intros <- ->.
  assert (w_db w5 = w_db w ∧ no_faults (w_env w5)) as [Hd5 Hf5].
  { revert Hn. unfold fresh. intros [= _ <-]. by split. }
  destruct (GenerateFromPassword n password) as [hash|e] eqn:Egen; [|by apply ret_inv in Hset].
  peel Hset r w7 Hr. apply ret_inv in Hset. injection Hset; clear Hset; intros -> Hres.
  pose proof (users_update_run (LocalAuth.with_hash hash row) row w5) as H. cbn in H. rewrite Hd5, Hid in H.
  specialize (H Hf5 Hk Hrow eq_refl Hsole). rewrite Hr in H. destruct H as (_ & _ & t & Hw). by exists n, hash, t.
Qed.

(** A password that was set logs its user in.  After [UpdatePassword] has succeeded for an active
    user whose email is its own, [Authenticate] with that email and password returns the user, as
    long as the database answers. *)
Theorem password_set_accepted `{B : Bcrypt, !BcryptOk B} id password row w w1 w2
    (Hset : LocalAuth.UpdatePassword id password w = (Ok tt, w1))
    (Hf : no_faults (w_env w)) (Hk : keyed_users (w_db w)) (Hrow : od_users (w_db w) !! id = Some row)
    (Hact : us_DeactivatedAt row = None) (Hsole : sole_email (w_db w) row)
    (Hmail : us_Email row ≠ "" ∧ TrimSpace (us_Email row) = us_Email row)
    (Hdb : w_db w2 = w_db w1) (Hf2 : no_faults (w_env w2)) :
  ∃ u, fst (LocalAuth.Authenticate_local (us_TenantID row) (us_Email row) password w2) = Ok u ∧ us_ID u = id.
Proof.
  assert (us_ID row = id) as Hid by exact (Hk _ _ Hrow).
  destruct (UpdatePassword_inv _ _ _ _ _ Hset Hf Hk Hrow Hsole) as (El & n & hash & t & Egen & Hw).
  set (row' := UserRepo.written_row t row (LocalAuth.with_hash hash row)) in *.
  assert (keyed_users (w_db w2)) as Hk2.
  { rewrite Hdb, Hw. by apply map_Forall_insert_2. }
  assert (od_users (w_db w2) !! id = Some row') as Hr2 by (rewrite Hdb, Hw; apply lookup_insert_eq).
  assert (sole_email (w_db w2) row') as Hs2.
  { intros k x. rewrite Hdb, Hw. cbn. rewrite lookup_insert_Some. intros [[<- _]|[_ Hx]] H1 H2; [done|]. by eapply Hsole. }
  pose proof (email_found _ _ _ Hk2 Hr2 Hs2) as Hfound. cbn in Hfound.
  unfold LocalAuth.Authenticate_local. destruct Hmail as [Hne Htrim]. rewrite Htrim, !bool_decide_eq_false_2; cbn.
  2: { intros ->. cbn in El. lia. } 2: done.
  unfold UserRepo.GetByEmail, UserRepo.one_row, mbind, M_bind. rewrite query_run by exact Hf2. cbn. rewrite Hfound.
  unfold LocalAuth.check_password. rewrite bool_decide_eq_true_2 by done. cbn.
  rewrite (bcrypt_accepts n password hash Egen). cbn. unfold mbind, M_bind. destruct (now w2) as [t2 w3].
  destruct (UserRepo.Update _ w3) as [r w4]. eexists. split; [reflexivity|done].
Qed.

Definition demo_changed : res unit * World OidcDB := LocalAuth.UpdatePassword (B:=toy_bcrypt) "u-1" "longer-secret" demo_users.
Lemma password_set_accepted_witness :
  demo_changed = (Ok tt, snd demo_changed) ∧
  ∃ u, fst (LocalAuth.Authenticate_local (B:=toy_bcrypt) "t-default" "ann@example.org" "longer-secret" (snd demo_changed)) = Ok u ∧
    us_ID u = "u-1".
Proof.
  assert (demo_changed = (Ok tt, snd demo_changed)) as He by (vm_compute; reflexivity). split; [exact He|].
  apply (password_set_accepted (B:=toy_bcrypt) "u-1" "longer-secret" demo_user demo_users (snd demo_changed) (snd demo_changed)).
  - exact He.
  - vm_compute. reflexivity.
  - apply map_Forall_singleton. reflexivity.
  - apply lookup_singleton_eq.
  - reflexivity.
  - apply singleton_sole. reflexivity.
  - split; [discriminate|vm_compute; reflexivity].
  - reflexivity.
  - vm_compute. reflexivity.
Defined.
