(* ===== verification/Retention.v ===== *)
(** * Retention of personal data (src/internal/service/user_retention.go)

    [DeleteUserPII] scrubs one user and [PurgeDeactivatedUsers] the users deactivated long
    enough, over the user table of OidcStore.v and the sessions of Identity.v. *)

From Stdlib Require Import ZArith Lia Ascii String.
From stdpp Require Import prelude gmap strings list sorting.
From S2P Require Import Prelude AuditTrail Store Transactions EnvLogic Rbac GoBytes KeyCrypto Identity AcmeWire Session SessionFacts SessionLife OidcStore Oidc OidcFacts OidcApiFacts.
Import Text.

Module UserRetention.
Record UserRetentionService := mkRetention {
  ur_audit : bool;
  ur_retentionWindow : Z;
  ur_purgeBatchCap : Z
}.

Definition NewUserRetentionService (audit : bool) (retentionWindow purgeBatchCap : Z) : UserRetentionService :=
  mkRetention audit (if retentionWindow <=? 0 then 30 * 24 * 3600 * 10 ^ 9 else retentionWindow) purgeBatchCap.

Definition purgedEmail : string := "purged@redacted.local".

Definition hashed_subject (subject : string) : string :=
  if HasPrefix subject "sha256:" then subject else "sha256:" +:+ hex_EncodeToString (Sum256 subject).

(** The row [DeleteUserPII] writes back. *)
Definition scrubbed (u : User) : User :=
  mkUser (us_ID u) (us_TenantID u) purgedEmail "[purged]" (hashed_subject (us_OIDCSubject u)) (us_OIDCProviderID u)
    (us_PasswordHash u) (us_LastLoginAt u) (Some "[]") (us_CreatedAt u) (us_UpdatedAt u) (us_DeactivatedAt u).

Definition already_scrubbed (u : User) : bool := HasPrefix (us_OIDCSubject u) "sha256:" && HasPrefix (us_Email u) "purged@".

Section retention.
Variable ToLower : string → string.
Variable s : UserRetentionService.

Definition DeleteUserPII (userID : string) : M OidcDB (res unit) :=
  g ← UserRepo.Get userID;
  match g with
  | Err e => mret (Err (ErrWrap ("user_retention: load " +:+ userID) e))
  | Ok u =>
      _ ← on_id (SessionRepo.RevokeAllForActor (us_ID u) ActorTypeUser (us_TenantID u));
      r ← UserRepo.Update (scrubbed u);
      match r with
      | Err e => mret (Err (ErrWrap ("user_retention: update " +:+ userID) e))
      | Ok _ =>
          _ ← (if ur_audit s
               then _ ← RecordEventWithCategory ToLower "system" ActorTypeSystem "user.purge_pii" EventCategoryAuth "user" userID
                          [("retained_id", GStr userID); ("hashed_oidc_subject_set", GBool true)];
                    mret tt
               else mret tt);
          mret (Ok tt)
      end
  end.

(** The loop over the rows, with the index of the next one and the two counters. *)
Fixpoint purge_rows (i : Z) (purged failed : nat) (rows : list User) : M OidcDB (nat * nat) :=
  match rows with
  | [] => mret (purged, failed)
  | u :: rest =>
      if (0 <? ur_purgeBatchCap s) && (ur_purgeBatchCap s <=? i) then mret (purged, failed)
      else if already_scrubbed u then purge_rows (i + 1) purged failed rest
      else
        r ← DeleteUserPII (us_ID u);
        match r with
        | Err _ => purge_rows (i + 1) purged (S failed) rest
        | Ok _ => purge_rows (i + 1) (S purged) failed rest
        end
  end.

Definition PurgeDeactivatedUsers : M OidcDB (res (nat * nat)) :=
  t ← now;
  r ← UserRepo.ListDeactivatedBefore (t - ur_retentionWindow s);
  match r with
  | Err e => mret (Err (ErrWrap "user_retention: list deactivated" e))
  | Ok rows => c ← purge_rows 0 0 0 rows; mret (Ok c)
  end.
End retention.
End UserRetention.
Import UserRetention.

(** ** What a purge leaves in the table *)
Definition same_subjects : relation OidcDB := λ d d', us_OIDCSubject <$> od_users d' = us_OIDCSubject <$> od_users d.
#[local] Instance same_subjects_preorder : PreOrder same_subjects.
Proof. split; [by intros d|]. intros x y z. unfold same_subjects. congruence. Qed.

Lemma subjects_update u : pres same_subjects (UserRepo.Update u).
Proof.
  unfold UserRepo.Update. solve_pres. unfold same_subjects. destruct (od_users d !! us_ID u) as [old|] eqn:Eo; [|done].
  case_match; [done|]. cbn. rewrite fmap_insert. apply insert_id. by rewrite lookup_fmap, Eo.
Qed.

Lemma users_on_id {A} (R : relation OidcDB) (m : M IdentityDB A) :
  (∀ d d', od_users d' = od_users d → R d d') → pres R (on_id m).
Proof. intros HR w. apply HR. unfold on_id. by destruct (m _) as [a w1]. Qed.

Lemma subjects_DeleteUserPII TL s id : pres same_subjects (DeleteUserPII TL s id).
Proof.
  unfold DeleteUserPII, UserRepo.Get, UserRepo.one_row. pose proof subjects_update.
  assert (∀ a b c, pres same_subjects (on_id (SessionRepo.RevokeAllForActor a b c))).
  { intros. apply users_on_id. unfold same_subjects. by intros d d' ->. }
  assert (∀ a at_ act cat rt ri det, pres same_subjects (RecordEventWithCategory (D:=OidcDB) TL a at_ act cat rt ri det)).
  { intros. by apply (pres_RecordEventWithCategory TL same_subjects). }
  solve_pres.
Qed.

Lemma subjects_purge_rows TL s l : ∀ i p f, pres same_subjects (purge_rows TL s i p f l).
Proof.
  pose proof (subjects_DeleteUserPII TL s). induction l as [|u l IH]; intros i p f; cbn; solve_pres.
Qed.

(** A purge does not remove the subject.  [DeleteUserPII] replaces the IdP's identifier of the
    user with its hash, but the statement of the repository does not write the column: whatever
    [PurgeDeactivatedUsers] does, every row keeps the subject it had. *)
Theorem purge_keeps_subject TL s w :
  us_OIDCSubject <$> od_users (w_db (snd (PurgeDeactivatedUsers TL s w))) = us_OIDCSubject <$> od_users (w_db w).
Proof.
  revert w. change (pres same_subjects (PurgeDeactivatedUsers TL s)).
  unfold PurgeDeactivatedUsers, UserRepo.ListDeactivatedBefore. pose proof (subjects_purge_rows TL s). solve_pres.
Qed.

Section purge.
Variable TL : string → string.
Variable s : UserRetentionService.
Variable m : gmap string User.
Implicit Types d : OidcDB.
Notation table := (λ d, od_users d = m).

Lemma get_row id : hoare table (UserRepo.Get id) (λ r d, od_users d = m ∧ ∀ u, r = Ok u → m !! id = Some u).
Proof.
  unfold UserRepo.Get, UserRepo.one_row. eapply hoare_bind.
  - apply (hoare_query _ _ _ (λ r d, od_users d = m ∧ ∀ u, r = Ok (Some u) → m !! id = Some u)); [|done].
    intros d <-. split; [done|]. by intros u [= ->].
  - intros r. apply hoare_ret. intros d [Hd H]. split; [done|]. intros u. destruct r as [[x|]|e]; [|done|done].
    intros [= ->]. by apply H.
Qed.

Lemma hoare_users_on_id {A} (f : M IdentityDB A) : hoare table (on_id f) (λ _ d, od_users d = m).
Proof. intros w Hw. unfold on_id. by destruct (f _) as [a w1]. Qed.

Lemma hoare_users_audit a at_ act cat rt ri det (P : OidcDB → Prop) :
  (∀ d d', od_users d' = od_users d → P d → P d') → hoare P (RecordEventWithCategory (D:=OidcDB) TL a at_ act cat rt ri det) (λ _, P).
Proof.
  intros HP w Hw. revert Hw. apply HP. revert w. change (pres (λ d d', od_users d' = od_users d) (RecordEventWithCategory (D:=OidcDB) TL a at_ act cat rt ri det)).
  assert (PreOrder (λ d d', od_users d' = od_users d)) as Hpre by (split; [by intros d|]; intros x y z; congruence).
  by apply (pres_RecordEventWithCategory TL (λ d d', od_users d' = od_users d)).
Qed.

(** An email another user of the tenant has cannot be written. *)
Lemma update_refused u old k x :
  m !! us_ID u = Some old → m !! k = Some x → us_ID x ≠ us_ID u → us_TenantID x = us_TenantID old → us_Email x = us_Email u →
  hoare table (UserRepo.Update u) (λ r d, od_users d = m ∧ is_Ok r = false).
Proof.
  intros Ho Hx Hne Ht He. unfold UserRepo.Update. hkeep; [hkeep|].
  assert (∀ d, od_users d = m → existsb (λ x, negb (bool_decide (us_ID x = us_ID u)) &&
      UserRepo.of_email (us_TenantID old) (us_Email u) x) (rows (od_users d)) = true) as Hb.
  { intros d ->. apply existsb_exists. exists x. split; [apply list_elem_of_In, elem_of_rows; eauto|].
    rewrite bool_decide_eq_false_2 by done. by apply of_email_true. }
  apply hoare_exec; intros d Hd; specialize (Hb d Hd); rewrite ?Hd in *; rewrite ?Ho, ?Hb; done.
Qed.

Lemma purge_refused id u k x :
  m !! id = Some u → us_ID u = id → m !! k = Some x → us_ID x ≠ id → us_TenantID x = us_TenantID u → us_Email x = purgedEmail →
  hoare table (DeleteUserPII TL s id) (λ r d, od_users d = m ∧ is_Ok r = false).
Proof.
  intros Hu Hid Hx Hne Ht He. unfold DeleteUserPII. eapply hoare_bind; [apply get_row|].
  intros [v|e]; apply hoare_given; intros Hv; [|by apply hoare_ret].
  specialize (Hv v eq_refl). assert (v = u) as -> by congruence.
  apply hoare_bind with (λ _, table); [apply hoare_users_on_id|]. intros _.
  eapply hoare_bind; [apply (update_refused (scrubbed u) u k x); cbn; try congruence|].
  intros [v|e]; apply hoare_given; intros Hr; [done|]. by apply hoare_ret.
Qed.

(** A purge that succeeds has written the row. *)
Lemma purge_written id u :
  m !! id = Some u → us_ID u = id →
  hoare table (DeleteUserPII TL s id)
    (λ r d, r = Ok tt → ∃ t, od_users d = <[id := UserRepo.written_row t u (scrubbed u)]> m).
Proof.
  intros Hu Hid. unfold DeleteUserPII. eapply hoare_bind; [apply get_row|].
  intros [v|e]; apply hoare_given; intros Hv; [|by apply hoare_ret]. specialize (Hv v eq_refl). assert (v = u) as -> by congruence.
  apply hoare_bind with (λ _, table); [apply hoare_users_on_id|]. intros _.
  set (W := λ d, ∃ t, od_users d = <[id := UserRepo.written_row t u (scrubbed u)]> m).
  apply hoare_bind with (λ r d, r = Ok tt → W d).
  - unfold UserRepo.Update. hkeep; [hkeep|]. apply hoare_exec; intros d Hd; try done.
    rewrite Hd. cbn. rewrite Hid, Hu. case_match; cbn; [done|]. intros _. exists a. cbn. by rewrite Hd.
  - intros [[]|e]; [|by apply hoare_ret]. apply hoare_bind with (λ _, W).
    + apply hoare_conseq with (P' := W) (Q' := λ _, W); [|intros d H; by apply H|done]. case_match; [|by apply hoare_ret].
      hkeep; [|by apply hoare_ret]. apply hoare_users_audit. intros d d' E [t Ht]. exists t. congruence.
    + intros _. apply hoare_ret. auto.
Qed.
End purge.

(** Only one user of a tenant can be purged.  Every purged row gets the same email, and emails
    are unique in a tenant: once a purge has succeeded, the purge of any other user of the tenant
    is refused, whatever the environment does, and leaves the user's data as it was. *)
Theorem one_purge_per_tenant TL s a b ua ub w w1 w2
    (Hk : keyed_users (w_db w)) (Ha : od_users (w_db w) !! a = Some ua) (Hb : od_users (w_db w) !! b = Some ub)
    (Hab : a ≠ b) (Ht : us_TenantID ua = us_TenantID ub)
    (Hok : DeleteUserPII TL s a w = (Ok tt, w1)) (H2 : w_db w2 = w_db w1) :
  let '(r, w3) := DeleteUserPII TL s b w2 in
  is_Ok r = false ∧ od_users (w_db w3) = od_users (w_db w1) ∧ od_users (w_db w3) !! b = Some ub.
Proof.
  pose proof (purge_written TL s _ a ua Ha (Hk _ _ Ha) w eq_refl) as H. rewrite Hok in H.
  destruct (H eq_refl) as [t Hw]. cbn in Hw.
  assert (od_users (w_db w1) !! b = Some ub) as Hb1 by (rewrite Hw; by rewrite lookup_insert_ne).
  pose proof (purge_refused TL s _ b ub a (UserRepo.written_row t ua (scrubbed ua)) Hb1 (Hk _ _ Hb)) as Hr.
  rewrite Hw, lookup_insert_eq in Hr. cbn in Hr. rewrite (Hk _ _ Ha) in Hr.
  specialize (Hr eq_refl Hab Ht eq_refl w2). rewrite <-Hw in Hr. destruct (DeleteUserPII TL s b w2) as [r w3]. cbn in *.
  destruct Hr as [Hr1 Hr2]; [by rewrite H2|]. by rewrite Hr1.
Qed.

(** ** Whom a purge touches *)
Definition touches (ids : list string) : relation OidcDB :=
  λ d d', keyed_users d → keyed_users d' ∧ ∀ id, id ∉ ids → od_users d' !! id = od_users d !! id.
#[local] Instance touches_preorder ids : PreOrder (touches ids).
Proof.
  split; [by intros d|]. intros x y z H1 H2 Hx. destruct (H1 Hx) as [Hy E1]. destruct (H2 Hy) as [Hz E2].
  split; [done|]. intros id Hid. by rewrite E2, E1.
Qed.

Lemma touches_update ids u : us_ID u ∈ ids → pres (touches ids) (UserRepo.Update u).
Proof.
  intros Hid. unfold UserRepo.Update. solve_pres. intros Hk. destruct (od_users d !! us_ID u) as [old|] eqn:Eo; [|done].
  case_match; [done|]. cbn. split.
  - apply map_Forall_insert_2; [|done]. exact (Hk _ _ Eo).
  - intros k Hin. apply lookup_insert_ne. by intros <-.
Qed.

Lemma touches_same ids d d' : od_users d' = od_users d → touches ids d d'.
Proof. intros E Hk. unfold keyed_users. by rewrite E. Qed.

(** The row that is read is the user's. *)
Lemma get_id (P : OidcDB → Prop) id :
  (∀ d, P d → keyed_users d) → hoare P (UserRepo.Get id) (λ r d, P d ∧ ∀ u, r = Ok u → us_ID u = id).
Proof.
  intros HP. unfold UserRepo.Get, UserRepo.one_row. eapply hoare_bind.
  - apply (hoare_query _ _ _ (λ r d, P d ∧ ∀ u, r = Ok (Some u) → us_ID u = id)); [|done].
    intros d Hd. split; [done|]. intros u [= Hu]. exact (HP d Hd _ _ Hu).
  - intros r. apply hoare_ret. intros d [Hd H]. split; [done|]. intros u. destruct r as [[x|]|e]; [|done|done].
    intros [= ->]. by apply H.
Qed.

Lemma touches_DeleteUserPII TL s ids id : id ∈ ids → pres (touches ids) (DeleteUserPII TL s id).
Proof.
  intros Hid w Hw. set (P := λ d, keyed_users d ∧ ∀ k, k ∉ ids → od_users d !! k = od_users (w_db w) !! k).
  assert (hoare P (DeleteUserPII TL s id) (λ _, P)) as H; [|by apply H].
  unfold DeleteUserPII. eapply hoare_bind; [apply get_id; by intros d []|].
  intros [u|e]; apply hoare_given; intros Hu; [|by apply hoare_ret]. specialize (Hu u eq_refl).
  match goal with |- hoare _ ?f _ => assert (pres (touches ids) f) as Hf end.
  - pose proof (touches_update ids (scrubbed u)) as Hup. cbn in Hup. rewrite Hu in Hup. specialize (Hup Hid).
    assert (∀ a b c, pres (touches ids) (on_id (SessionRepo.RevokeAllForActor a b c))) by (intros; apply users_on_id, touches_same).
    assert (∀ a at_ act cat rt ri det, pres (touches ids) (RecordEventWithCategory (D:=OidcDB) TL a at_ act cat rt ri det)).
    { intros. apply (pres_RecordEventWithCategory TL (touches ids)). intros d ev. by apply touches_same. }
    solve_pres.
  - intros v [Hk Hv]. destruct (Hf v Hk) as [Hk' Hv']. split; [done|]. intros k Hin. by rewrite Hv', Hv.
Qed.

Lemma touches_purge_rows TL s ids l : Forall (λ u, us_ID u ∈ ids) l → ∀ i p f, pres (touches ids) (purge_rows TL s i p f l).
Proof.
  induction 1 as [|u l Hu _ IH]; intros i p f; cbn; [apply pres_ret, _|].
  pose proof (touches_DeleteUserPII TL s ids (us_ID u) Hu). solve_pres.
Qed.

Lemma purge_rows_bounded TL s l : ∀ i p f w, 0 < ur_purgeBatchCap s → Z.of_nat (p + f) ≤ i ≤ ur_purgeBatchCap s →
  let '(p', f') := fst (purge_rows TL s i p f l w) in Z.of_nat (p' + f') ≤ ur_purgeBatchCap s.
Proof.
  induction l as [|u l IH]; intros i p f w Hc Hi; cbn; [lia|].
  destruct ((0 <? ur_purgeBatchCap s) && (ur_purgeBatchCap s <=? i)) eqn:Eb; [cbn; lia|].
  destruct (already_scrubbed u); [apply IH; lia|]. unfold mbind, M_bind.
  destruct (DeleteUserPII TL s (us_ID u) w) as [[v|e] w1]; apply IH; lia.
Qed.

Lemma users_query_cases {D A} op (f : D → A) (w : World D) :
  ∃ r w', sql_query op f w = (r, w') ∧ w_db w' = w_db w ∧ (r = Ok (f (w_db w)) ∨ ∃ e, r = Err e).
Proof. mrun. destruct (env_faults (w_env w)) as [|[| |]]; cbn; eexists _, _; split_and!; eauto. Qed.

(** A purge touches only users whose retention period is over.  A row that
    [PurgeDeactivatedUsers] changes was deactivated longer ago than the retention window when the
    call started, and one call purges at most as many users as the batch cap says. *)
Theorem purge_scope TL s w (Hk : keyed_users (w_db w)) :
  let '(r, w') := PurgeDeactivatedUsers TL s w in
  (∀ id u, od_users (w_db w) !! id = Some u → od_users (w_db w') !! id = Some u ∨
     ∃ td, us_DeactivatedAt u = Some td ∧ td < fst (now w) - ur_retentionWindow s) ∧
  (∀ p f, r = Ok (p, f) → 0 < ur_purgeBatchCap s → Z.of_nat (p + f) ≤ ur_purgeBatchCap s).
Proof.
  unfold PurgeDeactivatedUsers, UserRepo.ListDeactivatedBefore, mbind, M_bind.
  destruct (now_clock w) as (Hd & _ & _ & _). destruct (now w) as [t w1]. cbn in Hd |- *.
  set (q := λ d, merge_sort _ _). assert (∀ u, u ∈ q (w_db w1) → us_ID u ∈ map us_ID (q (w_db w1))) as Hids.
  { intros u Hu. by apply list_elem_of_fmap_2. }
  assert (∀ id u, od_users (w_db w) !! id = Some u → id ∈ map us_ID (q (w_db w1)) →
    ∃ td, us_DeactivatedAt u = Some td ∧ td < t - ur_retentionWindow s) as Hdue.
  { intros id u Hu (x & -> & Hx)%list_elem_of_fmap. subst q. cbn in Hx. rewrite merge_sort_Permutation in Hx.
    apply list_elem_of_filter in Hx as [Hb Hx]. apply elem_of_rows in Hx as [k Hx]. rewrite Hd in Hx.
    rewrite (Hk _ _ Hx) in Hu. assert (x = u) as -> by congruence.
    destruct (us_DeactivatedAt u) as [td|]; [|done]. exists td. split; [done|]. lia. }
  destruct (users_query_cases "users list_deactivated_before" q w1) as (r & w2 & -> & Hd2 & [->|[e ->]]).
  2: { split; [|done]. intros id u Hu. left. cbn. by rewrite Hd2, Hd. }
  pose proof (touches_purge_rows TL s (map us_ID (q (w_db w1))) (q (w_db w1))) as Hrows.
  specialize (Hrows ltac:(by apply Forall_forall) 0 0%nat 0%nat w2).
  pose proof (purge_rows_bounded TL s (q (w_db w1)) 0 0 0 w2) as Hbound.
  destruct (purge_rows TL s 0 0 0 (q (w_db w1)) w2) as [[p f] w3]. cbn in *.
  destruct Hrows as [_ Hsame]; [by rewrite Hd2, Hd|]. split.
  - intros id u Hu. destruct (decide (id ∈ map us_ID (q (w_db w1)))) as [Hin|Hin]; [by right; eapply Hdue|].
    left. rewrite Hsame by done. by rewrite Hd2, Hd.
  - intros p' f' [= <- <-] Hc. apply Hbound; lia.
Qed.

(** Two users deactivated at the start, forty days later: one is purged, the other refused, and
    every further run does the same. *)
Definition retired_user (id email : string) : User :=
  mkUser id "t-default" email "Name" ("subject of " +:+ id) "op-1" "" 0 (Some "[]") 0 0 (Some 0).
Definition retired_db : OidcDB :=
  mkOidcDB empty_identity {["u-1" := retired_user "u-1" "ann@example.org"; "u-2" := retired_user "u-2" "bob@example.org"]} ∅ ∅ ∅.
Definition forty_days : Z := 40 * 24 * 3600 * 10 ^ 9.
Definition demo_retention : UserRetentionService := NewUserRetentionService false 0 200.
Definition retired_world : World OidcDB := mkWorld retired_db (mkEnv forty_days [] [] 0).

Example retention_run :
  let '(r1, w1) := PurgeDeactivatedUsers id demo_retention retired_world in
  let '(r2, w2) := PurgeDeactivatedUsers id demo_retention w1 in
  (r1, r2, us_OIDCSubject <$> od_users (w_db w2) !! "u-1", us_Email <$> od_users (w_db w2) !! "u-2")
  = (Ok (1, 1)%nat, Ok (1, 1)%nat, Some "subject of u-1", Some "bob@example.org").
Proof. vm_compute. reflexivity. Qed.

Lemma one_purge_per_tenant_witness :
  is_Ok (fst (DeleteUserPII id demo_retention "u-1" retired_world)) = true ∧
  is_Ok (fst (DeleteUserPII id demo_retention "u-2" (snd (DeleteUserPII id demo_retention "u-1" retired_world)))) = false.
Proof.
  split; [vm_compute; reflexivity|].
  pose proof (one_purge_per_tenant id demo_retention "u-1" "u-2" (retired_user "u-1" "ann@example.org")
    (retired_user "u-2" "bob@example.org") retired_world (snd (DeleteUserPII id demo_retention "u-1" retired_world))
    (snd (DeleteUserPII id demo_retention "u-1" retired_world))) as H.
  destruct (DeleteUserPII id demo_retention "u-2" (snd (DeleteUserPII id demo_retention "u-1" retired_world))) as [r w3].
  apply H; try reflexivity; [|discriminate].
  apply map_Forall_insert_2; [reflexivity|]. apply map_Forall_singleton. reflexivity.
Defined.

Lemma purge_scope_witness :
  fst (PurgeDeactivatedUsers id demo_retention retired_world) = Ok (1, 1)%nat ∧
  let '(r, w') := PurgeDeactivatedUsers id demo_retention retired_world in
  ∀ i u, od_users (w_db retired_world) !! i = Some u → od_users (w_db w') !! i = Some u ∨
    ∃ td, us_DeactivatedAt u = Some td ∧ td < fst (now retired_world) - ur_retentionWindow demo_retention.
Proof.
  split; [vm_compute; reflexivity|].
  pose proof (purge_scope id demo_retention retired_world) as H.
  destruct (PurgeDeactivatedUsers id demo_retention retired_world) as [r w']. apply H.
  apply map_Forall_insert_2; [reflexivity|]. apply map_Forall_singleton. reflexivity.
Defined.
