(* ===== verification/Scheduler.v ===== *)
(** * The scheduler (src/internal/scheduler/scheduler.go)

    Every loop of the scheduler is the same program over different services: a goroutine that
    waits for ticks and, unless the previous run is still going, starts a worker goroutine that
    calls the services.  [LoopCode] is what distinguishes them, with one definition per function
    of the source; [sched_step] is one step of one of the goroutines, from [Start] to
    [WaitForCompletion].  What the services do is modelled in the files of their components; here
    the return of a call is an event that may or may not come.  The ticks of the jittered tickers come at any time. *)

From Stdlib Require Import ZArith Lia.
From stdpp Require Import prelude strings list.
From S2P Require Import Prelude.

Module Sched.
(** ** The loops *)
Inductive loop :=
  | LRenewalCheck | LJobProcessor | LJobRetry | LJobTimeout | LAgentHealthCheck | LNotificationProcess
  | LNotificationRetry | LShortLivedExpiryCheck | LNetworkScan | LDigest | LHealthCheck | LCloudDiscovery
  | LCRLGeneration | LACMEGC | LSessionGC | LRateLimitGC | LAuditChainVerify | LUserRetention.
#[global] Instance loop_eq_dec : EqDecision loop.
Proof. solve_decision. Defined.

(** The loops of every scheduler, and those that need a service, as [Start] launches them. *)
Definition base_loops : list loop :=
  [LRenewalCheck; LJobProcessor; LJobRetry; LJobTimeout; LAgentHealthCheck; LNotificationProcess; LNotificationRetry;
   LShortLivedExpiryCheck].
Definition optional_loops : list loop :=
  [LNetworkScan; LDigest; LHealthCheck; LCloudDiscovery; LCRLGeneration; LACMEGC; LSessionGC; LRateLimitGC;
   LAuditChainVerify; LUserRetention].

Definition upd {A} (l : loop) (x : A) (f : loop → A) : loop → A := λ k, if decide (k = l) then x else f k.

(** ** The settings *)
Record Scheduler := mkScheduler {
  sc_wired : loop → bool;         (* the service of an optional loop is set *)
  sc_jobReaper : bool;
  sc_bclReplayGC : bool;
  sc_interval : loop → Z;
  sc_agentOfflineJobTTL : Z;
  sc_awaitingCSRTimeout : Z;
  sc_awaitingApprovalTimeout : Z
}.

Definition second : Z := 10 ^ 9.
Definition minute : Z := 60 * second.
Definition hour : Z := 60 * minute.

Definition default_interval (l : loop) : Z :=
  match l with
  | LRenewalCheck => hour
  | LJobProcessor => 30 * second
  | LJobRetry => 5 * minute
  | LAgentHealthCheck => 2 * minute
  | LNotificationProcess => minute
  | LNotificationRetry => 2 * minute
  | LShortLivedExpiryCheck => 30 * second
  | LNetworkScan => 6 * hour
  | LDigest => 24 * hour
  | LHealthCheck => 60 * second
  | LCloudDiscovery => 6 * hour
  | LCRLGeneration => hour
  | LJobTimeout => 10 * minute
  | LACMEGC => minute
  | LSessionGC => hour
  | LRateLimitGC => 5 * minute
  | LAuditChainVerify => 6 * hour
  | LUserRetention => 24 * hour
  end.

Definition NewScheduler (networkScanService : bool) : Scheduler :=
  mkScheduler (upd LNetworkScan networkScanService (λ _, false)) false false default_interval (5 * minute) 0 0.

(** The setters; those of the later loops ignore what is not positive. *)
Definition guarded_interval (l : loop) : bool :=
  bool_decide (l ∈ [LCRLGeneration; LACMEGC; LSessionGC; LRateLimitGC; LAuditChainVerify; LUserRetention]).

Inductive setting :=
  | SetService (l : loop) (set : bool)
  | SetJobReaperService (set : bool)
  | SetBCLReplayGarbageCollector (set : bool)
  | SetInterval (l : loop) (d : Z)
  | SetAgentOfflineJobTTL (d : Z)
  | SetAwaitingCSRTimeout (d : Z)
  | SetAwaitingApprovalTimeout (d : Z).

Definition apply_setting (x : setting) (s : Scheduler) : Scheduler :=
  let '(mkScheduler wired jr bcl iv ttl csr app) := s in
  match x with
  | SetService l b => mkScheduler (upd l b wired) jr bcl iv ttl csr app
  | SetJobReaperService b => mkScheduler wired b bcl iv ttl csr app
  | SetBCLReplayGarbageCollector b => mkScheduler wired jr b iv ttl csr app
  | SetInterval l d => if guarded_interval l && (d <=? 0) then s else mkScheduler wired jr bcl (upd l d iv) ttl csr app
  | SetAgentOfflineJobTTL d => if d <=? 0 then s else mkScheduler wired jr bcl iv d csr app
  | SetAwaitingCSRTimeout d => mkScheduler wired jr bcl iv ttl d app
  | SetAwaitingApprovalTimeout d => mkScheduler wired jr bcl iv ttl csr d
  end.

(** ** The calls of a run, with the timeout of their context *)
Inductive service_call :=
  | CheckExpiringCertificates
  | ExpireShortLivedCertificates
  | ProcessPendingJobs
  | RetryFailedJobs (maxRetries : Z)
  | ReapTimedOutJobs (csrTTL approvalTTL : Z)
  | ReapJobsWithOfflineAgents (agentTTL : Z)
  | MarkStaleAgentsOffline (interval : Z)
  | ProcessPendingNotifications
  | RetryFailedNotifications
  | ScanAllTargets
  | ProcessDigest
  | RunHealthChecks
  | DiscoverAll
  | RegenerateAll
  | ACMEGarbageCollect
  | SessionGarbageCollect
  | SweepExpired
  | RateLimitGarbageCollect
  | VerifyHashChain
  | PurgeDeactivatedUsers.

Record timed_call := within { tc_timeout : Z; tc_call : service_call }.

Definition runRenewalCheck (s : Scheduler) : list timed_call := [within (5 * minute) CheckExpiringCertificates].
Definition runJobProcessor (s : Scheduler) : list timed_call := [within (2 * minute) ProcessPendingJobs].
Definition runJobRetry (s : Scheduler) : list timed_call := [within (2 * minute) (RetryFailedJobs 3)].
Definition runJobTimeout (s : Scheduler) : list timed_call :=
  if sc_jobReaper s then
    [within (2 * minute) (ReapTimedOutJobs (sc_awaitingCSRTimeout s) (sc_awaitingApprovalTimeout s));
     within (2 * minute) (ReapJobsWithOfflineAgents (sc_agentOfflineJobTTL s))]
  else [].
Definition runAgentHealthCheck (s : Scheduler) : list timed_call :=
  [within minute (MarkStaleAgentsOffline (sc_interval s LAgentHealthCheck))].
Definition runNotificationProcess (s : Scheduler) : list timed_call := [within minute ProcessPendingNotifications].
Definition runNotificationRetry (s : Scheduler) : list timed_call := [within (2 * minute) RetryFailedNotifications].
Definition runShortLivedExpiryCheck (s : Scheduler) : list timed_call := [within (30 * second) ExpireShortLivedCertificates].
Definition runNetworkScan (s : Scheduler) : list timed_call := [within (30 * minute) ScanAllTargets].
Definition runDigest (s : Scheduler) : list timed_call := [within (5 * minute) ProcessDigest].
Definition runHealthCheck (s : Scheduler) : list timed_call := [within (5 * minute) RunHealthChecks].
Definition runCloudDiscovery (s : Scheduler) : list timed_call := [within (30 * minute) DiscoverAll].
Definition runCRLGeneration (s : Scheduler) : list timed_call := [within (5 * minute) RegenerateAll].
Definition runAuditChainVerify (s : Scheduler) : list timed_call := [within (5 * minute) VerifyHashChain].

(** ** The loops as programs

    What a loop does before it waits: nothing, a run whose flag is stored unconditionally, or a
    run behind the guard. *)
Inductive first_run := NoFirstRun | StoredFirstRun | GuardedFirstRun.
Record LoopCode := mkLoop { lc_first : first_run; lc_run : Scheduler → list timed_call }.

Definition renewalCheckLoop := mkLoop StoredFirstRun runRenewalCheck.
Definition jobProcessorLoop := mkLoop StoredFirstRun runJobProcessor.
Definition jobRetryLoop := mkLoop StoredFirstRun runJobRetry.
Definition jobTimeoutLoop := mkLoop StoredFirstRun runJobTimeout.
Definition agentHealthCheckLoop := mkLoop StoredFirstRun runAgentHealthCheck.
Definition notificationProcessLoop := mkLoop StoredFirstRun runNotificationProcess.
Definition notificationRetryLoop := mkLoop StoredFirstRun runNotificationRetry.
Definition shortLivedExpiryCheckLoop := mkLoop StoredFirstRun runShortLivedExpiryCheck.
Definition networkScanLoop := mkLoop StoredFirstRun runNetworkScan.
Definition digestLoop := mkLoop NoFirstRun runDigest.
Definition healthCheckLoop := mkLoop NoFirstRun runHealthCheck.
Definition cloudDiscoveryLoop := mkLoop StoredFirstRun runCloudDiscovery.
Definition crlGenerationLoop := mkLoop NoFirstRun runCRLGeneration.
Definition acmeGCLoop := mkLoop NoFirstRun (λ _, [within minute ACMEGarbageCollect]).
(** The two sweeps share one context. *)
Definition sessionGCLoop := mkLoop NoFirstRun (λ s,
  within minute SessionGarbageCollect :: (if sc_bclReplayGC s then [within minute SweepExpired] else [])).
Definition rateLimitGCLoop := mkLoop NoFirstRun (λ _, [within minute RateLimitGarbageCollect]).
Definition auditChainVerifyLoop := mkLoop GuardedFirstRun runAuditChainVerify.
Definition userRetentionLoop := mkLoop NoFirstRun (λ _, [within (5 * minute) PurgeDeactivatedUsers]).

Definition code (l : loop) : LoopCode :=
  match l with
  | LRenewalCheck => renewalCheckLoop
  | LJobProcessor => jobProcessorLoop
  | LJobRetry => jobRetryLoop
  | LJobTimeout => jobTimeoutLoop
  | LAgentHealthCheck => agentHealthCheckLoop
  | LNotificationProcess => notificationProcessLoop
  | LNotificationRetry => notificationRetryLoop
  | LShortLivedExpiryCheck => shortLivedExpiryCheckLoop
  | LNetworkScan => networkScanLoop
  | LDigest => digestLoop
  | LHealthCheck => healthCheckLoop
  | LCloudDiscovery => cloudDiscoveryLoop
  | LCRLGeneration => crlGenerationLoop
  | LACMEGC => acmeGCLoop
  | LSessionGC => sessionGCLoop
  | LRateLimitGC => rateLimitGCLoop
  | LAuditChainVerify => auditChainVerifyLoop
  | LUserRetention => userRetentionLoop
  end.

(** ** Start *)
Definition counted (s : Scheduler) (l : loop) : nat := if sc_wired s l then 1 else 0.
Definition loopCount (s : Scheduler) : nat :=
  8 + counted s LNetworkScan + counted s LDigest + counted s LHealthCheck + counted s LCloudDiscovery +
  counted s LCRLGeneration + counted s LACMEGC + counted s LSessionGC + counted s LRateLimitGC +
  counted s LAuditChainVerify + counted s LUserRetention.

Definition launched (s : Scheduler) : list loop := base_loops ++ filter (λ l, sc_wired s l = true) optional_loops.

(** ** The state of all goroutines *)
Inductive lphase :=
  | Idle        (* not launched *)
  | Spawned     (* the goroutine exists *)
  | Selecting   (* in the select *)
  | Received    (* a tick was taken, before CompareAndSwap *)
  | Claimed     (* the flag is set, before wg.Add *)
  | Added       (* before the go statement *)
  | Stopping    (* the context is done, before wg.Done *)
  | Gone.

Record worker := mkWorker { wk_loop : loop; wk_todo : list timed_call; wk_cleared : bool }.

Inductive starter := NotStarted | Launching (todo : list loop) | Launched.
Inductive waiter := WNone | WWaiting | WClosed | WReturned (ok : bool).

Record sched := mkSched {
  st_conf : Scheduler;
  st_start : starter;
  st_phase : loop → lphase;
  st_tick : loop → bool;          (* the ticker's channel holds a tick *)
  st_running : loop → bool;       (* the atomic flags *)
  st_workers : list worker;
  st_wg : Z;                      (* the wait group's counter *)
  st_done : bool;                 (* the context is cancelled *)
  st_wait : waiter;
  st_waited_late : bool;          (* WaitForCompletion was called after startedChan was closed *)
  st_log : list (loop * timed_call)
}.

Definition fresh_sched (s : Scheduler) : sched :=
  mkSched s NotStarted (λ _, Idle) (λ _, false) (λ _, false) [] 0 false WNone false [].

(** Who acts. *)
Inductive label :=
  | AStart | ALaunch | AStarted
  | ABegin (l : loop) | ATick (l : loop) | AReceive (l : loop) | AGuard (l : loop) | AAdd (l : loop) | AGo (l : loop)
  | AStop (l : loop) | AExit (l : loop)
  | ACall (i : nat) | AClear (i : nat) | ARelease (i : nat)
  | ACancel | AWait | AWaitDone | AWaitReturn (ok : bool)
  | ASet (x : setting).

Definition ticker_on (p : lphase) : bool := match p with Selecting | Received | Claimed | Added => true | _ => false end.

Section steps.
Implicit Types st : sched.

(** The parts of the state a step changes. *)
Definition at_loop (l : loop) (p : lphase) st : sched :=
  mkSched (st_conf st) (st_start st) (upd l p (st_phase st)) (st_tick st) (st_running st) (st_workers st) (st_wg st)
    (st_done st) (st_wait st) (st_waited_late st) (st_log st).
Definition set_tick (l : loop) (b : bool) st : sched :=
  mkSched (st_conf st) (st_start st) (st_phase st) (upd l b (st_tick st)) (st_running st) (st_workers st) (st_wg st)
    (st_done st) (st_wait st) (st_waited_late st) (st_log st).
Definition store (l : loop) (b : bool) st : sched :=
  mkSched (st_conf st) (st_start st) (st_phase st) (st_tick st) (upd l b (st_running st)) (st_workers st) (st_wg st)
    (st_done st) (st_wait st) (st_waited_late st) (st_log st).
Definition wg_add (n : Z) st : sched :=
  mkSched (st_conf st) (st_start st) (st_phase st) (st_tick st) (st_running st) (st_workers st) (st_wg st + n)
    (st_done st) (st_wait st) (st_waited_late st) (st_log st).
Definition set_workers (ws : list worker) st : sched :=
  mkSched (st_conf st) (st_start st) (st_phase st) (st_tick st) (st_running st) ws (st_wg st)
    (st_done st) (st_wait st) (st_waited_late st) (st_log st).
Definition set_start (x : starter) st : sched :=
  mkSched (st_conf st) x (st_phase st) (st_tick st) (st_running st) (st_workers st) (st_wg st)
    (st_done st) (st_wait st) (st_waited_late st) (st_log st).
Definition set_wait (x : waiter) (late : bool) st : sched :=
  mkSched (st_conf st) (st_start st) (st_phase st) (st_tick st) (st_running st) (st_workers st) (st_wg st)
    (st_done st) x late (st_log st).
Definition cancel st : sched :=
  mkSched (st_conf st) (st_start st) (st_phase st) (st_tick st) (st_running st) (st_workers st) (st_wg st)
    true (st_wait st) (st_waited_late st) (st_log st).
Definition called (c : loop * timed_call) st : sched :=
  mkSched (st_conf st) (st_start st) (st_phase st) (st_tick st) (st_running st) (st_workers st) (st_wg st)
    (st_done st) (st_wait st) (st_waited_late st) (st_log st ++ [c]).
Definition configure (x : setting) st : sched :=
  mkSched (apply_setting x (st_conf st)) (st_start st) (st_phase st) (st_tick st) (st_running st) (st_workers st) (st_wg st)
    (st_done st) (st_wait st) (st_waited_late st) (st_log st).

(** The goroutine of [Start]: the counter, the go statements in order, the signal. *)
Definition start_step (a : label) st : option sched :=
  match a, st_start st with
  | AStart, NotStarted => Some (wg_add (Z.of_nat (loopCount (st_conf st))) (set_start (Launching (launched (st_conf st))) st))
  | ALaunch, Launching (l :: ls) => Some (at_loop l Spawned (set_start (Launching ls) st))
  | AStarted, Launching [] => Some (set_start Launched st)
  | _, _ => None
  end.

(** The goroutine of a loop. *)
Definition begin_loop (l : loop) st : sched :=
  match lc_first (code l) with
  | NoFirstRun => at_loop l Selecting st
  | StoredFirstRun => at_loop l Claimed (store l true st)
  | GuardedFirstRun => at_loop l Received st
  end.

Definition guard (l : loop) st : sched :=
  if st_running st l then at_loop l Selecting st else at_loop l Claimed (store l true st).

Definition new_worker (l : loop) st : worker := mkWorker l (lc_run (code l) (st_conf st)) false.

Definition loop_step (a : label) st : option sched :=
  match a with
  | ABegin l => match st_phase st l with Spawned => Some (begin_loop l st) | _ => None end
  | ATick l => if ticker_on (st_phase st l) && negb (st_tick st l) then Some (set_tick l true st) else None
  | AReceive l =>
      match st_phase st l with
      | Selecting => if st_tick st l then Some (at_loop l Received (set_tick l false st)) else None
      | _ => None
      end
  | AGuard l => match st_phase st l with Received => Some (guard l st) | _ => None end
  | AAdd l => match st_phase st l with Claimed => Some (at_loop l Added (wg_add 1 st)) | _ => None end
  | AGo l =>
      match st_phase st l with
      | Added => Some (at_loop l Selecting (set_workers (st_workers st ++ [new_worker l st]) st))
      | _ => None
      end
  | AStop l => match st_phase st l with Selecting => if st_done st then Some (at_loop l Stopping st) else None | _ => None end
  | AExit l => match st_phase st l with Stopping => Some (at_loop l Gone (wg_add (-1) st)) | _ => None end
  | _ => None
  end.

(** A worker: its calls, then the deferred [Store(false)], then the deferred [wg.Done].  A worker
    whose flag is not cleared is inside the first call of its list, and [ACall] is that call's
    return: a call that never returns is a schedule without that step. *)
Definition worker_step (a : label) st : option sched :=
  match a with
  | ACall i =>
      match st_workers st !! i with
      | Some (mkWorker l (c :: rest) false) =>
          Some (called (l, c) (set_workers (<[i := mkWorker l rest false]> (st_workers st)) st))
      | _ => None
      end
  | AClear i =>
      match st_workers st !! i with
      | Some (mkWorker l [] false) => Some (store l false (set_workers (<[i := mkWorker l [] true]> (st_workers st)) st))
      | _ => None
      end
  | ARelease i =>
      match st_workers st !! i with
      | Some (mkWorker l _ true) => Some (wg_add (-1) (set_workers (delete i (st_workers st)) st))
      | _ => None
      end
  | _ => None
  end.

Definition is_launched st : bool := match st_start st with Launched => true | _ => false end.

(** [WaitForCompletion]: its goroutine waits for the counter, the select for that or the timeout. *)
Definition wait_step (a : label) st : option sched :=
  match a, st_wait st with
  | AWait, WNone => Some (set_wait WWaiting (is_launched st) st)
  | AWaitDone, WWaiting => if st_wg st =? 0 then Some (set_wait WClosed (st_waited_late st) st) else None
  | AWaitReturn true, WClosed => Some (set_wait (WReturned true) (st_waited_late st) st)
  | AWaitReturn false, (WWaiting | WClosed) => Some (set_wait (WReturned false) (st_waited_late st) st)
  | _, _ => None
  end.

Definition sched_step (a : label) st : option sched :=
  match a with
  | AStart | ALaunch | AStarted => start_step a st
  | ABegin _ | ATick _ | AReceive _ | AGuard _ | AAdd _ | AGo _ | AStop _ | AExit _ => loop_step a st
  | ACall _ | AClear _ | ARelease _ => worker_step a st
  | ACancel => if st_done st then None else Some (cancel st)
  | AWait | AWaitDone | AWaitReturn _ => wait_step a st
  | ASet x => Some (configure x st)
  end.

(** A schedule. *)
Fixpoint run_sched (as_ : list label) st : option sched :=
  match as_ with
  | [] => Some st
  | a :: rest => match sched_step a st with Some st' => run_sched rest st' | None => None end
  end.
End steps.
End Sched.
