(* ===== verification/SchedulerFacts.v ===== *)
(** * Facts about the scheduler (Scheduler.v)

    Runs of a loop never overlap; when [WaitForCompletion] reports completion nothing runs any
    more; after cancellation the scheduler winds down; and a service that is set after [Start]
    never runs. *)

From Stdlib Require Import ZArith Lia.
From stdpp Require Import prelude strings list.
From S2P Require Import Prelude Scheduler.
Import Sched.

(** ** Counting *)
Definition all_loops : list loop := base_loops ++ optional_loops.
Definition total (f : loop → Z) : Z := foldr (λ l n, f l + n) 0 all_loops.

Lemma upd_eq {A} l (x : A) f : upd l x f l = x.
Proof. unfold upd. by rewrite decide_True. Qed.
Lemma upd_ne {A} l k (x : A) f : k ≠ l → upd l x f k = f k.
Proof. intros H. unfold upd. by rewrite decide_False. Qed.

Lemma in_all_loops l : l ∈ all_loops.
Proof. destruct l; cbn; set_solver. Qed.
Lemma all_loops_NoDup : NoDup all_loops.
Proof. apply (bool_decide_unpack _). vm_compute. exact I. Qed.

Lemma total_upd {A} (g : A → Z) l x f : total (λ k, g (upd l x f k)) = total (λ k, g (f k)) + g x - g (f l).
Proof.
  assert (∀ ls, NoDup ls → foldr (λ k n, g (upd l x f k) + n) 0 ls =
    foldr (λ k n, g (f k) + n) 0 ls + (if decide (l ∈ ls) then g x - g (f l) else 0)) as H.
  - induction 1 as [|k ls Hk _ IH]; cbn; [rewrite decide_False by apply not_elem_of_nil; lia|]. rewrite IH.
    destruct (decide (k = l)) as [->|Hne].
    + rewrite upd_eq, (decide_False (P:=l ∈ ls)), decide_True by (done || by left). lia.
    + rewrite upd_ne by done. destruct (decide (l ∈ ls)) as [Hl|Hl].
      * rewrite decide_True by (by right). lia.
      * rewrite decide_False by (rewrite elem_of_cons; naive_solver). lia.
  - unfold total. rewrite H by apply all_loops_NoDup. rewrite decide_True by apply in_all_loops. lia.
Qed.

Lemma total_nonneg f : (∀ l, 0 ≤ f l) → 0 ≤ total f.
Proof. intros H. unfold total. induction all_loops as [|l ls IH]; cbn; [lia|]. specialize (H l). lia. Qed.

Lemma total_zero f : (∀ l, 0 ≤ f l) → total f = 0 → ∀ l, f l = 0.
Proof.
  intros H H0 l. pose proof (in_all_loops l) as Hl. revert H0 Hl. unfold total.
  induction all_loops as [|k ls IH]; cbn; [by intros _ ?%elem_of_nil|]. intros H0.
  assert (0 ≤ foldr (λ l n, f l + n) 0 ls) by (clear -H; induction ls as [|j js]; cbn; [lia|specialize (H j); lia]).
  pose proof (H k). intros [->|Hin]%elem_of_cons; [lia|]. apply IH; [lia|done].
Qed.

(** Runs of a loop that have not cleared the flag. *)
Definition act (l : loop) (w : worker) : Z := if bool_decide (wk_loop w = l) && negb (wk_cleared w) then 1 else 0.
Definition live_runs (l : loop) (ws : list worker) : Z := foldr (λ w n, act l w + n) 0 ws.

Lemma active_app l ws1 ws2 : live_runs l (ws1 ++ ws2) = live_runs l ws1 + live_runs l ws2.
Proof. unfold live_runs. induction ws1 as [|w ws IH]; cbn; lia. Qed.
Lemma active_cons l w ws : live_runs l (w :: ws) = act l w + live_runs l ws.
Proof. done. Qed.
Lemma active_nil l : live_runs l [] = 0.
Proof. done. Qed.
Lemma act_range l w : 0 ≤ act l w ≤ 1.
Proof. unfold act. case_match; lia. Qed.
Lemma active_nonneg l ws : 0 ≤ live_runs l ws.
Proof. unfold live_runs. induction ws as [|w ws IH]; cbn; [lia|]. pose proof (act_range l w). lia. Qed.

Lemma active_in l ws1 ws2 todo : 1 ≤ live_runs l (ws1 ++ mkWorker l todo false :: ws2).
Proof.
  rewrite active_app, active_cons. unfold act. cbn. rewrite bool_decide_eq_true_2 by done. cbn.
  pose proof (active_nonneg l ws1). pose proof (active_nonneg l ws2). lia.
Qed.

Lemma split_at {A} (ws : list A) i w : ws !! i = Some w →
  ∃ l1 l2, ws = l1 ++ w :: l2 ∧ (∀ x, <[i := x]> ws = l1 ++ x :: l2) ∧ delete i ws = l1 ++ l2.
Proof.
  intros H. apply list_elem_of_split_length in H as (l1 & l2 & -> & ->). exists l1, l2. split_and!; [done| |].
  - intros x. by rewrite insert_app_r_alt, Nat.sub_diag by lia.
  - by rewrite delete_middle.
Qed.

#[local] Arguments total : simpl never.
#[local] Arguments live_runs : simpl never.
#[local] Arguments loopCount : simpl never.
#[local] Arguments launched : simpl never.

(** ** The invariant *)
Definition weight (p : lphase) : Z := match p with Idle | Gone => 0 | Added => 2 | _ => 1 end.
Definition claimed (p : lphase) : Z := match p with Claimed | Added => 1 | _ => 0 end.
Definition pending (st : sched) : list loop := match st_start st with Launching ls => ls | _ => [] end.
Definition over (p : lphase) : bool := match p with Idle | Gone => true | _ => false end.
Definition unbegun (p : lphase) : bool := match p with Idle | Spawned => true | _ => false end.

(** Nothing runs and nothing will. *)
Definition finished (st : sched) : Prop :=
  st_start st = Launched ∧ st_workers st = [] ∧ ∀ l, over (st_phase st l) = true.

Record sched_inv (st : sched) : Prop := {
  si_flag l : live_runs l (st_workers st) + claimed (st_phase st l) = Z.b2z (st_running st l);
  si_wg : st_wg st = Z.of_nat (length (pending st)) + total (λ l, weight (st_phase st l)) + Z.of_nat (length (st_workers st));
  si_pending : NoDup (pending st) ∧ ∀ l, l ∈ pending st → st_phase st l = Idle;
  si_idle : st_start st = NotStarted → ∀ l, st_phase st l = Idle;
  si_unbegun l : unbegun (st_phase st l) = true → live_runs l (st_workers st) = 0;
  si_late : st_waited_late st = true → st_start st = Launched;
  si_over : st_waited_late st = true → st_wait st = WClosed ∨ st_wait st = WReturned true → finished st
}.

Lemma counted_filter s ls : length (filter (λ l, sc_wired s l = true) ls) = sum_list_with (counted s) ls.
Proof.
  unfold counted. induction ls as [|l ls IH]; [done|]. rewrite filter_cons. cbn. rewrite <-IH.
  destruct (sc_wired s l); [by rewrite decide_True|by rewrite decide_False].
Qed.

(** The counter [Start] adds is the number of loops it launches. *)
Lemma loopCount_launched s : loopCount s = length (launched s).
Proof. unfold loopCount, launched. rewrite length_app, counted_filter. cbn. lia. Qed.

Lemma launched_NoDup s : NoDup (launched s).
Proof.
  pose proof all_loops_NoDup as H. unfold all_loops, launched in *. apply NoDup_app in H as (H1 & H2 & H3).
  apply NoDup_app. split_and!; [done| |by apply NoDup_filter].
  intros l Hl Hf. apply list_elem_of_filter in Hf as [_ Hf]. by apply (H2 l).
Qed.

Lemma inv_fresh s : sched_inv (fresh_sched s).
Proof. split; try done. split; [apply NoDup_nil_2|by intros l ?%elem_of_nil]. Qed.

(** A loop moves to a phase that says the same about the flag, the workers and the counter. *)
Ltac at_phase k l :=
  destruct (decide (k = l)) as [->|?]; [rewrite ?upd_eq in *|rewrite ?upd_ne in * by done].

Lemma inv_start_step a st st' : start_step a st = Some st' → sched_inv st → sched_inv st'.
Proof.
  intros Hs [If Iw [In Ip] Ii Iu Il Io]. unfold start_step in Hs.
  destruct (st_start st) as [|[|l ls]|] eqn:Es, a; try done; injection Hs as <-; unfold pending in *; rewrite Es in *.
  - split; cbn; try done.
    + rewrite loopCount_launched. cbn in Iw. lia.
    + split; [apply launched_NoDup|]. intros l _. by apply Ii.
    + intros H. by specialize (Il H).
    + intros H. by specialize (Il H).
  - split; cbn; try done. intros H. by specialize (Il H).
  - cbn in Iw. apply NoDup_cons in In as [In1 In2]. assert (st_phase st l = Idle) as Hl by (apply Ip; by left).
    split; cbn; try done.
    + intros k. specialize (If k). at_phase k l; [|done]. rewrite Hl in If. exact If.
    + rewrite total_upd, Hl. cbn. lia.
    + split; [done|]. intros k Hk. at_phase k l; [done|]. apply Ip. by right.
    + intros k. at_phase k l; [|by apply Iu]. intros _. apply Iu. by rewrite Hl.
    + intros H. by specialize (Il H).
    + intros H. by specialize (Il H).
Qed.

(** A loop goes from [st_phase st l] to [p] and the counter and the flag follow. *)
Lemma inv_move st l p b n :
  sched_inv st → over (st_phase st l) = false → unbegun p = false →
  weight p = weight (st_phase st l) + n →
  live_runs l (st_workers st) + claimed p = Z.b2z b →
  sched_inv (at_loop l p (store l b (wg_add n st))).
Proof.
  intros [If Iw [In Ip] Ii Iu Il Io] Ho Hp Hw Hf. split; cbn.
  - intros k. at_phase k l; [done|apply If].
  - rewrite total_upd. unfold pending in *. cbn. lia.
  - split; [done|]. intros k Hk. at_phase k l; [|by apply Ip]. by rewrite (Ip l Hk) in Ho.
  - intros Hs k. rewrite (Ii Hs l) in Ho. done.
  - intros k. at_phase k l; [by rewrite Hp|apply Iu].
  - done.
  - intros Hl Hc. destruct (Io Hl Hc) as (_ & _ & H). by rewrite H in Ho.
Qed.

Lemma upd_same {A} l (f : loop → A) k : upd l (f l) f k = f k.
Proof. unfold upd. by case_decide as H; [rewrite H|]. Qed.

(** States that agree on everything but how their functions are written. *)
Lemma inv_ext st st' :
  sched_inv st → st_start st' = st_start st → (∀ l, st_phase st' l = st_phase st l) → (∀ l, st_running st' l = st_running st l) →
  st_workers st' = st_workers st → st_wg st' = st_wg st → st_wait st' = st_wait st → st_waited_late st' = st_waited_late st →
  sched_inv st'.
Proof.
  intros [If Iw [In Ip] Ii Iu Il Io] E1 E2 E3 E4 E5 E6 E7. unfold pending in *.
  assert (total (λ l, weight (st_phase st' l)) = total (λ l, weight (st_phase st l))) as Et.
  { unfold total. induction all_loops as [|l ls IH]; cbn; [done|]. by rewrite E2, IH. }
  split; unfold pending; rewrite ?E1, ?E4, ?E5, ?E6, ?E7, ?Et; try done.
  - intros l. rewrite E2, E3. apply If.
  - split; [done|]. intros l Hl. rewrite E2. by apply Ip.
  - intros H l. rewrite E2. by apply Ii.
  - intros l. rewrite E2. apply Iu.
  - intros H1 H2. destruct (Io H1 H2) as (H3 & H4 & H5). split_and!; [congruence|congruence|]. intros l. by rewrite E2.
Qed.

Lemma inv_move_keep st l p :
  sched_inv st → over (st_phase st l) = false → unbegun p = false → weight p = weight (st_phase st l) →
  claimed p = claimed (st_phase st l) → sched_inv (at_loop l p st).
Proof.
  intros HI Ho Hp Hw Hc. pose proof (inv_move st l p (st_running st l) 0 HI Ho Hp ltac:(lia)) as H.
  eapply inv_ext; [apply H| | | | | | |]; cbn; try done; try lia.
  - rewrite Hc. apply HI.
  - intros k. by rewrite upd_same.
Qed.

Lemma act_new l k st : act k (new_worker l st) = if decide (k = l) then 1 else 0.
Proof. unfold act. cbn. case_bool_decide; case_decide; cbn; congruence || done. Qed.

(** The go statement hands the claim over to the worker. *)
Lemma inv_go l st :
  sched_inv st → st_phase st l = Added → sched_inv (at_loop l Selecting (set_workers (st_workers st ++ [new_worker l st]) st)).
Proof.
  intros [If Iw [In Ip] Ii Iu Il Io] Hp. unfold pending in *. split; unfold pending; cbn.
  - intros k. specialize (If k). rewrite active_app, active_cons, active_nil, act_new.
    at_phase k l; [rewrite Hp in If; cbn in *; lia|lia].
  - rewrite total_upd, Hp, length_app. cbn in *. lia.
  - split; [done|]. intros k Hk. at_phase k l; [|by apply Ip]. specialize (Ip l Hk). congruence.
  - intros Hs k. specialize (Ii Hs l). congruence.
  - intros k. rewrite active_app, active_cons, active_nil, act_new. at_phase k l; [done|].
    intros Hu. specialize (Iu k Hu). lia.
  - done.
  - intros Hl Hc. destruct (Io Hl Hc) as (_ & _ & H). specialize (H l). by rewrite Hp in H.
Qed.

Lemma inv_loop_step a st st' : loop_step a st = Some st' → sched_inv st → sched_inv st'.
Proof.
  intros Hs HI. unfold loop_step in Hs.
  destruct a as [| | |l|l|l|l|l|l|l|l| | | | | | | |]; try done.
  - destruct (st_phase st l) eqn:Ep; try done. injection Hs as <-. unfold begin_loop. destruct (lc_first (code l)).
    + apply inv_move_keep; by rewrite ?Ep.
    + pose proof (si_unbegun st HI l) as Hu. rewrite Ep in Hu. specialize (Hu eq_refl).
      pose proof (inv_move st l Claimed true 0 HI) as H. rewrite Ep in H. eapply inv_ext; [apply H| | | | | | |]; cbn; try done; lia.
    + apply inv_move_keep; by rewrite ?Ep.
  - destruct (ticker_on _ && _); [|done]. injection Hs as <-. by eapply inv_ext.
  - destruct (st_phase st l) eqn:Ep; try done. destruct (st_tick st l); [|done]. injection Hs as <-.
    apply inv_move_keep; cbn; rewrite ?Ep; try done. by eapply inv_ext.
  - destruct (st_phase st l) eqn:Ep; try done. injection Hs as <-. unfold guard. destruct (st_running st l) eqn:Er.
    + apply inv_move_keep; by rewrite ?Ep.
    + pose proof (si_flag st HI l) as Hf. rewrite Ep, Er in Hf. cbn in Hf.
      pose proof (inv_move st l Claimed true 0 HI) as H. rewrite Ep in H. eapply inv_ext; [apply H| | | | | | |]; cbn; try done; lia.
  - destruct (st_phase st l) eqn:Ep; try done. injection Hs as <-.
    pose proof (si_flag st HI l) as Hf. rewrite Ep in Hf.
    pose proof (inv_move st l Added (st_running st l) 1 HI) as H. rewrite Ep in H.
    eapply inv_ext; [apply H| | | | | | |]; cbn; try done. intros k. by rewrite upd_same.
  - destruct (st_phase st l) eqn:Ep; try done. injection Hs as <-. by apply inv_go.
  - destruct (st_phase st l) eqn:Ep; try done. destruct (st_done st); [|done]. injection Hs as <-.
    apply inv_move_keep; by rewrite ?Ep.
  - destruct (st_phase st l) eqn:Ep; try done. injection Hs as <-.
    pose proof (si_flag st HI l) as Hf. rewrite Ep in Hf.
    pose proof (inv_move st l Gone (st_running st l) (-1) HI) as H. rewrite Ep in H.
    eapply inv_ext; [apply H| | | | | | |]; cbn; try done. intros k. by rewrite upd_same.
Qed.

Lemma inv_worker_step a st st' : worker_step a st = Some st' → sched_inv st → sched_inv st'.
Proof.
  intros Hs [If Iw [In Ip] Ii Iu Il Io]. unfold pending in *. unfold worker_step in Hs.
  destruct a as [| | | | | | | | | | |i|i|i| | | | |]; try done.
  all: destruct (st_workers st !! i) as [[l todo cl]|] eqn:Ew; [|done].
  all: assert (∀ k, unbegun (st_phase st k) = true → live_runs k (st_workers st) = 0) as Iu' by exact Iu.
  all: assert (st_waited_late st = true → st_wait st = WClosed ∨ st_wait st = WReturned true → False) as Hno
    by (intros H1 H2; destruct (Io H1 H2) as (_ & H & _); by rewrite H in Ew).
  all: destruct (split_at _ _ _ Ew) as (l1 & l2 & Els & Hins & Hdel).
  - destruct todo as [|c rest], cl; try done. injection Hs as <-.
    assert (∀ k, live_runs k (<[i := mkWorker l rest false]> (st_workers st)) = live_runs k (st_workers st)) as Ea
      by (intros k; rewrite Hins, Els, !active_app, !active_cons; done).
    split; unfold pending; cbn; try done; try (by intros H1 H2; destruct (Hno H1 H2)).
    + intros k. rewrite Ea. apply If.
    + by rewrite length_insert.
    + intros k Hk. rewrite Ea. by apply Iu.
  - destruct todo, cl; try done. injection Hs as <-.
    assert (∀ k, live_runs k (<[i := mkWorker l [] true]> (st_workers st)) =
                 live_runs k (st_workers st) - (if decide (k = l) then 1 else 0)) as Ea.
    { intros k. rewrite Hins, Els, !active_app, ?active_cons. unfold act. cbn. repeat case_bool_decide; repeat case_decide; cbn; congruence || lia. }
    split; unfold pending; cbn; try done; try (by intros H1 H2; destruct (Hno H1 H2)).
    + intros k. rewrite Ea. specialize (If k). at_phase k l; [|lia].
      pose proof (active_in l l1 l2 []) as H1. rewrite <-Els in H1.
      destruct (st_running st l), (st_phase st l); cbn in *; lia.
    + by rewrite length_insert.
    + intros k Hk. rewrite Ea. specialize (Iu k Hk). case_decide as Hkl; [|lia]. subst k.
      pose proof (active_in l l1 l2 []) as H1. rewrite <-Els in H1. lia.
  - destruct cl; try done. injection Hs as <-.
    assert (∀ k, live_runs k (delete i (st_workers st)) = live_runs k (st_workers st)) as Ea.
    { intros k. rewrite Hdel, Els, !active_app, ?active_cons. unfold act. cbn. rewrite andb_false_r. lia. }
    split; unfold pending; cbn; try done; try (by intros H1 H2; destruct (Hno H1 H2)).
    + intros k. rewrite Ea. apply If.
    + rewrite Hdel. rewrite Els in Iw. rewrite !length_app in *. cbn in *. lia.
    + intros k Hk. rewrite Ea. by apply Iu.
Qed.

Lemma weight_nonneg p : 0 ≤ weight p.
Proof. destruct p; cbn; lia. Qed.

(** A counter of zero after the launch: nothing is left. *)
Lemma counter_zero st : sched_inv st → st_start st = Launched → st_wg st = 0 → finished st.
Proof.
  intros [_ Iw _ _ _ _ _] Hs H0. unfold pending in Iw. rewrite Hs in Iw. cbn in Iw.
  pose proof (total_nonneg (λ l, weight (st_phase st l)) (λ l, weight_nonneg _)) as Hn.
  assert (length (st_workers st) = 0%nat) as Hw by lia. apply nil_length_inv in Hw.
  split_and!; [done|done|]. intros l.
  pose proof (total_zero (λ l, weight (st_phase st l)) (λ l, weight_nonneg _) ltac:(lia) l) as H. cbn in H.
  by destruct (st_phase st l).
Qed.

Lemma inv_wait_step a st st' : wait_step a st = Some st' → sched_inv st → sched_inv st'.
Proof.
  intros Hs HI. pose proof HI as [If Iw [In Ip] Ii Iu Il Io]. unfold pending in *. unfold wait_step in Hs.
  destruct a as [| | | | | | | | | | | | | | | | |ok|]; try done; destruct (st_wait st) as [| | |] eqn:Ew; try (by destruct ok); try done.
  - injection Hs as <-. split; try done; cbn; unfold is_launched.
    + by destruct (st_start st).
    + by intros _ [|].
  - destruct (st_wg st =? 0) eqn:E0; [|done]. injection Hs as <-. split; try done; cbn.
    intros Hl _. destruct (counter_zero st HI (Il Hl)) as (H1 & H2 & H3); [lia|]. by split_and!.
  - destruct ok; [done|]. injection Hs as <-. split; try done; cbn. by intros _ [|].
  - destruct ok; injection Hs as <-; split; try done; cbn.
    + intros Hl _. destruct (Io Hl (or_introl eq_refl)) as (H1 & H2 & H3). by split_and!.
    + by intros _ [|].
Qed.

Lemma inv_sched_step a st st' : sched_step a st = Some st' → sched_inv st → sched_inv st'.
Proof.
  destruct a; cbn [sched_step]; intros Hs HI; try (by eapply inv_start_step); try (by eapply inv_loop_step); try (by eapply inv_worker_step);
    try (by eapply inv_wait_step).
  - destruct (st_done st); [done|]. injection Hs as <-. by eapply inv_ext.
  - injection Hs as <-. by eapply inv_ext.
Qed.

Lemma run_sched_ind (P : sched → Prop) : (∀ a st st', sched_step a st = Some st' → P st → P st') →
  ∀ as_ st st', run_sched as_ st = Some st' → P st → P st'.
Proof.
  intros HP. induction as_ as [|a as_ IH]; intros st st' Hr Hst; [by injection Hr as <-|]. cbn in Hr.
  destruct (sched_step a st) as [st1|] eqn:Es; [|done]. eapply IH; [done|]. by eapply HP.
Qed.

Lemma inv_run s as_ st : run_sched as_ (fresh_sched s) = Some st → sched_inv st.
Proof. intros H. eapply (run_sched_ind sched_inv); [exact inv_sched_step|done|apply inv_fresh]. Qed.

(** C19: Runs of a loop never overlap and the flags are exact.  In every interleaving of the
    scheduler's goroutines, from [Start] through ticks, runs, settings, cancellation and
    [WaitForCompletion], at most one run of each loop is between its first call and the release of
    its flag; the flag is set exactly while there is such a run or one is about to start, so no
    tick is refused for nothing; and the wait group's counter is the number of goroutines that
    will still call [Done], never negative. *)
Theorem scheduler_runs_exclusive s as_ st (Hrun : run_sched as_ (fresh_sched s) = Some st) :
  (∀ l, 0 ≤ live_runs l (st_workers st) ≤ 1) ∧
  (∀ l, st_running st l = true ↔ live_runs l (st_workers st) = 1 ∨ st_phase st l = Claimed ∨ st_phase st l = Added) ∧
  st_wg st = Z.of_nat (length (pending st)) + total (λ l, weight (st_phase st l)) + Z.of_nat (length (st_workers st)) ∧
  0 ≤ st_wg st.
Proof.
  apply inv_run in Hrun as [If Iw _ _ _ _ _].
  assert (∀ l, 0 ≤ live_runs l (st_workers st)) as Ha by (intros l; apply active_nonneg).
  split_and!; [| |done|].
  - intros l. specialize (If l). specialize (Ha l). destruct (st_running st l), (st_phase st l); cbn in *; lia.
  - intros l. specialize (If l). specialize (Ha l). destruct (st_running st l), (st_phase st l); cbn in *;
      split; try done; try lia; intros; destruct_or?; try done; try lia; auto; left; lia.
  - pose proof (total_nonneg (λ l, weight (st_phase st l)) (λ l, weight_nonneg _)). lia.
Qed.

(** Steps of a scheduler that is through. *)
Lemma finished_step a st st' : sched_step a st = Some st' → finished st → finished st' ∧ st_log st' = st_log st.
Proof.
  intros Hs (H1 & H2 & H3). unfold finished. destruct a as [| | |l|l|l|l|l|l|l|l|i|i|i| | | |ok|x]; cbn in Hs; rewrite ?H1, ?H2 in Hs; try done.
  1-8: specialize (H3 l); destruct (st_phase st l); done.
  - destruct (st_done st); [done|]. by injection Hs as <-.
  - destruct (st_wait st); try done. by injection Hs as <-.
  - destruct (st_wait st); try done. destruct (_ =? 0); [|done]. by injection Hs as <-.
  - destruct ok, (st_wait st); try done; by injection Hs as <-.
  - by injection Hs as <-.
Qed.

(** C20: When [WaitForCompletion] reports completion the scheduler is through.  If it was called
    after [Start] had signalled and returned without an error, no loop and no run is left, and
    whatever happens afterwards no service is called again. *)
Theorem shutdown_complete s as_ st more st'
    (Hrun : run_sched as_ (fresh_sched s) = Some st) (Hret : st_wait st = WReturned true) (Hlate : st_waited_late st = true)
    (Hmore : run_sched more st = Some st') :
  finished st ∧ finished st' ∧ st_log st' = st_log st.
Proof.
  apply inv_run in Hrun as HI. assert (finished st) as Hf by (apply (si_over st HI Hlate); by right). split; [done|].
  apply (run_sched_ind (λ x, finished x ∧ st_log x = st_log st)) with more st; [|done|done].
  intros a x x' Hs [Hx El]. destruct (finished_step a x x' Hs Hx) as [H1 H2]. split; [done|]. congruence.
Qed.

(** ** Services set too late *)

(** The loop was not launched and will not be. *)
Definition dormant (l : loop) (st : sched) : Prop :=
  st_start st ≠ NotStarted ∧ l ∉ pending st ∧ st_phase st l = Idle ∧ Forall (λ w, wk_loop w ≠ l) (st_workers st) ∧
  Forall (λ c, c.1 ≠ l) (st_log st).

Lemma dormant_phase l k p st : dormant l st → st_phase st k ≠ Idle → dormant l (at_loop k p st).
Proof. intros (H1 & H2 & H3 & H4 & H5) Hk. split_and!; try done. cbn. rewrite upd_ne; [done|]. by intros <-. Qed.

Lemma dormant_workers l st i w w' : dormant l st → st_workers st !! i = Some w → wk_loop w' = wk_loop w →
  Forall (λ w, wk_loop w ≠ l) (<[i := w']> (st_workers st)) ∧ wk_loop w ≠ l.
Proof.
  intros (_ & _ & _ & H & _) Hi Hw. assert (wk_loop w ≠ l) as Hne by (eapply (Forall_lookup_1 _ _ _ _ H); exact Hi).
  split; [|done]. apply Forall_insert; [done|]. by rewrite Hw.
Qed.

Lemma dormant_step l a st st' : sched_step a st = Some st' → dormant l st → dormant l st'.
Proof.
  intros Hs HD. pose proof HD as (H1 & H2 & H3 & H4 & H5). unfold pending in H2.
  destruct a as [| | |k|k|k|k|k|k|k|k|i|i|i| | | |ok|x]; cbn in Hs.
  - destruct (st_start st); done.
  - destruct (st_start st) as [|[|k ls]|]; try done. injection Hs as <-. rewrite not_elem_of_cons in H2. destruct H2 as [Hk Hl].
    split_and!; try done. cbn. by rewrite upd_ne.
  - destruct (st_start st) as [|[|k ls]|]; try done. injection Hs as <-. by split_and!.
  - destruct (st_phase st k) eqn:Ep; try done. injection Hs as <-. unfold begin_loop.
    destruct (lc_first (code k)); apply dormant_phase; cbn; congruence || done.
  - destruct (_ && _); [|done]. by injection Hs as <-.
  - destruct (st_phase st k) eqn:Ep; try done. destruct (st_tick st k); [|done]. injection Hs as <-.
    apply dormant_phase; cbn; congruence || done.
  - destruct (st_phase st k) eqn:Ep; try done. injection Hs as <-. unfold guard.
    destruct (st_running st k); apply dormant_phase; cbn; congruence || done.
  - destruct (st_phase st k) eqn:Ep; try done. injection Hs as <-. apply dormant_phase; cbn; congruence || done.
  - destruct (st_phase st k) eqn:Ep; try done. injection Hs as <-. apply dormant_phase; cbn; [|congruence].
    split_and!; try done. cbn. apply Forall_app. split; [done|]. apply Forall_singleton. cbn. congruence.
  - destruct (st_phase st k) eqn:Ep; try done. destruct (st_done st); [|done]. injection Hs as <-. apply dormant_phase; congruence || done.
  - destruct (st_phase st k) eqn:Ep; try done. injection Hs as <-. apply dormant_phase; cbn; congruence || done.
  - destruct (st_workers st !! i) as [[k [|c rest] []]|] eqn:Ew; try done. injection Hs as <-.
    destruct (dormant_workers l st i _ (mkWorker k rest false) HD Ew eq_refl) as [Hf Hne]. split_and!; try done; cbn.
    apply Forall_app. split; [done|]. by apply Forall_singleton.
  - destruct (st_workers st !! i) as [[k [|] []]|] eqn:Ew; try done. injection Hs as <-.
    destruct (dormant_workers l st i _ (mkWorker k [] true) HD Ew eq_refl) as [Hf Hne]. by split_and!.
  - destruct (st_workers st !! i) as [[k todo []]|] eqn:Ew; try done. injection Hs as <-. split_and!; try done. cbn.
    by apply Forall_delete.
  - destruct (st_done st); [done|]. by injection Hs as <-.
  - destruct (st_wait st); try done. by injection Hs as <-.
  - destruct (st_wait st); try done. destruct (_ =? 0); [|done]. by injection Hs as <-.
  - destruct ok, (st_wait st); try done; by injection Hs as <-.
  - by injection Hs as <-.
Qed.

(** A service that is set after [Start] is never called: whatever is set and whatever happens
    after [Start] has counted the loops, an optional loop whose service was not there runs
    nothing. *)
Theorem wired_too_late s l as_ st
    (Hopt : l ∈ optional_loops) (Hunset : sc_wired s l = false) (Hrun : run_sched (AStart :: as_) (fresh_sched s) = Some st) :
  ∀ c, (l, c) ∉ st_log st.
Proof.
  cbn in Hrun. apply (run_sched_ind (dormant l) (dormant_step l)) in Hrun.
  - destruct Hrun as (_ & _ & _ & _ & H). intros c Hc. rewrite Forall_forall in H. by apply (H _ Hc).
  - split_and!; try done; cbn. unfold launched. rewrite elem_of_app, list_elem_of_filter.
    intros [Hb|[Hw _]]; [|congruence]. pose proof all_loops_NoDup as H. apply NoDup_app in H as (_ & H & _). by apply (H l).
Qed.

(** ** Winding down *)
Definition environment (a : label) : bool := match a with ATick _ | ACancel | ASet _ => true | _ => false end.
Definition is_tick (a : label) : bool := match a with ATick _ => true | _ => false end.
Definition own_steps (as_ : list label) : Z := Z.of_nat (length (filter (λ a, environment a = false) as_)).
Definition ticks (as_ : list label) : Z := Z.of_nat (length (filter (λ a, is_tick a = true) as_)).

(** How many steps the scheduler's own goroutines can still take. *)
Definition energy (p : lphase) : Z :=
  match p with Idle | Gone => 0 | Stopping => 1 | Selecting => 2 | Added => 7 | Claimed => 8 | Received => 9 | Spawned => 10 end.
Definition tick_energy (b : bool) : Z := if b then 8 else 0.
Definition worker_energy (w : worker) : Z := if wk_cleared w then 1 else Z.of_nat (length (wk_todo w)) + 2.
Definition workers_energy (ws : list worker) : Z := foldr (λ w n, worker_energy w + n) 0 ws.
Definition start_energy (x : starter) : Z :=
  match x with NotStarted => 200 | Launching ls => 1 + 11 * Z.of_nat (length ls) | Launched => 0 end.
Definition wait_energy (x : waiter) : Z := match x with WNone => 3 | WWaiting => 2 | WClosed => 1 | WReturned _ => 0 end.
Definition potential (st : sched) : Z :=
  start_energy (st_start st) + total (λ l, energy (st_phase st l)) + total (λ l, tick_energy (st_tick st l)) +
  workers_energy (st_workers st) + wait_energy (st_wait st).
#[local] Arguments workers_energy : simpl never.

Lemma workers_energy_app ws1 ws2 : workers_energy (ws1 ++ ws2) = workers_energy ws1 + workers_energy ws2.
Proof. unfold workers_energy. induction ws1 as [|w ws IH]; cbn; lia. Qed.
Lemma workers_energy_cons w ws : workers_energy (w :: ws) = worker_energy w + workers_energy ws.
Proof. done. Qed.
Lemma workers_energy_nonneg ws : 0 ≤ workers_energy ws.
Proof.
  induction ws as [|w ws IH]; [done|]. rewrite workers_energy_cons. unfold worker_energy. case_match; lia.
Qed.

Lemma run_length l s : (length (lc_run (code l) s) <= 2)%nat.
Proof. destruct l; cbn; unfold runJobTimeout; repeat case_match; cbn; lia. Qed.
Lemma launched_length s : (length (launched s) <= 18)%nat.
Proof. unfold launched. rewrite length_app. pose proof (length_filter (λ l, sc_wired s l = true) optional_loops) as H. cbn in *. lia. Qed.

Lemma energy_nonneg p : 0 ≤ energy p.
Proof. destruct p; cbn; lia. Qed.

Lemma worker_step_potential a st st' : worker_step a st = Some st' → potential st' + 1 ≤ potential st.
Proof.
  unfold worker_step, potential. intros Hs. destruct a as [| | | | | | | | | | |i|i|i| | | | |]; try done.
  all: destruct (st_workers st !! i) as [[l [|c todo] []]|] eqn:Ew; try done; injection Hs as <-; cbn;
    destruct (split_at _ _ _ Ew) as (l1 & l2 & Els & Hins & Hdel); rewrite ?Hins, ?Hdel, Els, !workers_energy_app,
    ?workers_energy_cons; unfold worker_energy; cbn; lia.
Qed.

Lemma loop_step_potential a st st' : loop_step a st = Some st' → environment a = false → potential st' + 1 ≤ potential st.
Proof.
  unfold loop_step, potential. intros Hs Ha. destruct a as [| | |l|l|l|l|l|l|l|l| | | | | | | |]; try done.
  all: destruct (st_phase st l) eqn:Ep; try done.
  - injection Hs as <-. unfold begin_loop. destruct (lc_first (code l)); cbn; rewrite total_upd, Ep; cbn; lia.
  - destruct (st_tick st l) eqn:Et; [|done]. injection Hs as <-. cbn. rewrite !total_upd, Ep, Et. cbn. lia.
  - injection Hs as <-. unfold guard. destruct (st_running st l); cbn; rewrite total_upd, Ep; cbn; lia.
  - injection Hs as <-. cbn. rewrite total_upd, Ep. cbn. lia.
  - injection Hs as <-. cbn. rewrite total_upd, Ep, workers_energy_app, workers_energy_cons. unfold worker_energy. cbn.
    pose proof (run_length l (st_conf st)). unfold workers_energy. cbn. lia.
  - destruct (st_done st); [|done]. injection Hs as <-. cbn. rewrite total_upd, Ep. cbn. lia.
  - injection Hs as <-. cbn. rewrite total_upd, Ep. cbn. lia.
Qed.

Lemma step_potential a st st' : sched_step a st = Some st' →
  potential st' + (if environment a then 0 else 1) ≤ potential st + (if is_tick a then 8 else 0).
Proof.
  intros Hs. destruct a as [| | |l|l|l|l|l|l|l|l|i|i|i| | | |ok|x]; cbn [sched_step environment is_tick] in *.
  5: { unfold loop_step in Hs. destruct (st_tick st l) eqn:Et; [by rewrite andb_false_r in Hs|].
       destruct (ticker_on _); [|done]. injection Hs as <-. unfold potential. cbn. rewrite total_upd, Et. cbn. lia. }
  4-10: apply loop_step_potential in Hs; [lia|done].
  4-6: apply worker_step_potential in Hs; lia.
  4: { destruct (st_done st); [done|]. injection Hs as <-. unfold potential. cbn. lia. }
  7: { injection Hs as <-. unfold potential. cbn. lia. }
  1-3: unfold start_step in Hs; destruct (st_start st) as [|[|l ls]|] eqn:Es; try done; injection Hs as <-; unfold potential; cbn;
    rewrite Es.
  - pose proof (launched_length (st_conf st)). cbn. lia.
  - rewrite total_upd. pose proof (energy_nonneg (st_phase st l)). cbn. lia.
  - cbn. lia.
  - unfold wait_step in Hs. destruct (st_wait st) eqn:Ew; try done. injection Hs as <-. unfold potential. cbn. rewrite Ew. cbn. lia.
  - unfold wait_step in Hs. destruct (st_wait st) eqn:Ew; try done. destruct (_ =? 0); [|done]. injection Hs as <-.
    unfold potential. cbn. rewrite Ew. cbn. lia.
  - unfold wait_step in Hs. destruct ok, (st_wait st) eqn:Ew; try done; injection Hs as <-; unfold potential; cbn; rewrite Ew; cbn; lia.
Qed.

Lemma run_potential as_ : ∀ st st', run_sched as_ st = Some st' → potential st' + own_steps as_ ≤ potential st + 8 * ticks as_.
Proof.
  unfold own_steps, ticks. induction as_ as [|a as_ IH]; intros st st' Hr; [injection Hr as <-; cbn; lia|]. cbn [run_sched] in Hr.
  destruct (sched_step a st) as [st1|] eqn:Es; [|done]. specialize (IH st1 st' Hr). apply step_potential in Es.
  rewrite !filter_cons. destruct (environment a), (is_tick a); repeat case_decide; try done; cbn [length] in *; lia.
Qed.

Lemma potential_nonneg st : 0 ≤ potential st.
Proof.
  unfold potential. pose proof (total_nonneg (λ l, energy (st_phase st l)) (λ l, energy_nonneg _)).
  assert (0 ≤ total (λ l, tick_energy (st_tick st l))) by (apply total_nonneg; intros l; unfold tick_energy; case_match; lia).
  pose proof (workers_energy_nonneg (st_workers st)).
  destruct (st_start st), (st_wait st); cbn; lia.
Qed.

(** A service call that returns is the service's step, not the scheduler's. *)
Definition returns (a : label) : bool := match a with ACall _ => true | _ => false end.

(** No goroutine of the scheduler can move; only a tick, a setter, or the return of a call can. *)
Definition at_rest (st : sched) : Prop :=
  ∀ a, environment a = false → returns a = false → sched_step a st = None.

(** A run that is inside a service call. *)
Definition in_call (w : worker) : bool := negb (wk_cleared w) && bool_decide (wk_todo w ≠ []).

Lemma rest_workers st : at_rest st → Forall (λ w, in_call w = true) (st_workers st).
Proof.
  intros H. apply Forall_lookup. intros i [l todo cl] Ew.
  pose proof (H (AClear i) eq_refl eq_refl) as H2. pose proof (H (ARelease i) eq_refl eq_refl) as H3.
  cbn in H2, H3. rewrite Ew in H2, H3. by destruct todo, cl.
Qed.

(** After cancellation the goroutines of the scheduler rest only when every loop is over. *)
Lemma rest_over st : st_done st = true → at_rest st →
  st_start st = Launched ∧ (∀ l, over (st_phase st l) = true) ∧ ∃ ok, st_wait st = WReturned ok.
Proof.
  intros Hd H. split_and!.
  - pose proof (H AStart eq_refl eq_refl) as H1. pose proof (H ALaunch eq_refl eq_refl) as H2.
    pose proof (H AStarted eq_refl eq_refl) as H3. cbn in *. by destruct (st_start st) as [|[|]|].
  - intros l. pose proof (H (ABegin l) eq_refl eq_refl) as H1. pose proof (H (AGuard l) eq_refl eq_refl) as H2.
    pose proof (H (AAdd l) eq_refl eq_refl) as H3. pose proof (H (AGo l) eq_refl eq_refl) as H4.
    pose proof (H (AStop l) eq_refl eq_refl) as H5. pose proof (H (AExit l) eq_refl eq_refl) as H6.
    cbn in *. rewrite Hd in *. by destruct (st_phase st l).
  - pose proof (H AWait eq_refl eq_refl) as H1. pose proof (H (AWaitReturn false) eq_refl eq_refl) as H2. cbn in *.
    destruct (st_wait st); try done. eauto.
Qed.

Lemma over_weight st : (∀ l, over (st_phase st l) = true) → total (λ l, weight (st_phase st l)) = 0.
Proof.
  intros H. unfold total. induction all_loops as [|l ls IH]; [done|]. cbn. rewrite IH. specialize (H l).
  by destruct (st_phase st l).
Qed.

(** C37: The scheduler winds down up to the services it calls.  In every interleaving the
    goroutines of the scheduler and the returns of their service calls make at most 203 steps and
    eight more per tick, so everything comes to rest when ticks do.  The return of a service call
    is a step of the environment that need not happen: whether a service returns is not the
    scheduler's doing, and [RunHealthChecks] with an empty semaphore does not.  Once the context
    is cancelled the scheduler cannot come to rest before every loop is over and
    [WaitForCompletion] has returned; what is left then are exactly the runs inside a service
    call that has not returned, the wait group counts them, and a [WaitForCompletion] called after
    [Start] has signalled reports completion only if there is none.  When no call is outstanding
    everything is finished and the counter is zero: there is no deadlock of the scheduler's own
    on the way down. *)
Theorem scheduler_winds_down s as_ st (Hrun : run_sched as_ (fresh_sched s) = Some st) :
  own_steps as_ ≤ 203 + 8 * ticks as_ ∧
  (st_done st = true → at_rest st →
   st_start st = Launched ∧ (∀ l, over (st_phase st l) = true) ∧ (∃ ok, st_wait st = WReturned ok) ∧
   Forall (λ w, in_call w = true) (st_workers st) ∧
   st_wg st = Z.of_nat (length (st_workers st)) ∧
   (st_waited_late st = true → st_wait st = WReturned true → st_workers st = []) ∧
   (Forall (λ w, in_call w = false) (st_workers st) → finished st ∧ st_wg st = 0)).
Proof.
  split.
  - pose proof (run_potential as_ _ _ Hrun) as H. pose proof (potential_nonneg st).
    assert (potential (fresh_sched s) = 203) by (vm_compute; reflexivity). lia.
  - intros Hd Hrest. destruct (rest_over st Hd Hrest) as (Hs & Ho & Hw). pose proof (rest_workers st Hrest) as Hc.
    apply inv_run in Hrun as [_ Iw _ _ _ _ Io]. unfold pending in Iw. rewrite Hs, over_weight in Iw by done. cbn in Iw.
    split_and!; try done.
    + intros Hl Hr. by destruct (Io Hl (or_intror Hr)) as (_ & H & _).
    + intros Hn. destruct (st_workers st) as [|w ws] eqn:Ew; [done|].
      apply Forall_cons in Hc as [Hc _], Hn as [Hn _]. congruence.
Qed.

(** ** A life of the scheduler *)
Definition demo_conf : Scheduler := NewScheduler false.
Definition demo_launch : list label := AStart :: repeat ALaunch 8 ++ [AStarted].
(** Every loop starts its first run; a tick of the renewal check comes while that run is going. *)
Definition demo_runs : list label :=
  demo_launch ++ flat_map (λ l, [ABegin l; AAdd l; AGo l]) base_loops ++
  [ATick LRenewalCheck; AReceive LRenewalCheck; AGuard LRenewalCheck].
Definition demo_shutdown : list label :=
  demo_runs ++ [ACancel; AWait] ++
  flat_map (λ l, match lc_run (code l) demo_conf with [] => [] | _ => [ACall 0] end ++ [AClear 0; ARelease 0]) base_loops ++
  flat_map (λ l, [AStop l; AExit l]) base_loops ++ [AWaitDone; AWaitReturn true].

Definition demo_at (as_ : list label) : sched := default (fresh_sched demo_conf) (run_sched as_ (fresh_sched demo_conf)).

Lemma scheduler_runs_exclusive_witness :
  st_phase (demo_at demo_runs) LRenewalCheck = Selecting ∧ live_runs LRenewalCheck (st_workers (demo_at demo_runs)) = 1 ∧
  0 ≤ st_wg (demo_at demo_runs).
Proof.
  split; [vm_compute; reflexivity|]. split; [vm_compute; reflexivity|].
  apply (scheduler_runs_exclusive demo_conf demo_runs (demo_at demo_runs)). vm_compute. reflexivity.
Defined.

Lemma shutdown_complete_witness :
  finished (demo_at demo_shutdown) ∧ length (st_log (demo_at demo_shutdown)) = 7%nat.
Proof.
  split; [|vm_compute; reflexivity].
  apply (shutdown_complete demo_conf demo_shutdown (demo_at demo_shutdown) [] (demo_at demo_shutdown)); vm_compute; reflexivity.
Defined.

(** The same shutdown when the renewal check never returns: the wait gives up. *)
Definition demo_hung : list label :=
  demo_runs ++ [ACancel; AWait] ++
  flat_map (λ l, match lc_run (code l) demo_conf with [] => [] | _ => [ACall 1] end ++ [AClear 1; ARelease 1]) (tail base_loops) ++
  flat_map (λ l, [AStop l; AExit l]) base_loops ++ [AWaitReturn false].

Ltac demo_rest :=
  intros [| | |l|l|l|l|l|l|l|l|i|i|i| | | |ok|x] Ha Hr; try discriminate Ha; try discriminate Hr;
  try (destruct l); try (destruct i as [|[|i]]); try (destruct ok); vm_compute; reflexivity.

(** Cancelled and at rest: with all calls returned nothing is left; with one that hangs its run is
    left, the counter says so and the wait reports it. *)
Lemma scheduler_winds_down_witness :
  own_steps demo_shutdown ≤ 203 + 8 * ticks demo_shutdown ∧ st_wg (demo_at demo_shutdown) = 0 ∧
  at_rest (demo_at demo_hung) ∧ st_wait (demo_at demo_hung) = WReturned false ∧
  map wk_loop (st_workers (demo_at demo_hung)) = [LRenewalCheck] ∧
  st_wg (demo_at demo_hung) = Z.of_nat (length (st_workers (demo_at demo_hung))).
Proof.
  assert (at_rest (demo_at demo_hung)) as Hh by demo_rest.
  destruct (scheduler_winds_down demo_conf demo_shutdown (demo_at demo_shutdown)) as [H1 H2]; [vm_compute; reflexivity|].
  destruct (scheduler_winds_down demo_conf demo_hung (demo_at demo_hung)) as [_ H3]; [vm_compute; reflexivity|].
  split; [exact H1|]. split; [|split; [exact Hh|split; [vm_compute; reflexivity|split; [vm_compute; reflexivity|]]]].
  - apply H2; [vm_compute; reflexivity|demo_rest|vm_compute; constructor].
  - apply H3; [vm_compute; reflexivity|exact Hh].
Defined.

(** The ACME collector is set after [Start], as cmd/server/main.go does, and never runs. *)
Lemma wired_too_late_witness :
  let st := demo_at (demo_launch ++ [ASet (SetService LACMEGC true)]) in
  sc_wired (st_conf st) LACMEGC = true ∧ ∀ c, (LACMEGC, c) ∉ st_log st.
Proof.
  split; [vm_compute; reflexivity|].
  apply (wired_too_late demo_conf LACMEGC (repeat ALaunch 8 ++ [AStarted; ASet (SetService LACMEGC true)])).
  - apply (bool_decide_unpack _). vm_compute. exact I.
  - vm_compute. reflexivity.
  - vm_compute. reflexivity.
Defined.

(** A wait that does not wait for the signal of [Start] may report completion before the loops
    are launched. *)
Example early_wait_returns :
  (st_wait (demo_at ([AWait; AWaitDone; AWaitReturn true; AStart; ALaunch; ABegin LRenewalCheck; AAdd LRenewalCheck;
                      AGo LRenewalCheck; ACall 0])),
   length (st_log (demo_at ([AWait; AWaitDone; AWaitReturn true; AStart; ALaunch; ABegin LRenewalCheck; AAdd LRenewalCheck;
                      AGo LRenewalCheck; ACall 0]))))
  = (WReturned true, 1%nat).
Proof. vm_compute. reflexivity. Qed.
